(* ===== verification/_CoqProject ===== *)
-Q . S2P
Prelude.v
StableSort.v
FixedVec.v
CoreTypes.v
Hashing.v
Shuffle.v
Bloom.v
Merkle.v
Float.v
Float32.v
CoordinatorState.v
Committee.v
Coordinator.v
CoordinatorInv.v
CoordinatorProps.v
CoordinatorTotal.v
CoordinatorThms.v
Frames.v
Authorizer.v
SolanaCoordinator.v
SolanaProps.v
SolanaThms.v
Tokens.v
Distributor.v
AirdropTree.v
DistributorThms.v
MiningPool.v
MiningPoolThms.v
Treasurer.v
TreasurerInv.v
TreasurerThms.v
Disputes.v
DataSelection.v
Audits.v
Consensus.v
Payload.v
CoreContainers.v
Barrier.v
Scheduler.v
SchedulerThms.v
Client.v
ClientInv.v
ClientThms.v
Projection.v
EventStore.v
Timeline.v
TimelineThms.v
TimelineFollow.v
ProjectionThms.v
Verifier.v
VerifierThms.v
DumpNames.v
AuditTool.v
AuditToolThms.v
Daemon.v
DaemonThms.v
DaemonLimits.v
CentralServer.v
CentralServerThms.v
CentralMembers.v
CentralFile.v
DataProviders.v
DataProviderThms.v
HttpData.v
Float64.v
Weighted.v
WeightedBatches.v
WeightedThms.v
DataServer.v
ModelSharing.v
ModelSharingThms.v
Divisors.v
Compress.v
Tcp.v
Batches.v
Schedules.v
Distro.v
DistroThms.v
Trainer.v
Redact.v
