(* ===== verification/Prelude.v ===== *)
(** * A verified model of the Leviathan training network

    The repository trains one model on many machines that do not trust each other.
    A _coordinator_ state machine (src/shared/coordinator) drives epochs and rounds:
    it draws committees from a round's seed, deals data to trainers, counts witnesses
    and drops or ejects clients.  On chain it lives in the account of the _coordinator
    program_ (src/architectures/decentralized/solana-coordinator), which adds members,
    their rewards and their slashes.  Joining needs an _authorization_
    (solana-authorizer).  The _treasurer program_ (solana-treasurer) owns a coordinator
    account through its run address: it holds bonds, pays rewards, and runs the
    disputes whose convictions it carries out by calling the coordinator's slash.
    Two further programs stand beside the run: the _distributor_ hands out tokens that
    vest, against a Merkle tree of allocations, and the _mining pool_ lends collateral.
    A _training client_ (src/shared/client) follows the coordinator's state: it trains on
    the data dealt to it, announces its result with a commitment, downloads and checks the
    results of the others (src/shared/network), and applies those the witnesses vouch for.
    Its samples come from the _data providers_ (src/shared/data-provider), and a client that
    joins late gathers the model from its peers.  _Verifiers_ (src/shared/verifier, the tool
    leviathan-verifier and the daemon of solana-tooling) replay the work of others, compare
    and submit verdicts to the treasurer.  A run may also be driven by a _centralised server_
    (src/architectures/centralized) instead of the chain.  What happens is recorded by the
    _event store_ (src/shared/event-sourcing) and shown as a timeline.
    All of them use the containers and hashes of src/shared/core.

    ** Files

    - [Prelude]: machine integers with checked arithmetic and truncating casts, the
      result type [res] (ok, error, panic), the method monad [M E S] (error and state;
      the state at a panic is kept but a transaction that fails rolls back), [zoom] for
      calls on a part of the state, list lemmas, tactics and hint databases.
    - [FixedVec]: core/fixed_vec.rs, the array-and-length struct ([fv_*], slices included)
      and the bounded list ([BVec]) it refines; the later files use the list view.
    - [CoreTypes]: SmallBoolean, NodeIdentity, FixedString, ClosedInterval, BatchId.
    - [Hashing]: the hash functions as class [HashFns], the length of digests as
      [DigestLength], what else is documented of them as [HashLaws], and instances, one of
      them without collisions.
    - [Shuffle]: swap_or_not.rs, lcg.rs, deterministic_shuffle.rs.
    - [Bloom]: bloom.rs.   [Float]: the few binary64 operations of the coordinator.
    - [CoordinatorState]: the data of coordinator.rs, model.rs and core/definitions.rs.
    - [Committee]: committee_selection.rs.
    - [Coordinator]: every method of [impl Coordinator], one definition each, with the
      loops and blocks of long methods as definitions of their own.
    - [CoordinatorInv], [CoordinatorProps], [CoordinatorTotal], [CoordinatorThms]: the
      invariant [coord_wf] and its preservation, absence of panics, and the theorems.
    - [Frames]: what a method leaves unchanged, as relations composed along the monad.
    - [Authorizer]: solana-authorizer, its account and four instructions.
    - [SolanaCoordinator], [SolanaProps], [SolanaThms]: solana-coordinator; an
      instruction ([ix_*]) checks its accounts and runs a method of the instance state
      ([inst_*]), which runs a method of the coordinator; [transact] rolls failures back.
    - [Treasurer], [TreasurerInv], [TreasurerThms], [Disputes]: solana-treasurer; the
      [World] of a run is everything its instructions read or write, the coordinator
      account included, and its histories interleave calls of both programs by anybody.
    - [DataSelection], [Audits]: data_selection.rs, audit_selection.rs, and the
      agreement of the audits a node computes with the seats the treasurer accepts.
    - [Merkle]: merkle_tree.rs, its trees, paths and both kinds of proof.
    - [Tokens]: the token program as a class [TokenProgram] with its laws, shared by the
      three programs that move tokens.
    - [Distributor], [AirdropTree], [DistributorThms]: solana-distributor, the tree of
      allocations that solana-tooling builds for it, and the histories of an airdrop.
    - [MiningPool], [MiningPoolThms]: solana-mining-pool and the histories of a pool.
    - [Consensus]: what the choice among the results of a batch depends on.
    - [Payload]: network/serializable_tensor.rs, serializable_kind.rs and
      serialized_distro.rs: commitments, the receiver's checks, one-bit packing.
    - [CoreContainers]: interval_tree.rs, bounded_queue.rs, running_average.rs.
    - [Barrier]: cancellable_barrier.rs as steps of threads on its lock.
    - [Scheduler], [SchedulerThms]: network/download/scheduler.rs, the actor that grants
      download slots and keeps failed downloads for a retry.
    - [Client], [ClientInv], [ClientThms]: client/state: steps.rs with the run manager,
      round_state.rs, witness.rs, warmup.rs, and of train.rs and cooldown.rs what the
      state machine does when a step starts and when results are applied.  What is shared
      between a round and its tasks lives in a heap; every critical section of a task is
      one step, so a run ([client_run]) is any interleaving.
    - [EventStore], [Projection], [Timeline], [ProjectionThms], [TimelineThms],
      [TimelineFollow]: event-sourcing: the files of events and of coordinator states, the
      picture of the cluster they project to, and the timeline loaded from a directory and
      refreshed while it grows.
    - [StableSort]: the standard library's stable sort.   [Float32], [Float64]: bounds on
      binary32 and binary64 arithmetic and on integers as doubles.
    - [Verifier], [VerifierThms]: verifier/src/lib.rs, the distance between updates, the
      verdict, the calibration of the band and the audit of a round.
    - [DumpNames], [AuditTool], [AuditToolThms]: leviathan-verifier: names of dumps, the
      audit of a directory, the replay engine.
    - [Daemon], [DaemonThms], [DaemonLimits]: the verifier daemon, a pass and a session.
    - [CentralServer], [CentralServerThms], [CentralMembers], [CentralFile]: the server of a
      centralised run, who becomes a member, and the file of states it appends to.
    - [DataProviders], [DataProviderThms], [HttpData], [Weighted], [WeightedBatches],
      [WeightedThms]: data-provider: files cut into sequences and read from disk or the web,
      preprocessed rows, zeros, and providers mixed by weight.
    - [DataServer]: the data server of a centralised run, its client, and the task that
      fetches the batches of a step (client/fetch_data.rs).
    - [ModelSharing], [ModelSharingThms]: network/p2p_model_sharing.rs with the connections,
      bandwidths and lists of peers it relies on.
    - [Tcp]: network/tcp.rs and signed_message.rs, the connections of the
      centralised server, as steps of one machine.
    - [Divisors], [Compress], [Distro], [DistroThms]: modeling/distro.rs: sizes of chunks,
      the compression of updates, the optimiser that generates and applies results.
    - [Batches], [Trainer]: modeling/trainer.rs with
      fp32_gradient_accumulator.rs: batches, their padding and micro batches, and the thread
      that trains and applies.
    - [Schedules]: the learning-rate schedules of core/definitions.rs.
    - [Redact]: solana-tooling/redact.rs, RPC URLs and messages printed without keys.

    ** How the code is rendered

    An integer is a [Z] that keeps the width of its type through the operations: the
    on-chain workspaces set [overflow-checks = true], so an overflowing [+], [-] or [*]
    is a [Panic], as is a failed [unwrap], an index out of range or a failed [assert!];
    an [as] cast truncates.  Code that runs off chain wraps where a release build does
    and the width matters.  [Err] carries the error of the source's enum.  A method on
    [&mut self] is a state-passing function in [M].  Keys are byte lists.  A list stored
    in a [FixedVec] is the list it refines, its capacity checked where the code checks
    it.  [Clock::get()] is an argument.  Account constraints of Anchor are checks at the
    head of the instruction that fail with one error; accounts at derived addresses are
    entries of maps under the key they are derived from, so the verdict that a
    withdrawal may name for an appeal is one of the same run.  Logging is dropped.  The
    definitions compute: recursion is structural on the list a loop walks, or on a count
    the code itself bounds (the 90 rounds of the swap-or-not shuffle, the length of a
    [FixedVec] in [retain], the number of steps in [get_data_index_for_step], the seven
    retries of [fetch_batch], the 500 attempts of [blob_ticket_param_request_task], the
    twenty digits of a 64-bit number, the length of the bytes a decoding loop reads).
    The trial division of [Divisors] takes fuel, 64 halvings and the trial divisors up to the
    square root, which is shown to be enough; so no theorem depends on a choice of fuel.

    SHA-256, SipHash and the token program are not part of the repository: they are
    parameters ([HashFns], [TokenProgram]) with the sizes of digests and the effect of a
    successful transfer as laws.  So are base58 and the codecs of the event store, the
    trainer and the hash of a state, the generator of rand_chacha ([ChaCha]), the answers of
    a web server, the libraries of tensors and tokenizers ([ModelLibraries]), the tensors of
    libtorch ([Torch], [Ops]), the cosine ([Cosine]), and the encodings and signatures of the
    TCP layer ([Wire]).  The laws of tensors speak of operands of one floating kind whose sizes
    match, and promise no layout in memory for a new tensor.  The neural networks and the
    matrices of the cosine transform, which are tensor arithmetic of the repository, are
    parameters too ([Network], [basis_size]): a pass may fail or panic, and of one that
    succeeds only the sizes and kinds it leaves are assumed.  A theorem that ends in a
    collision holds for every hash function, or names the strings that collide.  Every
    theorem that uses a law has a witness on a concrete instance.  Floating point is that of
    the standard library's [SpecFloat].

    ** What is shown

    - Containers and draws: the refinement of [FixedVec] under any call sequence; the
      shuffles are permutations and never panic; Bloom filters have no false negatives;
      committees have exactly the sizes asked for and their verification accepts exactly
      the computed seats; every round's data is dealt completely, without overlap and
      evenly; every verifier gets one audit, and its seat is the one the treasurer checks.
    - The coordinator: [coord_wf] in every reachable state, no panic in [tick], the
      edges of the state machine, a bound on the ticks of an epoch's rounds, and the
      effect of witnesses, health checks and new rounds.
    - The coordinator program: the account invariant over all transactions, who may
      change the terms, how members are added, and what an epoch pays and charges.
    - The treasurer: accounting of bonds, claims and slashes in every history, what a
      withdrawal pays to whom, the life cycle of a verdict, the quorum behind a conviction,
      traced to the votes of that very round in the history, and the conviction behind an
      ejection.
    - The distributor and the mining pool: what an airdrop can pay at most in every
      history, that the tool's proofs are accepted and no others exist, and that a pool
      can always pay what its lenders may still claim.
    - The client: its books in every state it reaches (who a result came from, that blobs
      are recorded once, that a stored payload matches its commitment), when a message is
      applied and what it changes, that a client never falls out of step with a run that
      goes on, and that two clients hand the same results to their optimisers.
    - The network layer: commitments bind payloads, accepted payloads can be read safely,
      packed bits are read back; the scheduler respects its slots and serves waiters in
      order.  Core helpers: Merkle proofs are complete and sound, the interval tree is a
      scan of its intervals, the barrier releases its threads together.
    - The event store and its timeline: damaged files give back the whole events, the
      picture from a checkpoint is the replay of the history, and refreshing misses nothing.
    - The verifier: verdicts are decided, every submission of the daemon is backed by a dump
      it judged, a committer is convicted at most once, frauds it could judge are convicted.
    - The centralised server: the coordinator's invariant, members are those that asked, and
      the recorded states are read back after crashes.
    - Data: sequences tile the files, the web provider reads what the local one does, a mix
      by weight serves every batch in order, a step's batches arrive while retries suffice.
    - Model sharing: the served model arrives whole and once, tickets belong to the served update, no
      usable peer is forgotten, providers are tried by latency.
    - The TCP layer: messages are reported under the key that answered the challenge, and
      arrive in order while the connection is listed.
    - Training: padding and cutting keep every sample, a thread that is not interrupted turns
      a batch into results that fit the model or ends for a reason that is named (a pass
      that fails, an encoded update that cannot be viewed), the optimiser fails on no shape
      and no missing table, compression keeps the largest values, learning rates are finite.
    - Printed messages: once a URL is guarded, no error or panic message shows its keys.
    - Theorems named for a failure ([warmup_witness_stale_index_panics],
      [historical_index_shifts], [paused_epoch_pays_nobody],
      [slash_between_epochs_is_lost], [conviction_between_epochs_is_lost],
      [join_beyond_batches], [claims_can_spend_bonds],
      [later_request_shortens_earlier_window], [owned_proof_rejects],
      [remove_drops_other_interval], [late_deposit_is_not_covered],
      [distro_retry_limit_never_reached], [four_witnesses_disagree],
      [end_of_run_desyncs], [downloads_are_never_shown], [half_frame_is_lost],
      [wrong_length_disables], [single_batches_are_never_judged], [step_in_address_hides],
      [lost_trainer_is_final], [diverged_run_convicts_the_honest], [leavers_cannot_return],
      [warmup_override_ends], [request_beyond_the_end_panics], [preprocessed_wraps],
      [failed_parameter_is_lost], [reconnected_client_is_dropped],
      [broken_client_stays_listed], [cosine_without_decay_is_nan],
      [cancelled_training_keeps_lookahead], [fp32_gradients_are_not_averaged],
      [table_has_the_first_kind]) show where the code does not do what its names and
      comments promise; so does the last clause of [model_arrives].

    ** Not modelled

    The neural networks, tensor and data parallelism, evaluation and inference (tensor
    arithmetic of libtorch), the bodies of the cosine transforms, the transport between peers,
    cloud storage, tools and user interfaces: they are I/O and numerics around the state
    machines above.  Of the client checkpoint writing, statistics and the event loop; of the
    trainer forward-only calls, the extraction of weights, the Python trainer and the channels
    between its threads; of DisTrO the statistics, the robust aggregation behind an
    environment variable, and sharded variables.  Rent, account reallocation and
    serialisation belong to the runtime.  What an awaited task of the client returns is
    an argument of the step that awaits it. *)

From stdpp Require Import base tactics list numbers decidable.

Open Scope Z_scope.

(** * Machine integers

    A Rust integer is a [Z]; its width appears in the operations.  The on-chain
    workspaces are built with [overflow-checks = true], so an out-of-range
    [+], [-] or [*] panics, and an [as] cast truncates. *)

Definition u8_max : Z := 2 ^ 8 - 1.
Definition u16_max : Z := 2 ^ 16 - 1.
Definition u32_max : Z := 2 ^ 32 - 1.
Definition u64_max : Z := 2 ^ 64 - 1.
Definition u128_max : Z := 2 ^ 128 - 1.
Definition i64_min : Z := - 2 ^ 63.
Definition i64_max : Z := 2 ^ 63 - 1.

Definition u8 (z : Z) : Prop := 0 <= z <= u8_max.
Definition u16 (z : Z) : Prop := 0 <= z <= u16_max.
Definition u32 (z : Z) : Prop := 0 <= z <= u32_max.
Definition u64 (z : Z) : Prop := 0 <= z <= u64_max.
Definition i64 (z : Z) : Prop := i64_min <= z <= i64_max.

(** [as u16] and the like on a non-negative integer; [usize] is 64 bits wide. *)
Definition as_u16 (z : Z) : Z := z mod 2 ^ 16.
Definition as_u32 (z : Z) : Z := z mod 2 ^ 32.
Definition as_u64 (z : Z) : Z := z mod 2 ^ 64.

(** Length of a Rust collection, as [usize]. *)
Definition zlen {A} (l : list A) : Z := Z.of_nat (length l).

(** Indexing with a [usize]; [None] when out of range. *)
Definition znth {A} (l : list A) (i : Z) : option A :=
  if i <? 0 then None else l !! Z.to_nat i.

(** Assignment at a [usize] index that is in range. *)
Definition zset {A} (l : list A) (i : Z) (x : A) : list A := <[Z.to_nat i := x]> l.

(** * Outcomes: Rust's [Result] with the panicking case made explicit *)

Inductive res (E A : Type) : Type :=
| Ok (a : A)
| Err (e : E)
| Panic.
Arguments Ok {E A} a.
Arguments Err {E A} e.
Arguments Panic {E A}.

#[global] Instance res_ret E : MRet (res E) := λ A a, Ok a.
#[global] Instance res_bind E : MBind (res E) := λ A B f m,
  match m with Ok a => f a | Err e => Err e | Panic => Panic end.

(** [ok_or], [unwrap], [map_err] and early [return Err(e)]. *)
Definition ok_or {E A} (o : option A) (e : E) : res E A :=
  match o with Some a => Ok a | None => Err e end.
Definition unwrap {E A} (o : option A) : res E A :=
  match o with Some a => Ok a | None => Panic end.
Definition map_err {E F A} (f : E → F) (r : res E A) : res F A :=
  match r with Ok a => Ok a | Err e => Err (f e) | Panic => Panic end.
Definition res_throw_if {E} (b : bool) (e : E) : res E unit :=
  if b then Err e else Ok tt.
Definition res_assert {E} (b : bool) : res E unit := if b then Ok tt else Panic.
Definition is_ok {E A} (r : res E A) : bool :=
  match r with Ok _ => true | _ => false end.

(** Checked arithmetic on an unsigned type whose largest value is [m]. *)
Definition uadd {E} (m a b : Z) : res E Z := if a + b <=? m then Ok (a + b) else Panic.
Definition usub {E} (a b : Z) : res E Z := if b <=? a then Ok (a - b) else Panic.
Definition umul {E} (m a b : Z) : res E Z := if a * b <=? m then Ok (a * b) else Panic.
Definition iadd64 {E} (a b : Z) : res E Z :=
  if (i64_min <=? a + b) && (a + b <=? i64_max) then Ok (a + b) else Panic.
Definition isub64 {E} (a b : Z) : res E Z :=
  if (i64_min <=? a - b) && (a - b <=? i64_max) then Ok (a - b) else Panic.
Definition sat_sub (a b : Z) : Z := Z.max 0 (a - b).

(** * Methods on [&mut self]: a state monad over [res]

    The state is returned in every case: a method that fails after a write has
    made that write, unless the caller rolls it back. *)

Definition M (E S A : Type) : Type := S → res E A * S.

#[global] Instance M_ret E S : MRet (M E S) := λ A a s, (Ok a, s).
#[global] Instance M_bind E S : MBind (M E S) := λ A B f m s,
  match m s with
  | (Ok a, s') => f a s'
  | (Err e, s') => (Err e, s')
  | (Panic, s') => (Panic, s')
  end.

Definition lift {E S A} (r : res E A) : M E S A := λ s, (r, s).
Definition gets {E S A} (f : S → A) : M E S A := λ s, (Ok (f s), s).
Definition self {E S} : M E S S := λ s, (Ok s, s).
Definition modify {E S} (f : S → S) : M E S unit := λ s, (Ok tt, f s).
Definition throw {E S A} (e : E) : M E S A := λ s, (Err e, s).
Definition throw_if {E S} (b : bool) (e : E) : M E S unit :=
  if b then throw e else mret tt.
Definition assert {E S} (b : bool) : M E S unit := λ s, (res_assert b, s).
(** [self.method()] for a method that only reads, given as a [res]. *)
Definition asks {E S A} (f : S → res E A) : M E S A := λ s, (f s, s).
Definition whenM {E S} (b : bool) (m : M E S unit) : M E S unit :=
  if b then m else mret tt.
(** A call on a field: run [m] on the part [get s], and put the part back. *)
Definition zoom {E F S T A} (get : S → T) (set : T → S → S) (ferr : E → F)
    (m : M E T A) : M F S A := λ s,
  let '(r, t) := m (get s) in (map_err ferr r, set t s).

(** A Solana instruction: writes persist only when the handler returns [Ok]. *)
Definition transact {E S A} (m : M E S A) (s : S) : S :=
  match m s with (Ok _, s') => s' | _ => s end.

(** Iterating a fallible body over a list, stopping at the first failure. *)
Fixpoint res_fold {E A B} (f : B → A → res E A) (l : list B) (a : A) : res E A :=
  match l with
  | [] => Ok a
  | x :: l' => a' ← f x a; res_fold f l' a'
  end.

(** [for x in l { body(x) }] on [&mut self]. *)
Fixpoint forM_ {E S A} (l : list A) (body : A → M E S unit) : M E S unit :=
  match l with
  | [] => mret tt
  | x :: l' => body x ;; forM_ l' body
  end.

(** * Inversion of successful runs *)

Lemma res_bind_Ok {E A B} (m : res E A) (f : A → res E B) b :
  m ≫= f = Ok b ↔ ∃ a, m = Ok a ∧ f a = Ok b.
Proof. destruct m; simpl; split; naive_solver. Qed.

Lemma res_fold_app {E A B} (f : B → A → res E A) l1 l2 a :
  res_fold f (l1 ++ l2) a = res_fold f l1 a ≫= res_fold f l2.
Proof.
  revert a. induction l1 as [|x l1 IH]; intros a; [done|]. cbn [res_fold app].
  destruct (f x a); [apply IH|done..].
Qed.

Lemma res_throw_if_Ok {E} b (e : E) u : res_throw_if b e = Ok u ↔ b = false.
Proof. destruct b, u; simpl; naive_solver. Qed.

Lemma res_assert_Ok {E} b u : @res_assert E b = Ok u ↔ b = true.
Proof. destruct b, u; simpl; naive_solver. Qed.

Lemma ok_or_Ok {E A} (o : option A) (e : E) a : ok_or o e = Ok a ↔ o = Some a.
Proof. destruct o; simpl; naive_solver. Qed.

Lemma unwrap_Ok {E A} (o : option A) a : @unwrap E A o = Ok a ↔ o = Some a.
Proof. destruct o; simpl; naive_solver. Qed.

Lemma map_err_Ok {E F A} (f : E → F) (r : res E A) a : map_err f r = Ok a ↔ r = Ok a.
Proof. destruct r; simpl; naive_solver. Qed.

Lemma uadd_Ok {E} m a b c : @uadd E m a b = Ok c ↔ c = a + b ∧ a + b <= m.
Proof. unfold uadd. destruct (Z.leb_spec (a + b) m); split; intros; naive_solver lia. Qed.

Lemma uadd_run {E} m a b : a + b <= m → @uadd E m a b = Ok (a + b).
Proof. intros. by apply uadd_Ok. Qed.

Lemma usub_Ok {E} a b c : @usub E a b = Ok c ↔ c = a - b ∧ b <= a.
Proof. unfold usub. destruct (Z.leb_spec b a); split; intros; naive_solver lia. Qed.

Lemma umul_Ok {E} m a b c : @umul E m a b = Ok c ↔ c = a * b ∧ a * b <= m.
Proof. unfold umul. destruct (Z.leb_spec (a * b) m); split; intros; naive_solver lia. Qed.

Lemma usub_run {E} a b : b <= a → @usub E a b = Ok (a - b).
Proof. intros. by apply usub_Ok. Qed.

Lemma umul_run {E} m a b : a * b <= m → @umul E m a b = Ok (a * b).
Proof. intros. by apply umul_Ok. Qed.

Lemma iadd64_Ok {E} a b c :
  @iadd64 E a b = Ok c ↔ c = a + b ∧ i64_min <= a + b <= i64_max.
Proof.
  unfold iadd64. destruct (Z.leb_spec i64_min (a + b)), (Z.leb_spec (a + b) i64_max);
    simpl; split; intros; naive_solver lia.
Qed.

Lemma isub64_Ok {E} a b c :
  @isub64 E a b = Ok c ↔ c = a - b ∧ i64_min <= a - b <= i64_max.
Proof.
  unfold isub64. destruct (Z.leb_spec i64_min (a - b)), (Z.leb_spec (a - b) i64_max);
    simpl; split; intros; naive_solver lia.
Qed.

Lemma M_bind_Ok {E S A B} (m : M E S A) (f : A → M E S B) s b s' :
  (m ≫= f) s = (Ok b, s') ↔ ∃ a s1, m s = (Ok a, s1) ∧ f a s1 = (Ok b, s').
Proof.
  unfold mbind, M_bind. destruct (m s) as [[a|e|] s1]; split; naive_solver.
Qed.

Lemma M_bind_Err {E S A B} (m : M E S A) (f : A → M E S B) s e s' :
  (m ≫= f) s = (Err e, s') ↔
  m s = (Err e, s') ∨ ∃ a s1, m s = (Ok a, s1) ∧ f a s1 = (Err e, s').
Proof.
  unfold mbind, M_bind. destruct (m s) as [[a|e'|] s1]; split; naive_solver.
Qed.

Lemma M_bind_run {E S A B} (m : M E S A) (f : A → M E S B) s a s1 :
  m s = (Ok a, s1) → (m ≫= f) s = f a s1.
Proof. intros H. unfold mbind, M_bind. by rewrite H. Qed.

(** Running the primitive steps. *)
Lemma bind_self {E S A} (k : S → M E S A) s : (self ≫= k) s = k s s.
Proof. done. Qed.
Lemma bind_gets {E S A B} (f : S → A) (k : A → M E S B) s : (gets f ≫= k) s = k (f s) s.
Proof. done. Qed.
Lemma bind_modify {E S A} (f : S → S) (k : unit → M E S A) s : (modify f ≫= k) s = k tt (f s).
Proof. done. Qed.
Lemma bind_lift_Ok {E S A B} (a : A) (k : A → M E S B) s : (lift (Ok a) ≫= k) s = k a s.
Proof. done. Qed.
Lemma bind_ret {E S A B} (a : A) (k : A → M E S B) (s : S) :
  ((mret a : M E S A) ≫= k) s = k a s.
Proof. done. Qed.
Lemma bind_throw_if_false {E S A} (e : E) (k : unit → M E S A) s :
  (throw_if false e ≫= k) s = k tt s.
Proof. done. Qed.
#[global] Hint Rewrite @bind_self @bind_gets @bind_modify @bind_lift_Ok @bind_ret
  @bind_throw_if_false : run.

Lemma gets_Ok {E S A} (f : S → A) s a s' :
  @gets E S A f s = (Ok a, s') ↔ a = f s ∧ s' = s.
Proof. unfold gets. split; intros H; [inversion H; auto|destruct H; congruence]. Qed.

Lemma self_Ok {E S} (s a s' : S) : @self E S s = (Ok a, s') ↔ a = s ∧ s' = s.
Proof. unfold self. split; intros H; [inversion H; auto|destruct H; congruence]. Qed.

Lemma modify_Ok {E S} (f : S → S) s u s' : @modify E S f s = (Ok u, s') ↔ s' = f s.
Proof. unfold modify. destruct u. split; [by inversion 1|by intros ->]. Qed.

Lemma asks_Ok {E S A} (f : S → res E A) s a s' :
  asks f s = (Ok a, s') ↔ f s = Ok a ∧ s' = s.
Proof. unfold asks. split; intros H; [inversion H; auto|destruct H; congruence]. Qed.

Lemma lift_Ok {E S A} (r : res E A) (s : S) a s' :
  lift r s = (Ok a, s') ↔ r = Ok a ∧ s' = s.
Proof. unfold lift. split; intros H; [inversion H; auto|destruct H; congruence]. Qed.

Lemma throw_if_Ok {E S} b (e : E) (s : S) u s' :
  throw_if b e s = (Ok u, s') ↔ b = false ∧ s' = s.
Proof. unfold throw_if, throw, mret, M_ret. destruct b, u; (split; [by inversion 1|by intros [? ->]]). Qed.

Lemma throw_Ok {E S A} (e : E) (s : S) (a : A) s' : throw e s = (Ok a, s') ↔ False.
Proof. unfold throw. split; [discriminate|done]. Qed.

Lemma assert_Ok {E S} b (s : S) u s' : @assert E S b s = (Ok u, s') ↔ b = true ∧ s' = s.
Proof. unfold assert. destruct b, u; (split; [by inversion 1|by intros [? ->]]). Qed.

Lemma mret_Ok {E S A} (a : A) (s : S) b s' :
  (mret a : M E S A) s = (Ok b, s') ↔ b = a ∧ s' = s.
Proof. unfold mret, M_ret. split; intros H; [inversion H; auto|destruct H; congruence]. Qed.

Lemma zoom_Ok {E F S T A} get set (ferr : E → F) (m : M E T A) (s : S) a s' :
  zoom get set ferr m s = (Ok a, s') ↔ ∃ t, m (get s) = (Ok a, t) ∧ s' = set t s.
Proof. unfold zoom. destruct (m (get s)) as [[?|?|] t]; simpl; naive_solver. Qed.

#[global] Hint Rewrite @res_bind_Ok @res_throw_if_Ok @res_assert_Ok @ok_or_Ok
  @unwrap_Ok @map_err_Ok @uadd_Ok @usub_Ok @umul_Ok @iadd64_Ok @isub64_Ok
  @M_bind_Ok @self_Ok @gets_Ok @modify_Ok @asks_Ok @lift_Ok @throw_if_Ok @throw_Ok
  @assert_Ok @mret_Ok @zoom_Ok : monad_ok.

(** [run_inv] unfolds a successful run into the facts its steps establish. *)
Ltac run_inv_step :=
  match goal with
  | H : (Ok _, _) = (Ok _, _) |- _ => injection H as H; subst
  | H : Ok _ = Ok _ |- _ => injection H as H; subst
  | H : (Err _, _) = (Ok _, _) |- _ => discriminate H
  | H : (Panic, _) = (Ok _, _) |- _ => discriminate H
  | H : Err _ = Ok _ |- _ => discriminate H
  | H : Panic = Ok _ |- _ => discriminate H
  | H : False |- _ => destruct H
  | H : ∃ _, _ |- _ => destruct H as [? H]
  | H : _ ∧ _ |- _ => destruct H as [? H]
  | H : ?x = _ |- _ => is_var x; subst x
  | H : _ = ?x |- _ => is_var x; subst x
  | H : (_, _) = (_, _) |- _ => injection H as H; subst
  | H : _ = (Ok _, _) |- _ => progress (autorewrite with monad_ok in H)
  | H : _ = Ok _ |- _ => progress (autorewrite with monad_ok in H)
  end.
Ltac run_inv := repeat (simpl in *; run_inv_step).

(** Turning boolean comparisons into inequalities. *)
Ltac bool_prop :=
  repeat match goal with
  | H : _ && _ = true |- _ => apply andb_true_iff in H as [? H]
  | H : _ || _ = false |- _ => apply orb_false_iff in H as [? H]
  | H : negb _ = true |- _ => apply negb_true_iff in H
  | H : negb _ = false |- _ => apply negb_false_iff in H
  | H : (_ <? _) = true |- _ => apply Z.ltb_lt in H
  | H : (_ <? _) = false |- _ => apply Z.ltb_ge in H
  | H : (_ <=? _) = true |- _ => apply Z.leb_le in H
  | H : (_ <=? _) = false |- _ => apply Z.leb_gt in H
  | H : (_ =? _) = true |- _ => apply Z.eqb_eq in H
  | H : (_ =? _) = false |- _ => apply Z.eqb_neq in H
  | H : bool_decide _ = true |- _ => apply bool_decide_eq_true in H
  | H : bool_decide _ = false |- _ => apply bool_decide_eq_false in H
  end.

(** * Lists *)

Lemma list_filter_iff_in {A} (P Q : A → Prop) `{!∀ x, Decision (P x), !∀ x, Decision (Q x)} (l : list A) :
  (∀ x, x ∈ l → P x ↔ Q x) → filter P l = filter Q l.
Proof.
  induction l as [|x l IH]; intros Hl; [done|]. rewrite !filter_cons.
  rewrite IH by (intros y Hy; apply Hl; by right).
  assert (P x ↔ Q x) by (apply Hl; by left). repeat case_decide; tauto.
Qed.

Lemma znth_lt {A} (l : list A) i x : znth l i = Some x → 0 <= i < zlen l.
Proof.
  unfold znth, zlen. destruct (Z.ltb_spec i 0); [done|].
  intros Hx%lookup_lt_Some. lia.
Qed.

Lemma znth_is_Some {A} (l : list A) i : 0 <= i < zlen l → ∃ x, znth l i = Some x.
Proof.
  unfold znth, zlen. intros Hi. rewrite (proj2 (Z.ltb_ge _ _)) by lia.
  apply lookup_lt_is_Some_2. lia.
Qed.

Lemma znth_Forall {A} (P : A → Prop) (l : list A) i x : Forall P l → znth l i = Some x → P x.
Proof.
  unfold znth. destruct (i <? 0); [done|]. intros Hl Hx. by eapply Forall_lookup_1.
Qed.

Lemma zlen_nonneg {A} (l : list A) : 0 <= zlen l.
Proof. unfold zlen. lia. Qed.

Lemma alter_ext_at {A} (f g : A → A) (l : list A) i x :
  l !! i = Some x → f x = g x → alter f i l = alter g i l.
Proof.
  intros Hx Hfg. apply list_eq. intros j. destruct (decide (j = i)) as [->|Hne].
  - rewrite !list_lookup_alter_eq, Hx; simpl. by rewrite Hfg.
  - by rewrite !list_lookup_alter_ne by done.
Qed.

Lemma alter_id {A} (l : list A) i : alter (λ x, x) i l = l.
Proof.
  apply list_eq. intros j. destruct (decide (j = i)) as [->|Hne].
  - rewrite list_lookup_alter_eq. by destruct (l !! i).
  - by rewrite list_lookup_alter_ne by done.
Qed.

Lemma znth_lookup {A} (l : list A) i x : znth l i = Some x → l !! Z.to_nat i = Some x.
Proof. unfold znth. by destruct (i <? 0). Qed.
