(* ===== verification/StableSort.v ===== *)
(** * Stable sorting

    The slices' [sort], [sort_by] and [sort_by_key]: elements that compare equal keep their
    order.  Used by the timeline and by the verifier's median. *)

From stdpp Require Import base tactics list decidable sorting.
From S2P Require Import Prelude.

Section StableSort.
Context {A : Type} (le : relation A) `{!RelDecision le}.

(** Before the first element that is not smaller, so elements that compare equal keep
    their order when a list is inserted from its end. *)
Fixpoint insert_sorted (x : A) (l : list A) : list A :=
  match l with
  | [] => [x]
  | y :: l' => if decide (le x y) then x :: y :: l' else y :: insert_sorted x l'
  end.
Definition stable_sort (l : list A) : list A := foldr insert_sorted [] l.

Lemma insert_sorted_perm x l : insert_sorted x l ≡ₚ x :: l.
Proof.
  induction l as [|y l IH]; cbn; [done|]. case_decide; [done|]. rewrite IH. apply Permutation_swap.
Qed.

Lemma stable_sort_perm l : stable_sort l ≡ₚ l.
Proof. induction l as [|x l IH]; cbn; [done|]. by rewrite insert_sorted_perm, IH. Qed.

Lemma insert_sorted_front x l : Forall (le x) l → insert_sorted x l = x :: l.
Proof. destruct l as [|y l]; [done|]. intros [Hy _]%list.Forall_cons. cbn. by rewrite decide_True. Qed.

(** What is sorted and not greater than the rest stays in front. *)
Lemma stable_sort_prefix xs ys : StronglySorted le xs →
  (∀ x y, x ∈ xs → y ∈ ys → le x y) → stable_sort (xs ++ ys) = xs ++ stable_sort ys.
Proof.
  intros Hs Hle. induction Hs as [|x xs _ IH Hx]; [done|].
  change (insert_sorted x (stable_sort (xs ++ ys)) = x :: (xs ++ stable_sort ys)).
  rewrite IH by (intros; apply Hle; [by right|done]).
  apply insert_sorted_front, list.Forall_app. split; [done|].
  apply list.Forall_forall. intros y Hy. rewrite stable_sort_perm in Hy. apply Hle; [left|done].
Qed.

Context `{!Total le, !Transitive le}.

Lemma insert_sorted_sorted x l : StronglySorted le l → StronglySorted le (insert_sorted x l).
Proof.
  induction 1 as [|y l Hl IH Hy]; cbn; [by repeat constructor|]. case_decide as Hxy.
  - constructor; [by constructor|]. constructor; [done|].
    eapply list.Forall_impl; [done|]. intros z Hz. by etrans.
  - constructor; [done|]. rewrite insert_sorted_perm. constructor; [|done].
    by destruct (total le x y).
Qed.

Lemma stable_sort_sorted l : StronglySorted le (stable_sort l).
Proof. induction l as [|x l IH]; cbn; [constructor|]. by apply insert_sorted_sorted. Qed.
End StableSort.
