(* ===== verification/FixedVec.v ===== *)
(** * [psyche_core::FixedVec]

    The fixed-capacity vector every on-chain list is stored in
    (src/shared/core/src/fixed_vec.rs).  [FixedVec] is the array and the length
    the struct holds, and each method is written with the array reads, writes
    and loops of the source; an out-of-range array access panics.  [BVec] is
    what the struct promises: a list of at most [N] elements.  The refinement
    theorems say that each method, and every sequence of them, behaves as its
    [BVec] counterpart and never panics; the components that store their lists
    in a [FixedVec] are modelled over [BVec]. *)

From stdpp Require Import base tactics list numbers strings.
From S2P Require Import Prelude.

Open Scope Z_scope.

(** What a vector is sliced with: [a..b], [..], [a..], [..b]. *)
Inductive range := Range (start stop : nat) | RangeFull | RangeFrom (start : nat) | RangeTo (stop : nat).

(** ** The promise: a bounded list *)
Module BVec.
Section BVec.
Context {T : Type} (N : nat).

Definition push (x : T) : M string (list T) unit :=
  l ← gets id;
  if (length l <? N)%nat then modify (λ l, l ++ [x]) else throw "FixedVec is full".

Definition pop : M string (list T) (option T) := λ l,
  match last l with
  | Some x => (Ok (Some x), take (length l - 1) l)
  | None => (Ok None, l)
  end.

Definition get (i : nat) : M string (list T) (option T) := gets (λ l, l !! i).

(** [v[i] = x], through [IndexMut]. *)
Definition set (i : nat) (x : T) : M string (list T) unit :=
  l ← gets id;
  assert (i <? length l)%nat ;; modify (λ l, <[i := x]> l).

Definition clear : M string (list T) unit := modify (λ _, []).

Definition extend (xs : list T) : M string (list T) unit := forM_ xs push.

Definition first : M string (list T) (option T) := gets head.
Definition last_ : M string (list T) (option T) := gets last.

(** The bounds of a range in a list of [n] elements. *)
Definition bounds (rg : range) (n : nat) : res string (nat * nat) :=
  let '(start, stop) :=
    match rg with
    | Range a b => (a, b) | RangeFull => (0, n) | RangeFrom a => (a, n) | RangeTo b => (0, b)
    end%nat in
  res_assert ((start <=? stop) && (stop <=? n))%nat ;; Ok (start, stop).

(** [&v[range]], and [v[range][k] = x] through the mutable slice. *)
Definition slice (rg : range) : M string (list T) (list T) :=
  '(start, stop) ← asks (λ l, bounds rg (length l));
  gets (λ l, take (stop - start) (drop start l)).

Definition slice_set (rg : range) (k : nat) (x : T) : M string (list T) unit :=
  '(start, stop) ← asks (λ l, bounds rg (length l));
  assert (k <? stop - start)%nat ;; modify (λ l, <[(start + k)%nat := x]> l).

(** [v[i]], through [Index]. *)
Definition index (i : nat) : M string (list T) T := asks (λ l, unwrap (l !! i)).

Definition remove (i : nat) : M string (list T) (option T) := λ l,
  (Ok (l !! i), delete i l).

Definition insert (i : nat) (x : T) : M string (list T) unit :=
  l ← gets id;
  throw_if (N <=? length l)%nat "FixedVec is full" ;;
  throw_if (length l <? i)%nat "Index out of bounds" ;;
  modify (λ l, take i l ++ x :: drop i l).

(** [retain] with a closure [f] that writes to captured state [s]: the elements
    it keeps stay in order; it is called on every element, in order. *)
Fixpoint retain {E S} (f : T → S → res E (bool * S)) (l : list T) (s : S) :
    res E (list T * S) :=
  match l with
  | [] => Ok ([], s)
  | x :: l' =>
      '(b, s') ← f x s;
      '(k, s'') ← retain f l' s';
      Ok (if (b : bool) then x :: k else k, s'')
  end.

End BVec.
End BVec.

(** ** The struct *)
Section FixedVec.
Context {T : Type} (N : nat) (dflt : T).

Record FixedVec := mkFixedVec {
  data : list T;
  len : nat
}.

Definition to_list (v : FixedVec) : list T := take (len v) (data v).

(** [data] is an array of [N] elements and [len] never exceeds it. *)
Definition fv_wf (v : FixedVec) : Prop := length (data v) = N ∧ (len v ≤ N)%nat.

Definition set_data (d : list T) (v : FixedVec) : FixedVec := mkFixedVec d (len v).
Definition set_len (n : nat) (v : FixedVec) : FixedVec := mkFixedVec (data v) n.

(** [self.data[i]] and [self.data[i] = x]. *)
Definition arr_get (i : nat) : M string FixedVec T := asks (λ v, unwrap (data v !! i)).
Definition arr_set (i : nat) (x : T) : M string FixedVec unit :=
  v ← gets id;
  assert (i <? length (data v))%nat ;;
  modify (λ v, set_data (<[i := x]> (data v)) v).

Definition fv_new : FixedVec := mkFixedVec (replicate N dflt) 0.
Definition fv_len (v : FixedVec) : nat := len v.
Definition fv_is_empty (v : FixedVec) : bool := (len v =? 0)%nat.
Definition fv_is_full (v : FixedVec) : bool := (len v =? N)%nat.

Definition fv_push (x : T) : M string FixedVec unit :=
  l ← gets len;
  if (l <? N)%nat then
    arr_set l x ;;
    modify (λ v, set_len (len v + 1) v)
  else throw "FixedVec is full".

Definition fv_pop : M string FixedVec (option T) :=
  l ← gets len;
  if (0 <? l)%nat then
    modify (λ v, set_len (len v - 1) v) ;;
    l' ← gets len;
    x ← arr_get l';
    arr_set l' dflt ;;
    mret (Some x)
  else mret None.

Definition fv_get (i : nat) : M string FixedVec (option T) :=
  l ← gets len;
  if (i <? l)%nat then x ← arr_get i; mret (Some x) else mret None.

(** [IndexMut]: [get_mut(i).expect(..)], then the write. *)
Definition fv_set (i : nat) (x : T) : M string FixedVec unit :=
  l ← gets len;
  assert (i <? l)%nat ;;
  arr_set i x.

Definition fv_clear : M string FixedVec unit :=
  l ← gets len;
  forM_ (seq 0 l) (λ i, arr_set i dflt) ;;
  modify (set_len 0).

Definition fv_extend (xs : list T) : M string FixedVec unit := forM_ xs fv_push.

Definition fv_first : M string FixedVec (option T) :=
  l ← gets len;
  if (0 <? l)%nat then x ← arr_get 0; mret (Some x) else mret None.

Definition fv_last : M string FixedVec (option T) :=
  l ← gets len;
  if (0 <? l)%nat then x ← arr_get (l - 1); mret (Some x) else mret None.

(** [Index<usize>]: [get(i).expect(..)]. *)
Definition fv_index (i : nat) : M string FixedVec T :=
  o ← fv_get i;
  lift (unwrap o).

(** [Index] and [IndexMut] of the four kinds of range: their own checks against [len]. *)
Definition fv_range (rg : range) : M string FixedVec (nat * nat) :=
  l ← gets len;
  match rg with
  | Range start stop => assert (negb ((stop <? start) || (l <? stop))%nat) ;; mret (start, stop)
  | RangeFull => mret (0%nat, l)
  | RangeFrom start => assert (negb (l <? start)%nat) ;; mret (start, l)
  | RangeTo stop => assert (negb (l <? stop)%nat) ;; mret (0%nat, stop)
  end.

(** The slice of the array, with the array's own check, read or written. *)
Definition fv_slice (rg : range) : M string FixedVec (list T) :=
  '(start, stop) ← fv_range rg;
  d ← gets data;
  assert ((start <=? stop) && (stop <=? length d))%nat ;;
  mret (take (stop - start) (drop start d)).

Definition fv_slice_set (rg : range) (k : nat) (x : T) : M string FixedVec unit :=
  '(start, stop) ← fv_range rg;
  d ← gets data;
  assert ((start <=? stop) && (stop <=? length d))%nat ;;
  assert (k <? stop - start)%nat ;;
  arr_set (start + k) x.

Definition fv_remove (index : nat) : M string FixedVec (option T) :=
  l ← gets len;
  if (l <=? index)%nat then mret None
  else
    item ← arr_get index;
    let last_pos := (l - 1)%nat in
    forM_ (seq index (last_pos - index)) (λ i, x ← arr_get (i + 1); arr_set i x) ;;
    arr_set last_pos dflt ;;
    modify (λ v, set_len (len v - 1) v) ;;
    mret (Some item).

Definition fv_insert (index : nat) (element : T) : M string FixedVec unit :=
  l ← gets len;
  throw_if (N <=? l)%nat "FixedVec is full" ;;
  throw_if (l <? index)%nat "Index out of bounds" ;;
  forM_ (reverse (seq index (l - index))) (λ i, x ← arr_get i; arr_set (i + 1) x) ;;
  arr_set index element ;;
  modify (λ v, set_len (len v + 1) v).

(** The [while read < len] loop of [retain]; [fuel] is the number of elements
    still to be read. *)
Fixpoint retain_loop {E S} (f : T → S → res E (bool * S)) (fuel read write : nat)
    (d : list T) (s : S) : res E (nat * list T * S) :=
  match fuel with
  | O => Ok (write, d, s)
  | S fuel' =>
      x ← unwrap (d !! read);
      '(b, s') ← f x s;
      if (b : bool) then
        let d' := if (read =? write)%nat then d else <[write := x]> d in
        retain_loop f fuel' (read + 1) (write + 1) d' s'
      else retain_loop f fuel' (read + 1) write d s'
  end.

Definition zero_range (lo n : nat) (d : list T) : list T :=
  foldl (λ d i, <[i := dflt]> d) d (seq lo n).

Definition fv_retain {E S} (f : T → S → res E (bool * S)) (v : FixedVec) (s : S) :
    res E (FixedVec * S) :=
  '(write, d, s') ← retain_loop f (len v) 0 0 (data v) s;
  Ok (mkFixedVec (zero_range write (len v - write) d) write, s').

Definition fv_try_from_iter (xs : list T) : res string FixedVec :=
  match fv_extend xs fv_new with
  | (Ok _, v) => Ok v
  | (Err e, _) => Err e
  | (Panic, _) => Panic
  end.

End FixedVec.
Arguments FixedVec : clear implicits.
Arguments mkFixedVec {T} data len.

(** ** Refinement *)

(** A method run and its specification agree: same result, no panic, and the
    struct left behind is well formed and holds the specified list. *)
Definition refines {T A} (N : nat) (r : res string A * FixedVec T)
    (sp : res string A * list T) : Prop :=
  r.1 = sp.1 ∧ r.1 ≠ Panic ∧ fv_wf N r.2 ∧ to_list r.2 = sp.2.

(** The same without the promise that nothing panics. *)
Definition agrees {T A} (N : nat) (r : res string A * FixedVec T) (sp : res string A * list T) : Prop :=
  r.1 = sp.1 ∧ fv_wf N r.2 ∧ to_list r.2 = sp.2.

Section Refinement.
Context {T : Type} (N : nat) (dflt : T).
Implicit Types (v : FixedVec T) (x y : T) (l pre mid rest : list T).

(** The array as its live part followed by the unused part. *)
Lemma fv_wf_split v : fv_wf N v →
  ∃ rest, data v = to_list v ++ rest ∧ length (to_list v) = len v ∧
          (len v + length rest = N)%nat.
Proof.
  intros [Hd Hl]. exists (drop (len v) (data v)). unfold to_list.
  rewrite take_drop, length_take, length_drop. split; [done|lia].
Qed.

Lemma fv_of_split l rest n : n = length l → (length l + length rest = N)%nat →
  fv_wf N (mkFixedVec (l ++ rest) n) ∧ to_list (mkFixedVec (l ++ rest) n) = l.
Proof.
  intros -> ?. unfold fv_wf, to_list; simpl.
  rewrite length_app, take_app_length. split; [lia|done].
Qed.

Lemma fv_new_wf : fv_wf N (fv_new N dflt) ∧ to_list (fv_new N dflt) = [].
Proof. unfold fv_wf, to_list; simpl. rewrite length_replicate. split; [lia|done]. Qed.

(** A struct in split form, to run the methods symbolically on. *)
Lemma fv_cases v : fv_wf N v → ∃ l rest, v = mkFixedVec (l ++ rest) (length l) ∧
  to_list v = l ∧ (length l + length rest = N)%nat.
Proof.
  intros Hwf. destruct (fv_wf_split v Hwf) as (rest & Hd & Hn & HN).
  exists (to_list v), rest. split; [|split; [done|lia]].
  destruct v as [d n]; simpl in *. by rewrite <-Hd, Hn.
Qed.

Lemma arr_set_run i x d n : (i < length d)%nat →
  arr_set i x (mkFixedVec d n) = (Ok tt, mkFixedVec (<[i := x]> d) n).
Proof.
  intros Hi. unfold arr_set, assert, gets, modify, mbind, M_bind; simpl.
  by rewrite (proj2 (Nat.ltb_lt _ _) Hi).
Qed.

Lemma arr_get_run i x (d : list T) n : d !! i = Some x →
  arr_get i (mkFixedVec d n) = (Ok x, mkFixedVec d n).
Proof. intros Hi. unfold arr_get, asks; simpl. by rewrite Hi. Qed.

Lemma push_refines v x : fv_wf N v → refines N (fv_push N x v) (BVec.push N x (to_list v)).
Proof.
  intros Hwf. destruct (fv_cases v Hwf) as (l & rest & -> & -> & HN).
  unfold fv_push, BVec.push. rewrite (M_bind_run _ _ _ (length l) _) by done.
  rewrite (M_bind_run (gets id) _ l l l) by done.
  destruct (Nat.ltb_spec (length l) N) as [Hlt|Hge].
  - destruct rest as [|r rest]; simpl in HN; [lia|].
    erewrite M_bind_run by (apply arr_set_run; rewrite length_app; simpl; lia).
    rewrite insert_app_r_alt, Nat.sub_diag by lia. simpl.
    unfold modify, refines, set_len; simpl.
    replace (l ++ x :: rest) with ((l ++ [x]) ++ rest) by by rewrite <-app_assoc.
    split; [done|split; [done|apply fv_of_split; simpl; rewrite ?length_app; simpl; lia]].
  - split; [done|split; [done|by apply fv_of_split]].
Qed.

Lemma get_refines v i : fv_wf N v → refines N (fv_get i v) (BVec.get i (to_list v)).
Proof.
  intros Hwf. destruct (fv_cases v Hwf) as (l & rest & -> & -> & HN).
  unfold fv_get, BVec.get. rewrite (M_bind_run _ _ _ (length l) _) by done.
  destruct (Nat.ltb_spec i (length l)) as [Hi|Hi].
  - destruct (lookup_lt_is_Some_2 l i Hi) as [x Hx].
    erewrite M_bind_run by (apply arr_get_run; by rewrite lookup_app_l).
    unfold refines, gets; simpl. rewrite Hx. split; [done|].
    split; [done|by apply fv_of_split].
  - unfold refines, gets, mret, M_ret; simpl. rewrite lookup_ge_None_2 by done.
    split; [done|]. split; [done|by apply fv_of_split].
Qed.

Lemma refines_agrees {A} (r : res string A * FixedVec T) sp : refines N r sp → agrees N r sp.
Proof. unfold refines, agrees. naive_solver. Qed.

(** [v[i] = x] panics exactly when [i] is not a live index. *)
Lemma set_refines v i x : fv_wf N v → agrees N (fv_set i x v) (BVec.set i x (to_list v)).
Proof.
  intros Hwf. destruct (fv_cases v Hwf) as (l & rest & -> & El & HN). rewrite El.
  unfold fv_set, BVec.set. rewrite (M_bind_run _ _ _ (length l) _) by done.
  rewrite (M_bind_run (gets id) _ l l l) by done. unfold assert.
  destruct (Nat.ltb_spec i (length l)) as [Hi|Hi]; cbn [res_assert]; [|by split_and!].
  erewrite !M_bind_run by done.
  rewrite arr_set_run by (rewrite length_app; lia).
  rewrite insert_app_l by done. unfold agrees, modify; simpl.
  split; [done|apply fv_of_split; rewrite ?length_insert; lia].
Qed.

Lemma extend_refines xs v : fv_wf N v →
  refines N (fv_extend N xs v) (BVec.extend N xs (to_list v)).
Proof.
  unfold fv_extend, BVec.extend. revert v. induction xs as [|x xs IH]; intros v Hwf.
  { split; [done|]. split; [done|]. split; done. }
  cbn [forM_]. pose proof (push_refines v x Hwf) as H. unfold mbind, M_bind.
  destruct (fv_push N x v) as [r v'], (BVec.push N x (to_list v)) as [r' l'].
  destruct H as (Hr & Hp & Hwf' & Hl); simpl in *; subst r' l'.
  destruct r as [u|e|]; [by apply IH| |done].
  split; [done|]. split; [done|]. split; done.
Qed.

Lemma first_refines v : fv_wf N v → refines N (fv_first v) (BVec.first (to_list v)).
Proof.
  intros Hwf. destruct (fv_cases v Hwf) as (l & rest & -> & -> & HN).
  unfold fv_first, BVec.first. rewrite (M_bind_run _ _ _ (length l) _) by done.
  destruct l as [|x l]; split; try done; (split; [done|by apply fv_of_split]).
Qed.

Lemma last_refines v : fv_wf N v → refines N (fv_last v) (BVec.last_ (to_list v)).
Proof.
  intros Hwf. destruct (fv_cases v Hwf) as (l & rest & -> & -> & HN).
  unfold fv_last, BVec.last_. rewrite (M_bind_run _ _ _ (length l) _) by done.
  destruct l as [|x l _] using rev_ind.
  { split; [done|split; [done|by apply (fv_of_split [])]]. }
  rewrite length_app; simpl. rewrite (proj2 (Nat.ltb_lt _ _)) by lia.
  erewrite M_bind_run by (apply arr_get_run; rewrite Nat.add_sub, <-app_assoc;
    cbn [app]; by rewrite list_lookup_middle).
  unfold gets, refines; simpl. rewrite last_snoc.
  split; [done|split; [done|]]. apply fv_of_split; [by rewrite length_app|done].
Qed.

(** A range panics exactly when it is not inside the live part. *)
Lemma range_run rg (d : list T) n :
  fv_range rg (mkFixedVec d n) = (BVec.bounds rg n, mkFixedVec d n) ∧
  ∀ a b, BVec.bounds rg n = Ok (a, b) → (a ≤ b ≤ n)%nat.
Proof.
  split.
  - unfold fv_range, BVec.bounds. rewrite (M_bind_run _ _ _ n _) by done. unfold assert.
    destruct rg as [a b| |a|b]; rewrite ?Nat.leb_refl, ?andb_true_r; cbn beta iota zeta; [| done | |].
    + destruct (Nat.ltb_spec b a), (Nat.leb_spec a b), (Nat.ltb_spec n b), (Nat.leb_spec b n); try lia; done.
    + destruct (Nat.ltb_spec n a), (Nat.leb_spec a n); try lia; done.
    + destruct (Nat.ltb_spec n b), (Nat.leb_spec b n); try lia; done.
  - intros a b. unfold BVec.bounds. destruct rg; cbn beta iota zeta; destruct (_ && _) eqn:E; try done; intros [= <- <-];
      apply andb_true_iff in E as [?%Nat.leb_le ?%Nat.leb_le]; lia.
Qed.

Lemma slice_refines v rg : fv_wf N v → agrees N (fv_slice rg v) (BVec.slice rg (to_list v)).
Proof.
  intros Hwf. destruct (fv_cases v Hwf) as (l & rest & -> & El & HN). rewrite El.
  destruct (range_run rg (l ++ rest) (length l)) as [Hr Hb].
  unfold fv_slice, BVec.slice, mbind, M_bind. rewrite Hr. unfold asks.
  destruct (BVec.bounds rg (length l)) as [[a b]|e|] eqn:E; [|by split_and!..].
  specialize (Hb a b eq_refl). cbn [gets data]. unfold assert.
  rewrite !(proj2 (Nat.leb_le _ _)) by (rewrite ?length_app; lia). cbn.
  rewrite drop_app_le, take_app_le by (rewrite ?length_drop; lia).
  split; [done|by apply fv_of_split].
Qed.

Lemma slice_set_refines v rg k x : fv_wf N v →
  agrees N (fv_slice_set rg k x v) (BVec.slice_set rg k x (to_list v)).
Proof.
  intros Hwf. destruct (fv_cases v Hwf) as (l & rest & -> & El & HN). rewrite El.
  destruct (range_run rg (l ++ rest) (length l)) as [Hr Hb].
  unfold fv_slice_set, BVec.slice_set, mbind, M_bind. rewrite Hr. unfold asks.
  destruct (BVec.bounds rg (length l)) as [[a b]|e|] eqn:E; [|by split_and!..].
  specialize (Hb a b eq_refl). cbn [gets data]. unfold assert.
  rewrite !(proj2 (Nat.leb_le _ _)) by (rewrite ?length_app; lia). cbn [andb res_assert].
  destruct (Nat.ltb_spec k (b - a)) as [Hk|Hk]; cbn [res_assert]; [|by split_and!].
  rewrite arr_set_run by (rewrite length_app; lia). rewrite insert_app_l by lia. unfold agrees, modify; simpl.
  split; [done|apply fv_of_split; rewrite ?length_insert; lia].
Qed.

Lemma index_refines v i : fv_wf N v → agrees N (fv_index i v) (BVec.index i (to_list v)).
Proof.
  intros Hwf. pose proof (get_refines v i Hwf) as (H1 & _ & H2 & H3).
  unfold fv_index, BVec.index, agrees, mbind, M_bind, asks. unfold BVec.get, gets in H1, H3. cbn in H1, H3.
  destruct (fv_get i v) as [r v'] eqn:E. cbn in *. subst r. cbn. unfold lift.
  destruct (to_list v !! i); by split_and!.
Qed.

Lemma pop_refines v : fv_wf N v → refines N (fv_pop dflt v) (BVec.pop (to_list v)).
Proof.
  intros Hwf. destruct (fv_cases v Hwf) as (l & rest & -> & -> & HN).
  unfold fv_pop, BVec.pop. rewrite (M_bind_run _ _ _ (length l) _) by done.
  destruct l as [|x l _] using rev_ind.
  { split; [done|split; [done|by apply (fv_of_split [])]]. }
  rewrite last_snoc, length_app; simpl. rewrite Nat.add_sub, take_app_length.
  rewrite length_app in HN; simpl in HN.
  rewrite (proj2 (Nat.ltb_lt _ _)) by lia.
  erewrite !M_bind_run by done. unfold set_len; simpl.
  rewrite ?length_app, ?Nat.add_sub, <-app_assoc; simpl.
  erewrite M_bind_run by (apply arr_get_run; by rewrite list_lookup_middle).
  erewrite M_bind_run by (apply arr_set_run; rewrite length_app; simpl; lia).
  rewrite insert_app_r_alt, Nat.sub_diag by lia. simpl.
  split; [done|split; [done|apply fv_of_split; simpl; lia]].
Qed.

(** Clearing writes the default over the live part, left to right. *)
Lemma clear_loop pre l rest n :
  forM_ (seq (length pre) (length l)) (λ i, arr_set i dflt)
    (mkFixedVec (pre ++ l ++ rest) n) =
  (Ok tt, mkFixedVec (pre ++ replicate (length l) dflt ++ rest) n).
Proof.
  revert pre. induction l as [|x l IH]; intros pre; [done|]. cbn [length seq forM_].
  erewrite M_bind_run by (apply arr_set_run; rewrite !length_app; simpl; lia).
  rewrite insert_app_r_alt, Nat.sub_diag by lia. cbn [list_insert app].
  specialize (IH (pre ++ [dflt])). rewrite length_app, <-!app_assoc in IH. simpl in *.
  rewrite Nat.add_1_r in IH. exact IH.
Qed.

Lemma clear_refines v : fv_wf N v → refines N (fv_clear dflt v) (BVec.clear (to_list v)).
Proof.
  intros Hwf. destruct (fv_cases v Hwf) as (l & rest & -> & -> & HN).
  unfold fv_clear, BVec.clear. rewrite (M_bind_run _ _ _ (length l) _) by done.
  erewrite M_bind_run by apply (clear_loop []). simpl.
  split; [done|split; [done|apply (fv_of_split [])]]; simpl; [done|].
  rewrite length_app, length_replicate. lia.
Qed.

Lemma last_cons_default z l (a b : T) : List.last (z :: l) a = List.last (z :: l) b.
Proof. revert z. induction l as [|y l IH]; intros z; [done|apply (IH y)]. Qed.

(** Removing shifts the tail down by one place, left to right. *)
Lemma shift_down_loop pre x mid rest n :
  forM_ (seq (length pre) (length mid)) (λ i, y ← arr_get (i + 1); arr_set i y)
    (mkFixedVec (pre ++ x :: mid ++ rest) n) =
  (Ok tt, mkFixedVec (pre ++ mid ++ List.last mid x :: rest) n).
Proof.
  revert pre x. induction mid as [|y mid IH]; intros pre x; [done|].
  cbn [length seq forM_].
  erewrite M_bind_run.
  2: { erewrite M_bind_run by (apply arr_get_run; rewrite lookup_app_r by lia;
         by replace (length pre + 1 - length pre)%nat with 1%nat by lia).
       apply arr_set_run. rewrite length_app; simpl; lia. }
  rewrite insert_app_r_alt, Nat.sub_diag by lia. cbn [list_insert app].
  specialize (IH (pre ++ [y]) y). rewrite length_app, <-!app_assoc in IH. simpl in *.
  rewrite Nat.add_1_r in IH. rewrite IH. destruct mid as [|z mid]; [done|].
  by rewrite (last_cons_default z mid y x).
Qed.

Lemma remove_refines v i : fv_wf N v →
  refines N (fv_remove dflt i v) (BVec.remove i (to_list v)).
Proof.
  intros Hwf. destruct (fv_cases v Hwf) as (l & rest & -> & -> & HN).
  unfold fv_remove, BVec.remove. rewrite (M_bind_run _ _ _ (length l) _) by done.
  destruct (Nat.leb_spec (length l) i) as [Hi|Hi].
  { rewrite lookup_ge_None_2, delete_take_drop, take_ge, drop_ge, app_nil_r by lia.
    split; [done|split; [done|by apply fv_of_split]]. }
  destruct (lookup_lt_is_Some_2 l i Hi) as [x Hx].
  apply list_elem_of_split_length in Hx as (pre & mid & -> & ->).
  rewrite length_app in *; cbn [length] in *.
  rewrite <-app_assoc; cbn [app].
  erewrite M_bind_run by (apply arr_get_run; by rewrite list_lookup_middle).
  rewrite list_lookup_middle, delete_middle by done.
  replace (length pre + S (length mid) - 1 - length pre)%nat with (length mid) by lia.
  erewrite M_bind_run by apply shift_down_loop.
  replace (length pre + S (length mid) - 1)%nat with (length (pre ++ mid))
    by (rewrite length_app; lia). rewrite app_assoc.
  erewrite M_bind_run by (apply arr_set_run; rewrite !length_app; simpl; lia).
  rewrite insert_app_r_alt, Nat.sub_diag by lia. cbn [list_insert app].
  split; [done|split; [done|apply fv_of_split; simpl; rewrite ?length_app; simpl; lia]].
Qed.

(** Inserting shifts the tail up by one place, right to left. *)
Lemma shift_up_loop pre mid y rest n :
  forM_ (reverse (seq (length pre) (length mid))) (λ i, x ← arr_get i; arr_set (i + 1) x)
    (mkFixedVec (pre ++ mid ++ y :: rest) n) =
  (Ok tt, mkFixedVec (pre ++ List.hd y mid :: mid ++ rest) n).
Proof.
  revert y rest. induction mid as [|x mid IH] using rev_ind; intros y rest; [done|].
  rewrite length_app; cbn [length]. rewrite Nat.add_1_r, seq_S, reverse_snoc.
  cbn [forM_]. rewrite <-!app_assoc; cbn [app].
  erewrite M_bind_run.
  2: { erewrite M_bind_run by (apply arr_get_run; rewrite app_assoc, <-length_app;
         by rewrite list_lookup_middle).
       apply arr_set_run. rewrite !length_app; simpl; lia. }
  rewrite app_assoc, insert_app_r_alt by (rewrite length_app; lia).
  rewrite length_app.
  replace (length pre + length mid + 1 - (length pre + length mid))%nat with 1%nat by lia.
  change (<[1%nat:=x]> (x :: y :: rest)) with (x :: x :: rest).
  rewrite <-app_assoc, IH. by destruct mid.
Qed.

Lemma insert_refines v i x : fv_wf N v →
  refines N (fv_insert N i x v) (BVec.insert N i x (to_list v)).
Proof.
  intros Hwf. destruct (fv_cases v Hwf) as (l & rest & -> & -> & HN).
  unfold fv_insert, BVec.insert. rewrite (M_bind_run _ _ _ (length l) _) by done.
  rewrite (M_bind_run (gets id) _ l l l) by done.
  destruct (Nat.leb_spec N (length l)) as [Hfull|Hroom].
  { split; [done|split; [done|by apply fv_of_split]]. }
  erewrite !M_bind_run by done.
  destruct (Nat.ltb_spec (length l) i) as [Hi|Hi].
  { split; [done|split; [done|by apply fv_of_split]]. }
  erewrite !M_bind_run by done.
  destruct rest as [|r rest]; simpl in HN; [lia|].
  assert (∃ pre mid, l = pre ++ mid ∧ i = length pre) as (pre & mid & -> & ->).
  { exists (take i l), (drop i l). rewrite take_drop, length_take. split; [done|lia]. }
  rewrite length_app, Nat.add_comm, Nat.add_sub, <-app_assoc.
  erewrite M_bind_run by apply shift_up_loop.
  erewrite M_bind_run by (apply arr_set_run; rewrite length_app; simpl; lia).
  rewrite insert_app_r_alt, Nat.sub_diag by lia.
  unfold modify, refines, set_len; simpl. rewrite take_app_length, drop_app_length.
  rewrite length_app in HN.
  replace (pre ++ x :: mid ++ rest) with ((pre ++ x :: mid) ++ rest) by by rewrite <-app_assoc.
  split; [done|split; [done|apply fv_of_split; simpl; rewrite ?length_app; simpl; lia]].
Qed.

(** The [retain] loop: [kept] is final, [gap] is stale, [todo] is unread. *)
Lemma retain_loop_spec {E St} (f : T → St → res E (bool * St)) todo kept gap rest s :
  match BVec.retain f todo s with
  | Ok (k, s') => ∃ gap',
      retain_loop f (length todo) (length kept + length gap) (length kept)
        (kept ++ gap ++ todo ++ rest) s =
      Ok (length (kept ++ k), (kept ++ k) ++ gap' ++ rest, s') ∧
      (length k + length gap' = length gap + length todo)%nat
  | Err e => retain_loop f (length todo) (length kept + length gap) (length kept)
        (kept ++ gap ++ todo ++ rest) s = Err e
  | Panic => retain_loop f (length todo) (length kept + length gap) (length kept)
        (kept ++ gap ++ todo ++ rest) s = Panic
  end.
Proof.
  revert kept gap s. induction todo as [|x todo IH]; intros kept gap s.
  { simpl. exists gap. rewrite app_nil_r. split; [done|simpl; lia]. }
  cbn [BVec.retain length retain_loop]. rewrite app_assoc, <-length_app.
  rewrite <-app_comm_cons, list_lookup_middle by done. cbn [unwrap mbind res_bind].
  destruct (f x s) as [[b s1]|e|]; [|done..]. destruct b.
  - destruct gap as [|g gap].
    + rewrite app_nil_r, Nat.eqb_refl.
      specialize (IH (kept ++ [x]) [] s1). rewrite length_app, Nat.add_0_r in IH.
      rewrite <-app_assoc in IH. simpl in IH |- *.
      destruct (BVec.retain f todo s1) as [[k s2]|e|]; [|done..].
      destruct IH as (gap' & Hrun & Hlen). exists gap'. simpl.
      rewrite Hrun, <-!app_assoc; simpl. split; [done|lia].
    + destruct (Nat.eqb_spec (length (kept ++ g :: gap)) (length kept)) as [Heq|_];
        [rewrite length_app in Heq; simpl in Heq; lia|].
      rewrite <-app_assoc, insert_app_r_alt, Nat.sub_diag by lia. cbn [app].
      change (<[0%nat:=x]> (g :: gap ++ x :: todo ++ rest)) with (x :: gap ++ x :: todo ++ rest).
      specialize (IH (kept ++ [x]) (gap ++ [x]) s1).
      rewrite !length_app, <-!app_assoc in IH. simpl in IH |- *.
      rewrite length_app; simpl.
      replace (length kept + S (length gap) + 1)%nat
        with (length kept + 1 + (length gap + 1))%nat by lia.
      destruct (BVec.retain f todo s1) as [[k s2]|e|]; [|done..].
      destruct IH as (gap' & Hrun & Hlen). exists gap'. simpl.
      rewrite Hrun, <-!app_assoc; simpl. split; [done|lia].
  - specialize (IH kept (gap ++ [x]) s1). rewrite !length_app, <-!app_assoc in IH.
    rewrite length_app, <-app_assoc. simpl in IH |- *.
    rewrite Nat.add_assoc in IH.
    destruct (BVec.retain f todo s1) as [[k s2]|e|]; [|done..].
    destruct IH as (gap' & Hrun & Hlen). exists gap'. split; [done|lia].
Qed.

Lemma zero_range_spec pre mid rest :
  zero_range dflt (length pre) (length mid) (pre ++ mid ++ rest) =
  pre ++ replicate (length mid) dflt ++ rest.
Proof.
  unfold zero_range. revert pre. induction mid as [|x mid IH]; intros pre; [done|].
  cbn [length seq foldl]. rewrite insert_app_r_alt, Nat.sub_diag by lia. simpl.
  specialize (IH (pre ++ [dflt])). rewrite length_app, <-!app_assoc in IH. simpl in IH.
  rewrite Nat.add_1_r in IH. exact IH.
Qed.

Lemma retain_refines {E St} (f : T → St → res E (bool * St)) v s : fv_wf N v →
  match BVec.retain f (to_list v) s with
  | Ok (k, s') => ∃ v', fv_retain dflt f v s = Ok (v', s') ∧ fv_wf N v' ∧ to_list v' = k
  | Err e => fv_retain dflt f v s = Err e
  | Panic => fv_retain dflt f v s = Panic
  end.
Proof.
  intros Hwf. destruct (fv_cases v Hwf) as (l & rest & -> & -> & HN).
  unfold fv_retain; simpl. pose proof (retain_loop_spec f l [] [] rest s) as H.
  simpl in H. destruct (BVec.retain f l s) as [[k s']|e|]; [|by rewrite H..].
  destruct H as (gap' & -> & Hlen). simpl in *. eexists. split; [done|].
  replace (length l - length k)%nat with (length gap') by lia. rewrite zero_range_spec.
  apply fv_of_split; [done|]. rewrite length_app, length_replicate. lia.
Qed.

End Refinement.

(** ** Sequences of calls *)
Section Calls.
Context {T St : Type} (N : nat) (dflt : T).

Inductive call : Type :=
| CPush (x : T) | CExtend (xs : list T) | CFirst | CLast | CPop | CGet (i : nat) | CIndex (i : nat) | CSet (i : nat) (x : T)
| CLen | CIsEmpty | CIsFull | CSlice (rg : range) | CSliceSet (rg : range) (k : nat) (x : T)
| CClear | CRemove (i : nat) | CInsert (i : nat) (x : T) | CRetain (f : T → St → bool * St) (s : St).

(** What a call returns; for [retain] the state its closure ends with. *)
Inductive reply : Type :=
| RUnit | ROption (o : option T) | RElement (x : T) | RNumber (n : nat) | RBool (b : bool) | RSlice (l : list T) | RClosure (s : St).

Definition returning {S A} (f : A → reply) (m : M string S A) : M string S reply := x ← m; mret (f x).
Definition done_ : unit → reply := λ _, RUnit.

Definition fv_call (c : call) : M string (FixedVec T) reply :=
  match c with
  | CPush x => returning done_ (fv_push N x)
  | CExtend xs => returning done_ (fv_extend N xs)
  | CFirst => returning ROption fv_first
  | CLast => returning ROption fv_last
  | CPop => returning ROption (fv_pop dflt)
  | CGet i => returning ROption (fv_get i)
  | CIndex i => returning RElement (fv_index i)
  | CSet i x => returning done_ (fv_set i x)
  | CLen => returning RNumber (gets fv_len)
  | CIsEmpty => returning RBool (gets fv_is_empty)
  | CIsFull => returning RBool (gets (fv_is_full N))
  | CSlice rg => returning RSlice (fv_slice rg)
  | CSliceSet rg k x => returning done_ (fv_slice_set rg k x)
  | CClear => returning done_ (fv_clear dflt)
  | CRemove i => returning ROption (fv_remove dflt i)
  | CInsert i x => returning done_ (fv_insert N i x)
  | CRetain f s => λ v,
      match fv_retain dflt (λ x s, Ok (f x s)) v s with
      | Ok (v', s') => (Ok (RClosure s'), v') | Err e => (Err e, v) | Panic => (Panic, v)
      end
  end.

Definition bv_call (c : call) : M string (list T) reply :=
  match c with
  | CPush x => returning done_ (BVec.push N x)
  | CExtend xs => returning done_ (BVec.extend N xs)
  | CFirst => returning ROption BVec.first
  | CLast => returning ROption BVec.last_
  | CPop => returning ROption BVec.pop
  | CGet i => returning ROption (BVec.get i)
  | CIndex i => returning RElement (BVec.index i)
  | CSet i x => returning done_ (BVec.set i x)
  | CLen => returning RNumber (gets length)
  | CIsEmpty => returning RBool (gets (λ l, length l =? 0)%nat)
  | CIsFull => returning RBool (gets (λ l, length l =? N)%nat)
  | CSlice rg => returning RSlice (BVec.slice rg)
  | CSliceSet rg k x => returning done_ (BVec.slice_set rg k x)
  | CClear => returning done_ BVec.clear
  | CRemove i => returning ROption (BVec.remove i)
  | CInsert i x => returning done_ (BVec.insert N i x)
  | CRetain f s => λ l,
      match BVec.retain (λ x s, Ok (f x s)) l s with
      | Ok (k, s') => (Ok (RClosure s'), k) | Err e => (Err e, l) | Panic => (Panic, l)
      end
  end.

(** Every result the caller sees, up to the first panic. *)
Fixpoint run_calls {S} (exec : call → M string S reply) (cs : list call) (s : S) :
    list (res string reply) * S :=
  match cs with
  | [] => ([], s)
  | c :: cs' =>
      match exec c s with
      | (Panic, s') => ([Panic], s')
      | (r, s') => let '(rs, s'') := run_calls exec cs' s' in (r :: rs, s'')
      end
  end.

Lemma returning_agrees {A} (f : A → reply) (m : M string (FixedVec T) A) (m' : M string (list T) A) v :
  agrees N (m v) (m' (to_list v)) → agrees N (returning f m v) (returning f m' (to_list v)).
Proof.
  unfold agrees, returning, mbind, M_bind. destruct (m v) as [r v'], (m' _) as [r' l'].
  simpl. intros (<- & Hwf & Hl). by destruct r.
Qed.

Lemma reads_agree {A} (f : FixedVec T → A) (g : list T → A) v : fv_wf N v → f v = g (to_list v) →
  agrees N (gets f v) (gets g (to_list v)).
Proof. intros Hwf E. unfold agrees, gets. simpl. by rewrite E. Qed.

Lemma to_list_length (v : FixedVec T) : fv_wf N v → length (to_list v) = len v.
Proof. intros [Hd Hl]. unfold to_list. rewrite length_take. lia. Qed.

Lemma call_refines c v : fv_wf N v → agrees N (fv_call c v) (bv_call c (to_list v)).
Proof.
  intros Hwf. pose proof (to_list_length v Hwf) as Hlen.
  destruct c; cbn [fv_call bv_call]; try apply returning_agrees;
    auto using set_refines, index_refines, slice_refines, slice_set_refines.
  all: try solve [apply reads_agree; [done|]; by rewrite Hlen].
  all: try solve [apply refines_agrees; auto using push_refines, extend_refines, first_refines, last_refines,
    pop_refines, get_refines, clear_refines, remove_refines, insert_refines].
  - pose proof (retain_refines (E:=string) N dflt (λ x s, Ok (f x s)) v s Hwf) as H.
    destruct (BVec.retain _ (to_list v) s) as [[k s']|e|].
    + by destruct H as (v' & -> & ? & ?).
    + by rewrite H.
    + by rewrite H.
Qed.

Lemma run_calls_refines cs v : fv_wf N v →
  (run_calls fv_call cs v).1 = (run_calls bv_call cs (to_list v)).1 ∧
  fv_wf N (run_calls fv_call cs v).2 ∧
  to_list (run_calls fv_call cs v).2 = (run_calls bv_call cs (to_list v)).2.
Proof.
  revert v. induction cs as [|c cs IH]; intros v Hwf; [done|]. simpl.
  pose proof (call_refines c v Hwf) as H. unfold agrees in H.
  destruct (fv_call c v) as [r v'], (bv_call c (to_list v)) as [r' l']; simpl in H.
  destruct H as (<- & Hwf' & <-). specialize (IH v' Hwf').
  destruct r as [a|e|]; [..|done];
    destruct (run_calls fv_call cs v') as [rs s1], (run_calls bv_call cs _) as [rs' s2];
    simpl in *; naive_solver.
Qed.

End Calls.
Arguments call : clear implicits.
Arguments reply : clear implicits.

(** C39: from [FixedVec::new()], any sequence of calls (push, pop, extend, first, last, get,
    indexing, assignment by index, len, is_empty, is_full, slices by the four kinds of range and
    assignments through them, clear, remove, insert, and retain with a closure that has a state
    of its own) returns exactly what the bounded list of capacity [N] returns, errors and
    panics included, and afterwards the struct is well formed and its live part is that list. *)
Theorem fixed_vec_refines_bounded_list {T St} (N : nat) (dflt : T) (cs : list (call T St)) :
  let c := run_calls (fv_call N dflt) cs (fv_new N dflt) in
  let a := run_calls (bv_call N) cs [] in
  c.1 = a.1 ∧ fv_wf N c.2 ∧ to_list c.2 = a.2 ∧ (length a.2 ≤ N)%nat.
Proof.
  simpl. destruct (fv_new_wf N dflt) as [Hwf Hnil].
  pose proof (run_calls_refines N dflt cs _ Hwf) as H. rewrite Hnil in H.
  destruct H as (H1 & H2 & H3). split; [done|]. split; [done|]. split; [done|].
  rewrite <-H3. unfold to_list. rewrite length_take. destruct H2. lia.
Qed.
