(* ===== verification/CoreTypes.v ===== *)
(** * Small data types of [psyche_core]

    Little-endian integers, [SmallBoolean] (small_boolean.rs), [NodeIdentity]
    (node_identity.rs), [FixedString] (fixed_string.rs), [ClosedInterval]
    (interval_tree.rs) and [BatchId] (batch_id.rs), all under
    src/shared/core/src.  Bytes are integers between 0 and 255. *)

From stdpp Require Import base tactics list numbers decidable strings.
From Stdlib Require Import Ascii.
From S2P Require Import Prelude.

Open Scope Z_scope.

Definition byte (b : Z) : Prop := 0 <= b < 256.
Definition bytes (l : list Z) : Prop := Forall byte l.

(** UTF-8 bytes of a string literal. *)
Definition as_bytes (s : string) : list Z :=
  (λ c, Z.of_nat (nat_of_ascii c)) <$> String.list_ascii_of_string s.

(** [to_le_bytes] of an [8 n]-bit integer and [from_le_bytes]. *)
Fixpoint to_le_bytes (n : nat) (z : Z) : list Z :=
  match n with
  | O => []
  | S n' => z mod 256 :: to_le_bytes n' (z / 256)
  end.

Fixpoint from_le_bytes (l : list Z) : Z :=
  match l with
  | [] => 0
  | b :: l' => b + 256 * from_le_bytes l'
  end.

Lemma to_le_bytes_length n z : length (to_le_bytes n z) = n.
Proof. revert z. induction n as [|n IH]; intros z; simpl; [done|by rewrite IH]. Qed.

Lemma to_le_bytes_bytes n z : bytes (to_le_bytes n z).
Proof.
  revert z. induction n as [|n IH]; intros z; simpl; constructor; [|apply IH].
  unfold byte. pose proof (Z.mod_pos_bound z 256). lia.
Qed.

Lemma from_le_bytes_range l : bytes l → 0 <= from_le_bytes l < 256 ^ zlen l.
Proof.
  unfold zlen. induction 1 as [|b l Hb _ IH]; [simpl; lia|].
  cbn [from_le_bytes length]. rewrite Nat2Z.inj_succ, Z.pow_succ_r by lia.
  unfold byte in Hb. lia.
Qed.

Lemma from_to_le_bytes n z : 0 <= z < 256 ^ Z.of_nat n → from_le_bytes (to_le_bytes n z) = z.
Proof.
  revert z. induction n as [|n IH]; intros z Hz; [simpl in *; lia|].
  rewrite Nat2Z.inj_succ, Z.pow_succ_r in Hz by lia.
  cbn [from_le_bytes to_le_bytes]. rewrite IH.
  - pose proof (Z.div_mod z 256). lia.
  - split; [apply Z.div_pos; lia|apply Z.div_lt_upper_bound; lia].
Qed.

Lemma to_le_bytes_mod_inj n x y :
  to_le_bytes n x = to_le_bytes n y → x mod 256 ^ Z.of_nat n = y mod 256 ^ Z.of_nat n.
Proof.
  revert x y. induction n as [|n IH]; intros x y Hxy; [by rewrite !Z.mod_1_r|].
  cbn [to_le_bytes] in Hxy. injection Hxy as Hb Hr. apply IH in Hr.
  rewrite Nat2Z.inj_succ, Z.pow_succ_r by lia.
  rewrite !(Z.rem_mul_r _ 256) by (try lia; apply Z.pow_nonzero; lia).
  by rewrite Hb, Hr.
Qed.

(** ** SmallBoolean *)
Definition SmallBoolean : Type := Z.
Definition sb_TRUE : SmallBoolean := 1.
Definition sb_FALSE : SmallBoolean := 0.
Definition sb_new (b : bool) : SmallBoolean := if b then sb_TRUE else sb_FALSE.
Definition is_false (b : SmallBoolean) : bool := b =? 0.
Definition is_true (b : SmallBoolean) : bool := negb (is_false b).

Lemma is_true_new b : is_true (sb_new b) = b.
Proof. by destruct b. Qed.

(** ** NodeIdentity *)
Record NodeIdentity := mkNodeIdentity {
  signer : list Z;
  p2p_identity : list Z
}.

#[global] Instance NodeIdentity_eq_dec : EqDecision NodeIdentity.
Proof. solve_decision. Defined.

Definition from_single_key (key : list Z) : NodeIdentity := mkNodeIdentity key key.
Definition default_identity : NodeIdentity := from_single_key (replicate 32 0).

(** [PartialEq] compares the signer only, so two identities that differ in their
    p2p key are the same participant. *)
Definition id_eqb (a b : NodeIdentity) : bool := bool_decide (signer a = signer b).

#[global] Instance NodeIdentity_equiv : Equiv NodeIdentity := λ a b, signer a = signer b.
#[global] Instance NodeIdentity_equivalence : Equivalence (≡@{NodeIdentity}).
Proof.
  split; red; unfold equiv, NodeIdentity_equiv; intros; congruence.
Qed.
#[global] Instance signer_proper : Proper ((≡) ==> (=)) signer.
Proof. by intros ???. Qed.
#[global] Instance id_eqb_proper : Proper ((≡) ==> (≡) ==> (=)) id_eqb.
Proof. intros a a' Ha b b' Hb. unfold id_eqb. by rewrite Ha, Hb. Qed.

Lemma id_eqb_equiv a b : id_eqb a b = true ↔ a ≡ b.
Proof. unfold id_eqb. apply bool_decide_eq_true. Qed.
Lemma id_eqb_refl a : id_eqb a a = true.
Proof. by apply id_eqb_equiv. Qed.
Lemma id_eqb_false a b : id_eqb a b = false ↔ ¬ a ≡ b.
Proof. unfold id_eqb. apply bool_decide_eq_false. Qed.

(** ** FixedString *)
Section FixedString.
Context (L : nat).

Definition FixedString : Type := list Z.

Definition fs_new : FixedString := replicate L 0.
Definition fs_from_str_truncated (s : list Z) : FixedString :=
  let len := Nat.min (length s) L in
  take len s ++ replicate (L - len) 0.
Definition fs_is_empty (f : FixedString) : bool :=
  match f with b :: _ => b =? 0 | [] => true end.

Definition fs_try_from (s : list Z) : res (nat * nat) FixedString :=
  if (L <? length s)%nat then Err (length s, L)
  else Ok (s ++ replicate (L - length s) 0).

(** [String::from]: the bytes before the first zero. *)
Fixpoint fs_to_bytes (f : FixedString) : list Z :=
  match f with
  | [] => []
  | b :: f' => if b =? 0 then [] else b :: fs_to_bytes f'
  end.

Lemma fs_to_bytes_app s rest : Forall (λ b, b ≠ 0) s →
  fs_to_bytes (s ++ rest) = s ++ fs_to_bytes rest.
Proof.
  induction 1 as [|b s Hb _ IH]; [done|]. simpl.
  rewrite (proj2 (Z.eqb_neq _ _) Hb). by rewrite IH.
Qed.

Lemma fs_to_bytes_zeros n : fs_to_bytes (replicate n 0) = [].
Proof. by destruct n. Qed.

(** Storing a string without interior NULs and reading it back. *)
Lemma fs_roundtrip s : Forall (λ b, b ≠ 0) s →
  match fs_try_from s with
  | Ok f => length f = L ∧ fs_to_bytes f = s
  | Err e => e = (length s, L) ∧ (L < length s)%nat
  | Panic => False
  end.
Proof.
  intros Hs. unfold fs_try_from. destruct (Nat.ltb_spec L (length s)) as [Hlt|Hle]; [done|].
  rewrite fs_to_bytes_app, fs_to_bytes_zeros, app_nil_r, length_app, length_replicate by done.
  split; [lia|done].
Qed.

(** [is_empty] tests the first byte; it holds exactly of the empty string. *)
Lemma fs_is_empty_spec f : fs_is_empty f = true ↔ fs_to_bytes f = [].
Proof. destruct f as [|b f]; simpl; [done|]. destruct (b =? 0); done. Qed.

End FixedString.

(** ** ClosedInterval and BatchId *)
Record ClosedInterval := mkClosedInterval {
  start : Z;
  end_ : Z
}.

#[global] Instance ClosedInterval_eq_dec : EqDecision ClosedInterval.
Proof. solve_decision. Defined.

Definition ClosedInterval_new {E} (a b : Z) : res E ClosedInterval :=
  res_assert (a <=? b) ;; Ok (mkClosedInterval a b).
Definition contains (i : ClosedInterval) (point : Z) : bool :=
  (start i <=? point) && (point <=? end_ i).
Definition overlaps (i j : ClosedInterval) : bool :=
  (start i <=? end_ j) && (start j <=? end_ i).

(** Two intervals overlap exactly when they share a point. *)
Lemma overlaps_spec i j : start i <= end_ i → start j <= end_ j →
  overlaps i j = true ↔ ∃ p, contains i p = true ∧ contains j p = true.
Proof.
  intros Hi Hj. unfold overlaps, contains. split.
  - intros H. bool_prop. exists (Z.max (start i) (start j)).
    split; apply andb_true_iff; split; apply Z.leb_le; lia.
  - intros (p & H1 & H2). bool_prop. apply andb_true_iff; split; apply Z.leb_le; lia.
Qed.

Definition BatchId : Type := ClosedInterval.

(** [(end - start + 1) as usize]. *)
Definition batch_len {E} (b : BatchId) : res E Z :=
  n ← usub (end_ b) (start b);
  uadd u64_max n 1.
Definition batch_iter (b : BatchId) : list Z := seqZ (start b) (end_ b - start b + 1).

(** The derived [Ord]: by start, then by end. *)
Definition batch_ltb (a b : BatchId) : bool :=
  (start a <? start b) || ((start a =? start b) && (end_ a <? end_ b)).
