(* ===== verification/Hashing.v ===== *)
(** * Hash functions

    The program hashes with crates that are not part of the repository: [sha2]
    (or the Solana syscall) behind src/shared/core/src/sha256.rs, and [fnv] behind
    the Bloom filter.  They are parameters of the model: the class [HashFns] gives
    the two functions and [HashLaws] what the program relies on, that a digest is
    32 bytes and that an FNV hash is a [u64]; [DigestLength] is the length alone.

    [Sha256] is FIPS 180-4 written out, and [Fnv1a] the FNV-1a recurrence: with
    them [HashFns] has an executable instance that satisfies the laws, which the
    concrete evaluations of this library use. *)

From stdpp Require Import base tactics countable list numbers strings.
From S2P Require Import Prelude CoreTypes.

Open Scope Z_scope.

Class HashFns := {
  digest : list Z → list Z;              (* [Sha256::new().update(..).finalize()] *)
  fnv_with_key : Z → list Z → Z          (* [FnvHasher::with_key(k)], write, finish *)
}.

(** All digests have one length.  Nothing is said of their elements, so a digest may be
    injective ([wide_hashes]): a theorem that needs this law only and offers a collision as
    an alternative is not settled by counting digests. *)
Class DigestLength {H : HashFns} : Prop := digest_length d : length (digest d) = 32%nat.
Arguments DigestLength : clear implicits.

Class HashLaws {H : HashFns} : Prop := {
  #[global] hash_digest_length :: DigestLength H;
  digest_bytes d : bytes (digest d);
  fnv_u64 k d : u64 (fnv_with_key k d)
}.
Arguments HashLaws : clear implicits.

Section Sha.
Context {H : HashFns}.

Definition sha256 (data : list Z) : list Z := digest data.

(** [update] is called once per slice; the digest is that of their concatenation. *)
Definition sha256v (data : list (list Z)) : list Z := digest (concat data).

Lemma sha256v_length `{!DigestLength H} l : length (sha256v l) = 32%nat.
Proof. apply digest_length. Qed.
Lemma sha256v_bytes `{!HashLaws H} l : bytes (sha256v l).
Proof. apply digest_bytes. Qed.

(** Two different byte strings with one digest. *)
Definition collision : Prop := ∃ a b : list Z, a ≠ b ∧ digest a = digest b.

(** The same, with the strings among those of two lists. *)
Definition collision_between (l1 l2 : list (list Z)) : Prop :=
  ∃ a b, a ∈ l1 ∧ b ∈ l2 ∧ a ≠ b ∧ digest a = digest b.

Lemma same_digest a b l1 l2 : digest a = digest b → a ∈ l1 → b ∈ l2 → a = b ∨ collision_between l1 l2.
Proof. intros Hd H1 H2. destruct (decide (a = b)); [by left|right; by exists a, b]. Qed.

Lemma digest_inj a b : digest a = digest b → a = b ∨ collision.
Proof. intros Hd. destruct (decide (a = b)); [by left|right; by exists a, b]. Qed.
End Sha.

Module Sha256.

Definition mask32 (x : Z) : Z := Z.land x 0xffffffff.
Definition add32 (a b : Z) : Z := mask32 (a + b).
Definition rotr (n x : Z) : Z :=
  Z.lor (Z.shiftr x n) (mask32 (Z.shiftl x (32 - n))).

(** Constants are written eight 32-bit words to a numeral and split here. *)
Definition words8 (z : Z) : list Z :=
  (λ i, mask32 (Z.shiftr z (32 * (7 - i)))) <$> seqZ 0 8.

Definition round_constants : list Z := Eval vm_compute in concat (words8 <$> [
  0x428a2f9871374491b5c0fbcfe9b5dba53956c25b59f111f1923f82a4ab1c5ed5;
  0xd807aa9812835b01243185be550c7dc372be5d7480deb1fe9bdc06a7c19bf174;
  0xe49b69c1efbe47860fc19dc6240ca1cc2de92c6f4a7484aa5cb0a9dc76f988da;
  0x983e5152a831c66db00327c8bf597fc7c6e00bf3d5a7914706ca635114292967;
  0x27b70a852e1b21384d2c6dfc53380d13650a7354766a0abb81c2c92e92722c85;
  0xa2bfe8a1a81a664bc24b8b70c76c51a3d192e819d6990624f40e3585106aa070;
  0x19a4c1161e376c082748774c34b0bcb5391c0cb34ed8aa4a5b9cca4f682e6ff3;
  0x748f82ee78a5636f84c878148cc7020890befffaa4506cebbef9a3f7c67178f2
  ]).

Definition initial_hash : list Z := Eval vm_compute in words8
  0x6a09e667bb67ae853c6ef372a54ff53a510e527f9b05688c1f83d9ab5be0cd19.

Definition be_word (l : list Z) : Z := foldl (λ a b, a * 256 + b) 0 l.
Definition be_bytes (n : nat) (z : Z) : list Z := reverse (to_le_bytes n z).

Definition pad (d : list Z) : list Z :=
  let n := zlen d in
  d ++ 128 :: replicate (Z.to_nat ((55 - n) mod 64)) 0 ++ be_bytes 8 (8 * n).

Fixpoint chunks (fuel k : nat) (l : list Z) : list (list Z) :=
  match fuel, l with
  | S fuel', _ :: _ => take k l :: chunks fuel' k (drop k l)
  | _, _ => []
  end.

(** Message schedule, kept newest first: [w] holds the 16 most recent words. *)
Fixpoint schedule (n : nat) (w : list Z) (acc : list Z) : list Z :=
  match n with
  | O => reverse acc
  | S n' =>
      let w0 := nth 15 w 0 in let w1 := nth 14 w 0 in
      let w9 := nth 6 w 0 in let w14 := nth 1 w 0 in
      let s0 := Z.lxor (Z.lxor (rotr 7 w1) (rotr 18 w1)) (Z.shiftr w1 3) in
      let s1 := Z.lxor (Z.lxor (rotr 17 w14) (rotr 19 w14)) (Z.shiftr w14 10) in
      let x := mask32 (w0 + s0 + w9 + s1) in
      schedule n' (x :: take 15 w) (x :: acc)
  end.

Definition step (s : list Z) (kw : Z * Z) : list Z :=
  match s with
  | [a; b; c; d; e; f; g; h] =>
      let S1 := Z.lxor (Z.lxor (rotr 6 e) (rotr 11 e)) (rotr 25 e) in
      let ch := Z.lxor (Z.land e f) (Z.land (Z.lxor e 0xffffffff) g) in
      let t1 := h + S1 + ch + kw.1 + kw.2 in
      let S0 := Z.lxor (Z.lxor (rotr 2 a) (rotr 13 a)) (rotr 22 a) in
      let mj := Z.lxor (Z.lxor (Z.land a b) (Z.land a c)) (Z.land b c) in
      [mask32 (t1 + S0 + mj); a; b; c; add32 d t1; e; f; g]
  | _ => s
  end.

Definition block (h : list Z) (b : list Z) : list Z :=
  let w16 := be_word <$> chunks 16 4 b in
  let ws := w16 ++ schedule 48 (reverse w16) [] in
  zip_with add32 h (foldl step h (zip round_constants ws)).

Definition digest_words (d : list Z) : list Z :=
  let p := pad d in foldl block initial_hash (chunks (length p) 64 p).

(** Eight words, most significant byte first. *)
Definition sha256 (d : list Z) : list Z :=
  let ws := digest_words d in
  concat ((λ i, be_bytes 4 (nth i ws 0)) <$> seq 0 8).

Lemma be_bytes_length n z : length (be_bytes n z) = n.
Proof. unfold be_bytes. by rewrite length_reverse, to_le_bytes_length. Qed.

Lemma be_bytes_bytes n z : bytes (be_bytes n z).
Proof. unfold be_bytes, bytes. rewrite Forall_reverse. apply to_le_bytes_bytes. Qed.

Lemma sha256_length d : length (sha256 d) = 32%nat.
Proof.
  unfold sha256. cbn [seq fmap list_fmap concat].
  rewrite !length_app, !be_bytes_length. done.
Qed.

Lemma sha256_bytes d : bytes (sha256 d).
Proof.
  unfold sha256, bytes. cbn [seq fmap list_fmap concat].
  repeat (apply Forall_app; split; [apply be_bytes_bytes|]). constructor.
Qed.

(** The vector of the unit test in sha256.rs. *)
Example hello_world : sha256 (as_bytes "Hello, world!") =
  [0x31; 0x5f; 0x5b; 0xdb; 0x76; 0xd0; 0x78; 0xc4; 0x3b; 0x8a; 0xc0; 0x06; 0x4e; 0x4a;
   0x01; 0x64; 0x61; 0x2b; 0x1f; 0xce; 0x77; 0xc8; 0x69; 0x34; 0x5b; 0xfc; 0x94; 0xc7;
   0x58; 0x94; 0xed; 0xd3].
Proof. vm_compute. reflexivity. Qed.

End Sha256.

Module Fnv1a.

Definition prime : Z := 0x100000001b3.
Definition hash (k : Z) (d : list Z) : Z :=
  foldl (λ h b, (Z.lxor h b * prime) mod 2 ^ 64) (k mod 2 ^ 64) d.

Lemma hash_u64 k d : u64 (hash k d).
Proof.
  unfold hash, u64, u64_max.
  induction d as [|b d _] using rev_ind; simpl.
  - pose proof (Z.mod_pos_bound k (2 ^ 64)). lia.
  - rewrite foldl_app; simpl. rewrite Z.sub_1_r, <-Z.lt_le_pred.
    apply Z.mod_pos_bound. lia.
Qed.

End Fnv1a.

(** The instance used by concrete evaluations. *)
Definition std_hashes : HashFns := {|
  digest := Sha256.sha256;
  fnv_with_key := Fnv1a.hash
|}.

Lemma std_digest_length : DigestLength std_hashes.
Proof. intros d. apply Sha256.sha256_length. Qed.

Lemma std_hashes_laws : HashLaws std_hashes.
Proof.
  constructor; intros; [apply std_digest_length|apply Sha256.sha256_bytes|apply Fnv1a.hash_u64].
Qed.

(** A second instance, trivial to evaluate: every digest is 32 zero bytes. *)
Definition zero_hashes : HashFns := {|
  digest := λ _, replicate 32 0;
  fnv_with_key := λ k _, k mod 2 ^ 64
|}.

Lemma zero_digest_length : DigestLength zero_hashes.
Proof. done. Qed.

Lemma zero_hashes_laws : HashLaws zero_hashes.
Proof.
  constructor; intros; [done| |].
  - unfold bytes. cbn [digest zero_hashes]. apply Forall_replicate. unfold byte. lia.
  - unfold u64, u64_max. simpl. pose proof (Z.mod_pos_bound k (2 ^ 64)). lia.
Qed.

(** A third: digests of 32 numbers, the first of which encodes the whole string, so that no
    two strings have one digest. *)
Definition wide_hashes : HashFns := {|
  digest := λ d, Z.pos (encode d) :: replicate 31 0;
  fnv_with_key := λ k _, k mod 2 ^ 64
|}.

Lemma wide_digest_length : DigestLength wide_hashes.
Proof. done. Qed.

Lemma wide_hashes_collide_nowhere : ¬ @collision wide_hashes.
Proof. intros (a & b & Hne & E). injection E as E. by apply Hne, (inj encode). Qed.
