(* ===== verification/Shuffle.v ===== *)
(** * Shuffles of [psyche_core]

    [compute_shuffled_index] (src/shared/core/src/swap_or_not.rs), the
    swap-or-not shuffle that draws committees; the linear congruential generator
    (lcg.rs) and the Fisher-Yates [deterministic_shuffle]
    (deterministic_shuffle.rs) that orders trainers.  Both are shown to be
    permutations that never panic: swap-or-not for every index count up to
    [2^63], Fisher-Yates for every slice. *)

From stdpp Require Import base tactics list numbers.
From S2P Require Import Prelude CoreTypes Hashing.

Open Scope Z_scope.

(** ** Swap-or-not *)
Section SwapOrNot.
Context {H : HashFns}.

Definition SHUFFLE_ROUND_COUNT : Z := 90.

(** One iteration of the loop body on [current_index]. *)
Definition shuffle_round {E} (index_count : Z) (seed : list Z) (current_round : Z)
    (current_index : Z) : res E Z :=
  let hash_result := sha256v [seed; [current_round]] in
  let pivot := from_le_bytes (take 8 hash_result) mod index_count in
  s ← uadd u64_max pivot index_count;
  d ← usub s current_index;
  let flip := d mod index_count in
  let position := Z.max current_index flip in
  let source := sha256v [seed; [current_round]; take 4 (to_le_bytes 8 (position / 256))] in
  byte ← unwrap (znth source (position mod 256 / 8));
  let bit := Z.shiftr byte (position mod 8) mod 2 in
  Ok (if bit =? 1 then flip else current_index).

Definition compute_shuffled_index {E} (index index_count : Z) (seed : list Z) : res E Z :=
  res_assert (index <? index_count) ;;
  res_fold (shuffle_round index_count seed) (seqZ 0 SHUFFLE_ROUND_COUNT) index.

End SwapOrNot.

(** ** LCG and Fisher-Yates *)
Definition LCG_A : Z := 6364136223846793005.
Definition LCG_C : Z := 1442695040888963407.

(** The state after [next_u64], which is also the value it returns. *)
Definition next_u64 (state : Z) : Z := as_u64 (as_u64 (state * LCG_A) + LCG_C).

(** [next_range(max)]: the value and the new state; [% 0] panics. *)
Definition next_range {E} (max state : Z) : res E (Z * Z) :=
  res_assert (negb (max =? 0)) ;;
  let state' := next_u64 state in
  Ok (state' mod max, state').

Definition swap {E A} (l : list A) (i j : nat) : res E (list A) :=
  x ← unwrap (l !! i);
  y ← unwrap (l !! j);
  Ok (<[j := x]> (<[i := y]> l)).

Definition deterministic_shuffle {E A} (items : list A) (seed : Z) : res E (list A) :=
  '(items', _) ← res_fold
    (λ i '(l, rng),
      '(j, rng') ← next_range (Z.of_nat i + 1) rng;
      l' ← swap l i (Z.to_nat j);
      Ok (l', rng'))
    (reverse (seq 1 (length items - 1))) (items, seed);
  Ok items'.

(** ** Lemmas *)

(** A swap-or-not round with any pivot and any choice of positions to swap is an
    involution on [0..n). *)
Definition flip_of (n pivot x : Z) : Z := (pivot + n - x) mod n.
Definition swap_or_not (n pivot : Z) (sel : Z → bool) (x : Z) : Z :=
  if sel (Z.max x (flip_of n pivot x)) then flip_of n pivot x else x.

Lemma flip_of_range n pivot x : 0 < n → 0 <= flip_of n pivot x < n.
Proof. intros. apply Z.mod_pos_bound. lia. Qed.

Lemma flip_of_involutive n pivot x : 0 <= x < n → flip_of n pivot (flip_of n pivot x) = x.
Proof.
  intros Hx. unfold flip_of. rewrite Zminus_mod_idemp_r.
  replace (pivot + n - (pivot + n - x)) with x by lia. apply Z.mod_small; lia.
Qed.

Lemma swap_or_not_range n pivot sel x : 0 <= x < n → 0 <= swap_or_not n pivot sel x < n.
Proof.
  intros. unfold swap_or_not. destruct sel; [apply flip_of_range; lia|done].
Qed.

Lemma swap_or_not_involutive n pivot sel x : 0 <= x < n →
  swap_or_not n pivot sel (swap_or_not n pivot sel x) = x.
Proof.
  intros Hx. unfold swap_or_not at 2.
  destruct (sel (Z.max x (flip_of n pivot x))) eqn:Hs; unfold swap_or_not.
  - rewrite flip_of_involutive, Z.max_comm, Hs by done. done.
  - by rewrite Hs.
Qed.

Section SwapOrNotFacts.
Context {H : HashFns} `{!HashLaws H}.

Definition round_pivot (n : Z) (seed : list Z) (r : Z) : Z :=
  from_le_bytes (take 8 (sha256v [seed; [r]])) mod n.
Definition round_bit (seed : list Z) (r pos : Z) : bool :=
  let source := sha256v [seed; [r]; take 4 (to_le_bytes 8 (pos / 256))] in
  Z.shiftr (default 0 (znth source (pos mod 256 / 8))) (pos mod 8) mod 2 =? 1.

Lemma source_in_range l pos : 0 <= pos → ∃ b, znth (sha256v l) (pos mod 256 / 8) = Some b.
Proof.
  intros Hp. unfold znth.
  assert (0 <= pos mod 256 / 8 < 32).
  { pose proof (Z.mod_pos_bound pos 256).
    split; [apply Z.div_pos; lia|apply Z.div_lt_upper_bound; lia]. }
  rewrite (proj2 (Z.ltb_ge _ _)) by lia.
  apply lookup_lt_is_Some_2. rewrite sha256v_length. lia.
Qed.

Lemma shuffle_round_pure {E} n seed r x : 0 <= x < n → n <= 2 ^ 63 →
  @shuffle_round H E n seed r x =
  Ok (swap_or_not n (round_pivot n seed r) (round_bit seed r) x).
Proof.
  intros Hx Hn. unfold shuffle_round. fold (round_pivot n seed r).
  assert (Hp : 0 <= round_pivot n seed r < n) by (apply Z.mod_pos_bound; lia).
  unfold uadd. rewrite (proj2 (Z.leb_le _ _)) by (unfold u64_max; lia). cbn [mbind res_bind].
  unfold usub. rewrite (proj2 (Z.leb_le _ _)) by lia. cbn [mbind res_bind].
  fold (flip_of n (round_pivot n seed r) x).
  pose proof (flip_of_range n (round_pivot n seed r) x ltac:(lia)).
  set (pos := Z.max x (flip_of n (round_pivot n seed r) x)).
  destruct (source_in_range
    [seed; [r]; take 4 (to_le_bytes 8 (pos / 256))] pos) as [b Hb]; [lia|].
  unfold swap_or_not, round_bit. fold pos. rewrite Hb. done.
Qed.

(** The composition of the rounds [rs]. *)
Definition rounds_pure (n : Z) (seed : list Z) (rs : list Z) (x : Z) : Z :=
  foldl (λ x r, swap_or_not n (round_pivot n seed r) (round_bit seed r) x) x rs.

Lemma rounds_pure_range n seed rs x : 0 <= x < n → 0 <= rounds_pure n seed rs x < n.
Proof.
  revert x. induction rs as [|r rs IH]; intros x Hx; [done|].
  apply IH. by apply swap_or_not_range.
Qed.

Lemma rounds_pure_inj n seed rs x y : 0 <= x < n → 0 <= y < n →
  rounds_pure n seed rs x = rounds_pure n seed rs y → x = y.
Proof.
  revert x y. induction rs as [|r rs IH]; intros x y Hx Hy Heq; [done|].
  apply IH in Heq; [|by apply swap_or_not_range..].
  rewrite <-(swap_or_not_involutive n (round_pivot n seed r) (round_bit seed r) x Hx).
  rewrite <-(swap_or_not_involutive n (round_pivot n seed r) (round_bit seed r) y Hy).
  by rewrite Heq.
Qed.

Lemma rounds_run {E} n seed rs x : 0 <= x < n → n <= 2 ^ 63 →
  res_fold (@shuffle_round H E n seed) rs x = Ok (rounds_pure n seed rs x).
Proof.
  intros Hx Hn. revert x Hx. induction rs as [|r rs IH]; intros x Hx; [done|].
  simpl. rewrite shuffle_round_pure by done. simpl. apply IH. by apply swap_or_not_range.
Qed.

(** The permutation [compute_shuffled_index] computes; sealed, since unfolding
    ninety rounds symbolically is never useful. *)
Definition shuffled_def (n : Z) (seed : list Z) : Z → Z :=
  rounds_pure n seed (seqZ 0 SHUFFLE_ROUND_COUNT).
Definition shuffled_aux : seal (@shuffled_def). Proof. by eexists. Qed.
Definition shuffled : Z → list Z → Z → Z := shuffled_aux.(unseal).
Lemma shuffled_unseal : shuffled = shuffled_def.
Proof. apply shuffled_aux.(seal_eq). Qed.

Lemma shuffled_range n seed x : 0 <= x < n → 0 <= shuffled n seed x < n.
Proof. rewrite shuffled_unseal. exact (rounds_pure_range n seed _ x). Qed.

Lemma shuffled_inj n seed x y : 0 <= x < n → 0 <= y < n →
  shuffled n seed x = shuffled n seed y → x = y.
Proof. rewrite shuffled_unseal. exact (rounds_pure_inj n seed _ x y). Qed.

Lemma compute_shuffled_index_run {E} n seed x : 0 <= x < n → n <= 2 ^ 63 →
  @compute_shuffled_index H E x n seed = Ok (shuffled n seed x).
Proof.
  intros Hx Hn. unfold compute_shuffled_index.
  rewrite (proj2 (Z.ltb_lt _ _)) by lia. cbn [res_assert mbind res_bind].
  rewrite shuffled_unseal. by apply rounds_run.
Qed.

Lemma compute_shuffled_index_panic {E} n seed x : n <= x →
  @compute_shuffled_index H E x n seed = Panic.
Proof.
  intros Hx. unfold compute_shuffled_index. by rewrite (proj2 (Z.ltb_ge _ _)).
Qed.

(** An injective endofunction of [0..n) permutes it. *)
Lemma inj_permutes n (f : Z → Z) :
  (∀ x, 0 <= x < n → 0 <= f x < n) →
  (∀ x y, 0 <= x < n → 0 <= y < n → f x = f y → x = y) →
  f <$> seqZ 0 n ≡ₚ seqZ 0 n.
Proof.
  intros Hr Hi. apply submseteq_length_Permutation; [|by rewrite length_fmap].
  apply NoDup_submseteq.
  - apply NoDup_fmap_2_strong; [|apply NoDup_seqZ].
    intros x y Hx%elem_of_seqZ Hy%elem_of_seqZ. apply Hi; lia.
  - intros y (x & -> & Hx%elem_of_seqZ)%list_elem_of_fmap.
    apply elem_of_seqZ. pose proof (Hr x). lia.
Qed.

Lemma shuffled_permutes n seed : shuffled n seed <$> seqZ 0 n ≡ₚ seqZ 0 n.
Proof.
  apply (inj_permutes n (shuffled n seed)).
  - intros x. apply shuffled_range.
  - intros x y. apply shuffled_inj.
Qed.

End SwapOrNotFacts.

(** Swapping two elements permutes the list. *)
Lemma swap_permutes {E A} (l : list A) i j : (i < length l)%nat → (j < length l)%nat →
  ∃ l', @swap E A l i j = Ok l' ∧ l' ≡ₚ l.
Proof.
  intros Hi Hj. destruct (lookup_lt_is_Some_2 l i Hi) as [x Hx].
  destruct (lookup_lt_is_Some_2 l j Hj) as [y Hy].
  unfold swap. rewrite Hx, Hy; simpl. eexists; split; [done|].
  apply Permutation_inj. rewrite !length_insert. split; [done|].
  exists (λ k, if decide (k = j) then i else if decide (k = i) then j else k).
  split; [intros k k'; repeat case_decide; lia|].
  intros k. destruct (decide (k = j)) as [->|Hkj].
  { rewrite list_lookup_insert_eq; [done|by rewrite length_insert]. }
  rewrite list_lookup_insert_ne by done. case_decide as Hki; [subst k|].
  - by rewrite list_lookup_insert_eq.
  - by rewrite list_lookup_insert_ne.
Qed.

Lemma deterministic_shuffle_run {E A} (items : list A) seed :
  ∃ items', @deterministic_shuffle E A items seed = Ok items' ∧ items' ≡ₚ items.
Proof.
  unfold deterministic_shuffle.
  assert (Hidx : Forall (λ i, i < length items)%nat (reverse (seq 1 (length items - 1)))).
  { apply Forall_reverse, Forall_forall. intros i Hi%in_seq. lia. }
  revert Hidx. generalize (reverse (seq 1 (length items - 1))) as idx.
  assert (∀ idx l rng, Forall (λ i, i < length items)%nat idx → l ≡ₚ items →
    ∃ p, res_fold (λ i '(l, rng), '(j, rng') ← next_range (Z.of_nat i + 1) rng;
      l' ← @swap E A l i (Z.to_nat j); Ok (l', rng')) idx (l, rng) = Ok p ∧ p.1 ≡ₚ items) as Hgen.
  { induction idx as [|i idx IH]; intros l rng Hidx' Hl; [by eexists|].
    inversion Hidx' as [|?? Hi Hidx'']; subst. cbn [res_fold].
    unfold next_range. rewrite (proj2 (Z.eqb_neq _ _)) by lia. simpl.
    pose proof (Z.mod_pos_bound (next_u64 rng) (Z.of_nat i + 1)).
    pose proof (Permutation_length Hl).
    destruct (@swap_permutes E A l i (Z.to_nat (next_u64 rng mod (Z.of_nat i + 1))))
      as (l' & -> & Hl'); [lia..|]. simpl. apply IH; [done|by rewrite Hl']. }
  intros idx Hidx'. destruct (Hgen idx items seed Hidx') as ([l' rng'] & -> & Hp); [done|].
  by exists l'.
Qed.

(** ** Properties *)

(** For every index count up to 2^63, [compute_shuffled_index] never panics
    and is a permutation of [0..index_count): no two indices share a position
    and every position is taken. *)
Theorem compute_shuffled_index_permutation {H : HashFns} `{!HashLaws H} (n : Z) (seed : list Z) :
  n <= 2 ^ 63 →
  ∃ π : Z → Z, (∀ i, 0 <= i < n → @compute_shuffled_index H unit i n seed = Ok (π i)) ∧
    π <$> seqZ 0 n ≡ₚ seqZ 0 n.
Proof.
  intros Hn. exists (shuffled n seed). split; [|apply shuffled_permutes].
  intros i Hi. by apply compute_shuffled_index_run.
Qed.

Lemma compute_shuffled_index_permutation_witness : 10 <= 2 ^ 63 ∧
  ∃ π : Z → Z,
    (∀ i, 0 <= i < 10 →
      @compute_shuffled_index std_hashes unit i 10 (replicate 32 0) = Ok (π i)) ∧
    π <$> seqZ 0 10 ≡ₚ seqZ 0 10.
Proof.
  split; [lia|].
  apply (@compute_shuffled_index_permutation std_hashes std_hashes_laws 10 (replicate 32 0)). lia.
Defined.

(** [deterministic_shuffle] never panics, whatever the slice and the seed,
    and returns the same elements, each as often as before. *)
Theorem deterministic_shuffle_permutation {A} (items : list A) (seed : Z) :
  ∃ items', @deterministic_shuffle unit A items seed = Ok items' ∧ items' ≡ₚ items.
Proof. apply deterministic_shuffle_run. Qed.

Example deterministic_shuffle_42 :
  @deterministic_shuffle unit _ [1; 2; 3; 4; 5] 42 = Ok [2; 5; 3; 1; 4].
Proof. vm_compute. reflexivity. Qed.
