(* ===== verification/Bloom.v ===== *)
(** * [psyche_core::Bloom]

    The Bloom filter witnesses publish (src/shared/core/src/bloom.rs).  The bit
    array ([bitvec::BitArray<[u64; U]>]) is a list of [64 * U] booleans whose
    [get] is [None] out of range; the FNV hash is a parameter ([HashFns]). *)

From stdpp Require Import base tactics list numbers.
From S2P Require Import Prelude CoreTypes Hashing.

Open Scope Z_scope.

Record Bloom := mkBloom {
  keys : list Z;
  bits : list bool
}.

(** [Bloom::default()] and a zeroed struct. *)
Definition bloom_default (U K : nat) : Bloom :=
  mkBloom (replicate K 0) (replicate (64 * U) false).

Section Bloom.
Context {H : HashFns}.

Definition max_bits (U : nat) : nat := U * 8 * 8.

Definition bloom_new {E} (U K : nat) (num_bits : nat) (keys_slice : list Z) : res E Bloom :=
  res_assert (num_bits <=? max_bits U)%nat ;;
  res_assert (length keys_slice =? K)%nat ;;
  Ok (mkBloom keys_slice (replicate (64 * U) false)).

(** [hash_at_index(k).checked_rem(bits.len()).unwrap_or(0)]. *)
Definition pos (b : Bloom) (key : list Z) (k : Z) : Z :=
  if zlen (bits b) =? 0 then 0 else fnv_with_key k key mod zlen (bits b).

Definition bloom_clear (b : Bloom) : Bloom :=
  mkBloom (keys b) (replicate (length (bits b)) false).

Definition bloom_add {E} (key : list Z) (b : Bloom) : res E Bloom :=
  res_fold (λ k b,
      let p := pos b key k in
      x ← unwrap (znth (bits b) p);
      Ok (if (x : bool) then b else mkBloom (keys b) (zset (bits b) p true)))
    (keys b) b.

Fixpoint contains_loop {E} (b : Bloom) (key : list Z) (ks : list Z) : res E bool :=
  match ks with
  | [] => Ok true
  | k :: ks' =>
      x ← unwrap (znth (bits b) (pos b key k));
      if negb x then Ok false else contains_loop b key ks'
  end.
Definition bloom_contains {E} (b : Bloom) (key : list Z) : res E bool :=
  contains_loop b key (keys b).

(** ** Lemmas *)

Definition bloom_wf (b : Bloom) : Prop := bits b ≠ [].

(** [b ⊑ c]: same keys and size, and every bit set in [b] is set in [c]. *)
Definition bloom_le (b c : Bloom) : Prop :=
  keys b = keys c ∧ length (bits b) = length (bits c) ∧
  ∀ i, bits b !! i = Some true → bits c !! i = Some true.

#[local] Instance bloom_le_preorder : PreOrder bloom_le.
Proof.
  split; [by intros b|]. intros b c d (H1 & H2 & H3) (H4 & H5 & H6).
  split; [congruence|]. split; [congruence|auto].
Qed.

Lemma pos_le b c key k : bloom_le b c → pos b key k = pos c key k.
Proof. intros (_ & Hl & _). unfold pos, zlen. by rewrite Hl. Qed.

Lemma pos_in_range b key k : bloom_wf b → ∃ x, znth (bits b) (pos b key k) = Some x.
Proof.
  intros Hwf. unfold pos, znth, zlen, bloom_wf in *.
  destruct (bits b) as [|x l] eqn:Hb; [done|].
  rewrite (proj2 (Z.eqb_neq _ _)) by (simpl; lia).
  pose proof (Z.mod_pos_bound (fnv_with_key k key) (Z.of_nat (length (x :: l)))) as Hm.
  simpl length in *. rewrite (proj2 (Z.ltb_ge _ _)) by lia.
  apply lookup_lt_is_Some_2. simpl. lia.
Qed.

Lemma bloom_wf_le b c : bloom_le b c → bloom_wf b → bloom_wf c.
Proof. intros (_ & Hl & _) Hb Hc. apply Hb, nil_length_inv. rewrite Hl, Hc. done. Qed.

(** Setting one bit. *)
Lemma set_bit_le b p x : znth (bits b) p = Some x →
  bloom_le b (mkBloom (keys b) (zset (bits b) p true)) ∧
  znth (zset (bits b) p true) p = Some true.
Proof.
  unfold znth, zset, bloom_le; simpl. destruct (p <? 0); [done|]. intros Hx.
  assert (Hlt := lookup_lt_Some _ _ _ Hx). rewrite length_insert.
  rewrite list_lookup_insert_eq by done. split; [|done].
  split; [done|]. split; [done|]. intros i Hi. destruct (decide (i = Z.to_nat p)) as [->|Hne].
  - by rewrite list_lookup_insert_eq.
  - by rewrite list_lookup_insert_ne.
Qed.

Lemma bit_le b c p : bloom_le b c → znth (bits b) p = Some true → znth (bits c) p = Some true.
Proof. intros (_ & _ & Hb). unfold znth. destruct (p <? 0); auto. Qed.

(** The loop of [add] sets every position of the key. *)
Lemma add_loop {E} key ks b : bloom_wf b → ∃ c,
  res_fold (λ k b, let p := pos b key k in
      x ← unwrap (znth (bits b) p);
      Ok (if (x : bool) then b else mkBloom (keys b) (zset (bits b) p true)))
    ks b = @Ok E _ c ∧ bloom_le b c ∧
  Forall (λ k, znth (bits c) (pos c key k) = Some true) ks.
Proof.
  revert b. induction ks as [|k ks IH]; intros b Hwf; [by exists b|]. cbn [res_fold].
  destruct (pos_in_range b key k Hwf) as [x Hx]. rewrite Hx. cbn [unwrap mbind res_bind].
  assert (∃ b1, (if x then b else mkBloom (keys b) (zset (bits b) (pos b key k) true)) = b1 ∧
    bloom_le b b1 ∧ znth (bits b1) (pos b key k) = Some true) as (b1 & -> & Hle & Hbit).
  { destruct x; [by exists b|]. destruct (set_bit_le b _ _ Hx). by eexists. }
  destruct (IH b1) as (c & Hc & Hle' & Hall); [by eapply bloom_wf_le|].
  exists c. split; [done|]. split; [by etrans|]. constructor; [|done].
  rewrite <-(pos_le b c) by (by etrans). by eapply bit_le.
Qed.

Lemma bloom_add_run {E} key b : bloom_wf b → ∃ c, @bloom_add E key b = Ok c ∧ bloom_le b c ∧
  Forall (λ k, znth (bits c) (pos c key k) = Some true) (keys c).
Proof.
  intros Hwf. destruct (@add_loop E key (keys b) b Hwf) as (c & Hc & Hle & Hall).
  exists c. split; [done|]. split; [done|]. destruct Hle as (<- & _). done.
Qed.

Lemma contains_all {E} b key : Forall (λ k, znth (bits b) (pos b key k) = Some true) (keys b) →
  @bloom_contains E b key = Ok true.
Proof. unfold bloom_contains. induction 1 as [|k ks Hk _ IH]; [done|]. simpl. by rewrite Hk. Qed.

Lemma contains_all_inv {E} b key : @bloom_contains E b key = Ok true →
  Forall (λ k, znth (bits b) (pos b key k) = Some true) (keys b).
Proof.
  unfold bloom_contains. induction (keys b) as [|k ks IH]; intros Hc; [done|]. simpl in Hc.
  destruct (znth (bits b) (pos b key k)) as [[|]|] eqn:Hx; simpl in Hc; [|done..].
  constructor; auto.
Qed.

Lemma contains_mono {E} b c key : bloom_le b c →
  @bloom_contains E b key = Ok true → @bloom_contains E c key = Ok true.
Proof.
  intros Hle Hb%contains_all_inv. apply contains_all.
  assert (Hk := Hle). destruct Hk as (<- & _).
  eapply Forall_impl; [|exact Hb]. intros k Hk. rewrite <-(pos_le b c) by done.
  by eapply bit_le.
Qed.

Lemma bloom_contains_run {E} b key : bloom_wf b → ∃ x, @bloom_contains E b key = Ok x.
Proof.
  intros Hwf. unfold bloom_contains. induction (keys b) as [|k ks IH]; [by eexists|]. simpl.
  destruct (pos_in_range b key k Hwf) as [x ->]. destruct x; simpl; [done|by eexists].
Qed.

Lemma bloom_new_wf {E} U K n ks b : @bloom_new E U K n ks = Ok b → U ≠ 0%nat → bloom_wf b.
Proof.
  unfold bloom_new. intros Hb HU. run_inv. unfold bloom_wf. simpl.
  destruct U; [done|]. simpl. done.
Qed.

(** Adding a whole list. *)
Lemma add_all_run {E} xs b : bloom_wf b → ∃ c,
  res_fold bloom_add xs b = @Ok E _ c ∧ bloom_le b c ∧
  Forall (λ x, @bloom_contains E c x = Ok true) xs.
Proof.
  revert b. induction xs as [|x xs IH]; intros b Hwf; [by exists b|]. cbn [res_fold].
  destruct (@bloom_add_run E x b Hwf) as (b1 & -> & Hle & Hall). cbn [mbind res_bind].
  destruct (IH b1) as (c & Hc & Hle' & Hin); [by eapply bloom_wf_le|].
  exists c. split; [done|]. split; [by etrans|]. constructor; [|done].
  eapply contains_mono; [done|]. by apply contains_all.
Qed.

End Bloom.

(** A filter built by [Bloom::new] (for [U > 0]) and any sequence of [add]s never
    panics and has no false negatives: it contains every key that was added, in
    whatever order, and a key added once stays contained after later adds. *)
Theorem bloom_no_false_negatives {H : HashFns} (U K num_bits : nat)
    (ks : list Z) (b : Bloom) (xs ys : list (list Z)) :
  U ≠ 0%nat → bloom_new U K num_bits ks = @Ok unit _ b →
  ∃ c, res_fold bloom_add (xs ++ ys) b = @Ok unit _ c ∧
    keys c = ks ∧ length (bits c) = (64 * U)%nat ∧
    Forall (λ x, bloom_contains c x = @Ok unit _ true) (xs ++ ys).
Proof.
  intros HU Hb. assert (Hwf := bloom_new_wf _ _ _ _ _ Hb HU).
  destruct (@add_all_run H unit (xs ++ ys) b Hwf) as (c & Hc & (Hk & Hl & _) & Hin).
  exists c. unfold bloom_new in Hb. run_inv. rewrite length_replicate in Hl. auto.
Qed.

Lemma bloom_no_false_negatives_witness :
  ∃ b c, @bloom_new unit 16 8 1024 (seqZ 1 8) = Ok b ∧
    res_fold (@bloom_add std_hashes unit) ([[1; 2]] ++ [[3]]) b = Ok c ∧
    Forall (λ x, @bloom_contains std_hashes unit c x = Ok true) ([[1; 2]] ++ [[3]]).
Proof.
  destruct (@bloom_no_false_negatives std_hashes 16 8 1024 (seqZ 1 8)
    (mkBloom (seqZ 1 8) (replicate 1024 false)) [[1; 2]] [[3]])
    as (c & Hc & _ & _ & Hin); [lia|reflexivity|].
  eexists _, c. split; [reflexivity|]. split; [exact Hc|exact Hin].
Defined.
