(* ===== verification/Merkle.v ===== *)
(** * [psyche_core::MerkleTree]

    src/shared/core/src/merkle_tree.rs: a tree of hashes stored level by level in one
    vector, the path from a leaf to the root, and its verification.  [tower] is the tree
    as a list of levels, [branch] a path in it; the flat vector and its index arithmetic
    are shown to be these.  A vector's length fits in [usize], so indices are [nat]; the
    capacity hint of the constructor is dropped.

    Soundness is stated without assuming that the hash function is injective: a proof that
    accepts an item the tree does not have exhibits a collision between a string hashed to
    verify it ([proof_inputs]) and one hashed to build the tree ([tree_inputs]). *)

From stdpp Require Import base tactics list numbers sets.
From S2P Require Import Prelude CoreTypes Hashing.

Open Scope nat_scope.

(** ** Layers of a binary tree

    The layer above [l]: neighbours are joined, a last single element with itself. *)
Section Layers.
Context {A : Type} (node : A → A → A).

Fixpoint pair_up (l : list A) : list A :=
  match l with
  | a :: b :: l' => node a b :: pair_up l'
  | [a] => [node a a]
  | [] => []
  end.

Lemma pairs_ind (P : list A → Prop) :
  P [] → (∀ a, P [a]) → (∀ a b l, P l → P (a :: b :: l)) → ∀ l, P l.
Proof.
  intros P0 P1 P2. fix IH 1. intros [|a [|b l]]; [done|apply P1|apply P2, IH].
Qed.

Lemma pair_up_length l : length (pair_up l) = (length l + 1) / 2.
Proof.
  induction l as [|a|a b l IH] using pairs_ind; [done..|]. cbn [pair_up length].
  rewrite IH. replace (S (S (length l)) + 1) with (length l + 1 + 1 * 2) by lia.
  rewrite Nat.div_add by lia. lia.
Qed.

Lemma pair_up_shrink l : 2 <= length l → length (pair_up l) < length l.
Proof. intros Hl. rewrite pair_up_length. apply Nat.div_lt_upper_bound; lia. Qed.

Definition right_of (l : list A) (i : nat) : option A :=
  l !! (if 2 * i + 1 <? length l then 2 * i + 1 else 2 * i).

Lemma pair_up_lookup l i : i < length (pair_up l) →
  ∃ a b, l !! (2 * i) = Some a ∧ right_of l i = Some b ∧
    pair_up l !! i = Some (node a b).
Proof.
  unfold right_of. revert i. induction l as [|a|a b l IH] using pairs_ind; intros i Hi.
  - by apply Nat.nlt_0_r in Hi.
  - cbn in Hi. replace i with 0 by lia. eauto.
  - cbn [pair_up length] in *. destruct i as [|i]; [by exists a, b|].
    destruct (IH i) as (x & y & Hx & Hy & Hp); [lia|].
    exists x, y. replace (2 * S i) with (S (S (2 * i))) by lia. split_and!; [done| |done].
    rewrite <-Hy. destruct (Nat.ltb_spec (2 * i + 1) (length l));
      [rewrite (proj2 (Nat.ltb_lt _ _)) by lia|rewrite (proj2 (Nat.ltb_ge _ _)) by lia]; done.
Qed.

Lemma pair_up_elem l h : h ∈ pair_up l →
  ∃ a b, a ∈ l ∧ b ∈ l ∧ h = node a b.
Proof.
  induction l as [|x|x y l IH] using pairs_ind; cbn [pair_up]; [by intros ?%elem_of_nil| |].
  - intros ->%list_elem_of_singleton. exists x, x. set_solver.
  - intros [->|Hh]%elem_of_cons; [exists x, y; set_solver|].
    destruct (IH Hh) as (a & b & ? & ? & ?). exists a, b. set_solver.
Qed.

Lemma half_lt l i : i < length l → i / 2 < length (pair_up l).
Proof.
  intros Hi. rewrite pair_up_length.
  pose proof (Nat.div_mod_eq i 2). pose proof (Nat.div_mod_eq (length l + 1) 2).
  pose proof (Nat.mod_upper_bound i 2). pose proof (Nat.mod_upper_bound (length l + 1) 2). lia.
Qed.

(** The element joined with the one at [i], which is [i] itself at an odd end. *)
Definition partner (n i : nat) : nat :=
  if i mod 2 =? 0 then (if i + 1 <? n then i + 1 else i) else i - 1.

Lemma pair_up_partner l i h : l !! i = Some h →
  ∃ x, l !! partner (length l) i = Some x ∧
    pair_up l !! (i / 2) = Some (if i mod 2 =? 0 then node h x else node x h).
Proof.
  intros Hi. pose proof (lookup_lt_Some _ _ _ Hi) as Hlt.
  destruct (pair_up_lookup l (i / 2)) as (a & b & Ha & Hb & ->); [by apply half_lt|].
  pose proof (Nat.div_mod_eq i 2). pose proof (Nat.mod_upper_bound i 2 ltac:(lia)).
  unfold partner, right_of in *. destruct (Nat.eqb_spec (i mod 2) 0).
  - replace (2 * (i / 2)) with i in * by lia. exists b. split; [done|]. congruence.
  - replace (2 * (i / 2) + 1) with i in Hb by lia. rewrite (proj2 (Nat.ltb_lt _ _)) in Hb by lia.
    replace (i - 1) with (2 * (i / 2)) by lia. exists a. split; [done|]. congruence.
Qed.

End Layers.

Lemma pair_up_compose {A} (node join : A → A → A) (f : A → A) l : (∀ a b, node a b = f (join a b)) →
  pair_up node l = f <$> pair_up join l.
Proof. intros Hn. induction l as [|x|x y l IH] using pairs_ind; cbn; by rewrite ?Hn, ?IH. Qed.

(** ** The tree *)

Definition LEAF_PREFIX : list Z := [0%Z].
Definition INTERMEDIATE_PREFIX : list Z := [1%Z].

Record MerkleTree := mkMerkleTree {
  leaf_count : nat;
  nodes : list (list Z)
}.

(** An entry of a proof: the hash to reach and the sibling on one side.  [OwnedProofEntry]
    has the same fields. *)
Record ProofEntry := mkProofEntry {
  target : list Z;
  left_sibling : option (list Z);
  right_sibling : option (list Z)
}.

Definition is_none {A} (o : option A) : bool := match o with None => true | _ => false end.

Definition ProofEntry_new {E} (t : list Z) (l r : option (list Z)) : res E ProofEntry :=
  res_assert (xorb (is_none l) (is_none r)) ;; Ok (mkProofEntry t l r).

Definition next_level_len (level_len : nat) : nat :=
  if level_len =? 1 then 0 else (level_len + 1) / 2.

Section Merkle.
Context {H : HashFns}.

Definition hash_leaf (d : list Z) : list Z := sha256v [LEAF_PREFIX; d].
Definition hash_intermediate (l r : list Z) : list Z := sha256v [INTERMEDIATE_PREFIX; l; r].

(** The body of the [for] loop: one node of the new level. *)
Definition push_parent {E} (prev_level_start prev_level_len i : nat) (ns : list (list Z)) :
    res E (list (list Z)) :=
  let prev_level_idx := 2 * i in
  lsib ← unwrap (ns !! (prev_level_start + prev_level_idx));
  rsib ← unwrap (ns !! (if prev_level_idx + 1 <? prev_level_len
                         then prev_level_start + prev_level_idx + 1
                         else prev_level_start + prev_level_idx));
  Ok (ns ++ [hash_intermediate lsib rsib]).

(** The [while] loop; [fuel] bounds the number of levels. *)
Fixpoint build_levels {E} (fuel level_len level_start prev_level_len prev_level_start : nat)
    (ns : list (list Z)) : res E (list (list Z)) :=
  if level_len =? 0 then Ok ns
  else match fuel with
  | 0 => Panic
  | S fuel' =>
      ns' ← res_fold (push_parent prev_level_start prev_level_len) (seq 0 level_len) ns;
      build_levels fuel' (next_level_len level_len) (level_start + level_len) level_len
        level_start ns'
  end.

Definition merkle_new {E} (items : list (list Z)) : res E MerkleTree :=
  let n := length items in
  ns ← build_levels n (next_level_len n) n n 0 (hash_leaf <$> items);
  Ok (mkMerkleTree n ns).

Definition merkle_root (t : MerkleTree) : option (list Z) := list.last (nodes t).

(** [&self.nodes[a..b]]. *)
Definition node_slice {E} (t : MerkleTree) (a b : nat) : res E (list (list Z)) :=
  res_assert (b <=? length (nodes t)) ;; Ok (take (b - a) (drop a (nodes t))).

(** The siblings of the node at [node_index] in its level, left and right. *)
Definition siblings {E} (level : list (list Z)) (node_index : nat) :
    res E (option (list Z) * option (list Z)) :=
  if node_index mod 2 =? 0 then
    r ← unwrap (level !! (if node_index + 1 <? length level then node_index + 1 else node_index));
    Ok (None, Some r)
  else
    l ← unwrap (level !! (node_index - 1));
    Ok (Some l, None).

Fixpoint path_levels {E} (fuel : nat) (t : MerkleTree) (level_len level_start node_index : nat)
    (lsib rsib : option (list Z)) (path : list ProofEntry) : res E (list ProofEntry) :=
  if level_len =? 0 then Ok path
  else match fuel with
  | 0 => Panic
  | S fuel' =>
      level ← node_slice t level_start (level_start + level_len);
      target ← unwrap (level !! node_index);
      path' ← (if negb (is_none lsib) || negb (is_none rsib)
               then e ← ProofEntry_new target lsib rsib; Ok (path ++ [e])
               else Ok path);
      '(lsib', rsib') ← siblings level node_index;
      path_levels fuel' t (next_level_len level_len) (level_start + level_len) (node_index / 2)
        lsib' rsib' path'
  end.

Definition find_path {E} (t : MerkleTree) (index : nat) : res E (option (list ProofEntry)) :=
  if leaf_count t <=? index then Ok None
  else
    path ← path_levels (S (leaf_count t)) t (leaf_count t) 0 index None None [];
    Ok (Some path).

(** ** Verification *)

(** One step of [Proof::verify]'s [try_fold]. *)
Definition verify_step (candidate : list Z) (pe : ProofEntry) : option (list Z) :=
  let lsib := default candidate (left_sibling pe) in
  let rsib := default candidate (right_sibling pe) in
  let hash := hash_intermediate lsib rsib in
  if bool_decide (hash = target pe) then Some hash else None.

(** The same step of [OwnedProof::verify]. *)
Definition owned_verify_step (candidate : list Z) (pe : ProofEntry) : option (list Z) :=
  let lsib := default candidate (right_sibling pe) in
  let rsib := default candidate (left_sibling pe) in
  let hash := hash_intermediate lsib rsib in
  if bool_decide (hash = target pe) then Some hash else None.

Definition try_fold {A B} (f : B → A → option B) (b : B) (l : list A) : option B :=
  foldl (λ o a, o ≫= λ b, f b a) (Some b) l.

Definition proof_verify (p : list ProofEntry) (candidate : list Z) : bool :=
  negb (is_none (try_fold verify_step candidate p)).
Definition proof_verify_item (p : list ProofEntry) (item : list Z) : bool :=
  proof_verify p (hash_leaf item).
Definition proof_root (p : list ProofEntry) : option (list Z) := target <$> list.last p.

Definition owned_verify (p : list ProofEntry) (candidate : list Z) : bool :=
  negb (is_none (try_fold owned_verify_step candidate p)).
Definition owned_verify_item (p : list ProofEntry) (item : list Z) : bool :=
  owned_verify p (hash_leaf item).

End Merkle.

(** ** Levels *)

Section Levels.
Context {H : HashFns}.
Notation parents := (pair_up hash_intermediate).

(** The levels above [l], itself included; [n] at least the length of [l]. *)
Fixpoint tower (n : nat) (l : list (list Z)) : list (list (list Z)) :=
  match n with
  | 0 => []
  | S n' => l :: if length l =? 1 then [] else tower n' (parents l)
  end.

(** The length of the next level is what the code computes. *)
Lemma next_level_parents l : length l ≠ 1 → next_level_len (length l) = length (parents l).
Proof.
  intros Hl. unfold next_level_len. rewrite (pair_up_length hash_intermediate).
  by rewrite (proj2 (Nat.eqb_neq _ _) Hl).
Qed.

(** ** Construction *)

(** Reading the last level of the vector built so far. *)
Lemma lookup_level (ns l : list (list Z)) start i : drop start ns = l → l !! i = ns !! (start + i).
Proof. intros <-. by rewrite lookup_drop. Qed.

Lemma push_parents {E} l start ns k : drop start ns = l → k <= length (parents l) →
  res_fold (E:=E) (push_parent start (length l)) (seq 0 k) ns = Ok (ns ++ take k (parents l)).
Proof.
  intros Hl. induction k as [|k IH]; intros Hk; [by rewrite take_0, app_nil_r|].
  rewrite seq_S, res_fold_app, IH by lia. cbn [mbind res_bind res_fold Nat.add].
  destruct (pair_up_lookup hash_intermediate l k) as (a & b & Ha & Hb & Hp); [lia|].
  assert (Hlt : ∀ j x, l !! j = Some x → (ns ++ take k (parents l)) !! (start + j) = Some x).
  { intros j x Hj. rewrite (lookup_level ns l start j Hl) in Hj. by apply lookup_app_l_Some. }
  unfold push_parent. rewrite (Hlt _ _ Ha). cbn [unwrap mbind res_bind].
  unfold right_of in Hb. rewrite <-Nat.add_assoc.
  destruct (2 * k + 1 <? length l); rewrite (Hlt _ _ Hb); cbn [unwrap mbind res_bind];
    by rewrite <-app_assoc, (take_S_r _ _ _ Hp).
Qed.

Lemma build_levels_run {E} n l start ns : length l <= n → drop start ns = l → length ns = start + length l →
  2 <= length l →
  build_levels (E:=E) n (next_level_len (length l)) (start + length l) (length l) start ns =
  Ok (ns ++ concat (tower n (parents l))).
Proof.
  revert l start ns. induction n as [|n IH]; intros l start ns Hn Hl Hlen H2; [lia|].
  cbn [build_levels tower concat]. rewrite next_level_parents by lia.
  assert (Hp : 0 < length (parents l)) by (rewrite (pair_up_length hash_intermediate); apply Nat.div_str_pos; lia).
  pose proof (pair_up_shrink hash_intermediate l H2) as Hs.
  rewrite (proj2 (Nat.eqb_neq _ _)) by lia.
  rewrite (push_parents l start ns) by (done || lia). cbn [mbind res_bind].
  rewrite take_ge by lia.
  assert (Hdrop : drop (start + length l) (ns ++ parents l) = parents l).
  { rewrite drop_app_length'; [done|lia]. }
  destruct (Nat.eqb_spec (length (parents l)) 1) as [H1|H1].
  - rewrite H1. cbn [concat]. rewrite app_nil_r. by destruct n.
  - rewrite (IH (parents l)); [|lia|done|rewrite length_app; lia|lia].
    by rewrite app_assoc.
Qed.

Lemma merkle_new_run {E} items :
  merkle_new (E:=E) items =
  Ok (mkMerkleTree (length items) (concat (tower (S (length items)) (hash_leaf <$> items)))).
Proof.
  unfold merkle_new. set (l := hash_leaf <$> items).
  assert (Hl : length items = length l) by (unfold l; by rewrite length_fmap).
  rewrite Hl. clearbody l. clear Hl.
  destruct (decide (2 <= length l)) as [H2|H2].
  - rewrite (build_levels_run (length l) l 0 l) by (done || lia).
    cbn [mbind res_bind tower concat]. rewrite (proj2 (Nat.eqb_neq _ _)) by lia. done.
  - destruct l as [|a [|b l]]; [done|done|cbn in H2; lia].
Qed.

(** ** Paths *)

Definition sibs (l : list (list Z)) (i : nat) : option (list Z) * option (list Z) :=
  if i mod 2 =? 0 then (None, l !! (if i + 1 <? length l then i + 1 else i))
  else (l !! (i - 1), None).

Fixpoint branch (n : nat) (l : list (list Z)) (i : nat) : list ProofEntry :=
  match n with
  | 0 => []
  | S n' =>
      if length l =? 1 then []
      else mkProofEntry (default [] (parents l !! (i / 2))) (sibs l i).1 (sibs l i).2
             :: branch n' (parents l) (i / 2)
  end.

Lemma sibs_exactly_one l i : i < length l →
  (∃ r, sibs l i = (None, Some r)) ∨ (∃ x, sibs l i = (Some x, None)).
Proof.
  intros Hi. unfold sibs. destruct (i mod 2 =? 0).
  - left. destruct (lookup_lt_is_Some_2 l (if i + 1 <? length l then i + 1 else i)) as [r ->];
      [destruct (Nat.ltb_spec (i + 1) (length l)); lia|eauto].
  - right. destruct (lookup_lt_is_Some_2 l (i - 1)) as [r ->]; [lia|eauto].
Qed.

Lemma siblings_run {E} l i : i < length l → siblings (E:=E) l i = Ok (sibs l i).
Proof.
  intros Hi. pose proof (sibs_exactly_one l i Hi) as Hs. unfold siblings, sibs in *.
  destruct (i mod 2 =? 0); destruct Hs as [[x Hx]|[x Hx]]; try discriminate Hx;
    injection Hx as Hx; by rewrite Hx.
Qed.

Lemma node_slice_run {E} t start l rest : drop start (nodes t) = l ++ rest → 0 < length l →
  node_slice (E:=E) t start (start + length l) = Ok l.
Proof.
  intros Hd Hl. unfold node_slice. replace (start + length l - start) with (length l) by lia.
  assert (Hlen : length (nodes t) - start = length l + length rest).
  { by rewrite <-length_drop, Hd, length_app. }
  rewrite (proj2 (Nat.leb_le _ _)) by lia. cbn [res_assert mbind res_bind].
  by rewrite Hd, take_app_length.
Qed.

(** What the loop has to push when it reaches a node from below. *)
Definition reached (h : list Z) (s : option (list Z) * option (list Z)) : list ProofEntry :=
  if is_none s.1 && is_none s.2 then [] else [mkProofEntry h s.1 s.2].

Lemma Ok_bind {E A B} (a : A) (f : A → res E B) : Ok a ≫= f = f a.
Proof. done. Qed.

Definition one_sided (s : option (list Z) * option (list Z)) : Prop :=
  s = (None, None) ∨ (∃ r, s = (None, Some r)) ∨ (∃ x, s = (Some x, None)).

Lemma push_reached {E} h s path : one_sided s →
  (if negb (is_none s.1) || negb (is_none s.2)
   then e ← ProofEntry_new (E:=E) h s.1 s.2; Ok (path ++ [e]) else Ok path)
  = Ok (path ++ reached h s).
Proof. intros [->|[[r ->]|[x ->]]]; cbn; [by rewrite app_nil_r|done..]. Qed.

Lemma path_levels_run {E} t n l start i h s path :
  0 < length l <= n → l !! i = Some h → drop start (nodes t) = concat (tower n l) →
  one_sided s →
  path_levels (E:=E) n t (length l) start i s.1 s.2 path =
  Ok (path ++ reached h s ++ branch n l i).
Proof.
  revert l start i h s path. induction n as [|n IH]; intros l start i h s path Hl Hi Hd Hs; [lia|].
  cbn [path_levels tower branch concat] in *. rewrite (proj2 (Nat.eqb_neq (length l) 0)) by lia.
  rewrite (node_slice_run t start l _ Hd), Ok_bind by lia.
  rewrite Hi. cbn [unwrap]. rewrite Ok_bind. pose proof (lookup_lt_Some _ _ _ Hi) as Hlt.
  rewrite push_reached, Ok_bind, siblings_run, Ok_bind by done.
  pose proof (sibs_exactly_one l i Hlt) as Hone.
  destruct (Nat.eqb_spec (length l) 1) as [H1|H1].
  { rewrite H1, app_nil_r. destruct (sibs l i). by destruct n. }
  rewrite next_level_parents by done.
  pose proof (half_lt hash_intermediate l i Hlt) as Hh. destruct (lookup_lt_is_Some_2 _ _ Hh) as [h' Hh'].
  pose proof (pair_up_shrink hash_intermediate l ltac:(lia)) as Hshrink.
  rewrite (surjective_pairing (sibs l i)), (IH (parents l) _ _ h').
  - rewrite Hh'. cbn [default]. unfold reached at 2.
    destruct Hone as [[r ->]|[x ->]]; cbn; by rewrite <-!app_assoc.
  - lia.
  - done.
  - by rewrite <-drop_drop, Hd, drop_app_length.
  - by right.
Qed.

Lemma find_path_run {E} items i : i < length items →
  let l := hash_leaf <$> items in
  find_path (E:=E) (mkMerkleTree (length items) (concat (tower (S (length items)) l))) i =
  Ok (Some (branch (S (length items)) l i)).
Proof.
  intros Hi l. unfold find_path. cbn [leaf_count nodes]. rewrite (proj2 (Nat.leb_gt _ _)) by lia.
  assert (Hl : length l = length items) by apply length_fmap.
  destruct (lookup_lt_is_Some_2 l i) as [h Hh]; [lia|].
  pose proof (path_levels_run (E:=E) (mkMerkleTree (length items)
    (concat (tower (S (length items)) l))) (S (length items)) l 0 i h (None, None) []) as Hrun.
  rewrite Hl in Hrun. cbn [fst snd] in Hrun. rewrite Hrun; [done|lia|done|done|by left].
Qed.

(** ** Verification of paths *)

Lemma try_fold_cons {A B} (f : B → A → option B) b a l :
  try_fold f b (a :: l) = f b a ≫= λ b', try_fold f b' l.
Proof.
  unfold try_fold. cbn. destruct (f b a); [done|]. cbn. by induction l.
Qed.

Lemma try_fold_app {A B} (f : B → A → option B) b l1 l2 :
  try_fold f b (l1 ++ l2) = try_fold f b l1 ≫= λ b', try_fold f b' l2.
Proof.
  revert b. induction l1 as [|a l1 IH]; intros b; [done|].
  rewrite <-app_comm_cons, !try_fold_cons. destruct (f b a); [apply IH|done].
Qed.

(** A step up the branch reaches the parent. *)
Lemma verify_step_up l i h : l !! i = Some h →
  ∃ p, parents l !! (i / 2) = Some p ∧
    verify_step h (mkProofEntry p (sibs l i).1 (sibs l i).2) = Some p.
Proof.
  intros Hi. destruct (pair_up_partner hash_intermediate l i h Hi) as (x & Hx & Hp).
  eexists. split; [exact Hp|]. unfold verify_step, sibs, partner in *.
  destruct (i mod 2 =? 0); cbn [fst snd left_sibling right_sibling target]; rewrite Hx; cbn;
    by rewrite bool_decide_true.
Qed.

Lemma branch_verifies n l i h : 0 < length l <= n → l !! i = Some h →
  ∃ r, try_fold verify_step h (branch n l i) = Some r ∧ list.last (concat (tower n l)) = Some r ∧
    (length l ≠ 1 → proof_root (branch n l i) = Some r).
Proof.
  revert l i h. induction n as [|n IH]; intros l i h Hl Hi; [lia|]. cbn [branch tower concat].
  destruct (Nat.eqb_spec (length l) 1) as [H1|H1].
  - exists h. destruct l as [|x [|]]; try done. destruct i; [|done]. by simplify_eq/=.
  - destruct (verify_step_up l i h Hi) as (p & Hp & Hstep).
    pose proof (pair_up_shrink hash_intermediate l ltac:(lia)).
    destruct (IH (parents l) (i / 2) p) as (r & Hr & Hlast & Hroot); [|done|].
    { split; [|lia]. apply lookup_lt_Some in Hp. lia. }
    exists r. rewrite Hp. change (default [] (Some p)) with p.
    rewrite try_fold_cons, Hstep. cbn [mbind option_bind].
    split; [done|]. split; [by rewrite last_app, Hlast|]. intros _. unfold proof_root in *.
    rewrite last_cons. destruct (Nat.eqb_spec (length (parents l)) 1) as [H2|H2].
    + destruct n as [|n]; cbn [branch tower concat] in *; [done|].
      rewrite H2 in *. cbn [Nat.eqb] in *. cbn in Hr |- *. congruence.
    + specialize (Hroot H2). destruct (list.last (branch n (parents l) (i / 2))); [done|].
      discriminate.
Qed.

(** ** Soundness *)

(** What is hashed for a leaf and for a node. *)
Definition leaf_input (d : list Z) : list Z := concat [LEAF_PREFIX; d].
Definition node_input (l r : list Z) : list Z := concat [INTERMEDIATE_PREFIX; l; r].

(** What is hashed to build the levels above [l], and the whole tree. *)
Fixpoint level_inputs (n : nat) (l : list (list Z)) : list (list Z) :=
  match n with
  | 0 => []
  | S n' => if length l =? 1 then [] else pair_up node_input l ++ level_inputs n' (parents l)
  end.
Definition tree_inputs (items : list (list Z)) : list (list Z) :=
  (leaf_input <$> items) ++ level_inputs (S (length items)) (hash_leaf <$> items).

(** What is hashed to verify a path. *)
Fixpoint path_inputs (candidate : list Z) (p : list ProofEntry) : list (list Z) :=
  match p with
  | [] => []
  | e :: p' => let d := node_input (default candidate (left_sibling e)) (default candidate (right_sibling e)) in
               d :: path_inputs (digest d) p'
  end.
Definition proof_inputs (p : list ProofEntry) (x : list Z) : list (list Z) :=
  leaf_input x :: path_inputs (hash_leaf x) p.

Lemma leaf_input_inj x y : leaf_input x = leaf_input y → x = y.
Proof. unfold leaf_input. cbn. rewrite !app_nil_r. by intros [= ->]. Qed.

Lemma node_input_inj a b c d : length a = length c → node_input a b = node_input c d → a = c ∧ b = d.
Proof. unfold node_input. cbn. rewrite !app_nil_r. intros Hl [= E]. by apply app_inj_1. Qed.

Lemma hash_leaf_inj x y : hash_leaf x = hash_leaf y → x = y ∨ collision.
Proof. intros [E|]%digest_inj; [left; by apply leaf_input_inj|by right]. Qed.

Lemma hash_intermediate_inj a b c d : length a = length c →
  hash_intermediate a b = hash_intermediate c d → (a = c ∧ b = d) ∨ collision.
Proof. intros Hl [E|]%digest_inj; [left; by apply node_input_inj|by right]. Qed.

Lemma level_inputs_elem n l j lev : tower n l !! S j = Some lev →
  ∃ below, tower n l !! j = Some below ∧ lev = parents below ∧ pair_up node_input below ⊆ level_inputs n l.
Proof.
  revert l j. induction n as [|n IH]; intros l j; [done|]. cbn [tower level_inputs lookup].
  destruct (length l =? 1); [done|]. intros Hj. change (tower n (parents l) !! j = Some lev) in Hj.
  destruct j as [|j].
  - exists l. split; [done|]. split; [|set_solver]. destruct n; [done|]. by injection Hj as <-.
  - destruct (IH _ _ Hj) as (below & Hb & -> & Hsub). exists below. split; [done|]. split; [done|set_solver].
Qed.

Lemma parents_inputs l h : h ∈ parents l → ∃ a b, a ∈ l ∧ b ∈ l ∧
  h = digest (node_input a b) ∧ node_input a b ∈ pair_up node_input l.
Proof.
  rewrite (pair_up_compose hash_intermediate node_input digest l) by done.
  intros (d & -> & Hd)%list_elem_of_fmap. destruct (pair_up_elem _ _ _ Hd) as (a & b & ? & ? & ->). by exists a, b.
Qed.

Lemma path_inputs_snoc c p e h : try_fold verify_step c p = Some h →
  path_inputs c (p ++ [e]) = path_inputs c p ++ [node_input (default h (left_sibling e)) (default h (right_sibling e))].
Proof.
  revert c. induction p as [|e' p IH]; intros c; [by intros [= ->]|]. rewrite try_fold_cons.
  destruct (verify_step c e') as [c'|] eqn:Hs; [|done]. unfold verify_step in Hs. case_bool_decide; [|done].
  injection Hs as <-. cbn [mbind option_bind]. intros Hf. cbn [app path_inputs].
  f_equal. by apply IH.
Qed.

(** What [ProofEntry::new] asserts and the types of its fields say. *)
Definition entry_ok (e : ProofEntry) : Prop :=
  xorb (is_none (left_sibling e)) (is_none (right_sibling e)) = true ∧
  (∀ x, left_sibling e = Some x → length x = 32) ∧ (∀ x, right_sibling e = Some x → length x = 32).

Context `{!DigestLength H}.

Lemma verified_length x es h :
  try_fold verify_step (hash_leaf x) es = Some h → length h = 32.
Proof.
  destruct es as [|e es _] using rev_ind; [intros [= <-]; apply sha256v_length|].
  rewrite try_fold_app. destruct (try_fold _ _ es) as [c|]; [|done]. cbn.
  unfold verify_step. case_bool_decide; [|done]. intros [= <-]. apply sha256v_length.
Qed.

Lemma parents_length l : Forall (λ h, length h = 32) (parents l).
Proof. apply list.Forall_forall. intros h (a & b & _ & _ & ->)%pair_up_elem. apply sha256v_length. Qed.

Lemma leaves_length items : Forall (λ h, length h = 32) (hash_leaf <$> items).
Proof. apply list.Forall_forall. intros h (x & -> & _)%list_elem_of_fmap. apply sha256v_length. Qed.

Lemma tower_length n items j lev : tower n (hash_leaf <$> items) !! j = Some lev → Forall (λ h, length h = 32) lev.
Proof.
  destruct j as [|j]; intros Hl.
  - destruct n; [done|]. injection Hl as <-. apply leaves_length.
  - destruct (level_inputs_elem _ _ _ _ Hl) as (below & _ & -> & _). apply parents_length.
Qed.

(** A step of the verification: what was hashed last, and what before. *)
Lemma verified_snoc x es e h : try_fold verify_step (hash_leaf x) (es ++ [e]) = Some h →
  ∃ c, try_fold verify_step (hash_leaf x) es = Some c ∧
    let d := node_input (default c (left_sibling e)) (default c (right_sibling e)) in
    h = digest d ∧ d ∈ proof_inputs (es ++ [e]) x ∧ proof_inputs es x ⊆ proof_inputs (es ++ [e]) x.
Proof.
  rewrite try_fold_app. destruct (try_fold _ _ es) as [c|] eqn:Hc; [|done]. cbn. unfold verify_step.
  case_bool_decide; [|done]. intros [= <-]. exists c. split; [done|]. unfold proof_inputs.
  rewrite (path_inputs_snoc _ _ _ _ Hc). split; [done|]. set_solver.
Qed.

Lemma collision_mono l1 l1' l2 : l1 ⊆ l1' → collision_between l1 l2 → collision_between l1' l2.
Proof. intros Hs (a & b & Ha & Hb & Hr). exists a, b. set_solver. Qed.

Lemma sound_at_level items j lev es x h : Forall entry_ok es →
  try_fold verify_step (hash_leaf x) es = Some h →
  tower (S (length items)) (hash_leaf <$> items) !! j = Some lev → h ∈ lev →
  x ∈ items ∨ collision_between (proof_inputs es x) (tree_inputs items).
Proof.
  revert lev es h. induction j as [|j IH]; intros lev es h Hok Hv Hlev Hh.
  - injection Hlev as <-. apply list_elem_of_fmap in Hh as (y & Hy & Hin).
    assert (Hleaf : leaf_input y ∈ tree_inputs items) by (apply elem_of_app; left; by apply list_elem_of_fmap_2).
    destruct es as [|e es _] using rev_ind.
    + injection Hv as Hv. rewrite Hy in Hv. destruct (same_digest _ _ (proof_inputs [] x) (tree_inputs items) Hv) as [->%leaf_input_inj|]; [set_solver|done|by left|by right].
    + destruct (verified_snoc _ _ _ _ Hv) as (c & _ & Hd & Hdi & _). rewrite Hy in Hd.
      destruct (same_digest _ _ _ _ (eq_sym Hd) Hdi Hleaf) as [|]; [done|by right].
  - destruct (level_inputs_elem _ _ _ _ Hlev) as (below & Hb & -> & Hsub).
    destruct (parents_inputs _ _ Hh) as (a & b & Ha & Hbb & -> & Hnode).
    assert (Hnt : node_input a b ∈ tree_inputs items) by (apply elem_of_app; right; by apply Hsub).
    destruct es as [|e es _] using rev_ind.
    + injection Hv as Hv. destruct (same_digest _ _ (proof_inputs [] x) (tree_inputs items) Hv) as [|]; [set_solver|done..|by right].
    + destruct (verified_snoc _ _ _ _ Hv) as (c & Hc & Hd & Hdi & Hmono).
      destruct (same_digest _ _ _ _ (eq_sym Hd) Hdi Hnt) as [E|]; [|by right].
      apply Forall_app in Hok as [Hes (He & Hll & Hlr)%Forall_singleton].
      pose proof (proj1 (list.Forall_forall _ _) (tower_length _ _ _ _ Hb) a Ha) as Hla.
      apply node_input_inj in E as [E1 E2].
      * destruct (IH below es c Hes Hc Hb) as [|Hcol]; [|by left|right; by eapply collision_mono].
        destruct (left_sibling e), (right_sibling e); cbn in *; try done; by subst.
      * rewrite Hla. destruct (left_sibling e); cbn; [by apply Hll|by eapply verified_length].
Qed.

Lemma root_in_level n l r : list.last (concat (tower n l)) = Some r → ∃ j lev, tower n l !! j = Some lev ∧ r ∈ lev.
Proof.
  intros Hr%list.last_Some_elem_of. induction (tower n l) as [|lev ls IH]; cbn in Hr; [by apply elem_of_nil in Hr|].
  apply elem_of_app in Hr as [Hr|Hr]; [by exists 0, lev|]. destruct (IH Hr) as (j & lev' & ? & ?). by exists (S j), lev'.
Qed.

(** Paths are made of entries that [ProofEntry::new] accepts. *)
Lemma branch_ok n l i : Forall (λ h, length h = 32) l → i < length l →
  Forall entry_ok (branch n l i).
Proof.
  revert l i. induction n as [|n IH]; intros l i Hl Hi; cbn [branch]; [by constructor|].
  destruct (length l =? 1); [by constructor|].
  assert (Hs : ∀ j x, l !! j = Some x → length x = 32).
  { intros j x Hj. exact (Forall_lookup_1 _ _ _ _ Hl Hj). }
  constructor; [|apply IH; [|by apply (half_lt hash_intermediate)]].
  - unfold entry_ok, sibs. cbn [left_sibling right_sibling]. pose proof (sibs_exactly_one l i Hi) as Ho.
    unfold sibs in Ho. destruct (i mod 2 =? 0); cbn [fst snd]; destruct Ho as [[r Hr]|[r Hr]];
      try discriminate; injection Hr as Hr; rewrite Hr; (split; [done|]);
      split; intros x Hx; simplify_eq; by eapply Hs.
  - apply parents_length.
Qed.

Lemma verify_reaches_root es c h : try_fold verify_step c es = Some h →
  es = [] ∨ proof_root es = Some h.
Proof.
  destruct es as [|e es _] using rev_ind; [by left|]. rewrite try_fold_app.
  destruct (try_fold _ _ es) as [c'|]; [|done]. cbn. unfold verify_step.
  case_bool_decide as Ht; [|done]. intros [= <-]. right. unfold proof_root.
  rewrite last_snoc. cbn. by rewrite Ht.
Qed.

Lemma sibs_partner l i x : l !! partner (length l) i = Some x →
  sibs l i = if i mod 2 =? 0 then (None, Some x) else (Some x, None).
Proof. unfold partner, sibs. by destruct (i mod 2 =? 0); intros ->. Qed.

Lemma owned_step_swaps l i h p x : length h = 32 → length x = 32 → l !! i = Some h →
  l !! partner (length l) i = Some x → parents l !! (i / 2) = Some p →
  owned_verify_step h (mkProofEntry p (sibs l i).1 (sibs l i).2) ≠ None → x = h ∨ collision.
Proof.
  intros Hh Hx Hi Hp Hpar Hv. destruct (verify_step_up l i h Hi) as (p' & Hp' & Hup).
  assert (p' = p) as -> by congruence. rewrite (sibs_partner l i x Hp) in *.
  unfold owned_verify_step, verify_step in *. destruct (i mod 2 =? 0);
    cbn [fst snd left_sibling right_sibling target default from_option id] in *;
    repeat case_bool_decide; try done.
  all: destruct (hash_intermediate_inj h x x h) as [[-> _]|]; [lia|congruence|by left|by right].
Qed.

End Levels.

(** ** Theorems *)

(** A tree can be built from any items, and for every item the tree gives a path of
    well-formed entries that verifies the item and ends in the root; for an index beyond
    the items it gives none.  Building and searching never panic. *)
Theorem merkle_round_trip {H : HashFns} `{!DigestLength H} {E} (items : list (list Z)) :
  ∃ t, merkle_new (E:=E) items = Ok t ∧
    ∀ i, match items !! i with
         | Some x => ∃ p, find_path (E:=E) t i = Ok (Some p) ∧ Forall entry_ok p ∧
                       proof_verify_item p x = true ∧
                       (length items ≠ 1 → proof_root p = merkle_root t) ∧
                       (length items = 1 → merkle_root t = Some (hash_leaf x))
         | None => find_path (E:=E) t i = Ok None
         end.
Proof.
  eexists. split; [apply merkle_new_run|]. intros i. destruct (items !! i) as [x|] eqn:Hi.
  2: { unfold find_path. cbn [leaf_count]. apply lookup_ge_None in Hi.
       by rewrite (proj2 (Nat.leb_le _ _)). }
  pose proof (lookup_lt_Some _ _ _ Hi) as Hlt. pose proof (length_fmap hash_leaf items) as Hl.
  assert (Hh : (hash_leaf <$> items) !! i = Some (hash_leaf x)) by (by rewrite list_lookup_fmap, Hi).
  destruct (branch_verifies (S (length items)) (hash_leaf <$> items) i (hash_leaf x))
    as (r & Hv & Hlast & Hroot); [lia|done|].
  eexists. split; [by apply find_path_run|]. split_and!.
  - apply branch_ok; [|lia]. apply leaves_length.
  - unfold proof_verify_item, proof_verify. by rewrite Hv.
  - intros H1. unfold merkle_root. cbn [nodes]. rewrite Hlast. apply Hroot. lia.
  - intros H1. destruct items as [|y [|]]; try done. destruct i; [|done]. by injection Hi as ->.
Qed.

Lemma merkle_round_trip_witness :
  ∃ t, @merkle_new std_hashes unit [[1%Z]; [2%Z]; [3%Z]] = Ok t ∧
    ∃ p, @find_path unit t 2 = Ok (Some p) ∧ @proof_verify_item std_hashes p [3%Z] = true ∧
      proof_root p = merkle_root t.
Proof.
  destruct (@merkle_round_trip std_hashes std_digest_length unit [[1%Z]; [2%Z]; [3%Z]])
    as (t & Ht & Hp).
  exists t. split; [exact Ht|]. destruct (Hp 2) as (p & H1 & _ & H2 & H3 & _).
  exists p. split; [exact H1|]. split; [exact H2|]. apply H3. discriminate.
Defined.

(** C38: Whoever presents a path of well-formed entries that ends in the root of a tree and
    verifies an item has an item of the tree; or one of the strings hashed to verify it is
    different from one of the strings that were hashed to build the tree, and has its digest. *)
Theorem merkle_sound {H : HashFns} `{!DigestLength H} {E} (items : list (list Z)) t p x :
  merkle_new (E:=E) items = Ok t → Forall entry_ok p → p ≠ [] →
  proof_root p = merkle_root t → proof_verify_item p x = true →
  x ∈ items ∨ collision_between (proof_inputs p x) (tree_inputs items).
Proof.
  rewrite merkle_new_run. intros [= <-] Hok Hne Hroot Hv. unfold proof_verify_item, proof_verify in Hv.
  destruct (try_fold verify_step (hash_leaf x) p) as [h|] eqn:Hf; [|done].
  destruct (verify_reaches_root _ _ _ Hf) as [->|Hh]; [done|].
  rewrite Hroot in Hh. destruct (root_in_level (S (length items)) (hash_leaf <$> items) h Hh) as (j & lev & Hj & Hin).
  by eapply sound_at_level.
Qed.

(** With digests that never collide, the item is one of the tree. *)
Lemma merkle_sound_witness : [1%Z] ∈ [[1%Z]; [2%Z]].
Proof.
  set (items := [[1%Z]; [2%Z]]). set (l := @hash_leaf wide_hashes <$> items).
  destruct (@branch_verifies wide_hashes 3 l 0 (@hash_leaf wide_hashes [1%Z])) as (r & Hv & Hl & Hr);
    [cbn; lia|reflexivity|].
  destruct (@merkle_sound wide_hashes wide_digest_length unit items
    (mkMerkleTree 2 (concat (@tower wide_hashes 3 l))) (@branch wide_hashes 3 l 0) [1%Z])
    as [Hin|(a & b & _ & _ & Hne & E)].
  - apply (@merkle_new_run wide_hashes).
  - apply (@branch_ok wide_hashes wide_digest_length); [|cbn; lia].
    apply (@leaves_length wide_hashes wide_digest_length items).
  - discriminate.
  - rewrite Hr by discriminate. symmetry. exact Hl.
  - unfold proof_verify_item, proof_verify. rewrite Hv. reflexivity.
  - exact Hin.
  - exfalso. apply wide_hashes_collide_nowhere. by exists a, b.
Defined.

(** [OwnedProof::verify] swaps the siblings: the owned form of a path verifies the
    very item it was found for only if the item is hashed with a copy of itself, or by a
    collision; so for distinct items it rejects every honest proof but the last's. *)
Theorem owned_proof_rejects {H : HashFns} `{!DigestLength H} {E} (items : list (list Z)) t i p x :
  merkle_new (E:=E) items = Ok t → 2 <= length items → items !! i = Some x →
  find_path (E:=E) t i = Ok (Some p) → owned_verify_item p x = true →
  items !! partner (length items) i = Some x ∨ collision.
Proof.
  intros Ht H2 Hi Hp Hv. pose proof (lookup_lt_Some _ _ _ Hi) as Hlt.
  rewrite merkle_new_run in Ht. assert (p = branch (S (length items)) (hash_leaf <$> items) i) as ->.
  { pose proof (find_path_run (E:=E) items i Hlt). simpl in *. congruence. }
  pose proof (length_fmap hash_leaf items) as Hl.
  assert (Hh : (hash_leaf <$> items) !! i = Some (hash_leaf x)) by (by rewrite list_lookup_fmap, Hi).
  destruct (lookup_lt_is_Some_2 items (partner (length items) i)) as [y Hy].
  { unfold partner. destruct (_ =? 0), (Nat.ltb_spec (i + 1) (length items)); lia. }
  destruct (verify_step_up _ _ _ Hh) as (q & Hq & _).
  unfold owned_verify_item, owned_verify in Hv. cbn [branch] in Hv. rewrite Hl in Hv.
  rewrite (proj2 (Nat.eqb_neq _ _)) in Hv by lia. rewrite try_fold_cons, Hq in Hv.
  destruct (owned_step_swaps (hash_leaf <$> items) i (hash_leaf x) q (hash_leaf y)) as [Heq|];
    [apply sha256v_length..|done|by rewrite Hl, list_lookup_fmap, Hy|done| |auto|by right].
  - intros Hn. change (default [] (Some q)) with q in Hv. by rewrite Hn in Hv.
  - apply hash_leaf_inj in Heq as [->|]; [by left|by right].
Qed.

Lemma owned_proof_rejects_witness :
  [[1%Z]; [1%Z]] !! partner 2 0 = Some [1%Z] ∨ @collision zero_hashes.
Proof.
  eapply (@owned_proof_rejects zero_hashes zero_digest_length unit [[1%Z]; [1%Z]]);
    [reflexivity|cbn; lia|reflexivity|reflexivity|reflexivity].
Defined.
