(* ===== verification/Float.v ===== *)
(** * IEEE binary64 as the program uses it

    The few [f64] operations of the coordinator, over the Standard Library's
    [SpecFloat] (the reference semantics of primitive floats: round to nearest,
    ties to even).  [as u16] truncates and saturates, with NaN going to 0, and
    [f64::round] rounds half away from zero. *)

From stdpp Require Import base tactics numbers.
From Stdlib Require Import SpecFloat.
From S2P Require Import Prelude.

Open Scope Z_scope.

Definition f64 : Type := spec_float.

Definition f64_of_Z (z : Z) : f64 := binary_normalize 53 1024 z 0 false.
Definition f64_add : f64 → f64 → f64 := SFadd 53 1024.
Definition f64_sub : f64 → f64 → f64 := SFsub 53 1024.
Definition f64_mul : f64 → f64 → f64 := SFmul 53 1024.
Definition f64_div : f64 → f64 → f64 := SFdiv 53 1024.
Definition f64_leb : f64 → f64 → bool := SFleb.
Definition f64_ltb : f64 → f64 → bool := SFltb.

(** Magnitude of a finite value rounded towards zero. *)
Definition trunc_mag (m : positive) (e : Z) : Z :=
  if 0 <=? e then Zpos m * 2 ^ e else Z.shiftr (Zpos m) (- e).

(** [x as uN] with largest value [max]. *)
Definition f64_as_unsigned (max : Z) (x : f64) : Z :=
  match x with
  | S754_zero _ | S754_nan => 0
  | S754_infinity s => if (s : bool) then 0 else max
  | S754_finite s m e => if (s : bool) then 0 else Z.min max (trunc_mag m e)
  end.

(** [x.round()]. *)
Definition f64_round (x : f64) : f64 :=
  match x with
  | S754_finite s m e =>
      if 0 <=? e then x
      else
        let d := 2 ^ (- e) in
        let n := (2 * Zpos m + d) / (2 * d) in
        binary_normalize 53 1024 (if (s : bool) then - n else n) 0 s
  | _ => x
  end.

Lemma f64_as_unsigned_range max x : 0 <= max → 0 <= f64_as_unsigned max x <= max.
Proof.
  intros Hm. destruct x as [s|s| |s m e]; simpl; try destruct s; try lia.
  assert (0 <= trunc_mag m e); [|lia].
  unfold trunc_mag. destruct (0 <=? e) eqn:He; [lia|]. apply Z.shiftr_nonneg. lia.
Qed.
