(* ===== verification/Float32.v ===== *)
(** * IEEE binary32 next to binary64

    The [f32] operations of the verifier, over the Standard Library's [SpecFloat], with the
    conversions between the two widths and the bit patterns the values are stored and hashed
    as.  The lemmas say when an operation cannot give a NaN, and that rounding never passes
    a representable bound, which is how sums of squares are shown to stay finite. *)

From stdpp Require Import base tactics list numbers.
From Stdlib Require Import SpecFloat.
From S2P Require Import Prelude Float.

Open Scope Z_scope.

Definition f32 : Type := spec_float.

Definition f32_add : f32 → f32 → f32 := SFadd 24 128.
Definition f32_sub : f32 → f32 → f32 := SFsub 24 128.
Definition f32_mul : f32 → f32 → f32 := SFmul 24 128.
Definition f32_div : f32 → f32 → f32 := SFdiv 24 128.
Definition f32_abs : f32 → f32 := SFabs.
Definition f32_ltb : f32 → f32 → bool := SFltb.
Definition f32_leb : f32 → f32 → bool := SFleb.
Definition f32_of_Z (z : Z) : f32 := binary_normalize 24 128 z 0 false.
Definition f64_sqrt : f64 → f64 := SFsqrt 53 1024.

Definition f32_zero : f32 := S754_zero false.
Definition f32_infinity : f32 := S754_infinity false.

(** [is_finite]. *)
Definition sf_finite (x : spec_float) : bool :=
  match x with S754_zero _ | S754_finite _ _ _ => true | _ => false end.

(** [max] and [min]: the other operand when one is a NaN. *)
Definition sf_max (x y : spec_float) : spec_float :=
  match SFcompare x y with
  | Some Lt => y
  | Some _ => x
  | None => match x with S754_nan => y | _ => x end
  end.
Definition sf_min (x y : spec_float) : spec_float :=
  match SFcompare x y with
  | Some Gt => y
  | Some _ => x
  | None => match x with S754_nan => y | _ => x end
  end.

(** [x as f64] is exact, [x as f32] rounds. *)
Definition convert (prec emax : Z) (x : spec_float) : spec_float :=
  match x with
  | S754_finite s m e => binary_normalize prec emax (cond_Zopp s (Zpos m)) e s
  | _ => x
  end.
Definition f64_of_f32 (x : f32) : f64 := convert 53 1024 x.
Definition f32_of_f64 (x : f64) : f32 := convert 24 128 x.

(** [f32::from_bits]; every NaN is one value here, so data is kept as bit patterns. *)
Definition f32_of_bits (b : Z) : f32 :=
  let s := Z.testbit b 31 in
  let ex := Z.shiftr b 23 mod 2 ^ 8 in
  let frac := b mod 2 ^ 23 in
  if ex =? 255 then (if frac =? 0 then S754_infinity s else S754_nan)
  else if ex =? 0 then match frac with Zpos m => S754_finite s m (-149) | _ => S754_zero s end
  else match 2 ^ 23 + frac with Zpos m => S754_finite s m (ex - 150) | _ => S754_nan end.

(** ** Digits *)

Lemma digits2_bound m : 2 ^ (Zpos (digits2_pos m) - 1) <= Zpos m < 2 ^ Zpos (digits2_pos m).
Proof.
  induction m as [m IH|m IH|]; cbn [digits2_pos]; [| |done].
  all: rewrite Pos2Z.inj_succ; replace (Z.succ (Zpos (digits2_pos m)) - 1) with (Zpos (digits2_pos m)) by lia;
    rewrite Z.pow_succ_r by lia;
    replace (Zpos (digits2_pos m)) with (Z.succ (Zpos (digits2_pos m) - 1)) at 1 by lia;
    rewrite Z.pow_succ_r by lia; lia.
Qed.

(** ** Rounding does not pass a representable bound *)

Section Rounding.
Context (prec emax : Z) (Hprec : 0 < prec).

(** The smallest integer not below what the record stands for. *)
Definition shr_up (r : shr_record) : Z := shr_m r + (if shr_r r || shr_s r then 1 else 0).

Lemma shr_1_up r y : 0 <= shr_m r → shr_up r <= 2 * y → 0 <= shr_m (shr_1 r) ∧ shr_up (shr_1 r) <= y.
Proof.
  destruct r as [m b1 b2]. unfold shr_up. cbn [shr_m shr_r shr_s]. intros Hm Hy.
  destruct m as [|[p|p|]|p]; [| | | |lia]; cbn [shr_1 shr_m shr_r shr_s]; destruct b1, b2; cbn in *; lia.
Qed.

Lemma iter_shr_up p r y : 0 <= shr_m r → shr_up r <= 2 ^ Zpos p * y →
  0 <= shr_m (iter_pos shr_1 p r) ∧ shr_up (iter_pos shr_1 p r) <= y.
Proof.
  revert r y. induction p as [p IH|p IH|]; intros r y Hm Hy; cbn [iter_pos].
  - assert (Hs : 2 ^ Zpos p~1 = 2 * (2 ^ Zpos p * 2 ^ Zpos p)).
    { rewrite <- Z.pow_add_r, <- Z.pow_succ_r by lia. f_equal. lia. }
    destruct (shr_1_up r (2 ^ Zpos p * (2 ^ Zpos p * y))) as [H1 H2]; [done|lia|].
    destruct (IH _ _ H1 H2) as [H3 H4]. by apply IH.
  - assert (Hs : 2 ^ Zpos p~0 = 2 ^ Zpos p * 2 ^ Zpos p) by (rewrite <- Z.pow_add_r by lia; f_equal; lia).
    destruct (IH r (2 ^ Zpos p * y)) as [H1 H2]; [done|lia|]. by apply IH.
  - by apply shr_1_up.
Qed.

Lemma iter_shr_nonneg p r : 0 <= shr_m r → 0 <= shr_m (iter_pos shr_1 p r).
Proof.
  intros Hm. destruct (iter_shr_up p r (shr_up r)) as [? _]; [done| |done].
  assert (0 <= shr_up r) by (unfold shr_up; destruct (_ || _); lia).
  assert (1 <= 2 ^ Zpos p) by (apply (Z.pow_le_mono_r 2 0); lia). nia.
Qed.

Lemma round_nearest_up r : round_nearest_even (shr_m r) (loc_of_shr_record r) <= shr_up r.
Proof. destruct r as [m [] []]; unfold shr_up; cbn; try destruct (Z.even m); lia. Qed.
Lemma round_nearest_nonneg m l : 0 <= m → 0 <= round_nearest_even m l.
Proof. destruct l as [|[]]; cbn; try destruct (Z.even m); lia. Qed.

(** No rounding of a non-negative significand is a NaN. *)
Lemma shr_fexp_nonneg m e l : 0 <= m → 0 <= shr_m (fst (shr_fexp prec emax m e l)).
Proof.
  intros Hm. unfold shr_fexp, shr. assert (H0 : 0 <= shr_m (shr_record_of_loc m l)) by (by destruct l as [|[]]).
  destruct (_ - e); cbn; [done|by apply iter_shr_nonneg|done].
Qed.

Lemma round_aux_cases s m e l : 0 <= m →
  let x := binary_round_aux prec emax s m e l in
  x = S754_zero s ∨ x = S754_infinity s ∨ ∃ m' e', x = S754_finite s m' e'.
Proof.
  intros Hm. unfold binary_round_aux. destruct (shr_fexp prec emax m e l) as [r e'] eqn:Hr.
  pose proof (shr_fexp_nonneg m e l Hm) as H1. rewrite Hr in H1. cbn in H1.
  apply (round_nearest_nonneg _ (loc_of_shr_record r)) in H1.
  destruct (shr_fexp prec emax (round_nearest_even _ _) e' loc_Exact) as [r2 e2] eqn:Hr2.
  pose proof (shr_fexp_nonneg _ e' loc_Exact H1) as H2. rewrite Hr2 in H2. cbn in H2.
  destruct (shr_m r2) as [|p|p]; [by left| |lia]. destruct (e2 <=? _); [|by right; left].
  right. right. by exists p, e2.
Qed.

Lemma normalize_cases m e s0 : let x := binary_normalize prec emax m e s0 in
  x ≠ S754_nan ∧ (0 < m → x = S754_zero false ∨ x = S754_infinity false ∨ ∃ m' e', x = S754_finite false m' e').
Proof.
  unfold binary_normalize, binary_round. destruct m as [|p|p]; [by split; [|lia]|..].
  - destruct (shl_align p e _) as [mz ez]. cbn zeta.
    pose proof (round_aux_cases false (Zpos mz) ez loc_Exact ltac:(lia)) as Hc. cbn zeta in Hc.
    split; [|done]. by destruct Hc as [->|[->|(? & ? & ->)]].
  - destruct (shl_align p e _) as [mz ez]. cbn zeta.
    pose proof (round_aux_cases true (Zpos mz) ez loc_Exact ltac:(lia)) as Hc. cbn zeta in Hc.
    split; [|lia]. by destruct Hc as [->|[->|(? & ? & ->)]].
Qed.

(** What is not above the representable [M * 2^E] is shifted to a significand that is not
    above it either; [K] only makes the exponents non-negative. *)
Definition loc_up (l : location) : Z := match l with loc_Exact => 0 | loc_Inexact _ => 1 end.

Lemma shr_fexp_bound m e l M E K : 0 < m → 0 <= e + K → emin prec emax <= E → 0 <= E + K →
  0 < M < 2 ^ prec → (m + loc_up l) * 2 ^ (e + K) <= M * 2 ^ (E + K) →
  let '(r, e') := shr_fexp prec emax m e l in
  0 <= shr_m r ∧ e <= e' ∧ (e' <= E ∨ e' = e) ∧ shr_up r * 2 ^ (e' + K) <= M * 2 ^ (E + K).
Proof.
  intros Hm He HE HEK HM Hle. unfold shr_fexp, shr.
  assert (Hl : shr_m (shr_record_of_loc m l) = m ∧ shr_up (shr_record_of_loc m l) = m + loc_up l).
  { destruct l as [|[]]; unfold shr_up; cbn; lia. }
  destruct Hl as [Hlm Hlu]. set (n := fexp prec emax (Zdigits2 m + e) - e). destruct n as [|p|p] eqn:Hn; subst n.
  1, 3: split_and!; [lia|lia|by right|by rewrite Hlu].
  destruct m as [|m|m]; [lia| |lia]. cbn [Zdigits2] in Hn.
  pose proof (digits2_bound m) as [Hlow _]. set (d := Zpos (digits2_pos m)) in *.
  assert (HeE : e + Zpos p <= E).
  { destruct (Z.le_gt_cases (e + Zpos p) E) as [?|Hgt]; [done|exfalso].
    assert (Hd : d + e = e + Zpos p + prec) by (unfold fexp in Hn; lia).
    assert (Hpow : 2 ^ (E + K + prec) <= 2 ^ (d - 1) * 2 ^ (e + K)).
    { rewrite <- Z.pow_add_r by lia. apply Z.pow_le_mono_r; lia. }
    rewrite Z.pow_add_r in Hpow by lia. assert (0 <= loc_up l) by (destruct l; cbn; lia).
    assert (0 < 2 ^ (e + K)) by (apply Z.pow_pos_nonneg; lia). nia. }
  assert (Hsplit : 2 ^ (E + K) = 2 ^ (E - (e + Zpos p)) * 2 ^ Zpos p * 2 ^ (e + K)).
  { rewrite <- !Z.pow_add_r by lia. f_equal. lia. }
  assert (Hup : Zpos m + loc_up l <= 2 ^ Zpos p * (M * 2 ^ (E - (e + Zpos p)))).
  { assert (0 < 2 ^ (e + K)) by (apply Z.pow_pos_nonneg; lia). nia. }
  destruct (iter_shr_up p (shr_record_of_loc (Zpos m) l) (M * 2 ^ (E - (e + Zpos p)))) as [H1 H2]; [lia..|].
  split_and!; [done|lia|by left|].
  rewrite Hsplit. replace (e + Zpos p + K) with (Zpos p + (e + K)) by lia. rewrite Z.pow_add_r by lia.
  assert (0 < 2 ^ Zpos p * 2 ^ (e + K)) by (apply Z.mul_pos_pos; apply Z.pow_pos_nonneg; lia). nia.
Qed.

(** Rounding gives zero or a finite value that is not above the bound. *)
Definition finite_upto (K M E : Z) (x : spec_float) : Prop :=
  x = S754_zero false ∨
  ∃ m e, x = S754_finite false m e ∧ 0 <= e + K ∧ Zpos m * 2 ^ (e + K) <= M * 2 ^ (E + K).

Lemma round_aux_upto m e l M E K : 0 < m → 0 <= e + K → emin prec emax <= E → 0 <= E + K →
  0 < M < 2 ^ prec → E + prec <= emax - prec → (m + loc_up l) * 2 ^ (e + K) <= M * 2 ^ (E + K) →
  finite_upto K M E (binary_round_aux prec emax false m e l).
Proof.
  intros Hm He HE HEK HM Hmax Hle. unfold binary_round_aux.
  pose proof (shr_fexp_bound m e l M E K Hm He HE HEK HM Hle) as H1.
  destruct (shr_fexp prec emax m e l) as [r e']. destruct H1 as (Hr0 & He' & Hor & Hup).
  set (m1 := round_nearest_even (shr_m r) (loc_of_shr_record r)).
  assert (Hm1 : 0 <= m1) by (by apply round_nearest_nonneg).
  assert (Hm1le : m1 * 2 ^ (e' + K) <= M * 2 ^ (E + K)).
  { assert (m1 <= shr_up r) by apply round_nearest_up.
    assert (0 < 2 ^ (e' + K)) by (apply Z.pow_pos_nonneg; lia). nia. }
  destruct (Z.eq_dec m1 0) as [->|Hne].
  { left. unfold shr_fexp, shr. cbn [shr_record_of_loc].
    pose proof (iter_shr_nonneg 1 (Build_shr_record 0 false false) ltac:(cbn; lia)).
    destruct (_ - e') as [|p|p]; cbn; [done| |done].
    destruct (iter_shr_up p (Build_shr_record 0 false false) 0) as [H2 H3]; [cbn; lia|unfold shr_up; cbn; lia|].
    unfold shr_up in H3. destruct (iter_pos shr_1 p _) as [mm b1 b2]. cbn in *.
    assert (mm = 0) as -> by (destruct (b1 || b2); lia). done. }
  pose proof (shr_fexp_bound m1 e' loc_Exact M E K ltac:(lia) ltac:(lia) HE HEK HM ltac:(cbn; lia)) as H2.
  destruct (shr_fexp prec emax m1 e' loc_Exact) as [r2 e2]. destruct H2 as (Hr2 & He2 & Hor2 & Hup2).
  destruct (shr_m r2) as [|p|p] eqn:Hp; [by left| |lia].
  assert (Hpup : Zpos p * 2 ^ (e2 + K) <= M * 2 ^ (E + K)).
  { assert (Zpos p <= shr_up r2) by (unfold shr_up; destruct (_ || _); lia).
    assert (0 < 2 ^ (e2 + K)) by (apply Z.pow_pos_nonneg; lia). nia. }
  assert (Hemax : e2 <= emax - prec).
  { destruct (Z.le_gt_cases e2 (E + prec)) as [?|Hgt]; [lia|exfalso].
    assert (2 ^ (E + K + prec) <= 2 ^ (e2 + K)) by (apply Z.pow_le_mono_r; lia).
    rewrite Z.pow_add_r in * by lia. assert (0 < 2 ^ (E + K)) by (apply Z.pow_pos_nonneg; lia). nia. }
  rewrite (proj2 (Z.leb_le _ _)) by done. right. exists p, e2. split_and!; [done|lia|done].
Qed.

Lemma shl_align_value m e e' K : 0 <= e + K → 0 <= e' + K →
  let '(mz, ez) := shl_align m e e' in 0 <= ez + K ∧ Zpos mz * 2 ^ (ez + K) = Zpos m * 2 ^ (e + K) ∧ (ez = e ∨ ez = e').
Proof.
  intros He He'. unfold shl_align. destruct (e' - e) as [|p|p] eqn:Hd; [by auto..|].
  split_and!; [done| |by right]. replace (e + K) with (Zpos p + (e' + K)) by lia.
  rewrite (Z.pow_add_r 2 (Zpos p) (e' + K)) by lia.
  enough (Hi : Zpos (Pos.iter xO m p) = Zpos m * 2 ^ Zpos p) by (rewrite Hi; ring).
  clear. revert m. induction p as [|p IH] using Pos.peano_ind; intros m.
  - cbn. lia.
  - rewrite Pos.iter_succ, Pos2Z.inj_succ, Z.pow_succ_r by lia. specialize (IH m).
    change (Zpos (Pos.iter xO m p)~0) with (2 * Zpos (Pos.iter xO m p)). lia.
Qed.

Lemma normalize_upto m e s M E K : 0 < m → 0 <= e + K → emin prec emax <= E → 0 <= emin prec emax + K →
  0 < M < 2 ^ prec → E + prec <= emax - prec → m * 2 ^ (e + K) <= M * 2 ^ (E + K) →
  finite_upto K M E (binary_normalize prec emax m e s).
Proof.
  intros Hm He HE HK HM Hmax Hle. unfold binary_normalize, binary_round. destruct m as [|m|m]; [lia| |lia].
  pose proof (shl_align_value m e (fexp prec emax (Zpos (digits2_pos m) + e)) K He ltac:(unfold fexp; lia)) as Hs.
  destruct (shl_align m e _) as [mz ez]. destruct Hs as (Hez & Heq & _). apply round_aux_upto; cbn; lia.
Qed.
End Rounding.

(** ** Operations that give no NaN *)

(** Zero, infinity or a number, without a minus sign. *)
Definition plus_signed (x : spec_float) : Prop :=
  x = S754_zero false ∨ x = S754_infinity false ∨ ∃ m e, x = S754_finite false m e.

Lemma plus_signed_not_nan x : plus_signed x → x ≠ S754_nan.
Proof. by intros [->|[->|(? & ? & ->)]]. Qed.

Lemma finite_upto_plus K M E x : finite_upto K M E x → plus_signed x ∧ sf_finite x = true.
Proof. intros [->|(m & e & -> & _)]; (split; [|done]); [by left|right; right; by exists m, e]. Qed.

Lemma f32_sub_not_nan x y : sf_finite x = true → sf_finite y = true → f32_sub x y ≠ S754_nan.
Proof.
  destruct x as [[]| | |[] m e], y as [[]| | |[] m' e']; try done; intros _ _;
    unfold f32_sub, SFsub; apply (normalize_cases 24 128).
Qed.

(** A difference of equal values is zero. *)
Lemma f32_sub_diag x : sf_finite x = true → f32_sub x x = S754_zero false.
Proof.
  destruct x as [[]| | |s m e]; try done. intros _. unfold f32_sub, SFsub. by rewrite Z.sub_diag.
Qed.

Lemma convert_not_nan p q x : x ≠ S754_nan → convert p q x ≠ S754_nan.
Proof. destruct x as [| | |s m e]; try done. intros _. apply (normalize_cases p q). Qed.

Lemma convert_plus p q x : plus_signed x → plus_signed (convert p q x).
Proof.
  intros [->|[->|(m & e & ->)]]; [by left|by right; left|]. cbn.
  apply (normalize_cases p q (Zpos m) e false). lia.
Qed.

Lemma f64_mul_self x : x ≠ S754_nan → plus_signed (f64_mul x x).
Proof.
  destruct x as [s|s| |s m e]; try done; intros _; unfold f64_mul, SFmul; rewrite ?xorb_nilpotent.
  - by left.
  - by right; left.
  - by apply round_aux_cases.
Qed.

Lemma f64_add_plus x y : plus_signed x → plus_signed y → plus_signed (f64_add x y).
Proof.
  intros [->|[->|(m & e & ->)]] [->|[->|(m' & e' & ->)]]; unfold f64_add, SFadd; try (by left); try (by right; left);
    try (right; right; by eexists _, _).
  cbn [cond_Zopp]. apply (normalize_cases 53 1024). lia.
Qed.

Lemma f64_sqrt_plus x : plus_signed x → plus_signed (f64_sqrt x).
Proof.
  intros [->|[->|(m & e & ->)]]; [by left|by right; left|]. unfold f64_sqrt, SFsqrt, SFsqrt_core_binary.
  set (m' := match _ with Z0 => _ | Zpos _ => _ | Zneg _ => _ end).
  assert (Hm' : 0 <= m').
  { subst m'. destruct (_ - _); [lia| |lia]. apply Z.shiftl_nonneg. lia. }
  destruct (Z.sqrtrem m') as [q r] eqn:Hq. pose proof (Z.sqrt_nonneg m') as Hs.
  rewrite <- Z.sqrtrem_sqrt, Hq in Hs. by apply round_aux_cases.
Qed.

Lemma f64_div_plus x m e : plus_signed x → plus_signed (f64_div x (S754_finite false m e)).
Proof.
  intros [->|[->|(m' & e' & ->)]]; [by left|by right; left|]. unfold f64_div, SFdiv, SFdiv_core_binary.
  set (m'' := match _ with Z0 => _ | Zpos _ => _ | Zneg _ => _ end).
  assert (Hm : 0 <= m'').
  { subst m''. destruct (_ - _); [lia| |lia]. apply Z.shiftl_nonneg. lia. }
  pose proof (Z.div_pos m'' (Zpos m) Hm ltac:(lia)) as Hd. unfold Z.div in Hd.
  destruct (Z.div_eucl m'' (Zpos m)) as [q r]. by apply round_aux_cases.
Qed.

Lemma sf_max_cases x y : sf_max x y = x ∨ sf_max x y = y.
Proof. unfold sf_max. destruct (SFcompare x y) as [[]|]; [by auto..|]. destruct x; by auto. Qed.

(** ** Sums of squares stay finite *)

Lemma round_aux_sign p q s m e l :
  binary_round_aux p q (negb s) m e l = SFopp (binary_round_aux p q s m e l).
Proof.
  unfold binary_round_aux. destruct (shr_fexp _ _ m e l) as [r e1]. destruct (shr_fexp _ _ _ e1 _) as [r2 e2].
  destruct (shr_m r2); [done| |done]. by destruct (e2 <=? _).
Qed.

Lemma convert_opp p q m e : convert p q (S754_finite true m e) = SFopp (convert p q (S754_finite false m e)).
Proof.
  change (binary_round p q true m e = SFopp (binary_round p q false m e)).
  unfold binary_round. destruct (shl_align m e _) as [mz ez]. apply (round_aux_sign p q false).
Qed.

Lemma f64_mul_opp x : f64_mul (SFopp x) (SFopp x) = f64_mul x x.
Proof. destruct x as [[]|[]| |[] m e]; done. Qed.

Lemma f64_square_upto x : finite_upto 2000 (2 ^ 24) 104 x → finite_upto 4000 1 256 (f64_mul x x).
Proof.
  intros [->|(m & e & -> & He & Hle)]; [by left|]. unfold f64_mul, SFmul. cbn [xorb].
  apply round_aux_upto; [lia|lia|lia|vm_compute; congruence|lia|lia|vm_compute; congruence|].
  replace (e + e + 4000) with ((e + 2000) + (e + 2000)) by lia. rewrite Z.pow_add_r by lia.
  assert (H256 : 2 ^ 24 * 2 ^ (104 + 2000) * (2 ^ 24 * 2 ^ (104 + 2000)) = 1 * 2 ^ (256 + 4000)) by (vm_compute; reflexivity).
  rewrite <- H256. cbn [loc_up]. rewrite Z.add_0_r, Pos2Z.inj_mul.
  assert (Hv : 0 < 2 ^ (e + 2000)) by (apply Z.pow_pos_nonneg; lia).
  replace (Zpos m * Zpos m * (2 ^ (e + 2000) * 2 ^ (e + 2000))) with
    ((Zpos m * 2 ^ (e + 2000)) * (Zpos m * 2 ^ (e + 2000))) by ring.
  apply Z.mul_le_mono_nonneg; lia.
Qed.

Lemma f64_add_upto x y M N : finite_upto 4000 M 256 x → finite_upto 4000 N 256 y →
  0 < M → 0 < N → M + N < 2 ^ 53 → finite_upto 4000 (M + N) 256 (f64_add x y).
Proof.
  assert (Hmono : ∀ a b z, 0 < a → a <= b → finite_upto 4000 a 256 z → finite_upto 4000 b 256 z).
  { intros a b z Ha Hab [->|(m & e & -> & He & Hle)]; [by left|right]. exists m, e. split_and!; [done..|].
    assert (0 < 2 ^ (256 + 4000)) by (apply Z.pow_pos_nonneg; lia). nia. }
  intros Hx Hy HM HN Hsum. pose proof Hx as [->|(m & e & -> & He & Hle)]; pose proof Hy as [->|(m' & e' & -> & He' & Hle')].
  - by left.
  - unfold f64_add, SFadd. apply (Hmono N); [lia|lia|done].
  - unfold f64_add, SFadd. apply (Hmono M); [lia|lia|done].
  - unfold f64_add, SFadd. cbn [cond_Zopp].
    pose proof (shl_align_value m e (Z.min e e') 4000 He ltac:(lia)) as H1.
    pose proof (shl_align_value m' e' (Z.min e e') 4000 He' ltac:(lia)) as H2.
    assert (E1 : snd (shl_align m e (Z.min e e')) = Z.min e e').
    { unfold shl_align. destruct (Z.min e e' - e) eqn:Hd; cbn; lia. }
    assert (E2 : snd (shl_align m' e' (Z.min e e')) = Z.min e e').
    { unfold shl_align. destruct (Z.min e e' - e') eqn:Hd; cbn; lia. }
    destruct (shl_align m e _) as [m1 e1], (shl_align m' e' _) as [m2 e2]. cbn in E1, E2. subst e1 e2. cbn [fst].
    destruct H1 as (_ & H1 & _), H2 as (_ & H2 & _).
    apply normalize_upto; [lia|lia|lia|vm_compute; congruence|vm_compute; congruence|lia|vm_compute; congruence|].
    rewrite !Z.mul_add_distr_r. lia.
Qed.

Lemma f64_sqrt_upto x : finite_upto 4000 (2 ^ 53) 256 x → finite_upto 2000 1 156 (f64_sqrt x).
Proof.
  intros [->|(m & e & -> & He & Hle)]; [by left|]. unfold f64_sqrt, SFsqrt, SFsqrt_core_binary.
  set (e' := Z.min _ (Z.div2 e)). cbn zeta.
  assert (He2 : 2 * e' <= e ∧ -2000 <= e').
  { pose proof (Z.div_mod e 2 ltac:(lia)). pose proof (Z.mod_pos_bound e 2 ltac:(lia)).
    subst e'. unfold fexp, emin. rewrite (Z.div2_div e). lia. }
  set (m' := match _ with Z0 => _ | Zpos _ => _ | Zneg _ => _ end).
  assert (Hm' : m' = Zpos m * 2 ^ (e - 2 * e')).
  { subst m'. destruct (e - 2 * e') eqn:Hd; [cbn; lia| |lia]. by rewrite Z.shiftl_mul_pow2. }
  assert (Hp : 0 < 2 ^ (e - 2 * e')) by (apply Z.pow_pos_nonneg; lia).
  destruct (Z.sqrtrem m') as [q r] eqn:Hq. pose proof (Z.sqrtrem_spec m' ltac:(lia)) as Hs. rewrite Hq in Hs.
  destruct Hs as [Hsq Hr]. assert (Hq1 : 1 <= q) by nia.
  set (l := if r =? 0 then _ else _). assert (Hl : loc_up l <= 1) by (subst l; destruct (r =? 0); cbn; lia).
  apply round_aux_upto; [lia|lia|lia|vm_compute; congruence|lia|lia|vm_compute; congruence|].
  assert (Hv : 0 < 2 ^ (e' + 2000)) by (apply Z.pow_pos_nonneg; lia).
  assert (Hqv : (q * 2 ^ (e' + 2000)) * (q * 2 ^ (e' + 2000)) <= 2 ^ 2155 * 2 ^ 2155).
  { assert (Heq : 2 ^ (e + 4000) = 2 ^ (e - 2 * e') * (2 ^ (e' + 2000) * 2 ^ (e' + 2000))).
    { rewrite <- !Z.pow_add_r by lia. f_equal. lia. }
    assert (Hb : 2 ^ 53 * 2 ^ (256 + 4000) <= 2 ^ 2155 * 2 ^ 2155) by (vm_compute; congruence). nia. }
  assert (Hle2 : q * 2 ^ (e' + 2000) <= 2 ^ 2155).
  { assert (0 < 2 ^ 2155) by (vm_compute; reflexivity). nia. }
  assert (Hb : 2 * 2 ^ 2155 = 1 * 2 ^ (156 + 2000)) by (vm_compute; reflexivity). rewrite <- Hb. nia.
Qed.

(** The values 32 bits stand for. *)
Lemma f32_of_bits_range b : sf_finite (f32_of_bits b) = true →
  (∃ s, f32_of_bits b = S754_zero s) ∨
  ∃ s m e, f32_of_bits b = S754_finite s m e ∧ Zpos m < 2 ^ 24 ∧ -149 <= e <= 104.
Proof.
  unfold f32_of_bits. pose proof (Z.mod_pos_bound (Z.shiftr b 23) (2 ^ 8) ltac:(lia)) as Hex.
  pose proof (Z.mod_pos_bound b (2 ^ 23) ltac:(lia)) as Hfrac. set (ex := Z.shiftr b 23 mod 2 ^ 8) in *.
  set (frac := b mod 2 ^ 23) in *. destruct (Z.eqb_spec ex 255); [by destruct (frac =? 0)|].
  destruct (Z.eqb_spec ex 0).
  - destruct frac as [|m|m]; intros _; [left; by eexists|right|lia]. eexists _, m, _. split_and!; [done|lia..].
  - destruct (2 ^ 23 + frac) as [|m|m] eqn:Hm; [done| |done]. intros _. right. eexists _, m, _.
    split_and!; [done|lia..].
Qed.

Lemma f64_of_bits_square b : sf_finite (f32_of_bits b) = true →
  finite_upto 4000 1 256 (f64_mul (f64_of_f32 (f32_of_bits b)) (f64_of_f32 (f32_of_bits b))).
Proof.
  intros [[[] ->]|(s & m & e & -> & Hm & He)]%f32_of_bits_range; [by left..|].
  assert (Hup : finite_upto 2000 (2 ^ 24) 104 (f64_of_f32 (S754_finite false m e))).
  { unfold f64_of_f32, convert. cbn [cond_Zopp].
    apply normalize_upto; [lia|lia|lia|vm_compute; congruence|vm_compute; congruence|lia|vm_compute; congruence|].
    assert (2 ^ (e + 2000) <= 2 ^ (104 + 2000)) by (apply Z.pow_le_mono_r; lia).
    assert (0 < 2 ^ (e + 2000)) by (apply Z.pow_pos_nonneg; lia). nia. }
  destruct s; [|by apply f64_square_upto]. unfold f64_of_f32. rewrite convert_opp, f64_mul_opp.
  by apply f64_square_upto.
Qed.
