(* ===== verification/CoordinatorState.v ===== *)
(** * Data of the coordinator

    The types of src/shared/coordinator/src/coordinator.rs and model.rs: the run
    state machine's states, clients, witnesses, rounds, the epoch state, the
    configuration and its checks, the model description and its checks.  A
    [FixedVec] field is the list it holds (FixedVec.v); a [zeroed] struct is the
    default one of each type. *)

From stdpp Require Import base tactics list numbers strings.
From S2P Require Import Prelude CoreTypes Hashing Bloom Float.

Open Scope Z_scope.

Definition SOLANA_MAX_STRING_LEN : nat := 64.
Definition SOLANA_MAX_URL_STRING_LEN : nat := 192.
Definition SOLANA_MAX_NUM_CLIENTS : nat := 256.
Definition SOLANA_MAX_NUM_WITNESSES : nat := 32.
Definition SOLANA_RUN_ID_MAX_LEN : nat := 32.
Definition NUM_STORED_ROUNDS : nat := 4.

(** ** Run and client states *)
Inductive RunState :=
| Uninitialized | WaitingForMembers | Warmup | RoundTrain | RoundWitness | Cooldown
| Finished | Paused.

#[global] Instance RunState_eq_dec : EqDecision RunState.
Proof. solve_decision. Defined.

Inductive ClientState := Healthy | Dropped | Withdrawn | Ejected.

#[global] Instance ClientState_eq_dec : EqDecision ClientState.
Proof. solve_decision. Defined.

Inductive CoordinatorError :=
| NoActiveRound | InvalidWitness | InvalidRunState | DuplicateWitness | InvalidHealthCheck
| Halted | WitnessesFull | CannotResume | InvalidWithdraw | InvalidCommitteeSelection
| InvalidCommitteeProof | InvalidSlash.

#[global] Instance CoordinatorError_eq_dec : EqDecision CoordinatorError.
Proof. solve_decision. Defined.

Inductive TickResult := Ticked | EpochEnd (success : bool).

(** [TryFrom<usize> for RunState] and [From<RunState> for usize]. *)
Definition RunState_try_from (value : Z) : res CoordinatorError RunState :=
  match value with
  | 0 => Ok Uninitialized
  | 1 => Ok WaitingForMembers
  | 2 => Ok Warmup
  | 3 => Ok RoundTrain
  | 4 => Ok RoundWitness
  | 5 => Ok Cooldown
  | 6 => Ok Finished
  | 7 => Ok Paused
  | _ => Err InvalidRunState
  end.
Definition usize_of_RunState (s : RunState) : Z :=
  match s with
  | Uninitialized => 0 | WaitingForMembers => 1 | Warmup => 2 | RoundTrain => 3
  | RoundWitness => 4 | Cooldown => 5 | Finished => 6 | Paused => 7
  end.

Record Client := mkClient {
  id : NodeIdentity;
  state : ClientState;
  exited_height : Z
}.

Definition Client_new (i : NodeIdentity) : Client := mkClient i Healthy 0.
Definition set_state (s : ClientState) (c : Client) : Client :=
  mkClient (id c) s (exited_height c).
Definition set_exited_height (h : Z) (c : Client) : Client :=
  mkClient (id c) (state c) h.

(** ** Committees and witnesses *)
Inductive Committee := TieBreaker | Verifier | Trainer.

#[global] Instance Committee_eq_dec : EqDecision Committee.
Proof. solve_decision. Defined.

Record CommitteeProof := mkCommitteeProof {
  cp_committee : Committee;
  cp_position : Z;
  cp_index : Z
}.

Record WitnessProof := mkWitnessProof {
  wp_position : Z;
  wp_index : Z;
  wp_witness : SmallBoolean
}.

Record Witness := mkWitness {
  proof : WitnessProof;
  participant_bloom : Bloom;
  broadcast_bloom : Bloom;
  broadcast_merkle : list Z
}.

(** [Bloom<16, 8>]. *)
Definition WitnessBloom_wf (b : Bloom) : Prop :=
  length (keys b) = 8%nat ∧ length (bits b) = 1024%nat.

Record Commitment := mkCommitment {
  data_hash : list Z;
  signature : list Z
}.

(** ** Rounds *)
Record Round := mkRound {
  witnesses : list Witness;
  data_index : Z;
  random_seed : Z;
  height : Z;
  clients_len : Z;
  tie_breaker_tasks : Z
}.

Definition Round_default : Round := mkRound [] 0 0 0 0 0.
Definition set_witnesses (w : list Witness) (r : Round) : Round :=
  mkRound w (data_index r) (random_seed r) (height r) (clients_len r) (tie_breaker_tasks r).

(** ** Configuration *)
Record CoordinatorConfig := mkConfig {
  warmup_time : Z;
  cooldown_time : Z;
  max_round_train_time : Z;
  round_witness_time : Z;
  global_batch_size_warmup_tokens : Z;
  epoch_time : Z;
  total_steps : Z;
  init_min_clients : Z;
  min_clients : Z;
  witness_nodes : Z;
  global_batch_size_start : Z;
  global_batch_size_end : Z;
  verification_percent : Z;
  waiting_for_members_extra_time : Z
}.

Inductive ConfigError :=
| EEpochTime | EWarmupTime | EMaxRoundTrainTime | ERoundWitnessTime | EMinClients
| EInitMinClients | EGlobalBatchSize | ETotalSteps | EWitnessNodes | ECooldownTime
| EWaitingForMembersExtraTime.

Definition check_error (c : CoordinatorConfig) : res ConfigError unit :=
  res_throw_if (epoch_time c =? 0) EEpochTime ;;
  res_throw_if (epoch_time c <=? warmup_time c) EWarmupTime ;;
  res_throw_if ((max_round_train_time c =? 0) || (epoch_time c <=? max_round_train_time c))
    EMaxRoundTrainTime ;;
  res_throw_if (round_witness_time c =? 0) ERoundWitnessTime ;;
  res_throw_if (min_clients c =? 0) EMinClients ;;
  res_throw_if ((init_min_clients c <? min_clients c)
                || (Z.of_nat SOLANA_MAX_NUM_CLIENTS <? init_min_clients c)) EInitMinClients ;;
  res_throw_if ((global_batch_size_start c =? 0) || (global_batch_size_end c =? 0)
                || (global_batch_size_end c <? global_batch_size_start c)) EGlobalBatchSize ;;
  res_throw_if (total_steps c =? 0) ETotalSteps ;;
  res_throw_if ((min_clients c <? witness_nodes c)
                || (Z.of_nat SOLANA_MAX_NUM_WITNESSES <? witness_nodes c)) EWitnessNodes ;;
  res_throw_if (cooldown_time c =? 0) ECooldownTime ;;
  res_throw_if (waiting_for_members_extra_time c =? 0) EWaitingForMembersExtraTime ;;
  Ok tt.

Definition config_check (c : CoordinatorConfig) : bool := is_ok (check_error c).

Definition get_batch_size (c : CoordinatorConfig) (total_tokens_processed : Z) : Z :=
  if global_batch_size_warmup_tokens c <=? total_tokens_processed then global_batch_size_end c
  else
    let progress := f64_div (f64_of_Z total_tokens_processed)
                            (f64_of_Z (global_batch_size_warmup_tokens c)) in
    f64_as_unsigned u16_max (f64_round
      (f64_add (f64_of_Z (global_batch_size_start c))
        (f64_mul (f64_sub (f64_of_Z (global_batch_size_end c))
                          (f64_of_Z (global_batch_size_start c))) progress))).

(** ** Model *)
Record HubRepo := mkHubRepo {
  repo_id : FixedString;
  revision : option FixedString
}.

Record GcsRepo := mkGcsRepo {
  bucket : FixedString;
  prefix : option FixedString
}.

Inductive Checkpoint :=
| CkEphemeral
| CkDummy (r : HubRepo)
| CkHub (r : HubRepo)
| CkP2P (r : HubRepo)
| CkGcs (r : GcsRepo)
| CkP2PGcs (r : GcsRepo).

Inductive LLMArchitecture := HfLlama | HfDeepseek | HfAuto | Torchtitan.
Inductive LLMTrainingDataType := Pretraining | Finetuning.
Inductive TokenSize := TwoBytes | FourBytes.
Inductive ShuffleKind := DontShuffle | Seeded (seed : list Z).

Inductive HttpTrainingDataLocation :=
| SingleUrl (url : FixedString)
| NumberedFiles (url_template : FixedString) (start_index n_left_pad_zeros num_files : Z)
| Gcp (bucket_name filter_directory : FixedString).

Record HttpLLMTrainingDataLocation := mkHttpLLM {
  location : HttpTrainingDataLocation;
  token_size_in_bytes : TokenSize;
  shuffle : ShuffleKind
}.

Inductive LLMTrainingDataLocation :=
| DataDummy
| DataServer (url : FixedString)
| DataLocal (path : FixedString)
| DataHttp (h : HttpLLMTrainingDataLocation)
| DataWeightedHttp (url : FixedString)
| DataPreprocessed (url : FixedString).

Record ConstantLR := mkConstantLR {
  c_base_lr : f64; c_warmup_init_lr : f64; c_warmup_steps : Z
}.
Record LinearLR := mkLinearLR {
  l_base_lr : f64; l_warmup_init_lr : f64; l_final_lr : f64;
  l_warmup_steps : Z; l_total_steps : Z
}.
Record CosineLR := mkCosineLR {
  cos_base_lr : f64; cos_warmup_init_lr : f64; cos_final_lr : f64;
  cos_warmup_steps : Z; cos_total_steps : Z
}.
Record WarmupStableDecayLR := mkWSD {
  w_base_lr : f64; w_warmup_init_lr : f64; w_cosine_decay_final_lr : f64;
  w_linear_decay_final_lr : f64; w_warmup_steps : Z; w_stable_steps : Z;
  w_cosine_decay_steps : Z; w_linear_decay_steps : Z
}.
Inductive LearningRateSchedule :=
| LRConstant (l : ConstantLR)
| LRLinear (l : LinearLR)
| LRCosine (l : CosineLR)
| LRWarmupStableDecay (l : WarmupStableDecayLR).

(** [f32] parameters are kept as their bit patterns. *)
Inductive OptimizerDefinition :=
| OptDummy
| AdamW (betas : Z * Z) (weight_decay eps : Z) (clip_grad_norm : option Z)
| Distro (clip_grad_norm weight_decay : option Z) (compression_decay compression_topk
    compression_chunk : Z) (quantize_1bit : bool).

Record LLM := mkLLM {
  max_seq_len : Z;
  cold_start_warmup_steps : Z;
  architecture : LLMArchitecture;
  checkpoint_ : Checkpoint;
  data_type : LLMTrainingDataType;
  data_location : LLMTrainingDataLocation;
  lr_schedule : LearningRateSchedule;
  optimizer : OptimizerDefinition
}.

(** [Model] has the single variant [LLM]. *)
Inductive Model := ModelLLM (llm : LLM).

Definition the_llm (m : Model) : LLM := let 'ModelLLM l := m in l.
Definition set_checkpoint (c : Checkpoint) (m : Model) : Model :=
  let l := the_llm m in
  ModelLLM (mkLLM (max_seq_len l) (cold_start_warmup_steps l) (architecture l) c
    (data_type l) (data_location l) (lr_schedule l) (optimizer l)).

Definition HubRepo_dummy : HubRepo := mkHubRepo (fs_new SOLANA_MAX_STRING_LEN) None.
Definition GcsRepo_dummy : GcsRepo := mkGcsRepo (fs_new SOLANA_MAX_STRING_LEN) None.
Definition LLM_dummy : LLM :=
  mkLLM 2048 0 HfLlama (CkDummy HubRepo_dummy) Pretraining DataDummy
    (LRConstant (mkConstantLR (f64_of_Z 0) (f64_of_Z 0) 0)) OptDummy.

Definition bad_data_location (d : LLMTrainingDataLocation) : bool :=
  match d with
  | DataDummy => false
  | DataServer url => fs_is_empty url
  | DataLocal _ => false
  | DataHttp h =>
      match location h with
      | SingleUrl url => fs_is_empty url
      | NumberedFiles url_template _ _ num_files => fs_is_empty url_template || (num_files =? 0)
      | Gcp bucket_name _ => fs_is_empty bucket_name
      end
  | DataWeightedHttp url => fs_is_empty url
  | DataPreprocessed url => fs_is_empty url
  end.

Definition bad_checkpoint (c : Checkpoint) : bool :=
  match c with
  | CkDummy _ => false
  | CkEphemeral => true
  | CkHub r | CkP2P r => fs_is_empty (repo_id r)
  | CkGcs r | CkP2PGcs r => fs_is_empty (bucket r)
  end.

Definition good_optimizer (o : OptimizerDefinition) : bool :=
  match o with OptDummy => false | AdamW _ _ _ _ => true | Distro _ _ _ _ _ _ => true end.

Definition Model_check (m : Model) : bool :=
  let llm := the_llm m in
  if max_seq_len llm =? 0 then false
  else if bad_data_location (data_location llm) then false
  else if bad_checkpoint (checkpoint_ llm) then false
  else if negb (good_optimizer (optimizer llm)) then false
  else true.

(** ** The coordinator account *)
Record CoordinatorEpochState := mkEpochState {
  rounds : list Round;
  clients : list Client;
  exited_clients : list Client;
  rounds_head : Z;
  start_step : Z;
  last_step : Z;
  start_timestamp : Z;
  first_round : SmallBoolean;
  cold_start_epoch : SmallBoolean
}.

Definition set_rounds (x : list Round) (s : CoordinatorEpochState) : CoordinatorEpochState :=
  mkEpochState x (clients s) (exited_clients s) (rounds_head s) (start_step s) (last_step s) (start_timestamp s) (first_round s) (cold_start_epoch s).
Definition set_clients (x : list Client) (s : CoordinatorEpochState) : CoordinatorEpochState :=
  mkEpochState (rounds s) x (exited_clients s) (rounds_head s) (start_step s) (last_step s) (start_timestamp s) (first_round s) (cold_start_epoch s).
Definition set_exited_clients (x : list Client) (s : CoordinatorEpochState) : CoordinatorEpochState :=
  mkEpochState (rounds s) (clients s) x (rounds_head s) (start_step s) (last_step s) (start_timestamp s) (first_round s) (cold_start_epoch s).
Definition set_rounds_head (x : Z) (s : CoordinatorEpochState) : CoordinatorEpochState :=
  mkEpochState (rounds s) (clients s) (exited_clients s) x (start_step s) (last_step s) (start_timestamp s) (first_round s) (cold_start_epoch s).
Definition set_start_step (x : Z) (s : CoordinatorEpochState) : CoordinatorEpochState :=
  mkEpochState (rounds s) (clients s) (exited_clients s) (rounds_head s) x (last_step s) (start_timestamp s) (first_round s) (cold_start_epoch s).
Definition set_last_step (x : Z) (s : CoordinatorEpochState) : CoordinatorEpochState :=
  mkEpochState (rounds s) (clients s) (exited_clients s) (rounds_head s) (start_step s) x (start_timestamp s) (first_round s) (cold_start_epoch s).
Definition set_start_timestamp (x : Z) (s : CoordinatorEpochState) : CoordinatorEpochState :=
  mkEpochState (rounds s) (clients s) (exited_clients s) (rounds_head s) (start_step s) (last_step s) x (first_round s) (cold_start_epoch s).
Definition set_first_round (x : SmallBoolean) (s : CoordinatorEpochState) : CoordinatorEpochState :=
  mkEpochState (rounds s) (clients s) (exited_clients s) (rounds_head s) (start_step s) (last_step s) (start_timestamp s) x (cold_start_epoch s).
Definition set_cold_start_epoch (x : SmallBoolean) (s : CoordinatorEpochState) : CoordinatorEpochState :=
  mkEpochState (rounds s) (clients s) (exited_clients s) (rounds_head s) (start_step s) (last_step s) (start_timestamp s) (first_round s) x.

(** What [bytemuck::write_zeroes] leaves, and [Default], which sets [first_round]. *)
Definition EpochState_zeroed : CoordinatorEpochState :=
  mkEpochState (replicate NUM_STORED_ROUNDS Round_default) [] [] 0 0 0 0 sb_FALSE sb_FALSE.
Definition EpochState_default : CoordinatorEpochState :=
  set_first_round (sb_new true) EpochState_zeroed.

Definition last_step_set (e : CoordinatorEpochState) : bool := negb (last_step e =? 0).

Record CoordinatorProgress := mkProgress {
  epoch : Z;
  step : Z;
  epoch_start_data_index : Z
}.

Definition set_epoch (x : Z) (s : CoordinatorProgress) : CoordinatorProgress :=
  mkProgress x (step s) (epoch_start_data_index s).
Definition set_step (x : Z) (s : CoordinatorProgress) : CoordinatorProgress :=
  mkProgress (epoch s) x (epoch_start_data_index s).
Definition set_epoch_start_data_index (x : Z) (s : CoordinatorProgress) : CoordinatorProgress :=
  mkProgress (epoch s) (step s) x.

Definition Progress_default : CoordinatorProgress := mkProgress 0 1 0.
Definition progress_check (p : CoordinatorProgress) : bool := 0 <? step p.

Record Coordinator := mkCoordinator {
  run_id : FixedString;
  run_state : RunState;
  model : Model;
  config : CoordinatorConfig;
  progress : CoordinatorProgress;
  epoch_state : CoordinatorEpochState;
  run_state_start_unix_timestamp : Z;
  pending_pause : SmallBoolean
}.

Definition set_run_id (x : FixedString) (s : Coordinator) : Coordinator :=
  mkCoordinator x (run_state s) (model s) (config s) (progress s) (epoch_state s) (run_state_start_unix_timestamp s) (pending_pause s).
Definition set_run_state (x : RunState) (s : Coordinator) : Coordinator :=
  mkCoordinator (run_id s) x (model s) (config s) (progress s) (epoch_state s) (run_state_start_unix_timestamp s) (pending_pause s).
Definition set_model (x : Model) (s : Coordinator) : Coordinator :=
  mkCoordinator (run_id s) (run_state s) x (config s) (progress s) (epoch_state s) (run_state_start_unix_timestamp s) (pending_pause s).
Definition set_config (x : CoordinatorConfig) (s : Coordinator) : Coordinator :=
  mkCoordinator (run_id s) (run_state s) (model s) x (progress s) (epoch_state s) (run_state_start_unix_timestamp s) (pending_pause s).
Definition set_progress (x : CoordinatorProgress) (s : Coordinator) : Coordinator :=
  mkCoordinator (run_id s) (run_state s) (model s) (config s) x (epoch_state s) (run_state_start_unix_timestamp s) (pending_pause s).
Definition set_epoch_state (x : CoordinatorEpochState) (s : Coordinator) : Coordinator :=
  mkCoordinator (run_id s) (run_state s) (model s) (config s) (progress s) x (run_state_start_unix_timestamp s) (pending_pause s).
Definition set_run_state_start_unix_timestamp (x : Z) (s : Coordinator) : Coordinator :=
  mkCoordinator (run_id s) (run_state s) (model s) (config s) (progress s) (epoch_state s) x (pending_pause s).
Definition set_pending_pause (x : SmallBoolean) (s : Coordinator) : Coordinator :=
  mkCoordinator (run_id s) (run_state s) (model s) (config s) (progress s) (epoch_state s) (run_state_start_unix_timestamp s) x.

(** Updates of a field of [epoch_state] and of [progress]. *)
Definition on_epoch (f : CoordinatorEpochState → CoordinatorEpochState) (c : Coordinator) :
    Coordinator := set_epoch_state (f (epoch_state c)) c.
Definition on_progress (f : CoordinatorProgress → CoordinatorProgress) (c : Coordinator) :
    Coordinator := set_progress (f (progress c)) c.
Definition on_model (f : Model → Model) (c : Coordinator) : Coordinator :=
  set_model (f (model c)) c.

(** ** Queries *)
Section Queries.
Context (c : Coordinator).

Definition current_round : option Round := znth (rounds (epoch_state c)) (rounds_head (epoch_state c)).

(** [current_round_unchecked]: the array index panics out of range. *)
Definition current_round_unchecked {E} : res E Round := unwrap current_round.

Definition previous_round : option Round :=
  match current_round with
  | Some round =>
      if (rounds_head (epoch_state c) =? 0) && (height round =? 0) then None
      else if rounds_head (epoch_state c) =? 0
      then znth (rounds (epoch_state c)) (Z.of_nat NUM_STORED_ROUNDS - 1)
      else znth (rounds (epoch_state c)) (rounds_head (epoch_state c) - 1)
  | None => None
  end.

Definition previous_previous_round : option Round :=
  match current_round with
  | Some round =>
      if (rounds_head (epoch_state c) =? 0) && (height round <=? 1) then None
      else if rounds_head (epoch_state c) =? 0
      then znth (rounds (epoch_state c)) (Z.of_nat NUM_STORED_ROUNDS - 2)
      else if rounds_head (epoch_state c) =? 1
      then znth (rounds (epoch_state c)) (Z.of_nat NUM_STORED_ROUNDS - 1)
      else znth (rounds (epoch_state c)) (rounds_head (epoch_state c) - 2)
  | None => None
  end.

Definition active : bool :=
  match run_state c with
  | WaitingForMembers | Warmup | Uninitialized | Finished | Paused => false
  | _ => true
  end.

Definition halted : bool :=
  match run_state c with Uninitialized | Finished | Paused => true | _ => false end.

Definition get_client_at_historical_index (n prev_clients_len : Z) : option Client :=
  if n <? zlen (clients (epoch_state c)) then znth (clients (epoch_state c)) n
  else if n <? prev_clients_len then
    let offset := prev_clients_len - n - 1 in
    znth (reverse (exited_clients (epoch_state c))) offset
  else None.

Definition get_historical_clients (clients_len : Z) : list Client :=
  omap (λ i, get_client_at_historical_index i clients_len) (seqZ 0 clients_len).

Definition get_sequence_length : Z := max_seq_len (the_llm (model c)).

Definition total_tokens_processed {E} (round : option Round) : res E Z :=
  let current_data_start_index :=
    match round with
    | Some r => data_index r
    | None => epoch_start_data_index (progress c)
    end in
  umul u64_max current_data_start_index get_sequence_length.

Definition get_target_global_batch_size {E} (round : option Round) : res E Z :=
  tokens ← total_tokens_processed round;
  Ok (get_batch_size (config c) tokens).

Definition get_cold_start_warmup_bounds {E} : res E (option (Z * Z)) :=
  let steps := cold_start_warmup_steps (the_llm (model c)) in
  if is_false (cold_start_epoch (epoch_state c)) || (steps =? 0) then Ok None
  else
    hi ← uadd u32_max (start_step (epoch_state c)) steps;
    Ok (Some (start_step (epoch_state c), hi)).

Definition check_cold_start_warmup_steps {E} : res E bool :=
  let steps := cold_start_warmup_steps (the_llm (model c)) in
  if steps =? 0 then Ok true
  else
    training_time ← usub (epoch_time (config c)) (warmup_time (config c));
    res_assert (negb (max_round_train_time (config c) =? 0)) ;;
    let estimated_training_rounds := training_time / max_round_train_time (config c) in
    Ok (negb (estimated_training_rounds <? steps)).

Definition is_warmup_just_starting : bool :=
  is_true (first_round (epoch_state c)) && bool_decide (run_state c = Warmup).
Definition is_training_just_starting : bool :=
  is_true (first_round (epoch_state c)) && bool_decide (run_state c = RoundTrain).

End Queries.
