(* ===== verification/Committee.v ===== *)
(** * Committee selection

    src/shared/coordinator/src/committee_selection.rs: how a round's seed
    assigns each client a committee (tie-breaker, verifier, trainer) and decides
    whether it is a witness, and how a claimed assignment is verified. *)

From stdpp Require Import base tactics list numbers strings.
From S2P Require Import Prelude CoreTypes Hashing Shuffle CoordinatorState.

Open Scope Z_scope.

Definition COMMITTEE_SALT : string := "committee".
Definition WITNESS_SALT : string := "witness".

Record CommitteeSelection := mkSelection {
  tie_breaker_nodes : Z;
  verifier_nodes : Z;
  total_nodes : Z;
  sel_witness_nodes : Z;
  sel_seed : list Z
}.

Section Committee.
Context {H : HashFns}.

Definition CommitteeSelection_new (tie_breaker_nodes witness_nodes verification_percent
    total_nodes seed : Z) : res CoordinatorError CommitteeSelection :=
  res_throw_if (u64_max <=? total_nodes) InvalidCommitteeSelection ;;
  res_throw_if (total_nodes <? tie_breaker_nodes) InvalidCommitteeSelection ;;
  res_throw_if (negb (witness_nodes =? 0) && (total_nodes <? witness_nodes))
    InvalidCommitteeSelection ;;
  res_throw_if (100 <? verification_percent) InvalidCommitteeSelection ;;
  free_nodes ← usub total_nodes tie_breaker_nodes;
  prod ← umul u64_max free_nodes verification_percent;
  let verifier_nodes := prod / 100 in
  Ok (mkSelection tie_breaker_nodes verifier_nodes total_nodes witness_nodes
        (sha256 (to_le_bytes 8 seed))).

(** The round at [offset] 0, -1 or -2. *)
Definition round_at (c : Coordinator) (offset : Z) : res CoordinatorError Round :=
  round ← match offset with
          | -2 => Ok (previous_previous_round c)
          | -1 => Ok (previous_round c)
          | 0 => Ok (current_round c)
          | _ => Err NoActiveRound
          end;
  ok_or round NoActiveRound.

Definition from_coordinator (c : Coordinator) (offset : Z) :
    res CoordinatorError CommitteeSelection :=
  round ← round_at c offset;
  CommitteeSelection_new (tie_breaker_tasks round) (witness_nodes (config c))
    (verification_percent (config c)) (clients_len round) (random_seed round).

Definition from_coordinator_with_tie_breakers (c : Coordinator) (offset : Z)
    (tie_breaker_nodes : Z) : res CoordinatorError CommitteeSelection :=
  round ← round_at c offset;
  CommitteeSelection_new tie_breaker_nodes (witness_nodes (config c))
    (verification_percent (config c)) (clients_len round) (random_seed round).

Section Selection.
Context (s : CommitteeSelection).

(** The method of the same name as the function it calls. *)
Definition sel_compute_shuffled_index {E} (index : Z) (salt : string) : res E Z :=
  compute_shuffled_index index (total_nodes s) (sha256v [sel_seed s; as_bytes salt]).

Definition get_committee_from_position {E} (committee_position : Z) : res E Committee :=
  if committee_position <? tie_breaker_nodes s then Ok TieBreaker
  else
    bound ← uadd u64_max (tie_breaker_nodes s) (verifier_nodes s);
    Ok (if committee_position <? bound then Verifier else Trainer).

Definition get_witness_from_position (witness_position : Z) : bool :=
  match sel_witness_nodes s with
  | 0 => witness_position <? Z.of_nat SOLANA_MAX_NUM_WITNESSES
  | wn => witness_position <? wn
  end.

Definition get_witness {E} (index : Z) : res E WitnessProof :=
  position ← sel_compute_shuffled_index index WITNESS_SALT;
  Ok (mkWitnessProof position index (sb_new (get_witness_from_position position))).

Definition get_committee {E} (index : Z) : res E CommitteeProof :=
  position ← sel_compute_shuffled_index index COMMITTEE_SALT;
  committee ← get_committee_from_position position;
  Ok (mkCommitteeProof committee position index).

Definition verify_client (client_id : NodeIdentity) (index : Z) (clients : list Client) : bool :=
  match znth clients index with Some c => id_eqb (id c) client_id | None => false end.

Definition verify_committee {E} (p : CommitteeProof) : res E bool :=
  position ← sel_compute_shuffled_index (cp_index p) COMMITTEE_SALT;
  if cp_position p =? position then
    committee ← get_committee_from_position position;
    Ok (bool_decide (cp_committee p = committee))
  else Ok false.

Definition verify_witness {E} (p : WitnessProof) : res E bool :=
  position ← sel_compute_shuffled_index (wp_index p) WITNESS_SALT;
  Ok ((wp_position p =? position)
      && (wp_witness p =? sb_new (get_witness_from_position position))).

Definition verify_committee_for_client {E} (client_id : NodeIdentity) (p : CommitteeProof)
    (clients : list Client) : res E bool :=
  if verify_client client_id (cp_index p) clients then verify_committee p else Ok false.

Definition verify_witness_for_client {E} (client_id : NodeIdentity) (p : WitnessProof)
    (clients : list Client) : res E bool :=
  if verify_client client_id (wp_index p) clients then verify_witness p else Ok false.

Definition get_num_trainer_nodes {E} : res E Z :=
  d ← usub (total_nodes s) (tie_breaker_nodes s);
  usub d (verifier_nodes s).

End Selection.
End Committee.

(** ** Lemmas *)
Section Facts.
Context {H : HashFns} `{!HashLaws H}.

(** What [new] guarantees of the selection it returns. *)
Definition selection_wf (s : CommitteeSelection) : Prop :=
  0 <= tie_breaker_nodes s ∧ 0 <= verifier_nodes s ∧
  tie_breaker_nodes s + verifier_nodes s <= total_nodes s ∧
  0 <= total_nodes s <= u64_max ∧ 0 <= sel_witness_nodes s.

Lemma selection_new_wf tb w vp n seed s : 0 <= tb → 0 <= w → 0 <= vp →
  CommitteeSelection_new tb w vp n seed = Ok s →
  selection_wf s ∧ total_nodes s = n ∧ tie_breaker_nodes s = tb ∧ sel_witness_nodes s = w ∧
  vp <= 100 ∧ verifier_nodes s = (n - tb) * vp / 100 ∧ (w = 0 ∨ w <= n).
Proof.
  intros Htb Hw Hvp Hs. unfold CommitteeSelection_new in Hs. run_inv. bool_prop.
  unfold selection_wf; simpl.
  assert (0 <= (n - tb) * vp / 100) by (apply Z.div_pos; nia).
  assert ((n - tb) * vp / 100 <= n - tb) by (apply Z.div_le_upper_bound; nia).
  assert (w = 0 ∨ w <= n).
  { destruct (Z.eqb_spec w 0); [by left|right].
    destruct (Z.ltb_spec n w); [|lia]. by simpl in *. }
  repeat split; try lia; done.
Qed.

(** With at most [2^16] nodes the constructor never panics. *)
Lemma selection_new_no_panic tb w vp n seed : 0 <= tb → 0 <= vp → 0 <= n <= u16_max →
  CommitteeSelection_new tb w vp n seed ≠ Panic.
Proof.
  intros Htb Hvp Hn. unfold CommitteeSelection_new, u16_max in *.
  rewrite (proj2 (Z.leb_gt u64_max n)) by (unfold u64_max; lia). simpl.
  destruct (Z.ltb_spec n tb) as [|Htb']; [done|]. simpl.
  destruct (negb (w =? 0) && (n <? w)); [done|]. simpl.
  destruct (Z.ltb_spec 100 vp) as [|Hvp']; [done|]. simpl.
  unfold usub. rewrite (proj2 (Z.leb_le _ _)) by lia. simpl.
  unfold umul. rewrite (proj2 (Z.leb_le _ _)) by (unfold u64_max; nia). done.
Qed.

(** The committee at a position, by ranges of positions. *)
Definition committee_at (s : CommitteeSelection) (p : Z) : Committee :=
  if p <? tie_breaker_nodes s then TieBreaker
  else if p <? tie_breaker_nodes s + verifier_nodes s then Verifier else Trainer.

Lemma get_committee_from_position_run {E} s p : selection_wf s →
  @get_committee_from_position s E p = Ok (committee_at s p).
Proof.
  intros (? & ? & ? & ? & ?). unfold get_committee_from_position, committee_at.
  destruct (p <? tie_breaker_nodes s); [done|].
  unfold uadd. by rewrite (proj2 (Z.leb_le _ _)) by lia.
Qed.

Definition salted (s : CommitteeSelection) (salt : string) : list Z :=
  sha256v [sel_seed s; as_bytes salt].

(** The position of client [i] under each salt, a permutation of the clients. *)
Definition position_of (s : CommitteeSelection) (salt : string) : Z → Z :=
  shuffled (total_nodes s) (salted s salt).

Lemma sel_shuffled_run {E} s i salt : 0 <= i < total_nodes s → total_nodes s <= 2 ^ 63 →
  @sel_compute_shuffled_index H s E i salt = Ok (position_of s salt i).
Proof.
  intros. unfold sel_compute_shuffled_index, position_of, salted.
  by rewrite compute_shuffled_index_run.
Qed.

Lemma get_committee_run {E} s i : selection_wf s → 0 <= i < total_nodes s →
  total_nodes s <= 2 ^ 63 →
  @get_committee H s E i =
  Ok (mkCommitteeProof (committee_at s (position_of s COMMITTEE_SALT i))
        (position_of s COMMITTEE_SALT i) i).
Proof.
  intros Hwf Hi Hn. unfold get_committee. rewrite sel_shuffled_run by done. cbn [mbind res_bind].
  by rewrite get_committee_from_position_run.
Qed.

Lemma verify_committee_run {E} s p : selection_wf s → 0 <= cp_index p < total_nodes s →
  total_nodes s <= 2 ^ 63 →
  @verify_committee H s E p = Ok true ↔ @get_committee H s E (cp_index p) = Ok p.
Proof.
  intros Hwf Hi Hn. rewrite get_committee_run by done.
  unfold verify_committee. rewrite sel_shuffled_run by done. cbn [mbind res_bind].
  destruct p as [co po i]; simpl in *.
  destruct (Z.eqb_spec po (position_of s COMMITTEE_SALT i)) as [->|Hne]; [|naive_solver].
  rewrite get_committee_from_position_run by done. cbn [mbind res_bind].
  case_bool_decide; naive_solver.
Qed.

Lemma verify_witness_run {E F} s p : 0 <= wp_index p < total_nodes s →
  total_nodes s <= 2 ^ 63 →
  @verify_witness H s E p = Ok true ↔ @get_witness H s F (wp_index p) = Ok p.
Proof.
  intros Hi Hn. unfold get_witness, verify_witness. rewrite !sel_shuffled_run by done.
  cbn [mbind res_bind]. destruct p as [po i w]; simpl in *.
  split.
  - intros [= Hb]. bool_prop. congruence.
  - intros [= <- <-]. by rewrite !Z.eqb_refl.
Qed.

Lemma verify_client_spec who i cl :
  verify_client who i cl = true ↔ ∃ c, znth cl i = Some c ∧ id c ≡ who.
Proof.
  unfold verify_client. destruct (znth cl i) as [c|]; [|naive_solver].
  rewrite id_eqb_equiv. naive_solver.
Qed.

Lemma verify_committee_total {E} s p : selection_wf s → 0 <= cp_index p < total_nodes s →
  total_nodes s <= 2 ^ 63 → ∃ b, @verify_committee H s E p = Ok b.
Proof.
  intros Hwf Hi Hn. unfold verify_committee. rewrite sel_shuffled_run by done.
  cbn [mbind res_bind]. case_match; [|by eexists].
  rewrite get_committee_from_position_run by done. by eexists.
Qed.

Lemma verify_witness_total {E} s p : 0 <= wp_index p < total_nodes s →
  total_nodes s <= 2 ^ 63 → ∃ b, @verify_witness H s E p = Ok b.
Proof.
  intros Hi Hn. unfold verify_witness. rewrite sel_shuffled_run by done. by eexists.
Qed.

(** Counting the clients whose position falls in a range. *)
Lemma count_positions n (π : Z → Z) (P : Z → bool) :
  π <$> seqZ 0 n ≡ₚ seqZ 0 n →
  length (filter (λ i, P (π i) = true) (seqZ 0 n)) = length (filter (λ p, P p = true) (seqZ 0 n)).
Proof.
  intros Hp. transitivity (length (filter (λ p, P p = true) (π <$> seqZ 0 n))); [|by rewrite Hp].
  clear Hp. induction (seqZ 0 n) as [|x l IH]; [done|].
  rewrite fmap_cons, !filter_cons. repeat case_decide; simpl; by rewrite ?IH.
Qed.

(** [a <= p < b] holds of [b - a] positions below [n]. *)
Lemma count_range n a b (P : Z → bool) : 0 <= a <= b → b <= n →
  (∀ p, 0 <= p < n → P p = true ↔ a <= p < b) →
  length (filter (λ p, P p = true) (seqZ 0 n)) = Z.to_nat (b - a).
Proof.
  intros Hab Hbn HP.
  rewrite <-(length_seqZ a (b - a)). apply Permutation_length, NoDup_Permutation.
  - apply NoDup_filter, NoDup_seqZ.
  - apply NoDup_seqZ.
  - intros p. rewrite list_elem_of_filter, !elem_of_seqZ. split.
    + intros [Hp Hr]. apply HP in Hp; lia.
    + intros Hr. split; [apply HP|]; lia.
Qed.

(** Role and witness status of client [i], when the call returns. *)
Definition role_of (s : CommitteeSelection) (i : Z) : option Committee :=
  match @get_committee H s unit i with Ok p => Some (cp_committee p) | _ => None end.
Definition is_witness (s : CommitteeSelection) (i : Z) : bool :=
  match @get_witness H s unit i with Ok p => is_true (wp_witness p) | _ => false end.

Lemma role_count s (r : Committee) a b : selection_wf s → total_nodes s <= 2 ^ 63 →
  0 <= a <= b → b <= total_nodes s →
  (∀ p, 0 <= p < total_nodes s → committee_at s p = r ↔ a <= p < b) →
  length (filter (λ i, role_of s i = Some r) (seqZ 0 (total_nodes s))) = Z.to_nat (b - a).
Proof.
  intros Hwf Hn Hab Hbn HP.
  rewrite <-(count_range (total_nodes s) a b (λ p, bool_decide (committee_at s p = r)));
    [|done..|by intros; rewrite bool_decide_eq_true; apply HP].
  rewrite <-(count_positions _ _ (λ p, bool_decide (committee_at s p = r))
    (shuffled_permutes _ (salted s COMMITTEE_SALT))).
  f_equal. apply list_filter_iff_in. intros i Hi%elem_of_seqZ.
  unfold role_of. rewrite get_committee_run by (done || lia). simpl.
  rewrite bool_decide_eq_true. unfold position_of. split; congruence.
Qed.
Lemma witness_count s : selection_wf s → 0 <= total_nodes s <= 2 ^ 63 →
  sel_witness_nodes s = 0 ∨ sel_witness_nodes s <= total_nodes s →
  length (filter (λ i, is_witness s i = true) (seqZ 0 (total_nodes s))) =
    Z.to_nat (if sel_witness_nodes s =? 0 then Z.min (total_nodes s) 32 else sel_witness_nodes s).
Proof.
  intros (_ & _ & _ & _ & Hw0) Hn Hw.
  set (k := if sel_witness_nodes s =? 0 then Z.min (total_nodes s) 32 else sel_witness_nodes s).
  assert (Hk : 0 <= k <= total_nodes s).
  { unfold k. destruct (Z.eqb_spec (sel_witness_nodes s) 0); lia. }
  replace (Z.to_nat k) with (Z.to_nat (k - 0)) by (f_equal; lia).
  rewrite <-(count_range (total_nodes s) 0 k (get_witness_from_position s)); [|lia..|].
  - rewrite <-(count_positions _ _ (get_witness_from_position s)
      (shuffled_permutes _ (salted s WITNESS_SALT))).
    f_equal. apply list_filter_iff_in. intros i Hi%elem_of_seqZ.
    unfold is_witness, get_witness. rewrite sel_shuffled_run by lia. simpl.
    by rewrite is_true_new.
  - intros p Hp. unfold k, get_witness_from_position, SOLANA_MAX_NUM_WITNESSES.
    destruct (sel_witness_nodes s); simpl; rewrite Z.ltb_lt; lia.
Qed.
End Facts.

(** ** Properties *)

(** C18: the selection drawn for a round of [n] clients has exactly [tb]
    tie-breakers, [(n - tb) * percent / 100] verifiers and trainers for the rest,
    and exactly [min n 32] witnesses when the run does not fix their number,
    [w] when it does. *)
Theorem committee_partition {H : HashFns} `{!HashLaws H} tb w vp n seed s :
  0 <= tb → 0 <= w → 0 <= vp → 0 <= n <= u16_max →
  CommitteeSelection_new tb w vp n seed = Ok s →
  let count r := length (filter (λ i, role_of s i = Some r) (seqZ 0 n)) in
  count TieBreaker = Z.to_nat tb ∧
  count Verifier = Z.to_nat ((n - tb) * vp / 100) ∧
  count Trainer = Z.to_nat (n - tb - (n - tb) * vp / 100) ∧
  length (filter (λ i, is_witness s i = true) (seqZ 0 n)) =
    Z.to_nat (if w =? 0 then Z.min n 32 else w).
Proof.
  intros Htb Hw Hvp Hn Hs.
  destruct (selection_new_wf tb w vp n seed s Htb Hw Hvp Hs)
    as (Hwf & <- & <- & <- & Hvp' & Hver & Hwn).
  assert (total_nodes s <= 2 ^ 63) by (unfold u16_max in Hn; lia).
  assert (Hwf' := Hwf). destruct Hwf' as (_ & Hv0 & Hsum & _).
  rewrite <-Hver in *. cbn zeta. split; [|split; [|split]].
  - rewrite (role_count s TieBreaker 0 (tie_breaker_nodes s)); [f_equal; lia|done..|lia|lia|].
    intros p Hp. unfold committee_at. repeat case_match; bool_prop; split; (done || lia).
  - rewrite (role_count s Verifier (tie_breaker_nodes s) (tie_breaker_nodes s + verifier_nodes s));
      [f_equal; lia|done..|lia|lia|].
    intros p Hp. unfold committee_at. repeat case_match; bool_prop; split; (done || lia).
  - rewrite (role_count s Trainer (tie_breaker_nodes s + verifier_nodes s) (total_nodes s));
      [f_equal; lia|done..|lia|lia|].
    intros p Hp. unfold committee_at. repeat case_match; bool_prop; split; (done || lia).
  - apply witness_count; [done|lia|done].
Qed.

Definition vector_selection : CommitteeSelection :=
  mkSelection 3 4 12 4 (Sha256.sha256 (to_le_bytes 8 855779524057918524)).

Lemma committee_partition_witness :
  @CommitteeSelection_new std_hashes 3 4 50 12 855779524057918524 = Ok vector_selection ∧
  length (filter (λ i, @role_of std_hashes vector_selection i = Some Verifier) (seqZ 0 12)) =
    Z.to_nat ((12 - 3) * 50 / 100).
Proof.
  assert (Hs : @CommitteeSelection_new std_hashes 3 4 50 12 855779524057918524 =
    Ok vector_selection) by reflexivity.
  split; [exact Hs|].
  exact (proj1 (proj2 (@committee_partition std_hashes std_hashes_laws 3 4 50 12
    855779524057918524 vector_selection ltac:(lia) ltac:(lia) ltac:(lia)
    ltac:(unfold u16_max; lia) Hs))).
Defined.

(** A claimed committee or witness assignment is accepted exactly when the
    client listed at its index has the claimed identity and the claim is, field
    for field, the one the selection computes for that index; verification never
    panics while the list is no longer than the selection's node count. *)
Theorem verification_exact {H : HashFns} `{!HashLaws H} s (who : NodeIdentity)
    (cp : CommitteeProof) (wp : WitnessProof) (cl : list Client) :
  selection_wf s → total_nodes s <= u16_max → zlen cl <= total_nodes s →
  0 <= cp_index cp → 0 <= wp_index wp →
  (∃ b, @verify_committee_for_client H s unit who cp cl = Ok b ∧
     (b = true ↔ (∃ c, znth cl (cp_index cp) = Some c ∧ id c ≡ who) ∧
        @get_committee H s unit (cp_index cp) = Ok cp)) ∧
  (∃ b, @verify_witness_for_client H s unit who wp cl = Ok b ∧
     (b = true ↔ (∃ c, znth cl (wp_index wp) = Some c ∧ id c ≡ who) ∧
        @get_witness H s unit (wp_index wp) = Ok wp)).
Proof.
  intros Hwf Hn Hcl Hci Hwi. assert (total_nodes s <= 2 ^ 63) by (unfold u16_max in Hn; lia).
  split.
  - unfold verify_committee_for_client.
    destruct (verify_client who (cp_index cp) cl) eqn:Hv.
    + apply verify_client_spec in Hv as Hv'. destruct Hv' as (c & Hc & Hid).
      assert (0 <= cp_index cp < total_nodes s) by (apply znth_lt in Hc; lia).
      destruct (verify_committee_total (E:=unit) s cp) as [b Hb]; [done..|].
      exists b. split; [done|]. rewrite <-verify_committee_run, Hb by done. naive_solver.
    + exists false. split; [done|]. split; [done|]. rewrite <-verify_client_spec, Hv. naive_solver.
  - unfold verify_witness_for_client.
    destruct (verify_client who (wp_index wp) cl) eqn:Hv.
    + apply verify_client_spec in Hv as Hv'. destruct Hv' as (c & Hc & Hid).
      assert (0 <= wp_index wp < total_nodes s) by (apply znth_lt in Hc; lia).
      destruct (verify_witness_total (E:=unit) s wp) as [b Hb]; [done..|].
      exists b. split; [done|]. rewrite <-(verify_witness_run (E:=unit)), Hb by done. naive_solver.
    + exists false. split; [done|]. split; [done|]. rewrite <-verify_client_spec, Hv. naive_solver.
Qed.

Lemma verification_exact_witness :
  let s := mkSelection 1 2 5 0 (replicate 32 7) in
  let c := Client_new (from_single_key (replicate 32 1)) in
  ∃ b, @verify_witness_for_client std_hashes s unit (id c) (mkWitnessProof 2 0 1) [c] = Ok b ∧
     (b = true ↔ (∃ c', znth [c] 0 = Some c' ∧ id c' ≡ id c) ∧
        @get_witness std_hashes s unit 0 = Ok (mkWitnessProof 2 0 1)).
Proof.
  intros s c.
  apply (@verification_exact std_hashes std_hashes_laws s (id c) (mkCommitteeProof Trainer 0 0)
    (mkWitnessProof 2 0 1) [c]); unfold selection_wf, u64_max, u16_max, zlen; simpl; lia.
Defined.
