(* ===== verification/Coordinator.v ===== *)
(** * The coordinator state machine

    Every method of [impl Coordinator] in src/shared/coordinator/src/coordinator.rs
    that changes the account: [tick] and the five per-state ticks, [witness],
    [warmup_witness], [health_check], [checkpoint], [withdraw], [eject], [pause],
    [resume], and the private helpers they share.  A method on [&mut self] is a
    computation of [M CoordinatorError Coordinator]; a Rust panic is [Panic]. *)

From stdpp Require Import base tactics list numbers strings.
From Stdlib Require Import SpecFloat.
From S2P Require Import Prelude FixedVec CoreTypes Hashing Bloom Float CoordinatorState Committee.

Open Scope Z_scope.

Notation CM := (M CoordinatorError Coordinator).
Notation CR := (res CoordinatorError).

(** [WITNESS_QUORUM_RAIO], the constant expression [2.0f64 / 3.0f64]. *)
Definition WITNESS_QUORUM_RAIO : f64 := f64_div (f64_of_Z 2) (f64_of_Z 3).

(** ** Private helpers *)

Definition check_timeout {E} (unix_timestamp duration : Z) (c : Coordinator) : res E bool :=
  if run_state_start_unix_timestamp c =? unix_timestamp then Ok false
  else
    deadline ← uadd u64_max duration (run_state_start_unix_timestamp c);
    Ok (deadline <=? unix_timestamp).

Definition check_epoch_timeout {E} (unix_timestamp : Z) (c : Coordinator) : res E bool :=
  if start_timestamp (epoch_state c) =? unix_timestamp then Ok false
  else
    deadline ← uadd u64_max (start_timestamp (epoch_state c)) (epoch_time (config c));
    Ok (deadline <=? unix_timestamp).

(** [assert!(self.run_state != new_state)], then the two writes. *)
Definition change_state (unix_timestamp : Z) (new_state : RunState) : CM unit :=
  c ← self;
  assert (negb (bool_decide (run_state c = new_state))) ;;
  modify (λ c, set_run_state new_state (set_run_state_start_unix_timestamp unix_timestamp c)).

Definition start_warmup (unix_timestamp : Z) : CM unit := change_state unix_timestamp Warmup.

Definition start_waiting_for_members (unix_timestamp : Z) : CM unit :=
  c ← self;
  change_state unix_timestamp
    (if step (progress c) <? total_steps (config c) then WaitingForMembers else Finished).

(** The closure [move_clients_to_exited] passes to [retain]: [exited_clients] is
    the captured state. *)
Definition exit_unhealthy {E} (height : Z) (x : Client) (exited : list Client) :
    res E (bool * list Client) :=
  if bool_decide (state x ≠ Healthy) then
    res_assert (length exited <? SOLANA_MAX_NUM_CLIENTS)%nat ;;
    Ok (false, exited ++ [set_exited_height height x])
  else Ok (true, exited).

Definition move_clients_to_exited (height : Z) : CM unit := λ c,
  match BVec.retain (exit_unhealthy height) (clients (epoch_state c))
          (exited_clients (epoch_state c)) with
  | Ok (kept, exited) => (Ok tt, on_epoch (λ e, set_exited_clients exited (set_clients kept e)) c)
  | Err e => (Err e, c)
  | Panic => (Panic, c)
  end.

(** [self.epoch_state.rounds[i] = r], an array write. *)
Definition set_round (i : Z) (r : Round) : CM unit :=
  c ← self;
  assert ((0 <=? i) && (i <? zlen (rounds (epoch_state c)))) ;;
  modify (on_epoch (λ e, set_rounds (zset (rounds e) i r) e)).

(** A write through [current_round_mut_unchecked]. *)
Definition update_current_round (f : Round → Round) : CM unit :=
  c ← self;
  r ← lift (current_round_unchecked c);
  set_round (rounds_head (epoch_state c)) (f r).

Definition start_cooldown (unix_timestamp : Z) : CM unit :=
  update_current_round (set_witnesses []) ;;
  change_state unix_timestamp Cooldown.

Definition start_round_train (unix_timestamp random_seed tie_breaker_tasks : Z) : CM unit :=
  c ← self;
  let e := epoch_state c in
  '(next_rounds_head, next_height, next_data_index) ← lift (
    if is_true (first_round e) then Ok (0, 0, epoch_start_data_index (progress c))
    else
      prev_round ← unwrap (znth (rounds e) (rounds_head e));
      prev_round_start_tokens ← umul u64_max (data_index prev_round) (get_sequence_length c);
      let prev_round_batch_size := get_batch_size (config c) prev_round_start_tokens in
      head ← uadd u32_max (rounds_head e) 1;
      h ← uadd u32_max (height prev_round) 1;
      d ← uadd u64_max (data_index prev_round) prev_round_batch_size;
      Ok (head mod zlen (rounds e), h, d));
  set_round next_rounds_head
    (mkRound [] next_data_index random_seed next_height (as_u16 (zlen (clients e)))
       tie_breaker_tasks) ;;
  modify (on_epoch (set_rounds_head next_rounds_head)) ;;
  change_state unix_timestamp RoundTrain.

(** ** Membership *)

(** [self.epoch_state.clients[index].state = s]. *)
Definition set_client_state (index : Z) (s : ClientState) : CM unit :=
  modify (on_epoch (λ e, set_clients
    (alter (set_state s) (Z.to_nat index) (clients e)) e)).

Definition withdraw (index : Z) : CM unit :=
  c ← self;
  match znth (clients (epoch_state c)) index with
  | Some client =>
      if bool_decide (state client = Healthy) then set_client_state index Withdrawn
      else throw InvalidWithdraw
  | None => throw InvalidWithdraw
  end.

(** [let _ = m]: the error of [m] is dropped, its writes and panics are not. *)
Definition ignore_err {E S} (m : M E S unit) : M E S unit := λ s,
  match m s with (Err _, s') => (Ok tt, s') | r => r end.

Definition withdraw_all : CM unit :=
  c ← self;
  let n := zlen (clients (epoch_state c)) in
  if n =? 0 then mret tt
  else forM_ (seqZ 0 n) (λ client_index, ignore_err (withdraw client_index)).

Definition eject (index : Z) : CM unit :=
  c ← self;
  match znth (clients (epoch_state c)) index with
  | Some client =>
      if bool_decide (state client = Healthy) || bool_decide (state client = Dropped)
      then set_client_state index Ejected
      else throw InvalidSlash
  | None => throw InvalidSlash
  end.

Definition set_cold_start (b : bool) : CM unit :=
  modify (on_epoch (set_cold_start_epoch (sb_new b))).

Definition pause (unix_timestamp : Z) : CM unit :=
  c ← self;
  if negb (halted c) then
    if active c then modify (set_pending_pause (sb_new true))
    else
      withdraw_all ;;
      change_state unix_timestamp Paused ;;
      set_cold_start true
  else throw Halted.

Definition resume (unix_timestamp : Z) : CM unit :=
  c ← self;
  throw_if (negb (bool_decide (run_state c = Paused))) CannotResume ;;
  start_waiting_for_members unix_timestamp.

(** ** Witnesses *)
Section Witnesses.
Context {H : HashFns}.

(** [self.config.witness_nodes], or everybody up to the witness capacity. *)
Definition effective_witness_nodes (c : Coordinator) : Z :=
  if witness_nodes (config c) =? 0
  then Z.min (zlen (clients (epoch_state c))) (Z.of_nat SOLANA_MAX_NUM_WITNESSES)
  else witness_nodes (config c).

(** The duplicate check: [clients[w.proof.index].id == *from] for a stored [w]. *)
Fixpoint check_duplicate (from : NodeIdentity) (cl : list Client) (ws : list Witness) : CR unit :=
  match ws with
  | [] => Ok tt
  | w :: ws' =>
      client ← unwrap (znth cl (wp_index (proof w)));
      if id_eqb (id client) from then Err DuplicateWitness else check_duplicate from cl ws'
  end.

(** [round.witnesses.push(w).map_err(|_| WitnessesFull)?]; the new number of witnesses. *)
Definition push_witness (w : Witness) : CM Z :=
  c ← self;
  r ← lift (current_round_unchecked c);
  throw_if (SOLANA_MAX_NUM_WITNESSES <=? length (witnesses r))%nat WitnessesFull ;;
  update_current_round (set_witnesses (witnesses r ++ [w])) ;;
  mret (zlen (witnesses r) + 1).

Definition warmup_witness (from : NodeIdentity) (witness : Witness) (unix_timestamp
    random_seed : Z) : CM unit :=
  c ← self;
  throw_if (halted c) Halted ;;
  if bool_decide (run_state c = RoundTrain) then mret tt
  else
    throw_if (negb (bool_decide (run_state c = Warmup))) InvalidRunState ;;
    throw_if (negb (verify_client from (wp_index (proof witness)) (clients (epoch_state c))))
      InvalidCommitteeProof ;;
    round ← lift (unwrap (current_round c));
    lift (check_duplicate from (clients (epoch_state c)) (witnesses round)) ;;
    n ← push_witness witness;
    if n =? effective_witness_nodes c then start_round_train unix_timestamp random_seed 0
    else mret tt.

Definition witness (from : NodeIdentity) (w : Witness) (unix_timestamp : Z) : CM unit :=
  c ← self;
  throw_if (halted c) Halted ;;
  throw_if (negb (bool_decide (run_state c = RoundWitness)
                  || bool_decide (run_state c = RoundTrain))) InvalidRunState ;;
  sel ← lift (from_coordinator c 0);
  ok ← lift (verify_witness_for_client sel from (proof w) (clients (epoch_state c)));
  throw_if (negb ok || is_false (wp_witness (proof w))) InvalidWitness ;;
  round ← lift (unwrap (current_round c));
  lift (check_duplicate from (clients (epoch_state c)) (witnesses round)) ;;
  n ← push_witness w;
  if (n =? effective_witness_nodes c) && negb (bool_decide (run_state c = RoundWitness))
  then change_state unix_timestamp RoundWitness
  else mret tt.

(** ** Health *)

Definition witness_quorum {E} (num_witnesses : Z) (c : Coordinator) : res E Z :=
  let nodes := if witness_nodes (config c) =? 0 then num_witnesses
               else witness_nodes (config c) in
  match nodes with
  | 0 => Panic
  | 1 => Ok 1
  | 2 => Ok 2
  | 3 => Ok 2
  | n => Ok (Z.max (f64_as_unsigned u16_max (f64_mul (f64_of_Z n) WITNESS_QUORUM_RAIO)) 1)
  end.

Definition trainer_healthy_score_by_witnesses {E} (i : NodeIdentity) (ws : list Witness) :
    res E Z :=
  let hash := sha256 (signer i) in
  res_fold (λ w score,
    b ← bloom_contains (participant_bloom w) hash;
    if (b : bool) then uadd u16_max score 1 else Ok score) ws 0.

Definition trainer_healthy (i : NodeIdentity) (c : Coordinator) : CR bool :=
  prev ← ok_or (previous_round c) NoActiveRound;
  score ← trainer_healthy_score_by_witnesses i (witnesses prev);
  quorum ← witness_quorum (as_u16 (zlen (witnesses prev))) c;
  Ok (quorum <=? score).

Definition healthy (i : NodeIdentity) (p : CommitteeProof) (c : Coordinator) : CR bool :=
  round ← ok_or (previous_round c) NoActiveRound;
  let index := cp_index p in
  if index <? clients_len round then
    client ← ok_or (get_client_at_historical_index c index (clients_len round))
      InvalidCommitteeProof;
    selection ← from_coordinator c (-1);
    if negb (id_eqb (id client) i) then Err InvalidCommitteeProof
    else
      ok ← verify_committee_for_client selection (id client) p (clients (epoch_state c));
      if negb ok then Err InvalidCommitteeProof
      else
        match cp_committee p with
        | TieBreaker => Ok true
        | Verifier => Ok true
        | Trainer => trainer_healthy (id client) c
        end
  else Err InvalidCommitteeProof.

(** One step of the second loop of [health_check]. *)
Definition drop_client (p : CommitteeProof) (dropped : Z) : CM Z :=
  c ← self;
  client ← lift (unwrap (znth (clients (epoch_state c)) (cp_index p)));
  if bool_decide (state client = Healthy) then
    set_client_state (cp_index p) Dropped ;;
    lift (uadd u32_max dropped 1)
  else mret dropped.

Fixpoint drop_clients (ps : list CommitteeProof) (dropped : Z) : CM Z :=
  match ps with
  | [] => mret dropped
  | p :: ps' => d ← drop_client p dropped; drop_clients ps' d
  end.

Definition health_check (_from : NodeIdentity) (checks : list (NodeIdentity * CommitteeProof)) :
    CM Z :=
  c ← self;
  throw_if (halted c) Halted ;;
  round ← lift (ok_or (current_round c) NoActiveRound);
  throw_if (height round <? 2) InvalidHealthCheck ;;
  forM_ checks (λ '(i, p),
    h ← asks (healthy i p);
    throw_if h InvalidHealthCheck) ;;
  drop_clients (checks.*2) 0.

(** Tally of [select_consensus_commitment_by_witnesses]: each witness votes for the
    first commitment its filter contains. *)
Fixpoint vote {E} (w : Witness) (commitments : list Commitment) (scores : list Z) :
    res E (list Z) :=
  match commitments, scores with
  | cm :: cms, sc :: scs =>
      b ← bloom_contains (broadcast_bloom w) (data_hash cm);
      if (b : bool) then sc' ← uadd u16_max sc 1; Ok (sc' :: scs)
      else scs' ← vote w cms scs; Ok (sc :: scs')
  | _, _ => Ok scores
  end.

(** [filter(score >= quorum).max_by_key(score)]: the last of the largest. *)
Fixpoint best_score (quorum : Z) (i : nat) (scores : list Z) (acc : option (nat * Z)) :
    option (nat * Z) :=
  match scores with
  | [] => acc
  | sc :: scs =>
      let acc' :=
        if quorum <=? sc then
          match acc with
          | Some (_, best) => if best <=? sc then Some (i, sc) else acc
          | None => Some (i, sc)
          end
        else acc in
      best_score quorum (i + 1) scs acc'
  end.

Definition select_consensus_commitment_by_witnesses {E} (commitments : list Commitment)
    (ws : list Witness) (quorum : Z) : res E (option nat) :=
  scores ← res_fold (λ w scores, vote w commitments scores) ws
             (replicate (length commitments) 0);
  Ok (fst <$> best_score quorum 0 scores None).

(** ** Checkpoints *)

Definition checkpoint (from : NodeIdentity) (index : Z) (checkpoint_repo : Checkpoint) : CM unit :=
  c ← self;
  throw_if (negb (verify_client from index (clients (epoch_state c)))) InvalidCommitteeProof ;;
  match checkpoint_ (the_llm (model c)), checkpoint_repo with
  | CkP2P _, CkHub r => modify (on_model (set_checkpoint (CkP2P r)))
  | CkP2PGcs _, CkGcs r => modify (on_model (set_checkpoint (CkP2PGcs r)))
  | CkHub _, CkHub r => modify (on_model (set_checkpoint (CkHub r)))
  | CkGcs _, CkGcs r => modify (on_model (set_checkpoint (CkGcs r)))
  | CkP2PGcs _, CkHub r => modify (on_model (set_checkpoint (CkP2P r)))
  | CkP2P _, CkGcs r => modify (on_model (set_checkpoint (CkP2PGcs r)))
  | _, _ => mret tt
  end.

(** ** Ticks *)

(** Checkpoint written when nobody of the previous epoch is left to share it. *)
Definition checkpoint_without_peers (ck : Checkpoint) : Checkpoint :=
  match ck with CkP2P r => CkHub r | CkP2PGcs r => CkGcs r | _ => ck end.

(** Checkpoint written once an epoch is complete. *)
Definition checkpoint_after_epoch (ck : Checkpoint) : Checkpoint :=
  match ck with CkHub r | CkDummy r => CkP2P r | CkGcs r => CkP2PGcs r | _ => ck end.

Definition tick_waiting_for_members (pending_clients : option (list NodeIdentity))
    (unix_timestamp : Z) : CM TickResult :=
  match pending_clients with
  | None => mret Ticked
  | Some pending =>
      c ← self;
      ready ← lift (
        if init_min_clients (config c) <=? as_u16 (zlen pending)
        then check_timeout unix_timestamp (waiting_for_members_extra_time (config c)) c
        else Ok false);
      whenM ready (
        r ← lift (current_round_unchecked c);
        move_clients_to_exited (height r) ;;
        prev ← gets (λ c, clients (epoch_state c));
        whenM (negb (existsb (λ client, existsb (id_eqb (id client)) pending) prev))
          (modify (on_model (λ m,
             set_checkpoint (checkpoint_without_peers (checkpoint_ (the_llm m))) m))) ;;
        cold_start ← gets (λ c, cold_start_epoch (epoch_state c));
        modify (set_epoch_state EpochState_zeroed) ;;
        modify (on_epoch (set_first_round (sb_new true))) ;;
        modify (on_epoch (set_cold_start_epoch cold_start)) ;;
        modify (λ c, on_epoch (set_start_step (step (progress c))) c) ;;
        modify (on_epoch (set_start_timestamp unix_timestamp)) ;;
        modify (on_epoch (set_clients (Client_new <$> take SOLANA_MAX_NUM_CLIENTS pending))) ;;
        start_warmup unix_timestamp) ;;
      mret Ticked
  end.

Definition tick_warmup (unix_timestamp random_seed : Z) : CM TickResult :=
  c ← self;
  timeout ← asks (check_timeout unix_timestamp (warmup_time (config c)));
  (if (timeout : bool) then start_round_train unix_timestamp random_seed 0
   else move_clients_to_exited 0) ;;
  c' ← self;
  if as_u16 (zlen (clients (epoch_state c'))) <? min_clients (config c') then
    start_waiting_for_members unix_timestamp ;;
    mret (EpochEnd false)
  else mret Ticked.

Definition tick_round_train (unix_timestamp : Z) : CM TickResult :=
  c ← self;
  timeout ← asks (check_timeout unix_timestamp (max_round_train_time (config c)));
  whenM timeout (change_state unix_timestamp RoundWitness) ;;
  mret Ticked.

(** The last step of the epoch is set two steps after its deadline has passed. *)
Definition set_last_step (unix_timestamp : Z) : CM unit :=
  c ← self;
  timeout ← asks (check_epoch_timeout unix_timestamp);
  whenM (timeout && negb (last_step_set (epoch_state c)))
    (last ← lift (uadd u32_max (step (progress c)) 2);
     whenM (4 <=? last) (modify (on_epoch (CoordinatorState.set_last_step last)))).

(** Why a round may not be followed by another; evaluated left to right. *)
Definition must_stop {E} (num_witnesses : Z) (c : Coordinator) : res E bool :=
  if zlen (clients (epoch_state c)) <? min_clients (config c) then Ok true
  else
    quorum ← witness_quorum num_witnesses c;
    Ok ((num_witnesses <? quorum)
        || (total_steps (config c) <=? step (progress c))
        || is_true (pending_pause c)).

Definition tick_round_witness (unix_timestamp random_seed : Z) : CM TickResult :=
  c ← self;
  timeout ← asks (check_timeout unix_timestamp (round_witness_time (config c)));
  (if negb timeout then mret tt
   else
     modify (on_epoch (set_first_round (sb_new false))) ;;
     next_step ← lift (uadd u32_max (step (progress c)) 1);
     modify (on_progress (set_step next_step)) ;;
     round ← asks (λ c, current_round_unchecked c);
     let num_witnesses := as_u16 (zlen (witnesses round)) in
     move_clients_to_exited (height round) ;;
     if num_witnesses =? 0 then
       withdraw_all ;;
       start_cooldown unix_timestamp
     else
       set_last_step unix_timestamp ;;
       c' ← self;
       if last_step_set (epoch_state c') && (step (progress c') =? last_step (epoch_state c'))
       then start_cooldown unix_timestamp
       else
         stop ← asks (must_stop num_witnesses);
         if (stop : bool) then start_cooldown unix_timestamp
         else start_round_train unix_timestamp random_seed 0) ;;
  mret Ticked.

Definition tick_cooldown (unix_timestamp : Z) : CM TickResult :=
  c ← self;
  timeout ← asks (check_timeout unix_timestamp (cooldown_time (config c)));
  if (timeout : bool) then
    last_round_batch_size ← lift (get_target_global_batch_size c (current_round c));
    round ← lift (current_round_unchecked c);
    next_index ← lift (uadd u64_max (data_index round) last_round_batch_size);
    modify (on_progress (set_epoch_start_data_index next_index)) ;;
    next_epoch ← lift (uadd u16_max (epoch (progress c)) 1);
    modify (on_progress (set_epoch next_epoch)) ;;
    move_clients_to_exited (height round) ;;
    modify (on_model (λ m,
      set_checkpoint (checkpoint_after_epoch (checkpoint_ (the_llm m))) m)) ;;
    (if is_true (pending_pause c) then
       withdraw_all ;;
       change_state unix_timestamp Paused ;;
       modify (set_pending_pause (sb_new false)) ;;
       set_cold_start true
     else
       start_waiting_for_members unix_timestamp ;;
       set_cold_start false) ;;
    mret (EpochEnd true)
  else mret Ticked.

Definition tick (new_clients : option (list NodeIdentity)) (unix_timestamp random_seed : Z) :
    CM TickResult :=
  c ← self;
  match run_state c with
  | Uninitialized | Finished | Paused => throw Halted
  | WaitingForMembers => tick_waiting_for_members new_clients unix_timestamp
  | Warmup => tick_warmup unix_timestamp random_seed
  | RoundTrain => tick_round_train unix_timestamp
  | RoundWitness => tick_round_witness unix_timestamp random_seed
  | Cooldown => tick_cooldown unix_timestamp
  end.

End Witnesses.
