(* ===== verification/CoordinatorInv.v ===== *)
(** * Invariant of the coordinator

    [coord_wf] is what every method relies on: the ring of four rounds and its
    head, room for every client that may exit during the epoch, at most 32 stored
    witnesses per round, and, while a round is running, that the round was drawn
    for the current client list and that its witnesses are distinct members of it.
    The lemmas here run the private helpers and show that they keep it. *)

From stdpp Require Import base tactics list numbers.
From S2P Require Import Prelude FixedVec CoreTypes Hashing Bloom Float CoordinatorState Committee.
From S2P Require Import Coordinator.

Open Scope Z_scope.

Definition in_round (s : RunState) : bool :=
  match s with RoundTrain | RoundWitness => true | _ => false end.

Definition epoch_wf (e : CoordinatorEpochState) : Prop :=
  length (rounds e) = NUM_STORED_ROUNDS ∧ 0 <= rounds_head e < 4 ∧
  (length (clients e) + length (exited_clients e) ≤ SOLANA_MAX_NUM_CLIENTS)%nat ∧
  Forall (λ r, length (witnesses r) ≤ SOLANA_MAX_NUM_WITNESSES)%nat (rounds e).

Definition windex (w : Witness) : Z := wp_index (proof w).

Definition round_wf (e : CoordinatorEpochState) : Prop :=
  ∃ r, znth (rounds e) (rounds_head e) = Some r ∧ clients_len r = zlen (clients e) ∧
    0 <= tie_breaker_tasks r ∧
    Forall (λ w, 0 <= windex w < zlen (clients e)) (witnesses r) ∧
    NoDup (windex <$> witnesses r).

Definition coord_wf (c : Coordinator) : Prop :=
  epoch_wf (epoch_state c) ∧
  (in_round (run_state c) = true → round_wf (epoch_state c)) ∧
  (run_state c = Finished → total_steps (config c) <= step (progress c)).

(** ** The epoch state *)

Lemma epoch_wf_current e : epoch_wf e → ∃ r, znth (rounds e) (rounds_head e) = Some r ∧
  (length (witnesses r) ≤ SOLANA_MAX_NUM_WITNESSES)%nat.
Proof.
  intros (Hr & Hh & _ & Hw). destruct (znth_is_Some (rounds e) (rounds_head e)) as [r Hx].
  { unfold zlen. rewrite Hr. done. }
  exists r. split; [done|]. by eapply znth_Forall in Hw.
Qed.

Lemma znth_zset_eq {A} (l : list A) i x : 0 <= i < zlen l → znth (zset l i x) i = Some x.
Proof.
  unfold znth, zset, zlen. intros Hi. rewrite (proj2 (Z.ltb_ge _ _)) by lia.
  apply list_lookup_insert_eq. lia.
Qed.

Lemma length_zset {A} (l : list A) i x : length (zset l i x) = length l.
Proof. apply length_insert. Qed.

Lemma zlen_zset {A} (l : list A) i x : zlen (zset l i x) = zlen l.
Proof. unfold zlen. by rewrite length_zset. Qed.

Lemma epoch_wf_set_round e i r :
  epoch_wf e → (length (witnesses r) ≤ SOLANA_MAX_NUM_WITNESSES)%nat →
  epoch_wf (set_rounds (zset (rounds e) i r) e).
Proof.
  intros (Hr & Hh & Hm & Hw) Hlen. split; simpl; [by rewrite length_zset|].
  split; [done|]. split; [done|]. by apply Forall_insert.
Qed.

Lemma epoch_wf_clients e cl ex :
  epoch_wf e → (length cl + length ex ≤ SOLANA_MAX_NUM_CLIENTS)%nat →
  epoch_wf (set_exited_clients ex (set_clients cl e)).
Proof. intros (Hr & Hh & Hm & Hw) Hlen. done. Qed.

Lemma EpochState_zeroed_wf : epoch_wf EpochState_zeroed.
Proof.
  split; [done|]. split; [simpl; lia|]. split; [simpl; lia|].
  apply Forall_replicate. simpl. lia.
Qed.

(** ** Helpers *)

Lemma change_state_run ts s c : run_state c ≠ s →
  change_state ts s c = (Ok tt, set_run_state s (set_run_state_start_unix_timestamp ts c)).
Proof.
  intros Hne. unfold change_state. rewrite bind_self.
  unfold assert. rewrite bool_decide_eq_false_2 by done. done.
Qed.

Lemma change_state_Ok ts s c u c' : change_state ts s c = (Ok u, c') ↔
  run_state c ≠ s ∧ c' = set_run_state s (set_run_state_start_unix_timestamp ts c).
Proof.
  split.
  - unfold change_state. intros H. run_inv. bool_prop. done.
  - intros [Hne ->]. destruct u. by apply change_state_run.
Qed.

Lemma exit_unhealthy_run {E} h x ex : (length ex < SOLANA_MAX_NUM_CLIENTS)%nat →
  @exit_unhealthy E h x ex =
  if decide (state x = Healthy) then Ok (true, ex) else Ok (false, ex ++ [set_exited_height h x]).
Proof.
  intros Hlen. unfold exit_unhealthy. case_decide.
  - by rewrite bool_decide_eq_false_2 by tauto.
  - rewrite bool_decide_eq_true_2 by done. by rewrite (proj2 (Nat.ltb_lt _ _)).
Qed.

(** [retain] with the exit closure splits the clients by health, in order. *)
Lemma retain_exit {E} h cl ex : (length cl + length ex ≤ SOLANA_MAX_NUM_CLIENTS)%nat →
  BVec.retain (exit_unhealthy h) cl ex =
  @Ok E _ (filter (λ x, state x = Healthy) cl,
           ex ++ (set_exited_height h <$> filter (λ x, state x ≠ Healthy) cl)).
Proof.
  revert ex. induction cl as [|x cl IH]; intros ex Hlen; [simpl; by rewrite app_nil_r|].
  cbn [BVec.retain length] in *. rewrite exit_unhealthy_run by lia. rewrite !filter_cons.
  destruct (decide (state x = Healthy)) as [Hx|Hx]; cbn [mbind res_bind].
  - rewrite IH by lia. rewrite decide_False by tauto. done.
  - rewrite IH by (rewrite length_app; simpl; lia). rewrite decide_True by done.
    rewrite fmap_cons, <-app_assoc. done.
Qed.

Definition exit_unhealthy_clients (h : Z) (e : CoordinatorEpochState) : CoordinatorEpochState :=
  set_exited_clients
    (exited_clients e ++ (set_exited_height h <$> filter (λ x, state x ≠ Healthy) (clients e)))
    (set_clients (filter (λ x, state x = Healthy) (clients e)) e).

Lemma move_clients_run h c : epoch_wf (epoch_state c) →
  move_clients_to_exited h c = (Ok tt, on_epoch (exit_unhealthy_clients h) c).
Proof.
  intros (_ & _ & Hm & _). unfold move_clients_to_exited. by rewrite retain_exit.
Qed.

Lemma length_filter_split {A} (P : A → Prop) `{!∀ x, Decision (P x)} (l : list A) :
  (length (filter P l) + length (filter (λ x, ¬ P x) l) = length l)%nat.
Proof.
  induction l as [|x l IH]; [done|]. rewrite !filter_cons.
  repeat case_decide; simpl; try tauto; lia.
Qed.

Lemma exit_unhealthy_wf h e : epoch_wf e → epoch_wf (exit_unhealthy_clients h e).
Proof.
  intros Hwf. apply epoch_wf_clients; [done|]. destruct Hwf as (_ & _ & Hm & _).
  rewrite length_app, length_fmap.
  pose proof (length_filter_split (λ x, state x = Healthy) (clients e)). lia.
Qed.

Lemma current_round_run {E} c : epoch_wf (epoch_state c) →
  ∃ r, current_round c = Some r ∧ @current_round_unchecked c E = Ok r ∧
    (length (witnesses r) ≤ SOLANA_MAX_NUM_WITNESSES)%nat.
Proof.
  intros Hwf. destruct (epoch_wf_current _ Hwf) as (r & Hr & Hw).
  exists r. unfold current_round_unchecked, current_round. by rewrite Hr.
Qed.

Lemma set_round_run i r c : 0 <= i < zlen (rounds (epoch_state c)) →
  set_round i r c =
  (Ok tt, on_epoch (λ e, set_rounds (zset (rounds e) i r) e) c).
Proof.
  intros Hi. unfold set_round. rewrite bind_self.
  unfold assert. rewrite (proj2 (Z.leb_le _ _)), (proj2 (Z.ltb_lt _ _)) by lia. done.
Qed.

Lemma epoch_wf_head e : epoch_wf e → 0 <= rounds_head e < zlen (rounds e).
Proof. intros (Hr & Hh & _). unfold zlen. rewrite Hr. done. Qed.

Lemma update_current_round_run f c r : epoch_wf (epoch_state c) → current_round c = Some r →
  update_current_round f c =
  (Ok tt, on_epoch (λ e, set_rounds (zset (rounds e) (rounds_head e) (f r)) e) c).
Proof.
  intros Hwf Hr. unfold update_current_round. rewrite bind_self.
  rewrite (M_bind_run _ _ c r c) by (unfold lift, current_round_unchecked; by rewrite Hr).
  by rewrite set_round_run by by apply epoch_wf_head.
Qed.

(** Starting a round gives a well-formed round drawn for the current clients. *)
Lemma start_round_train_Ok ts seed tb c u c' : epoch_wf (epoch_state c) → 0 <= tb →
  start_round_train ts seed tb c = (Ok u, c') →
  epoch_wf (epoch_state c') ∧ round_wf (epoch_state c') ∧ run_state c' = RoundTrain ∧
  progress c' = progress c ∧ config c' = config c ∧ model c' = model c ∧
  pending_pause c' = pending_pause c ∧ run_state_start_unix_timestamp c' = ts ∧
  clients (epoch_state c') = clients (epoch_state c) ∧
  exited_clients (epoch_state c') = exited_clients (epoch_state c).
Proof.
  intros Hwf Htb H. unfold start_round_train in H.
  rewrite bind_self in H. cbn zeta in H.
  apply M_bind_Ok in H as (p & c1 & H1 & H). apply lift_Ok in H1 as [H1 ->].
  destruct p as [[nh hh] di].
  assert (Hnh : 0 <= nh < 4).
  { destruct (is_true (first_round (epoch_state c))); run_inv; [lia|].
    destruct Hwf as (Hl & _). unfold zlen. rewrite Hl. apply Z.mod_pos_bound. done. }
  assert (Hl4 : zlen (rounds (epoch_state c)) = 4) by (destruct Hwf as (Hl & _); unfold zlen; by rewrite Hl).
  rewrite (M_bind_run _ _ _ _ _ (set_round_run nh _ c ltac:(lia))) in H.
  rewrite bind_modify in H.
  apply change_state_Ok in H as [_ ->]. simpl.
  assert (Hwf' := epoch_wf_set_round (epoch_state c) nh
    (mkRound [] di seed hh (as_u16 (zlen (clients (epoch_state c)))) tb) Hwf ltac:(simpl; lia)).
  split_and!; try done.
  - destruct Hwf' as (? & _ & ? & ?). done.
  - eexists. simpl. rewrite znth_zset_eq by lia. split; [done|]. simpl.
    split; [|split; [done|by split; constructor]].
    destruct Hwf as (_ & _ & Hm & _). unfold as_u16, SOLANA_MAX_NUM_CLIENTS in *.
    apply Z.mod_small. unfold zlen. lia.
Qed.

Lemma start_cooldown_run ts c : epoch_wf (epoch_state c) → run_state c ≠ Cooldown →
  ∃ e', start_cooldown ts c =
    (Ok tt, set_run_state Cooldown (set_run_state_start_unix_timestamp ts (set_epoch_state e' c))) ∧
  epoch_wf e' ∧ clients e' = clients (epoch_state c) ∧
  exited_clients e' = exited_clients (epoch_state c).
Proof.
  intros Hwf Hne. destruct (current_round_run (E:=unit) c Hwf) as (r & Hr & _ & _).
  unfold start_cooldown.
  rewrite (M_bind_run _ _ _ _ _ (update_current_round_run _ c r Hwf Hr)).
  rewrite change_state_run by done. eexists. split; [done|].
  split; [|done]. apply epoch_wf_set_round; [done|simpl; lia].
Qed.

(** Changing one client's state keeps the shape of the epoch. *)
Lemma set_client_state_wf i s e :
  let e' := set_clients (alter (set_state s) (Z.to_nat i) (clients e)) e in
  (epoch_wf e → epoch_wf e') ∧ (round_wf e → round_wf e').
Proof.
  intros e'. assert (Hl : length (clients e') = length (clients e)) by apply length_alter.
  split.
  - intros (Hr & Hh & Hm & Hw). split; [done|]. split; [done|]. split; [by rewrite Hl|done].
  - intros (r & Hr & Hn & Htb & Hw & Hnd). exists r. unfold zlen in *. by rewrite Hl.
Qed.

(** ** Operations keep the invariant *)

(** The invariant away from a round, and after changes that keep the epoch. *)
Lemma coord_wf_intro c : epoch_wf (epoch_state c) → in_round (run_state c) = false →
  (run_state c = Finished → total_steps (config c) <= step (progress c)) → coord_wf c.
Proof. intros He Hr Hf. split; [done|]. split; [by rewrite Hr|done]. Qed.

Lemma coord_wf_frame c c' : coord_wf c → epoch_state c' = epoch_state c →
  run_state c' = run_state c → config c' = config c → progress c' = progress c → coord_wf c'.
Proof. intros (He & Hr & Hf) E1 E2 E3 E4. unfold coord_wf. by rewrite E1, E2, E3, E4. Qed.

Lemma set_client_state_coord_wf i s c c' u : coord_wf c →
  set_client_state i s c = (Ok u, c') → coord_wf c' ∧ config c' = config c ∧
  run_state c' = run_state c ∧ progress c' = progress c.
Proof.
  intros (He & Hr & Hf) H. unfold set_client_state in H. apply modify_Ok in H as ->.
  destruct (set_client_state_wf i s (epoch_state c)) as [H1 H2].
  split; [|done]. split; [by apply H1|]. split; [intros Hi; apply H2, Hr, Hi|done].
Qed.

Lemma withdraw_wf i c c' u : coord_wf c → withdraw i c = (Ok u, c') → coord_wf c'.
Proof.
  intros Hwf H. unfold withdraw in H. rewrite bind_self in H.
  repeat case_match; try done. by eapply set_client_state_coord_wf.
Qed.

Lemma eject_wf i c c' u : coord_wf c → eject i c = (Ok u, c') → coord_wf c'.
Proof.
  intros Hwf H. unfold eject in H. rewrite bind_self in H.
  repeat case_match; try done. by eapply set_client_state_coord_wf.
Qed.

(** What [withdraw_all] does to the epoch: every healthy client is withdrawn. *)
Definition withdraw_client (x : Client) : Client :=
  if bool_decide (state x = Healthy) then set_state Withdrawn x else x.

Lemma ignore_withdraw_run i c x : znth (clients (epoch_state c)) i = Some x →
  ignore_err (withdraw i) c =
  (Ok tt, on_epoch (λ e, set_clients (alter withdraw_client (Z.to_nat i) (clients e)) e) c).
Proof.
  intros Hx. unfold ignore_err, withdraw. rewrite bind_self, Hx. apply znth_lookup in Hx.
  unfold on_epoch. destruct (decide (state x = Healthy)) as [Hs|Hs].
  - rewrite bool_decide_eq_true_2 by done. unfold set_client_state, modify, on_epoch.
    rewrite (alter_ext_at (set_state Withdrawn) withdraw_client _ _ x); [done..|].
    unfold withdraw_client. by rewrite bool_decide_eq_true_2.
  - rewrite bool_decide_eq_false_2 by done. unfold throw.
    rewrite (alter_ext_at withdraw_client (λ x, x) _ _ x), alter_id; [|done|].
    + by destruct c as [?????[] ??].
    + unfold withdraw_client. by rewrite bool_decide_eq_false_2.
Qed.

(** The loop of [withdraw_all], after the clients in [pre] have been visited. *)
Lemma withdraw_loop pre post c : clients (epoch_state c) = pre ++ post →
  forM_ (seqZ (zlen pre) (zlen post)) (λ i, ignore_err (withdraw i)) c =
  (Ok tt, on_epoch (set_clients (pre ++ (withdraw_client <$> post))) c).
Proof.
  revert pre c. induction post as [|x post IH]; intros pre c Hc.
  { simpl. rewrite app_nil_r in *. rewrite <-Hc. by destruct c as [?????[] ??]. }
  replace (zlen (x :: post)) with (Z.succ (zlen post)) by (unfold zlen; simpl; lia).
  rewrite seqZ_cons by (unfold zlen; lia). rewrite Z.pred_succ. cbn [forM_].
  assert (Hnth : clients (epoch_state c) !! length pre = Some x)
    by (rewrite Hc; by apply list_lookup_middle).
  erewrite M_bind_run; [|apply (ignore_withdraw_run _ _ x)].
  2: { unfold znth, zlen. rewrite (proj2 (Z.ltb_ge _ _)) by lia. by rewrite Nat2Z.id. }
  replace (Z.succ (zlen pre)) with (zlen (pre ++ [withdraw_client x]))
    by (unfold zlen; rewrite length_app; simpl; lia).
  rewrite (IH (pre ++ [withdraw_client x])).
  - rewrite <-app_assoc. done.
  - unfold zlen. rewrite Nat2Z.id. cbn [epoch_state on_epoch set_epoch_state clients set_clients].
    rewrite Hc, <-app_assoc. cbn [app]. by rewrite alter_app_r_alt, Nat.sub_diag by lia.
Qed.

Lemma withdraw_all_run c :
  withdraw_all c = (Ok tt, on_epoch (λ e, set_clients (withdraw_client <$> clients e) e) c).
Proof.
  unfold withdraw_all. rewrite bind_self. cbn zeta.
  destruct (Z.eqb_spec (zlen (clients (epoch_state c))) 0) as [Hn|Hn].
  - unfold zlen in Hn. destruct c as [?????[? cl ???????] ??]; simpl in *.
    by destruct cl; simpl in *; [|lia].
  - apply (withdraw_loop [] (clients (epoch_state c))). done.
Qed.

Lemma withdraw_all_wf e : epoch_wf e →
  epoch_wf (set_clients (withdraw_client <$> clients e) e).
Proof.
  intros (Hr & Hh & Hm & Hw). split; [done|]. split; [done|]. split; [|done].
  cbn [clients set_clients exited_clients]. by rewrite length_fmap.
Qed.
