(* ===== verification/CoordinatorProps.v ===== *)
(** * Properties of the coordinator *)

From stdpp Require Import base tactics list numbers.
From S2P Require Import Prelude FixedVec CoreTypes Hashing Bloom Float CoordinatorState Committee.
From S2P Require Import Coordinator CoordinatorInv.

Open Scope Z_scope.

(** Peel one step of a successful run. *)
Ltac peel H :=
  first [ rewrite bind_self in H
        | rewrite bind_gets in H
        | rewrite bind_modify in H
        | rewrite bind_ret in H
        | let a := fresh "a" in let c1 := fresh "c1" in let Ha := fresh "Ha" in
          apply M_bind_Ok in H as (a & c1 & Ha & H);
          first [ apply lift_Ok in Ha as [Ha ->] | apply asks_Ok in Ha as [Ha ->]
                | apply throw_if_Ok in Ha as [Ha ->] | idtac ] ];
  cbn beta in H.

Section Preservation.
Context {H : HashFns}.
Implicit Types (c : Coordinator) (w : Witness).

Lemma start_waiting_wf ts c c' u : epoch_wf (epoch_state c) →
  start_waiting_for_members ts c = (Ok u, c') →
  coord_wf c' ∧ epoch_state c' = epoch_state c.
Proof.
  intros Hwf Hrun. unfold start_waiting_for_members in Hrun. peel Hrun.
  apply change_state_Ok in Hrun as [_ ->]. split; [|done]. apply coord_wf_intro; simpl; [done|..].
  - by case_match.
  - destruct (Z.ltb_spec (step (progress c)) (total_steps (config c))); done.
Qed.

Lemma pause_wf ts c c' u : coord_wf c → pause ts c = (Ok u, c') → coord_wf c'.
Proof.
  intros Hwf Hrun. unfold pause in Hrun. peel Hrun.
  destruct (negb (halted c)); [|done]. destruct (active c).
  - apply modify_Ok in Hrun as ->. by eapply coord_wf_frame.
  - peel Hrun. rewrite withdraw_all_run in Ha. injection Ha as <- <-.
    peel Hrun. apply change_state_Ok in Ha as [_ ->]. unfold set_cold_start in Hrun.
    apply modify_Ok in Hrun as ->. apply coord_wf_intro; [|done..].
    apply (withdraw_all_wf (epoch_state c)), Hwf.
Qed.

Lemma resume_wf ts c c' u : coord_wf c → resume ts c = (Ok u, c') → coord_wf c'.
Proof.
  intros Hwf Hrun. unfold resume in Hrun. do 2 peel Hrun.
  apply start_waiting_wf in Hrun; [tauto|apply Hwf].
Qed.

Lemma checkpoint_wf from i ck c c' u : coord_wf c → checkpoint from i ck c = (Ok u, c') →
  coord_wf c'.
Proof.
  intros Hwf Hrun. unfold checkpoint in Hrun. do 2 peel Hrun.
  assert (∀ f, coord_wf (on_model f c)) by (intros; by eapply coord_wf_frame).
  repeat case_match; try (apply modify_Ok in Hrun as ->; auto); by apply mret_Ok in Hrun as [_ ->].
Qed.

Lemma drop_clients_wf ps d c c' n : coord_wf c → drop_clients ps d c = (Ok n, c') → coord_wf c'.
Proof.
  revert d c. induction ps as [|p ps IH]; intros d c Hwf Hrun; cbn [drop_clients] in Hrun.
  { by apply mret_Ok in Hrun as [_ ->]. }
  peel Hrun. apply IH in Hrun; [done|]. clear Hrun. unfold drop_client in Ha.
  do 2 peel Ha. case_match.
  - peel Ha. apply lift_Ok in Ha as [_ ->]. by eapply set_client_state_coord_wf.
  - by apply mret_Ok in Ha as [_ ->].
Qed.

(** The checks of [health_check] only read. *)
Lemma health_checks_read checks c c' u :
  forM_ checks (λ '(i, p), h ← asks (healthy i p); throw_if h InvalidHealthCheck) c = (Ok u, c') →
  c' = c ∧ Forall (λ '(i, p), healthy i p c = Ok false) checks.
Proof.
  induction checks as [|[i p] checks IH]; intros Hrun; cbn [forM_] in Hrun.
  { by apply mret_Ok in Hrun as [_ ->]. }
  peel Hrun. peel Ha. apply throw_if_Ok in Ha as [Ha ->].
  apply IH in Hrun as [-> Hall]. subst. split; [done|]. by constructor.
Qed.

Lemma health_check_wf from checks c c' n : coord_wf c → health_check from checks c = (Ok n, c') →
  coord_wf c'.
Proof.
  intros Hwf Hrun. unfold health_check in Hrun. do 4 peel Hrun. peel Hrun.
  apply health_checks_read in Ha2 as [-> _]. by eapply drop_clients_wf.
Qed.

(** Pushing a witness. *)
Lemma push_witness_Ok w c c' n r : epoch_wf (epoch_state c) → current_round c = Some r →
  push_witness w c = (Ok n, c') →
  (length (witnesses r) < SOLANA_MAX_NUM_WITNESSES)%nat ∧ n = zlen (witnesses r) + 1 ∧
  c' = on_epoch (λ e, set_rounds (zset (rounds e) (rounds_head e)
         (set_witnesses (witnesses r ++ [w]) r)) e) c.
Proof.
  intros Hwf Hr Hrun. unfold push_witness in Hrun. peel Hrun.
  unfold current_round_unchecked in Hrun. rewrite Hr in Hrun. cbn [unwrap] in Hrun.
  rewrite bind_lift_Ok in Hrun. peel Hrun. apply Nat.leb_gt in Ha.
  rewrite (M_bind_run _ _ _ _ _ (update_current_round_run _ c r Hwf Hr)) in Hrun.
  apply mret_Ok in Hrun as [-> ->]. done.
Qed.

Lemma push_witness_epoch_wf w e r : epoch_wf e →
  (length (witnesses r) < SOLANA_MAX_NUM_WITNESSES)%nat →
  epoch_wf (set_rounds (zset (rounds e) (rounds_head e) (set_witnesses (witnesses r ++ [w]) r)) e).
Proof.
  intros Hwf Hlen. apply epoch_wf_set_round; [done|]. simpl. rewrite length_app. simpl. lia.
Qed.

Lemma check_duplicate_Ok from cl ws u : check_duplicate from cl ws = Ok u →
  Forall (λ w, ∃ x, znth cl (windex w) = Some x ∧ ¬ id x ≡ from) ws.
Proof.
  induction ws as [|w ws IH]; intros Hrun; [done|]. cbn [check_duplicate] in Hrun.
  apply res_bind_Ok in Hrun as (x & Hx%unwrap_Ok & Hrun).
  destruct (id_eqb (id x) from) eqn:Hid; [done|]. constructor; [|auto].
  exists x. split; [done|]. by apply id_eqb_false.
Qed.

Lemma push_witness_round_wf from w e r x : epoch_wf e → round_wf e →
  znth (rounds e) (rounds_head e) = Some r →
  znth (clients e) (windex w) = Some x → id x ≡ from →
  Forall (λ w, ∃ x, znth (clients e) (windex w) = Some x ∧ ¬ id x ≡ from) (witnesses r) →
  round_wf (set_rounds (zset (rounds e) (rounds_head e) (set_witnesses (witnesses r ++ [w]) r)) e).
Proof.
  intros Hwf (r' & Hr' & Hn & Htb & Hw & Hnd) Hr Hx Hid Hdup.
  assert (r' = r) as -> by congruence.
  exists (set_witnesses (witnesses r ++ [w]) r).
  split; [exact (znth_zset_eq (rounds e) _ _ (epoch_wf_head e Hwf))|]. simpl.
  split; [done|]. split; [done|]. split.
  - apply Forall_app. split; [done|]. repeat constructor; apply znth_lt in Hx; lia.
  - rewrite fmap_app. apply list.NoDup_app. split; [done|]. split; [|apply NoDup_singleton].
    intros i (w' & -> & Hw')%list_elem_of_fmap Hi%list_elem_of_singleton.
    rewrite list.Forall_forall in Hdup. destruct (Hdup w' Hw') as (x' & Hx' & Hne).
    rewrite Hi in Hx'. by simplify_eq.
Qed.

Lemma witness_wf from w ts c c' u : coord_wf c → witness from w ts c = (Ok u, c') → coord_wf c'.
Proof.
  intros Hwf Hrun. destruct Hwf as (He & Hr & Hf). unfold witness in Hrun. do 6 peel Hrun.
  apply orb_false_iff in Ha3 as [Hok%negb_false_iff _]. subst.
  destruct (current_round_run (E:=unit) c He) as (r & Hcr & _ & _). rewrite Hcr in Hrun.
  cbn [unwrap] in Hrun. rewrite bind_lift_Ok in Hrun. do 2 peel Hrun.
  apply push_witness_Ok with (r:=r) in Ha4 as (Hlen & -> & ->); [|done..].
  apply check_duplicate_Ok in Ha3.
  assert (Hin : in_round (run_state c) = true).
  { apply negb_false_iff in Ha0. destruct (run_state c); done. }
  unfold verify_witness_for_client in Ha2.
  destruct (verify_client from _ _) eqn:Hvc; [|done].
  apply verify_client_spec in Hvc as (x & Hx & Hid).
  assert (Hrw := push_witness_round_wf from w _ r x He (Hr Hin) Hcr Hx Hid Ha3).
  assert (Hew := push_witness_epoch_wf w _ r He Hlen).
  case_match; [apply change_state_Ok in Hrun as [_ ->]|apply mret_Ok in Hrun as [_ ->]].
  - split; [done|]. split; [done|]. done.
  - split; [done|]. split; [done|]. done.
Qed.

Lemma warmup_witness_wf from w ts seed c c' u : coord_wf c →
  warmup_witness from w ts seed c = (Ok u, c') → coord_wf c'.
Proof.
  intros Hwf Hrun. assert (He := proj1 Hwf). unfold warmup_witness in Hrun. do 2 peel Hrun.
  case_bool_decide; [by apply mret_Ok in Hrun as [_ ->]|]. do 2 peel Hrun.
  destruct (current_round_run (E:=unit) c He) as (r & Hcr & _ & _). rewrite Hcr in Hrun.
  cbn [unwrap] in Hrun. rewrite bind_lift_Ok in Hrun. do 2 peel Hrun.
  apply push_witness_Ok with (r:=r) in Ha3 as (Hlen & -> & ->); [|done..].
  assert (Hew := push_witness_epoch_wf w _ r He Hlen). bool_prop.
  case_match.
  - apply start_round_train_Ok in Hrun as (? & ? & Hs & _); [|done|lia].
    split; [done|]. split; [done|]. by rewrite Hs.
  - apply mret_Ok in Hrun as [_ ->]. apply coord_wf_intro; [done|simpl..].
    + match goal with Hs : run_state c = Warmup |- _ => by rewrite Hs end.
    + match goal with Hs : run_state c = Warmup |- _ => by rewrite Hs end.
Qed.

Lemma whenM_Ok {E S} (b : bool) (m : M E S unit) s u s' :
  whenM b m s = (Ok u, s') → (b = true ∧ m s = (Ok u, s')) ∨ (b = false ∧ s' = s).
Proof. destruct b; simpl; [by left|]. intros [_ ->]%mret_Ok. by right. Qed.

Lemma new_epoch_wf pending : epoch_wf (set_clients
  (Client_new <$> take SOLANA_MAX_NUM_CLIENTS pending) EpochState_zeroed).
Proof.
  destruct EpochState_zeroed_wf as (Hr & Hh & _ & Hw).
  split; [done|]. split; [done|]. split; [|done].
  cbn [clients set_clients exited_clients EpochState_zeroed length].
  rewrite length_fmap, length_take. lia.
Qed.

Lemma tick_waiting_wf pending ts c c' t : coord_wf c → run_state c = WaitingForMembers →
  tick_waiting_for_members pending ts c = (Ok t, c') → coord_wf c'.
Proof.
  intros Hwf Hs Hrun. unfold tick_waiting_for_members in Hrun.
  destruct pending as [pending|]; [|by apply mret_Ok in Hrun as [_ ->]].
  do 3 peel Hrun. apply mret_Ok in Hrun as [_ ->].
  apply whenM_Ok in Ha0 as [[_ Hrun]|[_ ->]]; [|done].
  do 5 peel Hrun.
  do 6 peel Hrun. apply change_state_Ok in Hrun as [_ ->].
  apply coord_wf_intro; [|done..]. exact (new_epoch_wf pending).
Qed.

Lemma move_clients_wf h c c' u : epoch_wf (epoch_state c) →
  move_clients_to_exited h c = (Ok u, c') →
  epoch_wf (epoch_state c') ∧ c' = on_epoch (exit_unhealthy_clients h) c.
Proof.
  intros Hwf Hrun. rewrite move_clients_run in Hrun by done. injection Hrun as <- <-.
  split; [by apply exit_unhealthy_wf|done].
Qed.

Lemma tick_warmup_wf ts seed c c' t : coord_wf c → run_state c = Warmup →
  tick_warmup ts seed c = (Ok t, c') → coord_wf c'.
Proof.
  intros (He & _ & _) Hs Hrun. unfold tick_warmup in Hrun. do 3 peel Hrun.
  assert (coord_wf c1) as Hwf.
  { destruct a.
    - apply start_round_train_Ok in Ha0 as (? & ? & Hs' & _); [|done|lia].
      split; [done|]. split; [done|]. by rewrite Hs'.
    - apply move_clients_wf in Ha0 as [? ->]; [|done].
      apply coord_wf_intro; [done|simpl; by rewrite Hs..]. }
  peel Hrun. case_match.
  - peel Hrun. apply mret_Ok in Hrun as [_ ->]. apply start_waiting_wf in Ha1 as [? _]; [done|].
    apply Hwf.
  - by apply mret_Ok in Hrun as [_ ->].
Qed.

Lemma tick_round_train_wf ts c c' t : coord_wf c → run_state c = RoundTrain →
  tick_round_train ts c = (Ok t, c') → coord_wf c'.
Proof.
  intros (He & Hr & Hf) Hs Hrun. unfold tick_round_train in Hrun. do 3 peel Hrun.
  apply mret_Ok in Hrun as [_ ->].
  apply whenM_Ok in Ha0 as [[_ Hrun]|[_ ->]]; [|done].
  apply change_state_Ok in Hrun as [_ ->]. rewrite Hs in *.
  split; [done|]. split; [|done]. intros _. by apply Hr.
Qed.

(** [set_last_step] writes [last_step] only. *)
Lemma set_last_step_Ok ts c c' u : set_last_step ts c = (Ok u, c') →
  ∃ l, c' = on_epoch (CoordinatorState.set_last_step l) c ∧
    (l = last_step (epoch_state c) ∨
     l = step (progress c) + 2 ∧ l <= u32_max ∧ 4 <= l ∧ last_step (epoch_state c) = 0).
Proof.
  intros Hrun. unfold set_last_step in Hrun. do 2 peel Hrun.
  assert (∃ l, c = on_epoch (CoordinatorState.set_last_step l) c ∧ l = last_step (epoch_state c))
    as (l & Hl & ->) by (eexists; split; [|done]; by destruct c as [?????[] ??]).
  apply whenM_Ok in Hrun as [[Hb Hrun]|[_ ->]]; [|by exists (last_step (epoch_state c)); auto].
  peel Hrun. apply whenM_Ok in Hrun as [[H4 Hrun]|[_ ->]];
    [|by exists (last_step (epoch_state c)); auto].
  apply modify_Ok in Hrun as ->. apply uadd_Ok in Ha0 as [-> ?]. bool_prop.
  unfold last_step_set in Hb. bool_prop. eexists. split; [done|]. right. lia.
Qed.

Lemma start_cooldown_wf ts c c' u : epoch_wf (epoch_state c) →
  start_cooldown ts c = (Ok u, c') → coord_wf c' ∧ run_state c' = Cooldown.
Proof.
  intros Hwf Hrun. destruct (decide (run_state c = Cooldown)) as [Hc|Hc].
  - unfold start_cooldown in Hrun. peel Hrun.
    apply change_state_Ok in Hrun as [Hne _].
    destruct (current_round_run (E:=unit) c Hwf) as (r & Hr & _ & _).
    rewrite (update_current_round_run _ c r Hwf Hr) in Ha. injection Ha as <- <-.
    by rewrite <-Hc in Hne.
  - destruct (start_cooldown_run ts c Hwf Hc) as (e' & Hrun' & Hwf' & _).
    rewrite Hrun' in Hrun. injection Hrun as <- <-. split; [|done]. by apply coord_wf_intro.
Qed.

Lemma tick_round_witness_wf ts seed c c' t : coord_wf c → run_state c = RoundWitness →
  tick_round_witness ts seed c = (Ok t, c') → coord_wf c'.
Proof.
  intros Hwf Hs Hrun. assert (He := proj1 Hwf). unfold tick_round_witness in Hrun. do 3 peel Hrun.
  apply mret_Ok in Hrun as [_ ->]. rename Ha0 into Hrun.
  destruct a; cbn [negb] in Hrun; [|by apply mret_Ok in Hrun as [_ ->]].
  do 5 peel Hrun. cbn zeta in Hrun.
  apply move_clients_wf in Ha2 as [He2 ->]; [|done].
  case_match.
  - peel Hrun. rewrite withdraw_all_run in Ha2. injection Ha2 as <- <-.
    apply start_cooldown_wf in Hrun; [tauto|]. by apply withdraw_all_wf.
  - do 2 peel Hrun. apply set_last_step_Ok in Ha2 as (l & -> & _).
    case_match; [apply start_cooldown_wf in Hrun; [tauto|done]|].
    peel Hrun. case_match; [apply start_cooldown_wf in Hrun; [tauto|done]|].
    apply start_round_train_Ok in Hrun as (? & ? & Hs' & _); [|done|lia].
    split; [done|]. split; [done|]. by rewrite Hs'.
Qed.

Lemma tick_cooldown_wf ts c c' t : coord_wf c → run_state c = Cooldown →
  tick_cooldown ts c = (Ok t, c') → coord_wf c'.
Proof.
  intros Hwf Hs Hrun. assert (He := proj1 Hwf). unfold tick_cooldown in Hrun. do 2 peel Hrun.
  destruct a; [|by apply mret_Ok in Hrun as [_ ->]].
  do 7 peel Hrun. apply move_clients_wf in Ha4 as [He2 ->]; [|done].
  do 2 peel Hrun. apply mret_Ok in Hrun as [_ ->]. rename Ha4 into Hrun.
  case_match.
  - peel Hrun. rewrite withdraw_all_run in Ha4. injection Ha4 as <- <-.
    do 2 peel Hrun. apply change_state_Ok in Ha4 as [_ ->].
    unfold set_cold_start in Hrun. apply modify_Ok in Hrun as ->.
    apply coord_wf_intro; [|done..].
    exact (withdraw_all_wf (exit_unhealthy_clients (height a0) (epoch_state c)) He2).
  - peel Hrun. apply start_waiting_wf in Ha4 as [(He3 & Hr3 & Hf) Heq]; [|done].
    unfold set_cold_start in Hrun. apply modify_Ok in Hrun as ->.
    split; [exact He3|]. split; [exact Hr3|exact Hf].
Qed.

(** ** Sequences of calls *)

Inductive op :=
| OTick (new_clients : option (list NodeIdentity)) (unix_timestamp random_seed : Z)
| OWitness (from : NodeIdentity) (w : Witness) (unix_timestamp : Z)
| OWarmupWitness (from : NodeIdentity) (w : Witness) (unix_timestamp random_seed : Z)
| OHealthCheck (from : NodeIdentity) (checks : list (NodeIdentity * CommitteeProof))
| OCheckpoint (from : NodeIdentity) (index : Z) (repo : Checkpoint)
| OWithdraw (index : Z)
| OEject (index : Z)
| OPause (unix_timestamp : Z)
| OResume (unix_timestamp : Z).

Definition run_op (o : op) : CM unit :=
  match o with
  | OTick new ts seed => tick new ts seed ;; mret tt
  | OWitness from w ts => witness from w ts
  | OWarmupWitness from w ts seed => warmup_witness from w ts seed
  | OHealthCheck from checks => health_check from checks ;; mret tt
  | OCheckpoint from i repo => checkpoint from i repo
  | OWithdraw i => withdraw i
  | OEject i => eject i
  | OPause ts => pause ts
  | OResume ts => resume ts
  end.

(** States reached from [c0] by successful calls. *)
Inductive reachable (c0 : Coordinator) : Coordinator → Prop :=
| reach_refl : reachable c0 c0
| reach_step c c' o : reachable c0 c → run_op o c = (Ok tt, c') → reachable c0 c'.

Lemma tick_wf new ts seed c c' t : coord_wf c → tick new ts seed c = (Ok t, c') → coord_wf c'.
Proof.
  intros Hwf Hrun. unfold tick in Hrun. peel Hrun. destruct (run_state c) eqn:Hs; try done.
  - by eapply tick_waiting_wf.
  - by eapply tick_warmup_wf.
  - by eapply tick_round_train_wf.
  - by eapply tick_round_witness_wf.
  - by eapply tick_cooldown_wf.
Qed.

Lemma run_op_wf o c c' : coord_wf c → run_op o c = (Ok tt, c') → coord_wf c'.
Proof.
  intros Hwf Hrun. destruct o; cbn [run_op] in Hrun.
  - peel Hrun. apply mret_Ok in Hrun as [_ ->]. by eapply tick_wf.
  - by eapply witness_wf.
  - by eapply warmup_witness_wf.
  - peel Hrun. apply mret_Ok in Hrun as [_ ->]. by eapply health_check_wf.
  - by eapply checkpoint_wf.
  - by eapply withdraw_wf.
  - by eapply eject_wf.
  - by eapply pause_wf.
  - by eapply resume_wf.
Qed.

Lemma reachable_wf c0 c : coord_wf c0 → reachable c0 c → coord_wf c.
Proof. induction 2; [done|]. by eapply run_op_wf. Qed.

End Preservation.
