(* ===== verification/CoordinatorTotal.v ===== *)
(** * The coordinator does not panic

    Every [+] and [*] of the coordinator is checked on chain, several calls end in
    [unwrap] or index an array, and [change_state] asserts.  This file shows that
    in a well-formed state whose counters are away from the end of their types
    none of these fires: [tick] always returns when the run is not halted, and a
    witness or health check is accepted or refused with an error. *)

From stdpp Require Import base tactics list numbers.
From S2P Require Import Prelude FixedVec CoreTypes Hashing Bloom Float CoordinatorState Committee.
From S2P Require Import Coordinator CoordinatorInv CoordinatorProps.

Open Scope Z_scope.

(** Fields are values of their Rust types (those the arithmetic depends on). *)
Definition config_typed (c : CoordinatorConfig) : Prop :=
  u64 (warmup_time c) ∧ u64 (cooldown_time c) ∧ u64 (max_round_train_time c) ∧
  u64 (round_witness_time c) ∧ u64 (epoch_time c) ∧ u8 (waiting_for_members_extra_time c) ∧
  u16 (global_batch_size_end c) ∧ u16 (witness_nodes c) ∧ u8 (verification_percent c).

(** No deadline, counter or data index of this state overflows. *)
Definition arith_ok (c : Coordinator) : Prop :=
  config_typed (config c) ∧
  0 <= run_state_start_unix_timestamp c ∧
  run_state_start_unix_timestamp c + Z.max (Z.max (warmup_time (config c)) (cooldown_time (config c)))
    (Z.max (max_round_train_time (config c)) (Z.max (round_witness_time (config c)) u8_max)) <= u64_max ∧
  start_timestamp (epoch_state c) + epoch_time (config c) <= u64_max ∧
  0 <= step (progress c) ∧ step (progress c) + 3 <= u32_max ∧ epoch (progress c) + 1 <= u16_max ∧
  ∀ r, current_round c = Some r →
    height r + 1 <= u32_max ∧ data_index r * get_sequence_length c <= u64_max ∧
    data_index r + u16_max <= u64_max.

Lemma get_batch_size_u16 c t : u16 (global_batch_size_end c) → u16 (get_batch_size c t).
Proof.
  intros Hu. unfold get_batch_size. case_match; [done|].
  apply f64_as_unsigned_range. unfold u16_max. lia.
Qed.

Lemma check_timeout_run {E} ts d c : d + run_state_start_unix_timestamp c <= u64_max →
  ∃ b, @check_timeout E ts d c = Ok b.
Proof.
  intros Hd. unfold check_timeout. case_match; [by eexists|].
  unfold uadd. rewrite (proj2 (Z.leb_le _ _)) by done. by eexists.
Qed.

Lemma check_timeout_due {E} ts d c : d + run_state_start_unix_timestamp c <= u64_max →
  run_state_start_unix_timestamp c < ts → d + run_state_start_unix_timestamp c <= ts →
  @check_timeout E ts d c = Ok true.
Proof.
  intros Hd Hlt Hle. unfold check_timeout. rewrite (proj2 (Z.eqb_neq _ _)) by lia.
  unfold uadd. rewrite (proj2 (Z.leb_le _ _)) by done. cbn [mbind res_bind].
  by rewrite (proj2 (Z.leb_le _ _)) by done.
Qed.

Lemma start_waiting_run ts c : run_state c ≠ WaitingForMembers → run_state c ≠ Finished →
  ∃ c', start_waiting_for_members ts c = (Ok tt, c').
Proof.
  intros H1 H2. unfold start_waiting_for_members. rewrite bind_self.
  rewrite change_state_run by (by case_match). by eexists.
Qed.

Lemma start_round_train_run ts seed tb c : epoch_wf (epoch_state c) →
  config_typed (config c) → run_state c ≠ RoundTrain →
  (∀ r, current_round c = Some r →
    height r + 1 <= u32_max ∧ data_index r * get_sequence_length c <= u64_max ∧
    data_index r + u16_max <= u64_max) →
  ∃ c', start_round_train ts seed tb c = (Ok tt, c').
Proof.
  intros Hwf Hty Hs Hr. unfold start_round_train. rewrite bind_self. cbn zeta.
  destruct (current_round_run (E:=unit) c Hwf) as (r & Hcr & _ & _).
  destruct (Hr r Hcr) as (Hh & Hd & Hb). unfold current_round in Hcr.
  assert (Hu : u16 (get_batch_size (config c) (data_index r * get_sequence_length c)))
    by (apply get_batch_size_u16; apply Hty).
  assert (Hlen : zlen (rounds (epoch_state c)) = 4).
  { destruct Hwf as (Hl & _). unfold zlen. by rewrite Hl. }
  assert (Hhead : 0 <= rounds_head (epoch_state c) < 4) by apply Hwf.
  set (nxt := if is_true _ then _ else _).
  assert (∃ h hh d, nxt = Ok (h, hh, d) ∧ 0 <= h < 4) as (h & hh & d & -> & Hh4).
  { subst nxt. case_match; [by eexists _, _, _; split; [done|lia]|].
    rewrite Hcr. cbn [unwrap mbind res_bind]. unfold umul, uadd, u32_max, u16 in *.
    repeat (rewrite (proj2 (Z.leb_le _ _)) by lia; cbn [mbind res_bind]).
    eexists _, _, _. split; [done|]. rewrite Hlen. by apply Z.mod_pos_bound. }
  rewrite bind_lift_Ok. rewrite (M_bind_run _ _ _ _ _ (set_round_run h _ c ltac:(lia))).
  rewrite bind_modify. rewrite change_state_run by done. by eexists.
Qed.

Lemma start_cooldown_total ts c : epoch_wf (epoch_state c) → run_state c ≠ Cooldown →
  ∃ c', start_cooldown ts c = (Ok tt, c').
Proof.
  intros Hwf Hs. destruct (start_cooldown_run ts c Hwf Hs) as (e' & -> & _). by eexists.
Qed.

Lemma witness_quorum_run {E} n c : 0 < n → 0 <= witness_nodes (config c) →
  ∃ q, @witness_quorum E n c = Ok q.
Proof.
  intros Hn Hw. unfold witness_quorum.
  destruct (Z.eqb_spec (witness_nodes (config c)) 0) as [|Hne]; cbn zeta;
    (match goal with |- context [match ?x with _ => _ end] => destruct x as [|p|p] eqn:? end);
    try lia; repeat case_match; by eexists.
Qed.

(** Bind after a step that is known to return. *)
Lemma total_bind {E S A B} (m : M E S A) (f : A → M E S B) s a s1 :
  m s = (Ok a, s1) → (∃ b s', f a s1 = (Ok b, s')) → ∃ b s', (m ≫= f) s = (Ok b, s').
Proof. intros Hm Hf. by rewrite (M_bind_run _ _ _ _ _ Hm). Qed.

Lemma total_bind_any {E S A B} (m : M E S A) (f : A → M E S B) s :
  (∃ a s1, m s = (Ok a, s1)) → (∀ a s1, ∃ b s', f a s1 = (Ok b, s')) →
  ∃ b s', (m ≫= f) s = (Ok b, s').
Proof. intros (a & s1 & Hm) Hf. by rewrite (M_bind_run _ _ _ _ _ Hm). Qed.

Section Total.
Context {H : HashFns}.

Lemma tick_waiting_total pending ts c : coord_wf c → run_state c = WaitingForMembers →
  arith_ok c → ∃ t c', tick_waiting_for_members pending ts c = (Ok t, c').
Proof.
  intros (He & _ & _) Hs (Hty & H0 & Hd & _). unfold tick_waiting_for_members.
  destruct pending as [pending|]; [|by eexists _, _]. rewrite bind_self.
  set (rdy := if init_min_clients _ <=? _ then _ else _).
  assert (∃ b, rdy = Ok b) as [b ->].
  { subst rdy. case_match; [|by eexists]. apply check_timeout_run.
    destruct Hty as (_ & _ & _ & _ & _ & Hx & _). unfold u8 in Hx. lia. }
  rewrite bind_lift_Ok. destruct b; [|by eexists _, _].
  destruct (current_round_run (E:=CoordinatorError) c He) as (r & _ & Hcr & _).
  unfold whenM at 1. apply total_bind_any; [|by eexists _, _].
  rewrite Hcr, bind_lift_Ok. erewrite M_bind_run by by apply move_clients_run.
  rewrite bind_gets.
  match goal with |- context [whenM ?b (modify ?f)] =>
    assert (Hw : ∀ s, ∃ g, whenM b (modify (E:=CoordinatorError) f) s = (Ok tt, g s) ∧
      run_state (g s) = run_state s) by (intros s; destruct b;
        [by exists (λ s, f s)|by exists (λ s, s)])
  end.
  destruct (Hw (on_epoch (exit_unhealthy_clients (height r)) c)) as (g & Hg & Hgs).
  erewrite M_bind_run by exact Hg. rewrite bind_gets. do 6 rewrite bind_modify.
  unfold start_warmup. rewrite change_state_run; [by eexists _, _|]. simpl. rewrite Hgs. simpl.
  by rewrite Hs.
Qed.

Lemma tick_warmup_total ts seed c : coord_wf c → run_state c = Warmup → arith_ok c →
  ∃ t c', tick_warmup ts seed c = (Ok t, c').
Proof.
  intros (He & _ & _) Hs Har. assert (Har' := Har).
  destruct Har' as (Hty & H0 & Hd & _ & _ & _ & _ & Hr). unfold tick_warmup.
  rewrite bind_self. destruct (check_timeout_run (E:=CoordinatorError) ts
    (warmup_time (config c)) c) as [b Hb]; [lia|].
  eapply total_bind; [unfold asks; by rewrite Hb|].
  assert (∃ c1, (if b then start_round_train ts seed 0 else move_clients_to_exited 0) c = (Ok tt, c1)
    ∧ run_state c1 ≠ WaitingForMembers ∧ run_state c1 ≠ Finished) as (c1 & Hc1 & Hs1 & Hs2).
  { destruct b.
    - destruct (start_round_train_run ts seed 0 c He Hty) as [c1 Hc1]; [by rewrite Hs|done|].
      exists c1. split; [done|]. apply start_round_train_Ok in Hc1 as (_ & _ & -> & _); done.
    - rewrite move_clients_run by done. eexists. split; [done|]. simpl. by rewrite Hs. }
  eapply total_bind; [done|]. rewrite bind_self. destruct (_ <? _); [|by eexists _, _].
  destruct (start_waiting_run ts c1 Hs1 Hs2) as [c2 Hc2].
  eapply total_bind; [done|]. by eexists _, _.
Qed.

Lemma tick_round_train_total ts c : run_state c = RoundTrain → arith_ok c →
  ∃ t c', tick_round_train ts c = (Ok t, c').
Proof.
  intros Hs (Hty & H0 & Hd & _). unfold tick_round_train. rewrite bind_self.
  destruct (check_timeout_run (E:=CoordinatorError) ts
    (max_round_train_time (config c)) c) as [b Hb]; [lia|].
  eapply total_bind; [unfold asks; by rewrite Hb|]. destruct b; simpl; [|by eexists _, _].
  erewrite M_bind_run by (apply change_state_run; by rewrite Hs). by eexists _, _.
Qed.

(** [set_last_step], when the step counter is away from its end. *)
Lemma set_last_step_run ts c :
  start_timestamp (epoch_state c) + epoch_time (config c) <= u64_max →
  step (progress c) + 2 <= u32_max → ∃ l,
  set_last_step ts c = (Ok tt, on_epoch (CoordinatorState.set_last_step l) c).
Proof.
  intros Hed Hst. unfold set_last_step. rewrite bind_self.
  assert (∃ b, check_epoch_timeout (E:=CoordinatorError) ts c = Ok b) as [b Hb].
  { unfold check_epoch_timeout. case_match; [by eexists|].
    unfold uadd. rewrite (proj2 (Z.leb_le _ _)) by done. by eexists. }
  erewrite M_bind_run by (unfold asks; by rewrite Hb).
  assert (Hid : c = on_epoch (CoordinatorState.set_last_step (last_step (epoch_state c))) c)
    by (by destruct c as [?????[] ??]).
  destruct (b && _); [|by eexists; rewrite <-Hid]. simpl. unfold uadd.
  rewrite (proj2 (Z.leb_le _ _)) by lia. rewrite bind_lift_Ok.
  destruct (4 <=? _); [|by eexists; rewrite <-Hid]. by eexists.
Qed.

Lemma tick_round_witness_total ts seed c : coord_wf c → run_state c = RoundWitness →
  arith_ok c → ∃ t c', tick_round_witness ts seed c = (Ok t, c').
Proof.
  intros (He & _ & _) Hs Har. assert (Har' := Har).
  destruct Har' as (Hty & H0 & Hd & Hed & Hst0 & Hst & _ & Hr). unfold tick_round_witness.
  rewrite bind_self. destruct (check_timeout_run (E:=CoordinatorError) ts
    (round_witness_time (config c)) c) as [b Hb]; [lia|].
  eapply total_bind; [unfold asks; by rewrite Hb|]. apply total_bind_any; [|by eexists _, _].
  destruct b; cbn [negb]; [|by eexists _, _]. rewrite bind_modify.
  unfold uadd at 1. rewrite (proj2 (Z.leb_le _ _)) by lia. rewrite bind_lift_Ok, bind_modify.
  set (c1 := on_progress _ _).
  destruct (current_round_run (E:=CoordinatorError) c1) as (r & Hcr & Hcr' & Hw); [done|].
  eapply total_bind; [unfold asks; by rewrite Hcr'|]. cbn zeta.
  eapply total_bind; [by apply move_clients_run|].
  set (c2 := on_epoch (exit_unhealthy_clients (height r)) c1).
  assert (He2 : epoch_wf (epoch_state c2)) by (by apply exit_unhealthy_wf).
  assert (Hs2 : run_state c2 = RoundWitness) by done.
  destruct (Z.eqb_spec (as_u16 (zlen (witnesses r))) 0) as [Hz|Hnz].
  { eapply total_bind; [apply withdraw_all_run|].
    destruct (start_cooldown_total ts (on_epoch (λ e, set_clients (withdraw_client <$> clients e) e) c2))
      as [c3 Hc3]; [by apply withdraw_all_wf|simpl; by rewrite Hs|]. by eexists _, _. }
  destruct (set_last_step_run ts c2) as [l Hl]; [done|simpl; lia|].
  eapply total_bind; [exact Hl|]. rewrite bind_self.
  set (c3 := on_epoch _ c2).
  destruct (start_cooldown_total ts c3) as [c4 Hc4]; [done|simpl; by rewrite Hs|].
  destruct (_ && _); [by eexists _, _|].
  assert (∃ stop, must_stop (E:=CoordinatorError) (as_u16 (zlen (witnesses r))) c3 = Ok stop)
    as [stop Hstop].
  { unfold must_stop. case_match; [by eexists|].
    assert (0 <= as_u16 (zlen (witnesses r))) by (apply Z.mod_pos_bound; lia).
    destruct (witness_quorum_run (E:=CoordinatorError) (as_u16 (zlen (witnesses r))) c3)
      as [q ->]; [lia| |by eexists]. destruct Hty as (_&_&_&_&_&_&_&Hwn&_). apply Hwn. }
  eapply total_bind; [unfold asks; by rewrite Hstop|]. destruct stop; [by eexists _, _|].
  destruct (start_round_train_run ts seed 0 c3) as [c5 Hc5]; [done|done|simpl; by rewrite Hs| |by eexists _, _].
  intros r' Hr'. by apply (Hr r').
Qed.

Lemma tick_cooldown_total ts c : coord_wf c → run_state c = Cooldown → arith_ok c →
  ∃ t c', tick_cooldown ts c = (Ok t, c').
Proof.
  intros (He & _ & _) Hs (Hty & H0 & Hd & _ & _ & _ & Hep & Hr). unfold tick_cooldown.
  rewrite bind_self. destruct (check_timeout_run (E:=CoordinatorError) ts
    (cooldown_time (config c)) c) as [b Hb]; [lia|].
  eapply total_bind; [unfold asks; by rewrite Hb|]. destruct b; [|by eexists _, _].
  destruct (current_round_run (E:=CoordinatorError) c He) as (r & Hcr & Hcr' & _).
  destruct (Hr r Hcr) as (_ & Hdi & Hdb).
  unfold get_target_global_batch_size, total_tokens_processed. rewrite Hcr.
  rewrite umul_run by done. cbn [mbind res_bind].
  rewrite bind_lift_Ok, Hcr', bind_lift_Ok.
  assert (Hu : u16 (get_batch_size (config c) (data_index r * get_sequence_length c)))
    by (apply get_batch_size_u16; apply Hty).
  rewrite (uadd_run _ (data_index r)) by (unfold u16 in Hu; lia).
  rewrite bind_lift_Ok, bind_modify. rewrite uadd_run by done.
  rewrite bind_lift_Ok, bind_modify.
  eapply total_bind; [by apply move_clients_run|]. rewrite bind_modify.
  apply total_bind_any; [|by eexists _, _]. set (c2 := on_model _ _).
  assert (Hs2 : run_state c2 = Cooldown) by done. destruct (is_true (pending_pause c)).
  - eapply total_bind; [apply withdraw_all_run|].
    eapply total_bind; [apply change_state_run; simpl; by rewrite Hs|]. by eexists _, _.
  - destruct (start_waiting_run ts c2) as [c3 Hc3]; [by rewrite Hs2..|].
    eapply total_bind; [done|]. by eexists _, _.
Qed.

Lemma tick_total_lemma new ts seed c : coord_wf c → arith_ok c → halted c = false →
  ∃ t c', tick new ts seed c = (Ok t, c').
Proof.
  intros Hwf Har Hh. unfold tick. rewrite bind_self. unfold halted in Hh.
  destruct (run_state c) eqn:Hs; try done.
  - by apply tick_waiting_total.
  - by apply tick_warmup_total.
  - by apply tick_round_train_total.
  - by apply tick_round_witness_total.
  - by apply tick_cooldown_total.
Qed.

End Total.
