(* ===== verification/CoordinatorThms.v ===== *)
(** * What the coordinator guarantees

    The properties of the state machine of
    src/shared/coordinator/src/coordinator.rs, on top of the invariant
    (CoordinatorInv.v, CoordinatorProps.v) and of totality (CoordinatorTotal.v). *)

From stdpp Require Import base tactics list numbers.
From S2P Require Import Prelude FixedVec CoreTypes Hashing Bloom Float CoordinatorState Committee.
From S2P Require Import Coordinator CoordinatorInv CoordinatorProps CoordinatorTotal.

Open Scope Z_scope.

(** ** A concrete run to evaluate the definitions on *)
Module Sample.

Definition cfg : CoordinatorConfig := mkConfig 30 30 60 10 0 600 1000 1 1 1 4 4 0 5.

Definition node (k : Z) : NodeIdentity := from_single_key (replicate 32 k).

Definition fresh : Coordinator :=
  mkCoordinator (fs_new 32) WaitingForMembers (ModelLLM LLM_dummy) cfg Progress_default
    EpochState_zeroed 100 sb_FALSE.

(** Five seconds later the only member is admitted and the run warms up. *)
Definition warming : Coordinator := (tick (Some [node 1]) 200 7 fresh).2.
Definition training : Coordinator := (tick None 300 7 warming).2.

Lemma fresh_wf : coord_wf fresh.
Proof. apply coord_wf_intro; [exact EpochState_zeroed_wf|done..]. Qed.

Lemma warming_wf : coord_wf warming.
Proof.
  apply (tick_wf (Some [node 1]) 200 7 fresh warming Ticked fresh_wf).
  vm_compute. reflexivity.
Qed.

Lemma training_wf : coord_wf training.
Proof.
  apply (tick_wf None 300 7 warming training Ticked warming_wf). vm_compute. reflexivity.
Qed.

Definition vote_of (i : Z) : Witness :=
  mkWitness (mkWitnessProof 0 i 1) (bloom_default 16 8) (bloom_default 16 8) (replicate 32 0).

Definition witnessed : Coordinator :=
  (@witness zero_hashes (node 1) (vote_of 0) 310 training).2.
Definition next : Coordinator := (tick None 330 11 witnessed).2.

Lemma witnessed_wf : coord_wf witnessed.
Proof.
  apply (@witness_wf zero_hashes (node 1) (vote_of 0) 310 training witnessed tt training_wf).
  vm_compute. reflexivity.
Qed.

Lemma training_arith : arith_ok training.
Proof.
  split; [repeat split; vm_compute; discriminate|].
  split; [vm_compute; discriminate|]. split; [vm_compute; discriminate|].
  split; [vm_compute; discriminate|]. split; [vm_compute; discriminate|].
  split; [vm_compute; discriminate|]. split; [vm_compute; discriminate|].
  intros r Hr. assert (Hr' : Some r = Some (mkRound [] 0 7 0 1 0)) by (rewrite <-Hr; reflexivity).
  injection Hr' as ->. split; [vm_compute; discriminate|].
  split; vm_compute; discriminate.
Qed.

End Sample.

(** ** The run state machine *)

(** The transitions a tick may make. *)
Definition tick_edge (s s' : RunState) : bool :=
  match s, s' with
  | WaitingForMembers, (WaitingForMembers | Warmup) => true
  | Warmup, (Warmup | RoundTrain | WaitingForMembers | Finished) => true
  | RoundTrain, (RoundTrain | RoundWitness) => true
  | RoundWitness, (RoundWitness | RoundTrain | Cooldown) => true
  | Cooldown, (Cooldown | WaitingForMembers | Finished | Paused) => true
  | _, _ => false
  end.

Lemma start_waiting_state ts c c' u : start_waiting_for_members ts c = (Ok u, c') →
  run_state c' = (if step (progress c) <? total_steps (config c)
                  then WaitingForMembers else Finished) ∧
  progress c' = progress c ∧ config c' = config c.
Proof.
  intros Hrun. unfold start_waiting_for_members in Hrun. peel Hrun.
  by apply change_state_Ok in Hrun as [_ ->].
Qed.

Section Edges.
Context {H : HashFns}.

Lemma tick_waiting_edge pending ts c c' t : epoch_wf (epoch_state c) →
  run_state c = WaitingForMembers → tick_waiting_for_members pending ts c = (Ok t, c') →
  c' = c ∨ run_state c' = Warmup.
Proof.
  intros Hwf Hs Hrun. unfold tick_waiting_for_members in Hrun.
  destruct pending as [pending|]; [|apply mret_Ok in Hrun as [_ ->]; by left].
  do 3 peel Hrun. apply mret_Ok in Hrun as [_ ->].
  apply whenM_Ok in Ha0 as [[_ Hrun]|[_ ->]]; [right|by left].
  do 11 peel Hrun. by apply change_state_Ok in Hrun as [_ ->].
Qed.

Lemma tick_warmup_edge ts seed c c' t : epoch_wf (epoch_state c) → run_state c = Warmup →
  tick_warmup ts seed c = (Ok t, c') → tick_edge Warmup (run_state c') = true.
Proof.
  intros He Hs Hrun. unfold tick_warmup in Hrun. do 3 peel Hrun.
  assert (run_state c1 = Warmup ∨ run_state c1 = RoundTrain) as Hs1.
  { destruct a.
    - apply start_round_train_Ok in Ha0 as (_ & _ & ? & _); [auto|done|lia].
    - rewrite move_clients_run in Ha0 by done. injection Ha0 as <- <-. by left. }
  peel Hrun. destruct (_ <? _).
  - peel Hrun. apply mret_Ok in Hrun as [_ ->]. apply start_waiting_state in Ha1 as [-> _].
    by destruct (_ <? _).
  - apply mret_Ok in Hrun as [_ ->]. by destruct Hs1 as [-> | ->].
Qed.

Lemma tick_round_train_edge ts c c' t : run_state c = RoundTrain →
  tick_round_train ts c = (Ok t, c') → c' = c ∨ run_state c' = RoundWitness.
Proof.
  intros Hs Hrun. unfold tick_round_train in Hrun. do 3 peel Hrun.
  apply mret_Ok in Hrun as [_ ->]. apply whenM_Ok in Ha0 as [[_ Hrun]|[_ ->]]; [right|by left].
  by apply change_state_Ok in Hrun as [_ ->].
Qed.

(** A due witness tick either closes the epoch or starts the next round, and the
    latter only below the step limit. *)
Lemma tick_round_witness_cases ts seed c c' t : epoch_wf (epoch_state c) →
  run_state c = RoundWitness → tick_round_witness ts seed c = (Ok t, c') →
  (check_timeout (E:=CoordinatorError) ts (round_witness_time (config c)) c = Ok false ∧ c' = c) ∨
  (config c' = config c ∧
   (run_state c' = Cooldown ∨
    (run_state c' = RoundTrain ∧ step (progress c') = step (progress c) + 1 ∧
     step (progress c') < total_steps (config c') ∧ is_true (pending_pause c) = false))).
Proof.
  intros He Hs Hrun. unfold tick_round_witness in Hrun. do 3 peel Hrun.
  apply mret_Ok in Hrun as [_ ->]. rename Ha0 into Hrun.
  destruct a; cbn [negb] in Hrun; [right|left; by apply mret_Ok in Hrun as [_ ->]].
  do 5 peel Hrun. cbn zeta in Hrun. apply uadd_Ok in Ha0 as [-> _].
  apply move_clients_wf in Ha2 as [He2 ->]; [|done].
  assert (∀ cc ccc v, epoch_wf (epoch_state cc) → config cc = config c →
    start_cooldown ts cc = (Ok v, ccc) → config ccc = config c ∧ run_state ccc = Cooldown) as Hcd.
  { intros cc ccc v Hw Hcfg Hc. assert (run_state ccc = Cooldown)
      by (apply start_cooldown_wf in Hc; [tauto|done]).
    split; [|done]. rewrite <-Hcfg. unfold start_cooldown in Hc. peel Hc.
    apply change_state_Ok in Hc as [_ ->].
    destruct (current_round_run (E:=unit) cc Hw) as (r & Hr & _ & _).
    rewrite (update_current_round_run _ cc r Hw Hr) in Ha0. by injection Ha0 as <- <-. }
  destruct (_ =? 0).
  - peel Hrun. rewrite withdraw_all_run in Ha0. injection Ha0 as <- <-.
    apply Hcd in Hrun; [naive_solver|by apply withdraw_all_wf|done].
  - do 2 peel Hrun. apply set_last_step_Ok in Ha0 as (l & -> & _).
    destruct (_ && _); [apply Hcd in Hrun; [naive_solver|done..]|].
    peel Hrun. destruct a3; [apply Hcd in Hrun; [naive_solver|done..]|].
    unfold must_stop in Ha0. destruct (_ <? min_clients _); [done|]. run_inv. bool_prop.
    apply start_round_train_Ok in Hrun as (_ & _ & Hs' & -> & -> & _); [|done|lia].
    simpl in *. split; [done|]. right. split_and!; try done; lia.
Qed.

Lemma tick_cooldown_edge ts c c' t : epoch_wf (epoch_state c) → run_state c = Cooldown →
  tick_cooldown ts c = (Ok t, c') →
  (c' = c ∧ t = Ticked) ∨
  (t = EpochEnd true ∧
   run_state c' = (if is_true (pending_pause c) then Paused
     else if step (progress c) <? total_steps (config c) then WaitingForMembers else Finished)).
Proof.
  intros He Hs Hrun. unfold tick_cooldown in Hrun. do 2 peel Hrun.
  destruct a; [right|left; by apply mret_Ok in Hrun as [-> ->]].
  do 7 peel Hrun. apply move_clients_wf in Ha4 as [He2 ->]; [|done].
  do 2 peel Hrun. apply mret_Ok in Hrun as [-> ->]. split; [done|]. rename Ha4 into Hrun.
  destruct (is_true (pending_pause c)).
  - peel Hrun. do 2 peel Hrun. apply change_state_Ok in Ha5 as [_ ->].
    unfold set_cold_start in Hrun. by apply modify_Ok in Hrun as ->.
  - peel Hrun. apply start_waiting_state in Ha4 as [Hst _].
    unfold set_cold_start in Hrun. apply modify_Ok in Hrun as ->. exact Hst.
Qed.

Lemma tick_edges new ts seed c c' t : coord_wf c → tick new ts seed c = (Ok t, c') →
  tick_edge (run_state c) (run_state c') = true.
Proof.
  intros (He & _) Hrun. unfold tick in Hrun. peel Hrun. destruct (run_state c) eqn:Hs; try done.
  - apply tick_waiting_edge in Hrun as [-> | ->]; [by rewrite Hs|done..].
  - by apply tick_warmup_edge in Hrun.
  - apply tick_round_train_edge in Hrun as [-> | ->]; [by rewrite Hs|done..].
  - apply tick_round_witness_cases in Hrun as [[_ ->]|[_ [-> | [-> _]]]]; [by rewrite Hs|done..].
  - apply tick_cooldown_edge in Hrun as [[-> _]|[_ ->]]; [by rewrite Hs| |done..].
    destruct (is_true _); [done|]. by destruct (_ <? _).
Qed.
End Edges.

(** ** Rounds end *)

(** Due ticks an epoch can still take before it must leave its rounds. *)
Definition rounds_measure (c : Coordinator) : Z :=
  2 * Z.max 0 (total_steps (config c) - step (progress c)) +
  (if bool_decide (run_state c = RoundTrain) then 1 else 0).

(** The tick makes progress: the timeout of the current state has passed. *)
Definition due (c : Coordinator) (o : op) : bool :=
  match o with
  | OTick _ ts _ =>
      let d := match run_state c with
               | RoundTrain => max_round_train_time (config c)
               | _ => round_witness_time (config c)
               end in
      match @check_timeout unit ts d c with Ok b => b | _ => false end
  | _ => false
  end.

(** A run of successful calls that stays in the rounds of one epoch, with the number
    of due ticks in it. *)
Inductive round_run {H : HashFns} : Coordinator → Z → Coordinator → Prop :=
| rr_nil c : in_round (run_state c) = true → round_run c 0 c
| rr_cons c o c' n c'' :
    in_round (run_state c) = true → run_op o c = (Ok tt, c') → round_run c' n c'' →
    round_run c (n + if due c o then 1 else 0) c''.

Section Measure.
Context {H : HashFns}.

Lemma check_timeout_error {E F} ts d c b : @check_timeout E ts d c = Ok b →
  @check_timeout F ts d c = Ok b.
Proof.
  unfold check_timeout. destruct (_ =? _); [by intros [= <-]|]. unfold uadd.
  destruct (_ <=? u64_max); simpl; [by intros [= <-]|done].
Qed.

Lemma rounds_measure_frame c c' : config c' = config c → progress c' = progress c →
  run_state c' = run_state c → rounds_measure c' = rounds_measure c.
Proof. unfold rounds_measure. by intros -> -> ->. Qed.

Lemma tick_measure new ts seed c c' t : coord_wf c → in_round (run_state c) = true →
  tick new ts seed c = (Ok t, c') → in_round (run_state c') = true →
  rounds_measure c' + (if due c (OTick new ts seed) then 1 else 0) <= rounds_measure c.
Proof.
  intros (He & _) Hin Hrun Hin'. unfold tick in Hrun. peel Hrun. unfold due, rounds_measure.
  destruct (run_state c) eqn:Hs; try done.
  - unfold tick_round_train in Hrun. do 3 peel Hrun. apply mret_Ok in Hrun as [_ ->].
    rewrite (check_timeout_error _ _ _ _ Ha). destruct a; cbn [whenM] in Ha0.
    + apply change_state_Ok in Ha0 as [_ ->]. simpl. lia.
    + apply mret_Ok in Ha0 as [_ ->]. rewrite Hs. lia.
  - assert (Hc := Hrun).
    apply tick_round_witness_cases in Hrun as [[Ht ->]|[Hcfg [Hc'|(Hc' & Hst & Hlt & _)]]]; try done.
    + rewrite (check_timeout_error _ _ _ _ Ht), Hs. simpl. lia.
    + by rewrite Hc' in Hin'.
    + rewrite Hc', Hcfg, Hst in *. simpl. destruct (check_timeout _ _ _) as [[]| |]; lia.
Qed.

Lemma drop_clients_frame ps d c c' n : drop_clients ps d c = (Ok n, c') →
  config c' = config c ∧ progress c' = progress c ∧ run_state c' = run_state c.
Proof.
  revert d c. induction ps as [|p ps IH]; intros d c Hrun; cbn [drop_clients] in Hrun.
  { by apply mret_Ok in Hrun as [_ ->]. }
  peel Hrun. apply IH in Hrun as (-> & -> & ->). clear IH. unfold drop_client in Ha.
  do 2 peel Ha. destruct (bool_decide _).
  - peel Ha. by apply lift_Ok in Ha as [_ ->].
  - by apply mret_Ok in Ha as [_ ->].
Qed.

(** Everything else leaves the step alone and can only end the training phase. *)
Lemma other_op_measure o c c' : coord_wf c → in_round (run_state c) = true →
  run_op o c = (Ok tt, c') → (∀ n ts s, o ≠ OTick n ts s) → in_round (run_state c') = true →
  rounds_measure c' <= rounds_measure c.
Proof.
  intros Hwf Hin Hrun Hno Hin'. assert (He := proj1 Hwf).
  destruct o as [n ts s|from w ts|from w ts seed|from checks|from i repo|i|i|ts|ts];
    cbn [run_op] in Hrun; [by destruct (Hno n ts s)|..].
  - unfold witness in Hrun. do 6 peel Hrun.
    destruct (current_round_run (E:=unit) c He) as (r & Hcr & _ & _). rewrite Hcr in Hrun.
    cbn [unwrap] in Hrun. rewrite bind_lift_Ok in Hrun. do 2 peel Hrun.
    apply push_witness_Ok with (r:=r) in Ha5 as (_ & -> & ->); [|done..].
    destruct (_ && _); [apply change_state_Ok in Hrun as [_ ->]|apply mret_Ok in Hrun as [_ ->]].
    + unfold rounds_measure. simpl. destruct (bool_decide (run_state c = RoundTrain)); lia.
    + apply Z.eq_le_incl, rounds_measure_frame; done.
  - unfold warmup_witness in Hrun. do 2 peel Hrun. case_bool_decide as Hb.
    + by apply mret_Ok in Hrun as [_ ->].
    + peel Hrun. bool_prop. by rewrite Ha0 in Hin.
  - peel Hrun. apply mret_Ok in Hrun as [_ ->]. unfold health_check in Ha. do 5 peel Ha.
    apply health_checks_read in Ha3 as [-> _]. apply Z.eq_le_incl.
    apply drop_clients_frame in Ha as (? & ? & ?). by apply rounds_measure_frame.
  - unfold checkpoint in Hrun. do 2 peel Hrun. apply Z.eq_le_incl.
    repeat case_match; try (apply modify_Ok in Hrun as ->; done); by apply mret_Ok in Hrun as [_ ->].
  - unfold withdraw in Hrun. peel Hrun. repeat case_match; try done.
    destruct (set_client_state_coord_wf _ _ _ _ _ Hwf Hrun) as (_ & ? & ? & ?).
    by apply Z.eq_le_incl, rounds_measure_frame.
  - unfold eject in Hrun. peel Hrun. repeat case_match; try done.
    destruct (set_client_state_coord_wf _ _ _ _ _ Hwf Hrun) as (_ & ? & ? & ?).
    by apply Z.eq_le_incl, rounds_measure_frame.
  - unfold pause in Hrun. peel Hrun. unfold halted, active in Hrun.
    destruct (run_state c) eqn:Hs; try done; cbn [negb] in Hrun;
      apply modify_Ok in Hrun as ->; by apply Z.eq_le_incl, rounds_measure_frame.
  - unfold resume in Hrun. do 2 peel Hrun. bool_prop. by rewrite Ha in Hin.
Qed.

Lemma round_run_bound c n c' : coord_wf c → round_run c n c' →
  n + rounds_measure c' <= rounds_measure c.
Proof.
  intros Hwf Hr. induction Hr as [c Hin|c o c1 n c2 Hin Hop Hr IH]; [lia|].
  assert (Hwf1 := run_op_wf o c c1 Hwf Hop). specialize (IH Hwf1).
  assert (Hin1 : in_round (run_state c1) = true) by (by destruct Hr).
  assert ((∃ m ts s, o = OTick m ts s) ∨ ∀ m ts s, o ≠ OTick m ts s)
    as [(m & ts & s & ->)|Hno] by (destruct o; naive_solver).
  - cbn [run_op] in Hop. peel Hop. apply mret_Ok in Hop as [_ ->].
    pose proof (tick_measure m ts s c _ _ Hwf Hin Ha Hin1). lia.
  - assert (due c o = false) as -> by (destruct o; [naive_solver|done..]).
    pose proof (other_op_measure o c c1 Hwf Hin Hop Hno Hin1). lia.
Qed.
End Measure.

(** ** The next round *)
Section NextRound.
Context {H : HashFns}.

Lemma start_round_train_next ts seed tb c u c' r : epoch_wf (epoch_state c) →
  is_true (first_round (epoch_state c)) = false → current_round c = Some r →
  start_round_train ts seed tb c = (Ok u, c') →
  current_round c' = Some (mkRound [] (data_index r + get_batch_size (config c)
      (data_index r * get_sequence_length c)) seed (height r + 1)
      (zlen (clients (epoch_state c))) tb) ∧
  rounds_head (epoch_state c') = (rounds_head (epoch_state c) + 1) mod 4 ∧
  (∀ i, i ≠ (rounds_head (epoch_state c) + 1) mod 4 → 0 <= i →
     znth (rounds (epoch_state c')) i = znth (rounds (epoch_state c)) i) ∧
  clients (epoch_state c') = clients (epoch_state c).
Proof.
  intros Hwf Hfirst Hr Hrun. unfold start_round_train in Hrun. peel Hrun. cbn zeta in Hrun.
  rewrite Hfirst in Hrun. unfold current_round in Hr. rewrite Hr in Hrun. peel Hrun.
  cbn [unwrap mbind res_bind] in Ha. destruct a as [[h hh] d].
  apply res_bind_Ok in Ha as (tok & [-> _]%umul_Ok & Ha).
  apply res_bind_Ok in Ha as (hd & [-> _]%uadd_Ok & Ha).
  apply res_bind_Ok in Ha as (hx & [-> _]%uadd_Ok & Ha).
  apply res_bind_Ok in Ha as (dx & [-> _]%uadd_Ok & Ha). injection Ha as <- <- <-.
  assert (Hl4 : zlen (rounds (epoch_state c)) = 4)
    by (destruct Hwf as (Hl & _); unfold zlen; by rewrite Hl).
  rewrite Hl4 in Hrun. set (nh := (rounds_head (epoch_state c) + 1) mod 4) in *.
  assert (Hnh : 0 <= nh < 4) by by apply Z.mod_pos_bound.
  rewrite (M_bind_run _ _ _ _ _ (set_round_run nh _ c ltac:(lia))) in Hrun.
  rewrite bind_modify in Hrun. apply change_state_Ok in Hrun as [_ ->].
  unfold current_round; simpl. rewrite znth_zset_eq by lia.
  assert (as_u16 (zlen (clients (epoch_state c))) = zlen (clients (epoch_state c))) as ->.
  { destruct Hwf as (_ & _ & Hm & _). unfold as_u16, zlen, SOLANA_MAX_NUM_CLIENTS in *.
    apply Z.mod_small. lia. }
  split; [done|]. split; [done|]. split; [|done].
  intros i Hi Hi0. unfold znth, zset. rewrite (proj2 (Z.ltb_ge _ _)) by done.
  apply list_lookup_insert_ne. lia.
Qed.

(** [previous_round] after the head has moved on by one. *)
Lemma previous_round_prev c r r' h : length (rounds (epoch_state c)) = NUM_STORED_ROUNDS →
  0 <= h < 4 → rounds_head (epoch_state c) = (h + 1) mod 4 →
  znth (rounds (epoch_state c)) h = Some r → current_round c = Some r' → height r' ≠ 0 →
  previous_round c = Some r.
Proof.
  intros Hl Hh Hhd Hr Hcr Hne. unfold previous_round. rewrite Hcr.
  rewrite (proj2 (Z.eqb_neq (height r') 0)) by done. rewrite andb_false_r, Hhd.
  destruct (Z.eqb_spec ((h + 1) mod 4) 0) as [Hz|Hz].
  - assert (h = 3) as -> by (destruct (decide (h = 3)); [done|];
      rewrite Z.mod_small in Hz by lia; lia). done.
  - rewrite Z.mod_small by (destruct (decide (h = 3)) as [->|]; [done|lia]).
    by replace (h + 1 - 1) with h by lia.
Qed.

End NextRound.

(** ** Health checks *)
Section Health.
Context {H : HashFns}.

(** Health depends on the signer only. *)
#[global] Instance trainer_healthy_proper :
  Proper ((≡) ==> (=) ==> (=)) (trainer_healthy (H:=H)).
Proof.
  intros i i' Hi c c' ->. unfold trainer_healthy, trainer_healthy_score_by_witnesses.
  by rewrite Hi.
Qed.

(** An unhealthy verdict is about a trainer of the current list that the witnesses
    of the previous round did not report. *)
Lemma healthy_false i p c : healthy i p c = Ok false →
  ∃ x, znth (clients (epoch_state c)) (cp_index p) = Some x ∧ id x ≡ i ∧
    cp_committee p = Trainer ∧ trainer_healthy (id x) c = Ok false.
Proof.
  intros Hh. unfold healthy in Hh.
  apply res_bind_Ok in Hh as (round & _ & Hh). cbn zeta in Hh.
  destruct (_ <? _); [|done]. apply res_bind_Ok in Hh as (x & _ & Hh).
  apply res_bind_Ok in Hh as (sel & _ & Hh).
  destruct (id_eqb (id x) i) eqn:Hid; cbn [negb] in Hh; [|done]. apply id_eqb_equiv in Hid.
  apply res_bind_Ok in Hh as (ok & Hok & Hh). destruct ok; cbn [negb] in Hh; [|done].
  unfold verify_committee_for_client in Hok.
  destruct (verify_client _ _ _) eqn:Hv; [|done].
  apply verify_client_spec in Hv as (y & Hy & Hyx). exists y. split; [done|].
  split; [by rewrite Hyx|]. destruct (cp_committee p); try done. by rewrite Hyx.
Qed.

(** What [drop_clients] does to the client at [j]. *)
Definition drop_at (ps : list CommitteeProof) (j : nat) (x : Client) : Client :=
  if existsb (λ p, Z.to_nat (cp_index p) =? j)%nat ps && bool_decide (state x = Healthy)
  then set_state Dropped x else x.

Lemma drop_clients_clients ps d c c' n : drop_clients ps d c = (Ok n, c') →
  ∀ j, clients (epoch_state c') !! j = drop_at ps j <$> clients (epoch_state c) !! j.
Proof.
  revert d c. induction ps as [|p ps IH]; intros d c Hrun j; cbn [drop_clients] in Hrun.
  { apply mret_Ok in Hrun as [_ ->]. by destruct (_ !! j). }
  peel Hrun. rewrite (IH _ _ Hrun j). clear IH Hrun. unfold drop_client in Ha. do 2 peel Ha.
  apply unwrap_Ok, znth_lookup in Ha0. unfold drop_at. cbn [existsb].
  destruct (bool_decide (state a0 = Healthy)) eqn:Hst; bool_prop.
  - peel Ha. apply lift_Ok in Ha as [_ ->]. cbn [epoch_state on_epoch set_epoch_state clients
      set_clients].
    destruct (Nat.eqb_spec (Z.to_nat (cp_index p)) j) as [<-|Hne].
    + rewrite list_lookup_alter_eq, Ha0. simpl. rewrite (bool_decide_eq_true_2 (state a0 = _)) by done.
      by rewrite andb_false_r.
    + rewrite list_lookup_alter_ne by done. done.
  - apply mret_Ok in Ha as [_ ->].
    destruct (Nat.eqb_spec (Z.to_nat (cp_index p)) j) as [<-|Hne]; [|done].
    rewrite Ha0. simpl. rewrite (bool_decide_eq_false_2 (state a0 = _)) by done.
    by rewrite andb_false_r.
Qed.

End Health.

(** ** Accepting a witness *)
Section Accept.
Context {H : HashFns} `{!HashLaws H}.

Lemma check_duplicate_no_panic from cl ws :
  Forall (λ w, 0 <= windex w < zlen cl) ws → check_duplicate from cl ws ≠ Panic.
Proof.
  induction 1 as [|w ws Hw _ IH]; [done|]. cbn [check_duplicate].
  destruct (znth_is_Some cl (wp_index (proof w)) Hw) as [x ->]. cbn [unwrap mbind res_bind].
  by destruct (id_eqb _ _).
Qed.

Lemma push_witness_run w c r : epoch_wf (epoch_state c) → current_round c = Some r →
  push_witness w c =
  if (SOLANA_MAX_NUM_WITNESSES <=? length (witnesses r))%nat then (Err WitnessesFull, c)
  else (Ok (zlen (witnesses r) + 1),
        on_epoch (λ e, set_rounds (zset (rounds e) (rounds_head e)
          (set_witnesses (witnesses r ++ [w]) r)) e) c).
Proof.
  intros He Hcr. unfold push_witness. rewrite bind_self.
  unfold current_round_unchecked. rewrite Hcr. cbn [unwrap]. rewrite bind_lift_Ok.
  destruct (_ <=? _)%nat; [done|]. rewrite bind_throw_if_false.
  by rewrite (M_bind_run _ _ _ _ _ (update_current_round_run _ c r He Hcr)).
Qed.

(** The selection of the running round exists and is drawn for the current list. *)
Lemma current_selection c : coord_wf c → config_typed (config c) →
  in_round (run_state c) = true →
  from_coordinator c 0 ≠ Panic ∧
  ∀ s, from_coordinator c 0 = Ok s → selection_wf s ∧ total_nodes s = zlen (clients (epoch_state c)).
Proof.
  intros (He & Hr & _) Hty Hin. destruct (Hr Hin) as (r & Hcr & Hn & Htb & _ & _).
  destruct Hty as (_&_&_&_&_&_&_&Hwn&Hvp). unfold u16, u8 in *.
  assert (Hround : round_at c 0 = Ok r).
  { unfold round_at, current_round. cbn [mbind res_bind]. by rewrite Hcr. }
  unfold from_coordinator. rewrite Hround. cbn [mbind res_bind].
  assert (zlen (clients (epoch_state c)) <= u16_max).
  { destruct He as (_ & _ & Hm & _). unfold zlen, u16_max, SOLANA_MAX_NUM_CLIENTS in *. lia. }
  pose proof (zlen_nonneg (clients (epoch_state c))).
  split; [apply selection_new_no_panic; lia|]. intros s Hs.
  apply selection_new_wf in Hs as (Hs & -> & _); [done|lia..].
Qed.

Lemma witness_no_panic_lemma from w ts c : coord_wf c → config_typed (config c) →
  (witness from w ts c).1 ≠ Panic.
Proof.
  intros Hwf Hty. unfold witness. rewrite bind_self.
  destruct (halted c); [done|]. rewrite bind_throw_if_false.
  destruct (negb (bool_decide (run_state c = RoundWitness)
    || bool_decide (run_state c = RoundTrain))) eqn:Hst; [done|]. rewrite bind_throw_if_false.
  assert (Hin : in_round (run_state c) = true).
  { apply negb_false_iff in Hst. by destruct (run_state c). }
  destruct (current_selection c Hwf Hty Hin) as [Hnp Hsel].
  destruct (from_coordinator c 0) as [s|e|] eqn:Hs; [|done..].
  rewrite bind_lift_Ok. destruct (Hsel s eq_refl) as [Hswf Htot].
  assert (Hver : ∃ b, verify_witness_for_client (E:=CoordinatorError) s from (proof w)
    (clients (epoch_state c)) = Ok b).
  { unfold verify_witness_for_client. destruct (verify_client _ _ _) eqn:Hv; [|by eexists].
    apply verify_client_spec in Hv as (x & Hx%znth_lt & _). apply verify_witness_total.
    - by rewrite Htot.
    - destruct Hwf as ((_ & _ & Hm & _) & _). rewrite Htot.
      unfold zlen, SOLANA_MAX_NUM_CLIENTS in *. lia. }
  destruct Hver as [b ->]. rewrite bind_lift_Ok.
  destruct (negb b || _); [done|]. rewrite bind_throw_if_false.
  destruct Hwf as (He & Hr & _). destruct (Hr Hin) as (r & Hcr & Hn & _ & Hw & _).
  destruct (current_round_run (E:=CoordinatorError) c He) as (r' & Hcr' & Hcu & _).
  assert (r' = r) as -> by (unfold current_round in Hcr'; congruence).
  rewrite Hcr'. cbn [unwrap]. rewrite bind_lift_Ok.
  pose proof (check_duplicate_no_panic from _ _ Hw) as Hd.
  destruct (check_duplicate _ _ _) as [[]|e|]; [|done..]. rewrite bind_lift_Ok.
  unfold mbind, M_bind. rewrite (push_witness_run w c r He Hcr').
  destruct (_ <=? _)%nat; [done|]. destruct (_ && negb _) eqn:Hcond; [|done].
  apply andb_true_iff in Hcond as [_ Hne%negb_true_iff]. bool_prop.
  rewrite change_state_run; done.
Qed.
End Accept.

(** ** Properties *)

(** C1: the invariant [coord_wf] holds in every state that successful calls reach
    from an account whose epoch state is zeroed: the ring of rounds and its head
    are sound, no round stores more than 32 witnesses, every client of the epoch
    fits in the exited list, and while a round runs it was drawn for the current
    clients and its witnesses are distinct members of them. *)
Theorem coordinator_invariant {H : HashFns} (c0 c : Coordinator) :
  epoch_state c0 = EpochState_zeroed → in_round (run_state c0) = false →
  run_state c0 ≠ Finished → reachable c0 c → coord_wf c.
Proof.
  intros He Hr Hf. apply reachable_wf, coord_wf_intro; [|done|done].
  rewrite He. exact EpochState_zeroed_wf.
Qed.

Lemma coordinator_invariant_witness :
  reachable (H:=std_hashes) Sample.fresh Sample.training ∧ coord_wf Sample.training.
Proof.
  assert (Hr : reachable (H:=std_hashes) Sample.fresh Sample.training).
  { eapply (@reach_step std_hashes _ Sample.warming _ (OTick None 300 7));
      [|vm_compute; reflexivity].
    eapply (@reach_step std_hashes _ Sample.fresh _ (OTick (Some [Sample.node 1]) 200 7));
      [apply reach_refl|vm_compute; reflexivity]. }
  split; [exact Hr|].
  apply (@coordinator_invariant std_hashes Sample.fresh Sample.training); [reflexivity..| |exact Hr].
  discriminate.
Defined.

(** C2: in a well-formed state whose counters are away from the ends of their types,
    [tick] returns (no overflow, no failed [unwrap], no out-of-range round, no
    [change_state] assertion) unless the run is halted, where it returns [Halted]
    and changes nothing. *)
Theorem tick_total {H : HashFns} new ts seed (c : Coordinator) :
  coord_wf c → arith_ok c →
  if halted c then tick new ts seed c = (Err Halted, c)
  else ∃ t c', tick new ts seed c = (Ok t, c') ∧ coord_wf c'.
Proof.
  intros Hwf Har. destruct (halted c) eqn:Hh.
  - unfold tick. rewrite bind_self. unfold halted in Hh. by destruct (run_state c).
  - destruct (tick_total_lemma new ts seed c Hwf Har Hh) as (t & c' & Hrun).
    exists t, c'. split; [done|]. by eapply tick_wf.
Qed.

Lemma tick_total_witness :
  ∃ t c', tick None 400 9 Sample.training = (Ok t, c') ∧ coord_wf c'.
Proof.
  apply (tick_total (H:=std_hashes) None 400 9 Sample.training Sample.training_wf).
  exact Sample.training_arith.
Defined.

(** A tick moves the run only along the edges of the state machine
    (waiting -> warmup -> train <-> witness -> cooldown -> waiting, finished or
    paused, and warmup back to waiting). *)
Theorem tick_follows_state_machine {H : HashFns} new ts seed (c c' : Coordinator) t :
  coord_wf c → tick new ts seed c = (Ok t, c') →
  tick_edge (run_state c) (run_state c') = true.
Proof. apply tick_edges. Qed.

Lemma tick_follows_state_machine_witness :
  tick_edge (run_state Sample.warming) (run_state Sample.training) = true.
Proof.
  apply (tick_follows_state_machine (H:=std_hashes) None 300 7 Sample.warming Sample.training
    Ticked Sample.warming_wf). vm_compute. reflexivity.
Defined.

(** C16: an epoch cannot stay in its rounds for ever: whatever calls are interleaved
    (witnesses, health checks, checkpoints, withdrawals, ejections, pauses), a run
    that stays in RoundTrain or RoundWitness contains at most
    [2 * (total_steps - step) + 1] ticks whose timeout has passed. *)
Theorem epoch_leaves_rounds {H : HashFns} (c c' : Coordinator) n :
  coord_wf c → round_run c n c' →
  n <= 2 * Z.max 0 (total_steps (config c) - step (progress c)) + 1.
Proof.
  intros Hwf Hr. pose proof (round_run_bound c n c' Hwf Hr) as Hb.
  assert (0 <= rounds_measure c') by (unfold rounds_measure; destruct (bool_decide _); lia).
  revert Hb. unfold rounds_measure at 2. destruct (bool_decide _); lia.
Qed.

Lemma epoch_leaves_rounds_witness :
  0 + 1 <= 2 * Z.max 0 (total_steps (config Sample.training) - step (progress Sample.training)) + 1.
Proof.
  set (c' := (tick None 400 9 Sample.training).2).
  apply (@epoch_leaves_rounds std_hashes Sample.training c' _ Sample.training_wf).
  apply (@rr_cons std_hashes Sample.training (OTick None 400 9) c' 0 c');
    [reflexivity|vm_compute; reflexivity|]. apply rr_nil. reflexivity.
Defined.

(** C15: [witness] never panics in a well-formed state; when it accepts, the sender is
    the client at the claimed index, the claim is the one the round's selection
    computes and makes the sender a witness, nobody was stored twice, the witness
    is appended to the current round, and the run leaves the training phase exactly
    when the last awaited witness arrives. *)
Theorem witness_accepts_only_the_committee {H : HashFns} `{!HashLaws H} from w ts
    (c : Coordinator) :
  coord_wf c → config_typed (config c) →
  (witness from w ts c).1 ≠ Panic ∧
  ∀ c', witness from w ts c = (Ok tt, c') →
    ∃ s r x, from_coordinator c 0 = Ok s ∧ current_round c = Some r ∧
      znth (clients (epoch_state c)) (windex w) = Some x ∧ id x ≡ from ∧
      get_witness s (windex w) = @Ok unit _ (proof w) ∧ is_true (wp_witness (proof w)) = true ∧
      windex w ∉ (windex <$> witnesses r) ∧
      current_round c' = Some (set_witnesses (witnesses r ++ [w]) r) ∧
      run_state c' = (if zlen (witnesses r) + 1 =? effective_witness_nodes c
                      then RoundWitness else run_state c).
Proof.
  intros Hwf Hty. split; [by apply witness_no_panic_lemma|]. intros c' Hrun.
  assert (He := proj1 Hwf). unfold witness in Hrun. do 6 peel Hrun.
  apply orb_false_iff in Ha3 as [->%negb_false_iff Htrue].
  assert (Hin : in_round (run_state c) = true).
  { apply negb_false_iff in Ha0. by destruct (run_state c). }
  destruct (current_selection c Hwf Hty Hin) as [_ Hsel].
  destruct (Hsel _ Ha1) as [Hswf Htot]. rename a1 into s.
  destruct (current_round_run (E:=unit) c He) as (r & Hcr & _ & _). rewrite Hcr in Hrun.
  cbn [unwrap] in Hrun. rewrite bind_lift_Ok in Hrun. do 2 peel Hrun.
  apply push_witness_Ok with (r:=r) in Ha4 as (Hlen & -> & ->); [|done..].
  apply check_duplicate_Ok in Ha3. unfold verify_witness_for_client in Ha2.
  destruct (verify_client from _ _) eqn:Hv; [|done].
  apply verify_client_spec in Hv as (x & Hx & Hid). assert (Hidx := znth_lt _ _ _ Hx).
  exists s, r, x. split_and!; try done.
  - apply (verify_witness_run (E:=CoordinatorError) s (proof w)); [by rewrite Htot| |done].
    destruct He as (_ & _ & Hm & _). rewrite Htot. unfold zlen, SOLANA_MAX_NUM_CLIENTS in *. lia.
  - unfold is_true. by rewrite Htrue.
  - intros (w' & Heq & Hw')%list_elem_of_fmap. rewrite list.Forall_forall in Ha3.
    destruct (Ha3 w' Hw') as (x' & Hx' & Hne). unfold windex in *. rewrite <-Heq in Hx'. congruence.
  - assert (Hset := znth_zset_eq (rounds (epoch_state c)) _
      (set_witnesses (witnesses r ++ [w]) r) (epoch_wf_head _ He)).
    destruct (_ && _); [apply change_state_Ok in Hrun as [_ ->]|apply mret_Ok in Hrun as [_ ->]];
      exact Hset.
  - destruct (_ =? _); cbn [andb] in Hrun; [|by apply mret_Ok in Hrun as [_ ->]].
    destruct (bool_decide (run_state c = RoundWitness)) eqn:Hb; cbn [negb] in Hrun.
    + apply mret_Ok in Hrun as [_ ->]. bool_prop. done.
    + by apply change_state_Ok in Hrun as [_ ->].
Qed.

Lemma witness_accepts_only_the_committee_witness :
  let w := Sample.vote_of 0 in
  ∃ c', @witness zero_hashes (Sample.node 1) w 310 Sample.training = (Ok tt, c') ∧
    ∃ s r x, @from_coordinator zero_hashes Sample.training 0 = Ok s ∧
      current_round Sample.training = Some r ∧
      znth (clients (epoch_state Sample.training)) (windex w) = Some x ∧ id x ≡ Sample.node 1 ∧
      @get_witness zero_hashes s unit (windex w) = Ok (proof w) ∧
      is_true (wp_witness (proof w)) = true ∧
      windex w ∉ (windex <$> witnesses r) ∧
      current_round c' = Some (set_witnesses (witnesses r ++ [w]) r) ∧
      run_state c' = (if zlen (witnesses r) + 1 =? effective_witness_nodes Sample.training
                      then RoundWitness else run_state Sample.training).
Proof.
  intros w. exists (@witness zero_hashes (Sample.node 1) w 310 Sample.training).2.
  assert (Hrun : @witness zero_hashes (Sample.node 1) w 310 Sample.training =
    (Ok tt, (@witness zero_hashes (Sample.node 1) w 310 Sample.training).2))
    by (vm_compute; reflexivity).
  split; [exact Hrun|].
  exact (proj2 (@witness_accepts_only_the_committee zero_hashes zero_hashes_laws (Sample.node 1)
    w 310 Sample.training Sample.training_wf (proj1 Sample.training_arith)) _ Hrun).
Defined.

(** C14: when a due witness tick starts another round, that round comes right after
    the old one: its data begins where the old batch ends, its height is one more,
    it stores no witnesses yet, it is drawn for exactly the clients that were still
    healthy, and the old round, with its witnesses, is the new previous round. *)
Theorem next_round_continues ts seed (c c' : Coordinator) t r :
  coord_wf c → run_state c = RoundWitness → current_round c = Some r → 0 <= height r →
  tick None ts seed c = (Ok t, c') → run_state c' = RoundTrain →
  let healthy_clients := filter (λ x, state x = Healthy) (clients (epoch_state c)) in
  clients (epoch_state c') = healthy_clients ∧
  current_round c' = Some (mkRound []
    (data_index r + get_batch_size (config c) (data_index r * get_sequence_length c))
    seed (height r + 1) (zlen healthy_clients) 0) ∧
  previous_round c' = Some r.
Proof.
  intros (He & _) Hs Hr Hh Hrun Hs'. cbn zeta. unfold tick in Hrun. peel Hrun. rewrite Hs in Hrun.
  unfold tick_round_witness in Hrun. do 3 peel Hrun. apply mret_Ok in Hrun as [_ ->].
  rename Ha0 into Hrun. destruct a; cbn [negb] in Hrun;
    [|apply mret_Ok in Hrun as [_ ->]; by rewrite Hs in Hs'].
  do 4 peel Hrun. cbn zeta in Hrun. peel Hrun. apply move_clients_wf in Ha2 as [He2 ->]; [|done].
  assert (Hcool : ∀ cc ccc v, epoch_wf (epoch_state cc) → start_cooldown ts cc = (Ok v, ccc) →
    run_state ccc = Cooldown).
  { intros cc ccc v Hw Hc. by apply start_cooldown_wf in Hc as [_ ->]. }
  destruct (_ =? 0).
  { peel Hrun. rewrite withdraw_all_run in Ha2. injection Ha2 as <- <-.
    apply Hcool in Hrun; [congruence|]. by apply withdraw_all_wf. }
  do 2 peel Hrun. apply set_last_step_Ok in Ha2 as (l & -> & _).
  destruct (_ && _); [apply Hcool in Hrun; [congruence|done]|].
  peel Hrun. destruct a4; [apply Hcool in Hrun; [congruence|done]|].
  assert (He1 : epoch_wf (epoch_state c1))
    by (apply start_round_train_Ok in Hrun as [? _]; [done|done|lia]).
  eapply start_round_train_next in Hrun as (Hcr & Hhd & Hothers & Hcl); [|done|done|exact Hr].
  split; [exact Hcl|]. split; [exact Hcr|].
  assert (Hhead : 0 <= rounds_head (epoch_state c) < 4) by apply He.
  eapply (previous_round_prev _ r _ (rounds_head (epoch_state c))); [|done|exact Hhd| |exact Hcr|].
  - apply He1.
  - rewrite Hothers; [exact Hr| |lia]. simpl.
    destruct (decide (rounds_head (epoch_state c) = 3)) as [->|]; [done|].
    rewrite Z.mod_small; lia.
  - simpl. lia.
Qed.

Lemma next_round_continues_witness :
  previous_round Sample.next =
    Some (mkRound [Sample.vote_of 0] 0 7 0 1 0) ∧
  data_index (default Round_default (current_round Sample.next)) = 4.
Proof.
  split; [|vm_compute; reflexivity].
  apply (next_round_continues 330 11 Sample.witnessed Sample.next Ticked
    (mkRound [Sample.vote_of 0] 0 7 0 1 0) Sample.witnessed_wf);
    [vm_compute; reflexivity|vm_compute; reflexivity|simpl; lia|vm_compute; reflexivity
    |vm_compute; reflexivity].
Defined.

(** [health_check] drops a client only if the caller named it with a valid proof,
    it was a trainer of the previous round, and too few of that round's witnesses
    reported it; every other client is left exactly as it was. *)
Theorem health_check_drops_only_unreported_trainers {H : HashFns} from checks (c c' : Coordinator) n :
  health_check from checks c = (Ok n, c') →
  ∀ j x', clients (epoch_state c') !! j = Some x' →
    ∃ x, clients (epoch_state c) !! j = Some x ∧
      (x' = x ∨
       (x' = set_state Dropped x ∧ state x = Healthy ∧
        ∃ i p, (i, p) ∈ checks ∧ Z.to_nat (cp_index p) = j ∧ id x ≡ i ∧
          cp_committee p = Trainer ∧ trainer_healthy (id x) c = Ok false)).
Proof.
  intros Hrun j x' Hx'. unfold health_check in Hrun. do 5 peel Hrun.
  apply health_checks_read in Ha2 as [-> Hall].
  rewrite (drop_clients_clients _ _ _ _ _ Hrun j) in Hx'.
  destruct (clients (epoch_state c) !! j) as [x|] eqn:Hx; [|done].
  exists x. split; [done|]. injection Hx' as <-. unfold drop_at.
  destruct (existsb _ _) eqn:Hex; cbn [andb]; [|by left].
  case_bool_decide as Hst; [right|by left]. split; [done|]. split; [done|].
  apply existsb_exists in Hex as (p & Hin & Hj%Nat.eqb_eq).
  apply list_elem_of_In, list_elem_of_fmap in Hin as ([i p'] & -> & Hin).
  rewrite list.Forall_forall in Hall. specialize (Hall _ Hin). simpl in Hall.
  apply healthy_false in Hall as (y & Hy%znth_lookup & Hyi & Hco & Hth).
  simpl in Hj. rewrite Hj in Hy. simplify_eq. by exists i, p'.
Qed.

(** ** Quorum *)

(** The quorum of [n] witnesses. *)
Definition quorum_of (n : Z) : Z := if n <=? 2 then n else if n =? 3 then 2 else 2 * n / 3.

Definition quorum_float (n : Z) : Z :=
  Z.max (f64_as_unsigned u16_max (f64_mul (f64_of_Z n) WITNESS_QUORUM_RAIO)) 1.

Lemma quorum_table :
  forallb (λ n, quorum_float n =? 2 * n / 3) (seqZ 4 29) = true.
Proof. vm_compute. reflexivity. Qed.

Lemma witness_quorum_value {E} n c :
  let nodes := if witness_nodes (config c) =? 0 then n else witness_nodes (config c) in
  1 <= nodes <= Z.of_nat SOLANA_MAX_NUM_WITNESSES →
  @witness_quorum E n c = Ok (quorum_of nodes).
Proof.
  cbn zeta. unfold witness_quorum. set (k := if _ =? 0 then _ else _). intros Hk.
  change (Z.of_nat SOLANA_MAX_NUM_WITNESSES) with 32 in Hk. unfold quorum_of.
  destruct (decide (k <= 3)) as [Hs|Hl].
  - assert (k = 1 ∨ k = 2 ∨ k = 3) as [-> | [-> | ->]] by lia; reflexivity.
  - assert (quorum_float k = 2 * k / 3) as Hq.
    { pose proof quorum_table as Ht. rewrite forallb_forall in Ht.
      apply Z.eqb_eq, Ht, list_elem_of_In, elem_of_seqZ. lia. }
    rewrite (proj2 (Z.leb_gt k 2)), (proj2 (Z.eqb_neq k 3)), <-Hq by lia.
    unfold quorum_float. clearbody k. destruct k as [|p|p]; [lia| |lia].
    destruct p as [[p|p|]|[p|p|]|]; try reflexivity; lia.
Qed.

(** For every number of witnesses a run can have (1 to 32) the quorum computed in
    floating point is [min(n, 2)] up to three witnesses and [floor(2 n / 3)] above,
    and it is a strict majority, so that two quorums share a witness, for every such
    number except four, where two of four suffice. *)
Theorem witness_quorum_exact n (c : Coordinator) :
  let nodes := if witness_nodes (config c) =? 0 then n else witness_nodes (config c) in
  1 <= nodes <= Z.of_nat SOLANA_MAX_NUM_WITNESSES →
  ∃ q, @witness_quorum unit n c = Ok q ∧
    q = (if nodes <=? 2 then nodes else if nodes =? 3 then 2 else 2 * nodes / 3) ∧
    1 <= q <= nodes ∧ (nodes < 2 * q ↔ nodes ≠ 4).
Proof.
  cbn zeta. intros Hk. eexists. split; [by apply witness_quorum_value|]. split; [done|].
  change (Z.of_nat SOLANA_MAX_NUM_WITNESSES) with 32 in Hk.
  revert Hk. set (k := if _ =? 0 then _ else _). clearbody k. intros Hk. unfold quorum_of.
  destruct (Z.leb_spec k 2); [lia|]. destruct (Z.eqb_spec k 3); [lia|].
  pose proof (Z.div_mod (2 * k) 3). pose proof (Z.mod_pos_bound (2 * k) 3). lia.
Qed.

Lemma witness_quorum_exact_witness :
  ∃ q, @witness_quorum unit 4 Sample.training = Ok q ∧
    q = 1 ∧ 1 <= q <= 1 ∧ (1 < 2 * q ↔ 1 ≠ 4).
Proof.
  apply (witness_quorum_exact 4 Sample.training). vm_compute. split; discriminate.
Defined.

(** ** Larger sample runs *)
Module Runs.
Import Sample.

Definition run_all (ops : list op) (c : Coordinator) : Coordinator :=
  foldl (λ c o, (@run_op zero_hashes o c).2) c ops.
Definition all_ok (ops : list op) (c : Coordinator) : bool :=
  (foldl (λ '(b, c) o, let '(r, c') := @run_op zero_hashes o c in (b && is_ok r, c'))
     (true, c) ops).1.

Lemma run_all_reachable ops c0 c : @reachable zero_hashes c0 c → all_ok ops c = true →
  @reachable zero_hashes c0 (run_all ops c).
Proof.
  unfold all_ok.
  assert (Hf : ∀ ops c, (foldl (λ '(b, c) o, let '(r, c') := @run_op zero_hashes o c in
    (b && is_ok r, c')) (false, c) ops).1 = false).
  { intros os. induction os as [|o os IH]; intros d; [done|]. simpl.
    destruct (run_op o d) as [r d']. apply IH. }
  revert c. induction ops as [|o ops IH]; intros c Hc Hok; [done|]. simpl in *.
  destruct (run_op o c) as [r c'] eqn:Hr. destruct r as [[]| |]; simpl in Hok;
    [|by rewrite Hf in Hok..].
  apply IH; [|done]. by eapply reach_step.
Qed.

(** Two nodes, one witness per round whose filters are empty. *)
Definition two_rounds : list op :=
  [OTick (Some [node 1; node 2]) 200 7; OTick None 300 7;
   OWitness (node 1) (vote_of 0) 310; OTick None 330 8;
   OWitness (node 1) (vote_of 0) 340; OTick None 360 9].
Definition third_round : Coordinator := run_all two_rounds fresh.

(** Three nodes, nobody configured to witness, still warming up. *)
Definition open_cfg : CoordinatorConfig := mkConfig 100 30 60 10 0 600 1000 2 2 0 4 4 0 5.
Definition fresh3 : Coordinator := set_config open_cfg fresh.

Definition shrinking_warmup : list op :=
  [OTick (Some [node 1; node 2; node 3]) 200 7;
   OWarmupWitness (node 3) (vote_of 2) 210 7;
   OEject 0;
   OTick None 220 7].
Definition shrunk : Coordinator := run_all shrinking_warmup fresh3.

Lemma shrunk_reachable : @reachable zero_hashes fresh3 shrunk.
Proof. apply run_all_reachable; [apply reach_refl|vm_compute; reflexivity]. Qed.

(** The same with the second node as the early witness. *)
Definition renamed : Coordinator := run_all
  [OTick (Some [node 1; node 2; node 3; node 4]) 200 7;
   OWarmupWitness (node 2) (vote_of 1) 210 7; OEject 0; OTick None 220 7] fresh3.

Lemma renamed_reachable : @reachable zero_hashes fresh3 renamed.
Proof. apply run_all_reachable; [apply reach_refl|vm_compute; reflexivity]. Qed.

(** Three nodes in training, the middle one ejected, then the next round. *)
Definition before_exit : Coordinator := run_all
  [OTick (Some [node 1; node 2; node 3]) 200 7; OTick None 400 7;
   OWitness (node 1) (vote_of 0) 410; OEject 1; OTick None 470 7] fresh3.
Definition after_exit : Coordinator := (tick None 490 8 before_exit).2.

Lemma fresh3_wf : coord_wf fresh3.
Proof. apply coord_wf_intro; [exact EpochState_zeroed_wf|done..]. Qed.

Lemma before_exit_reachable : @reachable zero_hashes fresh3 before_exit.
Proof. apply run_all_reachable; [apply reach_refl|vm_compute; reflexivity]. Qed.

Lemma before_exit_wf : coord_wf before_exit.
Proof. exact (@reachable_wf zero_hashes _ _ fresh3_wf before_exit_reachable). Qed.

End Runs.

Lemma health_check_drops_only_unreported_trainers_witness :
  let checks := [(Sample.node 2, mkCommitteeProof Trainer 1 1)] in
  ∃ n c', @health_check zero_hashes (Sample.node 1) checks Runs.third_round = (Ok n, c') ∧ n = 1 ∧
  ∀ j x', clients (epoch_state c') !! j = Some x' →
    ∃ x, clients (epoch_state Runs.third_round) !! j = Some x ∧
      (x' = x ∨
       (x' = set_state Dropped x ∧ state x = Healthy ∧
        ∃ i p, (i, p) ∈ checks ∧ Z.to_nat (cp_index p) = j ∧ id x ≡ i ∧
          cp_committee p = Trainer ∧ @trainer_healthy zero_hashes (id x) Runs.third_round = Ok false)).
Proof.
  intros checks.
  exists 1, (@health_check zero_hashes (Sample.node 1) checks Runs.third_round).2.
  assert (Hrun : @health_check zero_hashes (Sample.node 1) checks Runs.third_round =
    (Ok 1, (@health_check zero_hashes (Sample.node 1) checks Runs.third_round).2))
    by (vm_compute; reflexivity).
  split; [exact Hrun|]. split; [reflexivity|].
  exact (@health_check_drops_only_unreported_trainers zero_hashes (Sample.node 1) checks
    Runs.third_round _ 1 Hrun).
Defined.

(** A stored warmup witness keeps the index its sender had, but clients may leave
    during warmup. There is a reachable warmup state in which every well-formed
    warmup witness, from any remaining client, panics on the stored index. *)
Theorem warmup_witness_stale_index_panics : ∃ c : Coordinator,
  @reachable zero_hashes Runs.fresh3 c ∧ run_state c = Warmup ∧
  zlen (clients (epoch_state c)) = 2 ∧
  ∀ from w ts seed,
    verify_client from (wp_index (proof w)) (clients (epoch_state c)) = true →
    (warmup_witness from w ts seed c).1 = Panic.
Proof.
  exists Runs.shrunk. split; [exact Runs.shrunk_reachable|].
  split; [vm_compute; reflexivity|]. split; [vm_compute; reflexivity|].
  intros from w ts seed Hv. unfold warmup_witness. rewrite bind_self.
  assert (Hst : run_state Runs.shrunk = Warmup) by (vm_compute; reflexivity).
  unfold halted. rewrite Hst, bind_throw_if_false.
  rewrite bool_decide_eq_false_2, bool_decide_eq_true_2 by done. cbn [negb].
  rewrite bind_throw_if_false, Hv. cbn [negb]. rewrite bind_throw_if_false.
  assert (Hcr : current_round Runs.shrunk = Some (mkRound [Sample.vote_of 2] 0 0 0 0 0))
    by (vm_compute; reflexivity).
  rewrite Hcr. cbn [unwrap]. rewrite bind_lift_Ok. cbn [witnesses check_duplicate].
  assert (Hn : znth (clients (epoch_state Runs.shrunk)) 2 = None) by (vm_compute; reflexivity).
  unfold Sample.vote_of. cbn [proof wp_index]. rewrite Hn. done.
Qed.

(** The stale index can also name somebody else: after the first client left, the
    third one, which never sent a warmup witness, is refused as a duplicate, and the
    one that did send is accepted a second time. *)
Theorem warmup_witness_stale_index_misattributes : ∃ c : Coordinator,
  @reachable zero_hashes Runs.fresh3 c ∧ run_state c = Warmup ∧
  (λ x, id x) <$> clients (epoch_state c) = [Sample.node 2; Sample.node 3; Sample.node 4] ∧
  (warmup_witness (Sample.node 3) (Sample.vote_of 1) 230 7 c).1 = Err DuplicateWitness ∧
  (warmup_witness (Sample.node 2) (Sample.vote_of 0) 230 7 c).1 = Ok tt.
Proof.
  exists Runs.renamed. split; [exact Runs.renamed_reachable|].
  split_and!; vm_compute; reflexivity.
Qed.

(** ** Historical clients *)

Lemma znth_app_l {A} (l k : list A) i : 0 <= i < zlen l → znth (l ++ k) i = znth l i.
Proof.
  unfold znth, zlen. intros Hi. rewrite (proj2 (Z.ltb_ge _ _)) by lia. apply lookup_app_l. lia.
Qed.

Lemma historical_kept c kept gone ex i : clients (epoch_state c) = kept →
  exited_clients (epoch_state c) = ex ++ gone → 0 <= i < zlen kept + zlen gone →
  get_client_at_historical_index c i (zlen kept + zlen gone) = znth (kept ++ gone) i.
Proof.
  intros Hk Hg Hi. unfold get_client_at_historical_index. rewrite Hk, Hg.
  destruct (Z.ltb_spec i (zlen kept)); [by rewrite znth_app_l by lia|].
  rewrite (proj2 (Z.ltb_lt _ _)) by lia. unfold znth, zlen in *.
  rewrite !(proj2 (Z.ltb_ge _ _)) by lia. rewrite reverse_app.
  rewrite lookup_app_l by (rewrite length_reverse; lia).
  rewrite reverse_lookup by lia. rewrite lookup_app_r by lia. f_equal. lia.
Qed.

Lemma omap_seqZ_znth {A} (l : list A) (f : Z → option A) :
  (∀ i, 0 <= i < zlen l → f i = znth l i) → omap f (seqZ 0 (zlen l)) = l.
Proof.
  revert f. induction l as [|x l IH] using rev_ind; intros f Hf; [done|].
  unfold zlen in *. rewrite length_app in *. cbn [length] in *.
  replace (Z.of_nat (length l + 1)) with (Z.of_nat (length l) + 1) by lia.
  rewrite seqZ_app by lia. rewrite omap_app. f_equal.
  - apply IH. intros i Hi. rewrite Hf by lia. apply znth_app_l. done.
  - assert (seqZ (0 + Z.of_nat (length l)) 1 = [Z.of_nat (length l)]) as -> by done.
    cbn [omap list_omap]. rewrite Hf by lia. unfold znth. rewrite (proj2 (Z.ltb_ge _ _)) by lia.
    rewrite Nat2Z.id, list_lookup_middle by done. done.
Qed.

(** After clients have left a round, the historical list for that round's client
    count is the clients that stayed followed by the ones that left, each in their
    old order: the same clients, but not at the index they had during the round. *)
Theorem historical_clients_order h (c : Coordinator) :
  epoch_wf (epoch_state c) →
  let c' := (move_clients_to_exited h c).2 in
  get_historical_clients c' (zlen (clients (epoch_state c))) =
  filter (λ x, state x = Healthy) (clients (epoch_state c)) ++
  (set_exited_height h <$> filter (λ x, state x ≠ Healthy) (clients (epoch_state c))).
Proof.
  intros He. rewrite move_clients_run by done. cbn [snd].
  set (kept := filter (λ x, state x = Healthy) (clients (epoch_state c))).
  set (gone := set_exited_height h <$> filter (λ x, state x ≠ Healthy) (clients (epoch_state c))).
  assert (Hlen : zlen (clients (epoch_state c)) = zlen kept + zlen gone).
  { unfold zlen, kept, gone. rewrite length_fmap.
    pose proof (length_filter_split (λ x, state x = Healthy) (clients (epoch_state c))). lia. }
  unfold get_historical_clients. rewrite Hlen.
  assert (Happ : zlen kept + zlen gone = zlen (kept ++ gone))
    by (unfold zlen; rewrite length_app; lia).
  rewrite Happ. apply omap_seqZ_znth. intros i Hi. rewrite <-Happ in *.
  by apply (historical_kept _ kept gone (exited_clients (epoch_state c))).
Qed.

Lemma historical_clients_order_witness :
  get_historical_clients (move_clients_to_exited 0 Runs.before_exit).2
    (zlen (clients (epoch_state Runs.before_exit))) =
  filter (λ x, state x = Healthy) (clients (epoch_state Runs.before_exit)) ++
  (set_exited_height 0 <$> filter (λ x, state x ≠ Healthy) (clients (epoch_state Runs.before_exit))).
Proof.
  exact (historical_clients_order 0 Runs.before_exit (proj1 Runs.before_exit_wf)).
Defined.

(** The historical lookup does not return the client that was at an index: in a
    reachable run of three nodes whose second node is ejected, the lookup for the
    previous round gives the third node at index 1 and the second at index 2. *)
Theorem historical_index_shifts :
  @reachable zero_hashes Runs.fresh3 Runs.after_exit ∧
  (λ r, clients_len r) <$> previous_round Runs.after_exit = Some 3 ∧
  (λ x, id x) <$> clients (epoch_state Runs.before_exit) =
    [Sample.node 1; Sample.node 2; Sample.node 3] ∧
  (λ x, id x) <$> get_historical_clients Runs.after_exit 3 =
    [Sample.node 1; Sample.node 3; Sample.node 2].
Proof.
  split.
  - eapply (@reach_step zero_hashes _ Runs.before_exit _ (OTick None 490 8));
      [exact Runs.before_exit_reachable|vm_compute; reflexivity].
  - split_and!; vm_compute; reflexivity.
Qed.
