(* ===== verification/Frames.v ===== *)
(** * Framing

    [respects R m]: whenever the method [m] returns [Ok], the states before and
    after it are related by the preorder [R].  With the rules below, what a method
    leaves alone follows from its primitive writes.  [Framing] states which writes the
    coordinator's methods are made of; every method respects every such frame. *)

From stdpp Require Import base tactics list numbers.
From S2P Require Import Prelude FixedVec CoreTypes Hashing CoordinatorState Committee Coordinator.

Open Scope Z_scope.

Definition respects {E S A} (R : relation S) (m : M E S A) : Prop :=
  ∀ s a s', m s = (Ok a, s') → R s s'.

Create HintDb frames.

Section Rules.
Context {E S : Type} (R : relation S) `{!PreOrder R}.

Lemma respects_bind {A B} (m : M E S A) (f : A → M E S B) :
  respects R m → (∀ a, respects R (f a)) → respects R (m ≫= f).
Proof.
  intros Hm Hf s b s' Hrun. apply M_bind_Ok in Hrun as (a & s1 & H1 & H2).
  etrans; [by eapply Hm|by eapply Hf].
Qed.

Lemma respects_ret {A} (a : A) : respects (E:=E) R (mret a).
Proof. by intros s b s' [_ ->]%mret_Ok. Qed.
Lemma respects_self : respects (E:=E) R self.
Proof. by intros s b s' [_ ->]%self_Ok. Qed.
Lemma respects_gets {A} (f : S → A) : respects (E:=E) R (gets f).
Proof. by intros s b s' [_ ->]%gets_Ok. Qed.
Lemma respects_lift {A} (r : res E A) : respects R (lift r).
Proof. by intros s b s' [_ ->]%lift_Ok. Qed.
Lemma respects_asks {A} (f : S → res E A) : respects R (asks f).
Proof. by intros s b s' [_ ->]%asks_Ok. Qed.
Lemma respects_throw {A} (e : E) : respects R (throw (A:=A) e).
Proof. by intros s b s' Hrun%throw_Ok. Qed.
Lemma respects_throw_if b (e : E) : respects R (throw_if b e).
Proof. by intros s u s' [_ ->]%throw_if_Ok. Qed.
Lemma respects_assert b : respects (E:=E) R (assert b).
Proof. by intros s u s' [_ ->]%assert_Ok. Qed.
Lemma respects_modify f : (∀ s, R s (f s)) → respects (E:=E) R (modify f).
Proof. by intros Hf s u s' ->%modify_Ok. Qed.
Lemma respects_whenM b (m : M E S unit) : respects R m → respects R (whenM b m).
Proof. intros Hm. destruct b; [done|apply respects_ret]. Qed.

Lemma respects_forM {A} (l : list A) (f : A → M E S unit) :
  (∀ x, respects R (f x)) → respects R (forM_ l f).
Proof.
  intros Hf. induction l as [|x l IH]; cbn [forM_]; [apply respects_ret|].
  by apply respects_bind.
Qed.

End Rules.

#[export] Hint Resolve respects_ret respects_self respects_gets respects_lift respects_asks
  respects_throw respects_throw_if respects_assert : frames.

(** A call on a field is framed by the frame of the callee. *)
Lemma respects_zoom {E F S T A} (R : relation S) (Q : relation T) get set (ferr : E → F)
    (m : M E T A) :
  respects Q m → (∀ s t, Q (get s) t → R s (set t s)) → respects R (zoom get set ferr m).
Proof. intros Hm HR s a s' (t & Ht & ->)%zoom_Ok. by apply HR, (Hm _ _ _ Ht). Qed.

(** An invariant is the frame that keeps it. *)
Definition kept {S} (P : S → Prop) : relation S := λ s s', P s → P s'.

#[export] Instance kept_preorder {S} (P : S → Prop) : PreOrder (kept P).
Proof. split; unfold kept; [by intros s|]. intros s1 s2 s3 H1 H2 H. auto. Qed.

(** Decomposes a method down to its writes. *)
Ltac frame_step :=
  repeat first
    [ solve [eauto with frames typeclass_instances]
    | apply respects_bind; [typeclasses eauto| |intros ?]
    | apply respects_whenM; [typeclasses eauto|]
    | apply respects_forM; [typeclasses eauto|intros ?]
    | match goal with |- respects _ (match ?x with _ => _ end) => destruct x end ].

(** ** Frames of the coordinator's methods

    A frame is a preorder closed under the writes the methods are made of, ejection
    apart. *)
Class Framing (R : relation Coordinator) : Prop := {
  framing_preorder :: PreOrder R;
  framing_other c c' :
    run_id c' = run_id c → config c' = config c → model c' = model c →
    clients (epoch_state c') = clients (epoch_state c) →
    exited_clients (epoch_state c') = exited_clients (epoch_state c) → R c c';
  framing_checkpoint c f : R c (on_model (λ m, set_checkpoint (f (checkpoint_ (the_llm m))) m) c);
  framing_move h : respects R (move_clients_to_exited h);
  framing_client i s : s ≠ Ejected → respects R (set_client_state i s);
  framing_zeroed c : R c (set_epoch_state EpochState_zeroed c);
  framing_admit c ids : R c (on_epoch (set_clients (Client_new <$> ids)) c)
}.

#[export] Hint Resolve framing_move : frames.
#[export] Hint Extern 3 (respects _ (set_client_state _ _)) =>
  (apply framing_client; discriminate) : frames.

(** The method's writes, one by one. *)
Ltac framing :=
  frame_step; apply respects_modify; intros ?;
  first [apply framing_checkpoint | apply framing_zeroed | apply framing_admit
        | apply framing_other; reflexivity].

Section Methods.
Context {H : HashFns} (R : relation Coordinator) `{!Framing R}.
Notation framed := (respects R).

Lemma change_state_frame ts s : framed (change_state ts s).
Proof. unfold change_state. framing. Qed.
#[local] Hint Resolve change_state_frame : frames.

Lemma start_waiting_frame ts : framed (start_waiting_for_members ts).
Proof. unfold start_waiting_for_members. framing. Qed.

Lemma set_round_frame i r : framed (set_round i r).
Proof. unfold set_round. framing. Qed.
#[local] Hint Resolve start_waiting_frame set_round_frame : frames.

Lemma update_round_frame f : framed (update_current_round f).
Proof. unfold update_current_round. framing. Qed.
#[local] Hint Resolve update_round_frame : frames.

Lemma start_cooldown_frame ts : framed (start_cooldown ts).
Proof. unfold start_cooldown. framing. Qed.

Lemma start_round_train_frame ts seed tb : framed (start_round_train ts seed tb).
Proof. unfold start_round_train. framing. Qed.
#[local] Hint Resolve start_cooldown_frame start_round_train_frame : frames.

Lemma withdraw_frame i : framed (withdraw i).
Proof. unfold withdraw. framing. Qed.

Lemma ignore_err_frame (m : CM unit) : framed m →
  (∀ c e c', m c = (Err e, c') → c' = c) → framed (ignore_err m).
Proof.
  intros Hm He c u c'. unfold ignore_err. destruct (m c) as [[a|e|] c1] eqn:Hrun.
  - intros [= <- <-]. by eapply Hm.
  - intros [= <- <-]. by apply He in Hrun as ->.
  - done.
Qed.

Lemma withdraw_Err i c e c' : withdraw i c = (Err e, c') → c' = c.
Proof.
  unfold withdraw. rewrite bind_self. destruct (znth _ _) as [x|]; [|by intros [= <-]].
  destruct (bool_decide _); [done|by intros [= <-]].
Qed.

Lemma withdraw_all_frame : framed withdraw_all.
Proof.
  unfold withdraw_all. frame_step. apply ignore_err_frame; eauto using withdraw_frame, withdraw_Err.
Qed.

Lemma set_cold_start_frame b : framed (set_cold_start b).
Proof. unfold set_cold_start. framing. Qed.
#[local] Hint Resolve withdraw_all_frame set_cold_start_frame : frames.

Lemma pause_frame ts : framed (pause ts).
Proof. unfold pause. framing. Qed.
Lemma resume_frame ts : framed (resume ts).
Proof. unfold resume. framing. Qed.
Lemma push_witness_frame w : framed (push_witness w).
Proof. unfold push_witness. framing. Qed.
#[local] Hint Resolve push_witness_frame : frames.
Lemma witness_frame i w ts : framed (witness i w ts).
Proof. unfold witness. framing. Qed.
Lemma warmup_witness_frame i w ts seed : framed (warmup_witness i w ts seed).
Proof. unfold warmup_witness. framing. Qed.

Lemma drop_clients_framed ps d : framed (drop_clients ps d).
Proof.
  revert d. induction ps as [|p ps IH]; intros d; cbn [drop_clients]; [frame_step|].
  apply respects_bind; [typeclasses eauto| |done]. unfold drop_client. framing.
Qed.
#[local] Hint Resolve drop_clients_framed : frames.
Lemma health_check_frame i ch : framed (health_check i ch).
Proof. unfold health_check. framing. Qed.

Lemma checkpoint_frame i k r : framed (checkpoint i k r).
Proof.
  unfold checkpoint. frame_step; apply respects_modify; intros c;
    apply (framing_checkpoint c (λ _, _)).
Qed.

Lemma set_last_step_frame ts : framed (set_last_step ts).
Proof. unfold set_last_step. framing. Qed.
Lemma start_warmup_frame ts : framed (start_warmup ts).
Proof. apply change_state_frame. Qed.
#[local] Hint Resolve set_last_step_frame start_warmup_frame : frames.

Lemma tick_frame new ts seed : framed (tick new ts seed).
Proof.
  unfold tick, tick_waiting_for_members, tick_warmup, tick_round_train, tick_round_witness,
    tick_cooldown. framing.
Qed.
End Methods.

#[export] Hint Resolve tick_frame witness_frame warmup_witness_frame health_check_frame
  checkpoint_frame pause_frame resume_frame : frames.

(** ** Two frames *)

(** Same run, same configuration, and the same model up to its checkpoint. *)
Definition same_setup (c c' : Coordinator) : Prop :=
  run_id c' = run_id c ∧ config c' = config c ∧
  ∃ k, model c' = set_checkpoint k (model c).

#[export] Instance same_setup_preorder : PreOrder same_setup.
Proof.
  split.
  - intros c. split_and!; [done..|]. exists (checkpoint_ (the_llm (model c))).
    by destruct (model c) as [[]].
  - intros a b c (E1 & E2 & k & E3) (F1 & F2 & k' & F3). split_and!; [congruence..|].
    exists k'. rewrite F3, E3. by destruct (model a) as [[]].
Qed.

Lemma same_setup_refl c c' : run_id c' = run_id c → config c' = config c →
  model c' = model c → same_setup c c'.
Proof.
  intros E1 E2 E3. split_and!; [done..|]. rewrite E3. exists (checkpoint_ (the_llm (model c))).
  by destruct (model c) as [[]].
Qed.

#[export] Instance same_setup_framing : Framing same_setup.
Proof.
  split; try (intros; by apply same_setup_refl).
  - apply _.
  - intros c f. split_and!; [done..|]. by eexists.
  - intros h c u c'. unfold move_clients_to_exited. destruct (BVec.retain _ _ _) as [[]| |]; try done.
    intros [= <- <-]. by apply same_setup_refl.
  - intros i s _ c u c' ->%modify_Ok. by apply same_setup_refl.
Qed.

(** Everybody the epoch counts as ejected was ejected before. *)
Definition ejected_in (e : CoordinatorEpochState) (i : NodeIdentity) : Prop :=
  ∃ x, x ∈ clients e ++ exited_clients e ∧ state x = Ejected ∧ id x = i.
Definition no_new_ejection (c c' : Coordinator) : Prop :=
  ∀ i, ejected_in (epoch_state c') i → ejected_in (epoch_state c) i.

Lemma exit_unhealthy_Ok {E} h x ex b ex' : @exit_unhealthy E h x ex = Ok (b, ex') →
  (state x = Healthy ∧ b = true ∧ ex' = ex) ∨
  (state x ≠ Healthy ∧ b = false ∧ ex' = ex ++ [set_exited_height h x]).
Proof.
  unfold exit_unhealthy. case_bool_decide as Hs; intros Hrun; run_inv; [by right|left].
  destruct (decide (state x = Healthy)); [done|tauto].
Qed.

(** [retain_exit] without the capacity bound. *)
Lemma retain_exit_Ok {E} h cl ex kept ex' :
  BVec.retain (exit_unhealthy (E:=E) h) cl ex = Ok (kept, ex') →
  kept = filter (λ x, state x = Healthy) cl ∧
  ex' = ex ++ (set_exited_height h <$> filter (λ x, state x ≠ Healthy) cl).
Proof.
  revert ex kept ex'. induction cl as [|x cl IH]; intros ex kept ex' Hrun; cbn [BVec.retain] in Hrun.
  { injection Hrun as <- <-. by rewrite app_nil_r. }
  apply res_bind_Ok in Hrun as ([b ex1] & Hb & Hrun).
  apply res_bind_Ok in Hrun as ([k ex2] & [-> ->]%IH & [= <- <-]). rewrite !filter_cons.
  apply exit_unhealthy_Ok in Hb as [(Hs & -> & ->)|(Hs & -> & ->)].
  - by rewrite decide_True, decide_False by tauto.
  - rewrite decide_False, decide_True by tauto. by rewrite fmap_cons, <-app_assoc.
Qed.

#[export] Instance no_new_ejection_framing : Framing no_new_ejection.
Proof.
  split.
  - split; [by intros c i|]. intros a b c Hab Hbc i Hi. by apply Hab, Hbc.
  - intros c c' _ _ _ E1 E2 i. unfold ejected_in. by rewrite E1, E2.
  - by intros c f i.
  - intros h c u c'. unfold move_clients_to_exited.
    destruct (BVec.retain _ _ _) as [[kept ex]| |] eqn:Hr; try done. intros [= <- <-] i.
    apply retain_exit_Ok in Hr as [-> ->]. intros (x & Hx & Hs & Hi). simpl in Hx.
    rewrite !elem_of_app in Hx. destruct Hx as [Hx|[Hx|Hx]].
    + apply list_elem_of_filter in Hx as [_ Hx]. exists x. rewrite elem_of_app. auto.
    + exists x. rewrite elem_of_app. auto.
    + apply list_elem_of_fmap in Hx as (y & -> & [_ Hy]%list_elem_of_filter).
      exists y. rewrite elem_of_app. auto.
  - intros k s Hs c u c' ->%modify_Ok i (x & Hx & He & Hi). simpl in Hx.
    rewrite elem_of_app in Hx. destruct Hx as [Hx|Hx]; [|exists x; rewrite elem_of_app; auto].
    apply list_elem_of_lookup in Hx as [j Hj].
    destruct (decide (j = Z.to_nat k)) as [->|Hne].
    + rewrite list_lookup_alter_eq in Hj.
      destruct (clients (epoch_state c) !! Z.to_nat k) as [y|]; [|done].
      injection Hj as <-. done.
    + rewrite list_lookup_alter_ne in Hj by done. exists x.
      rewrite elem_of_app. split; [left; by eapply list_elem_of_lookup_2|done].
  - intros c i (x & Hx & _). by apply list_elem_of_In in Hx.
  - intros c ids i (x & Hx & He & Hi). simpl in Hx. rewrite elem_of_app in Hx.
    destruct Hx as [Hx|Hx]; [|exists x; rewrite elem_of_app; auto].
    by apply list_elem_of_fmap in Hx as (y & -> & _).
Qed.
