(* ===== verification/Authorizer.v ===== *)
(** * The authorizer program

    architectures/decentralized/solana-authorizer: an [Authorization] account says
    that a grantor lets a grantee (or anybody, when the grantee is the default
    key) act within a scope, and the grantee may extend it to delegates.  Each
    instruction is its account constraints followed by its processor; a failed
    constraint is [ConstraintRaw]. *)

From stdpp Require Import base tactics list numbers.
From S2P Require Import Prelude CoreTypes.

Open Scope Z_scope.

Definition Pubkey : Type := list Z.
Definition Pubkey_default : Pubkey := replicate 32 0.

Record Authorization := mkAuthorization {
  auth_bump : Z;
  grantor : Pubkey;
  grantee : Pubkey;
  scope : list Z;
  auth_active : bool;
  delegates : list Pubkey;
  grantor_update_unix_timestamp : Z
}.

Inductive AuthorizerError :=
| AuthorizationActiveIsTrue
| AuthorizationClosingConditionsNotReachedYet
| TooManyDelegates
| AuthConstraintRaw.

Definition MAX_DELEGATES : nat := 64.

Definition space_with_discriminator (scope_len delegates_len : Z) : Z :=
  8 + 1 + 32 + 32 + (4 + scope_len * 1) + 1 + (4 + delegates_len * 32) + 8.

Definition is_valid_for (a : Authorization) (g e : Pubkey) (s : list Z) : bool :=
  if negb (auth_active a) then false
  else if negb (bool_decide (grantor a = g)) then false
  else if negb (bool_decide (scope a = s)) then false
  else bool_decide (grantee a = Pubkey_default) || bool_decide (grantee a = e)
       || bool_decide (e ∈ delegates a).

(** [authorization_create]: the account is freshly allocated and zeroed. *)
Definition authorization_create (bump : Z) (grantor_signer : Pubkey) (params_grantee : Pubkey)
    (params_scope : list Z) : Authorization :=
  mkAuthorization bump grantor_signer params_grantee params_scope false [] 0.

Notation AM := (M AuthorizerError Authorization).

Definition authorization_grantor_update (grantor_signer : Pubkey) (params_active : bool)
    (unix_timestamp : Z) : AM unit :=
  a ← self;
  throw_if (negb (bool_decide (grantor a = grantor_signer))) AuthConstraintRaw ;;
  modify (λ a, mkAuthorization (auth_bump a) (grantor a) (grantee a) (scope a) params_active
    (delegates a) unix_timestamp).

Definition set_delegates (d : list Pubkey) (a : Authorization) : Authorization :=
  mkAuthorization (auth_bump a) (grantor a) (grantee a) (scope a) (auth_active a) d
    (grantor_update_unix_timestamp a).

Definition authorization_grantee_update (grantee_signer : Pubkey) (delegates_clear : bool)
    (delegates_added : list Pubkey) : AM unit :=
  a ← self;
  throw_if (negb (bool_decide (grantee a = grantee_signer))) AuthConstraintRaw ;;
  whenM delegates_clear (modify (set_delegates [])) ;;
  a ← self;
  throw_if (MAX_DELEGATES <? length (delegates a) + length delegates_added)%nat TooManyDelegates ;;
  modify (λ a, set_delegates (delegates a ++ delegates_added) a).

(** [authorization_close]: [Ok] lets Anchor close the account. *)
Definition authorization_close (grantor_signer : Pubkey) (unix_timestamp : Z) : AM unit :=
  a ← self;
  throw_if (negb (bool_decide (grantor a = grantor_signer))) AuthConstraintRaw ;;
  throw_if (auth_active a) AuthorizationActiveIsTrue ;;
  throw_if (negb (bool_decide (delegates a = []))
            && (unix_timestamp <?
                Z.min i64_max (grantor_update_unix_timestamp a + 30 * 24 * 60 * 60)))
    AuthorizationClosingConditionsNotReachedYet.

(** ** Histories of an account *)

Inductive auth_call :=
| AGrantorUpdate (signer : Pubkey) (active : bool) (ts : Z)
| AGranteeUpdate (signer : Pubkey) (clear : bool) (added : list Pubkey).

Definition run_auth (c : auth_call) : AM unit :=
  match c with
  | AGrantorUpdate s b ts => authorization_grantor_update s b ts
  | AGranteeUpdate s cl ad => authorization_grantee_update s cl ad
  end.

(** The account after the calls in [h], newest first, each of which succeeded. *)
Inductive auth_history (a0 : Authorization) : list auth_call → Authorization → Prop :=
| ah_nil : auth_history a0 [] a0
| ah_cons h a c a' : auth_history a0 h a → run_auth c a = (Ok tt, a') →
    auth_history a0 (c :: h) a'.

(** The grantor's latest decision, [false] before any. *)
Fixpoint last_decision (h : list auth_call) : bool :=
  match h with
  | [] => false
  | AGrantorUpdate _ b _ :: _ => b
  | _ :: h' => last_decision h'
  end.

(** Keys the grantee signed in as delegates since it last cleared them. *)
Fixpoint endorsed (h : list auth_call) : list Pubkey :=
  match h with
  | [] => []
  | AGranteeUpdate _ true ad :: _ => ad
  | AGranteeUpdate _ false ad :: h' => endorsed h' ++ ad
  | _ :: h' => endorsed h'
  end.

Definition signed_by (g e : Pubkey) (c : auth_call) : Prop :=
  match c with AGrantorUpdate s _ _ => s = g | AGranteeUpdate s _ _ => s = e end.

Lemma auth_history_inv bump g e s h a :
  auth_history (authorization_create bump g e s) h a →
  grantor a = g ∧ grantee a = e ∧ scope a = s ∧ auth_active a = last_decision h ∧
  delegates a = endorsed h ∧ (length (delegates a) ≤ MAX_DELEGATES)%nat ∧
  Forall (signed_by g e) h.
Proof.
  induction 1 as [|h a c a' _ IH Hrun]; [simpl; split_and!; (done || lia)|].
  destruct IH as (<- & <- & <- & Hact & Hdel & Hlen & Hsig).
  destruct c as [sg b ts|sg cl ad]; cbn [run_auth] in Hrun.
  - unfold authorization_grantor_update in Hrun. run_inv. bool_prop. simpl.
    split_and!; try done. by constructor.
  - unfold authorization_grantee_update in Hrun. rewrite bind_self in Hrun.
    apply M_bind_Ok in Hrun as (? & ? & [Hg ->]%throw_if_Ok & Hrun).
    apply negb_false_iff, bool_decide_eq_true in Hg.
    destruct cl; cbn [whenM] in Hrun; run_inv.
    + match goal with Hl : (_ <? _)%nat = false |- _ => apply Nat.ltb_ge in Hl end.
      split_and!; try done. by constructor.
    + match goal with Hl : (_ <? _)%nat = false |- _ => apply Nat.ltb_ge in Hl end.
      rewrite length_app. split_and!; try done; [by f_equal|by constructor].
Qed.

(** Whatever updates succeed on an authorization created by grantor [g] for [e],
    it is valid for a user exactly when the grantor and scope are the original
    ones, the grantor's latest decision is to enable it, and the user is the
    grantee, one of at most 64 keys the grantee itself signed in and did not clear,
    or anybody if the grantee is the default key. Every update was signed by its
    own side. *)
Theorem authorization_soundness bump g e s h a :
  auth_history (authorization_create bump g e s) h a →
  (length (endorsed h) ≤ MAX_DELEGATES)%nat ∧ Forall (signed_by g e) h ∧
  ∀ g' u s', is_valid_for a g' u s' = true ↔
    g' = g ∧ s' = s ∧ last_decision h = true ∧
    (e = Pubkey_default ∨ u = e ∨ u ∈ endorsed h).
Proof.
  intros (<- & <- & <- & Hact & Hdel & Hlen & Hsig)%auth_history_inv.
  rewrite <-Hdel. split; [done|]. split; [done|]. intros g' u s'.
  unfold is_valid_for. rewrite Hact. destruct (last_decision h); simpl; [|naive_solver].
  repeat case_bool_decide; simpl; naive_solver.
Qed.

Lemma authorization_soundness_witness :
  let g := replicate 32 1 in let e := replicate 32 2 in let d := replicate 32 3 in
  ∃ a, auth_history (authorization_create 255 g e [7])
      [AGranteeUpdate e false [d]; AGrantorUpdate g true 5] a ∧
    is_valid_for a g d [7] = true.
Proof.
  intros g e d. eexists.
  assert (Hh : auth_history (authorization_create 255 g e [7])
    [AGranteeUpdate e false [d]; AGrantorUpdate g true 5]
    (mkAuthorization 255 g e [7] true [d] 5)).
  { eapply ah_cons; [eapply ah_cons; [apply ah_nil|reflexivity]|reflexivity]. }
  split; [exact Hh|].
  apply (authorization_soundness 255 g e [7] _ _ Hh).
  split; [reflexivity|]. split; [reflexivity|]. split; [reflexivity|]. right. right.
  apply list_elem_of_here.
Defined.
