(* ===== verification/SolanaCoordinator.v ===== *)
(** * The coordinator program on Solana

    architectures/decentralized/solana-coordinator: the account that wraps the
    coordinator, its list of members with what each has earned and been slashed,
    and the instructions.  A handler is its Anchor account constraints followed by
    its body; Solana keeps its writes only when it returns [Ok] ([transact]).  The
    clock is an argument of the handlers that read it. *)

From stdpp Require Import base tactics list numbers strings.
From S2P Require Import Prelude CoreTypes Hashing CoordinatorState Committee Coordinator.
From S2P Require Import Authorizer.

Open Scope Z_scope.

(** ** Errors *)
Inductive ProgramError :=
| UpdateConfigFinished | UpdateConfigNotHalted | CoordinatorAccountIncorrectSize | ClientsFull
| ConfigSanityCheckFailed | ModelSanityCheckFailed | ProgressSanityCheckFailed
| SignerNotAClient | SignerMismatch | CloseCoordinatorNotHalted
| CoordinatorErr (e : CoordinatorError)
| MoreClientsThanBatches | RunIdInvalidLength
| ConstraintRaw | AccountDiscriminatorAlreadySet.

(** [From<CoordinatorError>]: one variant per error. *)
Definition from_coordinator_error (e : CoordinatorError) : ProgramError := CoordinatorErr e.

(** ** Members *)
Record SolClient := mkSolClient {
  sc_id : NodeIdentity;
  earned : Z;
  slashed : Z;
  active_epoch : Z
}.

Definition set_sc_id (x : NodeIdentity) (s : SolClient) : SolClient :=
  mkSolClient x (earned s) (slashed s) (active_epoch s).
Definition set_earned (x : Z) (s : SolClient) : SolClient :=
  mkSolClient (sc_id s) x (slashed s) (active_epoch s).
Definition set_slashed (x : Z) (s : SolClient) : SolClient :=
  mkSolClient (sc_id s) (earned s) x (active_epoch s).
Definition set_active_epoch (x : Z) (s : SolClient) : SolClient :=
  mkSolClient (sc_id s) (earned s) (slashed s) x.

Record ClientsEpochRates := mkRates {
  earning_rate_total_shared : Z;
  slashing_rate_per_client : Z
}.

Record ClientsState := mkClientsState {
  members : list SolClient;
  next_active : Z;
  current_epoch_rates : ClientsEpochRates;
  future_epoch_rates : ClientsEpochRates
}.

Definition set_members (x : list SolClient) (s : ClientsState) : ClientsState :=
  mkClientsState x (next_active s) (current_epoch_rates s) (future_epoch_rates s).
Definition set_next_active (x : Z) (s : ClientsState) : ClientsState :=
  mkClientsState (members s) x (current_epoch_rates s) (future_epoch_rates s).
Definition set_current_epoch_rates (x : ClientsEpochRates) (s : ClientsState) : ClientsState :=
  mkClientsState (members s) (next_active s) x (future_epoch_rates s).
Definition set_future_epoch_rates (x : ClientsEpochRates) (s : ClientsState) : ClientsState :=
  mkClientsState (members s) (next_active s) (current_epoch_rates s) x.

Definition SOLANA_MAX_NUM_PENDING_CLIENTS : nat := SOLANA_MAX_NUM_CLIENTS.

(** [get_active_clients_ids]: those whose last join is for the current activation. *)
Definition get_active_clients_ids (s : ClientsState) : list NodeIdentity :=
  omap (λ x, if active_epoch x =? next_active s then Some (sc_id x) else None) (members s).

Definition find_signer (payer : Pubkey) (s : ClientsState) : res ProgramError NodeIdentity :=
  match list_find (λ x, signer (sc_id x) = payer) (members s) with
  | Some (_, x) => Ok (sc_id x)
  | None => Err SignerNotAClient
  end.

(** ** The instance *)
Record RunMetadata := mkMetadata {
  name : FixedString;
  description : FixedString;
  num_parameters : Z;
  vocab_size : Z
}.

Record InstanceState := mkInstanceState {
  metadata : RunMetadata;
  coordinator : Coordinator;
  clients_state : ClientsState;
  is_warmup_first_tick : SmallBoolean;
  is_training_first_tick : SmallBoolean;
  client_version : FixedString
}.

Definition set_metadata (x : RunMetadata) (s : InstanceState) : InstanceState :=
  mkInstanceState x (coordinator s) (clients_state s) (is_warmup_first_tick s) (is_training_first_tick s) (client_version s).
Definition set_coordinator (x : Coordinator) (s : InstanceState) : InstanceState :=
  mkInstanceState (metadata s) x (clients_state s) (is_warmup_first_tick s) (is_training_first_tick s) (client_version s).
Definition set_clients_state (x : ClientsState) (s : InstanceState) : InstanceState :=
  mkInstanceState (metadata s) (coordinator s) x (is_warmup_first_tick s) (is_training_first_tick s) (client_version s).
Definition set_is_warmup_first_tick (x : SmallBoolean) (s : InstanceState) : InstanceState :=
  mkInstanceState (metadata s) (coordinator s) (clients_state s) x (is_training_first_tick s) (client_version s).
Definition set_is_training_first_tick (x : SmallBoolean) (s : InstanceState) : InstanceState :=
  mkInstanceState (metadata s) (coordinator s) (clients_state s) (is_warmup_first_tick s) x (client_version s).
Definition set_client_version (x : FixedString) (s : InstanceState) : InstanceState :=
  mkInstanceState (metadata s) (coordinator s) (clients_state s) (is_warmup_first_tick s) (is_training_first_tick s) x.

Definition on_clients (f : ClientsState → ClientsState) (s : InstanceState) : InstanceState :=
  set_clients_state (f (clients_state s)) s.

Record Clock := mkClock {
  unix_timestamp : Z;     (* i64 *)
  slot : Z                (* u64 *)
}.

Notation IM := (M ProgramError InstanceState).

(** A call on the coordinator field. *)
Definition coord {A} (m : CM A) : IM A := zoom coordinator set_coordinator from_coordinator_error m.

Section Instance.
Context {H : HashFns}.

(** [clock.unix_timestamp as u64], and its bytes. *)
Definition now (clock : Clock) : Z := as_u64 (unix_timestamp clock).

Definition get_random_seed (clock : Clock) : Z :=
  let random_seed_bytes := sha256v
    [to_le_bytes 8 (as_u64 (unix_timestamp clock)); to_le_bytes 8 (slot clock)] in
  from_le_bytes (take 8 random_seed_bytes).

(** One member at the end of an epoch. *)
Definition settle_member {E} (finished exited : list Client) (earned_share slashing_rate : Z)
    (m : SolClient) : res E SolClient :=
  m ← (if existsb (λ f, id_eqb (id f) (sc_id m) && bool_decide (state f = Healthy)) finished
       then e ← uadd u64_max (earned m) earned_share; Ok (set_earned e m)
       else Ok m);
  if existsb (λ x, id_eqb (id x) (sc_id m) && bool_decide (state x = Ejected)) exited
  then e ← uadd u64_max (slashed m) slashing_rate; Ok (set_slashed e m)
  else Ok m.

Fixpoint settle_members {E} (finished exited : list Client) (share rate : Z)
    (ms : list SolClient) : res E (list SolClient) :=
  match ms with
  | [] => Ok []
  | m :: ms' =>
      m' ← settle_member finished exited share rate m;
      ms'' ← settle_members finished exited share rate ms';
      Ok (m' :: ms'')
  end.

Definition settle_epoch : IM unit :=
  s ← self;
  let finished := clients (epoch_state (coordinator s)) in
  let exited := exited_clients (epoch_state (coordinator s)) in
  let rates := current_epoch_rates (clients_state s) in
  let share := if zlen finished =? 0 then 0
               else earning_rate_total_shared rates / zlen finished in
  ms ← lift (settle_members finished exited share (slashing_rate_per_client rates)
               (members (clients_state s)));
  modify (on_clients (set_members ms)).

Definition bump_next_active : IM unit :=
  s ← self;
  n ← lift (uadd u64_max (next_active (clients_state s)) 1);
  modify (on_clients (set_next_active n)).

Definition inst_tick (clock : Clock) : IM unit :=
  s ← self;
  active_ids ← (match run_state (coordinator s) with
    | WaitingForMembers =>
        modify (λ s, set_is_training_first_tick (sb_new true)
                       (set_is_warmup_first_tick (sb_new true) s)) ;;
        mret (Some (get_active_clients_ids (clients_state s)))
    | _ => mret None
    end);
  t ← coord (tick active_ids (now clock) (get_random_seed clock));
  match t with
  | Ticked =>
      s' ← self;
      if is_warmup_just_starting (coordinator s') && is_true (is_warmup_first_tick s') then
        modify (on_clients (λ cs, set_current_epoch_rates (future_epoch_rates cs) cs)) ;;
        modify (set_is_warmup_first_tick (sb_new false))
      else if is_training_just_starting (coordinator s') && is_true (is_training_first_tick s') then
        bump_next_active ;;
        modify (set_is_training_first_tick (sb_new false))
      else mret tt
  | EpochEnd _ => settle_epoch
  end.

Definition inst_set_paused (clock : Clock) (paused : bool) : IM unit :=
  (if paused then coord (pause (now clock))
   else
     s ← self;
     throw_if (negb (config_check (config (coordinator s)))) ConfigSanityCheckFailed ;;
     throw_if (negb (Model_check (model (coordinator s)))) ModelSanityCheckFailed ;;
     ok ← lift (check_cold_start_warmup_steps (coordinator s));
     throw_if (negb ok) ConfigSanityCheckFailed ;;
     whenM (bool_decide (run_state (coordinator s) = Uninitialized))
       (modify (λ s, set_coordinator (set_run_state Paused (coordinator s)) s) ;;
        modify (λ s, set_coordinator (on_progress (set_step 1) (coordinator s)) s)) ;;
     s' ← self;
     throw_if (negb (progress_check (progress (coordinator s')))) ProgressSanityCheckFailed ;;
     coord (resume (now clock))) ;;
  if paused then mret tt
  else
    bump_next_active ;;
    inst_tick clock.

Definition inst_witness (clock : Clock) (payer : Pubkey) (w : Witness) : IM unit :=
  i ← asks (λ s, find_signer payer (clients_state s));
  coord (witness i w (now clock)) ;;
  inst_tick clock.

Definition inst_warmup_witness (clock : Clock) (payer : Pubkey) (w : Witness) : IM unit :=
  i ← asks (λ s, find_signer payer (clients_state s));
  coord (warmup_witness i w (now clock) (get_random_seed clock)) ;;
  inst_tick clock.

Definition inst_set_future_epoch_rates (earning slashing : option Z) : IM unit :=
  modify (on_clients (λ cs, set_future_epoch_rates
    (mkRates (default (earning_rate_total_shared (future_epoch_rates cs)) earning)
             (default (slashing_rate_per_client (future_epoch_rates cs)) slashing)) cs)).

Definition inst_update (md : option RunMetadata) (cfg : option CoordinatorConfig)
    (mdl : option Model) (prog : option CoordinatorProgress) : IM unit :=
  s ← self;
  let some_ {A} (o : option A) := match o with Some _ => true | None => false end in
  throw_if (bool_decide (run_state (coordinator s) = Finished)) UpdateConfigFinished ;;
  throw_if (negb (halted (coordinator s)) && (some_ cfg || some_ mdl || some_ prog))
    UpdateConfigNotHalted ;;
  match md with Some m => modify (set_metadata m) | None => mret tt end ;;
  match cfg with
  | Some c =>
      throw_if (negb (config_check c)) ConfigSanityCheckFailed ;;
      modify (λ s, set_coordinator (set_config c (coordinator s)) s)
  | None => mret tt
  end ;;
  match mdl with
  | Some m =>
      throw_if (negb (Model_check m)) ModelSanityCheckFailed ;;
      modify (λ s, set_coordinator (set_model m (coordinator s)) s)
  | None => mret tt
  end ;;
  (if some_ cfg || some_ mdl then
     ok ← asks (λ s, check_cold_start_warmup_steps (coordinator s));
     throw_if (negb ok) ConfigSanityCheckFailed
   else mret tt) ;;
  match prog with
  | Some p =>
      throw_if (negb (progress_check p)) ModelSanityCheckFailed ;;
      modify (λ s, set_coordinator (set_progress p (coordinator s)) s)
  | None => mret tt
  end.

(** [find(|x| x.id == id)]: the first member with the signer. *)
Definition member_index (i : NodeIdentity) (ms : list SolClient) : option nat :=
  fst <$> list_find (λ x, id_eqb (sc_id x) i = true) ms.

Definition inst_join_run (clock : Clock) (i : NodeIdentity) : IM unit :=
  s ← self;
  let cs := clients_state s in
  match member_index i (members cs) with
  | Some k =>
      modify (on_clients (λ cs, set_members
        (alter (λ x, set_active_epoch (next_active cs) (set_sc_id i x)) k (members cs)) cs))
  | None =>
      throw_if (global_batch_size_end (config (coordinator s)) =? as_u16 (zlen (members cs)))
        MoreClientsThanBatches ;;
      throw_if (SOLANA_MAX_NUM_PENDING_CLIENTS <=? length (members cs))%nat ClientsFull ;;
      modify (on_clients (λ cs, set_members
        (members cs ++ [mkSolClient i 0 0 (next_active cs)]) cs))
  end ;;
  if negb (halted (coordinator s)) then inst_tick clock else mret tt.

Definition inst_health_check (clock : Clock) (payer : Pubkey)
    (checks : list (NodeIdentity * CommitteeProof)) : IM unit :=
  i ← asks (λ s, find_signer payer (clients_state s));
  coord (health_check i checks) ;;
  inst_tick clock.

Definition inst_slash (index : Z) : IM unit := coord (eject index).

Definition inst_checkpoint (clock : Clock) (payer : Pubkey) (repo : Checkpoint) : IM unit :=
  s ← self;
  i ← lift (find_signer payer (clients_state s));
  index ← lift (ok_or (fst <$> list_find (λ x, id_eqb (id x) i = true)
                        (clients (epoch_state (coordinator s)))) SignerNotAClient);
  coord (checkpoint i (Z.of_nat index) repo) ;;
  s' ← self;
  if negb (halted (coordinator s')) then inst_tick clock else mret tt.

End Instance.

(** ** Accounts and instructions *)
Record CoordinatorAccount := mkAccount {
  acc_version : Z;
  acc_state : InstanceState;
  nonce : Z
}.

Definition VERSION : Z := 1.

Record CoordinatorInstance := mkInstance {
  inst_bump : Z;
  main_authority : Pubkey;
  join_authority : Pubkey;
  coordinator_account : Pubkey;
  inst_run_id : list Z
}.

Notation XM := (M ProgramError CoordinatorAccount).

Definition increment_nonce : XM unit :=
  a ← self;
  n ← lift (uadd u64_max (nonce a) 1);
  modify (λ a, mkAccount (acc_version a) (acc_state a) n).

Definition on_state {A} (m : IM A) : XM A :=
  zoom acc_state (λ st a, mkAccount (acc_version a) st (nonce a)) (λ e, e) m.

(** The constraints of [PermissionlessCoordinatorAccounts] and of
    [OwnerCoordinatorAccounts]; [key] is the address of the account passed. *)
Definition permissionless_accounts (inst : CoordinatorInstance) (key : Pubkey) : XM unit :=
  a ← self;
  throw_if (negb (bool_decide (coordinator_account inst = key))) ConstraintRaw ;;
  throw_if (negb (acc_version a =? VERSION)) ConstraintRaw.

Definition owner_accounts (inst : CoordinatorInstance) (key authority : Pubkey) : XM unit :=
  throw_if (negb (bool_decide (main_authority inst = authority))) ConstraintRaw ;;
  permissionless_accounts inst key.

(** ** Initialisation *)

(** A zeroed account: every enum is its first variant. *)
Definition zeroed_model : Model :=
  ModelLLM (mkLLM 0 0 HfLlama CkEphemeral Pretraining DataDummy
    (LRConstant (mkConstantLR (Float.f64_of_Z 0) (Float.f64_of_Z 0) 0)) OptDummy).
Definition zeroed_config : CoordinatorConfig := mkConfig 0 0 0 0 0 0 0 0 0 0 0 0 0 0.
Definition zeroed_coordinator : Coordinator :=
  mkCoordinator (fs_new SOLANA_RUN_ID_MAX_LEN) Uninitialized zeroed_model zeroed_config
    (mkProgress 0 0 0) EpochState_zeroed 0 sb_FALSE.
Definition zeroed_state : InstanceState :=
  mkInstanceState (mkMetadata (fs_new 64) (fs_new 280) 0 0) zeroed_coordinator
    (mkClientsState [] 0 (mkRates 0 0) (mkRates 0 0)) sb_FALSE sb_FALSE (fs_new 96).

(** [init_coordinator_processor] on an account of [data_len] bytes whose first bytes
    are [disc] and whose content is [content]; [space] is the expected size. *)
Definition init_coordinator (space data_len : Z) (disc : list Z) (content : CoordinatorAccount)
    (bump : Z) (main join key : Pubkey) (run_id version : list Z) :
    res ProgramError (CoordinatorInstance * CoordinatorAccount) :=
  res_throw_if (SOLANA_RUN_ID_MAX_LEN <? length run_id)%nat RunIdInvalidLength ;;
  res_throw_if (negb (data_len =? space)) CoordinatorAccountIncorrectSize ;;
  res_throw_if (existsb (λ b, negb (b =? 0)) disc) AccountDiscriminatorAlreadySet ;;
  let st := acc_state content in
  Ok (mkInstance bump main join key run_id,
      mkAccount VERSION
        (set_coordinator
           (set_run_id (fs_from_str_truncated SOLANA_RUN_ID_MAX_LEN run_id) (coordinator st))
           (set_client_version (fs_from_str_truncated 96 version) st)) 0).

Section Instructions.
Context {H : HashFns}.
Context (inst : CoordinatorInstance) (key user : Pubkey) (clock : Clock).

Definition ix_update md cfg mdl prog : XM unit :=
  owner_accounts inst key user ;; increment_nonce ;; on_state (inst_update md cfg mdl prog).

Definition ix_update_client_version (new_version : list Z) : XM unit :=
  owner_accounts inst key user ;;
  a ← self;
  throw_if (negb (halted (coordinator (acc_state a)))) UpdateConfigNotHalted ;;
  on_state (modify (set_client_version (fs_from_str_truncated 96 new_version))).

Definition ix_set_future_epoch_rates (earning slashing : option Z) : XM unit :=
  owner_accounts inst key user ;; increment_nonce ;;
  on_state (inst_set_future_epoch_rates earning slashing).

Definition JOIN_RUN_AUTHORIZATION_SCOPE : list Z := as_bytes "CoordinatorJoinRun".

(** The authorization constraint, then [join_run_processor]. *)
Definition ix_join_run (authorization : Authorization) (client_id : NodeIdentity) : XM unit :=
  throw_if (negb (is_valid_for authorization (join_authority inst) user
                    JOIN_RUN_AUTHORIZATION_SCOPE)) ConstraintRaw ;;
  permissionless_accounts inst key ;;
  throw_if (negb (bool_decide (signer client_id = user))) SignerMismatch ;;
  increment_nonce ;;
  on_state (inst_join_run clock client_id).

Definition ix_set_paused (paused : bool) : XM unit :=
  owner_accounts inst key user ;; increment_nonce ;; on_state (inst_set_paused clock paused).

Definition ix_tick : XM unit :=
  permissionless_accounts inst key ;; increment_nonce ;; on_state (inst_tick clock).

Definition ix_witness (w : Witness) : XM unit :=
  permissionless_accounts inst key ;; increment_nonce ;; on_state (inst_witness clock user w).

Definition ix_warmup_witness (w : Witness) : XM unit :=
  permissionless_accounts inst key ;; increment_nonce ;; on_state (inst_warmup_witness clock user w).

Definition ix_health_check (i : NodeIdentity) (committee : Committee) (position index : Z) : XM unit :=
  permissionless_accounts inst key ;; increment_nonce ;;
  on_state (inst_health_check clock user [(i, mkCommitteeProof committee position index)]).

Definition ix_checkpoint (repo : Checkpoint) : XM unit :=
  permissionless_accounts inst key ;; increment_nonce ;; on_state (inst_checkpoint clock user repo).

Definition ix_slash_client (index : Z) : XM unit :=
  owner_accounts inst key user ;; increment_nonce ;; on_state (inst_slash index).

(** [free_coordinator]: [Ok] lets Anchor close both accounts. *)
Definition ix_free_coordinator : XM unit :=
  throw_if (negb (bool_decide (main_authority inst = user))) ConstraintRaw ;;
  throw_if (negb (bool_decide (coordinator_account inst = key))) ConstraintRaw ;;
  a ← self;
  throw_if (negb (halted (coordinator (acc_state a)))) CloseCoordinatorNotHalted.

End Instructions.
