(* ===== verification/SolanaProps.v ===== *)
(** * Properties of the coordinator program

    The invariant of the account over every instruction, who may change what, and
    how an epoch's rewards and slashes are settled. *)

From stdpp Require Import base tactics list numbers.
From S2P Require Import Prelude CoreTypes Hashing CoordinatorState Committee Coordinator.
From S2P Require Import CoordinatorInv CoordinatorProps CoordinatorTotal CoordinatorThms Frames.
From S2P Require Import Authorizer SolanaCoordinator.

Open Scope Z_scope.

Definition member_signer (m : SolClient) : list Z := signer (sc_id m).

Definition inst_wf (s : InstanceState) : Prop :=
  coord_wf (coordinator s) ∧
  (length (members (clients_state s)) ≤ SOLANA_MAX_NUM_PENDING_CLIENTS)%nat ∧
  NoDup (member_signer <$> members (clients_state s)).

(** The computation keeps the invariant when it returns [Ok]. *)
Notation keeps := (respects (E:=ProgramError) (kept inst_wf)).

Lemma keeps_coord {A} (m : CM A) :
  (∀ c a c', coord_wf c → m c = (Ok a, c') → coord_wf c') → keeps (coord m).
Proof.
  intros Hm s a s' Hrun (Hc & Hl & Hn). unfold coord in Hrun.
  apply zoom_Ok in Hrun as (c' & Hrun & ->). split; [by eapply Hm|]. done.
Qed.

(** Changing an element without changing its image. *)
Lemma list_alter_fmap_at {A B} (f : A → B) (g : A → A) k x (l : list A) :
  l !! k = Some x → f (g x) = f x → f <$> alter g k l = f <$> l.
Proof.
  intros Hx Hg. apply list_eq. intros j. rewrite !list_lookup_fmap.
  destruct (decide (j = k)) as [->|Hne].
  - rewrite list_lookup_alter_eq, Hx. simpl. by rewrite Hg.
  - by rewrite list_lookup_alter_ne by done.
Qed.

Lemma inst_wf_frame s s' : inst_wf s → coordinator s' = coordinator s →
  members (clients_state s') = members (clients_state s) → inst_wf s'.
Proof. intros Hs Hc Hm. unfold inst_wf. by rewrite Hc, Hm. Qed.

Section Keep.
Context {H : HashFns}.

Lemma settle_member_signer {E} fin ex sh rt m m' :
  @settle_member E fin ex sh rt m = Ok m' → sc_id m' = sc_id m ∧ active_epoch m' = active_epoch m.
Proof.
  unfold settle_member. intros (m1 & H1 & H2)%res_bind_Ok.
  assert (sc_id m1 = sc_id m ∧ active_epoch m1 = active_epoch m) as [<- <-].
  { destruct (existsb _ fin); run_inv; done. }
  destruct (existsb _ ex); run_inv; done.
Qed.

Lemma settle_members_signers {E} fin ex sh rt ms ms' :
  @settle_members E fin ex sh rt ms = Ok ms' → sc_id <$> ms' = sc_id <$> ms.
Proof.
  revert ms'. induction ms as [|m ms IH]; intros ms' Hrun; cbn [settle_members] in Hrun.
  { by injection Hrun as <-. }
  apply res_bind_Ok in Hrun as (m' & Hm & Hrun).
  apply res_bind_Ok in Hrun as (ms'' & Hms & Hrun). injection Hrun as <-.
  rewrite !fmap_cons. f_equal; [by apply settle_member_signer in Hm as [-> _]|auto].
Qed.

Lemma inst_wf_members s ms : inst_wf s →
  member_signer <$> ms = member_signer <$> members (clients_state s) →
  inst_wf (on_clients (set_members ms) s).
Proof.
  intros (Hc & Hl & Hn) Hm. split; [done|]. simpl. rewrite Hm. split; [|done].
  by rewrite <-(length_fmap member_signer), Hm, length_fmap.
Qed.

Lemma keeps_settle : keeps settle_epoch.
Proof.
  intros s u s' Hrun Hs. unfold settle_epoch in Hrun. rewrite bind_self in Hrun.
  apply M_bind_Ok in Hrun as (ms & s1 & [Hms ->]%lift_Ok & ->%modify_Ok).
  apply inst_wf_members; [done|]. apply settle_members_signers in Hms.
  unfold member_signer. change (λ m, signer (sc_id m)) with (signer ∘ sc_id).
  by rewrite !list_fmap_compose, Hms.
Qed.

Lemma keeps_bump : keeps bump_next_active.
Proof. unfold bump_next_active. frame_step. apply respects_modify. intros ??. by eapply inst_wf_frame. Qed.

Lemma keeps_coord_tick new ts seed : keeps (coord (tick new ts seed)).
Proof. apply keeps_coord. intros c t c'. apply tick_wf. Qed.

#[local] Hint Resolve keeps_settle keeps_bump keeps_coord_tick : frames.

Lemma keeps_tick clock : keeps (inst_tick clock).
Proof.
  unfold inst_tick. frame_step; apply respects_modify; intros ??; by eapply inst_wf_frame.
Qed.

#[local] Hint Resolve keeps_tick : frames.

(** Leaving [Uninitialized]: the state is paused when the step is set. *)
Lemma keeps_first_unpause : keeps
  (modify (λ s, set_coordinator (set_run_state Paused (coordinator s)) s) ;;
   modify (λ s, set_coordinator (on_progress (set_step 1) (coordinator s)) s)).
Proof.
  intros s u s' Hrun ((He & _ & _) & Hm). rewrite bind_modify in Hrun.
  apply modify_Ok in Hrun as ->. split; [|done]. by apply coord_wf_intro.
Qed.

Lemma keeps_pause ts : keeps (coord (pause ts)).
Proof. apply keeps_coord. intros c u c'. apply pause_wf. Qed.
Lemma keeps_resume ts : keeps (coord (resume ts)).
Proof. apply keeps_coord. intros c u c'. apply resume_wf. Qed.
#[local] Hint Resolve keeps_first_unpause keeps_pause keeps_resume : frames.

Lemma keeps_set_paused clock b : keeps (inst_set_paused clock b).
Proof. unfold inst_set_paused. frame_step. Qed.

Lemma keeps_witness clock p w : keeps (inst_witness clock p w).
Proof. unfold inst_witness. frame_step. apply keeps_coord. intros c u c'. apply witness_wf. Qed.

Lemma keeps_warmup_witness clock p w : keeps (inst_warmup_witness clock p w).
Proof.
  unfold inst_warmup_witness. frame_step. apply keeps_coord. intros c u c'. apply warmup_witness_wf.
Qed.

Lemma keeps_health_check clock p ch : keeps (inst_health_check clock p ch).
Proof.
  unfold inst_health_check. frame_step. apply keeps_coord. intros c u c'. apply health_check_wf.
Qed.

Lemma keeps_checkpoint clock p r : keeps (inst_checkpoint clock p r).
Proof.
  unfold inst_checkpoint. frame_step; apply keeps_coord; intros c u c'; apply checkpoint_wf.
Qed.

Lemma keeps_slash i : keeps (inst_slash i).
Proof. unfold inst_slash. apply keeps_coord. intros c u c'. apply eject_wf. Qed.

Lemma keeps_rates e r : keeps (inst_set_future_epoch_rates e r).
Proof. apply respects_modify. intros ??. by eapply inst_wf_frame. Qed.

(** A member is found by its signer, so a new one has a fresh signer. *)
Lemma member_index_None i ms : member_index i ms = None →
  signer i ∉ (member_signer <$> ms).
Proof.
  unfold member_index. destruct (list_find _ _) as [[]|] eqn:Hf; [done|]. intros _.
  apply list_find_None in Hf. intros (m & Hs & Hm)%list_elem_of_fmap.
  rewrite list.Forall_forall in Hf. apply (Hf m Hm). by apply id_eqb_equiv.
Qed.

Lemma member_index_Some i ms k : member_index i ms = Some k →
  ∃ m, ms !! k = Some m ∧ member_signer m = signer i.
Proof.
  unfold member_index. destruct (list_find _ _) as [[k' m]|] eqn:Hf; [|done]. intros [= <-].
  apply list_find_Some in Hf as (Hk & Hid & _). exists m. split; [done|].
  by apply id_eqb_equiv in Hid.
Qed.

Lemma keeps_join clock i : keeps (inst_join_run clock i).
Proof.
  intros s u s' Hrun Hs. unfold inst_join_run in Hrun. rewrite bind_self in Hrun. cbn zeta in Hrun.
  apply M_bind_Ok in Hrun as ([] & s1 & H1 & Hrun).
  enough (Hs1 : inst_wf s1).
  { destruct (negb (halted (coordinator s))); [by eapply keeps_tick|].
    by apply mret_Ok in Hrun as [_ ->]. }
  clear Hrun. assert (Hwf := Hs). destruct Hwf as (Hc & Hl & Hn).
  destruct (member_index i (members (clients_state s))) as [k|] eqn:Hk.
  - apply modify_Ok in H1 as ->. split; [done|].
    destruct (member_index_Some _ _ _ Hk) as (m & Hm & Hsig).
    cbn [on_clients clients_state set_clients_state members set_members].
    rewrite length_alter. split; [done|].
    rewrite (list_alter_fmap_at member_signer _ k m); [done..|]. by unfold member_signer at 1.
  - apply M_bind_Ok in H1 as (? & ? & [_ ->]%throw_if_Ok & H1).
    apply M_bind_Ok in H1 as (? & ? & [Hfull ->]%throw_if_Ok & ->%modify_Ok).
    apply Nat.leb_gt in Hfull. split; [done|]. simpl. rewrite length_app, fmap_app. simpl.
    split; [lia|]. apply list.NoDup_app. split; [done|]. split; [|apply NoDup_singleton].
    intros y Hy Hy'%list_elem_of_singleton. subst y. by apply member_index_None in Hk.
Qed.

(** The parts of an account an update may not touch. *)
Definition same_run (s s' : InstanceState) : Prop :=
  epoch_state (coordinator s') = epoch_state (coordinator s) ∧
  run_state (coordinator s') = run_state (coordinator s) ∧ clients_state s' = clients_state s.

Lemma keeps_update md cfg mdl prog : keeps (inst_update md cfg mdl prog).
Proof.
  intros s u s' Hrun Hs. unfold inst_update in Hrun. rewrite bind_self in Hrun. cbn zeta in Hrun.
  apply M_bind_Ok in Hrun as (? & ? & [Hfin ->]%throw_if_Ok & Hrun).
  apply M_bind_Ok in Hrun as (? & ? & [Hhalt ->]%throw_if_Ok & Hrun).
  apply M_bind_Ok in Hrun as ([] & s1 & Hmd & Hrun).
  apply M_bind_Ok in Hrun as ([] & s2 & Hcfg & Hrun).
  apply M_bind_Ok in Hrun as ([] & s3 & Hmdl & Hrun).
  apply M_bind_Ok in Hrun as ([] & s4 & Hcheck & Hrun).
  assert (H1 : coordinator s1 = coordinator s ∧ clients_state s1 = clients_state s).
  { destruct md; run_inv; done. }
  assert (H2 : same_run s s2) 
    by (destruct H1 as [Ha Hb]; destruct cfg; run_inv; unfold same_run; simpl; by rewrite Ha, Hb).
  assert (H3 : same_run s s3) by (destruct mdl; run_inv; done).
  assert (s4 = s3) as -> by (destruct cfg, mdl; run_inv; done).
  assert (H4 : same_run s s') by (destruct prog; run_inv; done).
  destruct Hs as (Hc & Hm). destruct H4 as (E1 & E2 & E3). split; [|by rewrite E3].
  destruct (halted (coordinator s)) eqn:Hh.
  - apply coord_wf_intro; [rewrite E1; apply Hc|rewrite E2..].
    + unfold halted in Hh. by destruct (run_state (coordinator s)).
    + intros Hf. by rewrite Hf in Hfin.
  - destruct H1 as [Hs1 _]. destruct cfg, mdl, prog; try done. cbn in *. run_inv. by rewrite Hs1.
Qed.

End Keep.

(** ** Instructions *)

Inductive instruction :=
| IUpdate (md : option RunMetadata) (cfg : option CoordinatorConfig) (mdl : option Model)
    (prog : option CoordinatorProgress)
| IUpdateClientVersion (v : list Z)
| ISetFutureEpochRates (earning slashing : option Z)
| IJoinRun (a : Authorization) (i : NodeIdentity)
| ISetPaused (paused : bool)
| ITick
| IWitness (w : Witness)
| IWarmupWitness (w : Witness)
| IHealthCheck (i : NodeIdentity) (co : Committee) (position index : Z)
| ICheckpoint (repo : Checkpoint)
| ISlashClient (index : Z).

Section Run.
Context {H : HashFns}.

(** Transaction: the account [key], the signing user, the clock and the instruction. *)
Definition execute (inst : CoordinatorInstance) (key user : Pubkey) (clock : Clock)
    (i : instruction) : XM unit :=
  match i with
  | IUpdate md cfg mdl prog => ix_update inst key user md cfg mdl prog
  | IUpdateClientVersion v => ix_update_client_version inst key user v
  | ISetFutureEpochRates e r => ix_set_future_epoch_rates inst key user e r
  | IJoinRun a n => ix_join_run inst key user clock a n
  | ISetPaused b => ix_set_paused inst key user clock b
  | ITick => ix_tick inst key clock
  | IWitness w => ix_witness inst key user clock w
  | IWarmupWitness w => ix_warmup_witness inst key user clock w
  | IHealthCheck n co p x => ix_health_check inst key user clock n co p x
  | ICheckpoint r => ix_checkpoint inst key user clock r
  | ISlashClient x => ix_slash_client inst key user x
  end.

(** Accounts reached from [a0] by transactions; a failed one changes nothing. *)
Inductive account_reachable (inst : CoordinatorInstance) (key : Pubkey)
    (a0 : CoordinatorAccount) : CoordinatorAccount → Prop :=
| ar_refl : account_reachable inst key a0 a0
| ar_step a user clock i : account_reachable inst key a0 a →
    account_reachable inst key a0 (transact (execute inst key user clock i) a).

(** The guards leave the account as it is, and the nonce is no part of the state. *)
Lemma on_state_Ok {A} (m : IM A) b v b' : on_state m b = (Ok v, b') →
  m (acc_state b) = (Ok v, acc_state b') ∧ acc_version b' = acc_version b.
Proof. intros Hm. unfold on_state in Hm. apply zoom_Ok in Hm as (st & Hm & ->). done. Qed.

Lemma increment_nonce_Ok b v b' : increment_nonce b = (Ok v, b') →
  acc_state b' = acc_state b ∧ acc_version b' = acc_version b.
Proof. intros Hm. unfold increment_nonce in Hm. run_inv. done. Qed.

Lemma permissionless_Ok inst key b v b' : permissionless_accounts inst key b = (Ok v, b') →
  b' = b ∧ coordinator_account inst = key ∧ acc_version b = VERSION.
Proof. intros Hm. unfold permissionless_accounts in Hm. run_inv. by bool_prop. Qed.

Lemma owner_Ok inst key user b v b' : owner_accounts inst key user b = (Ok v, b') →
  b' = b ∧ main_authority inst = user ∧ coordinator_account inst = key ∧ acc_version b = VERSION.
Proof.
  intros Hm. unfold owner_accounts in Hm.
  apply M_bind_Ok in Hm as (? & ? & [Ho ->]%throw_if_Ok & Hm).
  apply permissionless_Ok in Hm as (-> & Hk & Hv). by bool_prop.
Qed.

(** What an instruction does to the state, once its guards have passed. *)
Definition body (user : Pubkey) (clock : Clock) (i : instruction) : IM unit :=
  match i with
  | IUpdate md cfg mdl prog => inst_update md cfg mdl prog
  | IUpdateClientVersion v => modify (set_client_version (fs_from_str_truncated 96 v))
  | ISetFutureEpochRates e r => inst_set_future_epoch_rates e r
  | IJoinRun _ n => inst_join_run clock n
  | ISetPaused b => inst_set_paused clock b
  | ITick => inst_tick clock
  | IWitness w => inst_witness clock user w
  | IWarmupWitness w => inst_warmup_witness clock user w
  | IHealthCheck n co p x => inst_health_check clock user [(n, mkCommitteeProof co p x)]
  | ICheckpoint r => inst_checkpoint clock user r
  | ISlashClient x => inst_slash x
  end.

(** Who may send it. *)
Definition allowed (inst : CoordinatorInstance) (user : Pubkey) (i : instruction) : Prop :=
  match i with
  | IUpdate _ _ _ _ | IUpdateClientVersion _ | ISetFutureEpochRates _ _ | ISetPaused _
  | ISlashClient _ => main_authority inst = user
  | IJoinRun a n =>
      is_valid_for a (join_authority inst) user JOIN_RUN_AUTHORIZATION_SCOPE = true ∧
      signer n = user
  | _ => True
  end.

Lemma execute_body inst key user clock i a u a' :
  execute inst key user clock i a = (Ok u, a') →
  body user clock i (acc_state a) = (Ok tt, acc_state a') ∧ acc_version a' = acc_version a ∧
  acc_version a = VERSION ∧ allowed inst user i.
Proof.
  assert (Hfin : ∀ (m : IM unit) b b1, acc_state b1 = acc_state b →
    acc_version b1 = acc_version b → on_state m b1 = (Ok u, a') →
    m (acc_state b) = (Ok tt, acc_state a') ∧ acc_version a' = acc_version b).
  { intros m b b1 <- <- [Hm Hv]%on_state_Ok. by destruct u. }
  intros Hrun. destruct i; cbn [execute allowed body] in *;
    unfold ix_update, ix_update_client_version, ix_set_future_epoch_rates, ix_join_run,
      ix_set_paused, ix_tick, ix_witness, ix_warmup_witness, ix_health_check, ix_checkpoint,
      ix_slash_client in Hrun;
    try (apply M_bind_Ok in Hrun as (? & ? & Hg & Hrun);
         first [apply owner_Ok in Hg as (-> & ? & ? & ?) | apply permissionless_Ok in Hg as (-> & ? & ?)];
         apply M_bind_Ok in Hrun as (? & ? & [E1 E2]%increment_nonce_Ok & Hrun);
         destruct (Hfin _ _ _ E1 E2 Hrun) as [? ?]; done).
  - apply M_bind_Ok in Hrun as (? & ? & (-> & ? & ? & ?)%owner_Ok & Hrun). rewrite bind_self in Hrun.
    apply M_bind_Ok in Hrun as (? & ? & [_ ->]%throw_if_Ok & Hrun).
    destruct (Hfin _ _ _ eq_refl eq_refl Hrun) as [? ?]. done.
  - apply M_bind_Ok in Hrun as (? & ? & [Hv ->]%throw_if_Ok & Hrun).
    apply M_bind_Ok in Hrun as (? & ? & (-> & ? & ?)%permissionless_Ok & Hrun).
    apply M_bind_Ok in Hrun as (? & ? & [Hs ->]%throw_if_Ok & Hrun).
    apply M_bind_Ok in Hrun as (? & ? & [E1 E2]%increment_nonce_Ok & Hrun).
    destruct (Hfin _ _ _ E1 E2 Hrun) as [? ?]. bool_prop. done.
Qed.

Lemma keeps_body user clock i : keeps (body user clock i).
Proof.
  destruct i; cbn [body]; auto using keeps_update, keeps_rates, keeps_join, keeps_set_paused,
    keeps_tick, keeps_witness, keeps_warmup_witness, keeps_health_check, keeps_checkpoint,
    keeps_slash.
  apply respects_modify. intros ??. by eapply inst_wf_frame.
Qed.

Lemma transact_cases {E S A} (m : M E S A) s :
  transact m s = s ∨ ∃ a, m s = (Ok a, transact m s).
Proof. unfold transact. destruct (m s) as [[a|e|] s']; eauto. Qed.

Lemma account_reachable_wf inst key a0 a : inst_wf (acc_state a0) →
  account_reachable inst key a0 a → inst_wf (acc_state a) ∧ acc_version a = acc_version a0.
Proof.
  intros H0. induction 1 as [|a user clock i _ [IH Hv]]; [done|].
  destruct (transact_cases (execute inst key user clock i) a) as [-> | [u Hrun]]; [done|].
  apply execute_body in Hrun as (Hm & -> & _). split; [by eapply keeps_body|done].
Qed.
End Run.
