(* ===== verification/SolanaThms.v ===== *)
(** * What the coordinator program guarantees

    The account invariant over all transactions, who may change what, membership,
    and the settlement of an epoch. *)

From stdpp Require Import base tactics list numbers strings.
From S2P Require Import Prelude FixedVec CoreTypes Hashing Float CoordinatorState Committee.
From S2P Require Import Coordinator CoordinatorInv CoordinatorProps CoordinatorThms Frames.
From S2P Require Import Authorizer SolanaCoordinator SolanaProps.

Open Scope Z_scope.

(** ** A concrete account *)
Module Demo.

Definition key : Pubkey := replicate 32 9.
Definition owner : Pubkey := replicate 32 8.
Definition joiner : Pubkey := replicate 32 7.
Definition auth : Authorization :=
  mkAuthorization 0 owner joiner JOIN_RUN_AUTHORIZATION_SCOPE true [] 0.

Definition zeroed : CoordinatorAccount := mkAccount 0 zeroed_state 0.
Definition init : res ProgramError (CoordinatorInstance * CoordinatorAccount) :=
  init_coordinator 10 10 [0; 0] zeroed 255 owner owner key [114; 117; 110] [].
Definition inst : CoordinatorInstance := mkInstance 255 owner owner key [114; 117; 110].
Definition start : CoordinatorAccount :=
  match init with Ok (_, a) => a | _ => zeroed end.

Definition clock (t : Z) : Clock := mkClock t t.
Definition send (user : Pubkey) (t : Z) (i : instruction) (a : CoordinatorAccount) :
    CoordinatorAccount := transact (@execute zero_hashes inst key user (clock t) i) a.

Definition llm : LLM :=
  mkLLM 2048 0 HfLlama (CkDummy HubRepo_dummy) Pretraining DataDummy
    (LRConstant (mkConstantLR (f64_of_Z 0) (f64_of_Z 0) 0))
    (AdamW (0, 0) 0 0 None).

(** Two steps, so that the second round ends the epoch. *)
Definition cfg : CoordinatorConfig := mkConfig 30 30 60 10 0 600 2 1 1 1 4 4 0 5.

Definition configured : CoordinatorAccount :=
  send owner 10 (IUpdate None (Some cfg) (Some (ModelLLM llm)) None) start.
Definition joined : CoordinatorAccount :=
  send joiner 20 (IJoinRun auth (from_single_key joiner)) configured.
Definition priced : CoordinatorAccount :=
  send owner 30 (ISetFutureEpochRates (Some 1000) (Some 50)) joined.
Definition resumed : CoordinatorAccount := send owner 40 (ISetPaused false) priced.
Definition warming : CoordinatorAccount :=
  send joiner 50 (IJoinRun auth (from_single_key joiner)) resumed.
Definition training : CoordinatorAccount := send joiner 80 ITick warming.
Definition witnessed : CoordinatorAccount :=
  send joiner 90 (IWitness (Sample.vote_of 0)) training.
Definition cooling : CoordinatorAccount := send joiner 100 ITick witnessed.
Definition finished : CoordinatorAccount := send joiner 130 ITick cooling.

(** The same with a pause asked for while training. *)
Definition pausing : CoordinatorAccount :=
  send joiner 100 ITick (send joiner 90 (IWitness (Sample.vote_of 0))
    (send owner 85 (ISetPaused true) training)).
Definition paused : CoordinatorAccount := send joiner 130 ITick pausing.

End Demo.

(** ** The account invariant *)

Lemma zeroed_wf : inst_wf zeroed_state.
Proof.
  split; [|split; [simpl; lia|apply NoDup_nil_2]].
  apply coord_wf_intro; [exact EpochState_zeroed_wf|done..].
Qed.

Lemma init_wf space n disc bump main join key rid v inst a0 :
  init_coordinator space n disc (mkAccount 0 zeroed_state 0) bump main join key rid v
    = Ok (inst, a0) →
  inst_wf (acc_state a0) ∧ acc_version a0 = VERSION ∧ main_authority inst = main ∧
  join_authority inst = join ∧ coordinator_account inst = key.
Proof.
  unfold init_coordinator. intros Hrun. run_inv. split; [|done].
  destruct zeroed_wf as (Hc & Hm). split; [|exact Hm].
  apply coord_wf_intro; [exact EpochState_zeroed_wf|done..].
Qed.

(** C13: whatever transactions anybody sends to an account initialised from zeroed
    memory, in any order, whether they succeed or fail, the account keeps its version,
    its coordinator keeps the state-machine invariant, and it has at most 256 members,
    whose signers are pairwise distinct. *)
Theorem account_invariant {H : HashFns} space n disc bump main join key rid v inst a0 a :
  init_coordinator space n disc (mkAccount 0 zeroed_state 0) bump main join key rid v
    = Ok (inst, a0) →
  account_reachable inst key a0 a →
  acc_version a = VERSION ∧ coord_wf (coordinator (acc_state a)) ∧
  (length (members (clients_state (acc_state a))) ≤ SOLANA_MAX_NUM_PENDING_CLIENTS)%nat ∧
  NoDup (member_signer <$> members (clients_state (acc_state a))).
Proof.
  intros (H0 & Hv & _)%init_wf Hr. apply account_reachable_wf in Hr as [(Hc & Hl & Hn) Hv']; [|done].
  by rewrite Hv', Hv.
Qed.

Lemma account_invariant_witness :
  Demo.init = Ok (Demo.inst, Demo.start) ∧
  length (members (clients_state (acc_state Demo.joined))) = 1%nat ∧
  NoDup (member_signer <$> members (clients_state (acc_state Demo.joined))).
Proof.
  split; [vm_compute; reflexivity|]. split; [vm_compute; reflexivity|].
  apply (@account_invariant zero_hashes 10 10 [0; 0] 255 Demo.owner Demo.owner Demo.key
    [114; 117; 110] [] Demo.inst Demo.start Demo.joined).
  - vm_compute. reflexivity.
  - apply ar_step, ar_step, ar_refl.
Defined.

(** ** Who may change what *)

(** What only the main authority may change: the configuration, the model except for
    its checkpoint, the metadata, the client version, the rates of future epochs, and
    who is ejected.  The rates of an epoch come from the future ones. *)
Definition same_terms (s s' : InstanceState) : Prop :=
  metadata s' = metadata s ∧ client_version s' = client_version s ∧
  future_epoch_rates (clients_state s') = future_epoch_rates (clients_state s) ∧
  (current_epoch_rates (clients_state s') = current_epoch_rates (clients_state s) ∨
   current_epoch_rates (clients_state s') = future_epoch_rates (clients_state s)) ∧
  same_setup (coordinator s) (coordinator s') ∧ no_new_ejection (coordinator s) (coordinator s').

#[export] Instance same_terms_preorder : PreOrder same_terms.
Proof.
  split.
  - intros s. unfold same_terms. split_and!; by auto.
  - intros a b c (A1 & A2 & A3 & A4 & A5 & A6) (B1 & B2 & B3 & B4 & B5 & B6).
    unfold same_terms. rewrite B1, B2, B3. split_and!; try done; [|by etrans|by etrans].
    destruct B4 as [-> | ->]; [done|]. rewrite A3. by right.
Qed.

(** The signers of the members, in order. *)
Definition signers (s : InstanceState) : list (list Z) :=
  member_signer <$> members (clients_state s).
Definition same_signers (s s' : InstanceState) : Prop := signers s' = signers s.

#[export] Instance same_signers_preorder : PreOrder same_signers.
Proof. unfold same_signers. split; [done|]. intros ??? E1 E2. congruence. Qed.

Section Terms.
Context {H : HashFns}.

Lemma coord_terms {A} (m : CM A) :
  respects same_setup m → respects no_new_ejection m → respects same_terms (coord m).
Proof.
  intros H1 H2 s a s' Hrun. unfold coord in Hrun. apply zoom_Ok in Hrun as (c & Hc & ->).
  unfold same_terms. simpl. split_and!; eauto.
Qed.

Lemma coord_signers {A} (m : CM A) : respects same_signers (coord m).
Proof. intros s a s' Hrun. unfold coord in Hrun. by apply zoom_Ok in Hrun as (c & Hc & ->). Qed.

(** Writes to the account proper: the frame is by computation. *)
Ltac terms := frame_step; try (apply coord_terms; frame_step); try (apply coord_signers);
  apply respects_modify; intros ?; unfold same_terms, same_signers; simpl; try split_and!; auto;
  reflexivity.

Lemma settle_terms : respects same_terms settle_epoch.
Proof. unfold settle_epoch. terms. Qed.
Lemma bump_terms : respects same_terms bump_next_active.
Proof. unfold bump_next_active. terms. Qed.
#[local] Hint Resolve settle_terms bump_terms : frames.

Lemma tick_terms clock : respects same_terms (inst_tick clock).
Proof. unfold inst_tick. terms. Qed.
#[local] Hint Resolve tick_terms : frames.

Lemma join_terms clock i : respects same_terms (inst_join_run clock i).
Proof. unfold inst_join_run. terms. Qed.

(** Whatever needs no authority leaves the terms alone. *)
Lemma body_terms inst user clock i : allowed inst user i → main_authority inst ≠ user →
  respects same_terms (body user clock i).
Proof.
  intros Ha Hne. destruct i; cbn [allowed body] in *; try done.
  - apply join_terms.
  - apply tick_terms.
  - unfold inst_witness. frame_step. apply coord_terms; frame_step.
  - unfold inst_warmup_witness. frame_step. apply coord_terms; frame_step.
  - unfold inst_health_check. frame_step. apply coord_terms; frame_step.
  - unfold inst_checkpoint. frame_step; apply coord_terms; frame_step.
Qed.

Lemma member_signer_ids (ms ms' : list SolClient) : sc_id <$> ms' = sc_id <$> ms →
  member_signer <$> ms' = member_signer <$> ms.
Proof.
  intros E. unfold member_signer. change (λ m, signer (sc_id m)) with (signer ∘ sc_id).
  by rewrite !list_fmap_compose, E.
Qed.

Lemma settle_signers : respects same_signers settle_epoch.
Proof.
  intros s u s' Hrun. unfold settle_epoch in Hrun. rewrite bind_self in Hrun.
  apply M_bind_Ok in Hrun as (ms & s1 & [Hms ->]%lift_Ok & ->%modify_Ok).
  by eapply member_signer_ids, settle_members_signers.
Qed.
Lemma bump_signers : respects same_signers bump_next_active.
Proof. unfold bump_next_active. terms. Qed.
#[local] Hint Resolve settle_signers bump_signers coord_signers : frames.

Lemma tick_signers clock : respects same_signers (inst_tick clock).
Proof. unfold inst_tick. terms. Qed.
#[local] Hint Resolve tick_signers : frames.

(** A join adds at most the joiner, at the end. *)
Lemma join_signers clock i s u s' : inst_join_run clock i s = (Ok u, s') →
  (signer i ∈ signers s ∧ signers s' = signers s) ∨
  (signer i ∉ signers s ∧ signers s' = signers s ++ [signer i]).
Proof.
  intros Hrun. unfold inst_join_run in Hrun. rewrite bind_self in Hrun. cbn zeta in Hrun.
  apply M_bind_Ok in Hrun as ([] & s1 & H1 & Hrun).
  assert (signers s' = signers s1) as ->.
  { destruct (negb _); [by eapply tick_signers|by apply mret_Ok in Hrun as [_ ->]]. }
  clear Hrun. destruct (member_index i (members (clients_state s))) as [k|] eqn:Hk.
  - left. apply modify_Ok in H1 as ->. destruct (member_index_Some _ _ _ Hk) as (m & Hm & Hsig).
    split; [unfold signers; apply list_elem_of_fmap; exists m; split; [done|by eapply list_elem_of_lookup_2]|].
    unfold signers. simpl. rewrite (list_alter_fmap_at member_signer _ k m); [done..|].
    by unfold member_signer at 1.
  - right. split; [by apply member_index_None|]. run_inv. unfold signers. simpl. by rewrite fmap_app.
Qed.

Lemma body_signers user clock i s u s' : body user clock i s = (Ok u, s') →
  signers s' = signers s ∨
  ∃ a n, i = IJoinRun a n ∧ signer n ∉ signers s ∧ signers s' = signers s ++ [signer n].
Proof.
  intros Hrun. assert (Hleft : ∀ m : IM unit, respects same_signers m → m s = (Ok u, s') →
    signers s' = signers s ∨ ∃ a n, i = IJoinRun a n ∧ signer n ∉ signers s ∧
      signers s' = signers s ++ [signer n]) by (intros m Hm Hr; left; by eapply Hm).
  destruct i; cbn [body] in Hrun.
  4: { apply join_signers in Hrun as [[_ ->]|[? ->]]; [by left|right; eauto]. }
  all: refine (Hleft _ _ Hrun); clear.
  - unfold inst_update. terms.
  - terms.
  - unfold inst_set_future_epoch_rates. terms.
  - unfold inst_set_paused. terms.
  - frame_step.
  - unfold inst_witness. frame_step.
  - unfold inst_warmup_witness. frame_step.
  - unfold inst_health_check. frame_step.
  - unfold inst_checkpoint. frame_step.
  - unfold inst_slash. frame_step.
Qed.

End Terms.

(** A successful transaction that the main authority did not sign leaves the
    configuration, the model but for its checkpoint, the metadata, the client
    version and the future rates as they were, ejects nobody, and changes the rates
    of the epoch only to the future rates. *)
Theorem only_the_authority_sets_terms {H : HashFns} inst key user clock i a a' :
  execute inst key user clock i a = (Ok tt, a') → main_authority inst ≠ user →
  same_terms (acc_state a) (acc_state a').
Proof.
  intros (Hm & _ & _ & Ha)%execute_body Hne. by eapply body_terms.
Qed.

Lemma only_the_authority_sets_terms_witness :
  same_terms (acc_state Demo.configured) (acc_state Demo.joined) ∧
  signers (acc_state Demo.joined) ≠ signers (acc_state Demo.configured).
Proof.
  split; [|vm_compute; discriminate].
  apply (@only_the_authority_sets_terms zero_hashes Demo.inst Demo.key Demo.joiner
    (Demo.clock 20) (IJoinRun Demo.auth (from_single_key Demo.joiner))).
  - vm_compute. reflexivity.
  - vm_compute. discriminate.
Defined.

(** C37: members are never removed or reordered, and a transaction adds a member only
    if it is a join signed by that member itself with an authorization that the run's
    join authority granted it for joining, and that is still active. *)
Theorem members_join_by_authorization {H : HashFns} inst key user clock i a a' :
  execute inst key user clock i a = (Ok tt, a') →
  signers (acc_state a') = signers (acc_state a) ∨
  (signers (acc_state a') = signers (acc_state a) ++ [user] ∧ user ∉ signers (acc_state a) ∧
   ∃ au n, i = IJoinRun au n ∧ signer n = user ∧ auth_active au = true ∧
     grantor au = join_authority inst ∧ scope au = JOIN_RUN_AUTHORIZATION_SCOPE ∧
     (grantee au = Pubkey_default ∨ grantee au = user ∨ user ∈ delegates au)).
Proof.
  intros (Hm & _ & _ & Ha)%execute_body.
  apply body_signers in Hm as [->|(au & n & -> & Hn & ->)]; [by left|right].
  destruct Ha as [Hv <-]. split_and!; [done..|]. exists au, n.
  unfold is_valid_for in Hv. destruct (auth_active au); [|done]. simpl in Hv.
  repeat case_bool_decide; try done; simpl in Hv; split_and!; auto.
Qed.

Lemma members_join_by_authorization_witness :
  signers (acc_state Demo.joined) = signers (acc_state Demo.configured) ∨
  (signers (acc_state Demo.joined) = signers (acc_state Demo.configured) ++ [Demo.joiner] ∧
   Demo.joiner ∉ signers (acc_state Demo.configured) ∧
   ∃ au n, IJoinRun Demo.auth (from_single_key Demo.joiner) = IJoinRun au n ∧
     signer n = Demo.joiner ∧ auth_active au = true ∧
     grantor au = join_authority Demo.inst ∧ scope au = JOIN_RUN_AUTHORIZATION_SCOPE ∧
     (grantee au = Pubkey_default ∨ grantee au = Demo.joiner ∨ Demo.joiner ∈ delegates au)).
Proof.
  apply (@members_join_by_authorization zero_hashes Demo.inst Demo.key Demo.joiner
    (Demo.clock 20) (IJoinRun Demo.auth (from_single_key Demo.joiner))).
  vm_compute. reflexivity.
Defined.

(** ** Settling an epoch *)

Definition total (f : SolClient → Z) (ms : list SolClient) : Z := foldr (λ m a, f m + a) 0 ms.

(** A member is matched by its signer. *)
Definition matches (st : ClientState) (cl : list Client) (m : SolClient) : Prop :=
  ∃ x, x ∈ cl ∧ id x ≡ sc_id m ∧ state x = st.

Definition matchesb (st : ClientState) (cl : list Client) (m : SolClient) : bool :=
  existsb (λ x, id_eqb (id x) (sc_id m) && bool_decide (state x = st)) cl.

Lemma matchesb_spec st cl m : matchesb st cl m = true ↔ matches st cl m.
Proof.
  unfold matchesb, matches. rewrite existsb_exists. split.
  - intros (x & Hx%list_elem_of_In & [Hi Hs]%andb_true_iff). exists x.
    split_and!; [done|by apply id_eqb_equiv|by apply bool_decide_eq_true in Hs].
  - intros (x & Hx & Hi & Hs). exists x. split; [by apply list_elem_of_In|].
    rewrite bool_decide_eq_true_2 by done. rewrite andb_true_r. by apply id_eqb_equiv.
Qed.

#[export] Instance matches_dec st cl m : Decision (matches st cl m).
Proof. refine (cast_if (decide (matchesb st cl m = true))); by rewrite <-matchesb_spec. Defined.

(** What a member's record becomes at the end of an epoch. *)
Definition settled (c : Coordinator) (share rate : Z) (m : SolClient) : SolClient :=
  mkSolClient (sc_id m)
    (earned m + if decide (matches Healthy (clients (epoch_state c)) m) then share else 0)
    (slashed m + if decide (matches Ejected (exited_clients (epoch_state c)) m) then rate else 0)
    (active_epoch m).

Definition share_of (c : Coordinator) (rates : ClientsEpochRates) : Z :=
  earning_rate_total_shared rates / zlen (clients (epoch_state c)).

Lemma settle_member_Ok {E} c sh rt m m' :
  @settle_member E (clients (epoch_state c)) (exited_clients (epoch_state c)) sh rt m = Ok m' →
  m' = settled c sh rt m.
Proof.
  unfold settle_member, settled. fold (matchesb Healthy (clients (epoch_state c)) m).
  intros (m1 & H1 & H2)%res_bind_Ok.
  assert (m1 = set_earned (earned m + if decide (matches Healthy (clients (epoch_state c)) m)
    then sh else 0) m) as ->.
  { destruct (matchesb Healthy _ m) eqn:Hb.
    - apply matchesb_spec in Hb. rewrite decide_True by done. by run_inv.
    - rewrite decide_False by (rewrite <-matchesb_spec, Hb; done). run_inv.
      rewrite Z.add_0_r. by destruct m1. }
  clear H1. simpl in H2. fold (matchesb Ejected (exited_clients (epoch_state c)) m) in H2.
  destruct (matchesb Ejected _ m) eqn:Hb.
  - apply matchesb_spec in Hb. rewrite (decide_True (P:=matches Ejected _ _)) by done. by run_inv.
  - rewrite (decide_False (P:=matches Ejected _ _)) by (rewrite <-matchesb_spec, Hb; done). run_inv.
    by rewrite (Z.add_0_r (slashed m)).
Qed.

Lemma settle_members_Ok {E} c sh rt ms ms' :
  @settle_members E (clients (epoch_state c)) (exited_clients (epoch_state c)) sh rt ms = Ok ms' →
  ms' = settled c sh rt <$> ms.
Proof.
  revert ms'. induction ms as [|m ms IH]; intros ms' Hrun; cbn [settle_members] in Hrun.
  { by injection Hrun as <-. }
  apply res_bind_Ok in Hrun as (m' & ->%settle_member_Ok & Hrun).
  apply res_bind_Ok in Hrun as (ms'' & ->%IH & Hrun). by injection Hrun as <-.
Qed.

(** Distinct members match distinct clients. *)
Lemma matches_count st cl ms : NoDup (member_signer <$> ms) →
  (length (filter (matches st cl) ms) ≤ length cl)%nat.
Proof.
  intros Hn. rewrite <-(length_fmap member_signer), <-(length_fmap (λ x, signer (id x)) cl).
  apply submseteq_length, NoDup_submseteq.
  - eapply sublist_NoDup; [exact Hn|]. apply fmap_sublist, sublist_filter.
  - intros k (m & -> & [(x & Hx & Hi & _) _]%list_elem_of_filter)%list_elem_of_fmap.
    apply list_elem_of_fmap. exists x. split; [|done]. symmetry. exact Hi.
Qed.

Lemma total_settled c sh rt ms :
  total earned (settled c sh rt <$> ms) =
  total earned ms + sh * Z.of_nat (length (filter (matches Healthy (clients (epoch_state c))) ms)).
Proof.
  induction ms as [|m ms IH]; [simpl; lia|]. rewrite fmap_cons, filter_cons. cbn [total foldr].
  fold (total earned (settled c sh rt <$> ms)) (total earned ms). rewrite IH. simpl.
  case_decide; cbn [length]; lia.
Qed.

Definition pending_ids (s : InstanceState) : option (list NodeIdentity) :=
  match run_state (coordinator s) with
  | WaitingForMembers => Some (get_active_clients_ids (clients_state s))
  | _ => None
  end.

(** The members after a tick of the coordinator that returned [t]. *)
Definition members_after (t : TickResult) (c : Coordinator) (cs : ClientsState) : list SolClient :=
  match t with
  | Ticked => members cs
  | EpochEnd _ =>
      settled c (share_of c (current_epoch_rates cs))
        (slashing_rate_per_client (current_epoch_rates cs)) <$> members cs
  end.

Section Settlement.
Context {H : HashFns}.

Lemma settle_epoch_Ok s u s' : settle_epoch s = (Ok u, s') →
  coordinator s' = coordinator s ∧
  members (clients_state s') = members_after (EpochEnd true) (coordinator s) (clients_state s).
Proof.
  unfold settle_epoch. rewrite bind_self. intros Hrun.
  apply M_bind_Ok in Hrun as (ms & s1 & [Hms ->]%lift_Ok & ->%modify_Ok). split; [done|].
  apply settle_members_Ok in Hms. simpl. rewrite Hms. unfold share_of.
  destruct (Z.eqb_spec (zlen (clients (epoch_state (coordinator s)))) 0) as [->|]; [|done].
  by rewrite Zdiv_0_r.
Qed.

Lemma inst_tick_Ok clock s u s' : inst_tick clock s = (Ok u, s') →
  ∃ t, tick (pending_ids s) (now clock) (get_random_seed clock) (coordinator s)
         = (Ok t, coordinator s') ∧
       members (clients_state s') = members_after t (coordinator s') (clients_state s).
Proof.
  unfold inst_tick. rewrite bind_self. intros Hrun.
  apply M_bind_Ok in Hrun as (ids & s1 & Hids & Hrun).
  assert (ids = pending_ids s ∧ coordinator s1 = coordinator s ∧
          clients_state s1 = clients_state s) as (-> & Ec & Em).
  { unfold pending_ids. destruct (run_state (coordinator s)); run_inv; done. }
  apply M_bind_Ok in Hrun as (t & s2 & Ht & Hrun). unfold coord in Ht.
  apply zoom_Ok in Ht as (c & Ht & ->). rewrite Ec in Ht. exists t.
  destruct t as [|b].
  - assert (coordinator s' = c ∧ members (clients_state s') = members (clients_state s1)) as [-> ->].
    { rewrite bind_self in Hrun. clear Ht. destruct (_ && _); [|destruct (_ && _)];
        try unfold bump_next_active in Hrun; run_inv; done. }
    by rewrite Em.
  - apply settle_epoch_Ok in Hrun as [-> ->]. simpl. by rewrite Em.
Qed.
End Settlement.

(** C12: a tick of the program pays and slashes exactly when it ends an epoch: then
    every member whose client finished the epoch healthy earns the same share, every
    member whose client was ejected is charged the slashing rate once, and nobody else
    changes; the shares paid never exceed the epoch's total reward. *)
Theorem epoch_settlement {H : HashFns} clock s s' :
  inst_wf s → 0 <= earning_rate_total_shared (current_epoch_rates (clients_state s)) →
  inst_tick clock s = (Ok tt, s') →
  ∃ t, tick (pending_ids s) (now clock) (get_random_seed clock) (coordinator s)
         = (Ok t, coordinator s') ∧
    members (clients_state s') = members_after t (coordinator s') (clients_state s) ∧
    0 <= total earned (members (clients_state s')) - total earned (members (clients_state s))
      <= earning_rate_total_shared (current_epoch_rates (clients_state s)).
Proof.
  intros (_ & _ & Hn) Hr (t & Ht & Hm)%inst_tick_Ok. exists t. split; [done|]. split; [done|].
  rewrite Hm. destruct t as [|b]; cbn [members_after]; [lia|]. rewrite total_settled.
  set (c := coordinator s') in *. unfold share_of.
  assert (Hk := matches_count Healthy (clients (epoch_state c)) _ Hn).
  set (k := length (filter _ _)) in *. set (r := earning_rate_total_shared _) in *.
  unfold zlen. set (n := length (clients (epoch_state c))) in *.
  destruct (decide (n = 0%nat)) as [->|Hnz]; [replace (Z.of_nat k) with 0 by lia; lia|].
  assert (0 <= r / Z.of_nat n) by (apply Z.div_pos; lia).
  assert (Z.of_nat n * (r / Z.of_nat n) <= r) by (apply Z.mul_div_le; lia). nia.
Qed.

Lemma demo_reachable_wf a : @account_reachable zero_hashes Demo.inst Demo.key Demo.start a →
  inst_wf (acc_state a).
Proof.
  assert (H0 : inst_wf (acc_state Demo.start)).
  { refine (proj1 (init_wf 10 10 [0; 0] 255 Demo.owner Demo.owner Demo.key [114; 117; 110] []
      Demo.inst Demo.start _)). vm_compute. reflexivity. }
  intros Hr. by apply account_reachable_wf in Hr as [? _].
Qed.

Lemma demo_cooling_wf : inst_wf (acc_state Demo.cooling).
Proof. apply demo_reachable_wf. do 8 apply ar_step. apply ar_refl. Qed.

Lemma demo_pausing_wf : inst_wf (acc_state Demo.pausing).
Proof. apply demo_reachable_wf. do 9 apply ar_step. apply ar_refl. Qed.

Lemma demo_waiting_wf : inst_wf (acc_state Demo.resumed).
Proof. apply demo_reachable_wf. do 4 apply ar_step. apply ar_refl. Qed.

Lemma epoch_settlement_witness :
  (earned <$> members (clients_state (acc_state Demo.finished))) = [1000] ∧
  ∃ t, tick None 130 (@get_random_seed zero_hashes (Demo.clock 130))
         (coordinator (acc_state Demo.cooling)) = (Ok t, coordinator (acc_state Demo.finished)) ∧
    members (clients_state (acc_state Demo.finished)) =
      members_after t (coordinator (acc_state Demo.finished)) (clients_state (acc_state Demo.cooling)) ∧
    0 <= total earned (members (clients_state (acc_state Demo.finished)))
         - total earned (members (clients_state (acc_state Demo.cooling))) <= 1000.
Proof.
  split; [vm_compute; reflexivity|].
  apply (@epoch_settlement zero_hashes (Demo.clock 130) (acc_state Demo.cooling)
    (acc_state Demo.finished) demo_cooling_wf); [vm_compute; discriminate|].
  vm_compute. reflexivity.
Defined.

(** *** Epochs that end by a pause *)

Section Pausing.
Context {H : HashFns}.

Lemma withdrawn_not_healthy x : state (withdraw_client x) ≠ Healthy.
Proof. unfold withdraw_client. case_decide; [done|done]. Qed.

(** An epoch that ends because a pause is pending leaves no client healthy. *)
Lemma tick_cooldown_pausing ts c c' b : epoch_wf (epoch_state c) →
  is_true (pending_pause c) = true → tick_cooldown ts c = (Ok (EpochEnd b), c') →
  Forall (λ x, state x ≠ Healthy) (clients (epoch_state c')).
Proof.
  intros He Hp Hrun. unfold tick_cooldown in Hrun. do 2 peel Hrun.
  destruct a; [|by apply mret_Ok in Hrun as [? _]].
  do 7 peel Hrun. apply move_clients_wf in Ha4 as [He2 ->]; [|done].
  do 2 peel Hrun. apply mret_Ok in Hrun as [_ ->]. rename Ha4 into Hrun. rewrite Hp in Hrun.
  peel Hrun. rewrite withdraw_all_run in Ha4. injection Ha4 as <- <-.
  do 2 peel Hrun. apply change_state_Ok in Ha4 as [_ ->].
  unfold set_cold_start in Hrun. apply modify_Ok in Hrun as ->.
  simpl. apply Forall_fmap, Forall_true. intros x. apply withdrawn_not_healthy.
Qed.
End Pausing.

(** An epoch that ends while a pause is pending pays nobody: the tick withdraws
    every client before the settlement looks for the healthy ones, so that members who
    finished the epoch earn nothing for it. *)
Theorem paused_epoch_pays_nobody {H : HashFns} clock s s' :
  inst_wf s → run_state (coordinator s) = Cooldown →
  is_true (pending_pause (coordinator s)) = true → inst_tick clock s = (Ok tt, s') →
  earned <$> members (clients_state s') = earned <$> members (clients_state s).
Proof.
  intros ((He & _) & _) Hs Hp (t & Ht & ->)%inst_tick_Ok. destruct t as [|b]; [done|].
  unfold tick in Ht. rewrite bind_self, Hs in Ht. apply tick_cooldown_pausing in Ht; [|done..].
  cbn [members_after]. rewrite <-list_fmap_compose. apply list_fmap_ext. intros _ m _.
  unfold settled, compose. simpl. rewrite decide_False; [lia|].
  intros (x & Hx & _ & Hh). rewrite list.Forall_forall in Ht. by apply (Ht x).
Qed.

Lemma paused_epoch_pays_nobody_witness :
  run_state (coordinator (acc_state Demo.paused)) = Paused ∧
  (state <$> clients (epoch_state (coordinator (acc_state Demo.pausing)))) = [Healthy] ∧
  earned <$> members (clients_state (acc_state Demo.paused)) =
  earned <$> members (clients_state (acc_state Demo.pausing)).
Proof.
  split; [vm_compute; reflexivity|]. split; [vm_compute; reflexivity|].
  apply (@paused_epoch_pays_nobody zero_hashes (Demo.clock 130) (acc_state Demo.pausing)
    (acc_state Demo.paused) demo_pausing_wf); vm_compute; reflexivity.
Defined.

(** *** Slashes between epochs *)

(** The epoch that starts has nobody ejected in it. *)
Lemma tick_waiting_fresh pending ts c c' t : run_state c = WaitingForMembers →
  tick_waiting_for_members pending ts c = (Ok t, c') →
  t = Ticked ∧ (run_state c' = Warmup → ∀ i, ¬ ejected_in (epoch_state c') i).
Proof.
  intros Hs Hrun. unfold tick_waiting_for_members in Hrun.
  destruct pending as [pending|]; [|apply mret_Ok in Hrun as [-> ->]; split; [done|by rewrite Hs]].
  do 3 peel Hrun. apply mret_Ok in Hrun as [-> ->]. split; [done|].
  apply whenM_Ok in Ha0 as [[_ Hrun]|[_ ->]]; [|by rewrite Hs].
  do 11 peel Hrun. apply change_state_Ok in Hrun as [_ ->].
  intros _ i (x & Hx & He & _). simpl in Hx. rewrite app_nil_r in Hx.
  by apply list_elem_of_fmap in Hx as (y & -> & _).
Qed.

(** A slash while the run waits is gone once the next epoch has started. *)
Lemma slash_waiting_lost {H : HashFns} k clock s s1 s2 :
  run_state (coordinator s) = WaitingForMembers →
  inst_slash k s = (Ok tt, s1) → inst_tick clock s1 = (Ok tt, s2) →
  run_state (coordinator s2) = Warmup →
  members (clients_state s2) = members (clients_state s) ∧
  ∀ i, ¬ ejected_in (epoch_state (coordinator s2)) i.
Proof.
  intros Hs Hk (t & Ht & ->)%inst_tick_Ok Hw. unfold inst_slash, coord in Hk.
  apply zoom_Ok in Hk as (c & Hk & ->). simpl in *.
  assert (run_state c = WaitingForMembers) as Hc.
  { unfold eject, set_client_state in Hk. rewrite bind_self in Hk.
    destruct (znth _ _); [destruct (_ || _)|]; run_inv; done. }
  unfold tick in Ht. rewrite bind_self, Hc in Ht. apply tick_waiting_fresh in Ht as [-> He]; [|done].
  split; [done|by apply He].
Qed.

(** A slash that lands while the run waits for members is lost: it succeeds, but
    the next epoch starts with a zeroed epoch state, so no member is charged and
    nobody is left ejected. *)
Theorem slash_between_epochs_is_lost {H : HashFns} k clock s s1 s2 :
  run_state (coordinator s) = WaitingForMembers →
  inst_slash k s = (Ok tt, s1) → inst_tick clock s1 = (Ok tt, s2) →
  run_state (coordinator s2) = Warmup →
  members (clients_state s2) = members (clients_state s) ∧
  ∀ i, ¬ ejected_in (epoch_state (coordinator s2)) i.
Proof. apply slash_waiting_lost. Qed.

(** The limit on the number of members compares for equality: once the
    authority lowers the batch size below the number of members of a halted run, every
    further join succeeds, up to the capacity of the account. *)
Theorem join_beyond_batches {H : HashFns} clock i s :
  halted (coordinator s) = true → signer i ∉ signers s →
  global_batch_size_end (config (coordinator s)) < zlen (members (clients_state s)) →
  (length (members (clients_state s)) < SOLANA_MAX_NUM_PENDING_CLIENTS)%nat →
  ∃ s', inst_join_run clock i s = (Ok tt, s') ∧
    zlen (members (clients_state s')) = zlen (members (clients_state s)) + 1.
Proof.
  intros Hh Hi Hb Hl. unfold inst_join_run. rewrite bind_self. cbn zeta.
  destruct (member_index i _) as [k|] eqn:Hk.
  { destruct (member_index_Some _ _ _ Hk) as (m & Hm & Hs). destruct Hi. rewrite <-Hs.
    unfold signers. apply list_elem_of_fmap. exists m. split; [done|by eapply list_elem_of_lookup_2]. }
  assert (as_u16 (zlen (members (clients_state s))) = zlen (members (clients_state s))) as ->.
  { unfold as_u16, zlen. apply Z.mod_small.
    unfold SOLANA_MAX_NUM_PENDING_CLIENTS, SOLANA_MAX_NUM_CLIENTS in Hl. lia. }
  rewrite (proj2 (Z.eqb_neq _ _)) by lia. rewrite (proj2 (Nat.leb_gt _ _)) by done.
  rewrite Hh. eexists. split; [reflexivity|]. simpl. unfold zlen. rewrite length_app. simpl. lia.
Qed.

(** A run whose epoch ends by its time limit, after three rounds. *)
Module Limits.

Definition cfg : CoordinatorConfig := mkConfig 30 30 30 10 0 40 1000 1 1 1 4 4 0 5.
Definition auth (k : Z) : Authorization :=
  mkAuthorization 0 Demo.owner (replicate 32 k) JOIN_RUN_AUTHORIZATION_SCOPE true [] 0.
Definition join (k t : Z) (a : CoordinatorAccount) : CoordinatorAccount :=
  Demo.send (replicate 32 k) t (IJoinRun (auth k) (from_single_key (replicate 32 k))) a.
Definition configured : CoordinatorAccount :=
  Demo.send Demo.owner 10 (IUpdate None (Some cfg) (Some (ModelLLM Demo.llm)) None) Demo.start.
Definition warming : CoordinatorAccount :=
  join 7 50 (Demo.send Demo.owner 40 (ISetPaused false) configured).
Definition round (t : Z) (a : CoordinatorAccount) : CoordinatorAccount :=
  Demo.send Demo.joiner (t + 10) ITick (Demo.send Demo.joiner t (IWitness (Sample.vote_of 0)) a).
Definition waiting : CoordinatorAccount :=
  Demo.send Demo.joiner 170 ITick
    (round 130 (round 110 (round 90 (Demo.send Demo.joiner 80 ITick warming)))).
Definition rejoined : CoordinatorAccount := join 7 171 waiting.
Definition slashed : CoordinatorAccount := Demo.send Demo.owner 172 (ISlashClient 0) rejoined.
Definition warming_again : CoordinatorAccount := Demo.send Demo.joiner 180 ITick slashed.

(** Two members, then a configuration with one batch. *)
Definition crowded : CoordinatorAccount :=
  Demo.send Demo.owner 30
    (IUpdate None (Some (mkConfig 30 30 30 10 0 40 1000 1 1 1 1 1 0 5)) None None)
    (join 7 20 (join 6 20 configured)).

End Limits.

Lemma slash_between_epochs_is_lost_witness :
  (state <$> clients (epoch_state (coordinator (acc_state Limits.slashed)))) = [Ejected] ∧
  members (clients_state (acc_state Limits.warming_again)) =
    members (clients_state (acc_state Limits.rejoined)) ∧
  ∀ i, ¬ ejected_in (epoch_state (coordinator (acc_state Limits.warming_again))) i.
Proof.
  split; [vm_compute; reflexivity|].
  apply (@slash_between_epochs_is_lost zero_hashes 0 (Demo.clock 180) (acc_state Limits.rejoined)
    (acc_state Limits.slashed) (acc_state Limits.warming_again)); vm_compute; reflexivity.
Defined.

Lemma join_beyond_batches_witness :
  zlen (members (clients_state (acc_state Limits.crowded))) = 2 ∧
  global_batch_size_end (config (coordinator (acc_state Limits.crowded))) = 1 ∧
  ∃ s', @inst_join_run zero_hashes (Demo.clock 40) (from_single_key (replicate 32 5))
          (acc_state Limits.crowded) = (Ok tt, s') ∧
    zlen (members (clients_state s')) = zlen (members (clients_state (acc_state Limits.crowded))) + 1.
Proof.
  split; [vm_compute; reflexivity|]. split; [vm_compute; reflexivity|].
  apply (@join_beyond_batches zero_hashes (Demo.clock 40) (from_single_key (replicate 32 5))
    (acc_state Limits.crowded)).
  - vm_compute. reflexivity.
  - apply (bool_decide_eq_false_1 (signer (from_single_key (replicate 32 5)) ∈ signers (acc_state Limits.crowded))).
    vm_compute. reflexivity.
  - vm_compute. reflexivity.
  - apply Nat.ltb_lt. vm_compute. reflexivity.
Defined.
