(* ===== verification/Tokens.v ===== *)
(** * The token program

    The treasurer, the distributor and the mining pool hold tokens in accounts of the
    SPL token program, which is not part of the repository: it is the class
    [TokenProgram], with its documented behaviour in [TokenLaws] and an instance that
    shows the laws can hold.  The sums over maps of accounts that the programs' books
    are stated with are here too. *)

From stdpp Require Import base tactics list numbers gmap.
From S2P Require Import Prelude Authorizer.

Open Scope Z_scope.

(** ** The token program *)
Record TokenAccount := mkToken {
  ta_mint : Pubkey;
  ta_owner : Pubkey;
  ta_delegate : option Pubkey;
  ta_amount : Z
}.
Notation tokens := (gmap (list Z) TokenAccount).

Definition credit (n : Z) (t : TokenAccount) : TokenAccount :=
  mkToken (ta_mint t) (ta_owner t) (ta_delegate t) (ta_amount t + n).

(** [token_transfer from to authority amount]. *)
Class TokenProgram := {
  token_transfer : Pubkey → Pubkey → Pubkey → Z → tokens → option tokens
}.

(** A successful transfer found both accounts, had the funds, and moved them. *)
Class TokenLaws (T : TokenProgram) : Prop := {
  transfer_moves from to authority n ts ts' : 0 <= n →
    token_transfer from to authority n ts = Some ts' →
    (∃ a b, ts !! from = Some a ∧ ts !! to = Some b ∧ n <= ta_amount a) ∧
    ts' = alter (credit n) to (alter (credit (- n)) from ts)
}.

(** An instance: the owner signs, the mints agree, the balance suffices. *)
Definition spl_tokens : TokenProgram := {|
  token_transfer from to authority n ts :=
    match ts !! from, ts !! to with
    | Some a, Some b =>
        if bool_decide (ta_owner a = authority) && bool_decide (ta_mint a = ta_mint b)
           && (n <=? ta_amount a)
        then Some (alter (credit n) to (alter (credit (- n)) from ts)) else None
    | _, _ => None
    end
|}.

#[export] Instance spl_tokens_laws : TokenLaws spl_tokens.
Proof.
  split. cbn [token_transfer spl_tokens]. intros from to au n ts ts' Hn Ht.
  destruct (ts !! from) as [a|] eqn:Ha; [|done]. destruct (ts !! to) as [b|] eqn:Hb; [|done].
  destruct (_ && _) eqn:Hc; [|done]. bool_prop. injection Ht as <-. split; [|done]. by exists a, b.
Qed.

(** The address of the associated token account of an authority for a mint, derived by the
    runtime. *)
Class AssociatedTokens := {
  associated_token : Pubkey → Pubkey → Pubkey
}.

(** An authority has different addresses for different mints. *)
Class AssociatedLaws (A : AssociatedTokens) : Prop := {
  associated_token_inj o m m' : associated_token o m = associated_token o m' → m = m'
}.

Section Moves.
Context {T : TokenProgram} `{!TokenLaws T}.

(** A transfer from the vault takes at most the amount. *)
Lemma vault_debit v to au n ts ts' t : 0 <= n → token_transfer v to au n ts = Some ts' →
  ts !! v = Some t →
  ∃ t', ts' !! v = Some t' ∧ ta_owner t' = ta_owner t ∧ ta_mint t' = ta_mint t ∧
    ta_amount t - n <= ta_amount t' ∧ (to ≠ v → ta_amount t' = ta_amount t - n).
Proof.
  intros Hn [(a & b & Ha & Hb & Hle) ->]%transfer_moves Hv; [|done].
  destruct (decide (to = v)) as [->|Hne].
  - rewrite lookup_alter_eq, lookup_alter_eq, Hv. simpl. eexists. split; [done|]. simpl.
    split_and!; [done..|lia|done].
  - rewrite lookup_alter_ne, lookup_alter_eq, Hv by done. simpl. eexists. split; [done|]. simpl.
    split_and!; [done..|lia|lia].
Qed.

Lemma vault_credit from v au n ts ts' t : 0 <= n → token_transfer from v au n ts = Some ts' →
  ts !! v = Some t → from ≠ v →
  ∃ t', ts' !! v = Some t' ∧ ta_owner t' = ta_owner t ∧ ta_amount t' = ta_amount t + n.
Proof.
  intros Hn [_ ->]%transfer_moves Hv Hne; [|done].
  rewrite lookup_alter_eq, lookup_alter_ne, Hv by done. simpl. eauto.
Qed.

End Moves.

(** ** Sums over accounts *)
Section Sums.
Context {K V : Type} `{Countable K}.
Implicit Types (f : V → Z) (m : gmap K V).

Definition msum f m : Z :=
  map_fold (λ _ p a, f p + a) 0 m.

Lemma msum_empty f : msum f ∅ = 0.
Proof. apply map_fold_empty. Qed.

Lemma msum_insert f m k p : m !! k = None → msum f (<[k := p]> m) = f p + msum f m.
Proof. intros Hk. unfold msum. rewrite map_fold_insert_L; [done| |done]. intros; lia. Qed.

Lemma msum_update f m k p q : m !! k = Some p →
  msum f (<[k := q]> m) = msum f m - f p + f q.
Proof.
  intros Hk. rewrite <-(insert_delete_eq m k q), msum_insert by apply lookup_delete_eq.
  rewrite <-(insert_delete_id m k p Hk) at 2. rewrite msum_insert by apply lookup_delete_eq. lia.
Qed.

Lemma msum_nonneg f m : (∀ k p, m !! k = Some p → 0 <= f p) → 0 <= msum f m.
Proof.
  induction m as [|k p m Hk IH] using map_ind; intros Hm; [by rewrite msum_empty|].
  rewrite msum_insert by done.
  assert (0 <= f p) by (apply (Hm k); apply lookup_insert_eq).
  enough (0 <= msum f m) by lia. apply IH. intros k' p' Hp. apply (Hm k').
  rewrite lookup_insert_ne; [done|]. congruence.
Qed.

Lemma msum_member f m k p : (∀ k p, m !! k = Some p → 0 <= f p) → m !! k = Some p →
  f p <= msum f m.
Proof.
  intros Hm Hk. rewrite <-(insert_delete_id m k p Hk), msum_insert by apply lookup_delete_eq.
  enough (0 <= msum f (delete k m)) by lia. apply msum_nonneg.
  intros k' p' Hp. apply lookup_delete_Some in Hp as [_ Hp]. by eapply Hm.
Qed.

Lemma msum_le f g m : (∀ k v, m !! k = Some v → f v <= g v) → msum f m <= msum g m.
Proof.
  induction m as [|k v m Hk IH] using map_ind; intros Hm; [by rewrite !msum_empty|].
  rewrite !msum_insert by done. apply Z.add_le_mono; [apply (Hm k), lookup_insert_eq|].
  apply IH. intros k' v' Hk'. apply (Hm k'). rewrite lookup_insert_ne; [done|congruence].
Qed.

Lemma msum_sub f g m : msum (λ v, f v - g v) m = msum f m - msum g m.
Proof.
  induction m as [|k v m Hk IH] using map_ind; [by rewrite !msum_empty|].
  rewrite !msum_insert, IH by done. lia.
Qed.

Lemma msum_scale c f m : msum (λ v, c * f v) m = c * msum f m.
Proof.
  induction m as [|k v m Hk IH] using map_ind; [rewrite !msum_empty; lia|].
  rewrite !msum_insert, IH by done. lia.
Qed.

End Sums.

(** ** Checks and transfers inside an instruction

    [get] and [set] are the token accounts of the program's state, [bad] the error of a
    violated account constraint and [failed] that of a refused transfer. *)
Section Accounts.
Context {T : TokenProgram} {E S : Type} (get : S → tokens) (set : tokens → S → S) (bad failed : E).

Definition require_that (P : Prop) `{!Decision P} : M E S unit :=
  throw_if (negb (bool_decide P)) bad.

Definition token_at (key : Pubkey) : M E S TokenAccount :=
  s ← self; lift (ok_or (get s !! key) bad).

(** [associated_token::mint = mint, associated_token::authority = authority]. *)
Definition vault_at (key authority mint : Pubkey) : M E S TokenAccount :=
  t ← token_at key;
  require_that (ta_mint t = mint) ;;
  require_that (ta_owner t = authority) ;;
  mret t.

(** A receiving account: of the mint, with no delegate. *)
Definition receiver_at (key mint : Pubkey) : M E S TokenAccount :=
  t ← token_at key;
  require_that (ta_mint t = mint) ;;
  require_that (ta_delegate t = None) ;;
  mret t.

Definition transfer_tokens (from to authority : Pubkey) (amount : Z) : M E S unit :=
  s ← self;
  ts ← lift (ok_or (token_transfer from to authority amount (get s)) failed);
  modify (set ts).

Lemma require_that_Ok P `{!Decision P} s u s' : require_that P s = (Ok u, s') → s' = s ∧ P.
Proof. unfold require_that. intros Hrun. run_inv. by bool_prop. Qed.

Lemma vault_at_Ok key au mint s t s' : vault_at key au mint s = (Ok t, s') →
  s' = s ∧ get s !! key = Some t ∧ ta_mint t = mint ∧ ta_owner t = au.
Proof. unfold vault_at, token_at, require_that. intros Hrun. run_inv. bool_prop. auto. Qed.

Lemma receiver_at_Ok key mint s t s' : receiver_at key mint s = (Ok t, s') →
  s' = s ∧ get s !! key = Some t ∧ ta_mint t = mint ∧ ta_delegate t = None.
Proof. unfold receiver_at, token_at, require_that. intros Hrun. run_inv. bool_prop. auto. Qed.

Lemma transfer_tokens_Ok from to au n s u s' : transfer_tokens from to au n s = (Ok u, s') →
  ∃ ts, token_transfer from to au n (get s) = Some ts ∧ s' = set ts s.
Proof. unfold transfer_tokens. intros Hrun. run_inv. eauto. Qed.

(** The same, forwards. *)
Lemma require_that_run P `{!Decision P} s : P → require_that P s = (Ok tt, s).
Proof. intros HP. unfold require_that. by rewrite bool_decide_true. Qed.

Lemma vault_at_run key au mint s t : get s !! key = Some t → ta_mint t = mint → ta_owner t = au →
  vault_at key au mint s = (Ok t, s).
Proof.
  intros Ht Hm Ho. unfold vault_at.
  rewrite (M_bind_run (token_at key) _ s t s) by (unfold token_at; by rewrite bind_self, Ht).
  by rewrite 2!(M_bind_run (require_that _) _ s tt s) by (by apply require_that_run).
Qed.

Lemma receiver_at_run key mint s t : get s !! key = Some t → ta_mint t = mint →
  ta_delegate t = None → receiver_at key mint s = (Ok t, s).
Proof.
  intros Ht Hm Ho. unfold receiver_at.
  rewrite (M_bind_run (token_at key) _ s t s) by (unfold token_at; by rewrite bind_self, Ht).
  by rewrite 2!(M_bind_run (require_that _) _ s tt s) by (by apply require_that_run).
Qed.

Lemma transfer_tokens_run from to au n s ts : token_transfer from to au n (get s) = Some ts →
  transfer_tokens from to au n s = (Ok tt, set ts s).
Proof. intros Ht. unfold transfer_tokens. rewrite bind_self, Ht. done. Qed.

End Accounts.
