(* ===== verification/Distributor.v ===== *)
(** * The distributor program

    architectures/decentralized/solana-distributor: an airdrop account commits to a set of
    allocations by the root of a Merkle tree; a claimer proves that its allocation is in
    the set and redeems what has vested.  [AirdropWorld] is an airdrop with the accounts
    derived from its key (its vault and the claims by claimer and nonce) and the token
    accounts.  [hashv] of the Solana runtime is SHA-256 of the concatenation, so it is the
    [digest] of [HashFns]. *)

From stdpp Require Import base tactics list numbers sets gmap.
From S2P Require Import Prelude CoreTypes Hashing Merkle Frames Authorizer Tokens.

Open Scope Z_scope.

Inductive DistributorError :=
| AirdropClaimFreezeIsTrue | ParamsMerkleProofIsInvalid | ParamsMerkleRootIsZeroed
| D_ParamsCollateralAmountIsTooLarge | VestingElapsedSecondsOverflow
| VestingNumeratorCollateralAmountOverflow | VestingDenominatorCollateralAmountOverflow
| VestingVestedCollateralAmountOverflow | AccountingUpdatesOverflow
| D_AccountConstraint | D_TokenError.

(** ** Vesting *)

Record Vesting := mkVesting {
  start_unix_timestamp : Z;     (* i64 *)
  duration_seconds : Z;         (* u32 *)
  end_collateral_amount : Z     (* u64 *)
}.

Definition checked_mul (m a b : Z) : option Z := if a * b <=? m then Some (a * b) else None.
Definition checked_div (a b : Z) : option Z := if b =? 0 then None else Some (a / b).

Definition compute_vested_collateral_amount (v : Vesting) (now_unix_timestamp : Z) :
    res DistributorError Z :=
  if now_unix_timestamp <? start_unix_timestamp v then Ok 0
  else if duration_seconds v =? 0 then Ok (end_collateral_amount v)
  else
    d ← isub64 now_unix_timestamp (start_unix_timestamp v);
    elapsed ← ok_or (if 0 <=? d then Some d else None) VestingElapsedSecondsOverflow;
    n ← ok_or (checked_mul u128_max (end_collateral_amount v) elapsed)
          VestingNumeratorCollateralAmountOverflow;
    vested ← ok_or (checked_div n (duration_seconds v))
               VestingDenominatorCollateralAmountOverflow;
    if end_collateral_amount v <? vested then Ok (end_collateral_amount v)
    else ok_or (if vested <=? u64_max then Some vested else None)
           VestingVestedCollateralAmountOverflow.

(** ** Merkle hashes *)

Definition LEAF_DOMAIN : list Z := [0].
Definition NODE_DOMAIN : list Z := [1].

(** [a <= b] on byte arrays: lexicographic. *)
Fixpoint bytes_leb (a b : list Z) : bool :=
  match a, b with
  | [], _ => true
  | _ :: _, [] => false
  | x :: a', y :: b' => if x <? y then true else if y <? x then false else bytes_leb a' b'
  end.

Section Hashes.
Context {H : HashFns}.

Definition from_parts (parts : list (list Z)) : list Z := sha256v (LEAF_DOMAIN :: parts).

Definition from_pair (a b : list Z) : list Z :=
  let '(low, high) := if bytes_leb a b then (a, b) else (b, a) in
  sha256v [NODE_DOMAIN; low; high].

Definition is_valid_proof (root leaf : list Z) (proof : list (list Z)) : bool :=
  bool_decide (foldl from_pair leaf proof = root).

End Hashes.

Record Allocation := mkAllocation {
  al_claimer : Pubkey;
  al_nonce : Z;                 (* u64 *)
  al_vesting : Vesting
}.

Definition to_merkle_hash {H : HashFns} (a : Allocation) : list Z :=
  from_parts [al_claimer a; to_le_bytes 8 (al_nonce a);
              to_le_bytes 8 (start_unix_timestamp (al_vesting a));
              to_le_bytes 4 (duration_seconds (al_vesting a));
              to_le_bytes 8 (end_collateral_amount (al_vesting a))].

(** ** Accounts *)

Record Airdrop := mkAirdrop {
  ad_bump : Z;
  ad_id : Z;
  ad_authority : Pubkey;
  ad_collateral_mint : Pubkey;
  ad_total_claimed_collateral_amount : Z;
  ad_claim_freeze : bool;
  ad_merkle_root : list Z;
  ad_metadata : list Z
}.

Record DClaim := mkDClaim {
  cl_bump : Z;
  cl_claimed_collateral_amount : Z
}.

Record AirdropWorld := mkAirdropWorld {
  aw_key : Pubkey;
  aw_airdrop : Airdrop;
  aw_claims : gmap (list Z * Z) DClaim;
  aw_tokens : tokens
}.

Definition set_airdrop (x : Airdrop) (w : AirdropWorld) : AirdropWorld :=
  mkAirdropWorld (aw_key w) x (aw_claims w) (aw_tokens w).
Definition set_claim (k : list Z * Z) (x : DClaim) (w : AirdropWorld) : AirdropWorld :=
  mkAirdropWorld (aw_key w) (aw_airdrop w) (<[k := x]> (aw_claims w)) (aw_tokens w).
Definition set_aw_tokens (x : tokens) (w : AirdropWorld) : AirdropWorld :=
  mkAirdropWorld (aw_key w) (aw_airdrop w) (aw_claims w) x.
Definition set_freeze (x : bool) (a : Airdrop) : Airdrop :=
  mkAirdrop (ad_bump a) (ad_id a) (ad_authority a) (ad_collateral_mint a)
    (ad_total_claimed_collateral_amount a) x (ad_merkle_root a) (ad_metadata a).
Definition set_merkle_root (x : list Z) (a : Airdrop) : Airdrop :=
  mkAirdrop (ad_bump a) (ad_id a) (ad_authority a) (ad_collateral_mint a)
    (ad_total_claimed_collateral_amount a) (ad_claim_freeze a) x (ad_metadata a).
Definition set_ad_metadata (x : list Z) (a : Airdrop) : Airdrop :=
  mkAirdrop (ad_bump a) (ad_id a) (ad_authority a) (ad_collateral_mint a)
    (ad_total_claimed_collateral_amount a) (ad_claim_freeze a) (ad_merkle_root a) x.
Definition set_ad_total (x : Z) (a : Airdrop) : Airdrop :=
  mkAirdrop (ad_bump a) (ad_id a) (ad_authority a) (ad_collateral_mint a) x
    (ad_claim_freeze a) (ad_merkle_root a) (ad_metadata a).

Notation DM := (M DistributorError AirdropWorld).

(** ** Instructions *)

Section Instructions.
Context {H : HashFns} {T : TokenProgram} {A : AssociatedTokens}.

Notation require_d := (require_that D_AccountConstraint).
Notation vault_d := (vault_at aw_tokens D_AccountConstraint).
Notation receiver_d := (receiver_at aw_tokens D_AccountConstraint).
Notation transfer_d := (transfer_tokens aw_tokens set_aw_tokens D_TokenError).

(** The airdrop and its vault are initialised: the vault must not exist yet. *)
Definition airdrop_create (bump id : Z) (key authority mint : Pubkey) (root metadata : list Z)
    (ts : tokens) : res DistributorError AirdropWorld :=
  let vault := associated_token key mint in
  res_throw_if (bool_decide (is_Some (ts !! vault))) D_AccountConstraint ;;
  Ok (mkAirdropWorld key (mkAirdrop bump id authority mint 0 false root metadata) ∅
        (<[vault := mkToken mint key None 0]> ts)).

Definition airdrop_update (authority : Pubkey) (claim_freeze : option bool)
    (merkle_root metadata : option (list Z)) : DM unit :=
  w ← self;
  require_d (ad_authority (aw_airdrop w) = authority) ;;
  match claim_freeze with
  | Some b => modify (λ w, set_airdrop (set_freeze b (aw_airdrop w)) w)
  | None => mret tt
  end ;;
  match merkle_root with
  | Some r =>
      throw_if (bool_decide (r = replicate 32 0)) ParamsMerkleRootIsZeroed ;;
      modify (λ w, set_airdrop (set_merkle_root r (aw_airdrop w)) w)
  | None => mret tt
  end ;;
  match metadata with
  | Some m => modify (λ w, set_airdrop (set_ad_metadata m (aw_airdrop w)) w)
  | None => mret tt
  end.

(** The mint passed is only tied to the vault it selects. *)
Definition airdrop_withdraw (authority receiver mint : Pubkey) (amount : Z) : DM unit :=
  w ← self;
  let vault := associated_token (aw_key w) mint in
  receiver_d receiver (ad_collateral_mint (aw_airdrop w)) ;;
  require_d (ad_authority (aw_airdrop w) = authority) ;;
  vault_d vault (aw_key w) mint ;;
  transfer_d vault receiver (aw_key w) amount.

Definition claim_create (claimer : Pubkey) (nonce bump : Z) : DM unit :=
  w ← self;
  require_d (aw_claims w !! (claimer, nonce) = None) ;;
  throw_if (ad_claim_freeze (aw_airdrop w)) AirdropClaimFreezeIsTrue ;;
  modify (set_claim (claimer, nonce) (mkDClaim bump 0)).

Definition claim_redeem (now_unix : Z) (claimer receiver mint : Pubkey) (nonce : Z)
    (vesting : Vesting) (amount : Z) (proof : list (list Z)) : DM unit :=
  w ← self;
  let a := aw_airdrop w in
  let vault := associated_token (aw_key w) (ad_collateral_mint a) in
  receiver_d receiver (ad_collateral_mint a) ;;
  require_d (ad_collateral_mint a = mint) ;;
  vault_d vault (aw_key w) (ad_collateral_mint a) ;;
  claim ← lift (ok_or (aw_claims w !! (claimer, nonce)) D_AccountConstraint);
  throw_if (ad_claim_freeze a) AirdropClaimFreezeIsTrue ;;
  throw_if (negb (is_valid_proof (ad_merkle_root a)
                    (to_merkle_hash (mkAllocation claimer nonce vesting)) proof))
    ParamsMerkleProofIsInvalid ;;
  vested ← lift (compute_vested_collateral_amount vesting now_unix);
  let claimable := sat_sub vested (cl_claimed_collateral_amount claim) in
  throw_if (claimable <? amount) D_ParamsCollateralAmountIsTooLarge ;;
  claimed ← lift (uadd u64_max (cl_claimed_collateral_amount claim) amount);
  total ← lift (uadd u64_max (ad_total_claimed_collateral_amount a) amount);
  modify (set_claim (claimer, nonce) (mkDClaim (cl_bump claim) claimed)) ;;
  modify (λ w, set_airdrop (set_ad_total total (aw_airdrop w)) w) ;;
  transfer_d vault receiver (aw_key w) amount.

End Instructions.

(** ** What has vested *)

Definition vesting_ok (v : Vesting) : Prop :=
  i64 (start_unix_timestamp v) ∧ u32 (duration_seconds v) ∧ u64 (end_collateral_amount v).

(** The schedule: nothing before the start, then linear, at most the whole amount. *)
Definition vested (v : Vesting) (now : Z) : Z :=
  if now <? start_unix_timestamp v then 0
  else if duration_seconds v =? 0 then end_collateral_amount v
  else Z.min (end_collateral_amount v)
         (end_collateral_amount v * (now - start_unix_timestamp v) / duration_seconds v).

Lemma vested_range v now : vesting_ok v → 0 <= vested v now <= end_collateral_amount v.
Proof.
  intros (Hs & Hd & He). unfold vested, u32, u64 in *.
  destruct (Z.ltb_spec now (start_unix_timestamp v)); [lia|].
  destruct (Z.eqb_spec (duration_seconds v) 0); [lia|].
  assert (0 <= end_collateral_amount v * (now - start_unix_timestamp v) / duration_seconds v).
  { apply Z.div_pos; [|lia]. apply Z.mul_nonneg_nonneg; lia. }
  lia.
Qed.

Lemma vested_mono v now now' : vesting_ok v → now <= now' → vested v now <= vested v now'.
Proof.
  intros Hv Hn. pose proof (vested_range v now' Hv) as Hr. destruct Hv as (Hs & Hd & He).
  unfold vested, u32, u64 in *.
  destruct (Z.ltb_spec now (start_unix_timestamp v)); [lia|].
  rewrite (proj2 (Z.ltb_ge now' _)) in * by lia.
  destruct (Z.eqb_spec (duration_seconds v) 0); [lia|].
  apply Z.min_le_compat_l, Z.div_le_mono; [lia|]. apply Z.mul_le_mono_nonneg_l; lia.
Qed.

Lemma compute_vested_run v now : vesting_ok v → now - start_unix_timestamp v <= i64_max →
  compute_vested_collateral_amount v now = Ok (vested v now).
Proof.
  intros (Hs & Hd & He) Hn. unfold compute_vested_collateral_amount, vested, i64, u32, u64 in *.
  destruct (Z.ltb_spec now (start_unix_timestamp v)); [done|].
  destruct (Z.eqb_spec (duration_seconds v) 0); [done|].
  unfold isub64. rewrite !(proj2 (Z.leb_le _ _)) by (unfold i64_min in *; lia).
  cbn [andb mbind res_bind ok_or]. rewrite (proj2 (Z.leb_le 0 _)) by lia. cbn [mbind res_bind ok_or].
  set (d := now - start_unix_timestamp v) in *.
  unfold checked_mul. rewrite (proj2 (Z.leb_le _ _)).
  2: { transitivity (u64_max * i64_max); [apply Z.mul_le_mono_nonneg; lia|done]. }
  cbn [mbind res_bind ok_or]. unfold checked_div. rewrite (proj2 (Z.eqb_neq _ _)) by done.
  cbn [mbind res_bind ok_or].
  destruct (Z.ltb_spec (end_collateral_amount v) (end_collateral_amount v * d / duration_seconds v)).
  - by rewrite Z.min_l by lia.
  - rewrite (proj2 (Z.leb_le _ u64_max)), Z.min_r by lia. done.
Qed.

(** For every schedule of the account types and every time less than 2^63 seconds after
    its start, the vested amount is computed without overflow and is the linear schedule:
    zero before the start, the whole amount from the end on, never more than it, and
    never less at a later time. *)
Theorem vesting_schedule v now : vesting_ok v → now - start_unix_timestamp v <= i64_max →
  compute_vested_collateral_amount v now = Ok (vested v now) ∧
  0 <= vested v now <= end_collateral_amount v ∧
  (now < start_unix_timestamp v → vested v now = 0) ∧
  (start_unix_timestamp v + duration_seconds v <= now → vested v now = end_collateral_amount v) ∧
  ∀ now', now <= now' → vested v now <= vested v now'.
Proof.
  intros Hv Hn. split_and!; [by apply compute_vested_run|by apply vested_range..| | |].
  - intros Hlt. unfold vested. by rewrite (proj2 (Z.ltb_lt _ _)).
  - intros Hge. destruct Hv as (Hs & Hd & He). unfold vested, u32, u64 in *.
    rewrite (proj2 (Z.ltb_ge _ _)) by lia.
    destruct (Z.eqb_spec (duration_seconds v) 0); [done|]. apply Z.min_l.
    apply Z.div_le_lower_bound; [lia|]. rewrite Z.mul_comm. apply Z.mul_le_mono_nonneg_l; lia.
  - intros now' Hle. by apply vested_mono.
Qed.

Lemma vesting_schedule_witness :
  let v := mkVesting 100 60 1000 in
  compute_vested_collateral_amount v 130 = Ok 500 ∧ vested v 130 <= vested v 145.
Proof.
  assert (Hv : vesting_ok (mkVesting 100 60 1000)) by (repeat split; discriminate).
  destruct (vesting_schedule (mkVesting 100 60 1000) 130 Hv) as (H1 & _ & _ & _ & H2);
    [discriminate|].
  split; [exact H1|apply H2; discriminate].
Defined.
