(* ===== verification/AirdropTree.v ===== *)
(** * The tree of an airdrop

    [AirdropMerkleTree] of architectures/decentralized/solana-tooling/src/distributor.rs, which
    builds the root an airdrop commits to and the proofs claimers send, against the
    verification of the on-chain program: every proof the tool builds is accepted, and an
    accepted proof belongs to an allocation of the tree unless SHA-256 collides. *)

From stdpp Require Import base tactics list numbers sets gmap.
From S2P Require Import Prelude CoreTypes Hashing Merkle Authorizer Distributor.

Open Scope nat_scope.

Inductive TreeError := AllocationsMustNotBeEmpty | MerkleTreeIsEmpty.

Record AirdropMerkleTree := mkAirdropTree {
  at_allocations : list Allocation;
  merkle_layers : list (list (list Z))
}.

Section Tree.
Context {H : HashFns}.

(** The [while] loop: the layers from [layer] up; [fuel] bounds their number. *)
Fixpoint build_layers (fuel : nat) (layer : list (list Z)) : res TreeError (list (list (list Z))) :=
  if length layer <=? 1 then Ok [layer]
  else match fuel with
  | 0 => Panic
  | S fuel' => ls ← build_layers fuel' (pair_up from_pair layer); Ok (layer :: ls)
  end.

Definition airdrop_tree (allocations : list Allocation) : res TreeError AirdropMerkleTree :=
  res_throw_if (length allocations =? 0) AllocationsMustNotBeEmpty ;;
  ls ← build_layers (length allocations) (to_merkle_hash <$> allocations);
  Ok (mkAirdropTree allocations ls).

Definition tree_root (t : AirdropMerkleTree) : res TreeError (list Z) :=
  ok_or (list.last (merkle_layers t) ≫= head) MerkleTreeIsEmpty.

Fixpoint indexes_from (position : nat) (claimer : Pubkey) (l : list Allocation) : list nat :=
  match l with
  | [] => []
  | a :: l' =>
      if bool_decide (al_claimer a = claimer) then position :: indexes_from (S position) claimer l'
      else indexes_from (S position) claimer l'
  end.
Definition allocations_indexes_for_claimer (t : AirdropMerkleTree) (claimer : Pubkey) : list nat :=
  indexes_from 0 claimer (at_allocations t).

Fixpoint proof_loop (index : nat) (layers : list (list (list Z))) : res TreeError (list (list Z)) :=
  match layers with
  | [] => Ok []
  | layer :: layers' =>
      if length layer =? 1 then Ok []
      else
        let sibling_index := if index mod 2 =? 0 then index + 1 else index - 1 in
        h ← unwrap (layer !! (if length layer <=? sibling_index then index else sibling_index));
        proof ← proof_loop (index / 2) layers';
        Ok (h :: proof)
  end.
Definition proof_at_allocation_index (t : AirdropMerkleTree) (index : nat) :
    res TreeError (list (list Z)) := proof_loop index (merkle_layers t).

(** ** Pairs *)

Lemma bytes_leb_antisym a b : bytes_leb a b = true → bytes_leb b a = true → a = b.
Proof.
  revert b. induction a as [|x a IH]; intros [|y b]; cbn; try done.
  destruct (Z.ltb_spec x y), (Z.ltb_spec y x); try done; try lia.
  intros Hab Hba. f_equal; [lia|by apply IH].
Qed.

Lemma bytes_leb_total a b : bytes_leb a b = true ∨ bytes_leb b a = true.
Proof.
  revert b. induction a as [|x a IH]; intros [|y b]; cbn; auto.
  destruct (Z.ltb_spec x y), (Z.ltb_spec y x); auto; lia.
Qed.

(** Sorting makes the order of the pair irrelevant, so proofs need no sides. *)
Lemma from_pair_comm a b : from_pair a b = from_pair b a.
Proof.
  unfold from_pair. destruct (bytes_leb a b) eqn:Hab, (bytes_leb b a) eqn:Hba; try done.
  - by rewrite (bytes_leb_antisym a b).
  - destruct (bytes_leb_total a b); congruence.
Qed.

Lemma from_pair_inj a b c d : length a = 32 → length b = 32 → length c = 32 → length d = 32 →
  from_pair a b = from_pair c d → (a = c ∧ b = d) ∨ (a = d ∧ b = c) ∨ collision.
Proof.
  intros La Lb Lc Ld. unfold from_pair.
  destruct (bytes_leb a b), (bytes_leb c d); intros [E|]%digest_inj; auto;
    cbn in E; rewrite !app_nil_r in E; injection E as E; apply app_inj_1 in E as [-> ->]; auto; lia.
Qed.

Lemma leaf_not_node parts a b : from_parts parts = from_pair a b → collision.
Proof.
  unfold from_parts, from_pair. destruct (bytes_leb a b); by intros [E|]%digest_inj.
Qed.

(** ** Proofs the tool builds *)

Lemma sibling_is_partner (l : list (list Z)) i : i < length l →
  (if length l <=? (if i mod 2 =? 0 then i + 1 else i - 1) then i
   else if i mod 2 =? 0 then i + 1 else i - 1) = partner (length l) i.
Proof.
  intros Hi. unfold partner. destruct (i mod 2 =? 0).
  - destruct (Nat.leb_spec (length l) (i + 1)), (Nat.ltb_spec (i + 1) (length l)); lia.
  - destruct (Nat.leb_spec (length l) (i - 1)); lia.
Qed.

Lemma proof_from_layer n l i h : 0 < length l <= S n → l !! i = Some h →
  ∃ ls p r, build_layers n l = Ok ls ∧ proof_loop i ls = Ok p ∧
    list.last ls ≫= head = Some r ∧ foldl from_pair h p = r.
Proof.
  revert l i h. induction n as [|n IH]; intros l i h Hl Hi; cbn [build_layers].
  all: destruct (Nat.leb_spec (length l) 1) as [H1|H1]; try lia.
  - destruct l as [|x []]; cbn in *; try lia. destruct i; [|done]. injection Hi as ->.
    by exists [[h]], [], h.
  - destruct l as [|x []]; cbn in *; try lia. destruct i; [|done]. injection Hi as ->.
    by exists [[h]], [], h.
  - destruct (pair_up_partner from_pair l i h Hi) as (x & Hx & Hp).
    pose proof (pair_up_shrink from_pair l ltac:(lia)) as Hs.
    destruct (IH (pair_up from_pair l) (i / 2) _ ltac:(apply lookup_lt_Some in Hp; lia) Hp)
      as (ls & p & r & Hb & Hpr & Hr & Hf).
    rewrite Hb. exists (l :: ls), (x :: p), r. split; [done|].
    cbn [proof_loop]. rewrite (proj2 (Nat.eqb_neq _ _)) by lia.
    rewrite sibling_is_partner, Hx by (by apply lookup_lt_Some in Hi).
    cbn [unwrap mbind res_bind]. rewrite Hpr. split; [done|]. split.
    + rewrite last_cons. by destruct (list.last ls).
    + cbn [foldl]. rewrite <-Hf. f_equal. destruct (i mod 2 =? 0); [done|apply from_pair_comm].
Qed.

(** ** Allocations as leaves *)

Definition alloc_ok (a : Allocation) : Prop :=
  length (al_claimer a) = 32 ∧ u64 (al_nonce a) ∧ vesting_ok (al_vesting a).

Lemma to_le_bytes_inj n a b : (Z.abs (a - b) < 256 ^ Z.of_nat n)%Z →
  to_le_bytes n a = to_le_bytes n b → a = b.
Proof.
  intros Hab E%to_le_bytes_mod_inj.
  set (m := (256 ^ Z.of_nat n)%Z) in *. assert (0 < m)%Z by (unfold m; lia).
  pose proof (Z.div_mod a m ltac:(lia)). pose proof (Z.div_mod b m ltac:(lia)).
  assert (a / m = b / m)%Z by nia. nia.
Qed.

Lemma to_merkle_hash_inj a b : alloc_ok a → alloc_ok b →
  to_merkle_hash a = to_merkle_hash b → a = b ∨ collision.
Proof.
  intros (La & Na & Sa & Da & Ea) (Lb & Nb & Sb & Db & Eb) [E|]%digest_inj; [left|by right].
  unfold LEAF_DOMAIN in E. cbn [concat app] in E. apply (f_equal tail) in E. cbn [tail] in E.
  apply app_inj_1 in E as [E1 E]; [|lia].
  apply app_inj_1 in E as [E2 E]; [|by rewrite !to_le_bytes_length].
  apply app_inj_1 in E as [E3 E]; [|by rewrite !to_le_bytes_length].
  apply app_inj_1 in E as [E4 E]; [|by rewrite !to_le_bytes_length].
  rewrite !app_nil_r in E. unfold u64, u32, i64, u64_max, u32_max, i64_min, i64_max in *.
  apply to_le_bytes_inj in E2; [|lia]. apply to_le_bytes_inj in E3; [|lia].
  apply to_le_bytes_inj in E4; [|lia]. apply to_le_bytes_inj in E; [|lia].
  destruct a as [? ? []], b as [? ? []]; cbn in *. by subst.
Qed.

(** ** Soundness *)

Context `{!DigestLength H}.

Notation layer allocs k := (Nat.iter k (pair_up from_pair) (to_merkle_hash <$> allocs)).

Lemma from_pair_length a b : length (from_pair a b) = 32.
Proof. unfold from_pair. destruct (bytes_leb a b); apply sha256v_length. Qed.

Lemma layer_length allocs k : Forall (λ h, length h = 32) (layer allocs k).
Proof.
  apply list.Forall_forall. intros h Hh. destruct k as [|k]; cbn in Hh.
  - apply list_elem_of_fmap in Hh as (a & -> & _). apply sha256v_length.
  - apply pair_up_elem in Hh as (a & b & _ & _ & ->). apply from_pair_length.
Qed.

Lemma fold_length h p : length h = 32 → length (foldl from_pair h p) = 32.
Proof.
  intros Hh. destruct p as [|x p _] using rev_ind; [done|].
  rewrite foldl_app. apply from_pair_length.
Qed.

Lemma sound_at_layer allocs k a p : alloc_ok a → Forall alloc_ok allocs →
  Forall (λ h, length h = 32) p → foldl from_pair (to_merkle_hash a) p ∈ layer allocs k →
  a ∈ allocs ∨ collision.
Proof.
  intros Ha Hall. revert p. induction k as [|k IH]; intros p Hp Hin.
  all: destruct p as [|x p _] using rev_ind; cbn in Hin.
  - apply list_elem_of_fmap in Hin as (b & Hb & Hin).
    apply to_merkle_hash_inj in Hb as [->|]; auto. by eapply list.Forall_forall.
  - rewrite foldl_app in Hin. apply list_elem_of_fmap in Hin as (b & Hb & _).
    right. symmetry in Hb. by apply leaf_not_node in Hb.
  - apply pair_up_elem in Hin as (b & c & _ & _ & Hb). right. by apply leaf_not_node in Hb.
  - rewrite foldl_app in Hin. apply Forall_app in Hp as [Hp Hx]. apply Forall_cons in Hx as [Hx _].
    apply pair_up_elem in Hin as (b & c & Hb & Hc & E). cbn in E.
    pose proof (proj1 (list.Forall_forall _ _) (layer_length allocs k)) as Hlen.
    apply from_pair_inj in E as [[E _]|[[E _]|]]; auto.
    + apply (IH p); [done|]. by rewrite E.
    + apply (IH p); [done|]. by rewrite E.
    + apply fold_length, sha256v_length.
Qed.

Lemma root_in_layer allocs n k ls r : build_layers n (layer allocs k) = Ok ls →
  list.last ls ≫= head = Some r → ∃ j, r ∈ layer allocs j.
Proof.
  revert k ls. induction n as [|n IH]; intros k ls; cbn [build_layers].
  all: destruct (length (layer allocs k) <=? 1); try done.
  1,2: intros [= <-] Hr; exists k; cbn in Hr; destruct (layer allocs k); [done|];
    injection Hr as ->; by left.
  intros Hb Hr. apply res_bind_Ok in Hb as (ls' & Hb & [= <-]).
  apply (IH (S k) ls' Hb). rewrite last_cons in Hr. destruct (list.last ls') eqn:Hl; [done|].
  apply last_None in Hl as ->. destruct n; cbn [build_layers] in Hb;
    destruct (length _ <=? 1); try done. by apply res_bind_Ok in Hb as (? & ? & ?).
Qed.

Lemma accepted_in_tree allocs t root a proof :
  airdrop_tree allocs = Ok t → tree_root t = Ok root →
  Forall alloc_ok allocs → alloc_ok a → Forall (λ h, length h = 32) proof →
  is_valid_proof root (to_merkle_hash a) proof = true → a ∈ allocs ∨ collision.
Proof.
  intros Ht Hr Hall Ha Hp Hv%bool_decide_eq_true. unfold airdrop_tree in Ht.
  apply res_bind_Ok in Ht as ([] & _ & Ht). apply res_bind_Ok in Ht as (ls & Hls & [= <-]).
  apply ok_or_Ok in Hr. destruct (root_in_layer allocs _ 0 ls root Hls Hr) as [k Hk].
  rewrite <-Hv in Hk. by eapply sound_at_layer.
Qed.

End Tree.

(** ** Theorems *)

(** For every non-empty list of allocations the tool builds a tree, and for every
    allocation of the list a proof that the on-chain check accepts against its root;
    nothing panics. *)
Theorem airdrop_proofs_accepted {H : HashFns} allocs i a : allocs !! i = Some a →
  ∃ t root proof, airdrop_tree allocs = Ok t ∧ tree_root t = Ok root ∧
    proof_at_allocation_index t i = Ok proof ∧
    is_valid_proof root (to_merkle_hash a) proof = true.
Proof.
  intros Hi. pose proof (lookup_lt_Some _ _ _ Hi) as Hlt.
  destruct (proof_from_layer (length allocs) (to_merkle_hash <$> allocs) i (to_merkle_hash a))
    as (ls & p & r & Hb & Hp & Hr & Hf); [rewrite length_fmap; lia|by rewrite list_lookup_fmap, Hi|].
  unfold airdrop_tree. rewrite (proj2 (Nat.eqb_neq _ _)) by lia. cbn [res_throw_if mbind res_bind].
  rewrite Hb. exists (mkAirdropTree allocs ls), r, p. unfold tree_root, proof_at_allocation_index.
  cbn [merkle_layers]. rewrite Hr. split_and!; try done. by apply bool_decide_eq_true.
Qed.

Definition alloc_of (n amount : Z) : Allocation :=
  mkAllocation (replicate 32 n) 1 (mkVesting 100 60 amount).

Lemma airdrop_proofs_accepted_witness :
  ∃ t root proof, @airdrop_tree std_hashes [alloc_of 1 500; alloc_of 2 300; alloc_of 3 200] = Ok t ∧
    tree_root t = Ok root ∧ proof_at_allocation_index t 2 = Ok proof ∧
    @is_valid_proof std_hashes root (@to_merkle_hash std_hashes (alloc_of 3 200)) proof = true.
Proof. apply (@airdrop_proofs_accepted std_hashes). reflexivity. Defined.

(** An allocation whose proof the on-chain check accepts against the root of a tree is
    one of the tree's allocations, field for field, or the proof exhibits a collision. *)
Theorem airdrop_proof_sound {H : HashFns} `{!DigestLength H} allocs t root a proof :
  airdrop_tree allocs = Ok t → tree_root t = Ok root →
  Forall alloc_ok allocs → alloc_ok a → Forall (λ h, length h = 32) proof →
  is_valid_proof root (to_merkle_hash a) proof = true → a ∈ allocs ∨ collision.
Proof.
  apply accepted_in_tree.
Qed.

Lemma airdrop_proof_sound_witness :
  alloc_of 2 300 ∈ [alloc_of 1 500; alloc_of 2 300] ∨ @collision zero_hashes.
Proof.
  eapply (@airdrop_proof_sound zero_hashes zero_digest_length [alloc_of 1 500; alloc_of 2 300] _ _ _
    [replicate 32 0%Z]); try reflexivity.
  1: constructor; [|constructor; [|constructor]].
  all: repeat split; try discriminate. repeat constructor.
Defined.
