(* ===== verification/DistributorThms.v ===== *)
(** * What the distributor guarantees

    Histories of an airdrop whose root is the root of a tree of allocations: every claim is
    bounded by what has vested of an allocation, and the airdrop as a whole by the sum of
    its allocations. *)

From stdpp Require Import base tactics list numbers sets gmap.
From S2P Require Import Prelude CoreTypes Hashing Merkle Frames Authorizer Tokens.
From S2P Require Import Distributor AirdropTree.

Open Scope Z_scope.

(** ** Histories *)

Inductive dcall :=
| DUpdate (authority : Pubkey) (claim_freeze : option bool) (root metadata : option (list Z))
| DWithdraw (authority receiver mint : Pubkey) (amount : Z)
| DClaimCreate (claimer : Pubkey) (nonce bump : Z)
| DRedeem (claimer receiver mint : Pubkey) (nonce : Z) (vesting : Vesting) (amount : Z)
    (proof : list (list Z)).

(** What the types of the parameters say. *)
Definition dcall_typed (c : dcall) : Prop :=
  match c with
  | DRedeem claimer _ _ nonce v amount proof =>
      alloc_ok (mkAllocation claimer nonce v) ∧ 0 <= amount ∧ Forall (λ h, length h = 32%nat) proof
  | _ => True
  end.

Section Histories.
Context {H : HashFns} {T : TokenProgram} {A : AssociatedTokens}.

Definition run_dcall (now : Z) (c : dcall) : DM unit :=
  match c with
  | DUpdate au f r m => airdrop_update au f r m
  | DWithdraw au rc mint n => airdrop_withdraw au rc mint n
  | DClaimCreate k n b => claim_create k n b
  | DRedeem k rc mint n v x p => claim_redeem now k rc mint n v x p
  end.

(** Time passes, anybody calls the program, and others move their tokens; the authority
    does not replace the root. *)
Inductive airdrop_history (w0 : AirdropWorld) : Z → AirdropWorld → Prop :=
| ah_start now : airdrop_history w0 now w0
| ah_wait now now' w : airdrop_history w0 now w → now <= now' → airdrop_history w0 now' w
| ah_tokens now w ts : airdrop_history w0 now w → airdrop_history w0 now (set_aw_tokens ts w)
| ah_call now w c : airdrop_history w0 now w → dcall_typed c →
    (∀ au f r m, c = DUpdate au f r m → r = None) →
    airdrop_history w0 now (transact (run_dcall now c) w).

(** ** Redeeming *)

Lemma compute_vested_Ok v now x : vesting_ok v →
  compute_vested_collateral_amount v now = Ok x → x = vested v now.
Proof.
  intros Hv Hc. destruct (decide (now - start_unix_timestamp v <= i64_max)) as [Hn|Hn].
  { rewrite compute_vested_run in Hc by done. by injection Hc. }
  destruct Hv as (Hs & _ & _). unfold compute_vested_collateral_amount, vested, i64 in *.
  rewrite (proj2 (Z.ltb_ge _ _)) in * by (unfold i64_max in *; lia).
  destruct (duration_seconds v =? 0); [by injection Hc|].
  apply res_bind_Ok in Hc as (d & Hd & _). apply isub64_Ok in Hd. lia.
Qed.

Lemma claim_redeem_Ok now k rc mint n v x p w u w' :
  claim_redeem now k rc mint n v x p w = (Ok u, w') →
  ∃ c vest ts, let a := aw_airdrop w in
    let vault := associated_token (aw_key w) (ad_collateral_mint a) in
    aw_claims w !! (k, n) = Some c ∧ ad_claim_freeze a = false ∧ mint = ad_collateral_mint a ∧
    is_valid_proof (ad_merkle_root a) (to_merkle_hash (mkAllocation k n v)) p = true ∧
    compute_vested_collateral_amount v now = Ok vest ∧
    x <= sat_sub vest (cl_claimed_collateral_amount c) ∧
    token_transfer vault rc (aw_key w) x (aw_tokens w) = Some ts ∧
    w' = set_aw_tokens ts (set_airdrop
           (set_ad_total (ad_total_claimed_collateral_amount a + x) a)
           (set_claim (k, n) (mkDClaim (cl_bump c) (cl_claimed_collateral_amount c + x)) w)).
Proof.
  unfold claim_redeem. intros Hrun.
  apply M_bind_Ok in Hrun as (w1 & s1 & [-> ->]%self_Ok & Hrun).
  apply M_bind_Ok in Hrun as (t1 & s1 & (-> & _)%receiver_at_Ok & Hrun).
  apply M_bind_Ok in Hrun as (u1 & s1 & (-> & Hm)%require_that_Ok & Hrun).
  apply M_bind_Ok in Hrun as (t2 & s1 & (-> & _)%vault_at_Ok & Hrun).
  unfold transfer_tokens in Hrun. run_inv. bool_prop.
  eexists _, _, _. by split_and!.
Qed.

(** ** The invariant *)

Definition claim_key (a : Allocation) : list Z * Z := (al_claimer a, al_nonce a).

(** Every claim is covered by an allocation under its key. *)
Definition covered (allocs : list Allocation) (now : Z) (w : AirdropWorld) : Prop :=
  ∀ k c, aw_claims w !! k = Some c → 0 <= cl_claimed_collateral_amount c ∧
    (cl_claimed_collateral_amount c = 0 ∨
     ∃ a, a ∈ allocs ∧ claim_key a = k ∧
       cl_claimed_collateral_amount c <= vested (al_vesting a) now).

Definition airdrop_books (root : list Z) (w : AirdropWorld) : Prop :=
  ad_merkle_root (aw_airdrop w) = root ∧
  ad_total_claimed_collateral_amount (aw_airdrop w) =
    msum cl_claimed_collateral_amount (aw_claims w).

Lemma covered_frame allocs now w w' : aw_claims w' = aw_claims w →
  covered allocs now w → covered allocs now w'.
Proof. intros E Hc k c. rewrite E. apply Hc. Qed.

Lemma covered_later allocs now now' w : Forall alloc_ok allocs → now <= now' →
  covered allocs now w → covered allocs now' w.
Proof.
  intros Hall Hle Hc k c Hk. destruct (Hc k c Hk) as [H0 [|(a & Ha & Hka & Hcl)]]; [auto|].
  split; [done|]. right. exists a. split_and!; try done. etrans; [exact Hcl|].
  apply vested_mono; [|done]. by apply (proj1 (list.Forall_forall _ _) Hall a Ha).
Qed.

(** The calls that leave claims, root and total alone. *)
Definition same_books (w w' : AirdropWorld) : Prop :=
  aw_claims w' = aw_claims w ∧
  ad_merkle_root (aw_airdrop w') = ad_merkle_root (aw_airdrop w) ∧
  ad_total_claimed_collateral_amount (aw_airdrop w') =
    ad_total_claimed_collateral_amount (aw_airdrop w).
#[local] Instance same_books_preorder : PreOrder same_books.
Proof. split; [done|]. intros w1 w2 w3 (?&?&?) (?&?&?). split_and!; congruence. Qed.

Lemma require_respects R `{!PreOrder R} (P : Prop) `{!Decision P} :
  respects R (@require_that DistributorError AirdropWorld D_AccountConstraint P _).
Proof. by intros w u w' [-> _]%require_that_Ok. Qed.

Lemma update_same au f m : respects same_books (airdrop_update au f None m).
Proof.
  unfold airdrop_update. frame_step; try (apply require_respects; apply _);
    by apply respects_modify.
Qed.

Lemma withdraw_same au rc mint n : respects same_books (airdrop_withdraw au rc mint n).
Proof.
  intros w u w' Hrun. unfold airdrop_withdraw in Hrun.
  apply M_bind_Ok in Hrun as (w1 & s1 & [-> ->]%self_Ok & Hrun).
  apply M_bind_Ok in Hrun as (t1 & s1 & (-> & _)%receiver_at_Ok & Hrun).
  apply M_bind_Ok in Hrun as (u1 & s1 & (-> & _)%require_that_Ok & Hrun).
  apply M_bind_Ok in Hrun as (t2 & s1 & (-> & _)%vault_at_Ok & Hrun).
  apply transfer_tokens_Ok in Hrun as (ts & _ & ->). done.
Qed.

Lemma claim_create_Ok k n b w u w' : claim_create k n b w = (Ok u, w') →
  aw_claims w !! (k, n) = None ∧ w' = set_claim (k, n) (mkDClaim b 0) w.
Proof.
  unfold claim_create. intros Hrun.
  apply M_bind_Ok in Hrun as (w1 & s1 & [-> ->]%self_Ok & Hrun).
  apply M_bind_Ok in Hrun as (u1 & s1 & (-> & Hn)%require_that_Ok & Hrun).
  run_inv. done.
Qed.

Context `{!DigestLength H}.

(** One call keeps the books, or a collision was presented. *)
Lemma dcall_books allocs t root now c w u w' :
  airdrop_tree allocs = Ok t → tree_root t = Ok root → Forall alloc_ok allocs →
  dcall_typed c → (∀ au f r m, c = DUpdate au f r m → r = None) →
  airdrop_books root w → covered allocs now w → run_dcall now c w = (Ok u, w') →
  collision ∨ airdrop_books root w' ∧ covered allocs now w'.
Proof.
  intros Ht Hr Hall Hty Hup [Hroot Htot] Hcov Hrun.
  assert (Hsame : same_books w w' → airdrop_books root w' ∧ covered allocs now w').
  { intros (E1 & E2 & E3). split; [split; congruence|by eapply covered_frame]. }
  destruct c as [au f r m|au rc mint n|k n b|k rc mint n v x p]; cbn [run_dcall] in Hrun.
  - right. apply Hsame. rewrite (Hup _ _ _ _ eq_refl) in Hrun. by eapply update_same.
  - right. apply Hsame. by eapply withdraw_same.
  - right. apply claim_create_Ok in Hrun as [Hn ->]. split.
    + split; [done|]. cbn. by rewrite msum_insert, Htot.
    + intros k' c'. cbn. destruct (decide (k' = (k, n))) as [->|Hne].
      * rewrite lookup_insert_eq. intros [= <-]. cbn. split; [lia|by left].
      * rewrite lookup_insert_ne by done. apply Hcov.
  - destruct Hty as (Hok & Hx & Hp).
    apply claim_redeem_Ok in Hrun as (c & vest & ts & Hc & _ & _ & Hv & Hvest & Hle & _ & ->).
    rewrite Hroot in Hv.
    destruct (accepted_in_tree allocs t root _ p Ht Hr Hall Hok Hp Hv) as [Hin|];
      [right|by left].
    destruct (Hcov _ _ Hc) as [Hc0 Hold].
    apply compute_vested_Ok in Hvest; [|apply Hok]. subst vest. split.
    + split; [done|]. cbn. rewrite (msum_update (K:=list Z * Z) _ _ _ _ _ Hc), Htot. cbn. lia.
    + intros k' c'. cbn. destruct (decide (k' = (k, n))) as [->|Hne].
      * rewrite lookup_insert_eq. intros [= <-]. cbn. split; [lia|]. unfold sat_sub in Hle.
        destruct (decide (vested v now <= cl_claimed_collateral_amount c)).
        { replace (_ + x) with (cl_claimed_collateral_amount c) by lia. exact Hold. }
        right. exists (mkAllocation k n v). split_and!; [done..|]. cbn. lia.
      * rewrite lookup_insert_ne by done. apply Hcov.
Qed.

Lemma history_books allocs t root w0 now w :
  airdrop_tree allocs = Ok t → tree_root t = Ok root → Forall alloc_ok allocs →
  airdrop_books root w0 → (∀ now, covered allocs now w0) → airdrop_history w0 now w →
  collision ∨ airdrop_books root w ∧ covered allocs now w.
Proof.
  intros Ht Hr Hall Hb0 Hc0 Hh. induction Hh as [now|now now' w _ IH Hle|now w ts _ IH|now w c _ IH Hty Hup].
  - auto.
  - destruct IH as [|[Hb Hc]]; [by left|right; split; [done|by eapply covered_later]].
  - destruct IH as [|[Hb Hc]]; [by left|right]. split; [done|by eapply covered_frame].
  - destruct IH as [|[Hb Hc]]; [by left|]. unfold transact.
    destruct (run_dcall now c w) as [[u|e|] w'] eqn:Hrun; [|by right..].
    by eapply dcall_books.
Qed.

End Histories.

(** ** The sum of the allocations *)

Definition zsum (l : list Z) : Z := foldr Z.add 0 l.

Lemma zsum_filter {B} (P : B → Prop) `{!∀ x, Decision (P x)} (f : B → Z) l :
  zsum (f <$> l) = zsum (f <$> filter P l) + zsum (f <$> filter (λ x, ¬ P x) l).
Proof.
  induction l as [|x l IH]; [done|]. rewrite !filter_cons, fmap_cons. cbn [zsum foldr].
  fold (zsum (f <$> l)). rewrite IH. repeat case_decide; try done; cbn [fmap list_fmap zsum foldr];
    fold (zsum (f <$> filter P l)); unfold zsum; lia.
Qed.

Lemma zsum_nonneg l : Forall (λ z, 0 <= z) l → 0 <= zsum l.
Proof. induction 1; cbn; [done|]. unfold zsum in *. lia. Qed.

Lemma zsum_member l x : Forall (λ z, 0 <= z) l → x ∈ l → x <= zsum l.
Proof.
  induction 1 as [|y l Hy Hl IH]; intros Hx; [by apply elem_of_nil in Hx|].
  apply zsum_nonneg in Hl. cbn. apply elem_of_cons in Hx as [->|Hx]; [unfold zsum in *; lia|].
  specialize (IH Hx). unfold zsum in *. lia.
Qed.

(** Claims under distinct keys use distinct allocations. *)
Lemma claims_le_allocations (m : gmap (list Z * Z) DClaim) (f : DClaim → Z) (g : Allocation → Z)
    (allocs : list Allocation) :
  (∀ a, a ∈ allocs → 0 <= g a) →
  (∀ k c, m !! k = Some c → f c = 0 ∨ ∃ a, a ∈ allocs ∧ claim_key a = k ∧ f c <= g a) →
  msum f m <= zsum (g <$> allocs).
Proof.
  revert allocs. induction m as [|k c m Hk IH] using map_ind; intros allocs Hg Hm.
  - rewrite msum_empty. apply zsum_nonneg, list.Forall_forall.
    intros z (a & -> & Ha)%list_elem_of_fmap. by apply Hg.
  - rewrite msum_insert by done. rewrite (zsum_filter (λ a, claim_key a = k) g).
    assert (Hrest : msum f m <= zsum (g <$> filter (λ a, ¬ claim_key a = k) allocs)).
    { apply IH; [intros a [_ Ha]%list_elem_of_filter; by apply Hg|]. intros k' c' Hk'.
      destruct (Hm k' c') as [|(a & Ha & Hka & Hle)].
      - rewrite lookup_insert_ne; [done|congruence].
      - by left.
      - right. exists a. split_and!; [|done..]. apply list_elem_of_filter. split; [|done]. congruence. }
    assert (Hhere : f c <= zsum (g <$> filter (λ a, claim_key a = k) allocs)); [|lia].
    assert (Hnn : Forall (λ z, 0 <= z) (g <$> filter (λ a, claim_key a = k) allocs)).
    { apply list.Forall_forall. intros z (a & -> & [_ Ha]%list_elem_of_filter)%list_elem_of_fmap.
      by apply Hg. }
    destruct (Hm k c (lookup_insert_eq _ _ _)) as [->|(a & Ha & Hka & Hle)]; [by apply zsum_nonneg|].
    etrans; [exact Hle|]. apply zsum_member; [done|]. apply list_elem_of_fmap.
    exists a. split; [done|]. by apply list_elem_of_filter.
Qed.

(** An airdrop created with the root of a tree of allocations, whose root is not replaced,
    keeps its total equal to the sum of its claims; whatever is called, by whomever, no
    claim exceeds what has by then vested of an allocation with its claimer and nonce, and
    all claims together never exceed what has vested of all allocations; otherwise a
    collision of the hash function was presented. *)
Theorem airdrop_never_overpays {H : HashFns} {T : TokenProgram} {A : AssociatedTokens}
    `{!DigestLength H} allocs t root bump id key authority mint metadata ts w0 now w :
  Forall alloc_ok allocs → airdrop_tree allocs = Ok t → tree_root t = Ok root →
  airdrop_create bump id key authority mint root metadata ts = Ok w0 →
  airdrop_history w0 now w →
  collision ∨
  (ad_total_claimed_collateral_amount (aw_airdrop w) =
     msum cl_claimed_collateral_amount (aw_claims w) ∧
   covered allocs now w ∧
   ad_total_claimed_collateral_amount (aw_airdrop w) <=
     zsum ((λ a, vested (al_vesting a) now) <$> allocs)).
Proof.
  intros Hall Ht Hr Hc Hh. unfold airdrop_create in Hc.
  apply res_bind_Ok in Hc as ([] & _ & Hw0). injection Hw0 as Hw0.
  assert (Hb0 : airdrop_books root w0) by (rewrite <-Hw0; split; cbn; [done|by rewrite msum_empty]).
  assert (Hc0 : ∀ now, covered allocs now w0) by (rewrite <-Hw0; by intros ? k c).
  destruct (history_books allocs t root w0 now w Ht Hr Hall Hb0 Hc0 Hh)
    as [|[[Hroot Htot] Hcov]]; [by left|].
  right. split_and!; [done..|]. rewrite Htot. apply claims_le_allocations.
  - intros a Ha. apply vested_range. by apply (proj1 (list.Forall_forall _ _) Hall a Ha).
  - intros k c Hk. by apply Hcov.
Qed.

(** An airdrop of three allocations; the second claims half of it after half the time. *)
Module Drop.
Definition key : Pubkey := replicate 32 50%Z.
Definition boss : Pubkey := replicate 32 51%Z.
Definition mint : Pubkey := replicate 32 52%Z.
Definition purse : Pubkey := replicate 32 53%Z.
#[export] Instance addresses : AssociatedTokens := {| associated_token o m := replicate 32 54%Z |}.
Definition allocs : list Allocation := [alloc_of 1 500; alloc_of 2 300; alloc_of 3 200].
Definition start : AirdropWorld := mkAirdropWorld key
  (mkAirdrop 1 7 boss mint 0 false (replicate 32 0) []) ∅
  {[ replicate 32 54%Z := mkToken mint key None 0; purse := mkToken mint boss None 0 ]}.
Definition funded : AirdropWorld := set_aw_tokens
  {[ replicate 32 54%Z := mkToken mint key None 1000; purse := mkToken mint boss None 0 ]} start.
Definition create : dcall := DClaimCreate (replicate 32 2) 1 1.
Definition redeem : dcall :=
  DRedeem (replicate 32 2) purse mint 1 (mkVesting 100 60 300) 150 [replicate 32 0; replicate 32 0].
Definition call (c : dcall) (w : AirdropWorld) : AirdropWorld :=
  transact (@run_dcall zero_hashes spl_tokens addresses 130 c) w.
End Drop.

Lemma airdrop_never_overpays_witness :
  let w := Drop.call Drop.redeem (Drop.call Drop.create Drop.funded) in
  ad_total_claimed_collateral_amount (aw_airdrop w) = 150 ∧
  (@collision zero_hashes ∨ ad_total_claimed_collateral_amount (aw_airdrop w) <= 500).
Proof.
  assert (Hall : Forall alloc_ok Drop.allocs).
  { repeat constructor; discriminate. }
  split; [reflexivity|].
  destruct (@airdrop_never_overpays zero_hashes spl_tokens Drop.addresses zero_digest_length
    Drop.allocs (mkAirdropTree Drop.allocs [replicate 3 (replicate 32 0); replicate 2 (replicate 32 0);
       replicate 1 (replicate 32 0)]) (replicate 32 0) 1 7 Drop.key Drop.boss Drop.mint []
    {[ Drop.purse := mkToken Drop.mint Drop.boss None 0 ]} Drop.start 130
    (Drop.call Drop.redeem (Drop.call Drop.create Drop.funded)) Hall) as [Hc|(_ & _ & Hle)];
    [reflexivity|reflexivity|reflexivity| |by left|right; exact Hle].
  apply ah_call; [|repeat split; try discriminate; repeat constructor|discriminate].
  apply ah_call; [|exact I|discriminate]. apply ah_tokens, ah_start.
Defined.
