(* ===== verification/MiningPool.v ===== *)
(** * The mining-pool program

    architectures/decentralized/solana-mining-pool: lenders deposit collateral into a pool, whose
    authority extracts it and later repays in another token; each lender claims its share
    of what was repaid.  [PoolWorld] is a pool with the lender accounts derived from its
    key and the token accounts. *)

From stdpp Require Import base tactics list numbers gmap.
From S2P Require Import Prelude CoreTypes Frames Authorizer Tokens.

Open Scope Z_scope.

Inductive PoolError :=
| ParamsCollateralAmountIsTooLarge | ParamsRedeemableAmountIsTooLarge
| ParamsMetadataLengthIsTooLarge | PoolClaimingEnabledIsTrue | PoolClaimingEnabledIsFalse
| PoolFreezeIsTrue | PoolTotalDepositedCollateralAmountIsZero
| P_AccountConstraint | P_TokenError.

Definition POOL_METADATA_BYTES : Z := 400.

Record PoolMetadata := mkPoolMetadata {
  pm_length : Z;              (* u16 *)
  pm_bytes : list Z
}.

Record Pool := mkPool {
  po_bump : Z;
  po_index : Z;
  po_authority : Pubkey;
  po_collateral_mint : Pubkey;
  po_max_deposit : Z;
  po_total_deposited : Z;
  po_total_extracted : Z;
  po_claiming_enabled : bool;
  po_redeemable_mint : Pubkey;
  po_total_claimed : Z;
  po_freeze : bool;
  po_metadata : PoolMetadata
}.

Record Lender := mkLender {
  le_bump : Z;
  le_deposited : Z;
  le_claimed : Z
}.

Record PoolWorld := mkPoolWorld {
  pw_key : Pubkey;
  pw_pool : Pool;
  pw_lenders : gmap (list Z) Lender;
  pw_tokens : tokens
}.

Definition set_pool (x : Pool) (w : PoolWorld) : PoolWorld :=
  mkPoolWorld (pw_key w) x (pw_lenders w) (pw_tokens w).
Definition set_lender (u : Pubkey) (x : Lender) (w : PoolWorld) : PoolWorld :=
  mkPoolWorld (pw_key w) (pw_pool w) (<[u := x]> (pw_lenders w)) (pw_tokens w).
Definition set_pw_tokens (x : tokens) (w : PoolWorld) : PoolWorld :=
  mkPoolWorld (pw_key w) (pw_pool w) (pw_lenders w) x.

Definition set_max_deposit (x : Z) (p : Pool) : Pool :=
  mkPool (po_bump p) (po_index p) (po_authority p) (po_collateral_mint p) x
    (po_total_deposited p) (po_total_extracted p) (po_claiming_enabled p) (po_redeemable_mint p)
    (po_total_claimed p) (po_freeze p) (po_metadata p).
Definition set_total_deposited (x : Z) (p : Pool) : Pool :=
  mkPool (po_bump p) (po_index p) (po_authority p) (po_collateral_mint p) (po_max_deposit p)
    x (po_total_extracted p) (po_claiming_enabled p) (po_redeemable_mint p)
    (po_total_claimed p) (po_freeze p) (po_metadata p).
Definition set_total_extracted (x : Z) (p : Pool) : Pool :=
  mkPool (po_bump p) (po_index p) (po_authority p) (po_collateral_mint p) (po_max_deposit p)
    (po_total_deposited p) x (po_claiming_enabled p) (po_redeemable_mint p)
    (po_total_claimed p) (po_freeze p) (po_metadata p).
Definition enable_claiming (mint : Pubkey) (p : Pool) : Pool :=
  mkPool (po_bump p) (po_index p) (po_authority p) (po_collateral_mint p) (po_max_deposit p)
    (po_total_deposited p) (po_total_extracted p) true mint 0 (po_freeze p) (po_metadata p).
Definition set_pool_claimed (x : Z) (p : Pool) : Pool :=
  mkPool (po_bump p) (po_index p) (po_authority p) (po_collateral_mint p) (po_max_deposit p)
    (po_total_deposited p) (po_total_extracted p) (po_claiming_enabled p) (po_redeemable_mint p)
    x (po_freeze p) (po_metadata p).
Definition set_pool_freeze (x : bool) (p : Pool) : Pool :=
  mkPool (po_bump p) (po_index p) (po_authority p) (po_collateral_mint p) (po_max_deposit p)
    (po_total_deposited p) (po_total_extracted p) (po_claiming_enabled p) (po_redeemable_mint p)
    (po_total_claimed p) x (po_metadata p).
Definition set_pool_metadata (x : PoolMetadata) (p : Pool) : Pool :=
  mkPool (po_bump p) (po_index p) (po_authority p) (po_collateral_mint p) (po_max_deposit p)
    (po_total_deposited p) (po_total_extracted p) (po_claiming_enabled p) (po_redeemable_mint p)
    (po_total_claimed p) (po_freeze p) x.

Notation PM := (M PoolError PoolWorld).

(** ** Instructions *)

Section Instructions.
Context {T : TokenProgram} {A : AssociatedTokens}.

Notation require_p := (require_that P_AccountConstraint).
Notation vault_p := (vault_at pw_tokens P_AccountConstraint).
Notation receiver_p := (receiver_at pw_tokens P_AccountConstraint).
Notation transfer_p := (transfer_tokens pw_tokens set_pw_tokens P_TokenError).

Definition collateral_vault (w : PoolWorld) : Pubkey :=
  associated_token (pw_key w) (po_collateral_mint (pw_pool w)).
Definition redeemable_vault (w : PoolWorld) : Pubkey :=
  associated_token (pw_key w) (po_redeemable_mint (pw_pool w)).

(** A token account of the signer: of the mint, its own, with no delegate. *)
Definition own_token (user key mint : Pubkey) : PM unit :=
  t ← receiver_p key mint;
  require_p (ta_owner t = user).

Definition pool_create (bump index : Z) (key authority mint : Pubkey) (metadata : PoolMetadata)
    (ts : tokens) : res PoolError PoolWorld :=
  let vault := associated_token key mint in
  res_throw_if (bool_decide (is_Some (ts !! vault))) P_AccountConstraint ;;
  res_throw_if (POOL_METADATA_BYTES <? pm_length metadata) ParamsMetadataLengthIsTooLarge ;;
  Ok (mkPoolWorld key
        (mkPool bump index authority mint 0 0 0 false Pubkey_default 0 false metadata) ∅
        (<[vault := mkToken mint key None 0]> ts)).

Definition pool_extract (authority authority_collateral : Pubkey) (amount : Z) : PM unit :=
  w ← self;
  let p := pw_pool w in
  own_token authority authority_collateral (po_collateral_mint p) ;;
  require_p (po_authority p = authority) ;;
  vault_p (collateral_vault w) (pw_key w) (po_collateral_mint p) ;;
  throw_if (po_freeze p) PoolFreezeIsTrue ;;
  total ← lift (uadd u64_max (po_total_extracted p) amount);
  modify (λ w, set_pool (set_total_extracted total (pw_pool w)) w) ;;
  transfer_p (collateral_vault w) authority_collateral (pw_key w) amount.

Definition pool_update (authority : Pubkey) (max_deposit : option Z) (freeze : option bool)
    (metadata : option PoolMetadata) : PM unit :=
  w ← self;
  require_p (po_authority (pw_pool w) = authority) ;;
  match max_deposit with
  | Some x => modify (λ w, set_pool (set_max_deposit x (pw_pool w)) w)
  | None => mret tt
  end ;;
  match freeze with
  | Some x => modify (λ w, set_pool (set_pool_freeze x (pw_pool w)) w)
  | None => mret tt
  end ;;
  match metadata with
  | Some m =>
      throw_if (POOL_METADATA_BYTES <? pm_length m) ParamsMetadataLengthIsTooLarge ;;
      modify (λ w, set_pool (set_pool_metadata m (pw_pool w)) w)
  | None => mret tt
  end.

Definition pool_claimable (authority redeemable_mint : Pubkey) : PM unit :=
  w ← self;
  require_p (po_authority (pw_pool w) = authority) ;;
  throw_if (po_freeze (pw_pool w)) PoolFreezeIsTrue ;;
  throw_if (po_claiming_enabled (pw_pool w)) PoolClaimingEnabledIsTrue ;;
  modify (λ w, set_pool (enable_claiming redeemable_mint (pw_pool w)) w).

Definition lender_create (user : Pubkey) (bump : Z) : PM unit :=
  w ← self;
  require_p (pw_lenders w !! user = None) ;;
  modify (set_lender user (mkLender bump 0 0)).

Definition lender_deposit (user user_collateral : Pubkey) (amount : Z) : PM unit :=
  w ← self;
  let p := pw_pool w in
  own_token user user_collateral (po_collateral_mint p) ;;
  vault_p (collateral_vault w) (pw_key w) (po_collateral_mint p) ;;
  l ← lift (ok_or (pw_lenders w !! user) P_AccountConstraint);
  throw_if (po_freeze p) PoolFreezeIsTrue ;;
  sum ← lift (uadd u64_max (po_total_deposited p) amount);
  throw_if (po_max_deposit p <? sum) ParamsCollateralAmountIsTooLarge ;;
  transfer_p user_collateral (collateral_vault w) user amount ;;
  deposited ← lift (uadd u64_max (le_deposited l) amount);
  total ← lift (uadd u64_max (po_total_deposited p) amount);
  modify (set_lender user (mkLender (le_bump l) deposited (le_claimed l))) ;;
  modify (λ w, set_pool (set_total_deposited total (pw_pool w)) w).

(** [(claimed + balance) * deposited / total], in [u128] and back to [u64]. *)
Definition claimable_amount (p : Pool) (l : Lender) (balance : Z) : res PoolError Z :=
  repayed ← uadd u128_max (po_total_claimed p) balance;
  product ← umul u128_max repayed (le_deposited l);
  let q := product / po_total_deposited p in
  ok_or (if q <=? u64_max then Some q else None) ParamsRedeemableAmountIsTooLarge.

Definition lender_claim (user user_redeemable redeemable_mint : Pubkey) (amount : Z) : PM unit :=
  w ← self;
  let p := pw_pool w in
  own_token user user_redeemable (po_redeemable_mint p) ;;
  require_p (po_redeemable_mint p = redeemable_mint) ;;
  vault ← vault_p (redeemable_vault w) (pw_key w) (po_redeemable_mint p);
  l ← lift (ok_or (pw_lenders w !! user) P_AccountConstraint);
  throw_if (po_freeze p) PoolFreezeIsTrue ;;
  throw_if (negb (po_claiming_enabled p)) PoolClaimingEnabledIsFalse ;;
  throw_if (po_total_deposited p =? 0) PoolTotalDepositedCollateralAmountIsZero ;;
  claimable ← lift (claimable_amount p l (ta_amount vault));
  wanted ← lift (uadd u64_max (le_claimed l) amount);
  throw_if (claimable <? wanted) ParamsRedeemableAmountIsTooLarge ;;
  total ← lift (uadd u64_max (po_total_claimed p) amount);
  modify (set_lender user (mkLender (le_bump l) (le_deposited l) wanted)) ;;
  modify (λ w, set_pool (set_pool_claimed total (pw_pool w)) w) ;;
  transfer_p (redeemable_vault w) user_redeemable (pw_key w) amount.

End Instructions.
