(* ===== verification/MiningPoolThms.v ===== *)
(** * What the mining pool guarantees

    Histories of a pool in which the repayment token is not the collateral token and nobody
    deposits once a claim has been paid: the books are the sums over the lenders, no lender
    is paid more than its share, and the vault covers what all lenders may still claim. *)

From stdpp Require Import base tactics list numbers gmap.
From S2P Require Import Prelude CoreTypes Frames Authorizer Tokens MiningPool.

Open Scope Z_scope.

(** ** Histories *)

Inductive pcall :=
| PExtract (authority collateral : Pubkey) (amount : Z)
| PUpdate (authority : Pubkey) (max_deposit : option Z) (freeze : option bool)
    (metadata : option PoolMetadata)
| PClaimable (authority mint : Pubkey)
| PLenderCreate (user : Pubkey) (bump : Z)
| PDeposit (user collateral : Pubkey) (amount : Z)
| PClaim (user redeemable mint : Pubkey) (amount : Z).

(** Amounts are unsigned, and the pool's address, being program-derived, signs nothing. *)
Definition pcall_typed (w : PoolWorld) (c : pcall) : Prop :=
  match c with
  | PExtract user _ n | PDeposit user _ n | PClaim user _ _ n => 0 <= n ∧ user ≠ pw_key w
  | _ => True
  end.

(** The repayment token differs from the collateral, and deposits end with the first claim. *)
Definition pcall_fair (w : PoolWorld) (c : pcall) : Prop :=
  match c with
  | PClaimable _ mint => mint ≠ po_collateral_mint (pw_pool w)
  | PDeposit _ _ _ => po_total_claimed (pw_pool w) = 0
  | _ => True
  end.

Section Histories.
Context {T : TokenProgram} {A : AssociatedTokens}.

Definition run_pcall (c : pcall) : PM unit :=
  match c with
  | PExtract au k n => pool_extract au k n
  | PUpdate au mx f md => pool_update au mx f md
  | PClaimable au mint => pool_claimable au mint
  | PLenderCreate u b => lender_create u b
  | PDeposit u k n => lender_deposit u k n
  | PClaim u k mint n => lender_claim u k mint n
  end.

(** The accounts at addresses associated with the pool are the pool's, of that mint. *)
Definition vaults_ok (key : Pubkey) (ts : tokens) : Prop :=
  ∀ m t, ts !! associated_token key m = Some t →
    ta_owner t = key ∧ ta_mint t = m ∧ 0 <= ta_amount t.

(** Others may add to the pool's vaults and not take from them. *)
Definition only_adds (key : Pubkey) (ts ts' : tokens) : Prop :=
  ∀ m t, ts !! associated_token key m = Some t →
    ∃ t', ts' !! associated_token key m = Some t' ∧ ta_amount t <= ta_amount t'.

Inductive pool_history (w0 : PoolWorld) : PoolWorld → Prop :=
| ph_start : pool_history w0 w0
| ph_tokens w ts : pool_history w0 w → vaults_ok (pw_key w) ts →
    only_adds (pw_key w) (pw_tokens w) ts → pool_history w0 (set_pw_tokens ts w)
| ph_call w c : pool_history w0 w → pcall_typed w c → pcall_fair w c →
    pool_history w0 (transact (run_pcall c) w).

(** ** The invariant *)

(** The balance of the repayment vault, and all that was ever repaid. *)
Definition balance (w : PoolWorld) : Z :=
  from_option ta_amount 0 (pw_tokens w !! redeemable_vault w).
Definition repaid (w : PoolWorld) : Z := po_total_claimed (pw_pool w) + balance w.

Definition pool_books (w : PoolWorld) : Prop :=
  po_total_deposited (pw_pool w) = msum le_deposited (pw_lenders w) ∧
  po_total_claimed (pw_pool w) = msum le_claimed (pw_lenders w).

Definition lender_fair (w : PoolWorld) (l : Lender) : Prop :=
  0 <= le_deposited l ∧ 0 <= le_claimed l ∧
  le_claimed l * po_total_deposited (pw_pool w) <= repaid w * le_deposited l.

Definition collateral_covers (w : PoolWorld) : Prop :=
  ∃ t, pw_tokens w !! collateral_vault w = Some t ∧
    po_total_deposited (pw_pool w) <= ta_amount t + po_total_extracted (pw_pool w).

Definition pool_wf (w : PoolWorld) : Prop :=
  pool_books w ∧ vaults_ok (pw_key w) (pw_tokens w) ∧ collateral_covers w ∧
  (∀ u l, pw_lenders w !! u = Some l → lender_fair w l) ∧
  (po_claiming_enabled (pw_pool w) = true →
     po_redeemable_mint (pw_pool w) ≠ po_collateral_mint (pw_pool w)) ∧
  (po_claiming_enabled (pw_pool w) = false → po_total_claimed (pw_pool w) = 0).

Lemma balance_nonneg w : vaults_ok (pw_key w) (pw_tokens w) → 0 <= balance w.
Proof.
  intros Hv. unfold balance. destruct (pw_tokens w !! redeemable_vault w) as [t|] eqn:Ht; [|done].
  cbn. by apply (Hv _ _ Ht).
Qed.

(** While nothing is claimed no lender has claimed. *)
Lemma unclaimed_lenders w u l : pool_wf w → po_total_claimed (pw_pool w) = 0 →
  pw_lenders w !! u = Some l → le_claimed l = 0.
Proof.
  intros ((_ & Hc) & _ & _ & Hl & _) H0 Hu. rewrite H0 in Hc.
  pose proof (msum_member le_claimed (pw_lenders w) u l) as Hm.
  rewrite <-Hc in Hm. destruct (Hl u l Hu) as (_ & ? & _).
  enough (le_claimed l <= 0) by lia. apply Hm; [|done]. intros k p Hk. by apply (Hl k p).
Qed.

(** ** Transfers keep the vaults *)

Context `{!TokenLaws T}.

Lemma transfer_vaults key from to au n ts ts' : 0 <= n →
  token_transfer from to au n ts = Some ts' → vaults_ok key ts → vaults_ok key ts'.
Proof.
  intros Hn [(a & b & Ha & Hb & Hle) ->]%transfer_moves Hv m t Ht; [|done].
  apply lookup_alter_Some in Ht as [(Eto & t1 & Ht1 & ->)|(Hne & Ht1)];
    apply lookup_alter_Some in Ht1 as [(E & t2 & Ht2 & ->)|(Hne2 & Ht2)];
    destruct (Hv _ _ Ht2) as (? & ? & ?); cbn; split_and!; try done; try lia.
  rewrite <-E in Ht2. assert (a = t2) as -> by congruence. lia.
Qed.

(** What a transfer leaves at an address that is not its source. *)
Lemma transfer_other key from to au n ts ts' t : 0 <= n →
  token_transfer from to au n ts = Some ts' → ts !! key = Some t → from ≠ key →
  ∃ t', ts' !! key = Some t' ∧ ta_amount t <= ta_amount t'.
Proof.
  intros Hn [_ ->]%transfer_moves Hk Hne; [|done].
  destruct (decide (to = key)) as [->|Hne2].
  - rewrite lookup_alter_eq, lookup_alter_ne, Hk by done. cbn. eexists. split; [done|]. cbn. lia.
  - rewrite lookup_alter_ne, lookup_alter_ne, Hk by done. eexists. split; [done|]. lia.
Qed.

(** No transfer creates an account. *)
Lemma transfer_none key from to au n ts ts' : 0 <= n →
  token_transfer from to au n ts = Some ts' → ts !! key = None → ts' !! key = None.
Proof.
  intros Hn [_ ->]%transfer_moves Hk; [|done]. apply eq_None_not_Some. intros [t Ht].
  apply lookup_alter_Some in Ht as [(-> & t1 & Ht1 & _)|(_ & Ht1)];
    apply lookup_alter_Some in Ht1 as [(-> & t2 & Ht2 & _)|(_ & Ht2)]; congruence.
Qed.

(** ** The effect of each instruction *)

Lemma own_token_Ok user key mint w u w' : own_token user key mint w = (Ok u, w') →
  w' = w ∧ ∃ t, pw_tokens w !! key = Some t ∧ ta_owner t = user ∧ ta_mint t = mint.
Proof.
  unfold own_token. intros Hrun. apply M_bind_Ok in Hrun as (t & s1 & Ht & Hrun).
  apply receiver_at_Ok in Ht as (-> & Ht & Hm & _). apply require_that_Ok in Hrun as [-> Ho]. eauto.
Qed.

Ltac guard_inv H :=
  repeat first
    [ apply M_bind_Ok in H as (? & ? & [-> ->]%self_Ok & H)
    | apply M_bind_Ok in H as (? & ? & (-> & (? & ? & ? & ?))%own_token_Ok & H)
    | apply M_bind_Ok in H as (? & ? & (-> & ?)%require_that_Ok & H)
    | apply M_bind_Ok in H as (? & ? & (-> & ? & ? & ?)%vault_at_Ok & H) ].

Lemma pool_extract_Ok au k n w u w' : pool_extract au k n w = (Ok u, w') →
  ∃ t t' ts, let p := pw_pool w in
    pw_tokens w !! k = Some t' ∧ ta_owner t' = au ∧ po_authority p = au ∧
    pw_tokens w !! collateral_vault w = Some t ∧
    ta_mint t = po_collateral_mint p ∧ ta_owner t = pw_key w ∧
    token_transfer (collateral_vault w) k (pw_key w) n (pw_tokens w) = Some ts ∧
    w' = set_pw_tokens ts (set_pool (set_total_extracted (po_total_extracted p + n) p) w).
Proof.
  unfold pool_extract. intros Hrun. guard_inv Hrun. unfold transfer_tokens in Hrun. run_inv.
  eexists _, _, _. by split_and!.
Qed.

Lemma lender_deposit_Ok user k n w u w' : lender_deposit user k n w = (Ok u, w') →
  ∃ l t t' ts, let p := pw_pool w in
    pw_lenders w !! user = Some l ∧ pw_tokens w !! k = Some t' ∧ ta_owner t' = user ∧
    pw_tokens w !! collateral_vault w = Some t ∧ po_total_deposited p + n <= po_max_deposit p ∧
    token_transfer k (collateral_vault w) user n (pw_tokens w) = Some ts ∧
    w' = set_pool (set_total_deposited (po_total_deposited p + n) p)
           (set_lender user (mkLender (le_bump l) (le_deposited l + n) (le_claimed l))
              (set_pw_tokens ts w)).
Proof.
  unfold lender_deposit. intros Hrun. guard_inv Hrun. unfold transfer_tokens in Hrun. run_inv.
  bool_prop. eexists _, _, _, _. by split_and!.
Qed.

Lemma claimable_amount_Ok p l b q : claimable_amount p l b = Ok q →
  q = (po_total_claimed p + b) * le_deposited l / po_total_deposited p.
Proof.
  unfold claimable_amount. intros Hrun. run_inv. destruct (_ <=? u64_max); [|done].
  by injection Hrun.
Qed.

Lemma lender_claim_Ok user k mint n w u w' : lender_claim user k mint n w = (Ok u, w') →
  ∃ l t t' ts, let p := pw_pool w in
    pw_lenders w !! user = Some l ∧ pw_tokens w !! k = Some t' ∧ ta_owner t' = user ∧
    pw_tokens w !! redeemable_vault w = Some t ∧ po_claiming_enabled p = true ∧
    po_total_deposited p ≠ 0 ∧
    le_claimed l + n <=
      (po_total_claimed p + ta_amount t) * le_deposited l / po_total_deposited p ∧
    token_transfer (redeemable_vault w) k (pw_key w) n (pw_tokens w) = Some ts ∧
    w' = set_pw_tokens ts (set_pool (set_pool_claimed (po_total_claimed p + n) p)
           (set_lender user (mkLender (le_bump l) (le_deposited l) (le_claimed l + n)) w)).
Proof.
  unfold lender_claim. intros Hrun. guard_inv Hrun.
  unfold transfer_tokens in Hrun. run_inv. bool_prop.
  match goal with Hc : claimable_amount _ _ _ = Ok _ |- _ => apply claimable_amount_Ok in Hc end.
  subst. eexists _, _, _, _. by split_and!.
Qed.

(** ** Preservation *)

(** A change that leaves lenders, totals and mints, and does not lower the repayment vault
    once something was claimed. *)
Lemma pool_wf_frame w w' : pool_wf w → pw_key w' = pw_key w → pw_lenders w' = pw_lenders w →
  po_total_deposited (pw_pool w') = po_total_deposited (pw_pool w) →
  po_total_claimed (pw_pool w') = po_total_claimed (pw_pool w) →
  (po_claiming_enabled (pw_pool w') = true →
     po_redeemable_mint (pw_pool w') ≠ po_collateral_mint (pw_pool w')) →
  (po_claiming_enabled (pw_pool w') = false → po_total_claimed (pw_pool w) = 0) →
  vaults_ok (pw_key w) (pw_tokens w') → collateral_covers w' →
  (po_total_claimed (pw_pool w) ≠ 0 → balance w <= balance w') → pool_wf w'.
Proof.
  intros Hwf Ek El Ed Ec He Hd Hv Hcc Hb. pose proof Hwf as (Hbk & _ & _ & Hl & _ & _).
  split_and!; try done.
  - unfold pool_books in *. by rewrite Ed, Ec, El.
  - by rewrite Ek.
  - intros u l. rewrite El. intros Hu. destruct (Hl u l Hu) as (H1 & H2 & H3).
    assert (Hnn : 0 <= balance w') by (apply balance_nonneg; by rewrite Ek).
    unfold lender_fair, repaid in *. rewrite Ed, Ec. split_and!; [done..|].
    destruct (decide (po_total_claimed (pw_pool w) = 0)) as [H0|H0].
    + rewrite (unclaimed_lenders w u l Hwf H0 Hu), H0. nia.
    + specialize (Hb H0). etrans; [exact H3|]. apply Z.mul_le_mono_nonneg_r; lia.
  - intros Hf. rewrite Ec. by apply Hd.
Qed.

(** The two vaults differ once claiming is enabled. *)
Lemma vaults_differ w t : pool_wf w → po_total_claimed (pw_pool w) ≠ 0 →
  pw_tokens w !! collateral_vault w = Some t → collateral_vault w ≠ redeemable_vault w.
Proof.
  intros (_ & Hv & _ & _ & He & Hd) H0 Ht E.
  destruct (po_claiming_enabled (pw_pool w)); [|by destruct H0; apply Hd].
  apply He; [done|]. destruct (Hv _ _ Ht) as (_ & Hc & _). rewrite E in Ht.
  destruct (Hv _ _ Ht) as (_ & Hr & _). congruence.
Qed.

(** An account of a user is no vault of the pool. *)
Lemma user_no_vault w k t m : pool_wf w → ta_owner t ≠ pw_key w → pw_tokens w !! k = Some t →
  k ≠ associated_token (pw_key w) m.
Proof. intros (_ & Hv & _) Ho Ht ->. by destruct (Hv _ _ Ht) as (? & _). Qed.

Lemma balance_other w from to au n ts w' : 0 <= n →
  token_transfer from to au n (pw_tokens w) = Some ts →
  from ≠ redeemable_vault w → pw_tokens w' = ts → redeemable_vault w' = redeemable_vault w →
  balance w <= balance w'.
Proof.
  intros Hn Ht Hne Ets Erv. unfold balance. rewrite Ets, Erv.
  destruct (pw_tokens w !! redeemable_vault w) as [t|] eqn:Hr.
  - destruct (transfer_other _ _ _ _ _ _ _ _ Hn Ht Hr Hne) as (t' & Ht' & Hle).
    replace (ts !! redeemable_vault w) with (Some t') by (symmetry; exact Ht'). exact Hle.
  - replace (ts !! redeemable_vault w) with (@None TokenAccount)
      by (symmetry; exact (transfer_none _ _ _ _ _ _ _ Hn Ht Hr)). done.
Qed.

Lemma extract_wf au k n w u w' : 0 <= n → au ≠ pw_key w → pool_wf w →
  pool_extract au k n w = (Ok u, w') → pool_wf w'.
Proof.
  intros Hn Hau Hwf (t & t' & ts & Hk & Ho & _ & Ht & Hm & Hto & Hx & ->)%pool_extract_Ok.
  pose proof Hwf as (_ & Hv & (t0 & Ht0 & Hcov) & _ & He & Hd).
  assert (Hne : k ≠ collateral_vault w) by (eapply user_no_vault; [done| |done]; congruence).
  destruct (vault_debit _ _ _ _ _ _ _ Hn Hx Ht0) as (t1 & Ht1 & _ & _ & _ & Ha).
  eapply (pool_wf_frame w); try done.
  - by eapply transfer_vaults.
  - exists t1. split; [exact Ht1|]. cbn. rewrite Ha by done. lia.
  - intros H0. eapply (balance_other w); try done. by eapply vaults_differ.
Qed.

Lemma deposit_wf user k n w u w' : 0 <= n → user ≠ pw_key w → po_total_claimed (pw_pool w) = 0 →
  pool_wf w → lender_deposit user k n w = (Ok u, w') → pool_wf w'.
Proof.
  intros Hn Hu H0 Hwf (l & t & t' & ts & Hl & Hk & Ho & Ht & _ & Hx & ->)%lender_deposit_Ok.
  pose proof Hwf as ((Hbd & Hbc) & Hv & (t0 & Ht0 & Hcov) & Hfair & He & Hd).
  pose proof (unclaimed_lenders w user l Hwf H0 Hl) as Hc0.
  assert (Hne : k ≠ collateral_vault w) by (eapply user_no_vault; [done| |done]; congruence).
  destruct (vault_credit _ _ _ _ _ _ _ Hn Hx Ht0 Hne) as (t1 & Ht1 & _ & Ha).
  assert (Hvs : vaults_ok (pw_key w) ts) by (by eapply transfer_vaults).
  split_and!; try done.
  - unfold pool_books. cbn. rewrite !(msum_update (K:=list Z) _ _ _ _ _ Hl). cbn.
    rewrite <-Hbd, <-Hbc. lia.
  - exists t1. split; [exact Ht1|]. cbn. lia.
  - intros u' l' Hl'. cbn in Hl'.
    assert (Hz : 0 <= le_deposited l' ∧ le_claimed l' = 0).
    { destruct (decide (u' = user)) as [->|Hu'].
      - rewrite lookup_insert_eq in Hl'. injection Hl' as <-. cbn.
        destruct (Hfair _ _ Hl) as (? & _). lia.
      - rewrite lookup_insert_ne in Hl' by done. destruct (Hfair _ _ Hl') as (? & _).
        split; [done|]. by eapply unclaimed_lenders. }
    destruct Hz as [Hz1 Hz2]. unfold lender_fair, repaid. rewrite Hz2. split_and!; [done..|].
    cbn. rewrite H0. set (w1 := set_pool _ _).
    assert (0 <= balance w1) by (by apply balance_nonneg). nia.
Qed.

Lemma claim_wf user k mint n w u w' : 0 <= n → user ≠ pw_key w →
  pool_wf w → lender_claim user k mint n w = (Ok u, w') → pool_wf w'.
Proof.
  intros Hn Hu Hwf (l & t & t' & ts & Hl & Hk & Ho & Ht & Hen & HD & Hle & Hx & ->)%lender_claim_Ok.
  pose proof Hwf as ((Hbd & Hbc) & Hv & (t0 & Ht0 & Hcov) & Hfair & He & Hd).
  assert (Hne : k ≠ redeemable_vault w) by (eapply user_no_vault; [done| |done]; congruence).
  destruct (vault_debit _ _ _ _ _ _ _ Hn Hx Ht) as (t1 & Ht1 & _ & _ & _ & Ha).
  assert (Hcv : redeemable_vault w ≠ collateral_vault w).
  { intros E. apply (He Hen). destruct (Hv _ _ Ht) as (_ & Hr & _). rewrite E in Ht.
    destruct (Hv _ _ Ht) as (_ & Hc & _). congruence. }
  assert (HDpos : 0 < po_total_deposited (pw_pool w)).
  { enough (0 <= po_total_deposited (pw_pool w)) by lia. rewrite Hbd. apply msum_nonneg.
    intros u' l' Hl'. by apply (Hfair u' l'). }
  set (w1 := set_pw_tokens _ _).
  assert (Hrep : repaid w1 = repaid w).
  { unfold repaid, balance. cbn -[redeemable_vault].
    change (redeemable_vault w1) with (redeemable_vault w). rewrite Ht1, Ht. cbn. rewrite Ha by done. lia. }
  split_and!; try done.
  - unfold pool_books. cbn. rewrite !(msum_update (K:=list Z) _ _ _ _ _ Hl). cbn.
    rewrite <-Hbd, <-Hbc. lia.
  - by eapply transfer_vaults.
  - destruct (transfer_other _ _ _ _ _ _ _ _ Hn Hx Ht0 Hcv) as (t2 & Ht2 & Hle2).
    exists t2. split; [exact Ht2|]. cbn. lia.
  - intros u' l' Hl'. cbn in Hl'. unfold lender_fair. rewrite Hrep. cbn [pw_pool w1 set_pw_tokens].
    destruct (decide (u' = user)) as [->|Hu'].
    + rewrite lookup_insert_eq in Hl'. injection Hl' as <-. cbn.
      destruct (Hfair _ _ Hl) as (? & ? & _). split_and!; [done|lia|].
      unfold repaid, balance. rewrite Ht. cbn.
      pose proof (Z.mul_div_le ((po_total_claimed (pw_pool w) + ta_amount t) * le_deposited l)
        (po_total_deposited (pw_pool w)) HDpos). nia.
    + rewrite lookup_insert_ne in Hl' by done. exact (Hfair _ _ Hl').
  - cbn. congruence.
Qed.

Lemma pcall_wf c w u w' : pcall_typed w c → pcall_fair w c → pool_wf w →
  run_pcall c w = (Ok u, w') → pool_wf w'.
Proof.
  intros Hty Hfair Hwf Hrun. pose proof Hwf as (Hb & Hv & Hc & Hl & He & Hd).
  destruct c; cbn [run_pcall pcall_typed pcall_fair] in *.
  - destruct Hty. by eapply extract_wf.
  - unfold pool_update in Hrun. guard_inv Hrun.
    destruct max_deposit, freeze, metadata; run_inv; by eapply (pool_wf_frame w).
  - unfold pool_claimable in Hrun. guard_inv Hrun. run_inv.
    assert (Hz : po_total_claimed (pw_pool w) = 0) by (by apply Hd).
    eapply (pool_wf_frame w); try done; by rewrite Hz.
  - unfold lender_create in Hrun. guard_inv Hrun. run_inv. split_and!; try done.
    + unfold pool_books in *. cbn. by rewrite !msum_insert.
    + intros u' l'. cbn. destruct (decide (u' = user)) as [->|Hne].
      * rewrite lookup_insert_eq. intros [= <-]. unfold lender_fair. cbn. lia.
      * rewrite lookup_insert_ne by done. apply Hl.
  - destruct Hty. by eapply deposit_wf.
  - destruct Hty. by eapply claim_wf.
Qed.

Lemma history_wf w0 w : pool_wf w0 → pool_history w0 w → pool_wf w.
Proof.
  intros H0. induction 1 as [|w ts _ IH Hv Ha|w c _ IH Hty Hf]; [done| |].
  - pose proof IH as (_ & _ & (t & Ht & Hc) & _ & He & Hd).
    eapply (pool_wf_frame w); try done.
    + destruct (Ha _ _ Ht) as (t' & Ht' & Hle). exists t'. split; [exact Ht'|]. cbn. lia.
    + intros _. unfold balance. change (redeemable_vault (set_pw_tokens ts w)) with (redeemable_vault w).
      destruct (pw_tokens w !! redeemable_vault w) as [r|] eqn:Hr.
      * destruct (Ha _ _ Hr) as (r' & Hr' & Hle). unfold redeemable_vault. cbn. by rewrite Hr'.
      * change (0 <= balance (set_pw_tokens ts w)). by apply balance_nonneg.
  - unfold transact. destruct (run_pcall c w) as [[u|e|] w'] eqn:Hrun; [|done..]. by eapply pcall_wf.
Qed.

(** ** Shares *)

(** What a lender may have claimed in total by now. *)
Definition share (w : PoolWorld) (l : Lender) : Z :=
  repaid w * le_deposited l / po_total_deposited (pw_pool w).

Lemma repaid_nonneg w : pool_wf w → 0 <= repaid w.
Proof.
  intros ((_ & Hc) & Hv & _ & Hl & _). unfold repaid. pose proof (balance_nonneg w Hv).
  enough (0 <= po_total_claimed (pw_pool w)) by lia. rewrite Hc. apply msum_nonneg.
  intros u l Hu. by apply (Hl u l).
Qed.

Lemma claimed_le_share w u l : pool_wf w → po_total_deposited (pw_pool w) ≠ 0 →
  pw_lenders w !! u = Some l → 0 <= le_claimed l <= share w l.
Proof.
  intros ((Hd & _) & _ & _ & Hl & _) HD Hu. destruct (Hl u l Hu) as (H1 & H2 & H3).
  split; [done|]. unfold share. apply Z.div_le_lower_bound; [|lia].
  enough (0 <= po_total_deposited (pw_pool w)) by lia. rewrite Hd. apply msum_nonneg.
  intros u' l' Hu'. by apply (Hl u' l').
Qed.

(** The shares add up to at most what was repaid. *)
Lemma shares_le_repaid w : pool_wf w → po_total_deposited (pw_pool w) ≠ 0 →
  msum (share w) (pw_lenders w) <= repaid w.
Proof.
  intros Hwf HD. pose proof Hwf as ((Hd & _) & _ & _ & Hl & _).
  assert (Hpos : 0 < po_total_deposited (pw_pool w)).
  { enough (0 <= po_total_deposited (pw_pool w)) by lia. rewrite Hd. apply msum_nonneg.
    intros u' l' Hu'. by apply (Hl u' l'). }
  apply (Z.mul_le_mono_pos_l _ _ _ Hpos). rewrite <-msum_scale.
  etrans; [apply (msum_le _ (λ l, repaid w * le_deposited l))|].
  - intros u l _. apply Z.mul_div_le. lia.
  - rewrite msum_scale, <-Hd. lia.
Qed.

Lemma unclaimed_le_balance w : pool_wf w → po_total_deposited (pw_pool w) ≠ 0 →
  msum (λ l, share w l - le_claimed l) (pw_lenders w) <= balance w.
Proof.
  intros Hwf HD. pose proof (shares_le_repaid w Hwf HD) as Hs. destruct Hwf as ((_ & Hc) & _).
  rewrite msum_sub, <-Hc. unfold repaid in Hs. lia.
Qed.

Lemma unclaimed_le_balance_one w u l : pool_wf w → po_total_deposited (pw_pool w) ≠ 0 →
  pw_lenders w !! u = Some l → share w l - le_claimed l <= balance w.
Proof.
  intros Hwf HD Hu. etrans; [|by apply unclaimed_le_balance].
  apply (msum_member (λ l, share w l - le_claimed l) _ u); [|done].
  intros u' l' Hu'. pose proof (claimed_le_share w u' l' Hwf HD Hu'). lia.
Qed.

Lemma claimable_amount_run w l : 0 <= repaid w <= u64_max → 0 <= le_deposited l <= u64_max →
  share w l <= u64_max → claimable_amount (pw_pool w) l (balance w) = Ok (share w l).
Proof.
  intros HR Hd Hs. unfold claimable_amount, share in *.
  assert (Hprod : repaid w * le_deposited l <= u128_max).
  { transitivity (u64_max * u64_max); [apply Z.mul_le_mono_nonneg; lia|done]. }
  rewrite uadd_run by (unfold repaid, u128_max, u64_max in *; lia). cbn [mbind res_bind].
  fold (repaid w). rewrite umul_run by done. cbn [mbind res_bind].
  by rewrite (proj2 (Z.leb_le _ u64_max)).
Qed.

Lemma pool_create_wf `{!AssociatedLaws A} bump index key au mint md ts w0 : vaults_ok key ts →
  pool_create bump index key au mint md ts = Ok w0 → pool_wf w0.
Proof.
  intros Hv Hc. unfold pool_create in Hc. run_inv. split_and!; try done.
  - intros m t Ht. cbn in Ht. apply lookup_insert_Some in Ht as [[E <-]|[_ Ht]]; [|by apply Hv].
    cbn. by apply associated_token_inj in E.
  - eexists. split; [apply lookup_insert_eq|]. done.
Qed.

End Histories.

(** ** Theorems *)

(** C36: In every history of a pool whose repayment token is not its collateral and in which
    deposits end with the first paid claim, the pool's totals are the sums over its
    lenders, the collateral not extracted is in the vault, no lender has been paid more
    than its share of what was repaid, and the repayment vault holds what all lenders
    together may still claim. *)
Theorem pool_is_solvent {T : TokenProgram} `{!TokenLaws T} {A : AssociatedTokens}
    `{!AssociatedLaws A} bump index key authority mint metadata ts w0 w :
  vaults_ok key ts → pool_create bump index key authority mint metadata ts = Ok w0 →
  pool_history w0 w →
  pool_books w ∧ collateral_covers w ∧
  (po_total_deposited (pw_pool w) ≠ 0 →
   (∀ u l, pw_lenders w !! u = Some l → 0 <= le_claimed l <= share w l) ∧
   msum (λ l, share w l - le_claimed l) (pw_lenders w) <= balance w).
Proof.
  intros Hv Hc Hh. pose proof (history_wf w0 w (pool_create_wf _ _ _ _ _ _ _ _ Hv Hc) Hh) as Hwf.
  split; [apply Hwf|]. split; [apply Hwf|]. intros HD.
  split; [intros u l; by apply claimed_le_share|by apply unclaimed_le_balance].
Qed.

(** In such a history, as long as claiming is enabled and the pool is not frozen, every
    lender can be paid any amount up to its share less what it claimed before, whatever
    the other lenders have claimed: the instruction succeeds, pays the amount, and nobody
    else's account of the pool changes. *)
Theorem lender_can_claim_its_share {A : AssociatedTokens} `{!AssociatedLaws A}
    bump index key authority mint metadata ts w0 w user k l a n :
  vaults_ok key ts → pool_create bump index key authority mint metadata ts = Ok w0 →
  pool_history (T:=spl_tokens) w0 w →
  po_claiming_enabled (pw_pool w) = true → po_freeze (pw_pool w) = false →
  0 < po_total_deposited (pw_pool w) <= u64_max → repaid w <= u64_max →
  is_Some (pw_tokens w !! redeemable_vault w) →
  pw_lenders w !! user = Some l → pw_tokens w !! k = Some a →
  ta_owner a = user → ta_mint a = po_redeemable_mint (pw_pool w) → ta_delegate a = None →
  0 <= n <= share w l - le_claimed l →
  ∃ ts', lender_claim (T:=spl_tokens) user k (po_redeemable_mint (pw_pool w)) n w =
    (Ok tt, set_pw_tokens ts' (set_pool (set_pool_claimed (po_total_claimed (pw_pool w) + n) (pw_pool w))
       (set_lender user (mkLender (le_bump l) (le_deposited l) (le_claimed l + n)) w))) ∧
    ts' = alter (credit n) k (alter (credit (- n)) (redeemable_vault w) (pw_tokens w)).
Proof.
  intros Hv Hc Hh Hen Hfr HD HR [t Ht] Hl Ha Ho Hm Hdel Hn.
  pose proof (history_wf w0 w (pool_create_wf _ _ _ _ _ _ _ _ Hv Hc) Hh) as Hwf.
  pose proof Hwf as ((Hbd & Hbc) & Hvs & _ & Hfair & _).
  destruct (Hvs _ _ Ht) as (Hto & Htm & Hta).
  destruct (Hfair _ _ Hl) as (Hd0 & Hc0 & _).
  pose proof (unclaimed_le_balance_one w user l Hwf ltac:(lia) Hl) as Hbal.
  assert (Hdep : le_deposited l <= po_total_deposited (pw_pool w)).
  { rewrite Hbd. apply (msum_member le_deposited _ user); [|done]. intros u' l' Hu'. by apply (Hfair u'). }
  assert (Hsh : share w l <= repaid w).
  { unfold share. apply Z.div_le_upper_bound; [lia|]. pose proof (repaid_nonneg w Hwf). nia. }
  pose proof (repaid_nonneg w Hwf) as HR0.
  assert (Hb : balance w = ta_amount t) by (unfold balance; by rewrite Ht).
  assert (Htc : 0 <= po_total_claimed (pw_pool w)).
  { rewrite Hbc. apply msum_nonneg. intros u' l' Hu'. by apply (Hfair u'). }
  eexists. split; [|reflexivity].
  unfold lender_claim. rewrite bind_self.
  rewrite (M_bind_run (own_token _ _ _) _ w tt w).
  2: { unfold own_token. rewrite (M_bind_run (receiver_at _ _ _ _) _ w a w) by (by apply receiver_at_run).
       by apply require_that_run. }
  rewrite (M_bind_run (require_that _ _) _ w tt w) by (by apply require_that_run).
  rewrite (M_bind_run (vault_at _ _ _ _ _) _ w t w) by (by apply vault_at_run).
  rewrite Hl, Hfr, Hen. cbn [ok_or negb]. rewrite bind_lift_Ok, !bind_throw_if_false.
  rewrite (proj2 (Z.eqb_neq _ _)) by lia. rewrite bind_throw_if_false.
  rewrite <-Hb, claimable_amount_run, bind_lift_Ok by lia.
  rewrite (uadd_run u64_max (le_claimed l) n), bind_lift_Ok by lia.
  rewrite (proj2 (Z.ltb_ge (share w l) _)), bind_throw_if_false by lia.
  rewrite uadd_run, bind_lift_Ok, !bind_modify by (unfold repaid in *; lia).
  apply transfer_tokens_run. cbn. rewrite Ht, Ha.
  rewrite !bool_decide_true by congruence. cbn. by rewrite (proj2 (Z.leb_le _ _)) by lia.
Qed.

(** ** A small pool

    Alice deposits 100, claiming is enabled, 60 are repaid. *)
Module Mine.
Definition key : Pubkey := replicate 32 60.
Definition boss : Pubkey := replicate 32 61.
Definition gold : Pubkey := replicate 32 62.
Definition coin : Pubkey := replicate 32 63.
Definition alice : Pubkey := replicate 32 64.
Definition bob : Pubkey := replicate 32 65.
Definition alice_gold : Pubkey := replicate 32 66.
Definition alice_coin : Pubkey := replicate 32 67.
Definition bob_gold : Pubkey := replicate 32 68.
Definition bob_coin : Pubkey := replicate 32 69.

#[global] Instance addresses : AssociatedTokens := {| associated_token o m := 99 :: o ++ m |}.
#[global] Instance addresses_laws : AssociatedLaws addresses.
Proof. split. intros o m m' E. injection E as E. by apply app_inv_head in E. Qed.

Definition wallets : tokens :=
  {[ alice_gold := mkToken gold alice None 100; alice_coin := mkToken coin alice None 0;
     bob_gold := mkToken gold bob None 100; bob_coin := mkToken coin bob None 0 ]}.
Definition metadata : PoolMetadata := mkPoolMetadata 0 [].
Definition start : PoolWorld :=
  match pool_create 1 7 key boss gold metadata wallets with
  | Ok w => w
  | _ => mkPoolWorld key (mkPool 1 7 boss gold 0 0 0 false Pubkey_default 0 false metadata) ∅ ∅
  end.
Definition call (c : pcall) (w : PoolWorld) : PoolWorld := transact (run_pcall (T:=spl_tokens) c) w.
Definition calls (cs : list pcall) (w : PoolWorld) : PoolWorld := fold_left (λ w c, call c w) cs w.
Definition deposited : PoolWorld :=
  calls [PUpdate boss (Some 1000) None None; PLenderCreate alice 1; PDeposit alice alice_gold 100;
         PClaimable boss coin] start.
Definition repay (n : Z) (w : PoolWorld) : PoolWorld :=
  set_pw_tokens (<[redeemable_vault w := mkToken coin (pw_key w) None n]> (pw_tokens w)) w.
Definition repaid_60 : PoolWorld := repay 60 deposited.
Definition claimed : PoolWorld := call (PClaim alice alice_coin coin 60) repaid_60.
End Mine.

Lemma wallets_no_vaults : vaults_ok Mine.key Mine.wallets.
Proof.
  intros m t Ht. exfalso. unfold Mine.wallets in Ht.
  repeat (apply lookup_insert_Some in Ht as [[E _]|[_ Ht]]; [discriminate E|]).
  apply lookup_singleton_Some in Ht as [E _]. discriminate E.
Qed.

Lemma mine_start : pool_create 1 7 Mine.key Mine.boss Mine.gold Mine.metadata Mine.wallets = Ok Mine.start.
Proof. reflexivity. Qed.

Lemma mine_deposited : pool_history (T:=spl_tokens) Mine.start Mine.deposited.
Proof.
  unfold Mine.deposited, Mine.calls, fold_left, Mine.call.
  repeat apply ph_call; [apply ph_start| | | | | | | |]; vm_compute;
    first [exact I|reflexivity|split; [|intros E]; discriminate|intros E; discriminate E].
Qed.

Lemma mine_repaid : pool_history (T:=spl_tokens) Mine.start Mine.repaid_60.
Proof.
  pose proof (history_wf (T:=spl_tokens) _ _ (pool_create_wf _ _ _ _ _ _ _ _ wallets_no_vaults
    mine_start) mine_deposited) as (_ & Hv & _).
  apply ph_tokens; [exact mine_deposited| |].
  - intros m t Ht. apply lookup_insert_Some in Ht as [[E <-]|[_ Ht]]; [|by apply Hv].
    apply associated_token_inj in E. cbn. split_and!; [done|by rewrite <-E|lia].
  - intros m t Ht. eexists. rewrite lookup_insert_ne; [split; [exact Ht|lia]|].
    intros E. rewrite <-E in Ht. vm_compute in Ht. discriminate Ht.
Qed.

Lemma mine_claimed : pool_history (T:=spl_tokens) Mine.start Mine.claimed.
Proof.
  refine (ph_call Mine.start Mine.repaid_60 (PClaim Mine.alice Mine.alice_coin Mine.coin 60)
    mine_repaid _ I). vm_compute. split; [|intros E]; discriminate.
Qed.

Lemma pool_is_solvent_witness :
  let w := Mine.claimed in
  po_total_claimed (pw_pool w) = 60 ∧
  msum (λ l, share w l - le_claimed l) (pw_lenders w) <= balance w.
Proof.
  assert (HD : po_total_deposited (pw_pool Mine.claimed) = 100) by (vm_compute; reflexivity).
  split; [vm_compute; reflexivity|].
  destruct (pool_is_solvent (T:=spl_tokens) 1 7 Mine.key Mine.boss Mine.gold Mine.metadata
    Mine.wallets Mine.start Mine.claimed wallets_no_vaults mine_start mine_claimed) as (_ & _ & Hs).
  refine (proj2 (Hs _)). rewrite HD. discriminate.
Defined.

Lemma lender_can_claim_its_share_witness :
  ∃ ts', lender_claim (T:=spl_tokens) Mine.alice Mine.alice_coin
      (po_redeemable_mint (pw_pool Mine.repaid_60)) 45 Mine.repaid_60 =
    (Ok tt, set_pw_tokens ts' (set_pool (set_pool_claimed
       (po_total_claimed (pw_pool Mine.repaid_60) + 45) (pw_pool Mine.repaid_60))
       (set_lender Mine.alice (mkLender 1 100 (0 + 45)) Mine.repaid_60))).
Proof.
  destruct (lender_can_claim_its_share 1 7 Mine.key Mine.boss Mine.gold Mine.metadata Mine.wallets
    Mine.start Mine.repaid_60 Mine.alice Mine.alice_coin (mkLender 1 100 0)
    (mkToken Mine.coin Mine.alice None 0) 45 wallets_no_vaults mine_start mine_repaid)
    as (ts' & Hrun & _); [vm_compute; reflexivity|vm_compute; reflexivity| | | | | | | | | |].
  - vm_compute. split; [reflexivity|discriminate].
  - vm_compute. discriminate.
  - eexists. vm_compute. reflexivity.
  - vm_compute. reflexivity.
  - vm_compute. reflexivity.
  - reflexivity.
  - vm_compute. reflexivity.
  - reflexivity.
  - vm_compute. split; discriminate.
  - exists ts'. exact Hrun.
Defined.

(** Deposits stay open after claims were paid, and the share of a late lender counts what
    others were already paid: Alice claims all of the 60 repaid; Bob then deposits as much as
    she did, is owed 30, and the vault is empty. *)
Theorem late_deposit_is_not_covered :
  let w := Mine.calls [PLenderCreate Mine.bob 1; PDeposit Mine.bob Mine.bob_gold 100] Mine.claimed in
  (∃ l, pw_lenders w !! Mine.bob = Some l ∧ le_claimed l = 0 ∧ share w l = 30) ∧ balance w = 0 ∧
  fst (lender_claim (T:=spl_tokens) Mine.bob Mine.bob_coin Mine.coin 30 w) = Err P_TokenError.
Proof.
  split; [eexists; split; [vm_compute; reflexivity|split; vm_compute; reflexivity]|].
  split; vm_compute; reflexivity.
Qed.
