(* ===== verification/Treasurer.v ===== *)
(** * The treasurer program

    architectures/decentralized/solana-treasurer: bonds, rewards and disputes of one
    run.  [World] is the run account together with everything its instructions read
    or write: the accounts derived from the run's key (participants by user, audit
    verdicts by target, join authorizations by grantee, the vault), the token
    accounts, and the coordinator account the run owns.  A cross-program call to the
    coordinator or to the authorizer runs the definition of that program, signed by
    the run's address.  Tokens are moved by the token program of [Tokens]. *)

From stdpp Require Import base tactics list numbers strings gmap.
From S2P Require Import Prelude CoreTypes Hashing CoordinatorState Committee Coordinator.
From S2P Require Import Authorizer SolanaCoordinator Tokens.

Open Scope Z_scope.

(** ** Accounts *)
Inductive TreasurerError :=
| InvalidParameter | T_RunIdInvalidLength | InsufficientBond | WithdrawDelayNotElapsed
| MissingReporter | BondBelowMinimum | BondWindowRequired | VerifierNotInEpoch
| VerifierNotAssigned | TargetMismatch | DuplicateVerdict | VerdictAlreadyResolved
| VerdictVotersFull | BountyRecipientMismatch | VerdictNotPending | ChallengeWindowClosed
| ChallengeWindowOpen | VerdictNotChallenged | NotTieBreaker | DuplicateAppealVerdict
| AppealVotersFull | VerdictNotOverturned | AllLosersSettled | VerifierCommitteeTooSmall
| QuorumExceedsVoterCapacity | PreviousVerdictUnsettled | EvidenceMismatch
| AppellateVotedOnVerdict | AppealWindowOpen | InvalidBountyRecipient | AuditVerdictRequired
| LoserNotSlashableYet
| AccountConstraint | TokenError
| CpiCoordinator (e : ProgramError) | CpiAuthorizer (e : AuthorizerError).

Record Run := mkRun {
  r_bump : Z;
  r_index : Z;
  r_main_authority : Pubkey;
  r_join_authority : Pubkey;
  r_coordinator_account : Pubkey;
  r_coordinator_instance : Pubkey;
  r_collateral_mint : Pubkey;
  r_total_claimed_collateral_amount : Z;
  r_total_claimed_earned_points : Z;
  r_total_bonded_amount : Z;
  r_bond_minimum_amount : Z;
  r_bond_withdraw_delay_seconds : Z;      (* i64 *)
  r_slash_bounty_bps : Z;                 (* u16 *)
  r_challenge_window_seconds : Z;         (* i64 *)
  r_tie_breaker_committee_size : Z;       (* u16 *)
  r_appeal_window_seconds : Z             (* i64 *)
}.

Record Participant := mkParticipant {
  p_bump : Z;
  claimed_collateral_amount : Z;
  claimed_earned_points : Z;
  bond_amount : Z;
  bond_withdraw_pending_amount : Z;
  bond_withdraw_requested_at : Z;         (* i64 *)
  bond_settled_slashed_points : Z;
  bond_withdraw_delay_snapshot : Z        (* i64 *)
}.

Definition MAX_VERDICT_VOTERS : nat := 64.
Definition MAX_APPEAL_VOTERS : nat := 64.

Inductive VerdictStatus := Voting | SlashPending | Challenged | Upheld | Overturned.
#[export] Instance VerdictStatus_eq_dec : EqDecision VerdictStatus.
Proof. solve_decision. Defined.

(** What a verdict accuses its target of. *)
Record Evidence := mkEvidence {
  committed_hash : list Z;
  replayed_hash : list Z;
  target_index : Z;
  batch_start : Z;
  batch_end : Z
}.
#[export] Instance Evidence_eq_dec : EqDecision Evidence.
Proof. solve_decision. Defined.

Definition no_evidence : Evidence := mkEvidence (replicate 32 0) (replicate 32 0) 0 0 0.

Record AuditVerdict := mkVerdict {
  v_bump : Z;
  v_run : Pubkey;
  v_target : Pubkey;
  v_epoch : Z;                            (* u16 *)
  v_round_height : Z;                     (* u32 *)
  v_status : VerdictStatus;
  verdict_count : Z;                      (* u16 *)
  v_evidence : Evidence;
  pending_since_unix : Z;                 (* i64 *)
  challenged_since_unix : Z;              (* i64 *)
  challenger : Pubkey;
  overturn_count : Z;                     (* u16 *)
  uphold_count : Z;                       (* u16 *)
  settled_count : Z;                      (* u16 *)
  voters : list Pubkey;
  appeal_voters : list Pubkey
}.

Definition is_settled (v : AuditVerdict) : bool :=
  match v_status v with
  | Voting | Upheld => true
  | Overturned => zlen (voters v) <=? settled_count v
  | SlashPending | Challenged => false
  end.

Definition reset_for_round (epoch round_height : Z) (v : AuditVerdict) : AuditVerdict :=
  mkVerdict (v_bump v) (v_run v) (v_target v) epoch round_height Voting 0 no_evidence 0 0
    Pubkey_default 0 0 0 [] [].

(** The account as [init_if_needed] leaves it when it did not exist. *)
Definition zeroed_verdict : AuditVerdict :=
  mkVerdict 0 Pubkey_default Pubkey_default 0 0 Voting 0 no_evidence 0 0 Pubkey_default 0 0 0 [] [].

Definition Run_space_with_discriminator : Z :=
  8 + 1 + 8 + 32 + 32 + 32 + 32 + 32 + 8 + 8 + 8 + 8 + 8 + 2 + 8 + 2 + 8.
Definition Participant_space_with_discriminator : Z := 8 + 1 + 8 + 8 + 8 + 8 + 8 + 8 + 8.
Definition AuditVerdict_space_with_discriminator : Z :=
  8 + 1 + 32 + 32 + 2 + 4 + 1 + 2 + 32 + 32 + 8 + 8 + 8 + 8 + 8 + 32 + 2 + 2 + 2
  + 4 + Z.of_nat MAX_VERDICT_VOTERS * 32 + 4 + Z.of_nat MAX_APPEAL_VOTERS * 32.

Record World := mkWorld {
  w_run_key : Pubkey;
  w_run : Run;
  w_vault : Pubkey;
  w_tokens : tokens;
  w_participants : gmap (list Z) Participant;
  w_verdicts : gmap (list Z) AuditVerdict;
  w_authorizations : gmap (list Z) Authorization;
  w_instance : CoordinatorInstance;
  w_coordinator : CoordinatorAccount
}.

Definition set_run (x : Run) (w : World) : World :=
  mkWorld (w_run_key w) x (w_vault w) (w_tokens w) (w_participants w) (w_verdicts w)
    (w_authorizations w) (w_instance w) (w_coordinator w).
Definition set_tokens (x : tokens) (w : World) : World :=
  mkWorld (w_run_key w) (w_run w) (w_vault w) x (w_participants w) (w_verdicts w)
    (w_authorizations w) (w_instance w) (w_coordinator w).
Definition set_participant (u : Pubkey) (x : Participant) (w : World) : World :=
  mkWorld (w_run_key w) (w_run w) (w_vault w) (w_tokens w) (<[u := x]> (w_participants w))
    (w_verdicts w) (w_authorizations w) (w_instance w) (w_coordinator w).
Definition set_verdict (t : Pubkey) (x : AuditVerdict) (w : World) : World :=
  mkWorld (w_run_key w) (w_run w) (w_vault w) (w_tokens w) (w_participants w)
    (<[t := x]> (w_verdicts w)) (w_authorizations w) (w_instance w) (w_coordinator w).
Definition set_authorization (u : Pubkey) (x : Authorization) (w : World) : World :=
  mkWorld (w_run_key w) (w_run w) (w_vault w) (w_tokens w) (w_participants w) (w_verdicts w)
    (<[u := x]> (w_authorizations w)) (w_instance w) (w_coordinator w).
Definition set_coordinator_account (x : CoordinatorAccount) (w : World) : World :=
  mkWorld (w_run_key w) (w_run w) (w_vault w) (w_tokens w) (w_participants w) (w_verdicts w)
    (w_authorizations w) (w_instance w) x.

Notation TM := (M TreasurerError World).

Definition set_total_bonded (x : Z) (r : Run) : Run :=
  mkRun (r_bump r) (r_index r) (r_main_authority r) (r_join_authority r) (r_coordinator_account r)
    (r_coordinator_instance r) (r_collateral_mint r) (r_total_claimed_collateral_amount r)
    (r_total_claimed_earned_points r) x (r_bond_minimum_amount r) (r_bond_withdraw_delay_seconds r)
    (r_slash_bounty_bps r) (r_challenge_window_seconds r) (r_tie_breaker_committee_size r)
    (r_appeal_window_seconds r).
Definition set_total_claimed (collateral points : Z) (r : Run) : Run :=
  mkRun (r_bump r) (r_index r) (r_main_authority r) (r_join_authority r) (r_coordinator_account r)
    (r_coordinator_instance r) (r_collateral_mint r) collateral points (r_total_bonded_amount r)
    (r_bond_minimum_amount r) (r_bond_withdraw_delay_seconds r) (r_slash_bounty_bps r)
    (r_challenge_window_seconds r) (r_tie_breaker_committee_size r) (r_appeal_window_seconds r).
Definition set_bond_config (minimum delay : Z) (r : Run) : Run :=
  mkRun (r_bump r) (r_index r) (r_main_authority r) (r_join_authority r) (r_coordinator_account r)
    (r_coordinator_instance r) (r_collateral_mint r) (r_total_claimed_collateral_amount r)
    (r_total_claimed_earned_points r) (r_total_bonded_amount r) minimum delay
    (r_slash_bounty_bps r) (r_challenge_window_seconds r) (r_tie_breaker_committee_size r)
    (r_appeal_window_seconds r).
Definition set_bounty (bps : Z) (r : Run) : Run :=
  mkRun (r_bump r) (r_index r) (r_main_authority r) (r_join_authority r) (r_coordinator_account r)
    (r_coordinator_instance r) (r_collateral_mint r) (r_total_claimed_collateral_amount r)
    (r_total_claimed_earned_points r) (r_total_bonded_amount r) (r_bond_minimum_amount r)
    (r_bond_withdraw_delay_seconds r) bps (r_challenge_window_seconds r)
    (r_tie_breaker_committee_size r) (r_appeal_window_seconds r).
Definition set_challenge_config (window size appeal : Z) (r : Run) : Run :=
  mkRun (r_bump r) (r_index r) (r_main_authority r) (r_join_authority r) (r_coordinator_account r)
    (r_coordinator_instance r) (r_collateral_mint r) (r_total_claimed_collateral_amount r)
    (r_total_claimed_earned_points r) (r_total_bonded_amount r) (r_bond_minimum_amount r)
    (r_bond_withdraw_delay_seconds r) (r_slash_bounty_bps r) window size appeal.

(** ** Shared steps *)
Section Steps.
Context {T : TokenProgram}.

(** An account at its derived address must exist. *)
Definition existing {A} (o : option A) : TM A := lift (ok_or o AccountConstraint).

(** [user_collateral]: of the run's mint, owned by the user, with no delegate. *)
Definition user_token (user key : Pubkey) : TM unit :=
  w ← self;
  t ← existing (w_tokens w !! key);
  throw_if (negb (bool_decide (ta_mint t = r_collateral_mint (w_run w)))) AccountConstraint ;;
  throw_if (negb (bool_decide (ta_owner t = user))) AccountConstraint ;;
  throw_if (negb (bool_decide (ta_delegate t = None))) AccountConstraint.

(** The constraints on the coordinator accounts passed. *)
Definition coordinator_account_is (key : Pubkey) : TM unit :=
  w ← self;
  throw_if (negb (bool_decide (r_coordinator_account (w_run w) = key))) AccountConstraint.
Definition coordinator_accounts_are (instance_key account_key : Pubkey) : TM unit :=
  w ← self;
  throw_if (negb (bool_decide (r_coordinator_instance (w_run w) = instance_key)))
    AccountConstraint ;;
  coordinator_account_is account_key.
Definition coordinator_version : TM unit :=
  w ← self;
  throw_if (negb (acc_version (w_coordinator w) =? VERSION)) AccountConstraint.

Definition main_authority_is (authority : Pubkey) : TM unit :=
  w ← self;
  throw_if (negb (bool_decide (r_main_authority (w_run w) = authority))) AccountConstraint.

Definition transfer (from to authority : Pubkey) (amount : Z) : TM unit :=
  w ← self;
  ts ← lift (ok_or (token_transfer from to authority amount (w_tokens w)) TokenError);
  modify (set_tokens ts).

(** A call to the coordinator program. *)
Definition cpi (m : XM unit) : TM unit :=
  zoom w_coordinator set_coordinator_account CpiCoordinator m.

(** [slash_client], signed by the run. *)
Definition slash (index : Z) : TM unit :=
  w ← self;
  cpi (ix_slash_client (w_instance w) (r_coordinator_account (w_run w)) (w_run_key w) index).

(** The record of the coordinator for the first member with this signer. *)
Definition member_of (user : Pubkey) (w : World) : option SolClient :=
  snd <$> list_find (λ m, signer (sc_id m) = user)
    (members (clients_state (acc_state (w_coordinator w)))).
Definition earned_of (user : Pubkey) (w : World) : Z := from_option earned 0 (member_of user w).
Definition slashed_of (user : Pubkey) (w : World) : Z := from_option slashed 0 (member_of user w).

Definition epoch_clients (w : World) : list Client :=
  clients (epoch_state (coordinator (acc_state (w_coordinator w)))).

(** [clients.iter().position(|client| signer == key)]. *)
Definition client_position (key : Pubkey) (w : World) : option nat :=
  fst <$> list_find (λ c, signer (id c) = key) (epoch_clients w).

(** [clients.iter().nth(index)] is the target. *)
Definition target_at (index : Z) (target : Pubkey) : TM unit :=
  w ← self;
  c ← lift (ok_or (znth (epoch_clients w) index) TargetMismatch);
  throw_if (negb (bool_decide (signer (id c) = target))) TargetMismatch.

Definition bond_at_least_minimum (user : Pubkey) : TM unit :=
  w ← self;
  p ← existing (w_participants w !! user);
  throw_if (bond_amount p <? r_bond_minimum_amount (w_run w)) BondBelowMinimum.

End Steps.

(** ** Run configuration *)

(** [run_create]: the run, its empty vault and its coordinator, whose main authority is
    the run's own address. *)
Definition run_create (space data_len : Z) (disc : list Z) (content : CoordinatorAccount)
    (bump coordinator_bump index : Z) (run_key vault coordinator_instance coordinator_account
     collateral_mint main_authority join_authority : Pubkey) (run_id client_version : list Z)
    (ts : tokens) : res TreasurerError World :=
  res_throw_if (SOLANA_RUN_ID_MAX_LEN <? length run_id)%nat T_RunIdInvalidLength ;;
  res_throw_if (bool_decide (is_Some (ts !! vault))) AccountConstraint ;;
  '(inst, acc) ← map_err CpiCoordinator
    (init_coordinator space data_len disc content coordinator_bump run_key join_authority
       coordinator_account run_id client_version);
  Ok (mkWorld run_key
    (mkRun bump index main_authority join_authority coordinator_account coordinator_instance
       collateral_mint 0 0 0 0 0 0 0 0 0)
    vault (<[vault := mkToken collateral_mint run_key None 0]> ts) ∅ ∅ ∅ inst acc).

Definition run_set_slash_bounty (authority : Pubkey) (slash_bounty_bps : Z) : TM unit :=
  main_authority_is authority ;;
  throw_if (10000 <? slash_bounty_bps) InvalidParameter ;;
  modify (λ w, set_run (set_bounty slash_bounty_bps (w_run w)) w).

Definition run_bond_config_update (authority : Pubkey) (minimum delay : Z) : TM unit :=
  main_authority_is authority ;;
  throw_if (delay <? 0) InvalidParameter ;;
  throw_if ((0 <? minimum) && (delay =? 0)) BondWindowRequired ;;
  modify (λ w, set_run (set_bond_config minimum delay (w_run w)) w).

Definition run_set_challenge_config (authority : Pubkey) (window size appeal : Z) : TM unit :=
  main_authority_is authority ;;
  throw_if ((window <? 0) || (appeal <? 0)) InvalidParameter ;;
  modify (λ w, set_run (set_challenge_config window size appeal (w_run w)) w).

(** ** Participants *)

Definition participant_create (user : Pubkey) (bump : Z) : TM unit :=
  w ← self;
  throw_if (bool_decide (is_Some (w_participants w !! user))) AccountConstraint ;;
  modify (set_participant user (mkParticipant bump 0 0 0 0 0 0 0)).

Definition participant_bond_request_withdraw (clock : Clock) (user : Pubkey)
    (collateral_amount : Z) : TM unit :=
  w ← self;
  p ← existing (w_participants w !! user);
  available ← lift (usub (bond_amount p) (bond_withdraw_pending_amount p));
  throw_if ((collateral_amount =? 0) || (available <? collateral_amount)) InsufficientBond ;;
  pending ← lift (uadd u64_max (bond_withdraw_pending_amount p) collateral_amount);
  modify (set_participant user
    (mkParticipant (p_bump p) (claimed_collateral_amount p) (claimed_earned_points p)
       (bond_amount p) pending (unix_timestamp clock) (bond_settled_slashed_points p)
       (r_bond_withdraw_delay_seconds (w_run w)))).

(** [participant_authorize_join]: the run grants the user the right to join. *)
Definition participant_authorize_join (clock : Clock) (user : Pubkey) (bump : Z) : TM unit :=
  w ← self;
  throw_if (negb (bool_decide (r_join_authority (w_run w) = w_run_key w))) AccountConstraint ;;
  bond_at_least_minimum user ;;
  throw_if (bool_decide (is_Some (w_authorizations w !! user))) AccountConstraint ;;
  let created := authorization_create bump (w_run_key w) user JOIN_RUN_AUTHORIZATION_SCOPE in
  match authorization_grantor_update (w_run_key w) true (unix_timestamp clock) created with
  | (Ok _, a) => modify (set_authorization user a)
  | (Err e, _) => throw (CpiAuthorizer e)
  | (Panic, _) => lift Panic
  end.

Section Funds.
Context {T : TokenProgram}.

Definition participant_bond_deposit (user user_collateral : Pubkey) (collateral_amount : Z) :
    TM unit :=
  user_token user user_collateral ;;
  w ← self;
  p ← existing (w_participants w !! user);
  throw_if (collateral_amount =? 0) InvalidParameter ;;
  transfer user_collateral (w_vault w) user collateral_amount ;;
  bond ← lift (uadd u64_max (bond_amount p) collateral_amount);
  bonded ← lift (uadd u64_max (r_total_bonded_amount (w_run w)) collateral_amount);
  modify (set_participant user
    (mkParticipant (p_bump p) (claimed_collateral_amount p) (claimed_earned_points p) bond
       (bond_withdraw_pending_amount p) (bond_withdraw_requested_at p)
       (bond_settled_slashed_points p) (bond_withdraw_delay_snapshot p))) ;;
  modify (λ w, set_run (set_total_bonded bonded (w_run w)) w).

Definition participant_claim (user user_collateral coordinator_key : Pubkey)
    (claim_earned_points : Z) : TM unit :=
  user_token user user_collateral ;;
  coordinator_account_is coordinator_key ;;
  coordinator_version ;;
  w ← self;
  p ← existing (w_participants w !! user);
  throw_if (bond_amount p <? r_bond_minimum_amount (w_run w)) BondBelowMinimum ;;
  unclaimed ← lift (usub (earned_of user w) (claimed_earned_points p));
  throw_if (unclaimed <? claim_earned_points) InvalidParameter ;;
  let claim_collateral_amount := claim_earned_points in
  pc ← lift (uadd u64_max (claimed_collateral_amount p) claim_collateral_amount);
  pe ← lift (uadd u64_max (claimed_earned_points p) claim_earned_points);
  rc ← lift (uadd u64_max (r_total_claimed_collateral_amount (w_run w)) claim_collateral_amount);
  re ← lift (uadd u64_max (r_total_claimed_earned_points (w_run w)) claim_earned_points);
  modify (set_participant user
    (mkParticipant (p_bump p) pc pe (bond_amount p) (bond_withdraw_pending_amount p)
       (bond_withdraw_requested_at p) (bond_settled_slashed_points p)
       (bond_withdraw_delay_snapshot p))) ;;
  modify (λ w, set_run (set_total_claimed rc re (w_run w)) w) ;;
  transfer (w_vault w) user_collateral (w_run_key w) claim_collateral_amount.

(** ** Withdrawals *)

(** Whom the bounty of a slashed participant goes to. *)
Definition bounty_voters (user : Pubkey) (appeal : option Pubkey) (w : World) :
    res TreasurerError (list Pubkey) :=
  match w_verdicts w !! user with
  | Some verdict =>
      Ok (if bool_decide (v_status verdict = Upheld) && negb (bool_decide (appeal_voters verdict = []))
          then appeal_voters verdict else voters verdict)
  | None =>
      match appeal with
      | Some key =>
          a ← ok_or (w_verdicts w !! key) AccountConstraint;
          res_throw_if (negb (bool_decide (v_run a = w_run_key w))) InvalidParameter ;;
          res_throw_if (negb (bool_decide (v_status a = Overturned))) VerdictNotOverturned ;;
          res_throw_if (negb (bool_decide (user ∈ voters a))) InvalidParameter ;;
          Ok (appeal_voters a)
      | None => Ok []
      end
  end.

(** The reporter's account: a token account of the mint that is not the user's. *)
Definition pay_reporter (user : Pubkey) (remaining : list Pubkey) (bounty : Z) : TM unit :=
  w ← self;
  reporter ← lift (ok_or (head remaining) MissingReporter);
  t ← lift (ok_or (w_tokens w !! reporter) InvalidBountyRecipient);
  throw_if (negb (bool_decide (ta_mint t = r_collateral_mint (w_run w)))
            || bool_decide (ta_owner t = user)) InvalidBountyRecipient ;;
  transfer (w_vault w) reporter (w_run_key w) bounty.

Definition pay_voter (share : Z) (voter recipient : Pubkey) : TM unit :=
  w ← self;
  t ← lift (ok_or (w_tokens w !! recipient) BountyRecipientMismatch);
  throw_if (negb (bool_decide (ta_owner t = voter))
            || negb (bool_decide (ta_mint t = r_collateral_mint (w_run w))))
    BountyRecipientMismatch ;;
  transfer (w_vault w) recipient (w_run_key w) share.

Definition pay_bounty (user : Pubkey) (appeal : option Pubkey) (remaining : list Pubkey)
    (bounty : Z) : TM unit :=
  vs ← asks (bounty_voters user appeal);
  if bool_decide (vs = []) then pay_reporter user remaining bounty
  else
    throw_if (length remaining <? length vs)%nat MissingReporter ;;
    let share := bounty / zlen vs in
    whenM (negb (share =? 0))
      (forM_ (zip vs remaining) (λ '(voter, recipient), pay_voter share voter recipient)).

Definition participant_bond_finalize_withdraw (clock : Clock) (user user_collateral
    coordinator_key : Pubkey) (appeal : option Pubkey) (remaining : list Pubkey) : TM unit :=
  user_token user user_collateral ;;
  coordinator_account_is coordinator_key ;;
  coordinator_version ;;
  w ← self;
  p ← existing (w_participants w !! user);
  whenM (bool_decide (is_Some appeal))
    (existing (appeal ≫= (λ key, w_verdicts w !! key)) ;; mret tt) ;;
  let participant_slashed_points := slashed_of user w in
  throw_if (bond_withdraw_pending_amount p =? 0) InvalidParameter ;;
  unlock ← lift (iadd64 (bond_withdraw_requested_at p) (bond_withdraw_delay_snapshot p));
  throw_if (unix_timestamp clock <? unlock) WithdrawDelayNotElapsed ;;
  let unsettled := sat_sub participant_slashed_points (bond_settled_slashed_points p) in
  let forfeited := Z.min unsettled (bond_amount p) in
  settled ← lift (uadd u64_max (bond_settled_slashed_points p) forfeited);
  bond1 ← lift (usub (bond_amount p) forfeited);
  let payout := Z.min (bond_withdraw_pending_amount p) bond1 in
  bond2 ← lift (usub bond1 payout);
  gone ← lift (uadd u64_max forfeited payout);
  bonded ← lift (usub (r_total_bonded_amount (w_run w)) gone);
  modify (set_participant user
    (mkParticipant (p_bump p) (claimed_collateral_amount p) (claimed_earned_points p) bond2 0 0
       settled (bond_withdraw_delay_snapshot p))) ;;
  modify (λ w, set_run (set_total_bonded bonded (w_run w)) w) ;;
  let bps := r_slash_bounty_bps (w_run w) in
  let bounty := if 0 <? bps then as_u64 (forfeited * bps / 10000) else 0 in
  whenM (0 <? bounty) (pay_bounty user appeal remaining bounty) ;;
  whenM (0 <? payout) (transfer (w_vault w) user_collateral (w_run_key w) payout).

End Funds.

(** ** Calls to the coordinator by the run's authority *)

Section Authority.
Context {H : HashFns}.

Definition is_some {A} (o : option A) : bool := match o with Some _ => true | None => false end.

Definition run_update (clock : Clock) (authority instance_key account_key : Pubkey)
    (metadata : option RunMetadata) (config : option CoordinatorConfig) (model : option Model)
    (progress : option CoordinatorProgress) (earning slashing : option Z) (paused : option bool)
    (client_version : option (list Z)) : TM unit :=
  main_authority_is authority ;;
  coordinator_accounts_are instance_key account_key ;;
  w ← self;
  let inst := w_instance w in
  let key := r_coordinator_account (w_run w) in
  let run := w_run_key w in
  whenM (is_some metadata || is_some config || is_some model || is_some progress)
    (cpi (ix_update inst key run metadata config model progress)) ;;
  whenM (is_some earning || is_some slashing)
    (cpi (ix_set_future_epoch_rates inst key run earning slashing)) ;;
  match paused with Some b => cpi (ix_set_paused inst key run clock b) | None => mret tt end ;;
  match client_version with
  | Some v => cpi (ix_update_client_version inst key run v)
  | None => mret tt
  end.

Definition run_slash (authority instance_key account_key : Pubkey) (index : Z) : TM unit :=
  main_authority_is authority ;;
  coordinator_accounts_are instance_key account_key ;;
  slash index.

(** ** Disputes *)

Definition MIN_VERIFIER_COMMITTEE : Z := 2.

(** [a.div_ceil(b)] on [u64]. *)
Definition div_ceil (a b : Z) : Z := (a + b - 1) / b.

(** The committee the signer must sit on in the current round. *)
Definition seat (who : Pubkey) (c : Committee) (not_seated : TreasurerError) :
    TM CommitteeSelection :=
  w ← self;
  let co := coordinator (acc_state (w_coordinator w)) in
  index ← lift (ok_or (client_position who w) VerifierNotInEpoch);
  selection ← lift (map_err (λ _, not_seated)
    (from_coordinator_with_tie_breakers co 0 (r_tie_breaker_committee_size (w_run w))));
  proof ← lift (get_committee selection (Z.of_nat index));
  throw_if (negb (bool_decide (cp_committee proof = c))) not_seated ;;
  mret selection.

(** The account of the dispute, fresh or taken over once the last one is settled. *)
Definition open_verdict (bump : Z) (run_key target : Pubkey) (epoch round : Z)
    (found : option AuditVerdict) : res TreasurerError AuditVerdict :=
  let v := default zeroed_verdict found in
  if bool_decide (v_run v = Pubkey_default) then
    Ok (reset_for_round epoch round
      (mkVerdict bump run_key target (v_epoch v) (v_round_height v) (v_status v) (verdict_count v)
         (v_evidence v) (pending_since_unix v) (challenged_since_unix v) (challenger v)
         (overturn_count v) (uphold_count v) (settled_count v) (voters v) (appeal_voters v)))
  else if negb (v_epoch v =? epoch) || negb (v_round_height v =? round) then
    res_throw_if (negb (is_settled v)) PreviousVerdictUnsettled ;;
    Ok (reset_for_round epoch round v)
  else Ok v.

(** One verifier's vote on an open verdict. *)
Definition cast_vote (verifier : Pubkey) (ev : Evidence) (v : AuditVerdict) :
    res TreasurerError AuditVerdict :=
  res_throw_if (negb (bool_decide (v_status v = Voting))) VerdictAlreadyResolved ;;
  res_throw_if (bool_decide (verifier ∈ voters v)) DuplicateVerdict ;;
  res_throw_if (MAX_VERDICT_VOTERS <=? length (voters v))%nat VerdictVotersFull ;;
  ev' ← (if bool_decide (voters v = []) then Ok ev
         else if bool_decide (v_evidence v = ev) then Ok (v_evidence v)
         else Err EvidenceMismatch);
  count ← uadd u16_max (verdict_count v) 1;
  Ok (mkVerdict (v_bump v) (v_run v) (v_target v) (v_epoch v) (v_round_height v) Voting count
        ev' (pending_since_unix v) (challenged_since_unix v) (challenger v) (overturn_count v)
        (uphold_count v) (settled_count v) (voters v ++ [verifier]) (appeal_voters v)).

Definition set_status (s : VerdictStatus) (v : AuditVerdict) : AuditVerdict :=
  mkVerdict (v_bump v) (v_run v) (v_target v) (v_epoch v) (v_round_height v) s (verdict_count v)
    (v_evidence v) (pending_since_unix v) (challenged_since_unix v) (challenger v)
    (overturn_count v) (uphold_count v) (settled_count v) (voters v) (appeal_voters v).
Definition set_pending_since (t : Z) (v : AuditVerdict) : AuditVerdict :=
  mkVerdict (v_bump v) (v_run v) (v_target v) (v_epoch v) (v_round_height v) (v_status v)
    (verdict_count v) (v_evidence v) t (challenged_since_unix v) (challenger v)
    (overturn_count v) (uphold_count v) (settled_count v) (voters v) (appeal_voters v).
Definition set_settled_count (n : Z) (v : AuditVerdict) : AuditVerdict :=
  mkVerdict (v_bump v) (v_run v) (v_target v) (v_epoch v) (v_round_height v) (v_status v)
    (verdict_count v) (v_evidence v) (pending_since_unix v) (challenged_since_unix v)
    (challenger v) (overturn_count v) (uphold_count v) n (voters v) (appeal_voters v).

Definition verdict_quorum (verifier_nodes : Z) : res TreasurerError Z :=
  res_throw_if (verifier_nodes <? MIN_VERIFIER_COMMITTEE) VerifierCommitteeTooSmall ;;
  d ← umul u64_max 2 verifier_nodes;
  let quorum := Z.max (div_ceil d 3) 2 in
  res_throw_if (Z.of_nat MAX_VERDICT_VOTERS <? quorum) QuorumExceedsVoterCapacity ;;
  Ok quorum.

Definition run_submit_audit_verdict (clock : Clock) (verifier instance_key account_key : Pubkey)
    (bump : Z) (target : Pubkey) (ev : Evidence) : TM unit :=
  coordinator_accounts_are instance_key account_key ;;
  bond_at_least_minimum verifier ;;
  selection ← seat verifier Verifier VerifierNotAssigned;
  target_at (target_index ev) target ;;
  quorum ← lift (verdict_quorum (verifier_nodes selection));
  w ← self;
  let co := coordinator (acc_state (w_coordinator w)) in
  round ← lift (ok_or (current_round co) VerifierNotAssigned);
  v0 ← lift (open_verdict bump (w_run_key w) target (epoch (progress co)) (height round)
               (w_verdicts w !! target));
  v ← lift (cast_vote verifier ev v0);
  if quorum <=? verdict_count v then
    if 0 <? r_challenge_window_seconds (w_run w) then
      modify (set_verdict target
        (set_pending_since (unix_timestamp clock) (set_status SlashPending v)))
    else
      modify (set_verdict target (set_status Upheld v)) ;;
      slash (target_index ev)
  else modify (set_verdict target v).

Definition run_open_challenge (clock : Clock) (who : Pubkey) : TM unit :=
  w ← self;
  v ← existing (w_verdicts w !! who);
  bond_at_least_minimum who ;;
  throw_if (negb (bool_decide (v_status v = SlashPending))) VerdictNotPending ;;
  deadline ← lift (iadd64 (pending_since_unix v) (r_challenge_window_seconds (w_run w)));
  throw_if (deadline <=? unix_timestamp clock) ChallengeWindowClosed ;;
  modify (set_verdict who
    (mkVerdict (v_bump v) (v_run v) (v_target v) (v_epoch v) (v_round_height v) Challenged
       (verdict_count v) (v_evidence v) (pending_since_unix v) (unix_timestamp clock) who 0 0
       (settled_count v) (voters v) [])).

(** One tie-breaker's vote on a challenged verdict. *)
Definition cast_appeal (appellate : Pubkey) (overturn : bool) (v : AuditVerdict) :
    res TreasurerError AuditVerdict :=
  res_throw_if (negb (bool_decide (v_status v = Challenged))) VerdictNotChallenged ;;
  res_throw_if (bool_decide (appellate ∈ appeal_voters v)) DuplicateAppealVerdict ;;
  res_throw_if (bool_decide (appellate ∈ voters v)) AppellateVotedOnVerdict ;;
  res_throw_if (MAX_APPEAL_VOTERS <=? length (appeal_voters v))%nat AppealVotersFull ;;
  o ← (if overturn then uadd u16_max (overturn_count v) 1 else Ok (overturn_count v));
  u ← (if overturn then Ok (uphold_count v) else uadd u16_max (uphold_count v) 1);
  Ok (mkVerdict (v_bump v) (v_run v) (v_target v) (v_epoch v) (v_round_height v) (v_status v)
        (verdict_count v) (v_evidence v) (pending_since_unix v) (challenged_since_unix v)
        (challenger v) o u (settled_count v) (voters v) (appeal_voters v ++ [appellate])).

Definition appeal_quorum (tie_breaker_nodes : Z) : res TreasurerError Z :=
  d ← umul u64_max 2 tie_breaker_nodes;
  Ok (Z.max (div_ceil d 3) 1).

Definition run_submit_appeal_verdict (appellate instance_key account_key : Pubkey)
    (target : Pubkey) (index : Z) (overturn : bool) : TM unit :=
  coordinator_accounts_are instance_key account_key ;;
  w ← self;
  v0 ← existing (w_verdicts w !! target);
  bond_at_least_minimum appellate ;;
  selection ← seat appellate TieBreaker NotTieBreaker;
  target_at index target ;;
  quorum ← lift (appeal_quorum (tie_breaker_nodes selection));
  throw_if (negb (bool_decide (v_target v0 = target))) TargetMismatch ;;
  v ← lift (cast_appeal appellate overturn v0);
  if quorum <=? overturn_count v then modify (set_verdict target (set_status Overturned v))
  else if quorum <=? uphold_count v then
    modify (set_verdict target (set_status Upheld v)) ;;
    slash index
  else modify (set_verdict target v).

(** When a pending or challenged verdict may be carried out. *)
Definition may_finalize (clock : Clock) (r : Run) (v : AuditVerdict) : res TreasurerError unit :=
  match v_status v with
  | SlashPending =>
      d ← iadd64 (pending_since_unix v) (r_challenge_window_seconds r);
      res_throw_if (unix_timestamp clock <? d) ChallengeWindowOpen
  | Challenged =>
      if r_appeal_window_seconds r =? 0 then Err AppealWindowOpen
      else
        d ← iadd64 (challenged_since_unix v) (r_appeal_window_seconds r);
        res_throw_if (unix_timestamp clock <? d) AppealWindowOpen
  | _ => Err VerdictNotPending
  end.

Definition run_finalize_slash (clock : Clock) (instance_key account_key : Pubkey)
    (target : Pubkey) (index : Z) : TM unit :=
  coordinator_accounts_are instance_key account_key ;;
  w ← self;
  v ← existing (w_verdicts w !! target);
  lift (may_finalize clock (w_run w) v) ;;
  modify (set_verdict target (set_status Upheld v)) ;;
  target_at index (v_target v) ;;
  slash index.

Definition run_slash_losing_verifier (instance_key account_key : Pubkey) (target : Pubkey)
    (voter_position : Z) : TM unit :=
  coordinator_accounts_are instance_key account_key ;;
  w ← self;
  v ← existing (w_verdicts w !! target);
  throw_if (negb (bool_decide (v_status v = Overturned))) VerdictNotOverturned ;;
  throw_if (zlen (voters v) <=? settled_count v) AllLosersSettled ;;
  throw_if (negb (voter_position =? settled_count v)) InvalidParameter ;;
  loser ← lift (unwrap (znth (voters v) (settled_count v)));
  index ← lift (ok_or (client_position loser w) LoserNotSlashableYet);
  client ← lift (unwrap (epoch_clients w !! index));
  throw_if (negb (bool_decide (state client = Healthy) || bool_decide (state client = Dropped)))
    LoserNotSlashableYet ;;
  n ← lift (uadd u16_max (settled_count v) 1);
  modify (set_verdict target (set_settled_count n v)) ;;
  slash (Z.of_nat index).

End Authority.
