(* ===== verification/TreasurerInv.v ===== *)
(** * The treasurer's invariant

    The transactions a run can receive, the invariant of its accounts, and its
    preservation: bonds, claims and slashes are accounted for to the unit, and the
    vault covers the bonds up to what has been claimed. *)

From stdpp Require Import base tactics list numbers strings gmap.
From S2P Require Import Prelude CoreTypes Hashing CoordinatorState Committee Coordinator.
From S2P Require Import CoordinatorInv CoordinatorProps CoordinatorThms Frames.
From S2P Require Import Authorizer SolanaCoordinator SolanaProps SolanaThms Tokens Treasurer.

Open Scope Z_scope.

(** ** What the coordinator credits and charges only grows *)

Definition ledger (k : Pubkey) (s : InstanceState) : option SolClient :=
  snd <$> list_find (λ m, signer (sc_id m) = k) (members (clients_state s)).

Definition rates_ok (s : InstanceState) : Prop :=
  let ok r := 0 <= earning_rate_total_shared r ∧ 0 <= slashing_rate_per_client r in
  ok (current_epoch_rates (clients_state s)) ∧ ok (future_epoch_rates (clients_state s)).

(** Every key's credits and charges are at least what they were. *)
Definition grows_to (s s' : InstanceState) : Prop :=
  ∀ k, from_option earned 0 (ledger k s) <= from_option earned 0 (ledger k s') ∧
       from_option slashed 0 (ledger k s) <= from_option slashed 0 (ledger k s').

Definition grows (s s' : InstanceState) : Prop :=
  rates_ok s → rates_ok s' ∧ grows_to s s'.

#[export] Instance grows_preorder : PreOrder grows.
Proof.
  split; [intros s Hs; split; [done|]; intros k; lia|].
  intros a b c Hab Hbc Ha. destruct (Hab Ha) as [Hb G1]. destruct (Hbc Hb) as [Hc G2].
  split; [done|]. intros k. specialize (G1 k). specialize (G2 k). lia.
Qed.

Lemma grows_frame s s' : members (clients_state s') = members (clients_state s) →
  (rates_ok s → rates_ok s') → grows s s'.
Proof.
  intros Hm Hr Hs. split; [auto|]. intros k. unfold ledger. rewrite Hm. lia.
Qed.

(** Looking a key up after a change that keeps the signers. *)
Lemma list_find_fmap_signer k (f : SolClient → SolClient) ms :
  (∀ m, sc_id (f m) = sc_id m) →
  snd <$> list_find (λ m, signer (sc_id m) = k) (f <$> ms) =
  f <$> (snd <$> list_find (λ m, signer (sc_id m) = k) ms).
Proof.
  intros Hf. induction ms as [|m ms IH]; [done|]. rewrite fmap_cons. cbn [list_find].
  destruct (decide (signer (sc_id m) = k)) as [Hk|Hk].
  - rewrite decide_True by (rewrite Hf; done). done.
  - rewrite decide_False by (rewrite Hf; done).
    destruct (list_find _ (f <$> ms)) as [[]|], (list_find _ ms) as [[]|]; simpl in *; congruence.
Qed.

Lemma list_find_app_signer k ms m :
  snd <$> list_find (λ m, signer (sc_id m) = k) (ms ++ [m]) =
  match snd <$> list_find (λ m, signer (sc_id m) = k) ms with
  | Some x => Some x
  | None => if decide (signer (sc_id m) = k) then Some m else None
  end.
Proof.
  induction ms as [|x ms IH]; cbn [list_find app].
  { by destruct (decide (signer (sc_id m) = k)). }
  destruct (decide (signer (sc_id x) = k)); [done|].
  destruct (list_find _ (ms ++ [m])) as [[]|], (list_find _ ms) as [[]|]; simpl in *; congruence.
Qed.

(** Re-joining changes neither the signer nor the record. *)
Lemma list_find_alter_signer k (f : SolClient → SolClient) j ms m :
  ms !! j = Some m → signer (sc_id (f m)) = signer (sc_id m) →
  earned (f m) = earned m → slashed (f m) = slashed m →
  let find l := snd <$> list_find (λ m, signer (sc_id m) = k) l in
  from_option earned 0 (find (alter f j ms)) = from_option earned 0 (find ms) ∧
  from_option slashed 0 (find (alter f j ms)) = from_option slashed 0 (find ms).
Proof.
  intros Hj Hs He Hl. revert j Hj. induction ms as [|x ms IH]; intros j Hj; [done|].
  destruct j as [|j]; cbn [alter list_alter list_find] in *.
  - injection Hj as ->. destruct (decide (signer (sc_id m) = k)) as [Hk|Hk].
    + rewrite decide_True by congruence. simpl. auto.
    + rewrite decide_False by congruence. done.
  - specialize (IH j Hj). simpl in IH. destruct (decide (signer (sc_id x) = k)); [done|].
    revert IH. fold (alter f j ms).
    destruct (list_find _ (alter f j ms)) as [[]|], (list_find _ ms) as [[]|]; done.
Qed.

(** Rates an instruction sets are unsigned. *)
Definition ix_typed (i : instruction) : Prop :=
  match i with
  | ISetFutureEpochRates e r => 0 <= default 0 e ∧ 0 <= default 0 r
  | _ => True
  end.

Section Grow.
Context {H : HashFns}.

Lemma grows_coord {A} (m : CM A) : respects grows (coord m).
Proof.
  intros s a s' Hrun. unfold coord in Hrun. apply zoom_Ok in Hrun as (c & Hc & ->).
  by apply grows_frame; [|exact (λ h, h)].
Qed.

Lemma grows_settle : respects grows settle_epoch.
Proof.
  intros s u s' Hrun Hr. assert (Hm := Hrun). apply settle_epoch_Ok in Hm as [_ Hm].
  assert (Hc : current_epoch_rates (clients_state s') = current_epoch_rates (clients_state s) ∧
               future_epoch_rates (clients_state s') = future_epoch_rates (clients_state s)).
  { unfold settle_epoch in Hrun. run_inv. done. }
  split; [unfold rates_ok; destruct Hc as [-> ->]; exact Hr|].
  intros k. unfold ledger. rewrite Hm. cbn [members_after].
  rewrite list_find_fmap_signer by done. destruct Hr as [[H1 H2] _].
  assert (0 <= share_of (coordinator s) (current_epoch_rates (clients_state s))).
  { unfold share_of, zlen. destruct (clients (epoch_state (coordinator s))); [by rewrite Zdiv_0_r|].
    apply Z.div_pos; [done|]. simpl. lia. }
  destruct (snd <$> list_find _ _) as [m|]; simpl; [|lia]. repeat case_decide; lia.
Qed.
#[local] Hint Resolve grows_coord grows_settle : frames.

(** Writes that keep the members and the rates. *)
Ltac grow := frame_step; apply respects_modify; intros ?; apply grows_frame; try done; try exact (λ h, h).

Lemma grows_bump : respects grows bump_next_active.
Proof. unfold bump_next_active. grow. Qed.
#[local] Hint Resolve grows_bump : frames.

Lemma grows_tick clock : respects grows (inst_tick clock).
Proof.
  unfold inst_tick. grow. by intros [_ Hf].
Qed.
#[local] Hint Resolve grows_tick : frames.

Lemma grows_join clock i : respects grows (inst_join_run clock i).
Proof.
  intros s u s' Hrun. unfold inst_join_run in Hrun. rewrite bind_self in Hrun. cbn zeta in Hrun.
  apply M_bind_Ok in Hrun as ([] & s1 & H1 & Hrun).
  assert (G2 : grows s1 s').
  { destruct (negb _); [by eapply grows_tick|by apply mret_Ok in Hrun as [_ ->]]. }
  etrans; [|exact G2]. clear Hrun G2. intros Hr.
  destruct (member_index i (members (clients_state s))) as [j|] eqn:Hj.
  - apply modify_Ok in H1 as ->. split; [exact Hr|]. intros k.
    destruct (member_index_Some _ _ _ Hj) as (m & Hm & Hsig). unfold ledger. simpl.
    destruct (list_find_alter_signer k (λ x, set_active_epoch (next_active (clients_state s))
      (set_sc_id i x)) j _ m Hm) as [-> ->]; [exact (eq_sym Hsig)|done..|lia].
  - run_inv. split; [exact Hr|]. intros k. unfold ledger. simpl. rewrite list_find_app_signer.
    destruct (snd <$> list_find _ _); [lia|]. case_decide; simpl; lia.
Qed.

Lemma grows_body user clock i : ix_typed i → respects grows (body user clock i).
Proof.
  intros Ht. destruct i; cbn [body ix_typed] in *.
  - unfold inst_update. grow.
  - grow.
  - unfold inst_set_future_epoch_rates. grow. intros [Hc [Hf1 Hf2]]. split; [exact Hc|].
    simpl. destruct earning, slashing; simpl in *; lia.
  - apply grows_join.
  - unfold inst_set_paused. grow.
  - apply grows_tick.
  - unfold inst_witness. frame_step.
  - unfold inst_warmup_witness. frame_step.
  - unfold inst_health_check. frame_step.
  - unfold inst_checkpoint. frame_step.
  - unfold inst_slash. frame_step.
Qed.

(** A transaction on the coordinator account, successful or not. *)
Lemma execute_grows inst key user clock i a u a' : ix_typed i →
  execute inst key user clock i a = (Ok u, a') → grows (acc_state a) (acc_state a').
Proof. intros Ht (Hm & _)%execute_body. by eapply grows_body. Qed.

End Grow.

(** ** Transactions *)

Inductive tcall :=
| TSetSlashBounty (authority : Pubkey) (bps : Z)
| TBondConfigUpdate (authority : Pubkey) (minimum delay : Z)
| TSetChallengeConfig (authority : Pubkey) (window size appeal : Z)
| TParticipantCreate (user : Pubkey) (bump : Z)
| TBondDeposit (user collateral : Pubkey) (amount : Z)
| TBondRequestWithdraw (clock : Clock) (user : Pubkey) (amount : Z)
| TBondFinalizeWithdraw (clock : Clock) (user collateral coordinator_key : Pubkey)
    (appeal : option Pubkey) (remaining : list Pubkey)
| TClaim (user collateral coordinator_key : Pubkey) (points : Z)
| TAuthorizeJoin (clock : Clock) (user : Pubkey) (bump : Z)
| TRunUpdate (clock : Clock) (authority ik ak : Pubkey) (md : option RunMetadata)
    (cfg : option CoordinatorConfig) (mdl : option Model) (prog : option CoordinatorProgress)
    (earning slashing : option Z) (paused : option bool) (version : option (list Z))
| TRunSlash (authority ik ak : Pubkey) (index : Z)
| TSubmitAuditVerdict (clock : Clock) (verifier ik ak : Pubkey) (bump : Z) (target : Pubkey)
    (ev : Evidence)
| TOpenChallenge (clock : Clock) (who : Pubkey)
| TSubmitAppealVerdict (appellate ik ak target : Pubkey) (index : Z) (overturn : bool)
| TFinalizeSlash (clock : Clock) (ik ak target : Pubkey) (index : Z)
| TSlashLosingVerifier (ik ak target : Pubkey) (position : Z)
| TCoordinator (user : Pubkey) (clock : Clock) (i : instruction).

Section Calls.
Context {H : HashFns} {T : TokenProgram}.

Definition run_tcall (c : tcall) : TM unit :=
  match c with
  | TSetSlashBounty au bps => run_set_slash_bounty au bps
  | TBondConfigUpdate au mn d => run_bond_config_update au mn d
  | TSetChallengeConfig au wd sz ap => run_set_challenge_config au wd sz ap
  | TParticipantCreate u b => participant_create u b
  | TBondDeposit u c n => participant_bond_deposit u c n
  | TBondRequestWithdraw cl u n => participant_bond_request_withdraw cl u n
  | TBondFinalizeWithdraw cl u c ck ap rm => participant_bond_finalize_withdraw cl u c ck ap rm
  | TClaim u c ck n => participant_claim u c ck n
  | TAuthorizeJoin cl u b => participant_authorize_join cl u b
  | TRunUpdate cl au ik ak md cfg mdl prog e s p v =>
      run_update cl au ik ak md cfg mdl prog e s p v
  | TRunSlash au ik ak x => run_slash au ik ak x
  | TSubmitAuditVerdict cl vf ik ak b t ev => run_submit_audit_verdict cl vf ik ak b t ev
  | TOpenChallenge cl who => run_open_challenge cl who
  | TSubmitAppealVerdict a ik ak t x o => run_submit_appeal_verdict a ik ak t x o
  | TFinalizeSlash cl ik ak t x => run_finalize_slash cl ik ak t x
  | TSlashLosingVerifier ik ak t n => run_slash_losing_verifier ik ak t n
  | TCoordinator user clock i =>
      w ← self;
      cpi (execute (w_instance w) (r_coordinator_account (w_run w)) user clock i)
  end.

(** Amounts are unsigned.  The run's address is program-derived, so it has no key and
    signs no transaction. *)
Definition call_typed (c : tcall) : Prop :=
  match c with
  | TSetSlashBounty _ n | TBondDeposit _ _ n | TBondRequestWithdraw _ _ n | TClaim _ _ _ n => 0 <= n
  | TRunUpdate _ _ _ _ _ _ _ _ e s _ _ => 0 <= default 0 e ∧ 0 <= default 0 s
  | TCoordinator _ _ i => ix_typed i
  | _ => True
  end.
Definition call_user (c : tcall) : option Pubkey :=
  match c with
  | TBondDeposit u _ _ | TBondFinalizeWithdraw _ u _ _ _ _ | TClaim u _ _ _
  | TCoordinator u _ _ => Some u
  | _ => None
  end.

(** Histories: transactions of the treasurer and of the coordinator, and whatever
    others do with their own tokens, which can only add to the vault. *)
Inductive world_reachable (w0 : World) : World → Prop :=
| wr_refl : world_reachable w0 w0
| wr_call w c : world_reachable w0 w → call_typed c → call_user c ≠ Some (w_run_key w) →
    world_reachable w0 (transact (run_tcall c) w)
| wr_tokens w ts t t' : world_reachable w0 w →
    w_tokens w !! w_vault w = Some t → ts !! w_vault w = Some t' →
    ta_owner t' = ta_owner t → ta_amount t <= ta_amount t' →
    world_reachable w0 (set_tokens ts w).

End Calls.

(** ** The invariant *)

Definition participant_ok (w : World) (k : Pubkey) (p : Participant) : Prop :=
  0 <= bond_withdraw_pending_amount p <= bond_amount p ∧
  0 <= claimed_earned_points p <= earned_of k w ∧
  claimed_collateral_amount p = claimed_earned_points p ∧
  0 <= bond_settled_slashed_points p <= slashed_of k w.

Definition vault_covers (w : World) : Prop :=
  ∃ t, w_tokens w !! w_vault w = Some t ∧ ta_owner t = w_run_key w ∧
    r_total_bonded_amount (w_run w) <=
      ta_amount t + r_total_claimed_collateral_amount (w_run w).

Definition books (w : World) : Prop :=
  r_total_bonded_amount (w_run w) = msum bond_amount (w_participants w) ∧
  r_total_claimed_collateral_amount (w_run w) = msum claimed_collateral_amount (w_participants w) ∧
  r_total_claimed_earned_points (w_run w) = msum claimed_earned_points (w_participants w).

Definition world_wf (w : World) : Prop :=
  vault_covers w ∧ books w ∧
  (∀ k p, w_participants w !! k = Some p → participant_ok w k p) ∧
  0 <= r_slash_bounty_bps (w_run w) <= 10000 ∧ rates_ok (acc_state (w_coordinator w)) ∧
  ∀ k, 0 <= earned_of k w ∧ 0 <= slashed_of k w.

Notation sound := (respects (E:=TreasurerError) (kept world_wf)).

(** What the invariant reads of the world. *)
Lemma world_wf_frame w w' : world_wf w → w_run_key w' = w_run_key w → w_vault w' = w_vault w →
  w_tokens w' = w_tokens w → w_participants w' = w_participants w →
  w_coordinator w' = w_coordinator w →
  r_total_bonded_amount (w_run w') = r_total_bonded_amount (w_run w) →
  r_total_claimed_collateral_amount (w_run w') = r_total_claimed_collateral_amount (w_run w) →
  r_total_claimed_earned_points (w_run w') = r_total_claimed_earned_points (w_run w) →
  0 <= r_slash_bounty_bps (w_run w') <= 10000 → world_wf w'.
Proof.
  intros (Hv & Hb & Hp & _ & Hr) E1 E2 E3 E4 E5 E6 E7 E8 Hbps.
  unfold world_wf, vault_covers, books, participant_ok, earned_of, slashed_of, member_of in *.
  rewrite E1, E2, E3, E4, E5, E6, E7, E8. auto.
Qed.

(** Changing one participant, the run's totals and the balances. *)
Lemma world_wf_update w k p q r' ts' : world_wf w → w_participants w !! k = Some p →
  participant_ok w k q →
  r_total_bonded_amount r' = r_total_bonded_amount (w_run w) - bond_amount p + bond_amount q →
  r_total_claimed_collateral_amount r' = r_total_claimed_collateral_amount (w_run w)
    - claimed_collateral_amount p + claimed_collateral_amount q →
  r_total_claimed_earned_points r' = r_total_claimed_earned_points (w_run w)
    - claimed_earned_points p + claimed_earned_points q →
  r_slash_bounty_bps r' = r_slash_bounty_bps (w_run w) →
  vault_covers (set_tokens ts' (set_run r' w)) →
  world_wf (set_tokens ts' (set_run r' (set_participant k q w))).
Proof.
  intros (_ & (B1 & B2 & B3) & Hp & Hbps & Hr & Hn) Hk Hq E1 E2 E3 E4 Hv.
  split; [exact Hv|]. split_and!; try done.
  - unfold books. simpl. rewrite !(msum_update (K:=list Z) _ _ _ _ _ Hk). lia.
  - intros k' p'. simpl. destruct (decide (k' = k)) as [->|Hne].
    + rewrite lookup_insert_eq. by intros [= <-].
    + rewrite lookup_insert_ne by done. apply Hp.
  - simpl. lia.
  - simpl. lia.
Qed.

Section Tokens.
Context {T : TokenProgram} `{!TokenLaws T}.

Lemma transfer_Ok from to au n w u w' : transfer from to au n w = (Ok u, w') →
  ∃ ts, token_transfer from to au n (w_tokens w) = Some ts ∧ w' = set_tokens ts w.
Proof. unfold transfer. intros Hrun. run_inv. eauto. Qed.

(** The guards. *)
Lemma user_token_Ok user key w u w' : user_token user key w = (Ok u, w') →
  w' = w ∧ ∃ t, w_tokens w !! key = Some t ∧ ta_owner t = user ∧
    ta_mint t = r_collateral_mint (w_run w).
Proof. unfold user_token, existing. intros Hrun. run_inv. bool_prop. eauto. Qed.

Lemma user_token_not_vault user key w w' u : world_wf w → user ≠ w_run_key w →
  user_token user key w = (Ok u, w') → w' = w ∧ key ≠ w_vault w.
Proof.
  intros ((t & Ht & Ho & _) & _) Hne [-> (t' & Ht' & Ho' & _)]%user_token_Ok.
  split; [done|]. intros ->. congruence.
Qed.

Lemma coordinator_account_is_Ok k w u w' : coordinator_account_is k w = (Ok u, w') →
  w' = w ∧ r_coordinator_account (w_run w) = k.
Proof. unfold coordinator_account_is. intros Hrun. run_inv. by bool_prop. Qed.
Lemma coordinator_accounts_are_Ok i k w u w' : coordinator_accounts_are i k w = (Ok u, w') →
  w' = w ∧ r_coordinator_instance (w_run w) = i ∧ r_coordinator_account (w_run w) = k.
Proof.
  unfold coordinator_accounts_are, coordinator_account_is. intros Hrun. run_inv. by bool_prop.
Qed.
Lemma coordinator_version_Ok w u w' : coordinator_version w = (Ok u, w') →
  w' = w ∧ acc_version (w_coordinator w) = VERSION.
Proof. unfold coordinator_version. intros Hrun. run_inv. by bool_prop. Qed.
Lemma main_authority_is_Ok a w u w' : main_authority_is a w = (Ok u, w') →
  w' = w ∧ r_main_authority (w_run w) = a.
Proof. unfold main_authority_is. intros Hrun. run_inv. by bool_prop. Qed.
Lemma existing_Ok {A} (o : option A) w a w' : existing o w = (Ok a, w') → w' = w ∧ o = Some a.
Proof. unfold existing. intros Hrun. run_inv. done. Qed.

Lemma bond_at_least_Ok user w u w' : bond_at_least_minimum user w = (Ok u, w') →
  w' = w ∧ ∃ p, w_participants w !! user = Some p ∧
    r_bond_minimum_amount (w_run w) <= bond_amount p.
Proof. unfold bond_at_least_minimum, existing. intros Hrun. run_inv. bool_prop. eauto. Qed.

End Tokens.

Section Sound.
Context {H : HashFns} {T : TokenProgram} `{!TokenLaws T}.

Lemma sound_cpi (m : XM unit) :
  (∀ a u a', m a = (Ok u, a') → grows (acc_state a) (acc_state a')) → sound (cpi m).
Proof.
  intros Hm w u w' Hrun (Hv & Hb & Hp & Hbps & Hr & Hn). unfold cpi in Hrun.
  apply zoom_Ok in Hrun as (a & Ha & ->). destruct (Hm _ _ _ Ha Hr) as [Hr' Hg].
  assert (Hge : ∀ k, earned_of k w <= earned_of k (set_coordinator_account a w) ∧
                     slashed_of k w <= slashed_of k (set_coordinator_account a w)).
  { intros k. apply (Hg k). }
  split_and!; try done.
  - intros k p Hk. destruct (Hp k p Hk) as (P1 & P2 & P3 & P4). specialize (Hge k).
    split_and!; try done; lia.
  - apply Hbps.
  - apply Hbps.
  - intros k. specialize (Hge k). specialize (Hn k). lia.
Qed.

Lemma sound_execute inst key user clock i : ix_typed i →
  sound (cpi (execute inst key user clock i)).
Proof. intros Ht. apply sound_cpi. intros a u a'. by apply execute_grows. Qed.

Lemma sound_slash index : sound (slash index).
Proof.
  unfold slash. frame_step.
  match goal with w : World |- _ =>
    apply (sound_execute (w_instance w) (r_coordinator_account (w_run w)) (w_run_key w)
             (mkClock 0 0) (ISlashClient index)) end. done.
Qed.

Lemma sound_frame f : (∀ w, 0 <= r_slash_bounty_bps (w_run w) <= 10000 →
    w_run_key (f w) = w_run_key w ∧ w_vault (f w) = w_vault w ∧ w_tokens (f w) = w_tokens w ∧
    w_participants (f w) = w_participants w ∧ w_coordinator (f w) = w_coordinator w ∧
    r_total_bonded_amount (w_run (f w)) = r_total_bonded_amount (w_run w) ∧
    r_total_claimed_collateral_amount (w_run (f w)) = r_total_claimed_collateral_amount (w_run w) ∧
    r_total_claimed_earned_points (w_run (f w)) = r_total_claimed_earned_points (w_run w) ∧
    0 <= r_slash_bounty_bps (w_run (f w)) <= 10000) →
  sound (modify f).
Proof.
  intros Hf. apply respects_modify. intros w Hw. assert (Hwf := Hw).
  destruct Hw as (_ & _ & _ & Hbps & _).
  destruct (Hf w Hbps) as (? & ? & ? & ? & ? & ? & ? & ? & ?). by eapply world_wf_frame.
Qed.
#[local] Hint Resolve sound_slash : frames.

(** Methods whose own writes the invariant does not read. *)
Ltac sound_step :=
  repeat first
    [ progress frame_step
    | apply sound_frame; intros ? ?; simpl; split_and!; (done || lia) ].

Lemma sound_slash_bounty au bps : 0 <= bps → sound (run_set_slash_bounty au bps).
Proof.
  intros Hb w u w' Hrun Hw. unfold run_set_slash_bounty, main_authority_is in Hrun. run_inv.
  bool_prop. eapply world_wf_frame; [exact Hw|done..|]. simpl. lia.
Qed.

Lemma sound_bond_config au mn d : sound (run_bond_config_update au mn d).
Proof. unfold run_bond_config_update, main_authority_is. sound_step. Qed.
Lemma sound_challenge_config au wd sz ap : sound (run_set_challenge_config au wd sz ap).
Proof. unfold run_set_challenge_config, main_authority_is. sound_step. Qed.

Lemma sound_authorize_join clock u b : sound (participant_authorize_join clock u b).
Proof. unfold participant_authorize_join, bond_at_least_minimum, existing. sound_step. Qed.

Lemma sound_run_slash au ik ak x : sound (run_slash au ik ak x).
Proof.
  unfold run_slash, main_authority_is, coordinator_accounts_are, coordinator_account_is.
  sound_step.
Qed.

Lemma sound_submit cl vf ik ak b t ev : sound (run_submit_audit_verdict cl vf ik ak b t ev).
Proof.
  unfold run_submit_audit_verdict, coordinator_accounts_are, coordinator_account_is,
    bond_at_least_minimum, existing, seat, target_at. sound_step.
Qed.
Lemma sound_open_challenge cl who : sound (run_open_challenge cl who).
Proof. unfold run_open_challenge, bond_at_least_minimum, existing. sound_step. Qed.
Lemma sound_appeal a ik ak t x o : sound (run_submit_appeal_verdict a ik ak t x o).
Proof.
  unfold run_submit_appeal_verdict, coordinator_accounts_are, coordinator_account_is,
    bond_at_least_minimum, existing, seat, target_at. sound_step.
Qed.
Lemma sound_finalize_slash cl ik ak t x : sound (run_finalize_slash cl ik ak t x).
Proof.
  unfold run_finalize_slash, coordinator_accounts_are, coordinator_account_is, existing, target_at.
  sound_step.
Qed.
Lemma sound_losing ik ak t n : sound (run_slash_losing_verifier ik ak t n).
Proof.
  unfold run_slash_losing_verifier, coordinator_accounts_are, coordinator_account_is, existing.
  sound_step.
Qed.

Lemma sound_run_update cl au ik ak md cfg mdl prog e s p v :
  0 <= default 0 e ∧ 0 <= default 0 s →
  sound (run_update cl au ik ak md cfg mdl prog e s p v).
Proof.
  intros Ht. unfold run_update, main_authority_is, coordinator_accounts_are, coordinator_account_is.
  frame_step.
  - apply (sound_execute _ _ _ cl (IUpdate md cfg mdl prog)). done.
  - apply (sound_execute _ _ _ cl (ISetFutureEpochRates e s)). exact Ht.
  - apply (sound_execute _ _ _ cl (ISetPaused _)). done.
  - apply (sound_execute _ _ _ cl (IUpdateClientVersion _)). done.
Qed.

Lemma sound_participant_create u b : sound (participant_create u b).
Proof.
  intros w x w' Hrun (Hv & (B1 & B2 & B3) & Hp & Hbps & Hr & Hn).
  unfold participant_create in Hrun. run_inv. bool_prop.
  match goal with Hs : ¬ is_Some _ |- _ => apply eq_None_not_Some in Hs; rename Hs into Hnew end.
  split; [exact Hv|]. split_and!; try done.
  - unfold books. simpl. rewrite !msum_insert by done. simpl. lia.
  - intros k p. simpl. destruct (decide (k = u)) as [->|Hne].
    + rewrite lookup_insert_eq. intros [= <-]. specialize (Hn u).
      unfold participant_ok. simpl. split_and!; try done; apply Hn.
    + rewrite lookup_insert_ne by done. apply Hp.
Qed.

Lemma sound_request clock u n : 0 <= n → sound (participant_bond_request_withdraw clock u n).
Proof.
  intros Hn w x w' Hrun Hw. unfold participant_bond_request_withdraw, existing in Hrun.
  rewrite bind_self in Hrun. apply M_bind_Ok in Hrun as (p & ? & [Hp ->]%lift_Ok & Hrun).
  apply ok_or_Ok in Hp. run_inv. bool_prop.
  assert (Hok := Hw). destruct Hok as (Hv & _ & Hpo & _). destruct (Hpo u p Hp) as (P1 & P2 & P3 & P4).
  refine (world_wf_update w u p _ (w_run w) (w_tokens w) Hw Hp _ _ _ _ _ _); simpl; try lia.
  - unfold participant_ok. simpl. split_and!; try done; lia.
  - exact Hv.
Qed.

(** Payments from the vault: who gets how much. *)
Definition total (l : list (Pubkey * Z)) : Z := foldr (λ x n, x.2 + n) 0 l.
Definition received (k : Pubkey) (l : list (Pubkey * Z)) : Z := total (filter (λ x, x.1 = k) l).

Lemma total_app l1 l2 : total (l1 ++ l2) = total l1 + total l2.
Proof. induction l1 as [|x l1 IH]; simpl; lia. Qed.
Lemma received_app k l1 l2 : received k (l1 ++ l2) = received k l1 + received k l2.
Proof. unfold received. by rewrite filter_app, total_app. Qed.
Lemma received_nonneg k l : Forall (λ x, 0 <= x.2) l → 0 <= received k l.
Proof.
  unfold received. induction 1 as [|x l Hx _ IH]; [done|]. rewrite filter_cons. case_decide; simpl; lia.
Qed.

(** Only balances changed, exactly by the payments [l]. *)
Definition payments (l : list (Pubkey * Z)) (w w' : World) : Prop :=
  ∃ ts, w' = set_tokens ts w ∧ ∀ k t, w_tokens w !! k = Some t →
    ∃ t', ts !! k = Some t' ∧ ta_owner t' = ta_owner t ∧
      ta_amount t' = ta_amount t + received k l - (if decide (k = w_vault w) then total l else 0).

Lemma payments_none l w : Forall (λ x, x.2 = 0) l → payments l w w.
Proof.
  intros Hl. assert (Hz : total l = 0) by (by induction Hl; simpl; [|lia]).
  assert (Hr : ∀ k, received k l = 0).
  { intros k. unfold received. induction Hl; [done|]. rewrite filter_cons. simpl in Hz. case_decide; simpl; [rewrite IHHl|apply IHHl]; lia. }
  exists (w_tokens w). split; [by destruct w|]. intros k t Ht. exists t. rewrite Hr, Hz. split_and!; [done..|case_decide; lia].
Qed.

Lemma payments_trans l1 l2 w1 w2 w3 : payments l1 w1 w2 → payments l2 w2 w3 → payments (l1 ++ l2) w1 w3.
Proof.
  intros (ts2 & -> & P2) (ts3 & -> & P3). exists ts3. split; [done|]. intros k t Ht.
  destruct (P2 k t Ht) as (t2 & Ht2 & O2 & A2). destruct (P3 k t2 Ht2) as (t3 & Ht3 & O3 & A3).
  exists t3. rewrite received_app, total_app. simpl in *. split_and!; [done|congruence|case_decide; lia].
Qed.

Lemma transfer_payment to au n w u w' : 0 <= n → transfer (w_vault w) to au n w = (Ok u, w') →
  payments [(to, n)] w w'.
Proof.
  intros Hn (ts & Ht & ->)%transfer_Ok. exists ts. split; [done|]. intros k t Hk.
  apply transfer_moves in Ht as [_ ->]; [|done]. unfold received. rewrite filter_cons, filter_nil. simpl.
  destruct (decide (to = k)) as [->|Hto], (decide (k = w_vault w)) as [Hv|Hv];
    try rewrite Hv in *; rewrite ?lookup_alter_eq, ?lookup_alter_ne, ?lookup_alter_eq, Hk by done;
    simpl; eexists; (split; [done|]); (split; [done|]); simpl; lia.
Qed.

(** The vault gave up at most [n]. *)
Definition paid (n : Z) (w w' : World) : Prop :=
  ∃ ts, w' = set_tokens ts w ∧ ∀ t, w_tokens w !! w_vault w = Some t →
    ∃ t', ts !! w_vault w = Some t' ∧ ta_owner t' = ta_owner t ∧ ta_amount t - n <= ta_amount t'.

Lemma payments_paid l n w w' : Forall (λ x, 0 <= x.2) l → total l <= n → payments l w w' → paid n w w'.
Proof.
  intros Hl Hn (ts & -> & P). exists ts. split; [done|]. intros t Ht. destruct (P _ t Ht) as (t' & Ht' & Ho & Ha).
  exists t'. rewrite decide_True in Ha by done. pose proof (received_nonneg (w_vault w) l Hl). split_and!; [done..|lia].
Qed.

Lemma transfer_paid to au n w u w' : 0 <= n → transfer (w_vault w) to au n w = (Ok u, w') → paid n w w'.
Proof.
  intros Hn Ht%transfer_payment; [|done]. apply (payments_paid [(to, n)]); [by repeat constructor|simpl; lia|done].
Qed.

(** Bounties to the accounts passed, at most [b] in all. *)
Definition bounties_ok (rem : list Pubkey) (b : Z) (l : list (Pubkey * Z)) : Prop :=
  Forall (λ x, x.1 ∈ rem ∧ 0 <= x.2) l ∧ total l <= b.

Lemma pay_voters_payments share l w u w' : 0 <= share →
  forM_ l (λ '(voter, recipient), pay_voter share voter recipient) w = (Ok u, w') →
  payments ((λ x, (x.2, share)) <$> l) w w'.
Proof.
  intros Hs. revert w. induction l as [|[v r] l IH]; intros w Hrun; cbn [forM_] in Hrun.
  { apply mret_Ok in Hrun as [_ ->]. by apply payments_none. }
  apply M_bind_Ok in Hrun as (? & w1 & Hv & Hrun). apply IH in Hrun. rewrite fmap_cons.
  apply (payments_trans [_] _ w w1); [|done]. unfold pay_voter in Hv. rewrite bind_self in Hv.
  apply M_bind_Ok in Hv as (t & ? & [_ ->]%lift_Ok & Hv).
  apply M_bind_Ok in Hv as (? & ? & [_ ->]%throw_if_Ok & Hv). by eapply transfer_payment.
Qed.

Lemma total_shares {A} share (l : list (A * Pubkey)) : total ((λ x, (x.2, share)) <$> l) = share * zlen l.
Proof. unfold zlen. induction l as [|x l IH]; [simpl; lia|]. rewrite fmap_cons. cbn [total foldr length snd] in *. fold (total ((λ x, (x.2, share)) <$> l)). lia. Qed.

Lemma pay_bounty_payments user ap rem b w u w' : 0 <= b →
  pay_bounty user ap rem b w = (Ok u, w') → ∃ l, bounties_ok rem b l ∧ payments l w w'.
Proof.
  intros Hb Hrun. unfold pay_bounty in Hrun.
  apply M_bind_Ok in Hrun as (vs & ? & [_ ->]%asks_Ok & Hrun). case_bool_decide as Hvs.
  - unfold pay_reporter in Hrun. rewrite bind_self in Hrun.
    apply M_bind_Ok in Hrun as (r & ? & [Hr%ok_or_Ok ->]%lift_Ok & Hrun).
    apply M_bind_Ok in Hrun as (t & ? & [_ ->]%lift_Ok & Hrun).
    apply M_bind_Ok in Hrun as (? & ? & [_ ->]%throw_if_Ok & Hrun). exists [(r, b)].
    split; [|by eapply transfer_payment]. split; [|simpl; lia]. repeat constructor; [|done].
    destruct rem; [done|]. injection Hr as ->. apply list_elem_of_here.
  - apply M_bind_Ok in Hrun as (? & ? & [Hlen ->]%throw_if_Ok & Hrun). apply Nat.ltb_ge in Hlen.
    assert (0 < zlen vs) by (unfold zlen; destruct vs; [done|simpl; lia]).
    assert (0 <= b / zlen vs) by (apply Z.div_pos; lia).
    assert (zlen vs * (b / zlen vs) <= b) by (apply Z.mul_div_le; lia).
    cbn zeta in Hrun. destruct (negb _); cbn [whenM] in Hrun.
    + apply pay_voters_payments in Hrun; [|done]. eexists. split; [|exact Hrun]. split.
      * apply list.Forall_forall. intros [r n] ([v r'] & [= -> ->] & Hin)%list_elem_of_fmap.
        split; [by eapply elem_of_zip_r|done].
      * rewrite total_shares. assert (zlen (zip vs rem) = zlen vs) as -> by (unfold zlen; rewrite length_zip_with; lia). lia.
    + apply mret_Ok in Hrun as [_ ->]. exists []. split; [split; [constructor|simpl; lia]|by apply payments_none].
Qed.

Lemma sound_deposit u c n w x w' : 0 <= n → u ≠ w_run_key w → world_wf w →
  participant_bond_deposit u c n w = (Ok x, w') → world_wf w'.
Proof.
  intros Hn Hu Hw Hrun. unfold participant_bond_deposit in Hrun.
  apply M_bind_Ok in Hrun as (? & ? & Hg & Hrun).
  apply user_token_not_vault in Hg as [-> Hc]; [|done..]. rewrite bind_self in Hrun.
  apply M_bind_Ok in Hrun as (p & ? & [Hp ->]%lift_Ok & Hrun). apply ok_or_Ok in Hp.
  apply M_bind_Ok in Hrun as (? & ? & [_ ->]%throw_if_Ok & Hrun).
  apply M_bind_Ok in Hrun as (? & ? & (ts & Hts & ->)%transfer_Ok & Hrun). run_inv.
  assert (Hok := Hw). destruct Hok as ((t & Ht & Ho & Ha) & _ & Hpo & _).
  destruct (Hpo u p Hp) as (P1 & P2 & P3 & P4).
  refine (world_wf_update w u p _ (set_total_bonded _ (w_run w)) ts Hw Hp _ _ _ _ _ _); simpl; try lia.
  - unfold participant_ok. simpl. split_and!; try done; lia.
  - destruct (vault_credit _ _ _ _ _ _ _ Hn Hts Ht Hc) as (t' & Ht' & Ho' & Ha').
    exists t'. simpl. split_and!; [done|congruence|lia].
Qed.

Lemma sound_claim u c ck n : 0 <= n → sound (participant_claim u c ck n).
Proof.
  intros Hn w x w' Hrun Hw. unfold participant_claim in Hrun.
  apply M_bind_Ok in Hrun as (? & ? & [-> _]%user_token_Ok & Hrun).
  apply M_bind_Ok in Hrun as (? & ? & [-> _]%coordinator_account_is_Ok & Hrun).
  apply M_bind_Ok in Hrun as (? & ? & [-> _]%coordinator_version_Ok & Hrun). rewrite bind_self in Hrun.
  apply M_bind_Ok in Hrun as (p & ? & [-> Hp]%existing_Ok & Hrun).
  apply M_bind_Ok in Hrun as (? & ? & [_ ->]%throw_if_Ok & Hrun). cbn zeta in Hrun.
  apply M_bind_Ok in Hrun as (un & ? & [[-> Hun]%usub_Ok ->]%lift_Ok & Hrun).
  apply M_bind_Ok in Hrun as (? & ? & [Hcl ->]%throw_if_Ok & Hrun). apply Z.ltb_ge in Hcl.
  apply M_bind_Ok in Hrun as (? & ? & [[-> ?]%uadd_Ok ->]%lift_Ok & Hrun).
  apply M_bind_Ok in Hrun as (? & ? & [[-> ?]%uadd_Ok ->]%lift_Ok & Hrun).
  apply M_bind_Ok in Hrun as (? & ? & [[-> ?]%uadd_Ok ->]%lift_Ok & Hrun).
  apply M_bind_Ok in Hrun as (? & ? & [[-> ?]%uadd_Ok ->]%lift_Ok & Hrun).
  rewrite !bind_modify in Hrun. apply transfer_Ok in Hrun as (ts & Hts & ->).
  assert (Hok := Hw). destruct Hok as ((t & Ht & Ho & Ha) & _ & Hpo & _).
  destruct (Hpo u p Hp) as (P1 & P2 & P3 & P4).
  refine (world_wf_update w u p _ (set_total_claimed _ _ (w_run w)) ts Hw Hp _ _ _ _ _ _); simpl; try lia.
  - unfold participant_ok. simpl. split_and!; try done; lia.
  - destruct (vault_debit _ _ _ _ _ _ _ Hn Hts Ht) as (t' & Ht' & Ho' & _ & Ha' & _).
    exists t'. simpl. split_and!; [done|congruence|lia].
Qed.

(** What a withdrawal takes from the bond. *)
Definition forfeit_of (w : World) (u : Pubkey) (p : Participant) : Z :=
  Z.min (sat_sub (slashed_of u w) (bond_settled_slashed_points p)) (bond_amount p).
Definition payout_of (w : World) (u : Pubkey) (p : Participant) : Z :=
  Z.min (bond_withdraw_pending_amount p) (bond_amount p - forfeit_of w u p).
Definition bounty_of (w : World) (u : Pubkey) (p : Participant) : Z :=
  let bps := r_slash_bounty_bps (w_run w) in
  if 0 <? bps then as_u64 (forfeit_of w u p * bps / 10000) else 0.
Definition after_withdraw (w : World) (u : Pubkey) (p : Participant) : Participant :=
  mkParticipant (p_bump p) (claimed_collateral_amount p) (claimed_earned_points p)
    (bond_amount p - forfeit_of w u p - payout_of w u p) 0 0
    (bond_settled_slashed_points p + forfeit_of w u p) (bond_withdraw_delay_snapshot p).

Lemma finalize_withdraw_Ok clock u c ck ap rem w x w' :
  participant_bond_finalize_withdraw clock u c ck ap rem w = (Ok x, w') →
  ∃ p w1, w_participants w !! u = Some p ∧ bond_withdraw_pending_amount p ≠ 0 ∧
    bond_withdraw_requested_at p + bond_withdraw_delay_snapshot p <= unix_timestamp clock ∧
    whenM (0 <? bounty_of w u p) (pay_bounty u ap rem (bounty_of w u p))
      (set_run (set_total_bonded
         (r_total_bonded_amount (w_run w) - (forfeit_of w u p + payout_of w u p)) (w_run w))
         (set_participant u (after_withdraw w u p) w)) = (Ok tt, w1) ∧
    whenM (0 <? payout_of w u p) (transfer (w_vault w) c (w_run_key w) (payout_of w u p)) w1
      = (Ok x, w').
Proof.
  intros Hrun. unfold participant_bond_finalize_withdraw in Hrun.
  apply M_bind_Ok in Hrun as (? & ? & [-> _]%user_token_Ok & Hrun).
  apply M_bind_Ok in Hrun as (? & ? & [-> _]%coordinator_account_is_Ok & Hrun).
  apply M_bind_Ok in Hrun as (? & ? & [-> _]%coordinator_version_Ok & Hrun). rewrite bind_self in Hrun.
  apply M_bind_Ok in Hrun as (p & ? & [-> Hp]%existing_Ok & Hrun).
  apply M_bind_Ok in Hrun as (? & w0 & Hap & Hrun).
  assert (w0 = w) as ->.
  { destruct (bool_decide (is_Some ap)); cbn [whenM] in Hap; [|by apply mret_Ok in Hap as [_ ->]].
    apply M_bind_Ok in Hap as (? & ? & [-> _]%existing_Ok & Hap). by apply mret_Ok in Hap as [_ ->]. }
  clear Hap. cbn zeta in Hrun.
  apply M_bind_Ok in Hrun as (? & ? & [Hz ->]%throw_if_Ok & Hrun). apply Z.eqb_neq in Hz.
  apply M_bind_Ok in Hrun as (un & ? & [[-> _]%iadd64_Ok ->]%lift_Ok & Hrun).
  apply M_bind_Ok in Hrun as (? & ? & [Ht ->]%throw_if_Ok & Hrun). apply Z.ltb_ge in Ht.
  fold (forfeit_of w u p) in Hrun.
  apply M_bind_Ok in Hrun as (? & ? & [[-> _]%uadd_Ok ->]%lift_Ok & Hrun).
  apply M_bind_Ok in Hrun as (? & ? & [[-> _]%usub_Ok ->]%lift_Ok & Hrun).
  fold (payout_of w u p) in Hrun.
  apply M_bind_Ok in Hrun as (? & ? & [[-> _]%usub_Ok ->]%lift_Ok & Hrun).
  apply M_bind_Ok in Hrun as (? & ? & [[-> _]%uadd_Ok ->]%lift_Ok & Hrun).
  apply M_bind_Ok in Hrun as (? & ? & [[-> _]%usub_Ok ->]%lift_Ok & Hrun).
  rewrite !bind_modify in Hrun. fold (after_withdraw w u p) (bounty_of w u p) in Hrun.
  apply M_bind_Ok in Hrun as ([] & w1 & Hb & Hrun). exists p, w1. done.
Qed.

Lemma bounty_le w u p : world_wf w → w_participants w !! u = Some p →
  0 <= forfeit_of w u p ∧ 0 <= payout_of w u p ∧ 0 <= bounty_of w u p <= forfeit_of w u p.
Proof.
  intros (_ & _ & Hpo & Hbps & _) Hp. destruct (Hpo u p Hp) as (P1 & P2 & P3 & P4).
  assert (Hf : 0 <= forfeit_of w u p) by (unfold forfeit_of, sat_sub; lia).
  split_and!; [done|unfold payout_of, forfeit_of in *; lia|..]; unfold bounty_of;
    set (f := forfeit_of w u p) in *; set (b := r_slash_bounty_bps (w_run w)) in *;
    destruct (Z.ltb_spec 0 b); try lia; unfold as_u64.
  - apply Z.mod_pos_bound. lia.
  - assert (0 <= f * b / 10000 <= f).
    { split; [apply Z.div_pos; nia|]. apply Z.div_le_upper_bound; nia. }
    etrans; [apply Z.mod_le; lia|lia].
Qed.

(** A withdrawal changes the participant, the total, and balances: bounties are paid and
    the payout. *)
Lemma finalize_withdraw_effect clock u c ck ap rem w x w' : world_wf w →
  participant_bond_finalize_withdraw clock u c ck ap rem w = (Ok x, w') →
  ∃ p bounties, w_participants w !! u = Some p ∧
    bond_withdraw_requested_at p + bond_withdraw_delay_snapshot p <= unix_timestamp clock ∧
    bounties_ok rem (bounty_of w u p) bounties ∧
    payments (bounties ++ [(c, payout_of w u p)])
      (set_run (set_total_bonded
         (r_total_bonded_amount (w_run w) - (forfeit_of w u p + payout_of w u p)) (w_run w))
         (set_participant u (after_withdraw w u p) w)) w'.
Proof.
  intros Hw (p & w1 & Hp & _ & Htime & Hb & Ht)%finalize_withdraw_Ok.
  destruct (bounty_le w u p Hw Hp) as (Hf & Hpay & Hbo).
  match type of Hb with whenM _ _ ?w0 = _ => set (w0' := w0) in * end.
  assert (∃ l, bounties_ok rem (bounty_of w u p) l ∧ payments l w0' w1) as (l & Hl & P1).
  { destruct (Z.ltb_spec 0 (bounty_of w u p)); cbn [whenM] in Hb.
    - eapply pay_bounty_payments; [lia|exact Hb].
    - apply mret_Ok in Hb as [_ ->]. exists []. split; [split; [constructor|simpl; lia]|by apply payments_none]. }
  exists p, l. split_and!; [done..|]. eapply payments_trans; [exact P1|]. destruct P1 as (ts & -> & _).
  destruct (Z.ltb_spec 0 (payout_of w u p)); cbn [whenM] in Ht.
  - eapply transfer_payment; [lia|exact Ht].
  - apply mret_Ok in Ht as [_ ->]. apply payments_none. repeat constructor. simpl. lia.
Qed.

Lemma withdraw_paid rem w u p c l w0 w' : world_wf w → w_participants w !! u = Some p →
  bounties_ok rem (bounty_of w u p) l → payments (l ++ [(c, payout_of w u p)]) w0 w' →
  paid (forfeit_of w u p + payout_of w u p) w0 w'.
Proof.
  intros Hw Hp [Hl Ht]. destruct (bounty_le w u p Hw Hp) as (Hf & Hpay & Hbo). apply payments_paid.
  - apply list.Forall_app. split; [|by repeat constructor]. eapply list.Forall_impl; [exact Hl|]. by intros y [_ ?].
  - rewrite total_app. simpl. lia.
Qed.

Lemma sound_finalize_withdraw clock u c ck ap rem :
  sound (participant_bond_finalize_withdraw clock u c ck ap rem).
Proof.
  intros w x w' Hrun Hw.
  apply finalize_withdraw_effect in Hrun as (p & l & Hp & _ & Hl & Hrun); [|done].
  eapply withdraw_paid in Hrun as (ts & -> & Hv); [|done..].
  assert (Hok := Hw). destruct Hok as ((t & Htv & Ho & Ha) & _ & Hpo & _).
  destruct (Hpo u p Hp) as (Q1 & Q2 & Q3 & Q4).
  refine (world_wf_update w u p (after_withdraw w u p) (set_total_bonded _ (w_run w)) ts Hw Hp
    _ _ _ _ _ _); simpl; try lia.
  - unfold participant_ok. simpl. unfold payout_of, forfeit_of, sat_sub in *. split_and!; try done; lia.
  - destruct (Hv t Htv) as (t' & Ht' & Ho' & Ha'). exists t'. simpl. split_and!; [done|congruence|].
    simpl. lia.
Qed.

Lemma call_sound c w u w' : call_typed c → call_user c ≠ Some (w_run_key w) → world_wf w →
  run_tcall c w = (Ok u, w') → world_wf w'.
Proof.
  intros Ht Hu Hw. destruct c; cbn [run_tcall call_typed call_user] in *; intros Hrun; revert Hw.
  - by eapply sound_slash_bounty.
  - by eapply sound_bond_config.
  - by eapply sound_challenge_config.
  - by eapply sound_participant_create.
  - intros Hw. eapply sound_deposit; [exact Ht| |done|exact Hrun]. congruence.
  - by eapply sound_request.
  - by eapply sound_finalize_withdraw.
  - by eapply sound_claim.
  - by eapply sound_authorize_join.
  - by eapply sound_run_update.
  - by eapply sound_run_slash.
  - by eapply sound_submit.
  - by eapply sound_open_challenge.
  - by eapply sound_appeal.
  - by eapply sound_finalize_slash.
  - by eapply sound_losing.
  - rewrite bind_self in Hrun. by eapply sound_execute.
Qed.

Lemma world_reachable_wf w0 w : world_wf w0 → world_reachable w0 w → world_wf w.
Proof.
  intros H0. induction 1 as [|w c _ IH Ht Hu|w ts t t' _ IH Hv Hv' Ho Ha]; [done|..].
  - destruct (transact_cases (run_tcall c) w) as [-> | [u Hrun]]; [done|]. by eapply call_sound.
  - destruct IH as ((t0 & E & Ho0 & Hc) & IH). split; [|exact IH]. exists t'. simpl.
    assert (t0 = t) as -> by congruence. split_and!; [done|congruence|lia].
Qed.

End Sound.
