(* ===== verification/TreasurerThms.v ===== *)
(** * What the treasurer guarantees

    Accounting of bonds, claims and slashes; disputes; and where the guarantees
    stop. *)

From stdpp Require Import base tactics list numbers strings gmap.
From S2P Require Import Prelude CoreTypes Hashing CoordinatorState Committee Coordinator.
From S2P Require Import CoordinatorInv CoordinatorProps CoordinatorThms Frames.
From S2P Require Import Authorizer SolanaCoordinator SolanaProps SolanaThms Tokens Treasurer TreasurerInv.

Open Scope Z_scope.

(** ** A concrete run *)
Module Vault.

Definition run_key : Pubkey := replicate 32 3.
Definition vault : Pubkey := replicate 32 4.
Definition mint : Pubkey := replicate 32 5.
Definition ckey : Pubkey := replicate 32 9.
Definition ikey : Pubkey := replicate 32 10.
Definition boss : Pubkey := replicate 32 8.
Definition alice : Pubkey := replicate 32 7.
Definition bob : Pubkey := replicate 32 6.
Definition alice_tokens : Pubkey := replicate 32 17.
Definition bob_tokens : Pubkey := replicate 32 16.

Definition wallets : tokens :=
  <[alice_tokens := mkToken mint alice None 1000]>
  (<[bob_tokens := mkToken mint bob None 1000]> ∅).

Definition create : res TreasurerError World :=
  run_create 10 10 [0; 0] (mkAccount 0 zeroed_state 0) 1 1 0 run_key vault ikey ckey mint boss boss
    [114] [] wallets.
Definition start : World := match create with Ok w => w | _ => mkWorld run_key
  (mkRun 0 0 boss boss ckey ikey mint 0 0 0 0 0 0 0 0 0) vault ∅ ∅ ∅ ∅ Demo.inst Demo.start end.

Definition send (c : tcall) (w : World) : World := transact (@run_tcall zero_hashes spl_tokens c) w.
Definition sends (cs : list tcall) (w : World) : World := fold_left (λ w c, send c w) cs w.

Definition at_ (t : Z) : Clock := mkClock t t.
Definition auth (u : Pubkey) : Authorization :=
  mkAuthorization 0 boss u JOIN_RUN_AUTHORIZATION_SCOPE true [] 0.

(** Both create an account; Bob posts a bond of 500. *)
Definition bonded : list tcall :=
  [TParticipantCreate alice 1; TParticipantCreate bob 1; TBondDeposit bob bob_tokens 500].
(** Alice trains for one epoch that pays 1000. *)
Definition epoch_calls : list tcall :=
  [TRunUpdate (at_ 10) boss ikey ckey None (Some Demo.cfg) (Some (ModelLLM Demo.llm)) None
     (Some 1000) (Some 50) None None;
   TRunUpdate (at_ 40) boss ikey ckey None None None None None None (Some false) None;
   TCoordinator alice (at_ 50) (IJoinRun (auth alice) (from_single_key alice));
   TCoordinator alice (at_ 80) ITick;
   TCoordinator alice (at_ 90) (IWitness (Sample.vote_of 0));
   TCoordinator alice (at_ 100) ITick;
   TCoordinator alice (at_ 130) ITick].

End Vault.

(** ** Accounting *)

Section Created.
Context {H : HashFns} {T : TokenProgram} `{!TokenLaws T}.

Lemma run_create_wf space n disc b cb ix rk v ik ck mint ma ja rid ver ts w0 :
  run_create space n disc (mkAccount 0 zeroed_state 0) b cb ix rk v ik ck mint ma ja rid ver ts
    = Ok w0 → world_wf w0 ∧ w_run_key w0 = rk ∧ w_verdicts w0 = ∅.
Proof.
  unfold run_create. intros Hrun. apply res_bind_Ok in Hrun as (_ & _ & Hrun).
  apply res_bind_Ok in Hrun as (_ & _ & Hrun).
  apply res_bind_Ok in Hrun as ([inst acc] & Hi & [= <-]). apply map_err_Ok in Hi.
  unfold init_coordinator in Hi. run_inv. split; [|done].
  split; [|split; [|split; [|split; [|split]]]].
  - eexists. simpl. rewrite lookup_insert_eq. split; [done|]. split; [done|]. simpl. lia.
  - unfold books. simpl. by rewrite !msum_empty.
  - intros k p. simpl. by rewrite lookup_empty.
  - simpl. lia.
  - done.
  - intros k. unfold earned_of, slashed_of, member_of. simpl. lia.
Qed.
End Created.

(** C3: in every history of a run, the run's totals are the sums over its participants;
    a participant never has more pending than bonded, never claims more points than the
    coordinator credited to it and is paid one unit per point, and is never charged more
    slashed points than the coordinator recorded; and the vault holds at least the bonds
    less what has been claimed. *)
Theorem treasury_accounting {H : HashFns} {T : TokenProgram} `{!TokenLaws T}
    space n disc b cb ix rk v ik ck mint ma ja rid ver ts w0 w :
  run_create space n disc (mkAccount 0 zeroed_state 0) b cb ix rk v ik ck mint ma ja rid ver ts
    = Ok w0 →
  world_reachable w0 w →
  r_total_bonded_amount (w_run w) = msum bond_amount (w_participants w) ∧
  r_total_claimed_collateral_amount (w_run w) = msum claimed_collateral_amount (w_participants w) ∧
  (∀ user p, w_participants w !! user = Some p →
    0 <= bond_withdraw_pending_amount p <= bond_amount p ∧
    0 <= claimed_earned_points p <= earned_of user w ∧
    claimed_collateral_amount p = claimed_earned_points p ∧
    0 <= bond_settled_slashed_points p <= slashed_of user w) ∧
  ∃ t, w_tokens w !! w_vault w = Some t ∧
    r_total_bonded_amount (w_run w) - r_total_claimed_collateral_amount (w_run w) <= ta_amount t.
Proof.
  intros [H0 _]%run_create_wf Hr.
  apply world_reachable_wf in Hr as ((t & Ht & _ & Hv) & (B1 & B2 & _) & Hp & _); [|done].
  split_and!; [done..|]. exists t. split; [done|lia].
Qed.

(** ** What calls leave alone *)

(** The run's address and the verdicts; and the address alone. *)
Definition same_verdicts (w w' : World) : Prop :=
  w_run_key w' = w_run_key w ∧ w_verdicts w' = w_verdicts w.
Definition same_key (w w' : World) : Prop := w_run_key w' = w_run_key w.

#[export] Instance same_verdicts_preorder : PreOrder same_verdicts.
Proof. unfold same_verdicts. split; [done|]. intros ??? [E1 E2] [E3 E4]. split; congruence. Qed.
#[export] Instance same_key_preorder : PreOrder same_key.
Proof. unfold same_key. split; [done|]. intros ??? E1 E2. congruence. Qed.

Section Same.
Context {H : HashFns} {T : TokenProgram}.

Lemma cpi_same (m : XM unit) : respects same_verdicts (cpi m).
Proof. intros w u w' Hrun. unfold cpi in Hrun. by apply zoom_Ok in Hrun as (a & _ & ->). Qed.
Lemma cpi_key (m : XM unit) : respects same_key (cpi m).
Proof. intros w u w' Hrun. by apply cpi_same in Hrun as [? _]. Qed.
#[local] Hint Resolve cpi_same cpi_key : frames.

Lemma existing_same {A} R `{!PreOrder R} (o : option A) : respects R (existing o).
Proof. unfold existing. frame_step. Qed.
Lemma transfer_same from to au n : respects same_verdicts (transfer from to au n).
Proof. by intros w u w' (ts & _ & ->)%transfer_Ok. Qed.
#[local] Hint Resolve transfer_same existing_same : frames.

(** Methods that do not touch verdicts. *)
Ltac same := frame_step; apply respects_modify; done.

Lemma guards_same : respects same_verdicts coordinator_version ∧
  (∀ a, respects same_verdicts (main_authority_is a)) ∧
  (∀ k, respects same_verdicts (coordinator_account_is k)) ∧
  (∀ i k, respects same_verdicts (coordinator_accounts_are i k)) ∧
  (∀ u k, respects same_verdicts (user_token u k)) ∧
  (∀ u, respects same_verdicts (bond_at_least_minimum u)) ∧
  (∀ x t, respects same_verdicts (target_at x t)) ∧
  (∀ u c e, respects same_verdicts (seat u c e)).
Proof.
  assert (Ha : ∀ k, respects same_verdicts (coordinator_account_is k))
    by (intros; unfold coordinator_account_is; frame_step).
  split_and!; intros; unfold coordinator_version, main_authority_is, coordinator_accounts_are,
    user_token, bond_at_least_minimum, target_at, seat; frame_step.
Qed.

Lemma pay_bounty_same u ap rem b : respects same_verdicts (pay_bounty u ap rem b).
Proof.
  unfold pay_bounty, pay_reporter, pay_voter. frame_step.
Qed.
#[local] Hint Resolve pay_bounty_same : frames.

Lemma slash_same x : respects same_verdicts (slash x).
Proof. unfold slash. frame_step. Qed.

(** Only the five instructions of a dispute write verdicts. *)
Definition disputes (c : tcall) : bool :=
  match c with
  | TSubmitAuditVerdict _ _ _ _ _ _ _ | TOpenChallenge _ _ | TSubmitAppealVerdict _ _ _ _ _ _
  | TFinalizeSlash _ _ _ _ _ | TSlashLosingVerifier _ _ _ _ => true
  | _ => false
  end.

Lemma call_same c : disputes c = false → respects same_verdicts (run_tcall c).
Proof.
  destruct guards_same as (G1 & G2 & G3 & G4 & G5 & G6 & G7 & G8). assert (G9 := slash_same).
  destruct c; try done; intros _; cbn [run_tcall]; unfold run_set_slash_bounty,
    run_bond_config_update, run_set_challenge_config, participant_create, participant_bond_deposit,
    participant_bond_request_withdraw, participant_bond_finalize_withdraw, participant_claim,
    participant_authorize_join, run_update, run_slash; same.
Qed.

Lemma call_key c : respects same_key (run_tcall c).
Proof.
  destruct (disputes c) eqn:Hd.
  2: { intros w u w' Hrun. by apply call_same in Hrun as [? _]. }
  destruct guards_same as (G1 & G2 & G3 & G4 & G5 & G6 & G7 & G8). assert (G9 := slash_same).
  assert (Hk : ∀ A (m : TM A), respects same_verdicts m → respects same_key m).
  { intros A m Hm w u w' Hrun. by apply Hm in Hrun as [? _]. }
  destruct c; try done; cbn [run_tcall]; unfold run_submit_audit_verdict, run_open_challenge,
    run_submit_appeal_verdict, run_finalize_slash, run_slash_losing_verifier; same.
Qed.

Lemma sends_reachable cs w :
  Forall (λ c, call_typed c ∧ call_user c ≠ Some (w_run_key w)) cs →
  ∀ w0, world_reachable w0 w → world_reachable w0 (fold_left (λ w c, transact (run_tcall c) w) cs w).
Proof.
  revert w. induction cs as [|c cs IH]; intros w Hcs w0 Hr; [done|].
  apply list.Forall_cons in Hcs as [[Ht Hu] Hcs]. simpl. apply IH; [|by apply wr_call].
  replace (w_run_key (transact (run_tcall c) w)) with (w_run_key w); [done|].
  destruct (transact_cases (run_tcall c) w) as [-> | [u Hrun]]; [done|]. by apply call_key in Hrun.
Qed.

End Same.

(** The concrete run of [Vault]. *)
Definition claimed_world : World :=
  Vault.sends (Vault.bonded ++ Vault.epoch_calls
               ++ [TClaim Vault.alice Vault.alice_tokens Vault.ckey 400]) Vault.start.

Lemma vault_start : Vault.create = Ok Vault.start.
Proof. vm_compute. reflexivity. Qed.

Lemma claimed_world_reachable :
  @world_reachable zero_hashes spl_tokens Vault.start claimed_world.
Proof.
  unfold claimed_world, Vault.sends, Vault.send.
  apply (sends_reachable (H:=zero_hashes) (T:=spl_tokens)); [|apply wr_refl].
  unfold Vault.bonded, Vault.epoch_calls. cbn [app].
  repeat (apply Forall_cons_2; [split; [vm_compute; intuition discriminate|vm_compute; discriminate]|]).
  apply Forall_nil_2.
Qed.

Lemma treasury_accounting_witness :
  Vault.create = Ok Vault.start ∧
  @world_reachable zero_hashes spl_tokens Vault.start claimed_world ∧
  r_total_bonded_amount (w_run claimed_world) = msum bond_amount (w_participants claimed_world).
Proof.
  split; [exact vault_start|]. split; [exact claimed_world_reachable|].
  exact (proj1 (@treasury_accounting zero_hashes spl_tokens spl_tokens_laws 10 10 [0; 0] 1 1 0
    Vault.run_key Vault.vault Vault.ikey Vault.ckey Vault.mint Vault.boss Vault.boss [114] []
    Vault.wallets Vault.start claimed_world vault_start claimed_world_reachable)).
Defined.

(** Rewards are paid from the vault that holds the bonds, with no check that it
    can afford them: in this run nobody funded the vault with rewards, Alice's claim of
    400 is paid out of Bob's bond of 500, and Bob's withdrawal then fails although its
    delay has passed and Bob was never slashed. *)
Theorem claims_can_spend_bonds :
  let w := Vault.send (TBondRequestWithdraw (Vault.at_ 200) Vault.bob 500) claimed_world in
  world_reachable (H:=zero_hashes) (T:=spl_tokens) Vault.start w ∧
  slashed_of Vault.bob w = 0 ∧
  r_total_bonded_amount (w_run w) = 500 ∧
  (ta_amount <$> w_tokens w !! w_vault w) = Some 100 ∧
  (@run_tcall zero_hashes spl_tokens
     (TBondFinalizeWithdraw (Vault.at_ 300) Vault.bob Vault.bob_tokens Vault.ckey None []) w).1
  = Err TokenError.
Proof.
  cbn zeta. split.
  - apply wr_call; [exact claimed_world_reachable|vm_compute; discriminate|vm_compute; discriminate].
  - split; [vm_compute; reflexivity|]. split; [vm_compute; reflexivity|].
    split; vm_compute; reflexivity.
Qed.

(** ** Withdrawals *)

(** C19: a withdrawal goes through only once the delay fixed when it was requested has
    passed; it first forfeits the slashed points not charged before, as far as the bond
    goes, then pays the pending amount from what is left; it closes the request and lowers
    the run's total by what left the bond.  The balances change exactly so: the payout goes
    from the vault to the token account of the participant, and bounties, which together are
    at most the run's share of what was forfeited, to accounts that the caller passed; the
    vault loses no more than what left the bond, and no other account changes.  Afterwards
    either every slashed point has been charged or the bond is empty. *)
Theorem withdrawal_settles {H : HashFns} {T : TokenProgram} `{!TokenLaws T}
    clock user c ck ap rem w w' :
  world_wf w →
  participant_bond_finalize_withdraw clock user c ck ap rem w = (Ok tt, w') →
  ∃ p bounties t t', w_participants w !! user = Some p ∧
    bond_withdraw_requested_at p + bond_withdraw_delay_snapshot p <= unix_timestamp clock ∧
    w_participants w' !! user = Some (after_withdraw w user p) ∧
    r_total_bonded_amount (w_run w') =
      r_total_bonded_amount (w_run w) - (forfeit_of w user p + payout_of w user p) ∧
    (∃ a, w_tokens w !! c = Some a ∧ ta_owner a = user ∧ ta_mint a = r_collateral_mint (w_run w)) ∧
    Forall (λ x, x.1 ∈ rem ∧ 0 <= x.2) bounties ∧ total bounties <= bounty_of w user p ∧
    (∀ k a, w_tokens w !! k = Some a → ∃ a', w_tokens w' !! k = Some a' ∧
       ta_amount a' = ta_amount a + (received k bounties + if decide (k = c) then payout_of w user p else 0)
         - (if decide (k = w_vault w) then total bounties + payout_of w user p else 0)) ∧
    w_tokens w !! w_vault w = Some t ∧ w_tokens w' !! w_vault w' = Some t' ∧
    ta_amount t - (forfeit_of w user p + payout_of w user p) <= ta_amount t' ∧
    (bond_settled_slashed_points (after_withdraw w user p) = slashed_of user w ∨
     bond_amount (after_withdraw w user p) = 0).
Proof.
  intros Hw Hrun. assert (Hc := Hrun). apply M_bind_Ok in Hc as (? & ? & [_ Hc]%user_token_Ok & _).
  apply finalize_withdraw_effect in Hrun as (p & l & Hp & Ht & Hl & Hpay); [|done].
  assert (Hpaid := Hpay). eapply withdraw_paid in Hpaid as (ts0 & E0 & Hv); [|done..].
  destruct Hpay as (ts & -> & Hk). assert (ts0 = ts) as -> by by injection E0.
  destruct Hw as ((t & Htv & _ & _) & _ & Hpok & _). destruct (Hpok user p Hp) as (Q1 & Q2 & Q3 & Q4).
  destruct (Hv t Htv) as (t' & Ht' & _ & Ha). exists p, l, t, t'. split_and!; try done; try apply Hl.
  - simpl. apply lookup_insert_eq.
  - intros k a Hka. destruct (Hk k a Hka) as (a' & Ha' & _ & E). exists a'. split; [done|].
    rewrite E, received_app, total_app. unfold received at 2. rewrite filter_cons, filter_nil. cbn [fst].
    repeat case_decide; subst; simpl in *; lia || congruence.
  - unfold after_withdraw, payout_of, forfeit_of, sat_sub in *. simpl. lia.
Qed.

Definition bonded_world : World := Vault.sends Vault.bonded Vault.start.
Definition requested_world : World :=
  Vault.send (TBondRequestWithdraw (Vault.at_ 200) Vault.bob 500) bonded_world.

Lemma bonded_reachable : @world_reachable zero_hashes spl_tokens Vault.start bonded_world.
Proof.
  unfold bonded_world, Vault.sends, Vault.send.
  apply (sends_reachable (H:=zero_hashes) (T:=spl_tokens)); [|apply wr_refl].
  unfold Vault.bonded.
  repeat (apply Forall_cons_2; [split; [vm_compute; intuition discriminate|vm_compute; discriminate]|]).
  apply Forall_nil_2.
Qed.

Lemma requested_wf : world_wf requested_world.
Proof.
  assert (H0 := vault_start). apply run_create_wf in H0 as [H0 _].
  apply (world_reachable_wf (H:=zero_hashes) (T:=spl_tokens) Vault.start); [done|].
  apply wr_call; [exact bonded_reachable|vm_compute; discriminate|vm_compute; discriminate].
Qed.

Definition withdrawn_world : World :=
  Vault.send (TBondFinalizeWithdraw (Vault.at_ 300) Vault.bob Vault.bob_tokens Vault.ckey None [])
    requested_world.

Lemma withdrawal_settles_witness :
  (ta_amount <$> w_tokens withdrawn_world !! Vault.bob_tokens) = Some 1000 ∧
  ∃ p bounties t t', w_participants requested_world !! Vault.bob = Some p ∧
    bond_withdraw_requested_at p + bond_withdraw_delay_snapshot p <= unix_timestamp (Vault.at_ 300) ∧
    w_participants withdrawn_world !! Vault.bob = Some (after_withdraw requested_world Vault.bob p) ∧
    r_total_bonded_amount (w_run withdrawn_world) =
      r_total_bonded_amount (w_run requested_world)
      - (forfeit_of requested_world Vault.bob p + payout_of requested_world Vault.bob p) ∧
    (∃ a, w_tokens requested_world !! Vault.bob_tokens = Some a ∧ ta_owner a = Vault.bob ∧
       ta_mint a = r_collateral_mint (w_run requested_world)) ∧
    Forall (λ x, x.1 ∈ [] ∧ 0 <= x.2) bounties ∧ total bounties <= bounty_of requested_world Vault.bob p ∧
    (∀ k a, w_tokens requested_world !! k = Some a → ∃ a', w_tokens withdrawn_world !! k = Some a' ∧
       ta_amount a' = ta_amount a
         + (received k bounties + if decide (k = Vault.bob_tokens) then payout_of requested_world Vault.bob p else 0)
         - (if decide (k = w_vault requested_world) then total bounties + payout_of requested_world Vault.bob p else 0)) ∧
    w_tokens requested_world !! w_vault requested_world = Some t ∧
    w_tokens withdrawn_world !! w_vault withdrawn_world = Some t' ∧
    ta_amount t - (forfeit_of requested_world Vault.bob p + payout_of requested_world Vault.bob p)
      <= ta_amount t' ∧
    (bond_settled_slashed_points (after_withdraw requested_world Vault.bob p)
       = slashed_of Vault.bob requested_world ∨
     bond_amount (after_withdraw requested_world Vault.bob p) = 0).
Proof.
  split; [vm_compute; reflexivity|].
  refine (@withdrawal_settles zero_hashes spl_tokens spl_tokens_laws (Vault.at_ 300) Vault.bob
    Vault.bob_tokens Vault.ckey None [] requested_world withdrawn_world requested_wf _).
  vm_compute. reflexivity.
Defined.

(** A request fixes the delay for the whole pending amount, earlier requests
    included: Bob asks for 499 under a delay of 1000 seconds; the authority then lowers
    the delay to zero, Bob asks for one more unit, and the 500 are paid 61 seconds after
    the first request. *)
Theorem later_request_shortens_earlier_window :
  let w1 := Vault.send (TBondRequestWithdraw (Vault.at_ 100) Vault.bob 499)
             (Vault.send (TBondConfigUpdate Vault.boss 0 1000) bonded_world) in
  let w2 := Vault.send (TBondConfigUpdate Vault.boss 0 0) w1 in
  let w3 := Vault.send (TBondRequestWithdraw (Vault.at_ 160) Vault.bob 1) w2 in
  let finalize := @run_tcall zero_hashes spl_tokens
    (TBondFinalizeWithdraw (Vault.at_ 161) Vault.bob Vault.bob_tokens Vault.ckey None []) in
  (finalize w2).1 = Err WithdrawDelayNotElapsed ∧
  (finalize w3).1 = Ok tt ∧
  (ta_amount <$> w_tokens (finalize w3).2 !! Vault.bob_tokens) = Some 1000.
Proof. cbn zeta. split; [|split]; vm_compute; reflexivity. Qed.
