(* ===== verification/Disputes.v ===== *)
(** * Disputes

    The life of an audit verdict: its invariant in every history of a run, the states
    it may pass through, and what a conviction and its execution take. *)

From stdpp Require Import base tactics list numbers strings gmap.
From S2P Require Import Prelude CoreTypes Hashing CoordinatorState Committee Coordinator.
From S2P Require Import CoordinatorInv CoordinatorProps CoordinatorThms Frames.
From S2P Require Import Authorizer SolanaCoordinator SolanaProps SolanaThms.
From S2P Require Import Tokens Treasurer TreasurerInv TreasurerThms.

Open Scope Z_scope.

(** ** One dispute *)

(** The evidence and both benches of a verdict about [target]. *)
Definition verdict_ok (run_key target : Pubkey) (v : AuditVerdict) : Prop :=
  v_run v = run_key ∧ v_target v = target ∧
  NoDup (voters v) ∧ NoDup (appeal_voters v) ∧ (∀ k, k ∈ voters v → k ∉ appeal_voters v) ∧
  verdict_count v = zlen (voters v) ∧ (length (voters v) ≤ MAX_VERDICT_VOTERS)%nat ∧
  overturn_count v + uphold_count v = zlen (appeal_voters v) ∧
  (length (appeal_voters v) ≤ MAX_APPEAL_VOTERS)%nat ∧
  0 <= overturn_count v ∧ 0 <= uphold_count v ∧
  0 <= settled_count v <= zlen (voters v) ∧
  match v_status v with
  | Voting => appeal_voters v = [] ∧ settled_count v = 0
  | SlashPending => appeal_voters v = [] ∧ settled_count v = 0 ∧ 2 <= zlen (voters v)
  | Challenged | Upheld => settled_count v = 0 ∧ 2 <= zlen (voters v)
  | Overturned => 2 <= zlen (voters v)
  end.

(** The steps of a dispute: a vote, the quorum, a challenge, votes of the bench, the
    outcome, the settlement of the losers; and a new dispute once it is settled. *)
Inductive verdict_step : AuditVerdict → AuditVerdict → Prop :=
| vs_vote v v' : v_status v = Voting → v_status v' = Voting → verdict_step v v'
| vs_pending v v' : v_status v = Voting → v_status v' = SlashPending → verdict_step v v'
| vs_convicted v v' : v_status v = Voting → v_status v' = Upheld → verdict_step v v'
| vs_challenge v v' : v_status v = SlashPending → v_status v' = Challenged →
    voters v' = voters v → verdict_step v v'
| vs_executed v v' : v_status v = SlashPending ∨ v_status v = Challenged →
    v_status v' = Upheld → voters v' = voters v → verdict_step v v'
| vs_appeal v v' : v_status v = Challenged → v_status v' = Challenged →
    voters v' = voters v → verdict_step v v'
| vs_overturned v v' : v_status v = Challenged → v_status v' = Overturned →
    voters v' = voters v → verdict_step v v'
| vs_settle v v' : v_status v = Overturned → v_status v' = Overturned →
    voters v' = voters v → settled_count v' = settled_count v + 1 → verdict_step v v'
| vs_takeover v v' : is_settled v = true →
    (v_epoch v', v_round_height v') ≠ (v_epoch v, v_round_height v) →
    zlen (voters v') = 1 → v_status v' = Voting → verdict_step v v'.

(** Nothing, a new dispute, or a step of the one there is. *)
Definition verdict_moves (before after : option AuditVerdict) : Prop :=
  after = before ∨
  match before, after with
  | None, Some v' => v_status v' = Voting ∧ zlen (voters v') = 1
  | Some v, Some v' => verdict_step v v'
  | _, None => False
  end.

(** The same dispute: round, evidence and verifiers are what they were. *)
Definition same_case (v v' : AuditVerdict) : Prop :=
  voters v' = voters v ∧ v_epoch v' = v_epoch v ∧ v_round_height v' = v_round_height v ∧ v_evidence v' = v_evidence v.

(** A call writes the verdict of at most one target, to a sound one; only a verifier's
    vote writes one that is still voted on, the others leave the case as it was. *)
Definition one_verdict (vote : bool) (w w' : World) : Prop :=
  w_run_key w' = w_run_key w ∧
  ∃ target v', w_verdicts w' = <[target := v']> (w_verdicts w) ∧
    verdict_ok (w_run_key w) target v' ∧ verdict_moves (w_verdicts w !! target) (Some v') ∧
    (vote = false → ∃ v, w_verdicts w !! target = Some v ∧ v_status v ≠ Voting ∧ same_case v v').

Definition verdicts_wf (w : World) : Prop :=
  w_run_key w ≠ Pubkey_default ∧
  ∀ target v, w_verdicts w !! target = Some v → verdict_ok (w_run_key w) target v.

Lemma open_verdict_Ok b rk t ep rd found v : rk ≠ Pubkey_default →
  (∀ v0, found = Some v0 → verdict_ok rk t v0) → open_verdict b rk t ep rd found = Ok v →
  verdict_ok rk t v ∧ v_epoch v = ep ∧ v_round_height v = rd ∧
  (found = Some v ∨
   (v_status v = Voting ∧ voters v = [] ∧
    match found with
    | Some v0 => is_settled v0 = true ∧ (ep, rd) ≠ (v_epoch v0, v_round_height v0)
    | None => True
    end)).
Proof.
  intros Hrk Hok. unfold open_verdict. destruct found as [v0|]; cbn [default from_option Datatypes.id].
  - destruct (Hok v0 eq_refl) as (Hr & Ht & Hrest).
    rewrite bool_decide_eq_false_2 by congruence.
    destruct (negb (v_epoch v0 =? ep) || negb (v_round_height v0 =? rd)) eqn:Hne.
    + intros Hrun. run_inv. bool_prop. split_and!; try done.
      * split_and!; try done; simpl; try lia; try apply NoDup_nil_2. by intros k _ Hk%elem_of_nil.
      * right. split_and!; try done. intros [= -> ->]. by rewrite !Z.eqb_refl in Hne.
    + intros [= ->]. bool_prop. split_and!; try done. by left.
  - rewrite bool_decide_eq_true_2 by done. intros [= <-]. split_and!; try done; [|by right].
    split_and!; try done; simpl; try lia; try apply NoDup_nil_2. by intros k _ Hk%elem_of_nil.
Qed.

Lemma cast_vote_Ok rk t who ev v v' : verdict_ok rk t v → cast_vote who ev v = Ok v' →
  verdict_ok rk t v' ∧ v_status v = Voting ∧ v_status v' = Voting ∧
  voters v' = voters v ++ [who] ∧ who ∉ voters v ∧
  v_epoch v' = v_epoch v ∧ v_round_height v' = v_round_height v ∧ v_evidence v' = ev ∧
  (voters v = [] ∨ v_evidence v = ev).
Proof.
  intros (Hr & Ht & Hn & Hna & Hd & Hc & Hl & Ho & Hla & Ho1 & Ho2 & Hs & Hst). unfold cast_vote.
  intros Hrun. apply res_bind_Ok in Hrun as (_ & Hv%res_throw_if_Ok & Hrun).
  apply res_bind_Ok in Hrun as (_ & Hin%res_throw_if_Ok & Hrun).
  apply res_bind_Ok in Hrun as (_ & Hf%res_throw_if_Ok & Hrun). apply Nat.leb_gt in Hf. bool_prop.
  apply res_bind_Ok in Hrun as (ev' & Hev & Hrun). rewrite Hv in Hst. destruct Hst as [Ha Hs0].
  assert (ev' = ev ∧ (voters v = [] ∨ v_evidence v = ev)) as [-> Hev'].
  { case_bool_decide; [injection Hev as <-; auto|]. case_bool_decide; [|done].
    injection Hev as <-. auto. }
  run_inv. split_and!; try done. unfold verdict_ok. simpl. rewrite Ha in *.
  assert (Hz : zlen (voters v ++ [who]) = zlen (voters v) + 1)
    by (unfold zlen; rewrite length_app; simpl; lia).
  rewrite Hz, length_app. simpl. split_and!; try done; try lia.
  - apply list.NoDup_app. split_and!; [done| |apply NoDup_singleton].
    by intros k Hk ->%list_elem_of_singleton.
  - by intros k _ Hk%elem_of_nil.
Qed.

Lemma cast_appeal_Ok rk t who o v v' : verdict_ok rk t v → cast_appeal who o v = Ok v' →
  verdict_ok rk t v' ∧ v_status v = Challenged ∧ v_status v' = Challenged ∧
  same_case v v' ∧ who ∉ voters v ∧ who ∉ appeal_voters v ∧
  appeal_voters v' = appeal_voters v ++ [who].
Proof.
  intros (Hr & Ht & Hn & Hna & Hd & Hc & Hl & Ho & Hla & Ho1 & Ho2 & Hs & Hst). unfold cast_appeal.
  intros Hrun. apply res_bind_Ok in Hrun as (_ & Hv%res_throw_if_Ok & Hrun).
  apply res_bind_Ok in Hrun as (_ & Hin%res_throw_if_Ok & Hrun).
  apply res_bind_Ok in Hrun as (_ & Hin'%res_throw_if_Ok & Hrun).
  apply res_bind_Ok in Hrun as (_ & Hf%res_throw_if_Ok & Hrun). apply Nat.leb_gt in Hf. bool_prop.
  apply res_bind_Ok in Hrun as (oc & Hoc & Hrun). apply res_bind_Ok in Hrun as (uc & Huc & [= <-]).
  rewrite Hv in Hst.
  assert (Hsum : oc + uc = zlen (appeal_voters v) + 1 ∧ 0 <= oc ∧ 0 <= uc)
    by (destruct o; run_inv; lia).
  assert (Hz : zlen (appeal_voters v ++ [who]) = zlen (appeal_voters v) + 1)
    by (unfold zlen; rewrite length_app; simpl; lia).
  split_and!; try done. unfold verdict_ok. simpl. rewrite Hz, length_app, Hv. simpl.
  split_and!; try done; try lia.
  - apply list.NoDup_app. split_and!; [done| |apply NoDup_singleton].
    by intros k Hk ->%list_elem_of_singleton.
  - intros k Hk [Hk'|Hk']%elem_of_app; [by eapply Hd|].
    apply list_elem_of_singleton in Hk' as ->. done.
Qed.

(** Only the status, the clocks and the settled count change after the votes. *)
Lemma verdict_ok_status rk t v s : verdict_ok rk t v → s ≠ Voting → s ≠ SlashPending →
  settled_count v = 0 → 2 <= zlen (voters v) → verdict_ok rk t (set_status s v).
Proof.
  intros (Hr & Ht & Hn & Hna & Hd & Hc & Hl & Ho & Hla & Ho1 & Ho2 & Hs & Hst) H1 H2 H3 H4.
  unfold verdict_ok. simpl. split_and!; try done; try lia. destruct s; try done; split_and!; (done || lia).
Qed.

Section Moves.
Context {H : HashFns} {T : TokenProgram}.

Lemma slash_one w1 index w2 u : slash index w1 = (Ok u, w2) →
  w_run_key w2 = w_run_key w1 ∧ w_verdicts w2 = w_verdicts w1.
Proof. intros Hrun. by apply slash_same in Hrun. Qed.

(** The guards of a dispute change nothing. *)
Lemma seat_Ok who c e w sel w' : seat who c e w = (Ok sel, w') →
  w' = w ∧ ∃ index, client_position who w = Some index ∧
    from_coordinator_with_tie_breakers (coordinator (acc_state (w_coordinator w))) 0
      (r_tie_breaker_committee_size (w_run w)) = Ok sel ∧
    ∃ p, get_committee (E:=TreasurerError) sel (Z.of_nat index) = Ok p ∧ cp_committee p = c.
Proof.
  unfold seat. rewrite bind_self. intros Hrun. run_inv. bool_prop. eauto 10.
Qed.

Lemma target_at_Ok index t w u w' : target_at index t w = (Ok u, w') →
  w' = w ∧ ∃ c, znth (epoch_clients w) index = Some c ∧ signer (id c) = t.
Proof. unfold target_at. intros Hrun. run_inv. bool_prop. eauto. Qed.

(** What a successful vote of a verifier did. *)
Lemma submit_Ok clock vf ik ak b t ev w u w' :
  run_submit_audit_verdict clock vf ik ak b t ev w = (Ok u, w') →
  ∃ sel index p pt round v0 v quorum,
    w_participants w !! vf = Some pt ∧ r_bond_minimum_amount (w_run w) <= bond_amount pt ∧
    client_position vf w = Some index ∧
    from_coordinator_with_tie_breakers (coordinator (acc_state (w_coordinator w))) 0
      (r_tie_breaker_committee_size (w_run w)) = Ok sel ∧
    get_committee (E:=TreasurerError) sel (Z.of_nat index) = Ok p ∧ cp_committee p = Verifier ∧
    verdict_quorum (verifier_nodes sel) = Ok quorum ∧
    current_round (coordinator (acc_state (w_coordinator w))) = Some round ∧
    open_verdict b (w_run_key w) t (epoch (progress (coordinator (acc_state (w_coordinator w)))))
      (height round) (w_verdicts w !! t) = Ok v0 ∧
    cast_vote vf ev v0 = Ok v ∧
    w_run_key w' = w_run_key w ∧
    w_verdicts w' = <[t :=
      if quorum <=? verdict_count v then
        if 0 <? r_challenge_window_seconds (w_run w)
        then set_pending_since (unix_timestamp clock) (set_status SlashPending v)
        else set_status Upheld v
      else v]> (w_verdicts w).
Proof.
  unfold run_submit_audit_verdict. intros Hrun.
  apply M_bind_Ok in Hrun as (? & ? & [-> _]%coordinator_accounts_are_Ok & Hrun).
  apply M_bind_Ok in Hrun as (? & ? & (-> & pt & Hpt & Hb)%bond_at_least_Ok & Hrun).
  apply M_bind_Ok in Hrun as (sel & ? & (-> & index & Hi & Hsel & p & Hp & Hc)%seat_Ok & Hrun).
  apply M_bind_Ok in Hrun as (? & ? & [-> _]%target_at_Ok & Hrun).
  apply M_bind_Ok in Hrun as (quorum & ? & [Hq ->]%lift_Ok & Hrun). rewrite bind_self in Hrun.
  apply M_bind_Ok in Hrun as (round & ? & [Hr%ok_or_Ok ->]%lift_Ok & Hrun).
  apply M_bind_Ok in Hrun as (v0 & ? & [Hv0 ->]%lift_Ok & Hrun).
  apply M_bind_Ok in Hrun as (v & ? & [Hv ->]%lift_Ok & Hrun).
  exists sel, index, p, pt, round, v0, v, quorum. split_and!; try done.
  - destruct (quorum <=? _); [destruct (0 <? _)|]; [| |by apply modify_Ok in Hrun as ->].
    + by apply modify_Ok in Hrun as ->.
    + rewrite bind_modify in Hrun. by apply slash_one in Hrun as [-> _].
  - destruct (quorum <=? _); [destruct (0 <? _)|]; [| |by apply modify_Ok in Hrun as ->].
    + by apply modify_Ok in Hrun as ->.
    + rewrite bind_modify in Hrun. by apply slash_one in Hrun as [_ ->].
Qed.

Lemma quorum_bounds n q : verdict_quorum n = Ok q →
  2 <= q <= 64 ∧ 2 * n <= 3 * q ∧ 2 <= n.
Proof.
  unfold verdict_quorum, div_ceil, MIN_VERIFIER_COMMITTEE. intros Hrun. run_inv. bool_prop.
  assert (3 * ((2 * n + 3 - 1) / 3) + 2 >= 2 * n + 2)
    by (assert (Hd := Z.div_mod (2 * n + 3 - 1) 3 ltac:(lia));
        assert (Hm := Z.mod_pos_bound (2 * n + 3 - 1) 3 ltac:(lia)); lia).
  unfold MAX_VERDICT_VOTERS in *. lia.
Qed.

Lemma submit_one clock vf ik ak b t ev w u w' : verdicts_wf w →
  run_submit_audit_verdict clock vf ik ak b t ev w = (Ok u, w') → one_verdict true w w'.
Proof.
  intros [Hrk Hok] Hrun.
  apply submit_Ok in Hrun as (sel & ix & p & pt & rd & v0 & v & q & _ & _ & _ & _ & _ & _ & Hq & _ &
    Hv0 & Hv & Hk & Hw). apply quorum_bounds in Hq as (Hq & _).
  apply open_verdict_Ok in Hv0 as (Hv0 & He & Hh & Hcase); [|done|by apply Hok].
  apply (cast_vote_Ok (w_run_key w) t) in Hv as (Hv & Hst0 & Hst & Hvs & _ & He' & Hh' & _); [|done].
  split; [done|]. eexists t, _. split; [exact Hw|].
  assert (Hcnt : verdict_count v = zlen (voters v)) by apply Hv.
  assert (Hs0 : appeal_voters v = [] ∧ settled_count v = 0).
  { destruct Hv as (_ & _ & _ & _ & _ & _ & _ & _ & _ & _ & _ & _ & Hv). by rewrite Hst in Hv. }
  destruct (Z.leb_spec q (verdict_count v)) as [Hge|Hlt].
  - assert (Hvs0 : w_verdicts w !! t = Some v0).
    { destruct Hcase as [?|(_ & Hnil & _)]; [done|]. exfalso.
      rewrite Hvs, Hnil in Hcnt. unfold zlen in Hcnt. simpl in Hcnt. lia. }
    rewrite Hvs0. destruct (0 <? _); (split; [|split; [|done]]).
    + destruct Hv as (?&?&?&?&?&?&?&?&?&?&?&?&?). unfold verdict_ok. simpl. split_and!; try done.
      all: try apply Hs0. all: lia.
    + right. by apply vs_pending.
    + apply verdict_ok_status; try done; [apply Hs0|lia].
    + right. by apply vs_convicted.
  - split; [done|]. split; [|done]. right. destruct Hcase as [-> |(_ & Hnil & Hf)]; [by apply vs_vote|].
    assert (zlen (voters v) = 1) by (rewrite Hvs, Hnil; done).
    destruct (w_verdicts w !! t) as [v1|]; [|done]. destruct Hf as [Hset Hne].
    apply vs_takeover; try done. congruence.
Qed.
Lemma challenge_one clock who w u w' : verdicts_wf w →
  run_open_challenge clock who w = (Ok u, w') → one_verdict false w w'.
Proof.
  intros [Hrk Hok] Hrun. unfold run_open_challenge in Hrun. rewrite bind_self in Hrun.
  apply M_bind_Ok in Hrun as (v & ? & [-> Hv]%existing_Ok & Hrun).
  apply M_bind_Ok in Hrun as (? & ? & [-> _]%bond_at_least_Ok & Hrun). run_inv. bool_prop.
  match goal with Hs : v_status v = SlashPending |- _ => rename Hs into Hst end.
  destruct (Hok who v Hv) as (?&?&?&?&?&?&?&?&?&?&?&?&Hm). rewrite Hst in Hm.
  split; [done|]. eexists who, _. split; [reflexivity|]. split; [|split].
  - unfold verdict_ok. simpl. split_and!; try done; try lia; try apply NoDup_nil_2.
    + by intros k _ Hk%elem_of_nil.
  - rewrite Hv. right. by apply vs_challenge.
  - intros _. exists v. by rewrite Hst.
Qed.

Lemma appeal_one a ik ak t x o w u w' : verdicts_wf w →
  run_submit_appeal_verdict a ik ak t x o w = (Ok u, w') → one_verdict false w w'.
Proof.
  intros [Hrk Hok] Hrun. unfold run_submit_appeal_verdict in Hrun.
  apply M_bind_Ok in Hrun as (? & ? & [-> _]%coordinator_accounts_are_Ok & Hrun). rewrite bind_self in Hrun.
  apply M_bind_Ok in Hrun as (v0 & ? & [-> Hv0]%existing_Ok & Hrun).
  apply M_bind_Ok in Hrun as (? & ? & [-> _]%bond_at_least_Ok & Hrun).
  apply M_bind_Ok in Hrun as (sel & ? & [-> _]%seat_Ok & Hrun).
  apply M_bind_Ok in Hrun as (? & ? & [-> _]%target_at_Ok & Hrun).
  apply M_bind_Ok in Hrun as (q & ? & [Hq ->]%lift_Ok & Hrun).
  apply M_bind_Ok in Hrun as (? & ? & [_ ->]%throw_if_Ok & Hrun).
  apply M_bind_Ok in Hrun as (v & ? & [Hv ->]%lift_Ok & Hrun).
  apply (cast_appeal_Ok (w_run_key w) t) in Hv as (Hv & Hst0 & Hst & Hsame & _); [|by apply Hok].
  assert (Hvs : voters v = voters v0) by apply Hsame.
  assert (Hm : settled_count v = 0 ∧ 2 <= zlen (voters v)).
  { destruct Hv as (_ & _ & _ & _ & _ & _ & _ & _ & _ & _ & _ & _ & Hv). by rewrite Hst in Hv. }
  destruct Hm as [Hm1 Hm2].
  assert (∀ s, false = false → ∃ v1, w_verdicts w !! t = Some v1 ∧ v_status v1 ≠ Voting ∧ same_case v1 (set_status s v))
    by (intros s _; exists v0; by rewrite Hst0).
  destruct (q <=? overturn_count v); [|destruct (q <=? uphold_count v)].
  - apply modify_Ok in Hrun as ->. split; [done|]. eexists t, _. split; [reflexivity|].
    split; [by apply verdict_ok_status|]. split; [rewrite Hv0; right; by apply vs_overturned|eauto].
  - rewrite bind_modify in Hrun. apply slash_one in Hrun as [E1 E2]. split; [done|].
    eexists t, _. split; [exact E2|]. split; [by apply verdict_ok_status|].
    split; [rewrite Hv0; right; apply vs_executed; [by right|done..]|eauto].
  - apply modify_Ok in Hrun as ->. split; [done|]. eexists t, _. split; [reflexivity|].
    split; [done|]. split; [rewrite Hv0; right; by apply vs_appeal|]. intros _. exists v0. by rewrite Hst0.
Qed.

(** What a successful execution of a verdict did. *)
Lemma finalize_slash_Ok clock ik ak t x w u w' :
  run_finalize_slash clock ik ak t x w = (Ok u, w') →
  ∃ v, w_verdicts w !! t = Some v ∧ may_finalize clock (w_run w) v = Ok tt ∧
    slash x (set_verdict t (set_status Upheld v) w) = (Ok u, w').
Proof.
  intros Hrun. unfold run_finalize_slash in Hrun.
  apply M_bind_Ok in Hrun as (? & ? & [-> _]%coordinator_accounts_are_Ok & Hrun). rewrite bind_self in Hrun.
  apply M_bind_Ok in Hrun as (v & ? & [-> Hv]%existing_Ok & Hrun).
  apply M_bind_Ok in Hrun as ([] & ? & [Hmf ->]%lift_Ok & Hrun). rewrite bind_modify in Hrun.
  apply M_bind_Ok in Hrun as (? & ? & [-> _]%target_at_Ok & Hrun). eauto.
Qed.

Lemma may_finalize_Ok clock r v : may_finalize clock r v = Ok tt →
  v_status v = SlashPending ∨ v_status v = Challenged.
Proof. unfold may_finalize. destruct (v_status v); auto; discriminate. Qed.

Lemma finalize_slash_one clock ik ak t x w u w' : verdicts_wf w →
  run_finalize_slash clock ik ak t x w = (Ok u, w') → one_verdict false w w'.
Proof.
  intros [Hrk Hok] (v & Hv & Hst%may_finalize_Ok & [E1 E2]%slash_one)%finalize_slash_Ok.
  split; [done|]. eexists t, _. split; [exact E2|].
  assert (settled_count v = 0 ∧ 2 <= zlen (voters v)) as [Hm1 Hm2].
  { destruct (Hok t v Hv) as (?&?&?&?&?&?&?&?&?&?&?&?&Hm). destruct Hst as [Hst|Hst]; rewrite Hst in Hm; tauto. }
  split; [apply verdict_ok_status; try done; by apply Hok|].
  split; [rewrite Hv; right; by apply vs_executed|]. intros _. exists v. split; [done|].
  by destruct Hst as [-> | ->].
Qed.

Lemma losing_one ik ak t n w u w' : verdicts_wf w →
  run_slash_losing_verifier ik ak t n w = (Ok u, w') → one_verdict false w w'.
Proof.
  intros [Hrk Hok] Hrun. unfold run_slash_losing_verifier in Hrun.
  apply M_bind_Ok in Hrun as (? & ? & [-> _]%coordinator_accounts_are_Ok & Hrun). rewrite bind_self in Hrun.
  apply M_bind_Ok in Hrun as (v & ? & [-> Hv]%existing_Ok & Hrun).
  apply M_bind_Ok in Hrun as (? & ? & [Hst ->]%throw_if_Ok & Hrun).
  apply M_bind_Ok in Hrun as (? & ? & [Hle ->]%throw_if_Ok & Hrun).
  apply M_bind_Ok in Hrun as (? & ? & [_ ->]%throw_if_Ok & Hrun).
  apply M_bind_Ok in Hrun as (loser & ? & [_ ->]%lift_Ok & Hrun).
  apply M_bind_Ok in Hrun as (ix & ? & [_ ->]%lift_Ok & Hrun).
  apply M_bind_Ok in Hrun as (cl & ? & [_ ->]%lift_Ok & Hrun).
  apply M_bind_Ok in Hrun as (? & ? & [_ ->]%throw_if_Ok & Hrun).
  apply M_bind_Ok in Hrun as (k & ? & [[-> _]%uadd_Ok ->]%lift_Ok & Hrun). bool_prop.
  rewrite bind_modify in Hrun. apply slash_one in Hrun as [E1 E2].
  split; [done|]. eexists t, _. split; [exact E2|]. split; [|split].
  - destruct (Hok t v Hv) as (?&?&?&?&?&?&?&?&?&?&?&?&Hm). rewrite Hst in Hm.
    unfold verdict_ok. simpl. rewrite Hst. split_and!; try done; lia.
  - rewrite Hv. right. by apply vs_settle.
  - intros _. exists v. by rewrite Hst.
Qed.

Definition is_vote (c : tcall) : bool :=
  match c with TSubmitAuditVerdict _ _ _ _ _ _ _ => true | _ => false end.

Lemma call_one_verdict c w u w' : verdicts_wf w → run_tcall c w = (Ok u, w') →
  same_verdicts w w' ∨ one_verdict (is_vote c) w w'.
Proof.
  intros Hw Hrun. destruct (disputes c) eqn:Hd; [right|left; by eapply call_same].
  destruct c; try done; cbn [run_tcall is_vote] in *;
    eauto using submit_one, challenge_one, appeal_one, finalize_slash_one, losing_one.
Qed.

(** Every call leaves every verdict sound and moves it by at most one step. *)
Lemma call_verdicts c w u w' : verdicts_wf w → run_tcall c w = (Ok u, w') →
  verdicts_wf w' ∧ ∀ t, verdict_moves (w_verdicts w !! t) (w_verdicts w' !! t).
Proof.
  intros Hw Hrun.
  destruct (call_one_verdict c w u w' Hw Hrun) as [[E1 E2]|(E1 & t & v & E2 & Hv & Hm & _)].
  - split; [|intros t; left; by rewrite E2]. destruct Hw as [Hrk Hok]. split; [by rewrite E1|].
    intros t v. rewrite E1, E2. apply Hok.
  - destruct Hw as [Hrk Hok]. split.
    + split; [by rewrite E1|]. intros t' v'. rewrite E1, E2. destruct (decide (t' = t)) as [->|Hne].
      * rewrite lookup_insert_eq. by intros [= <-].
      * rewrite lookup_insert_ne by done. apply Hok.
    + intros t'. rewrite E2. destruct (decide (t' = t)) as [->|Hne].
      * by rewrite lookup_insert_eq.
      * rewrite lookup_insert_ne by done. by left.
Qed.

Lemma reachable_verdicts w0 w : verdicts_wf w0 → world_reachable w0 w → verdicts_wf w.
Proof.
  intros H0. induction 1 as [|w c _ IH _ _|w ts t t' _ IH _ _ _ _]; [done| |exact IH].
  destruct (transact_cases (run_tcall c) w) as [-> | [u Hrun]]; [done|].
  by apply call_verdicts in Hrun as [? _].
Qed.

End Moves.

(** ** A concrete dispute: four clients, two of them verifiers *)
Module Court.

Definition cfg : CoordinatorConfig := mkConfig 30 30 30 10 0 40 1000 4 1 1 8 8 50 5.
Definition who (k : Z) : Pubkey := replicate 32 k.
Definition join (k t : Z) : tcall :=
  TCoordinator (who k) (Vault.at_ t) (IJoinRun (Vault.auth (who k)) (from_single_key (who k))).
Definition setup : list tcall :=
  [TParticipantCreate (who 21) 1; TParticipantCreate (who 22) 1; TParticipantCreate (who 23) 1;
   TParticipantCreate (who 24) 1;
   TRunUpdate (Vault.at_ 10) Vault.boss Vault.ikey Vault.ckey None (Some cfg)
     (Some (ModelLLM Demo.llm)) None (Some 1000) (Some 50) None None;
   TSetChallengeConfig Vault.boss 100 0 50;
   TRunUpdate (Vault.at_ 40) Vault.boss Vault.ikey Vault.ckey None None None None None None
     (Some false) None;
   join 21 41; join 22 41; join 23 41; join 24 50;
   TCoordinator (who 21) (Vault.at_ 80) ITick].
Definition training : World := Vault.sends setup Vault.start.
Definition evidence (i : Z) : Evidence := mkEvidence (replicate 32 1) (replicate 32 2) i 0 1.
Definition vote (k target i : Z) : tcall :=
  TSubmitAuditVerdict (Vault.at_ 85) (who k) Vault.ikey Vault.ckey 1 (who target) (evidence i).

(** Both verifiers convict client 23; nobody challenges; the epoch ends by its time
    limit after three rounds. *)
Definition convicted : World := Vault.send (vote 22 23 2) (Vault.send (vote 21 23 2) training).
Definition round (t : Z) : list tcall :=
  [TCoordinator (who 21) (Vault.at_ t) (IWitness (Sample.vote_of 0));
   TCoordinator (who 21) (Vault.at_ (t + 10)) ITick].
Definition waiting : World :=
  Vault.sends (round 90 ++ round 110 ++ round 130 ++
    [TCoordinator (who 21) (Vault.at_ 170) ITick; join 21 171; join 22 171; join 23 171;
     join 24 171]) convicted.
Definition finalize : tcall :=
  TFinalizeSlash (Vault.at_ 190) Vault.ikey Vault.ckey (who 23) 2.
Definition finalized : World := Vault.send finalize waiting.
Definition next_epoch : World :=
  Vault.send (TCoordinator (who 21) (Vault.at_ 191) ITick) finalized.

End Court.

(** ** Theorems *)

Lemma created_verdicts space n disc b cb ix rk v ik ck mint ma ja rid ver ts w0 :
  run_create space n disc (mkAccount 0 zeroed_state 0) b cb ix rk v ik ck mint ma ja rid ver ts
    = Ok w0 → rk ≠ Pubkey_default → verdicts_wf w0.
Proof.
  intros (_ & Ek & E)%run_create_wf Hrk. split; [by rewrite Ek|]. intros t x. by rewrite E, lookup_empty.
Qed.

(** C11: in every history of a run, each verdict has distinct verifiers, at most 64,
    as many as its count; distinct appeal voters, at most 64, none of whom voted on the
    verdict, as many as its two counts together; at least two verifiers once it is
    resolved; and no settled losers unless it was overturned. *)
Theorem verdict_invariant {H : HashFns} {T : TokenProgram}
    space n disc b cb ix rk v ik ck mint ma ja rid ver ts w0 w :
  run_create space n disc (mkAccount 0 zeroed_state 0) b cb ix rk v ik ck mint ma ja rid ver ts
    = Ok w0 → rk ≠ Pubkey_default →
  world_reachable w0 w →
  ∀ target vd, w_verdicts w !! target = Some vd → verdict_ok (w_run_key w) target vd.
Proof.
  intros Hc Hrk Hr. eapply created_verdicts in Hc; [|done]. by apply reachable_verdicts in Hr as [_ ?].
Qed.

Lemma court_reachable : @world_reachable zero_hashes spl_tokens Vault.start Court.convicted.
Proof.
  unfold Court.convicted, Court.training, Vault.sends, Vault.send.
  apply wr_call; [apply wr_call|vm_compute; exact I|vm_compute; discriminate];
    [|vm_compute; exact I|vm_compute; discriminate].
  apply (sends_reachable (H:=zero_hashes) (T:=spl_tokens)); [|apply wr_refl].
  unfold Court.setup.
  repeat (apply Forall_cons_2; [split; [vm_compute; intuition discriminate|vm_compute; discriminate]|]).
  apply Forall_nil_2.
Qed.

Lemma court_voted_reachable : @world_reachable zero_hashes spl_tokens Vault.start (Vault.send (Court.vote 21 23 2) Court.training).
Proof.
  unfold Court.training, Vault.sends, Vault.send.
  apply wr_call; [|vm_compute; exact I|vm_compute; discriminate].
  apply (sends_reachable (H:=zero_hashes) (T:=spl_tokens)); [|apply wr_refl].
  unfold Court.setup.
  repeat (apply Forall_cons_2; [split; [vm_compute; intuition discriminate|vm_compute; discriminate]|]).
  apply Forall_nil_2.
Qed.

Lemma court_training_wf : verdicts_wf (Vault.send (Court.vote 21 23 2) Court.training).
Proof.
  assert (H0 := vault_start). eapply created_verdicts in H0; [|vm_compute; discriminate].
  by apply (reachable_verdicts (H:=zero_hashes) (T:=spl_tokens) Vault.start), court_voted_reachable.
Qed.

Lemma verdict_invariant_witness :
  (voters <$> w_verdicts Court.convicted !! Court.who 23) = Some [Court.who 21; Court.who 22] ∧
  ∀ target vd, w_verdicts Court.convicted !! target = Some vd →
    verdict_ok (w_run_key Court.convicted) target vd.
Proof.
  split; [vm_compute; reflexivity|].
  refine (@verdict_invariant zero_hashes spl_tokens 10 10 [0; 0] 1 1 0
    Vault.run_key Vault.vault Vault.ikey Vault.ckey Vault.mint Vault.boss Vault.boss [114] []
    Vault.wallets Vault.start Court.convicted vault_start _ court_reachable).
  vm_compute. discriminate.
Defined.

(** C7: whatever instruction of the treasurer or of the coordinator succeeds, it
    removes no verdict, and moves each by at most one step of the dispute: votes up to the
    quorum, a pending conviction, a challenge, its appeal, the outcome, the settlement of
    the losing verifiers; a verdict is taken over by a later dispute only when it is
    settled, and never while a conviction, an appeal or a settlement is unfinished. *)
Theorem verdict_state_machine {H : HashFns} {T : TokenProgram} c w w' :
  verdicts_wf w → run_tcall c w = (Ok tt, w') →
  ∀ target, verdict_moves (w_verdicts w !! target) (w_verdicts w' !! target).
Proof. intros Hw Hrun. by apply call_verdicts in Hrun as [_ ?]. Qed.

Lemma verdict_state_machine_witness :
  verdict_moves (w_verdicts (Vault.send (Court.vote 21 23 2) Court.training) !! Court.who 23)
    (w_verdicts Court.convicted !! Court.who 23).
Proof.
  refine (@verdict_state_machine zero_hashes spl_tokens (Court.vote 22 23 2) _ _
    court_training_wf _ (Court.who 23)).
  vm_compute. reflexivity.
Defined.

(** *** Convictions *)

Section Histories.
Context {H : HashFns} {T : TokenProgram}.

(** A history with every call that succeeded in it and the world it was sent to. *)
Inductive world_history (w0 : World) : list (World * tcall) → World → Prop :=
| wh_nil : world_history w0 [] w0
| wh_call h w c u w' : world_history w0 h w → run_tcall c w = (Ok u, w') →
    world_history w0 (h ++ [(w, c)]) w'
| wh_tokens h w ts : world_history w0 h w → world_history w0 h (set_tokens ts w).

Lemma reachable_history w0 w : world_reachable w0 w → ∃ h, world_history w0 h w.
Proof.
  induction 1 as [|w c _ [h IH] _ _|w ts t t' _ [h IH] _ _ _ _]; [by exists []; constructor| |by exists h; constructor].
  destruct (transact_cases (run_tcall c) w) as [-> | [u Hrun]]; [by exists h|].
  eexists. by eapply wh_call.
Qed.

(** [k] is a client with a bond and a verifier's seat of the current round. *)
Definition sits_as_verifier (w : World) (k : Pubkey) : Prop :=
  ∃ index sel p pt, client_position k w = Some index ∧
    w_participants w !! k = Some pt ∧ r_bond_minimum_amount (w_run w) <= bond_amount pt ∧
    from_coordinator_with_tie_breakers (coordinator (acc_state (w_coordinator w))) 0
      (r_tie_breaker_committee_size (w_run w)) = Ok sel ∧
    get_committee (E:=TreasurerError) sel (Z.of_nat index) = Ok p ∧ cp_committee p = Verifier.

(** In the history [k] voted on [target] with this evidence, from a verifier's seat of the
    round [r] of the epoch [e], while the coordinator was in that round. *)
Definition voted (h : list (World * tcall)) (target k : Pubkey) (e r : Z) (ev : Evidence) : Prop :=
  ∃ w clock ik ak b rd, (w, TSubmitAuditVerdict clock k ik ak b target ev) ∈ h ∧ sits_as_verifier w k ∧
    epoch (progress (coordinator (acc_state (w_coordinator w)))) = e ∧
    current_round (coordinator (acc_state (w_coordinator w))) = Some rd ∧ height rd = r.

(** Whoever counts as a voter of a verdict voted in its round. *)
Definition votes_backed (h : list (World * tcall)) (w : World) : Prop :=
  ∀ target v k, w_verdicts w !! target = Some v → k ∈ voters v →
    voted h target k (v_epoch v) (v_round_height v) (v_evidence v).

Lemma voted_app h h' target k e r ev : voted h target k e r ev → voted (h ++ h') target k e r ev.
Proof. intros (w & cl & ik & ak & b & rd & Hin & Hr). exists w, cl, ik, ak, b, rd. split; [set_solver|done]. Qed.

Lemma voted_same h h' target k v v' : same_case v v' → voted h target k (v_epoch v) (v_round_height v) (v_evidence v) →
  voted (h ++ h') target k (v_epoch v') (v_round_height v') (v_evidence v').
Proof. intros (_ & -> & -> & ->) Hv. by apply voted_app. Qed.

Lemma vote_backed h clock vf ik ak b t ev w u w' : verdicts_wf w → votes_backed h w →
  run_submit_audit_verdict clock vf ik ak b t ev w = (Ok u, w') →
  votes_backed (h ++ [(w, TSubmitAuditVerdict clock vf ik ak b t ev)]) w'.
Proof.
  intros [Hrk Hwf] Hh Hrun.
  apply submit_Ok in Hrun as (sel & ix & p & pt & rd & v0 & v & q & Hpt & Hb & Hi & Hsel & Hp & Hcm &
    _ & Hr & Hv0 & Hv & _ & E).
  apply open_verdict_Ok in Hv0 as (Hv0 & He & Hh0 & Hcase); [|done|by apply Hwf].
  apply (cast_vote_Ok (w_run_key w) t) in Hv as (_ & _ & _ & Hvs & _ & He' & Hh' & Hev & Hsame); [|done].
  assert (Hcast : ∀ k, k ∈ voters v →
    voted (h ++ [(w, TSubmitAuditVerdict clock vf ik ak b t ev)]) t k (v_epoch v) (v_round_height v) (v_evidence v)).
  { intros k. rewrite Hvs, Hev, He', Hh'. intros [Hk|Hk]%elem_of_app.
    - destruct Hcase as [Hf|(_ & Hnil & _)]; [|rewrite Hnil in Hk; by apply elem_of_nil in Hk].
      destruct Hsame as [Hnil|<-]; [rewrite Hnil in Hk; by apply elem_of_nil in Hk|]. apply voted_app. by apply Hh.
    - apply list_elem_of_singleton in Hk as ->. exists w, clock, ik, ak, b, rd.
      split; [set_solver|]. split; [by exists ix, sel, p, pt|]. by rewrite He, Hh0. }
  intros t' v' k. rewrite E. destruct (decide (t' = t)) as [->|Hne].
  - rewrite lookup_insert_eq. intros [= <-]. destruct (q <=? _); [destruct (0 <? _)|]; apply Hcast.
  - rewrite lookup_insert_ne by done. intros Hl Hk. apply voted_app. by apply Hh.
Qed.

Lemma history_backed w0 h w : verdicts_wf w0 → w_verdicts w0 = ∅ → world_history w0 h w →
  verdicts_wf w ∧ votes_backed h w.
Proof.
  intros H0 Hemp. induction 1 as [|h w c u w' _ [Hw Hh] Hrun|h w ts _ [Hw Hh]]; [|split|by split].
  { split; [done|]. intros t v k. by rewrite Hemp, lookup_empty. }
  { by apply call_verdicts in Hrun as [? _]. }
  destruct (is_vote c) eqn:Hc; [destruct c; try done; by eapply vote_backed|].
  intros t v k Hv Hk. destruct (call_one_verdict c w u w' Hw Hrun) as [[_ E]|(_ & t' & v' & E & _ & _ & Hnv)]; rewrite E in Hv.
  { apply voted_app. by apply Hh. }
  destruct (decide (t = t')) as [->|Hne]; [|rewrite lookup_insert_ne in Hv by done; apply voted_app; by apply Hh].
  rewrite lookup_insert_eq in Hv. injection Hv as ->. destruct (Hnv Hc) as (v1 & Hv1 & _ & Hs).
  apply (voted_same _ _ _ _ v1); [done|]. apply Hh; [done|]. destruct Hs as [<- _]. done.
Qed.

(** The vote that completes a quorum. *)
Lemma quorum_vote c w w' target v' :
  verdicts_wf w → run_tcall c w = (Ok tt, w') →
  (∀ v, w_verdicts w !! target = Some v → v_status v = Voting) →
  w_verdicts w' !! target = Some v' → v_status v' ≠ Voting →
  let co := coordinator (acc_state (w_coordinator w)) in
  ∃ verifier index sel seat_ pt round,
    client_position verifier w = Some index ∧
    w_participants w !! verifier = Some pt ∧ r_bond_minimum_amount (w_run w) <= bond_amount pt ∧
    from_coordinator_with_tie_breakers co 0 (r_tie_breaker_committee_size (w_run w)) = Ok sel ∧
    get_committee (E:=TreasurerError) sel (Z.of_nat index) = Ok seat_ ∧
    cp_committee seat_ = Verifier ∧
    current_round co = Some round ∧ v_epoch v' = epoch (progress co) ∧
    v_round_height v' = height round ∧
    verifier ∈ voters v' ∧ NoDup (voters v') ∧ 2 <= zlen (voters v') ∧
    2 * verifier_nodes sel <= 3 * zlen (voters v').
Proof.
  intros Hw Hrun Hvot Hv' Hst co.
  destruct (call_one_verdict c w tt w' Hw Hrun) as [[_ E]|(_ & t & v & E & Hok & _ & Hnv)].
  { rewrite E in Hv'. by apply Hvot in Hv'. }
  rewrite E in Hv'. destruct (decide (t = target)) as [->|Hne].
  2: { rewrite lookup_insert_ne in Hv' by done. by apply Hvot in Hv'. }
  rewrite lookup_insert_eq in Hv'. injection Hv' as ->.
  destruct (is_vote c) eqn:Hc.
  2: { destruct (Hnv eq_refl) as (v0 & H0 & Hs0 & _). by apply Hvot in H0. }
  destruct c; try done. cbn [run_tcall] in Hrun.
  apply submit_Ok in Hrun as (sel & ix & p & pt & rd & v0 & v & q & Hpt & Hb & Hi & Hsel & Hp & Hcm &
    Hq & Hr & Hv0 & Hv & _ & E'). rewrite E in E'.
  assert (target0 = target) as ->.
  { destruct (decide (target0 = target)) as [|Hne]; [done|]. exfalso.
    assert (Hl : Some v' = w_verdicts w !! target).
    { apply (f_equal (lookup target)) in E'. by rewrite lookup_insert_eq, lookup_insert_ne in E'. }
    symmetry in Hl. by apply Hvot in Hl. }
  apply (f_equal (lookup target)) in E'. rewrite !lookup_insert_eq in E'. injection E' as ->.
  destruct Hw as [Hrk Hwf]. apply quorum_bounds in Hq as (Hq1 & Hq2 & Hq3).
  apply open_verdict_Ok in Hv0 as (Hv0 & He & Hh & _); [|done|by apply Hwf].
  apply (cast_vote_Ok (w_run_key w) target) in Hv as (Hv & _ & Hs & Hvs & _ & He' & Hh' & _); [|done].
  assert (Hn : NoDup (voters v)) by apply Hv. assert (Hcnt : verdict_count v = zlen (voters v)) by apply Hv.
  destruct (Z.leb_spec q (verdict_count v)) as [Hge|Hlt]; [|done].
  exists verifier, ix, sel, p, pt, rd.
  assert (Hin : verifier ∈ voters v) by (rewrite Hvs; set_solver).
  destruct (0 <? _); simpl; rewrite He', Hh'; split_and!; try done; lia.
Qed.

End Histories.

(** C4: in every history of a run a verdict leaves the voting stage only by a vote that
    completes a quorum: the voter is a bonded client with a verifier seat in the current
    round, and at least two thirds of the verifier seats, and at least two, have been voted
    with by distinct keys.  Each of those keys voted, on this target and with this evidence,
    from a bonded verifier's seat while the run was in the very epoch and round of that last
    vote: votes of an earlier round do not count. *)
Theorem conviction_needs_quorum {H : HashFns} {T : TokenProgram}
    space n disc b cb ix rk vt ik ck mint ma ja rid ver ts w0 h c w w' target v' :
  run_create space n disc (mkAccount 0 zeroed_state 0) b cb ix rk vt ik ck mint ma ja rid ver ts
    = Ok w0 → rk ≠ Pubkey_default → world_history w0 h w → run_tcall c w = (Ok tt, w') →
  (∀ v, w_verdicts w !! target = Some v → v_status v = Voting) →
  w_verdicts w' !! target = Some v' → v_status v' ≠ Voting →
  let co := coordinator (acc_state (w_coordinator w)) in
  ∃ verifier index sel seat_ pt round,
    client_position verifier w = Some index ∧
    w_participants w !! verifier = Some pt ∧ r_bond_minimum_amount (w_run w) <= bond_amount pt ∧
    from_coordinator_with_tie_breakers co 0 (r_tie_breaker_committee_size (w_run w)) = Ok sel ∧
    get_committee (E:=TreasurerError) sel (Z.of_nat index) = Ok seat_ ∧
    cp_committee seat_ = Verifier ∧
    current_round co = Some round ∧ v_epoch v' = epoch (progress co) ∧
    v_round_height v' = height round ∧
    verifier ∈ voters v' ∧ NoDup (voters v') ∧ 2 <= zlen (voters v') ∧
    2 * verifier_nodes sel <= 3 * zlen (voters v') ∧
    ∀ k, k ∈ voters v' → voted (h ++ [(w, c)]) target k (epoch (progress co)) (height round) (v_evidence v').
Proof.
  intros Hc Hrk Hh Hrun Hvot Hv' Hst co.
  assert (Hemp : w_verdicts w0 = ∅) by by apply run_create_wf in Hc as (_ & _ & ?).
  eapply created_verdicts in Hc; [|done].
  destruct (history_backed w0 _ w' Hc Hemp (wh_call _ _ _ _ _ _ Hh Hrun)) as [_ Hb'].
  destruct (history_backed w0 _ w Hc Hemp Hh) as [Hw _].
  destruct (quorum_vote c w w' target v' Hw Hrun Hvot Hv' Hst)
    as (vf & index & sel & p & pt & rd & Hi & Hpt & Hbd & Hsel & Hp & Hcm & Hr & He & Hht & Hin & Hn & H2 & H3).
  exists vf, index, sel, p, pt, rd. split_and!; try done.
  intros k Hk. fold co in He. rewrite <- He, <- Hht. by apply Hb'.
Qed.

Lemma conviction_needs_quorum_witness :
  ∃ v' h, w_verdicts Court.convicted !! Court.who 23 = Some v' ∧ v_status v' = SlashPending ∧
  let w := Vault.send (Court.vote 21 23 2) Court.training in
  let co := coordinator (acc_state (w_coordinator w)) in
  @world_history zero_hashes spl_tokens Vault.start h w ∧
  ∃ verifier index sel seat_ pt round,
    client_position verifier w = Some index ∧
    w_participants w !! verifier = Some pt ∧ r_bond_minimum_amount (w_run w) <= bond_amount pt ∧
    @from_coordinator_with_tie_breakers zero_hashes co 0 (r_tie_breaker_committee_size (w_run w)) = Ok sel ∧
    @get_committee zero_hashes sel TreasurerError (Z.of_nat index) = Ok seat_ ∧
    cp_committee seat_ = Verifier ∧
    current_round co = Some round ∧ v_epoch v' = epoch (progress co) ∧
    v_round_height v' = height round ∧
    verifier ∈ voters v' ∧ NoDup (voters v') ∧ 2 <= zlen (voters v') ∧
    2 * verifier_nodes sel <= 3 * zlen (voters v') ∧
    ∀ k, k ∈ voters v' → @voted zero_hashes (h ++ [(w, Court.vote 22 23 2)]) (Court.who 23) k
      (epoch (progress co)) (height round) (v_evidence v').
Proof.
  destruct (w_verdicts Court.convicted !! Court.who 23) as [v'|] eqn:Hv; [|exfalso; vm_compute in Hv; discriminate].
  destruct (reachable_history (H:=zero_hashes) (T:=spl_tokens) _ _ court_voted_reachable) as [h Hh].
  exists v', h. split; [reflexivity|].
  assert (Hs : v_status v' = SlashPending).
  { assert (Hm : v_status <$> w_verdicts Court.convicted !! Court.who 23 = Some SlashPending)
      by (vm_compute; reflexivity). rewrite Hv in Hm. by injection Hm. }
  split; [exact Hs|]. split; [exact Hh|].
  refine (@conviction_needs_quorum zero_hashes spl_tokens 10 10 [0; 0] 1 1 0
    Vault.run_key Vault.vault Vault.ikey Vault.ckey Vault.mint Vault.boss Vault.boss [114] [] Vault.wallets
    Vault.start h (Court.vote 22 23 2)
    (Vault.send (Court.vote 21 23 2) Court.training) Court.convicted (Court.who 23) v' vault_start _ Hh _ _ Hv _).
  - vm_compute. discriminate.
  - vm_compute. reflexivity.
  - intros v Hv0. apply (f_equal (fmap v_status)) in Hv0.
    enough (Hm : Some Voting = Some (v_status v)) by congruence.
    change (Some (v_status v)) with (v_status <$> Some v). rewrite <-Hv0. vm_compute. reflexivity.
  - by rewrite Hs.
Defined.

(** *** Ejections *)

Notation epoch_of w := (epoch_state (coordinator (acc_state (w_coordinator w)))).

Definition no_eject (w w' : World) : Prop :=
  no_new_ejection (coordinator (acc_state (w_coordinator w)))
    (coordinator (acc_state (w_coordinator w'))).
#[export] Instance no_eject_preorder : PreOrder no_eject.
Proof. unfold no_eject. split; [by intros w i|]. intros a b c Hab Hbc i Hi. by apply Hab, Hbc. Qed.

Section Ejections.
Context {H : HashFns} {T : TokenProgram}.

Definition coord_no_eject (s s' : InstanceState) : Prop :=
  no_new_ejection (coordinator s) (coordinator s').
#[local] Instance coord_no_eject_preorder : PreOrder coord_no_eject.
Proof. unfold coord_no_eject. split; [by intros w i|]. intros a b c Hab Hbc i Hi. by apply Hab, Hbc. Qed.

Lemma coord_framed {A} (m : CM A) : respects no_new_ejection m → respects coord_no_eject (coord m).
Proof.
  intros Hm s a s' Hrun. unfold coord in Hrun. apply zoom_Ok in Hrun as (c & Hc & ->). by eapply Hm.
Qed.

(** Every body but the slash. *)
Lemma body_no_eject user clock i : (∀ x, i ≠ ISlashClient x) →
  respects coord_no_eject (body user clock i).
Proof.
  intros Hi.
  assert (Ht : respects coord_no_eject (inst_tick clock)).
  { intros s u s' Hrun. by apply tick_terms in Hrun as (_ & _ & _ & _ & _ & ?). }
  destruct i; cbn [body]; try (exfalso; by eapply Hi).
  - unfold inst_update. frame_step; apply respects_modify; by intros s k.
  - apply respects_modify. by intros s k.
  - apply respects_modify. by intros s k.
  - intros s u s' Hrun. by apply join_terms in Hrun as (_ & _ & _ & _ & _ & ?).
  - unfold inst_set_paused, bump_next_active.
    frame_step; first [apply coord_framed; frame_step | apply respects_modify; by intros s k].
  - exact Ht.
  - unfold inst_witness. frame_step. apply coord_framed. frame_step.
  - unfold inst_warmup_witness. frame_step. apply coord_framed. frame_step.
  - unfold inst_health_check. frame_step. apply coord_framed. frame_step.
  - unfold inst_checkpoint. frame_step; apply coord_framed; frame_step.
Qed.

Lemma cpi_no_eject inst key user clock i : (∀ x, i ≠ ISlashClient x) →
  respects no_eject (cpi (execute inst key user clock i)).
Proof.
  intros Hi w u w' Hrun. unfold cpi in Hrun. apply zoom_Ok in Hrun as (a & Ha & ->).
  apply execute_body in Ha as (Hb & _). by apply (body_no_eject user clock i Hi) in Hb.
Qed.

(** The run's slash ejects at most the client at the index. *)
Lemma slash_ejects index w u w' i : slash index w = (Ok u, w') →
  ejected_in (epoch_of w') i →
  ejected_in (epoch_of w) i ∨ ∃ c, znth (epoch_clients w) index = Some c ∧ id c = i.
Proof.
  intros Hrun. unfold slash in Hrun. rewrite bind_self in Hrun. unfold cpi in Hrun.
  apply zoom_Ok in Hrun as (a & Ha & ->).
  apply (execute_body _ _ _ (mkClock 0 0) (ISlashClient index)) in Ha as (Hb & _).
  cbn [body] in Hb. unfold inst_slash, coord in Hb. apply zoom_Ok in Hb as (c & Hc & E). simpl. rewrite E.
  simpl. unfold eject in Hc. rewrite bind_self in Hc. unfold epoch_clients.
  set (co := coordinator (acc_state (w_coordinator w))) in *.
  destruct (znth (clients (epoch_state co)) index) as [x|] eqn:Hx; [|done].
  destruct (_ || _); [|done]. unfold set_client_state in Hc. apply modify_Ok in Hc as ->.
  intros (y & Hy & Hs & Hi). simpl in Hy. rewrite elem_of_app in Hy.
  destruct Hy as [Hy|Hy]; [|left; exists y; rewrite elem_of_app; auto].
  apply list_elem_of_lookup in Hy as [j Hj]. apply znth_lookup in Hx as Hx'.
  destruct (decide (j = Z.to_nat index)) as [->|Hne].
  - rewrite list_lookup_alter_eq, Hx' in Hj. injection Hj as <-. right. by exists x.
  - rewrite list_lookup_alter_ne in Hj by done. left. exists y. rewrite elem_of_app.
    split; [left; by eapply list_elem_of_lookup_2|done].
Qed.

(** After [set_verdict], which keeps the epoch, the slash ejects the target. *)
Lemma verdict_slash_ejects index t v w u w' i c :
  slash index (set_verdict t v w) = (Ok u, w') → znth (epoch_clients w) index = Some c →
  ejected_in (epoch_of w') i → ¬ ejected_in (epoch_of w) i →
  signer i = signer (id c) ∧ w_verdicts w' !! t = Some v.
Proof.
  intros Hrun Hc Hej Hnot. assert (Hs := Hrun). apply slash_one in Hs as [_ E].
  destruct (slash_ejects _ _ _ _ _ Hrun Hej) as [?|(x & Hx & <-)]; [done|].
  change (epoch_clients (set_verdict t v w)) with (epoch_clients w) in Hx.
  split; [congruence|]. rewrite E. apply lookup_insert_eq.
Qed.

Lemma submit_ejects clock vf ik ak b t ev w u w' i :
  run_submit_audit_verdict clock vf ik ak b t ev w = (Ok u, w') →
  ejected_in (epoch_of w') i → ¬ ejected_in (epoch_of w) i →
  ∃ v, w_verdicts w' !! signer i = Some v ∧ v_status v = Upheld.
Proof.
  unfold run_submit_audit_verdict. intros Hrun Hej Hnot.
  apply M_bind_Ok in Hrun as (? & ? & [-> _]%coordinator_accounts_are_Ok & Hrun).
  apply M_bind_Ok in Hrun as (? & ? & [-> _]%bond_at_least_Ok & Hrun).
  apply M_bind_Ok in Hrun as (sel & ? & [-> _]%seat_Ok & Hrun).
  apply M_bind_Ok in Hrun as (? & ? & (-> & c & Hc & Ht)%target_at_Ok & Hrun).
  apply M_bind_Ok in Hrun as (q & ? & [_ ->]%lift_Ok & Hrun). rewrite bind_self in Hrun.
  apply M_bind_Ok in Hrun as (rd & ? & [_ ->]%lift_Ok & Hrun).
  apply M_bind_Ok in Hrun as (v0 & ? & [_ ->]%lift_Ok & Hrun).
  apply M_bind_Ok in Hrun as (v & ? & [_ ->]%lift_Ok & Hrun).
  destruct (q <=? _); [destruct (0 <? _)|]; try by apply modify_Ok in Hrun as ->.
  rewrite bind_modify in Hrun. eapply verdict_slash_ejects in Hrun as [Hi Hv]; [|done..].
  rewrite Hi, Ht. eauto.
Qed.

Lemma appeal_ejects a ik ak t x o w u w' i :
  run_submit_appeal_verdict a ik ak t x o w = (Ok u, w') →
  ejected_in (epoch_of w') i → ¬ ejected_in (epoch_of w) i →
  ∃ v, w_verdicts w' !! signer i = Some v ∧ v_status v = Upheld.
Proof.
  unfold run_submit_appeal_verdict. intros Hrun Hej Hnot.
  apply M_bind_Ok in Hrun as (? & ? & [-> _]%coordinator_accounts_are_Ok & Hrun). rewrite bind_self in Hrun.
  apply M_bind_Ok in Hrun as (v0 & ? & [-> _]%existing_Ok & Hrun).
  apply M_bind_Ok in Hrun as (? & ? & [-> _]%bond_at_least_Ok & Hrun).
  apply M_bind_Ok in Hrun as (sel & ? & [-> _]%seat_Ok & Hrun).
  apply M_bind_Ok in Hrun as (? & ? & (-> & c & Hc & Ht)%target_at_Ok & Hrun).
  apply M_bind_Ok in Hrun as (q & ? & [_ ->]%lift_Ok & Hrun).
  apply M_bind_Ok in Hrun as (? & ? & [_ ->]%throw_if_Ok & Hrun).
  apply M_bind_Ok in Hrun as (v & ? & [_ ->]%lift_Ok & Hrun).
  destruct (q <=? _); [|destruct (q <=? _)]; try by apply modify_Ok in Hrun as ->.
  rewrite bind_modify in Hrun. eapply verdict_slash_ejects in Hrun as [Hi Hv]; [|done..].
  rewrite Hi, Ht. eauto.
Qed.

Lemma finalize_ejects clock ik ak t x w u w' i : verdicts_wf w →
  run_finalize_slash clock ik ak t x w = (Ok u, w') →
  ejected_in (epoch_of w') i → ¬ ejected_in (epoch_of w) i →
  ∃ v, w_verdicts w' !! signer i = Some v ∧ v_status v = Upheld.
Proof.
  unfold run_finalize_slash. intros [_ Hwf] Hrun Hej Hnot.
  apply M_bind_Ok in Hrun as (? & ? & [-> _]%coordinator_accounts_are_Ok & Hrun). rewrite bind_self in Hrun.
  apply M_bind_Ok in Hrun as (v & ? & [-> Hv]%existing_Ok & Hrun).
  apply M_bind_Ok in Hrun as (? & ? & [_ ->]%lift_Ok & Hrun). rewrite bind_modify in Hrun.
  apply M_bind_Ok in Hrun as (? & ? & (-> & c & Hc & Ht)%target_at_Ok & Hrun).
  eapply verdict_slash_ejects in Hrun as [Hi Hv']; [|done..].
  assert (v_target v = t) as Etv by apply (Hwf t v Hv). rewrite Hi, Ht, Etv. eauto.
Qed.

Lemma losing_ejects ik ak t n w u w' i :
  run_slash_losing_verifier ik ak t n w = (Ok u, w') →
  ejected_in (epoch_of w') i → ¬ ejected_in (epoch_of w) i →
  ∃ t v, w_verdicts w' !! t = Some v ∧ v_status v = Overturned ∧ signer i ∈ voters v.
Proof.
  unfold run_slash_losing_verifier. intros Hrun Hej Hnot.
  apply M_bind_Ok in Hrun as (? & ? & [-> _]%coordinator_accounts_are_Ok & Hrun). rewrite bind_self in Hrun.
  apply M_bind_Ok in Hrun as (v & ? & [-> Hv]%existing_Ok & Hrun).
  apply M_bind_Ok in Hrun as (? & ? & [Hst ->]%throw_if_Ok & Hrun).
  apply M_bind_Ok in Hrun as (? & ? & [_ ->]%throw_if_Ok & Hrun).
  apply M_bind_Ok in Hrun as (? & ? & [_ ->]%throw_if_Ok & Hrun).
  apply M_bind_Ok in Hrun as (loser & ? & [Hl%unwrap_Ok ->]%lift_Ok & Hrun).
  apply M_bind_Ok in Hrun as (ix & ? & [Hix%ok_or_Ok ->]%lift_Ok & Hrun).
  apply M_bind_Ok in Hrun as (cl & ? & [Hcl%unwrap_Ok ->]%lift_Ok & Hrun).
  apply M_bind_Ok in Hrun as (? & ? & [_ ->]%throw_if_Ok & Hrun).
  apply M_bind_Ok in Hrun as (k & ? & [_ ->]%lift_Ok & Hrun). bool_prop.
  rewrite bind_modify in Hrun.
  assert (Hz : znth (epoch_clients w) (Z.of_nat ix) = Some cl).
  { unfold znth. rewrite (proj2 (Z.ltb_ge _ _)) by lia. by rewrite Nat2Z.id. }
  eapply verdict_slash_ejects in Hrun as [Hi Hv']; [|done..].
  exists t. eexists. split; [exact Hv'|]. split; [done|]. simpl. rewrite Hi.
  unfold client_position in Hix. destruct (list_find _ _) as [[j y]|] eqn:Hf; [|done].
  injection Hix as ->. apply list_find_Some in Hf as (Hy & Hs & _).
  assert (y = cl) as -> by congruence. rewrite Hs. unfold znth in Hl.
  destruct (_ <? 0); [done|]. by eapply list_elem_of_lookup_2.
Qed.

(** Calls that do not reach [slash]. *)
Definition may_eject (c : tcall) : bool :=
  match c with
  | TRunSlash _ _ _ _ | TSubmitAuditVerdict _ _ _ _ _ _ _ | TSubmitAppealVerdict _ _ _ _ _ _
  | TFinalizeSlash _ _ _ _ _ | TSlashLosingVerifier _ _ _ _ => true
  | _ => false
  end.

Lemma transfer_no_eject from to au n : respects no_eject (transfer from to au n).
Proof. by intros w u w' (ts & _ & ->)%transfer_Ok i. Qed.
#[local] Hint Resolve transfer_no_eject existing_same : frames.

Lemma pay_bounty_no_eject u ap rem b : respects no_eject (pay_bounty u ap rem b).
Proof. unfold pay_bounty, pay_reporter, pay_voter. frame_step. Qed.
#[local] Hint Resolve pay_bounty_no_eject : frames.

Lemma call_no_eject c w u w' : may_eject c = false → main_authority (w_instance w) = w_run_key w →
  call_user c ≠ Some (w_run_key w) → run_tcall c w = (Ok u, w') → no_eject w w'.
Proof.
  intros Hm Hinst Hu Hrun.
  assert (Hone : ∀ m : TM unit, respects no_eject m → m w = (Ok u, w') → no_eject w w')
    by (intros m Hr Hw; by eapply Hr).
  destruct c; try done; cbn [run_tcall call_user] in *.
  all: try (refine (Hone _ _ Hrun); clear; unfold run_set_slash_bounty, run_bond_config_update,
    run_set_challenge_config, participant_create, participant_bond_deposit,
    participant_bond_request_withdraw, participant_bond_finalize_withdraw, participant_claim,
    participant_authorize_join, run_open_challenge, main_authority_is, coordinator_account_is,
    coordinator_version, user_token, bond_at_least_minimum;
    frame_step; apply respects_modify; by intros ? ?).
  - refine (Hone _ _ Hrun). clear.
    unfold run_update, main_authority_is, coordinator_accounts_are, coordinator_account_is. frame_step.
    + by apply (cpi_no_eject _ _ _ clock (IUpdate md cfg mdl prog)).
    + by apply (cpi_no_eject _ _ _ clock (ISetFutureEpochRates earning slashing)).
    + by apply (cpi_no_eject _ _ _ clock (ISetPaused _)).
    + by apply (cpi_no_eject _ _ _ clock (IUpdateClientVersion _)).
  - rewrite bind_self in Hrun. unfold cpi in Hrun. apply zoom_Ok in Hrun as (a & Ha & ->).
    apply execute_body in Ha as (Hb & _ & _ & Hal).
    apply (body_terms (w_instance w) user clock i Hal) in Hb; [|congruence].
    by destruct Hb as (_ & _ & _ & _ & _ & ?).
Qed.

End Ejections.

(** C6: while the run's address is the coordinator's main authority, a call turns a
    client into an ejected one only if it is a slash by the run's main authority, or the
    client's key is the target of a verdict that is upheld, or it is a verifier of a
    verdict that was overturned. *)
Theorem ejection_needs_conviction {H : HashFns} {T : TokenProgram} c w w' i :
  verdicts_wf w → main_authority (w_instance w) = w_run_key w →
  call_user c ≠ Some (w_run_key w) → run_tcall c w = (Ok tt, w') →
  ejected_in (epoch_of w') i → ¬ ejected_in (epoch_of w) i →
  (∃ ik ak x, c = TRunSlash (r_main_authority (w_run w)) ik ak x) ∨
  (∃ v, w_verdicts w' !! signer i = Some v ∧ v_status v = Upheld) ∨
  (∃ t v, w_verdicts w' !! t = Some v ∧ v_status v = Overturned ∧ signer i ∈ voters v).
Proof.
  intros Hw Hinst Hu Hrun Hej Hnot. destruct (may_eject c) eqn:Hm.
  2: { exfalso. apply Hnot. eapply call_no_eject in Hrun; [|done..]. by apply Hrun. }
  destruct c; try done; cbn [run_tcall] in Hrun.
  - left. unfold run_slash in Hrun.
    apply M_bind_Ok in Hrun as (? & ? & [_ ->]%main_authority_is_Ok & _). eauto.
  - right; left. by eapply submit_ejects.
  - right; left. by eapply appeal_ejects.
  - right; left. by eapply finalize_ejects.
  - right; right. by eapply losing_ejects.
Qed.

Lemma court_waiting_wf : verdicts_wf Court.waiting.
Proof.
  assert (H0 := vault_start). eapply created_verdicts in H0; [|vm_compute; discriminate].
  apply (reachable_verdicts (H:=zero_hashes) (T:=spl_tokens) Vault.start); [done|].
  unfold Court.waiting, Vault.sends, Vault.send.
  apply (sends_reachable (H:=zero_hashes) (T:=spl_tokens)); [|exact court_reachable].
  unfold Court.round. cbn [app].
  repeat (apply Forall_cons_2; [split; [vm_compute; exact I|vm_compute; discriminate]|]).
  apply Forall_nil_2.
Qed.

Lemma ejection_needs_conviction_witness :
  let i := from_single_key (Court.who 23) in
  (∃ ik ak x, Court.finalize = TRunSlash (r_main_authority (w_run Court.waiting)) ik ak x) ∨
  (∃ v, w_verdicts Court.finalized !! signer i = Some v ∧ v_status v = Upheld) ∨
  (∃ t v, w_verdicts Court.finalized !! t = Some v ∧ v_status v = Overturned ∧ signer i ∈ voters v).
Proof.
  refine (@ejection_needs_conviction zero_hashes spl_tokens Court.finalize Court.waiting
    Court.finalized (from_single_key (Court.who 23)) court_waiting_wf _ _ _ _ _).
  - vm_compute. reflexivity.
  - vm_compute. discriminate.
  - vm_compute. reflexivity.
  - eexists (mkClient (from_single_key (Court.who 23)) Ejected 0). split; [|by split].
    apply (list_elem_of_lookup_2 _ 2%nat). vm_compute. reflexivity.
  - intros (x & Hx & Hs & _). revert Hs.
    assert (Hall : Forall (λ x, state x ≠ Ejected)
      (clients (epoch_of Court.waiting) ++ exited_clients (epoch_of Court.waiting))).
    { apply (bool_decide_eq_true_1 _). vm_compute. reflexivity. }
    rewrite list.Forall_forall in Hall. by apply Hall.
Defined.

(** A conviction carried out between two epochs costs nothing.  Anybody may finalise a
    slash, also while the run waits for members; the verdict is then upheld and cannot be
    finalised again, but when the next epoch starts the target's charges are what they
    were, and nobody is ejected. *)
Theorem conviction_between_epochs_is_lost {H : HashFns} {T : TokenProgram}
    clock ik ak target index w w1 user clock' w2 :
  run_state (coordinator (acc_state (w_coordinator w))) = WaitingForMembers →
  run_finalize_slash clock ik ak target index w = (Ok tt, w1) →
  run_tcall (TCoordinator user clock' ITick) w1 = (Ok tt, w2) →
  run_state (coordinator (acc_state (w_coordinator w2))) = Warmup →
  slashed_of target w2 = slashed_of target w ∧
  (∀ i, ¬ ejected_in (epoch_of w2) i) ∧
  ∀ clk ik' ak' x w3, run_finalize_slash clk ik' ak' target x w2 ≠ (Ok tt, w3).
Proof.
  intros Hs (v & Hv & _ & Hsl)%finalize_slash_Ok Ht Hw.
  cbn [run_tcall] in Ht. rewrite bind_self in Ht.
  unfold slash in Hsl. rewrite bind_self in Hsl. unfold cpi in Hsl, Ht.
  apply zoom_Ok in Hsl as (a1 & Ha1 & ->). apply zoom_Ok in Ht as (a2 & Ha2 & ->).
  apply (execute_body _ _ _ (mkClock 0 0) (ISlashClient index)) in Ha1 as (Hb1 & _).
  apply execute_body in Ha2 as (Hb2 & _). cbn [body] in *. simpl in *.
  destruct (slash_waiting_lost index clock' (acc_state (w_coordinator w)) (acc_state a1) (acc_state a2))
    as [Em He]; [done..|].
  split; [|split; [exact He|]].
  - unfold slashed_of, member_of. simpl. by rewrite Em.
  - intros clk ik' ak' x w3 (v' & Hv' & Hm & _)%finalize_slash_Ok. simpl in Hv'.
    rewrite lookup_insert_eq in Hv'. by injection Hv' as <-.
Qed.

Lemma conviction_between_epochs_is_lost_witness :
  (v_status <$> w_verdicts Court.waiting !! Court.who 23) = Some SlashPending ∧
  slashed_of (Court.who 23) Court.next_epoch = slashed_of (Court.who 23) Court.waiting ∧
  (∀ i, ¬ ejected_in (epoch_of Court.next_epoch) i) ∧
  ∀ clk ik' ak' x w3,
    @run_finalize_slash clk ik' ak' (Court.who 23) x Court.next_epoch ≠ (Ok tt, w3).
Proof.
  split; [vm_compute; reflexivity|].
  refine (@conviction_between_epochs_is_lost zero_hashes spl_tokens (Vault.at_ 190) Vault.ikey
    Vault.ckey (Court.who 23) 2 Court.waiting Court.finalized (Court.who 21) (Vault.at_ 191)
    Court.next_epoch _ _ _ _); vm_compute; reflexivity.
Defined.
