(* ===== verification/DataSelection.v ===== *)
(** * Data and audit selection

    src/shared/coordinator/src/data_selection.rs, which deals the batches of a round to
    its trainers, and audit_selection.rs, which draws for each verifier the batch it
    replays.  A [BTreeMap<BatchId, _>] is an association list kept in the derived
    order of [BatchId]. *)

From stdpp Require Import base tactics list numbers strings.
From S2P Require Import Prelude CoreTypes Hashing Shuffle CoordinatorState Committee.
From S2P Require Import Coordinator CoordinatorTotal CoordinatorThms.

Open Scope Z_scope.

(** ** Ordered maps *)
Fixpoint btree_insert {V} (k : BatchId) (v : V) (m : list (BatchId * V)) : list (BatchId * V) :=
  match m with
  | [] => [(k, v)]
  | (k', v') :: m' =>
      if batch_ltb k k' then (k, v) :: m
      else if batch_ltb k' k then (k', v') :: btree_insert k v m'
      else (k, v) :: m'
  end.

Section Selection.
Context {H : HashFns}.

(** The clients with a trainer seat, in client order. *)
Fixpoint trainers_from {E} (sel : CommitteeSelection) (i : Z) (cl : list Client) :
    res E (list Client) :=
  match cl with
  | [] => Ok []
  | c :: cl' =>
      p ← get_committee sel i;
      rest ← trainers_from sel (i + 1) cl';
      Ok (match cp_committee p with
          | Trainer => c :: rest
          | Verifier | TieBreaker => rest
          end)
  end.

(** The loop that deals consecutive intervals to the shuffled trainers. *)
Fixpoint assign_loop {E} (base remainder i current_index : Z) (nodes : list Client)
    (assignments : list (BatchId * NodeIdentity)) : res E (list (BatchId * NodeIdentity)) :=
  match nodes with
  | [] => Ok assignments
  | node :: nodes' =>
      node_batch_size ← uadd u64_max base (if i <? remainder then 1 else 0);
      if 0 <? node_batch_size then
        after ← uadd u64_max current_index node_batch_size;
        end_index ← usub after 1;
        b ← ClosedInterval_new current_index end_index;
        next ← uadd u64_max end_index 1;
        assign_loop base remainder (i + 1) next nodes' (btree_insert b (id node) assignments)
      else assign_loop base remainder (i + 1) current_index nodes' assignments
  end.

Definition assign_data_for_state {E} (c : Coordinator) (sel : CommitteeSelection) :
    res E (list (BatchId * NodeIdentity)) :=
  round ← unwrap (current_round c);
  trainer_nodes ← trainers_from sel 0 (clients (epoch_state c));
  if bool_decide (trainer_nodes = []) then Ok []
  else
    shuffled_nodes ← deterministic_shuffle trainer_nodes (random_seed round);
    total_size ← get_target_global_batch_size c (current_round c);
    let num_trainers := zlen shuffled_nodes in
    assign_loop (total_size / num_trainers) (total_size mod num_trainers) 0 (data_index round)
      shuffled_nodes [].

Fixpoint batch_ids_loop {E} (base remainder end_ : Z) (indices : list Z) (current : Z) :
    res E (list BatchId) :=
  match indices with
  | [] => Ok []
  | i :: indices' =>
      node_size ← uadd u64_max base (if i <? remainder then 1 else 0);
      if 0 <? node_size then
        after ← uadd u64_max current node_size;
        batch_end ← usub after 1;
        b ← ClosedInterval_new current batch_end;
        next ← uadd u64_max batch_end 1;
        if end_ <=? next then Ok [b]
        else rest ← batch_ids_loop base remainder end_ indices' next; Ok (b :: rest)
      else batch_ids_loop base remainder end_ indices' current
  end.

Definition get_batch_ids_for_round {E} (round : Round) (c : Coordinator) (num_trainer_nodes : Z) :
    res E (list BatchId) :=
  let start := data_index round in
  total_size ← get_target_global_batch_size c (Some round);
  end_ ← uadd u64_max start total_size;
  res_assert (negb (num_trainer_nodes =? 0)) ;;
  batch_ids_loop (total_size / num_trainer_nodes) (total_size mod num_trainer_nodes) end_
    (seqZ 0 num_trainer_nodes) start.

Definition get_batch_ids_for_node (tree : list (BatchId * NodeIdentity)) (node : NodeIdentity) :
    list BatchId :=
  omap (λ '(interval, assigned), if id_eqb assigned node then Some interval else None) tree.

(** [for _ in 1..target_step]. *)
Fixpoint data_index_loop {E} (cfg : CoordinatorConfig) (max_seq_len : Z) (n : nat)
    (current_data_index : Z) : res E Z :=
  match n with
  | O => Ok current_data_index
  | S n' =>
      tokens ← umul u64_max current_data_index max_seq_len;
      next ← uadd u64_max current_data_index (get_batch_size cfg tokens);
      data_index_loop cfg max_seq_len n' next
  end.

Definition get_data_index_for_step {E} (c : Coordinator) (target_step : Z) : res E Z :=
  if (target_step <=? 1) || (total_steps (config c) <? target_step) then Ok 0
  else data_index_loop (config c) (get_sequence_length c) (Z.to_nat (target_step - 1)) 0.

(** ** Audits *)
Definition AUDIT_SALT : string := "audit".

Record AuditAssignment := mkAudit {
  au_verifier : NodeIdentity;
  au_verifier_index : Z;
  au_target : NodeIdentity;
  au_batch_id : BatchId
}.

Definition audit_pick (seed : list Z) (index n : Z) : Z :=
  let digest := sha256v [seed; as_bytes AUDIT_SALT; to_le_bytes 8 index] in
  from_le_bytes (take 8 digest) mod n.

Fixpoint audits_from {E} (sel : CommitteeSelection) (targets : list (BatchId * NodeIdentity))
    (index : Z) (cl : list Client) : res E (list AuditAssignment) :=
  match cl with
  | [] => Ok []
  | client :: cl' =>
      p ← get_committee sel index;
      match cp_committee p with
      | Verifier =>
          '(batch_id, target) ← unwrap (znth targets (audit_pick (sel_seed sel) index (zlen targets)));
          rest ← audits_from sel targets (index + 1) cl';
          Ok (mkAudit (id client) index target batch_id :: rest)
      | _ => audits_from sel targets (index + 1) cl'
      end
  end.

Definition select_audits {E} (sel : CommitteeSelection) (cl : list Client)
    (assignments : list (BatchId * NodeIdentity)) : res E (list AuditAssignment) :=
  if bool_decide (assignments = []) then Ok []
  else audits_from sel assignments 0 cl.

Definition select_audits_for_current_round (c : Coordinator) (tie_breaker_nodes : Z) :
    res CoordinatorError (list AuditAssignment) :=
  sel ← from_coordinator_with_tie_breakers c 0 tie_breaker_nodes;
  assignments ← assign_data_for_state c sel;
  select_audits sel (clients (epoch_state c)) assignments.

End Selection.

(** ** Dealing intervals *)

Definition node_size (base remainder i : Z) : Z := base + if i <? remainder then 1 else 0.

(** The intervals of consecutive sizes from [cur] on, skipping empty ones. *)
Fixpoint deal {A} (base remainder i cur : Z) (nodes : list A) : list (BatchId * A) :=
  match nodes with
  | [] => []
  | a :: nodes' =>
      let s := node_size base remainder i in
      if 0 <? s then (mkClosedInterval cur (cur + s - 1), a) :: deal base remainder (i + 1) (cur + s) nodes'
      else deal base remainder (i + 1) cur nodes'
  end.

(** What nodes [i], [i+1], ... get together. *)
Definition dealt (base remainder i n : Z) : Z := base * n + (Z.min remainder (i + n) - Z.min remainder i).

Lemma dealt_step base rem i n : 0 <= n →
  dealt base rem i (n + 1) = node_size base rem i + dealt base rem (i + 1) n.
Proof. unfold dealt, node_size. destruct (Z.ltb_spec i rem); lia. Qed.

Lemma dealt_nonneg base rem i n : 0 <= base → 0 <= n → 0 <= dealt base rem i n.
Proof. unfold dealt. intros. nia. Qed.

Section Deal.
Context (base rem : Z) (Hbase : 0 <= base).

Lemma zlen_cons {A} (a : A) l : zlen (a :: l) = zlen l + 1.
Proof. unfold zlen. cbn [length]. lia. Qed.

Lemma node_size_nonneg i : 0 <= node_size base rem i.
Proof. unfold node_size. destruct (i <? rem); lia. Qed.

(** The intervals are consecutive and cover exactly what is dealt. *)
Lemma deal_covers {A} i cur (nodes : list A) :
  concat (batch_iter <$> (deal base rem i cur nodes).*1) = seqZ cur (dealt base rem i (zlen nodes)).
Proof.
  revert i cur. induction nodes as [|a nodes IH]; intros i cur.
  { cbn [deal]. replace (dealt base rem i (zlen [])) with 0; [done|]. unfold dealt, zlen. simpl. lia. }
  rewrite zlen_cons, dealt_step by apply zlen_nonneg. cbn [deal].
  assert (Hs := node_size_nonneg i). set (s := node_size base rem i) in *.
  assert (Hd := dealt_nonneg base rem (i + 1) (zlen nodes) Hbase (zlen_nonneg _)).
  destruct (Z.ltb_spec 0 s) as [Hpos|Hz].
  - rewrite !fmap_cons. cbn [fst concat]. rewrite IH. unfold batch_iter. simpl.
    replace (cur + s - 1 - cur + 1) with s by lia. by rewrite <-seqZ_app by lia.
  - rewrite IH. by replace s with 0 by lia.
Qed.

(** Every interval has one of the two sizes, and the nodes keep their order. *)
Lemma deal_sizes {A} i cur (nodes : list A) :
  Forall (λ b, start b <= end_ b ∧ cur <= start b ∧
    (end_ b - start b + 1 = base ∨ end_ b - start b + 1 = base + 1)) (deal base rem i cur nodes).*1.
Proof.
  revert i cur. induction nodes as [|a nodes IH]; intros i cur; [constructor|]. cbn [deal].
  assert (Hs := node_size_nonneg i). set (s := node_size base rem i) in *.
  destruct (Z.ltb_spec 0 s) as [Hpos|Hz]; [|apply IH]. rewrite fmap_cons. apply Forall_cons_2.
  - cbn [fst start end_]. subst s. unfold node_size in *. destruct (i <? rem); lia.
  - eapply Forall_impl; [apply IH|]. cbn beta. intros b. lia.
Qed.

Lemma deal_nodes {A} i cur (nodes : list A) : (deal base rem i cur nodes).*2 `sublist_of` nodes.
Proof.
  revert i cur. induction nodes as [|a nodes IH]; intros i cur; [constructor|]. cbn [deal].
  destruct (0 <? _); [rewrite fmap_cons; by apply sublist_skip|by apply sublist_cons].
Qed.

(** Without sizes there are no intervals. *)
Lemma deal_none {A} i cur (nodes : list A) :
  dealt base rem i (zlen nodes) = 0 → deal base rem i cur nodes = [].
Proof.
  revert i. induction nodes as [|a nodes IH]; intros i; [done|].
  rewrite zlen_cons, dealt_step by apply zlen_nonneg. intros Hd. cbn [deal].
  assert (Hs := node_size_nonneg i).
  assert (Hn := dealt_nonneg base rem (i + 1) (zlen nodes) Hbase (zlen_nonneg _)).
  rewrite (proj2 (Z.ltb_ge _ _)) by lia. apply IH. lia.
Qed.

(** The keys only depend on the number of nodes. *)
Lemma deal_keys {A B} i cur (l : list A) (l' : list B) : length l = length l' →
  (deal base rem i cur l).*1 = (deal base rem i cur l').*1.
Proof.
  revert i cur l'. induction l as [|a l IH]; intros i cur [|b l'] Hl; try done. cbn [deal].
  destruct (0 <? _); [|apply IH; simpl in Hl; lia]. rewrite !fmap_cons. cbn [fst]. f_equal.
  apply IH. simpl in Hl. lia.
Qed.

End Deal.

Section Loops.
Context {H : HashFns} (base rem : Z) (Hbase : 0 <= base < u64_max).

Lemma btree_insert_last {V} k (v : V) m : Forall (λ x, start x.1 < start k) m →
  btree_insert k v m = m ++ [(k, v)].
Proof.
  induction 1 as [|[k' v'] m Hlt _ IH]; [done|]. cbn [btree_insert fst] in *.
  unfold batch_ltb at 1 2. rewrite (proj2 (Z.ltb_ge (start k) (start k'))) by lia.
  rewrite (proj2 (Z.eqb_neq (start k) (start k'))) by lia. cbn [orb andb].
  rewrite (proj2 (Z.ltb_lt (start k') (start k))) by lia. cbn [orb]. by rewrite IH.
Qed.

(** The checked steps that cut one interval. *)
Lemma cut_run {E B} cur s (k : BatchId → Z → res E B) : 0 <= cur → 0 < s → cur + s <= u64_max →
  (after ← uadd u64_max cur s; e ← usub after 1; b ← ClosedInterval_new cur e;
   next ← uadd u64_max e 1; k b next) = k (mkClosedInterval cur (cur + s - 1)) (cur + s).
Proof.
  intros Hc Hs Hb. rewrite uadd_run by lia. cbn [mbind res_bind].
  rewrite usub_run by lia. cbn [mbind res_bind]. unfold ClosedInterval_new, res_assert.
  rewrite (proj2 (Z.leb_le _ _)) by lia. cbn [mbind res_bind].
  rewrite uadd_run by lia. cbn [mbind res_bind]. f_equal. lia.
Qed.

Lemma size_run {E B} i (k : Z → res E B) :
  (s ← uadd u64_max base (if i <? rem then 1 else 0); k s) = k (node_size base rem i).
Proof. rewrite uadd_run by (destruct (i <? rem); lia). done. Qed.

Lemma assign_loop_run {E} i cur nodes acc : 0 <= cur →
  cur + dealt base rem i (zlen nodes) <= u64_max → Forall (λ x, start x.1 < cur) acc →
  @assign_loop E base rem i cur nodes acc = Ok (acc ++ deal base rem i cur (id <$> nodes)).
Proof.
  revert i cur acc. induction nodes as [|a nodes IH]; intros i cur acc Hc Hb Hacc.
  { cbn [assign_loop fmap list_fmap deal]. by rewrite app_nil_r. }
  cbn [assign_loop]. rewrite size_run, fmap_cons. cbn [deal].
  rewrite zlen_cons, dealt_step in Hb by apply zlen_nonneg.
  assert (Hs := node_size_nonneg base rem ltac:(lia) i). set (s := node_size base rem i) in *.
  assert (Hd := dealt_nonneg base rem (i + 1) (zlen nodes) ltac:(lia) (zlen_nonneg _)).
  destruct (Z.ltb_spec 0 s) as [Hpos|Hz]; [|apply IH; [done|lia|done]].
  rewrite cut_run by lia. rewrite btree_insert_last by done. rewrite IH; [|lia..|].
  - by rewrite <-app_assoc.
  - apply Forall_app. split; [|apply Forall_cons_2; [simpl; lia|constructor]].
    eapply Forall_impl; [exact Hacc|]. simpl. intros. lia.
Qed.

(** Up to the early exit, the same loop. *)
Lemma batch_ids_loop_run {E} i cur end_ indices : 0 <= cur →
  indices = seqZ i (zlen indices) →
  cur + dealt base rem i (zlen indices) = end_ → end_ <= u64_max →
  @batch_ids_loop E base rem end_ indices cur = Ok ((deal base rem i cur indices).*1).
Proof.
  revert i cur. induction indices as [|j js IH]; intros i cur Hc Hseq Hend Hb; [done|].
  cbn [batch_ids_loop deal]. rewrite zlen_cons, dealt_step in Hend by apply zlen_nonneg.
  rewrite zlen_cons, seqZ_cons in Hseq by (assert (Hz := zlen_nonneg js); lia).
  injection Hseq as -> Hjs. replace (Z.pred (zlen js + 1)) with (zlen js) in Hjs by lia.
  rewrite size_run. assert (Hs := node_size_nonneg base rem ltac:(lia) i).
  set (s := node_size base rem i) in *.
  assert (Hd := dealt_nonneg base rem (i + 1) (zlen js) ltac:(lia) (zlen_nonneg _)).
  destruct (Z.ltb_spec 0 s) as [Hpos|Hz].
  2: { apply IH; [done|by rewrite Hjs at 1|lia|done]. }
  rewrite cut_run by lia. destruct (Z.leb_spec end_ (cur + s)) as [Hle|Hlt].
  - rewrite (deal_none base rem ltac:(lia) (i + 1)) by lia. done.
  - rewrite (IH (i + 1) (cur + s)); [done|lia|by rewrite Hjs at 1|lia|lia].
Qed.

End Loops.

(** ** Trainers *)
Section Trainers.
Context {H : HashFns} `{!HashLaws H}.

(** The clients with the role, in order, with their indices. *)
Definition with_role (sel : CommitteeSelection) (r : Committee) (i : Z) (cl : list Client) :
    list (Z * Client) :=
  filter (λ x, role_of sel x.1 = Some r) (zip (seqZ i (zlen cl)) cl).

Lemma with_role_cons sel r i c cl : with_role sel r i (c :: cl) =
  (if decide (role_of sel i = Some r) then [(i, c)] else []) ++ with_role sel r (i + 1) cl.
Proof.
  unfold with_role. rewrite zlen_cons, seqZ_cons by (assert (Hz := zlen_nonneg cl); lia).
  replace (Z.pred (zlen cl + 1)) with (zlen cl) by lia. cbn [zip_with]. rewrite filter_cons.
  cbn [fst]. change (Z.succ i) with (i + 1). by case_decide.
Qed.

Lemma with_role_elem sel r i cl j c : (j, c) ∈ with_role sel r i cl →
  role_of sel j = Some r ∧ i <= j ∧ znth cl (j - i) = Some c.
Proof.
  unfold with_role. rewrite list_elem_of_filter. intros [Hr Hz]. split; [done|].
  apply list_elem_of_lookup in Hz as [k Hk]. apply lookup_zip_with_Some in Hk as (x & y & [= -> ->] & Hx & Hy).
  apply lookup_seqZ in Hx as [-> Hlt]. split; [lia|]. unfold znth.
  rewrite (proj2 (Z.ltb_ge _ _)) by lia. by replace (Z.to_nat (i + Z.of_nat k - i)) with k by lia.
Qed.

Lemma role_of_run {E} sel i : selection_wf sel → total_nodes sel <= 2 ^ 63 →
  0 <= i < total_nodes sel →
  ∃ p, @get_committee H sel E i = Ok p ∧ role_of sel i = Some (cp_committee p).
Proof.
  intros Hwf Hn Hi. unfold role_of. rewrite !get_committee_run by done. eauto.
Qed.

Lemma trainers_from_run {E} sel i cl : selection_wf sel → total_nodes sel <= 2 ^ 63 →
  0 <= i → i + zlen cl <= total_nodes sel →
  @trainers_from H E sel i cl = Ok ((with_role sel Trainer i cl).*2).
Proof.
  intros Hwf Hn. revert i. induction cl as [|c cl IH]; intros i Hi Hlen; [done|].
  rewrite zlen_cons in Hlen. assert (Hz := zlen_nonneg cl). cbn [trainers_from].
  destruct (role_of_run (E:=E) sel i Hwf Hn) as (p & -> & Hr); [lia|].
  rewrite with_role_cons, IH by lia. cbn [mbind res_bind]. rewrite Hr.
  case_decide as Hp; [injection Hp as ->; done|]. cbn [app]. by destruct (cp_committee p).
Qed.

(** As many clients have a role as positions among the clients do. *)
Lemma with_role_length sel r cl :
  length (with_role sel r 0 cl) = length (filter (λ i, role_of sel i = Some r) (seqZ 0 (zlen cl))).
Proof.
  assert (Hg : ∀ i, length (with_role sel r i cl)
    = length (filter (λ i, role_of sel i = Some r) (seqZ i (zlen cl)))); [|apply Hg].
  induction cl as [|c cl IH]; intros i; [done|].
  rewrite with_role_cons, zlen_cons, seqZ_cons, filter_cons, length_app, IH
    by (assert (Hz := zlen_nonneg cl); lia).
  replace (Z.pred (zlen cl + 1)) with (zlen cl) by lia. change (Z.succ i) with (i + 1).
  by case_decide.
Qed.

Lemma trainer_count sel : selection_wf sel → total_nodes sel <= 2 ^ 63 →
  length (filter (λ i, role_of sel i = Some Trainer) (seqZ 0 (total_nodes sel))) =
    Z.to_nat (total_nodes sel - tie_breaker_nodes sel - verifier_nodes sel).
Proof.
  intros Hwf Hn. assert (Hw := Hwf). destruct Hw as (? & ? & ? & ? & _).
  rewrite (role_count sel Trainer (tie_breaker_nodes sel + verifier_nodes sel) (total_nodes sel));
    [f_equal; lia|done..|lia|lia|].
  intros p Hp. unfold committee_at. repeat case_match; bool_prop; split; (done || lia).
Qed.

End Trainers.

(** ** Properties of the assignment *)

(** The state of a round in which batches are dealt: types, and no overflow. *)
Definition dealing (c : Coordinator) (tb : Z) (sel : CommitteeSelection) (r : Round) : Prop :=
  config_typed (config c) ∧ 0 <= tb ∧ current_round c = Some r ∧ 0 <= data_index r ∧
  data_index r * get_sequence_length c <= u64_max ∧ data_index r + u16_max <= u64_max ∧
  zlen (clients (epoch_state c)) <= clients_len r <= u16_max.

(** The size of the round's batch. *)
Definition round_batch (c : Coordinator) (r : Round) : Z :=
  get_batch_size (config c) (data_index r * get_sequence_length c).

Section Assignment.
Context {H : HashFns} `{!HashLaws H}.
Context (c : Coordinator) (tb : Z) (sel : CommitteeSelection) (r : Round).
Context (Hdeal : dealing c tb sel r) (Hsel : from_coordinator_with_tie_breakers c 0 tb = Ok sel).

Lemma round_batch_u16 : 0 <= round_batch c r <= u16_max.
Proof. destruct Hdeal as ((_ & _ & _ & _ & _ & _ & Hu & _) & _). by apply get_batch_size_u16. Qed.

Lemma selection_facts : selection_wf sel ∧ total_nodes sel = clients_len r ∧
  total_nodes sel <= 2 ^ 63.
Proof.
  destruct Hdeal as ((_ & _ & _ & _ & _ & _ & _ & Hw & Hv) & Htb & Hr & _ & _ & _ & Hl).
  unfold from_coordinator_with_tie_breakers, round_at in Hsel. rewrite Hr in Hsel.
  cbn [mbind res_bind ok_or] in Hsel.
  apply selection_new_wf in Hsel as (Hwf & E & _); [|done|apply Hw|apply Hv].
  split; [done|]. split; [done|]. unfold u16_max in Hl. lia.
Qed.

Notation trainers := ((with_role sel Trainer 0 (clients (epoch_state c))).*2).

Lemma target_size_run {E} : @get_target_global_batch_size c E (Some r) = Ok (round_batch c r).
Proof.
  destruct Hdeal as (_ & _ & _ & _ & Hm & _). unfold get_target_global_batch_size, total_tokens_processed.
  by rewrite umul_run.
Qed.

Lemma sizes_dealt n : 0 < n →
  dealt (round_batch c r / n) (round_batch c r mod n) 0 n = round_batch c r.
Proof.
  intros Hn. unfold dealt. assert (Hm := Z.mod_pos_bound (round_batch c r) n Hn).
  assert (Hd := Z.div_mod (round_batch c r) n ltac:(lia)). lia.
Qed.

(** The assignment is the dealing over a permutation of the trainers. *)
Lemma assign_data_run {E} : ∃ order, order ≡ₚ trainers ∧
  @assign_data_for_state H E c sel = Ok (
    if bool_decide (trainers = []) then [] else
    deal (round_batch c r / zlen trainers) (round_batch c r mod zlen trainers) 0 (data_index r)
      (id <$> order)).
Proof.
  assert (Hb := round_batch_u16). destruct selection_facts as (Hwf & Hn & Hmax).
  assert (Hd := Hdeal). destruct Hd as (_ & _ & Hr & H0 & _ & Hov & Hl).
  unfold assign_data_for_state. rewrite Hr. cbn [unwrap mbind res_bind].
  rewrite trainers_from_run by (done || lia). cbn [mbind res_bind].
  case_bool_decide as Hnil; [by exists trainers|].
  destruct (deterministic_shuffle_run (E:=E) trainers (random_seed r)) as (order & -> & Hp).
  exists order. split; [done|]. cbn [mbind res_bind]. rewrite target_size_run. cbn [mbind res_bind].
  assert (zlen order = zlen trainers) as -> by (unfold zlen; by rewrite Hp).
  assert (Hpos : 0 < zlen trainers) by (unfold zlen; destruct trainers; [done|simpl; lia]).
  set (n := zlen trainers) in *. unfold u16_max, u64_max in *.
  assert (Hq : 0 <= round_batch c r / n <= round_batch c r)
    by (split; [apply Z.div_pos; lia|apply Z.div_le_upper_bound; nia]).
  rewrite assign_loop_run; [done|unfold u64_max; lia|lia| |constructor].
  replace (zlen order) with n by (unfold n, zlen; by rewrite Hp).
  rewrite sizes_dealt by done. unfold u64_max. lia.
Qed.
End Assignment.

(** C17: in a round whose numbers do not overflow, the assignment always exists; if
    there is a trainer, its batches are consecutive, disjoint, and cover exactly the
    round's data, their sizes differ by at most one, and each is held by a client with a
    trainer seat, no client of the list holding two. *)
Theorem data_assignment_partition {H : HashFns} `{!HashLaws H} c tb sel r :
  dealing c tb sel r → from_coordinator_with_tie_breakers c 0 tb = Ok sel →
  let trainers := (with_role sel Trainer 0 (clients (epoch_state c))).*2 in
  ∃ assignment order, @assign_data_for_state H unit c sel = Ok assignment ∧
    (trainers ≠ [] →
      concat (batch_iter <$> assignment.*1) = seqZ (data_index r) (round_batch c r)) ∧
    (trainers = [] → assignment = []) ∧
    (∀ b b', b ∈ assignment.*1 → b' ∈ assignment.*1 →
      end_ b - start b <= end_ b' - start b' + 1) ∧
    order ≡ₚ trainers ∧ assignment.*2 `sublist_of` (id <$> order).
Proof.
  intros Hd Hsel trainers.
  destruct (assign_data_run (E:=unit) c tb sel r Hd Hsel) as (order & Hp & Hrun).
  assert (Hb := round_batch_u16 c tb sel r Hd).
  eexists _, order. split; [exact Hrun|]. fold trainers in Hrun, Hp |- *.
  case_bool_decide as Hnil.
  { rewrite Hnil. split_and!; try done; [by intros b b' ?%elem_of_nil|by rewrite <-Hnil|apply sublist_nil_l]. }
  assert (Hpos : 0 < zlen trainers) by (unfold zlen; destruct trainers; [done|simpl; lia]).
  assert (Hq : 0 <= round_batch c r / zlen trainers) by (apply Z.div_pos; lia).
  split_and!; try done.
  - intros _. rewrite deal_covers by done. f_equal.
    replace (zlen (id <$> order)) with (zlen trainers) by (unfold zlen; by rewrite length_fmap, Hp).
    by apply sizes_dealt.
  - intros b b' Hi Hi'.
    assert (Hall := deal_sizes (round_batch c r / zlen trainers) (round_batch c r mod zlen trainers)
      Hq 0 (data_index r) (id <$> order)).
    rewrite list.Forall_forall in Hall. apply Hall in Hi, Hi'. lia.
  - apply deal_nodes.
Qed.

(** Every node can list the batches of a round from the number of trainers alone:
    while no client of the round has left, [get_batch_ids_for_round] with the
    selection's trainer count returns the keys of the assignment, in order. *)
Theorem batch_ids_agree {H : HashFns} `{!HashLaws H} c tb sel r n :
  dealing c tb sel r → from_coordinator_with_tie_breakers c 0 tb = Ok sel →
  zlen (clients (epoch_state c)) = clients_len r →
  @get_num_trainer_nodes sel unit = Ok n → 0 < n →
  ∃ assignment, @assign_data_for_state H unit c sel = Ok assignment ∧
    @get_batch_ids_for_round unit r c n = Ok (assignment.*1).
Proof.
  intros Hd Hsel Hall Hn Hpos.
  destruct (assign_data_run (E:=unit) c tb sel r Hd Hsel) as (order & Hp & Hrun).
  destruct (selection_facts c tb sel r Hd Hsel) as (Hwf & Ht & Hmax).
  assert (Hb := round_batch_u16 c tb sel r Hd).
  set (trainers := (with_role sel Trainer 0 (clients (epoch_state c))).*2) in *.
  assert (Hlen : zlen trainers = n).
  { unfold get_num_trainer_nodes in Hn. run_inv. unfold trainers, zlen.
    rewrite length_fmap, with_role_length, Hall, <-Ht, trainer_count by done. lia. }
  eexists. split; [exact Hrun|].
  rewrite bool_decide_eq_false_2 by (intros Hnil; rewrite Hnil in Hlen; unfold zlen in Hlen; simpl in Hlen; lia).
  rewrite Hlen. unfold get_batch_ids_for_round. rewrite (target_size_run c tb sel r Hd).
  cbn [mbind res_bind]. assert (Hd' := Hd). destruct Hd' as (_ & _ & _ & H0 & _ & Hov & _).
  unfold u16_max, u64_max in *. rewrite uadd_run by (unfold u64_max; lia). cbn [mbind res_bind].
  rewrite (proj2 (Z.eqb_neq _ _)) by lia. cbn [res_assert negb mbind res_bind].
  assert (Hq : 0 <= round_batch c r / n <= round_batch c r)
    by (split; [apply Z.div_pos; lia|apply Z.div_le_upper_bound; nia]).
  assert (Hz : zlen (seqZ 0 n) = n) by (unfold zlen; rewrite length_seqZ; lia).
  rewrite (batch_ids_loop_run (round_batch c r / n) (round_batch c r mod n) ltac:(unfold u64_max; lia) 0).
  - f_equal. apply deal_keys. rewrite length_fmap, length_seqZ. unfold zlen in Hlen. rewrite Hp. lia.
  - lia.
  - by rewrite Hz.
  - rewrite Hz, sizes_dealt by done. done.
  - unfold u64_max. lia.
Qed.

(** The round of the sample run: one trainer, a batch of four. *)
Definition sample_round : Round := mkRound [] 0 7 0 1 0.
Definition sample_selection : CommitteeSelection :=
  match @from_coordinator_with_tie_breakers zero_hashes Sample.training 0 0 with
  | Ok s => s
  | _ => mkSelection 0 0 0 0 []
  end.

Lemma sample_dealing : dealing Sample.training 0 sample_selection sample_round.
Proof.
  split; [repeat split; vm_compute; discriminate|].
  split; [vm_compute; discriminate|]. split; [vm_compute; reflexivity|].
  repeat split; vm_compute; discriminate.
Qed.

Lemma sample_selected :
  @from_coordinator_with_tie_breakers zero_hashes Sample.training 0 0 = Ok sample_selection.
Proof. vm_compute. reflexivity. Qed.

Lemma data_assignment_partition_witness :
  let trainers := (@with_role zero_hashes sample_selection Trainer 0
    (clients (epoch_state Sample.training))).*2 in
  ∃ assignment order,
    @assign_data_for_state zero_hashes unit Sample.training sample_selection = Ok assignment ∧
    (trainers ≠ [] → concat (batch_iter <$> assignment.*1)
      = seqZ (data_index sample_round) (round_batch Sample.training sample_round)) ∧
    (trainers = [] → assignment = []) ∧
    (∀ b b', b ∈ assignment.*1 → b' ∈ assignment.*1 →
      end_ b - start b <= end_ b' - start b' + 1) ∧
    order ≡ₚ trainers ∧ assignment.*2 `sublist_of` (id <$> order).
Proof.
  exact (@data_assignment_partition zero_hashes zero_hashes_laws Sample.training 0
    sample_selection sample_round sample_dealing sample_selected).
Defined.

Lemma batch_ids_agree_witness :
  ∃ assignment,
    @assign_data_for_state zero_hashes unit Sample.training sample_selection = Ok assignment ∧
    @get_batch_ids_for_round unit sample_round Sample.training 1 = Ok (assignment.*1).
Proof.
  refine (@batch_ids_agree zero_hashes zero_hashes_laws Sample.training 0
    sample_selection sample_round 1 sample_dealing sample_selected _ _ _); vm_compute; reflexivity.
Defined.

Example sample_assignment :
  @assign_data_for_state zero_hashes unit Sample.training sample_selection
  = Ok [(mkClosedInterval 0 3, Sample.node 1)].
Proof. vm_compute. reflexivity. Qed.
