(* ===== verification/Audits.v ===== *)
(** * Audits against the treasurer's gate

    The audits a node computes locally are the ones whose verdicts the treasurer
    accepts: both draw the committee with the run's tie-breaker count. *)

From stdpp Require Import base tactics list numbers strings gmap.
From S2P Require Import Prelude CoreTypes Hashing Shuffle CoordinatorState Committee Coordinator.
From S2P Require Import CoordinatorTotal CoordinatorThms SolanaCoordinator SolanaThms.
From S2P Require Import Treasurer TreasurerInv TreasurerThms Disputes DataSelection.

Open Scope Z_scope.

Section Audits.
Context {H : HashFns} `{!HashLaws H}.

Lemma from_le_bytes_nonneg_mod bs n : 0 < n → 0 <= from_le_bytes bs mod n < n.
Proof. intros. by apply Z.mod_pos_bound. Qed.

(** Every audit is a verifier's, about a batch of the assignment. *)
Lemma audits_from_run {E} sel targets i cl : selection_wf sel → total_nodes sel <= 2 ^ 63 →
  targets ≠ [] → 0 <= i → i + zlen cl <= total_nodes sel →
  ∃ audits, @audits_from H E sel targets i cl = Ok audits ∧
    (λ a, (au_verifier_index a, au_verifier a)) <$> audits =
      (λ x, (x.1, id x.2)) <$> with_role sel Verifier i cl ∧
    Forall (λ a, (au_batch_id a, au_target a) ∈ targets) audits.
Proof.
  intros Hwf Hn Ht. revert i. induction cl as [|c cl IH]; intros i Hi Hlen; [by exists []|].
  rewrite zlen_cons in Hlen. assert (Hz := zlen_nonneg cl). cbn [audits_from].
  destruct (role_of_run (E:=E) sel i Hwf Hn) as (p & -> & Hr); [lia|]. cbn [mbind res_bind].
  destruct (IH (i + 1)) as (rest & Hrest & Hmap & Hall); [lia..|].
  rewrite with_role_cons, Hr.
  destruct (decide (Some (cp_committee p) = Some Verifier)) as [[= Hp]|Hp].
  - rewrite Hp.
    destruct (znth_is_Some targets (audit_pick (sel_seed sel) i (zlen targets))) as ([b t] & Hpick).
    { unfold audit_pick. apply from_le_bytes_nonneg_mod. unfold zlen. destruct targets; [done|simpl; lia]. }
    rewrite Hpick. cbn [unwrap mbind res_bind]. rewrite Hrest. cbn [mbind res_bind].
    eexists. split; [reflexivity|]. cbn [app]. rewrite !fmap_cons, Hmap. split; [done|].
    apply Forall_cons_2; [|done]. simpl. apply znth_lookup in Hpick. by eapply list_elem_of_lookup_2.
  - destruct (cp_committee p); try done; rewrite Hrest; by exists rest.
Qed.

(** The position of a key among clients with distinct signers. *)
Lemma client_position_at w j c : NoDup ((λ c, signer (id c)) <$> epoch_clients w) →
  epoch_clients w !! j = Some c → client_position (signer (id c)) w = Some j.
Proof.
  intros Hn Hj. unfold client_position.
  destruct (list_find_elem_of (λ x, signer (id x) = signer (id c)) (epoch_clients w) c)
    as [[k x] Hf]; [by eapply list_elem_of_lookup_2|done|].
  rewrite Hf. simpl. apply list_find_Some in Hf as (Hx & Hs & _). f_equal.
  apply (NoDup_lookup _ k j (signer (id c)) Hn); rewrite list_lookup_fmap.
  - rewrite Hx. simpl. by rewrite Hs.
  - by rewrite Hj.
Qed.

End Audits.

(** With the run's tie-breaker count, the audits of the current round are one per
    client with a verifier seat, in client order, each about a batch of the round's
    assignment and the trainer that holds it; and the treasurer seats the verifier of
    every such audit, so its verdict passes the committee gate. *)
Theorem audits_are_seated {H : HashFns} `{!HashLaws H} w sel r :
  let co := coordinator (acc_state (w_coordinator w)) in
  let tb := r_tie_breaker_committee_size (w_run w) in
  dealing co tb sel r → from_coordinator_with_tie_breakers co 0 tb = Ok sel →
  NoDup ((λ c, signer (id c)) <$> clients (epoch_state co)) →
  ∃ assignment audits, @assign_data_for_state H CoordinatorError co sel = Ok assignment ∧
    select_audits_for_current_round co tb = Ok audits ∧
    (assignment ≠ [] → au_verifier <$> audits =
      (λ x, id x.2) <$> with_role sel Verifier 0 (clients (epoch_state co))) ∧
    (∀ a, a ∈ audits → (au_batch_id a, au_target a) ∈ assignment ∧
      seat (signer (au_verifier a)) Verifier VerifierNotAssigned w = (Ok sel, w)).
Proof.
  intros co tb Hd Hsel Hnd. destruct (selection_facts co tb sel r Hd Hsel) as (Hwf & Hn & Hmax).
  assert (Hl : zlen (clients (epoch_state co)) <= total_nodes sel) by (rewrite Hn; apply Hd).
  destruct (assign_data_run (E:=CoordinatorError) co tb sel r Hd Hsel) as (order & _ & Hrun).
  match type of Hrun with _ = Ok ?a => set (assignment := a) in * end.
  unfold select_audits_for_current_round, select_audits. rewrite Hsel. cbn [mbind res_bind].
  rewrite Hrun. cbn [mbind res_bind]. case_bool_decide as Hnil.
  { exists assignment, []. split_and!; try done. by intros a ?%elem_of_nil. }
  destruct (audits_from_run (E:=CoordinatorError) sel assignment 0 (clients (epoch_state co)))
    as (audits & Hau & Hmap & Hall); [done..|lia|].
  exists assignment, audits. split_and!; try done.
  - intros _. apply (f_equal (fmap snd)) in Hmap. by rewrite <-!list_fmap_compose in Hmap.
  - intros a Ha. rewrite list.Forall_forall in Hall. split; [by apply Hall|].
    apply (list_elem_of_fmap_2 (λ a, (au_verifier_index a, au_verifier a))) in Ha.
    rewrite Hmap in Ha. apply list_elem_of_fmap in Ha as ([j c] & [= Hj Hv] & Hin).
    apply with_role_elem in Hin as (Hr & Hj0 & Hc). rewrite Z.sub_0_r in Hc.
    assert (Hlt := znth_lt _ _ _ Hc). apply znth_lookup in Hc as Hc'.
    unfold seat. rewrite bind_self. cbn zeta. rewrite Hv.
    rewrite (client_position_at w (Z.to_nat j) c Hnd Hc'). cbn [ok_or]. rewrite bind_lift_Ok.
    fold co tb. rewrite Hsel. cbn [map_err]. rewrite bind_lift_Ok, Z2Nat.id by lia.
    destruct (role_of_run (E:=TreasurerError) sel j Hwf Hmax) as (p & -> & Hp); [lia|].
    rewrite Hr in Hp. injection Hp as Hp. rewrite bind_lift_Ok.
    by rewrite bool_decide_eq_true_2 by done.
Qed.

(** In the run of [Court] two verifiers audit two trainers. *)
Notation court_coordinator := (coordinator (acc_state (w_coordinator Court.training))).
Notation court_size := (r_tie_breaker_committee_size (w_run Court.training)).
Definition court_round : Round := default sample_round (current_round court_coordinator).
Definition court_selection : CommitteeSelection :=
  match @from_coordinator_with_tie_breakers zero_hashes court_coordinator 0 court_size with
  | Ok s => s
  | _ => mkSelection 0 0 0 0 []
  end.

Lemma court_dealing : dealing court_coordinator court_size court_selection court_round.
Proof.
  split; [repeat split; vm_compute; discriminate|].
  split; [vm_compute; discriminate|]. split; [vm_compute; reflexivity|].
  repeat split; vm_compute; discriminate.
Qed.

Lemma audits_are_seated_witness :
  ∃ assignment audits,
    @assign_data_for_state zero_hashes CoordinatorError court_coordinator court_selection
      = Ok assignment ∧
    @select_audits_for_current_round zero_hashes court_coordinator court_size = Ok audits ∧
    (assignment ≠ [] → au_verifier <$> audits =
      (λ x, id x.2) <$> @with_role zero_hashes court_selection Verifier 0
        (clients (epoch_state court_coordinator))) ∧
    (∀ a, a ∈ audits → (au_batch_id a, au_target a) ∈ assignment ∧
      @seat zero_hashes (signer (au_verifier a)) Verifier VerifierNotAssigned Court.training
      = (Ok court_selection, Court.training)).
Proof.
  assert (Hs : @from_coordinator_with_tie_breakers zero_hashes court_coordinator 0 court_size
    = Ok court_selection) by (vm_compute; reflexivity).
  assert (Hn : NoDup ((λ c, signer (id c)) <$> clients (epoch_state court_coordinator))).
  { apply (bool_decide_eq_true_1 (NoDup _)). vm_compute. reflexivity. }
  exact (@audits_are_seated zero_hashes zero_hashes_laws Court.training court_selection court_round
    court_dealing Hs Hn).
Defined.
