(* ===== verification/Consensus.v ===== *)
(** * Agreement on the results of a batch

    Clients that received several commitments for a batch settle on one with
    [Coordinator::select_consensus_commitment_by_witnesses] (src/shared/coordinator/src/
    coordinator.rs): each witness of the round votes for the first commitment of the list
    its filter contains, and the commitment with the most votes is taken if it has a
    quorum.  The list is in the order in which the client received the commitments, which
    differs between clients; this file shows when the choice does not depend on it. *)

From stdpp Require Import base tactics list numbers decidable sets.
From S2P Require Import Prelude CoreTypes Hashing Bloom Float CoordinatorState Committee Coordinator CoordinatorThms.

Open Scope Z_scope.

Section Tally.
Context {H : HashFns}.

(** A filter's answer, when no index is out of range. *)
Definition bloom_holds (b : Bloom) (h : list Z) : bool :=
  forallb (λ k, bool_decide (znth (bits b) (pos b h k) = Some true)) (keys b).

Lemma bloom_contains_holds {E} b h : bloom_wf b → @bloom_contains H E b h = Ok (bloom_holds b h).
Proof.
  intros Hwf. unfold bloom_contains, bloom_holds. induction (keys b) as [|k ks IH]; [done|].
  cbn [contains_loop forallb]. destruct (pos_in_range b h k Hwf) as [x Hx]. rewrite Hx.
  cbn [unwrap mbind res_bind]. destruct x; cbn [negb]; [|done].
  rewrite IH, bool_decide_eq_true_2 by done. done.
Qed.

(** Witness [w] reports commitment [c]. *)
Definition reports (w : Witness) (c : Commitment) : bool :=
  bloom_holds (broadcast_bloom w) (data_hash c).

(** The index [w] votes for. *)
Fixpoint choice (w : Witness) (cs : list Commitment) : option nat :=
  match cs with
  | [] => None
  | c :: cs' => if reports w c then Some 0%nat else S <$> choice w cs'
  end.

Definition votes (ws : list Witness) (cs : list Commitment) (i : nat) : Z :=
  zlen (filter (λ w, choice w cs = Some i) ws).

Definition tally (ws : list Witness) (cs : list Commitment) : list Z :=
  votes ws cs <$> seq 0 (length cs).

Lemma choice_Some w cs i : choice w cs = Some i →
  ∃ c, cs !! i = Some c ∧ reports w c = true ∧
    ∀ j c', (j < i)%nat → cs !! j = Some c' → reports w c' = false.
Proof.
  revert i. induction cs as [|c cs IH]; intros i Hc; [done|]. cbn in Hc.
  destruct (reports w c) eqn:Hr; simplify_eq.
  - exists c. split_and!; [done|done|lia].
  - apply fmap_Some in Hc as (i' & Hi & ->). destruct (IH i' Hi) as (c' & Hl & Hc & Hall).
    exists c'. split_and!; [done|done|]. intros [|j] c'' Hj Hl'; [by simplify_eq/=|].
    apply (Hall j); [lia|done].
Qed.

Lemma choice_reports w cs c : c ∈ cs → reports w c = true → is_Some (choice w cs).
Proof.
  intros Hc Hr. induction cs as [|c' cs IH]; [by apply not_elem_of_nil in Hc|]. cbn.
  destruct (reports w c') eqn:Hr'; [done|]. rewrite fmap_is_Some. apply IH.
  apply elem_of_cons in Hc as [->|?]; [congruence|done].
Qed.

Lemma vote_run {E} w cs scores :
  bloom_wf (broadcast_bloom w) → length scores = length cs →
  Forall (λ s, s < u16_max) scores →
  @vote H E w cs scores =
    Ok (match choice w cs with Some i => alter Z.succ i scores | None => scores end).
Proof.
  intros Hwf. revert scores. induction cs as [|c cs IH]; intros [|s scores] Hl Hs; try done.
  cbn [vote choice]. rewrite bloom_contains_holds by done. fold (reports w c). cbn [mbind res_bind].
  apply list.Forall_cons_1 in Hs as [Hs Hss]. destruct (reports w c).
  - unfold uadd. rewrite (proj2 (Z.leb_le _ _)) by lia. done.
  - rewrite IH by (done || by injection Hl). cbn. by destruct (choice w cs).
Qed.

Lemma votes_app ws1 ws2 cs i : votes (ws1 ++ ws2) cs i = votes ws1 cs i + votes ws2 cs i.
Proof. unfold votes, zlen. rewrite list.filter_app, length_app. lia. Qed.

Lemma votes_le ws cs i : 0 <= votes ws cs i <= zlen ws.
Proof. unfold votes, zlen. pose proof (length_filter (λ w, choice w cs = Some i) ws). lia. Qed.

(** Two different indices share the witnesses. *)
Lemma votes_disjoint ws cs i j : i ≠ j → votes ws cs i + votes ws cs j <= zlen ws.
Proof.
  intros Hij. induction ws as [|w ws IH]; [done|].
  unfold votes, zlen in *. rewrite !filter_cons.
  repeat case_decide; cbn [length] in *; try lia. congruence.
Qed.

Lemma tally_lookup ws cs i : tally ws cs !! i = if decide (i < length cs)%nat then Some (votes ws cs i) else None.
Proof.
  unfold tally. rewrite list_lookup_fmap. case_decide.
  - by rewrite lookup_seq_lt.
  - by rewrite lookup_seq_ge by lia.
Qed.

Lemma tally_snoc ws w cs :
  tally (ws ++ [w]) cs =
    match choice w cs with Some i => alter Z.succ i (tally ws cs) | None => tally ws cs end.
Proof.
  apply list_eq. intros i. rewrite tally_lookup, votes_app.
  assert (Hw : votes [w] cs i = if decide (choice w cs = Some i) then 1 else 0).
  { unfold votes, zlen. rewrite filter_cons. by case_decide. }
  rewrite Hw. destruct (decide (choice w cs = Some i)) as [Hc|Hc].
  - rewrite Hc, list_lookup_alter_eq, tally_lookup. case_decide; cbn; [f_equal; lia|done].
  - trans (tally ws cs !! i); [rewrite tally_lookup; case_decide; [f_equal; lia|done]|].
    destruct (choice w cs) as [k|]; [|done]. rewrite list_lookup_alter_ne by congruence. done.
Qed.

Lemma tally_run {E} ws cs :
  Forall (λ w, bloom_wf (broadcast_bloom w)) ws → zlen ws <= u16_max →
  res_fold (λ w scores, @vote H E w cs scores) ws (replicate (length cs) 0) = Ok (tally ws cs).
Proof.
  intros Hwf. induction ws as [|w ws IH] using rev_ind; intros Hlen.
  - cbn. f_equal. apply list_eq. intros i. rewrite tally_lookup. case_decide.
    + by rewrite lookup_replicate_2.
    + apply lookup_ge_None_2. rewrite length_replicate. lia.
  - apply list.Forall_app in Hwf as [Hwf Hw%Forall_inv]. unfold zlen in Hlen.
    rewrite length_app in Hlen. cbn in Hlen. rewrite res_fold_app, IH by (unfold zlen; lia || done).
    cbn [res_fold mbind res_bind]. rewrite vote_run, <- tally_snoc; [done|done|..].
    + unfold tally. by rewrite length_fmap, length_seq.
    + apply Forall_fmap, list.Forall_forall. intros i _. cbn.
      pose proof (votes_le ws cs i). unfold zlen in *. lia.
Qed.

(** ** The winner *)

Lemma best_score_spec q scores k acc :
  match acc with Some (_, s) => q <= s | None => True end →
  match best_score q k scores acc with
  | Some (i, s) => acc = Some (i, s) ∨ (k <= i)%nat ∧ scores !! (i - k)%nat = Some s ∧ q <= s
  | None => acc = None ∧ Forall (λ s, s < q) scores
  end.
Proof.
  revert k acc. induction scores as [|s scores IH]; intros k acc Hacc; cbn [best_score].
  { destruct acc as [[i s]|]; auto. }
  match goal with |- context [best_score q _ scores ?a] => set (acc' := a) end.
  assert (Hacc' : acc' = acc ∧ (s < q ∨ acc ≠ None) ∨ acc' = Some (k, s) ∧ q <= s).
  { unfold acc'. destruct (Z.leb_spec q s); [|auto].
    destruct acc as [[j b]|]; [destruct (b <=? s)|]; auto. }
  specialize (IH (k + 1)%nat acc').
  destruct (best_score q (k + 1) scores acc') as [[i s']|].
  - destruct IH as [Heq|(Hk & Hl & Hs')]; [destruct Hacc' as [[-> _]|[-> ?]]; auto| |].
    + destruct Hacc' as [[-> _]|[-> ?]]; [by left|]. simplify_eq. right.
      rewrite Nat.sub_diag. done.
    + right. split_and!; [lia| |done]. by replace (i - k)%nat with (S (i - (k + 1))) by lia.
  - destruct IH as [Hn Hf]; [destruct Hacc' as [[-> _]|[-> ?]]; auto|].
    destruct Hacc' as [[-> Hs]|[-> _]]; [|done].
    split; [done|]. constructor; [|done]. destruct Hs; [done|congruence].
Qed.

(** [ws] agree on [cs]: no witness reports two of the commitments, but for duplicates. *)
Definition single_votes (ws : list Witness) (cs : list Commitment) : Prop :=
  ∀ w c c', w ∈ ws → c ∈ cs → c' ∈ cs → reports w c = true → reports w c' = true →
    data_hash c = data_hash c'.

(** How many witnesses report a result. *)
Definition support (ws : list Witness) (h : list Z) : Z :=
  zlen (filter (λ w, bloom_holds (broadcast_bloom w) h = true) ws).

Lemma support_votes ws cs c :
  single_votes ws cs → c ∈ cs →
  ∃ i c', cs !! i = Some c' ∧ data_hash c' = data_hash c ∧ support ws (data_hash c) <= votes ws cs i.
Proof.
  intros Hs Hc. destruct (list_find (λ c', data_hash c' = data_hash c) cs) as [[i c']|] eqn:Hf.
  - apply list_find_Some in Hf as (Hi & Hh & Hfirst). exists i, c'. split_and!; [done|done|].
    unfold support, votes, zlen. apply inj_le, (submseteq_length _ _), sublist_submseteq.
    assert (Himp : ∀ w, w ∈ ws → bloom_holds (broadcast_bloom w) (data_hash c) = true →
              choice w cs = Some i).
    { intros w Hw Hr. destruct (choice_reports w cs c Hc Hr) as [j Hj]. rewrite Hj. f_equal.
      destruct (choice_Some _ _ _ Hj) as (cj & Hlj & Hrj & Hbefore).
      assert (Hhj : data_hash cj = data_hash c).
      { apply (Hs w); try done. by eapply list_elem_of_lookup_2. }
      destruct (Nat.lt_trichotomy j i) as [Hlt|[->|Hlt]]; [|done|].
      - destruct (Hfirst j cj Hlj Hlt Hhj).
      - specialize (Hbefore i c' Hlt Hi). unfold reports in Hbefore. rewrite Hh in Hbefore.
        congruence. }
    clear -Himp. induction ws as [|w ws IH]; [constructor|]. rewrite !filter_cons.
    assert (IH' : filter (λ w, bloom_holds (broadcast_bloom w) (data_hash c) = true) ws `sublist_of`
                  filter (λ w, choice w cs = Some i) ws) by (apply IH; intros; apply Himp; [by right|done]).
    destruct (decide (bloom_holds (broadcast_bloom w) (data_hash c) = true)) as [Hw|Hw].
    + rewrite decide_True by (apply Himp; [left|done]). by constructor.
    + case_decide; [by constructor|done].
  - apply list_find_None in Hf. rewrite list.Forall_forall in Hf. by destruct (Hf c Hc).
Qed.

Lemma votes_support ws cs i c : cs !! i = Some c → votes ws cs i <= support ws (data_hash c).
Proof.
  intros Hi. unfold support, votes, zlen. induction ws as [|w ws IH]; [done|].
  rewrite !filter_cons. case_decide as Hc.
  - destruct (choice_Some _ _ _ Hc) as (c' & Hl & Hr & _). simplify_eq.
    rewrite decide_True by done. cbn [length]. lia.
  - case_decide; cbn [length]; lia.
Qed.

(** What the selection returns, by support alone. *)
Lemma consensus_spec {E} ws cs q :
  Forall (λ w, bloom_wf (broadcast_bloom w)) ws → zlen ws <= u16_max → 1 <= q →
  single_votes ws cs → zlen ws < 2 * q →
  ∃ o, @select_consensus_commitment_by_witnesses H E cs ws q = Ok o ∧
    match o with
    | Some i => ∃ c, cs !! i = Some c ∧ q <= support ws (data_hash c)
    | None => ∀ c, c ∈ cs → support ws (data_hash c) < q
    end ∧
    (∀ c c', c ∈ cs → c' ∈ cs → q <= support ws (data_hash c) → q <= support ws (data_hash c') →
       data_hash c = data_hash c').
Proof.
  intros Hwf Hlen Hq Hs Hmaj. unfold select_consensus_commitment_by_witnesses.
  rewrite tally_run by done. cbn [mbind res_bind]. eexists. split; [done|].
  pose proof (best_score_spec q (tally ws cs) 0 None I) as Hb. split.
  - destruct (best_score q 0 (tally ws cs) None) as [[i s]|]; cbn.
    + destruct Hb as [?|(_ & Hl & Hqs)]; [done|]. rewrite Nat.sub_0_r, tally_lookup in Hl.
      case_decide as Hi; [|done]. simplify_eq. apply lookup_lt_is_Some in Hi as [c Hc].
      exists c. split; [done|]. pose proof (votes_support ws cs i c Hc). lia.
    + destruct Hb as [_ Hf]. intros c Hc. destruct (support_votes ws cs c Hs Hc) as (i & c' & Hl & _ & Hle).
      rewrite list.Forall_forall in Hf.
      assert (Hin : votes ws cs i ∈ tally ws cs).
      { apply (list_elem_of_lookup_2 _ i). rewrite tally_lookup, decide_True; [done|].
        by eapply lookup_lt_Some. }
      specialize (Hf _ Hin). cbn in Hf. lia.
  - intros c c' Hc Hc' Hqc Hqc'.
    destruct (support_votes ws cs c Hs Hc) as (i & d & Hl & Hd & Hle).
    destruct (support_votes ws cs c' Hs Hc') as (j & d' & Hl' & Hd' & Hle').
    destruct (decide (i = j)) as [->|Hij]; [congruence|].
    pose proof (votes_disjoint ws cs i j Hij). lia.
Qed.

(** The result a client takes for the batch. *)
Definition chosen (cs : list Commitment) (o : option nat) : option (list Z) :=
  i ← o; data_hash <$> cs !! i.

Definition same_results (cs cs' : list Commitment) : Prop :=
  ∀ h, h ∈ data_hash <$> cs ↔ h ∈ data_hash <$> cs'.

Lemma chosen_spec {E} ws cs q :
  Forall (λ w, bloom_wf (broadcast_bloom w)) ws → zlen ws <= u16_max → 1 <= q →
  single_votes ws cs → zlen ws < 2 * q →
  ∃ o, @select_consensus_commitment_by_witnesses H E cs ws q = Ok o ∧
    ∀ h, chosen cs o = Some h ↔ h ∈ data_hash <$> cs ∧ q <= support ws h.
Proof.
  intros Hwf Hlen Hq Hs Hmaj.
  destruct (consensus_spec (E:=E) ws cs q Hwf Hlen Hq Hs Hmaj) as (o & Ho & Hspec & Huniq).
  exists o. split; [done|]. intros h. destruct o as [i|]; cbn.
  - destruct Hspec as (c & Hc & Hqc). rewrite Hc. cbn. split.
    + intros [= <-]. split; [|done]. eapply list_elem_of_fmap_2, list_elem_of_lookup_2, Hc.
    + intros [[c' [-> Hin]]%list_elem_of_fmap Hqh]. f_equal.
      apply Huniq; try done. by eapply list_elem_of_lookup_2.
  - split; [done|]. intros [[c' [-> Hin]]%list_elem_of_fmap Hqh].
    specialize (Hspec c' Hin). lia.
Qed.

Lemma single_votes_same ws cs cs' : same_results cs cs' → single_votes ws cs → single_votes ws cs'.
Proof.
  intros Hsame Hs w c c' Hw Hc Hc'.
  assert (Hfind : ∀ x, x ∈ cs' → ∃ d, data_hash x = data_hash d ∧ d ∈ cs).
  { intros x Hx. apply list_elem_of_fmap, Hsame. by apply list_elem_of_fmap_2. }
  destruct (Hfind c Hc) as (d & Hd & Hin), (Hfind c' Hc') as (d' & Hd' & Hin').
  unfold reports. rewrite Hd, Hd'. intros Hr Hr'. by apply (Hs w).
Qed.

(** The witnesses a round is settled by: as many as configured, or as there are. *)
Definition settling_nodes (c : Coordinator) (n : Z) : Z :=
  if witness_nodes (config c) =? 0 then n else witness_nodes (config c).

(** Except with four witnesses a quorum is more than half of them. *)
Lemma quorum_majority {E} c n : let nodes := settling_nodes c n in
  1 <= nodes <= Z.of_nat SOLANA_MAX_NUM_WITNESSES → nodes ≠ 4 →
  ∃ q, @witness_quorum E n c = Ok q ∧ 1 <= q ∧ nodes < 2 * q.
Proof.
  cbn zeta. intros Hn H4. unfold settling_nodes in *.
  pose proof (witness_quorum_value (E:=E) n c Hn) as Hq. cbn zeta in Hq.
  revert Hn H4 Hq. set (k := if _ =? 0 then _ else _). clearbody k. intros Hn H4 Hq.
  change (Z.of_nat SOLANA_MAX_NUM_WITNESSES) with 32 in Hn. exists (quorum_of k). split; [done|].
  unfold quorum_of. destruct (Z.leb_spec k 2); [lia|]. destruct (Z.eqb_spec k 3); [lia|].
  pose proof (Z.div_mod (2 * k) 3). pose proof (Z.mod_pos_bound (2 * k) 3). lia.
Qed.

(** C20: Agreement.  Two clients that hold the same results for a batch, in whatever order and
    however often each arrived, choose the same one: the one that a quorum of the round's
    witnesses reports, if there is one.  This needs that no witness reports two different
    results for the batch, and a number of witnesses other than four. *)
Theorem consensus_order_independent (c : Coordinator) ws cs1 cs2 :
  let nodes := if witness_nodes (config c) =? 0 then zlen ws else witness_nodes (config c) in
  1 <= nodes <= Z.of_nat SOLANA_MAX_NUM_WITNESSES → nodes ≠ 4 → zlen ws <= nodes →
  Forall (λ w, bloom_wf (broadcast_bloom w)) ws →
  same_results cs1 cs2 → single_votes ws cs1 →
  ∃ q o1 o2, @witness_quorum unit (zlen ws) c = Ok q ∧
    @select_consensus_commitment_by_witnesses H unit cs1 ws q = Ok o1 ∧
    @select_consensus_commitment_by_witnesses H unit cs2 ws q = Ok o2 ∧
    chosen cs1 o1 = chosen cs2 o2 ∧
    ∀ h, chosen cs1 o1 = Some h ↔ h ∈ data_hash <$> cs1 ∧ q <= support ws h.
Proof.
  cbn zeta. intros Hn H4 Hle Hwf Hsame Hs.
  destruct (quorum_majority (E:=unit) c (zlen ws) Hn H4) as (q & Hq & Hq1 & Hmaj).
  unfold settling_nodes in Hmaj. exists q.
  assert (Hlen : zlen ws <= u16_max) by (change (Z.of_nat SOLANA_MAX_NUM_WITNESSES) with 32 in Hn; unfold u16_max; lia).
  destruct (chosen_spec (E:=unit) ws cs1 q) as (o1 & Ho1 & H1); try (done || lia).
  destruct (chosen_spec (E:=unit) ws cs2 q) as (o2 & Ho2 & H2); try (done || lia);
    [by eapply single_votes_same|].
  exists o1, o2. split_and!; try done.
  apply option_eq. intros h. by rewrite H1, H2, (Hsame h).
Qed.
End Tally.

(** ** Four witnesses *)

Module Split.

Definition result_a : Commitment := mkCommitment (replicate 32 1) [].
Definition result_b : Commitment := mkCommitment (replicate 32 2) [].

(** A witness whose filter holds one result. *)
Definition witness_of (c : Commitment) : Witness :=
  let empty := mkBloom (seqZ 1 8) (replicate 1024 false) in
  mkWitness (mkWitnessProof 0 0 1) empty
    match @bloom_add std_hashes unit (data_hash c) empty with Ok b => b | _ => empty end [].

Definition wa : Witness := Eval vm_compute in witness_of result_a.
Definition wb : Witness := Eval vm_compute in witness_of result_b.

(** With four witnesses two of which report each of two results, both results have a
    quorum, and the client takes the one it received last. *)
Theorem four_witnesses_disagree (c : Coordinator) :
  witness_nodes (config c) = 0 ∨ witness_nodes (config c) = 4 →
  let ws := [wa; wb; wa; wb] in
  ∃ q o1 o2, @witness_quorum unit 4 c = Ok q ∧
    @select_consensus_commitment_by_witnesses std_hashes unit [result_a; result_b] ws q = Ok o1 ∧
    @select_consensus_commitment_by_witnesses std_hashes unit [result_b; result_a] ws q = Ok o2 ∧
    chosen [result_a; result_b] o1 = Some (data_hash result_b) ∧
    chosen [result_b; result_a] o2 = Some (data_hash result_a).
Proof.
  intros Hc ws. exists 2.
  assert (Hq : @witness_quorum unit 4 c = Ok 2).
  { unfold witness_quorum. destruct Hc as [-> | ->]; vm_compute; reflexivity. }
  exists (Some 1%nat), (Some 1%nat). split_and!; [exact Hq|vm_compute; reflexivity..].
Qed.

Lemma witnesses_wf ws : Forall (λ w, w = wa ∨ w = wb) ws → Forall (λ w, bloom_wf (broadcast_bloom w)) ws.
Proof.
  intros Hf. eapply list.Forall_impl; [exact Hf|]. intros w [-> | ->]; unfold bloom_wf; cbn; discriminate.
Qed.

Definition five : list Witness := [wa; wb; wa; wa; wb].

Lemma wa_only_a : @reports std_hashes wa result_a = true ∧ @reports std_hashes wa result_b = false.
Proof. vm_compute. done. Qed.
Lemma wb_only_b : @reports std_hashes wb result_b = true ∧ @reports std_hashes wb result_a = false.
Proof. vm_compute. done. Qed.

Lemma five_single : @single_votes std_hashes five [result_a; result_b].
Proof.
  destruct wa_only_a as [Haa Hab], wb_only_b as [Hbb Hba].
  intros w c c' Hw Hc Hc'.
  assert (w = wa ∨ w = wb) as [-> | ->] by (unfold five in Hw; clear -Hw; set_solver);
  assert (c = result_a ∨ c = result_b) as [-> | ->] by (clear -Hc; set_solver);
  assert (c' = result_a ∨ c' = result_b) as [-> | ->] by (clear -Hc'; set_solver);
    intros; congruence.
Qed.

Definition five_nodes : Coordinator :=
  mkCoordinator (fs_new 32) WaitingForMembers (ModelLLM LLM_dummy)
    (mkConfig 30 30 60 10 0 600 1000 1 1 0 4 4 0 5) Progress_default EpochState_zeroed 100 sb_FALSE.

Lemma consensus_order_independent_witness :
  ∃ q o1 o2, @witness_quorum unit 5 five_nodes = Ok q ∧
    @select_consensus_commitment_by_witnesses std_hashes unit [result_a; result_b] five q = Ok o1 ∧
    @select_consensus_commitment_by_witnesses std_hashes unit [result_b; result_a] five q = Ok o2 ∧
    chosen [result_a; result_b] o1 = chosen [result_b; result_a] o2.
Proof.
  destruct (consensus_order_independent (H:=std_hashes) five_nodes five
    [result_a; result_b] [result_b; result_a]) as (q & o1 & o2 & Hq & H1 & H2 & H3 & _).
  - split; vm_compute; discriminate.
  - vm_compute. discriminate.
  - vm_compute. discriminate.
  - apply witnesses_wf. unfold five. repeat (apply list.Forall_cons; split; [by auto|]). constructor.
  - intros h. cbn [fmap list_fmap]. rewrite !elem_of_cons, elem_of_nil. tauto.
  - exact five_single.
  - exists q, o1, o2. exact (conj Hq (conj H1 (conj H2 H3))).
Defined.
End Split.
