(* ===== verification/Payload.v ===== *)
(** * Training results on the wire

    src/shared/network/src/serializable_kind.rs, serializable_tensor.rs and
    serialized_distro.rs: the payload a trainer broadcasts for a batch, the hash it commits
    to, and the checks a receiver makes before it hands the payload to the tensor library.
    The library itself is not modelled; what the receiver checks of a tensor is
    [tensor_check], and a Boolean tensor is its list of elements. *)

From stdpp Require Import base tactics list numbers decidable.
From S2P Require Import Prelude CoreTypes Hashing.

Open Scope Z_scope.

(** ** Element kinds *)

Inductive Kind :=
| Uint8 | Int8 | Int16 | Int | Int64 | Half | Float | Double
| ComplexHalf | ComplexFloat | ComplexDouble | Bool
| QInt8 | QUInt8 | QInt32 | BFloat16 | QUInt4x2 | QUInt2x4
| Bits1x8 | Bits2x4 | Bits4x2 | Bits8 | Bits16
| Float8e5m2 | Float8e4m3fn | Float8e5m2fnuz | Float8e4m3fnuz
| UInt16 | UInt32 | UInt64 | UInt1 | UInt2 | UInt3 | UInt4 | UInt5 | UInt6 | UInt7.

Definition kind_to_u8 (k : Kind) : Z :=
  match k with
  | Uint8 => 0 | Int8 => 1 | Int16 => 2 | Int => 3 | Int64 => 4 | Half => 5 | Float => 6
  | Double => 7 | ComplexHalf => 8 | ComplexFloat => 9 | ComplexDouble => 10 | Bool => 11
  | QInt8 => 12 | QUInt8 => 13 | QInt32 => 14 | BFloat16 => 15 | QUInt4x2 => 16
  | QUInt2x4 => 17 | Bits1x8 => 18 | Bits2x4 => 19 | Bits4x2 => 20 | Bits8 => 21
  | Bits16 => 22 | Float8e5m2 => 23 | Float8e4m3fn => 24 | Float8e5m2fnuz => 25
  | Float8e4m3fnuz => 26 | UInt16 => 27 | UInt32 => 28 | UInt64 => 29 | UInt1 => 30
  | UInt2 => 31 | UInt3 => 32 | UInt4 => 33 | UInt5 => 34 | UInt6 => 35 | UInt7 => 36
  end.

Inductive TchError := UnknownKind (v : Z) | Shape.

Definition u8_to_kind (v : Z) : res TchError Kind :=
  match v with
  | 0 => Ok Uint8 | 1 => Ok Int8 | 2 => Ok Int16 | 3 => Ok Int | 4 => Ok Int64 | 5 => Ok Half
  | 6 => Ok Float | 7 => Ok Double | 8 => Ok ComplexHalf | 9 => Ok ComplexFloat
  | 10 => Ok ComplexDouble | 11 => Ok Bool | 12 => Ok QInt8 | 13 => Ok QUInt8
  | 14 => Ok QInt32 | 15 => Ok BFloat16 | 16 => Ok QUInt4x2 | 17 => Ok QUInt2x4
  | 18 => Ok Bits1x8 | 19 => Ok Bits2x4 | 20 => Ok Bits4x2 | 21 => Ok Bits8
  | 22 => Ok Bits16 | 23 => Ok Float8e5m2 | 24 => Ok Float8e4m3fn
  | 25 => Ok Float8e5m2fnuz | 26 => Ok Float8e4m3fnuz | 27 => Ok UInt16 | 28 => Ok UInt32
  | 29 => Ok UInt64 | 30 => Ok UInt1 | 31 => Ok UInt2 | 32 => Ok UInt3 | 33 => Ok UInt4
  | 34 => Ok UInt5 | 35 => Ok UInt6 | 36 => Ok UInt7
  | _ => Err (UnknownKind v)
  end.

Lemma u8_to_kind_to_u8 k : u8_to_kind (kind_to_u8 k) = Ok k.
Proof. by destruct k. Qed.

Lemma kind_to_u8_inj k k' : kind_to_u8 k = kind_to_u8 k' → k = k'.
Proof.
  intros Hk. apply (f_equal u8_to_kind) in Hk. rewrite !u8_to_kind_to_u8 in Hk. congruence.
Qed.

(** ** The payload *)

Inductive SerializableTensorData := Full (b : list Z) | OneBit (b : list Z).

Record SerializableTensor := mkTensor {
  dims : list Z;
  kind : Kind;
  requires_grad : bool;
  data : SerializableTensorData;
}.

Definition raw_tensor_data (t : SerializableTensor) : list Z :=
  match data t with Full items | OneBit items => items end.

Record SerializedDistroResult := mkSerialized {
  sparse_idx : SerializableTensor;
  sparse_val : SerializableTensor;
  xshape : list Z;
  totalk : Z;
}.

Record TransmittableDistroResult := mkTransmittable {
  td_step : Z;
  td_trainer_nonce : Z;
  td_batch_id : BatchId;
  td_distro_results : list SerializedDistroResult;
}.

(** [to_be_bytes] of an [8 n]-bit integer, signed or not. *)
Definition to_be_bytes (n : nat) (z : Z) : list Z := reverse (to_le_bytes n z).

(** The bytes [hash_into] and [comptue_hash] feed to the hasher. *)
Definition list_bytes {A} (enc : A → list Z) (l : list A) : list Z :=
  to_be_bytes 8 (zlen l) ++ concat (enc <$> l).

Definition hash_into (t : SerializableTensor) : list Z :=
  list_bytes (to_be_bytes 8) (dims t) ++
  [kind_to_u8 (kind t)] ++ [Z.b2z (requires_grad t)] ++
  let '(tag, b) := match data t with Full b => (0, b) | OneBit b => (1, b) end in
  [tag] ++ to_be_bytes 8 (zlen b) ++ b.

Definition result_bytes (r : SerializedDistroResult) : list Z :=
  hash_into (sparse_idx r) ++ hash_into (sparse_val r) ++
  list_bytes (to_be_bytes 2) (xshape r) ++ to_be_bytes 4 (totalk r).

Definition commitment_bytes (p : TransmittableDistroResult) : list Z :=
  to_be_bytes 4 (td_step p) ++ to_be_bytes 4 (td_trainer_nonce p) ++
  to_be_bytes 8 (start (td_batch_id p)) ++ to_be_bytes 8 (end_ (td_batch_id p)) ++
  list_bytes result_bytes (td_distro_results p).

Definition comptue_hash {H : HashFns} (p : TransmittableDistroResult) : list Z :=
  sha256 (commitment_bytes p).

(** The ranges of the struct's integer fields. *)
Definition u32_ok (z : Z) : Prop := 0 <= z < 256 ^ 4.
Definition u16_ok (z : Z) : Prop := 0 <= z < 256 ^ 2.
Definition len_ok {A} (l : list A) : Prop := 0 <= zlen l < 256 ^ 8.

Definition tensor_typed (t : SerializableTensor) : Prop :=
  Forall i64 (dims t) ∧ len_ok (dims t) ∧ len_ok (raw_tensor_data t).
Definition result_typed (r : SerializedDistroResult) : Prop :=
  tensor_typed (sparse_idx r) ∧ tensor_typed (sparse_val r) ∧
  Forall u16_ok (xshape r) ∧ len_ok (xshape r) ∧ u32_ok (totalk r).
Definition payload_typed (p : TransmittableDistroResult) : Prop :=
  u32_ok (td_step p) ∧ u32_ok (td_trainer_nonce p) ∧
  u64 (start (td_batch_id p)) ∧ u64 (end_ (td_batch_id p)) ∧
  Forall result_typed (td_distro_results p) ∧ len_ok (td_distro_results p).

(** ** Codes that can be read back from the front of a byte string *)

Definition prefix_code {A} (dom : A → Prop) (enc : A → list Z) : Prop :=
  ∀ x y r s, dom x → dom y → enc x ++ r = enc y ++ s → x = y ∧ r = s.

(** Integers of a fixed width, over a range in which the width tells them apart. *)
Lemma int_code n (dom : Z → Prop) :
  (∀ x y, dom x → dom y → x mod 256 ^ Z.of_nat n = y mod 256 ^ Z.of_nat n → x = y) →
  prefix_code dom (to_be_bytes n).
Proof.
  intros Hdom x y r s Hx Hy Heq. apply app_inj_1 in Heq as [Hb Hr].
  - split; [|done]. apply Hdom; [done..|]. apply to_le_bytes_mod_inj. by apply (inj reverse).
  - unfold to_be_bytes. by rewrite !length_reverse, !to_le_bytes_length.
Qed.

Lemma unsigned_code n : prefix_code (λ z, 0 <= z < 256 ^ Z.of_nat n) (to_be_bytes n).
Proof. apply int_code. intros x y Hx Hy. by rewrite !Z.mod_small. Qed.

Lemma u64_code : prefix_code u64 (to_be_bytes 8).
Proof.
  apply int_code. unfold u64, u64_max. change (256 ^ Z.of_nat 8) with (2 ^ 64).
  intros x y Hx Hy. rewrite !Z.mod_small by lia. done.
Qed.

Lemma i64_code : prefix_code i64 (to_be_bytes 8).
Proof.
  apply int_code. unfold i64, i64_min, i64_max. change (256 ^ Z.of_nat 8) with (2 ^ 64).
  intros x y Hx Hy Hm. pose proof (Z.div_mod x (2 ^ 64)). pose proof (Z.div_mod y (2 ^ 64)).
  assert (x / 2 ^ 64 = y / 2 ^ 64 ∨ x - y = 2 ^ 64 * (x / 2 ^ 64 - y / 2 ^ 64)) as [?|?] by lia; [lia|].
  assert (- 1 < x / 2 ^ 64 - y / 2 ^ 64 < 1); lia.
Qed.

Lemma concat_code {A} (dom : A → Prop) enc l k r s :
  prefix_code dom enc → Forall dom l → Forall dom k → length l = length k →
  concat (enc <$> l) ++ r = concat (enc <$> k) ++ s → l = k ∧ r = s.
Proof.
  intros Hc Hl. revert k. induction Hl as [|x l Hx Hl IH]; intros [|y k] Hk Hlen; try done.
  apply list.Forall_cons_1 in Hk as [Hy Hk]. cbn. rewrite <- !app_assoc. intros Heq.
  apply Hc in Heq as [-> Heq]; [|done|done]. apply IH in Heq as [-> ->]; [done|done|].
  by injection Hlen.
Qed.

(** A list behind its length. *)
Lemma list_code {A} (dom : A → Prop) enc :
  prefix_code dom enc → prefix_code (λ l, Forall dom l ∧ len_ok l) (list_bytes enc).
Proof.
  intros Hc l k r s [Hl Hll] [Hk Hkl] Heq. unfold list_bytes in Heq.
  rewrite <- !app_assoc in Heq. apply (unsigned_code 8) in Heq as [Hlen Heq]; [|done|done].
  eapply (concat_code dom); [done..|unfold zlen in *; lia|done].
Qed.

Lemma tensor_code : prefix_code tensor_typed hash_into.
Proof.
  intros [d k g t] [d' k' g' t'] r s (Hd & Hl & Hb) (Hd' & Hl' & Hb') Heq.
  unfold hash_into in Heq. cbn [dims kind requires_grad data] in *.
  rewrite <- !app_assoc in Heq.
  apply (list_code i64 _ i64_code) in Heq as [-> Heq]; [|done|done].
  cbn [app] in Heq. apply cons_eq_inj in Heq as [->%kind_to_u8_inj Heq].
  apply cons_eq_inj in Heq as [Hg Heq].
  assert (g = g') as -> by by destruct g, g'.
  unfold raw_tensor_data in *. cbn [data] in *.
  destruct t as [b|b], t' as [b'|b']; cbn [app] in Heq; try done;
    apply cons_eq_inj in Heq as [_ Heq]; rewrite <- ?app_assoc in Heq;
    apply (unsigned_code 8) in Heq as [Hlen Heq]; try done;
    apply app_inj_1 in Heq as [-> ->]; try done; unfold zlen in Hlen; lia.
Qed.

Lemma result_code : prefix_code result_typed result_bytes.
Proof.
  intros [a b x k] [a' b' x' k'] r s (Ha & Hb & Hx & Hl & Hk) (Ha' & Hb' & Hx' & Hl' & Hk') Heq.
  unfold result_bytes in Heq. cbn [sparse_idx sparse_val xshape totalk] in *.
  rewrite <- !app_assoc in Heq.
  apply tensor_code in Heq as [-> Heq]; [|done|done].
  apply tensor_code in Heq as [-> Heq]; [|done|done].
  apply (list_code u16_ok _ (unsigned_code 2)) in Heq as [-> Heq]; [|done|done].
  apply (unsigned_code 4) in Heq as [-> ->]; done.
Qed.

Lemma commitment_code : prefix_code payload_typed commitment_bytes.
Proof.
  intros [s n [a b] l] [s' n' [a' b'] l'] r t (Hs & Hn & Ha & Hb & Hf & Hl)
    (Hs' & Hn' & Ha' & Hb' & Hf' & Hl') Heq.
  unfold commitment_bytes in Heq.
  cbn [td_step td_trainer_nonce td_batch_id td_distro_results start end_] in *.
  rewrite <- !app_assoc in Heq.
  apply (unsigned_code 4) in Heq as [-> Heq]; [|done|done].
  apply (unsigned_code 4) in Heq as [-> Heq]; [|done|done].
  apply u64_code in Heq as [-> Heq]; [|done|done].
  apply u64_code in Heq as [-> Heq]; [|done|done].
  apply (list_code result_typed _ result_code) in Heq as [-> ->]; done.
Qed.

(** The commitment determines the payload, but for a collision of the hash. *)
Lemma commitment_inj {H : HashFns} p q :
  payload_typed p → payload_typed q → comptue_hash p = comptue_hash q → p = q ∨ collision.
Proof.
  intros Hp Hq [Heq|]%digest_inj; [left|by right].
  apply (commitment_code p q [] []); [done|done|by rewrite !app_nil_r].
Qed.

(** ** What a receiver checks *)

Definition checked_mul_i64 (a b : Z) : option Z :=
  if (i64_min <=? a * b) && (a * b <=? i64_max) then Some (a * b) else None.
Definition checked_add_i64 (a b : Z) : option Z :=
  if (i64_min <=? a + b) && (a + b <=? i64_max) then Some (a + b) else None.
(** [usize as i64]. *)
Definition len_i64 {A} (l : list A) : Z := (zlen l + 2 ^ 63) mod 2 ^ 64 - 2 ^ 63.

Fixpoint element_count_from (count : Z) (ds : list Z) : res TchError Z :=
  match ds with
  | [] => Ok count
  | d :: ds' =>
      if d <? 0 then Err Shape
      else count' ← ok_or (checked_mul_i64 count d) Shape; element_count_from count' ds'
  end.
Definition element_count (ds : list Z) : res TchError Z := element_count_from 1 ds.

(** The tensor library's size of an element, in bytes. *)
Class TensorKinds := elt_size_in_bytes : Kind → Z.

Section Receiver.
Context {K : TensorKinds}.

(** The checks of [TryFrom<&SerializableTensor> for Tensor] before it calls the library:
    the number of elements the library will read. *)
Definition tensor_check (t : SerializableTensor) : res TchError Z :=
  elements ← element_count (dims t);
  match data t with
  | Full b =>
      needed ← ok_or (checked_mul_i64 elements (elt_size_in_bytes (kind t))) Shape;
      if len_i64 b =? needed then Ok elements else Err Shape
  | OneBit b =>
      bits ← ok_or (checked_add_i64 elements 7) Shape;
      if len_i64 b <? bits / 8 then Err Shape else Ok elements
  end.

Definition MAX_XSHAPE_RANK : Z := 8.
Definition MAX_XSHAPE_ELEMENTS : Z := 2 ^ 32.

Fixpoint xshape_elements (elements : Z) (ds : list Z) : res TchError Z :=
  match ds with
  | [] => Ok elements
  | d :: ds' =>
      if d =? 0 then Err Shape
      else
        match checked_mul_i64 elements d with
        | Some n => if n <=? MAX_XSHAPE_ELEMENTS then xshape_elements n ds' else Err Shape
        | None => Err Shape
        end
  end.

Definition validate_xshape (ds : list Z) : res TchError (list Z) :=
  if bool_decide (ds = []) then Err Shape
  else if MAX_XSHAPE_RANK <? zlen ds then Err Shape
  else xshape_elements 1 ds ;; Ok ds.

(** The checks made on one result of a payload: both tensors, then the shape. *)
Definition result_check (r : SerializedDistroResult) : res TchError unit :=
  tensor_check (sparse_idx r) ;; tensor_check (sparse_val r) ;;
  validate_xshape (xshape r) ;; Ok tt.

Definition product (ds : list Z) : Z := foldr Z.mul 1 ds.

Lemma product_cons d ds : product (d :: ds) = d * product ds.
Proof. done. Qed.

Lemma product_nonneg ds : Forall (λ d, 0 <= d) ds → 0 <= product ds.
Proof. induction 1; [done|]. rewrite product_cons. by apply Z.mul_nonneg_nonneg. Qed.

Lemma element_count_from_Ok ds c n :
  0 <= c → element_count_from c ds = Ok n →
  Forall (λ d, 0 <= d) ds ∧ n = c * product ds ∧ (c <= i64_max → n <= i64_max).
Proof.
  revert c. induction ds as [|d ds IH]; intros c Hc Hn; cbn in Hn.
  { simplify_eq. split_and!; [constructor|unfold product; cbn; lia|done]. }
  destruct (Z.ltb_spec d 0); [done|]. unfold checked_mul_i64 in Hn.
  destruct (Z.leb_spec i64_min (c * d)), (Z.leb_spec (c * d) i64_max); try done.
  cbn in Hn. destruct (IH (c * d)) as (Hf & -> & Hm); [lia|done|].
  split_and!; [by constructor|rewrite product_cons; ring|auto].
Qed.

Lemma element_count_from_panic ds c : element_count_from c ds ≠ Panic.
Proof.
  revert c. induction ds as [|d ds IH]; intros c; cbn; [done|].
  destruct (d <? 0); [done|]. destruct (checked_mul_i64 c d); cbn; [apply IH|done].
Qed.

Lemma element_count_Ok ds n : element_count ds = Ok n →
  Forall (λ d, 0 <= d) ds ∧ n = product ds ∧ 0 <= n <= i64_max.
Proof.
  intros Hn. apply element_count_from_Ok in Hn as (Hf & -> & Hm); [|lia].
  pose proof (product_nonneg ds Hf). split_and!; [done|lia|lia|apply Hm; unfold i64_max; lia].
Qed.

Lemma xshape_elements_Ok ds c n :
  Forall u16_ok ds → 1 <= c → xshape_elements c ds = Ok n →
  Forall (λ d, 1 <= d) ds ∧ n = c * product ds ∧ (c <= MAX_XSHAPE_ELEMENTS → n <= MAX_XSHAPE_ELEMENTS).
Proof.
  intros Hf. revert c. induction Hf as [|d ds Hd Hf IH]; intros c Hc Hn; cbn in Hn.
  { simplify_eq. split_and!; [constructor|unfold product; cbn; lia|done]. }
  unfold u16_ok in Hd. destruct (Z.eqb_spec d 0); [done|]. unfold checked_mul_i64 in Hn.
  destruct (_ && _); [|done]. destruct (Z.leb_spec (c * d) MAX_XSHAPE_ELEMENTS); [|done].
  destruct (IH (c * d)) as (Hf' & -> & Hm); [nia|done|].
  split_and!; [constructor; [lia|done]|rewrite product_cons; ring|auto].
Qed.

Lemma len_i64_small {A} (l : list A) : zlen l <= i64_max → len_i64 l = zlen l.
Proof. unfold len_i64, i64_max, zlen in *. intros. rewrite Z.mod_small; lia. Qed.

(** What the receiver accepts from a peer it can read safely.  An accepted tensor has no
    negative dimension, its element count is the exact product of its dimensions, and its
    buffer has exactly the bytes (packed: at least the bits) the library will read; an
    accepted parameter shape has rank 1 to 8, no zero dimension, and at most [2 ^ 32]
    elements.  Neither check panics. *)
Theorem accepted_sizes_fit t ds :
  0 < elt_size_in_bytes (kind t) → zlen (raw_tensor_data t) <= i64_max → Forall u16_ok ds →
  tensor_check t ≠ Panic ∧ validate_xshape ds ≠ Panic ∧
  (∀ n, tensor_check t = Ok n →
     Forall (λ d, 0 <= d) (dims t) ∧ n = product (dims t) ∧ 0 <= n <= i64_max ∧
     match data t with
     | Full b => n * elt_size_in_bytes (kind t) = zlen b
     | OneBit b => n <= 8 * zlen b
     end) ∧
  (∀ l, validate_xshape ds = Ok l →
     l = ds ∧ 1 <= zlen ds <= 8 ∧ Forall (λ d, 1 <= d) ds ∧ product ds <= 2 ^ 32).
Proof.
  intros Hsize Hlen Hds. split_and!.
  - unfold tensor_check, element_count. pose proof (element_count_from_panic (dims t) 1).
    destruct (element_count_from 1 (dims t)); cbn; [|done|done].
    destruct (data t); unfold ok_or; [destruct (checked_mul_i64 _ _)|destruct (checked_add_i64 _ _)];
      cbn; try done; [destruct (_ =? _)|destruct (_ <? _)]; done.
  - unfold validate_xshape. destruct (bool_decide _); [done|]. destruct (_ <? _); [done|].
    assert (Hnp : ∀ c, xshape_elements c ds ≠ Panic).
    { clear. induction ds as [|d ds IH]; intros c; cbn; [done|]. repeat case_match; auto. }
    specialize (Hnp 1). by destruct (xshape_elements 1 ds).
  - intros n Hn. unfold tensor_check in Hn. apply res_bind_Ok in Hn as (e & He & Hn).
    apply element_count_Ok in He as (Hf & -> & Hr). unfold raw_tensor_data in Hlen.
    destruct (data t) as [b|b].
    + apply res_bind_Ok in Hn as (m & Hm%ok_or_Ok & Hn). unfold checked_mul_i64 in Hm.
      destruct (_ && _); [|done]. simplify_eq. rewrite len_i64_small in Hn by done.
      destruct (Z.eqb_spec (zlen b) (product (dims t) * elt_size_in_bytes (kind t)));
        simplify_eq. split_and!; (done || lia).
    + apply res_bind_Ok in Hn as (m & Hm%ok_or_Ok & Hn). unfold checked_add_i64 in Hm.
      destruct (_ && _); [|done]. simplify_eq. rewrite len_i64_small in Hn by done.
      destruct (Z.ltb_spec (zlen b) ((product (dims t) + 7) / 8)) as [|Hle]; simplify_eq.
      split_and!; try (done || lia).
      pose proof (Z.mod_pos_bound (product (dims t) + 7) 8).
      pose proof (Z.div_mod (product (dims t) + 7) 8). lia.
  - intros l Hl. unfold validate_xshape in Hl. case_bool_decide as Hnil; [done|].
    destruct (Z.ltb_spec MAX_XSHAPE_RANK (zlen ds)) as [|Hrank]; [done|].
    apply res_bind_Ok in Hl as (n & Hn & Hl). simplify_eq.
    apply xshape_elements_Ok in Hn as (Hf & -> & Hm); [|done|lia].
    unfold MAX_XSHAPE_RANK, zlen in *. destruct l as [|d l]; [done|]. cbn [length] in *.
    split_and!; [done|lia|lia|done|]. unfold MAX_XSHAPE_ELEMENTS in Hm. lia.
Qed.
End Receiver.

(** ** Packed Boolean tensors

    [TryFrom<&Tensor>] packs the flattened elements of a Boolean tensor eight to a byte, the
    first in the lowest bit, padded with zeros; [TryFrom<&SerializableTensor>] takes the
    bits of all bytes in that order and keeps as many as the shape has elements. *)

Definition pack_byte (bits : list bool) : Z :=
  foldr (λ b acc, Z.b2z b + 2 * acc) 0 bits.

Fixpoint pack_bits (n_bytes : nat) (bits : list bool) : list Z :=
  match n_bytes with
  | O => []
  | S n => pack_byte (take 8 bits) :: pack_bits n (drop 8 bits)
  end.

(** The serialised form of a Boolean tensor with these dimensions and elements. *)
Definition serialize_bools (ds : list Z) (grad : bool) (bits : list bool) : SerializableTensor :=
  let n_bytes := (zlen bits + 7) / 8 in
  let pad_size := (8 - zlen bits mod 8) mod 8 in
  mkTensor ds Bool grad
    (OneBit (pack_bits (Z.to_nat n_bytes) (bits ++ replicate (Z.to_nat pad_size) false))).

Definition byte_bits (b : Z) : list bool := Z.testbit b <$> seqZ 0 8.

Definition unpack_bits (elements : Z) (b : list Z) : list bool :=
  take (Z.to_nat elements) (concat (byte_bits <$> b)).

Definition deserialize_bools {K : TensorKinds} (t : SerializableTensor) : res TchError (list bool) :=
  elements ← tensor_check t;
  match data t with
  | OneBit b => Ok (unpack_bits elements b)
  | Full _ => Err Shape
  end.

Lemma byte_bits_pack l : length l = 8%nat → byte_bits (pack_byte l) = l.
Proof.
  intros Hl. do 8 (destruct l as [|[] l]; [done|..]); try (destruct l; [|done]);
    try reflexivity; cbn in Hl; lia.
Qed.

Lemma unpack_pack n l : length l = (8 * n)%nat → concat (byte_bits <$> pack_bits n l) = l.
Proof.
  revert l. induction n as [|n IH]; intros l Hl; cbn [pack_bits fmap list_fmap concat].
  - by destruct l.
  - rewrite byte_bits_pack by (rewrite length_take; lia).
    change (list_fmap _ _ byte_bits ?x) with (byte_bits <$> x).
    rewrite IH by (rewrite length_drop; lia). apply take_drop.
Qed.

Lemma pack_bits_length n l : length (pack_bits n l) = n.
Proof. revert l. induction n as [|n IH]; intros l; cbn; [done|by rewrite IH]. Qed.

Lemma padded_length {A} (l : list A) x :
  length (l ++ replicate (Z.to_nat ((8 - zlen l mod 8) mod 8)) x) =
    (8 * Z.to_nat ((zlen l + 7) / 8))%nat.
Proof.
  rewrite length_app, length_replicate. unfold zlen. set (n := Z.of_nat (length l)).
  assert (Hn : 0 <= n) by lia. pose proof (Z.div_mod n 8). pose proof (Z.mod_pos_bound n 8).
  assert (Hc : n mod 8 = 0 ∨ 1 <= n mod 8) by lia. destruct Hc as [Hc|Hc].
  - rewrite Hc. change ((8 - 0) mod 8) with 0.
    replace ((n + 7) / 8) with (n / 8); [lia|].
    apply (Z.div_unique_pos _ _ _ (n mod 8 + 7)); lia.
  - rewrite (Z.mod_small (8 - n mod 8)) by lia.
    replace ((n + 7) / 8) with (n / 8 + 1); [lia|].
    apply (Z.div_unique_pos _ _ _ (n mod 8 - 1)); lia.
Qed.

Section PayloadTheorems.
Context {K : TensorKinds} {H : HashFns}.

(** A Boolean tensor, packed to one bit per element for broadcast, passes the receiver's
    checks and is read back unchanged, whatever its size. *)
Theorem one_bit_round_trip ds grad bits :
  Forall (λ d, 0 <= d) ds → element_count ds = Ok (zlen bits) → zlen bits + 7 <= i64_max →
  deserialize_bools (serialize_bools ds grad bits) = Ok bits.
Proof.
  intros Hds Hcount Hmax. unfold deserialize_bools, serialize_bools, tensor_check.
  cbn [dims data]. rewrite Hcount. cbn [mbind res_bind ok_or].
  set (l := bits ++ _). set (n := Z.to_nat ((zlen bits + 7) / 8)).
  assert (Hl : length l = (8 * n)%nat) by apply padded_length.
  assert (Hn : Z.of_nat n = (zlen bits + 7) / 8).
  { unfold n. apply Z2Nat.id, Z.div_pos; unfold zlen; lia. }
  unfold checked_add_i64. rewrite !(proj2 (Z.leb_le _ _)) by (unfold i64_min, zlen in *; lia).
  cbn [andb ok_or mbind res_bind]. rewrite len_i64_small; unfold zlen at 1; rewrite pack_bits_length.
  - rewrite (proj2 (Z.ltb_ge _ _)) by lia. cbn [mbind res_bind]. unfold unpack_bits.
    rewrite unpack_pack by done. unfold l, zlen. rewrite Nat2Z.id. by rewrite take_app_length.
  - rewrite Hn. etrans; [apply Z.div_le_upper_bound|exact Hmax]; unfold zlen; lia.
Qed.

(** C21: The commitment a trainer signs binds the whole payload, its shapes, element kinds and
    encodings included: two payloads with one commitment are equal, or a SHA-256 collision
    has been found. *)
Theorem commitment_binds_payload p q :
  payload_typed p → payload_typed q → comptue_hash p = comptue_hash q → p = q ∨ collision.
Proof. apply commitment_inj. Qed.
End PayloadTheorems.

#[local] Instance sizes : TensorKinds := λ k, match k with Int64 => 8 | Float => 4 | _ => 1 end.

Definition bits5 : list bool := [true; false; true; true; false].

(** The comment above the packing shows this byte as [0b01101110]; the first element is its
    lowest bit. *)
Lemma packing_is_low_bit_first :
  pack_byte [false; true; true; false; true; true; true; false] = 118.
Proof. reflexivity. Qed.

Lemma one_bit_round_trip_witness :
  deserialize_bools (serialize_bools [5] false bits5) = Ok bits5.
Proof. apply one_bit_round_trip; [repeat constructor; lia|reflexivity|vm_compute; discriminate]. Defined.

Definition floats : SerializableTensor := mkTensor [2; 1] Float false (Full (replicate 8 7)).

Lemma accepted_sizes_fit_witness :
  tensor_check floats = Ok 2 ∧ product (dims floats) * 4 = 8.
Proof.
  split; [reflexivity|].
  destruct (accepted_sizes_fit (K:=sizes) floats [3; 4]) as (_ & _ & H & _).
  - reflexivity.
  - vm_compute; discriminate.
  - repeat (apply list.Forall_cons; split; [split; vm_compute; done|]). constructor.
  - destruct (H 2 eq_refl) as (_ & <- & _ & Hb). exact Hb.
Defined.

Definition payload (nonce : Z) : TransmittableDistroResult :=
  mkTransmittable 7 nonce (mkClosedInterval 0 3) [mkSerialized floats floats [2; 2] 4].

Lemma payload_ok n : u32_ok n → payload_typed (payload n).
Proof.
  intros Hn.
  assert (Ht : tensor_typed floats).
  { split_and!; [repeat constructor; vm_compute; discriminate|split; vm_compute; done..]. }
  split_and!; [split; vm_compute; done|done|split; vm_compute; done|split; vm_compute; done| |split; vm_compute; done].
  repeat constructor; try apply Ht; vm_compute; done.
Qed.

(** With a hash that maps everything to one digest, two different payloads collide. *)
Lemma commitment_binds_payload_witness :
  payload 1 = payload 2 ∨ collision (H:=zero_hashes).
Proof.
  apply (commitment_binds_payload (H:=zero_hashes)); [apply payload_ok..|];
    [split; vm_compute; done|split; vm_compute; done|reflexivity].
Defined.
