(* ===== verification/CoreContainers.v ===== *)
(** * The interval tree, the bounded queue and the running averages of the core crate

    src/shared/core/src/interval_tree.rs, bounded_queue.rs and running_average.rs.  A
    [BTreeMap] is the list of its entries in the order of their keys. *)

From stdpp Require Import base tactics list numbers decidable gmap strings.
From Stdlib Require Import SpecFloat Sorting.Sorted.
From S2P Require Import Prelude CoreTypes Float.

Open Scope Z_scope.

(** ** Ordered maps *)

Section BTree.
Context {A : Type}.

Notation btree := (list (Z * A)).

(** [range(..=k).next_back()] and [range(k..).next()]. *)
Definition last_le (k : Z) (t : btree) : option (Z * A) :=
  list.last (filter (λ e, e.1 <= k) t).
Definition first_ge (k : Z) (t : btree) : option (Z * A) :=
  head (filter (λ e, k <= e.1) t).

Fixpoint bt_insert (k : Z) (a : A) (t : btree) : btree :=
  match t with
  | [] => [(k, a)]
  | (k', a') :: t' =>
      if k <? k' then (k, a) :: t
      else if k =? k' then (k, a) :: t'
      else (k', a') :: bt_insert k a t'
  end.

Definition bt_get (k : Z) (t : btree) : option A :=
  snd <$> head (filter (λ e, e.1 = k) t).
Definition bt_delete (k : Z) (t : btree) : btree := filter (λ e, e.1 ≠ k) t.

(** In a list sorted by [R], the last entry up to [k] is above all others up to [k], and
    the first from [k] below all others from [k]. *)
Context (R : Z * A → Z * A → Prop).

Lemma sorted_last t e : StronglySorted R t → list.last t = Some e →
  e ∈ t ∧ ∀ e', e' ∈ t → e' = e ∨ R e' e.
Proof.
  induction 1 as [|x t Hs IH Hx]; intros Hl; [done|].
  destruct t as [|y t]; [simplify_eq/=; set_solver|].
  assert (Hl' : list.last (y :: t) = Some e) by done.
  destruct (IH Hl') as [He Hall]. split; [by right|].
  intros e' [->|He']%elem_of_cons; [right|by apply Hall].
  rewrite list.Forall_forall in Hx. by apply Hx.
Qed.

Lemma sorted_filter (P : Z * A → Prop) `{∀ x, Decision (P x)} t :
  StronglySorted R t → StronglySorted R (filter P t).
Proof.
  induction 1 as [|x t Hs IH Hx]; [constructor|]. rewrite filter_cons.
  case_decide; [constructor; [done|]|done]. rewrite list.Forall_forall in *.
  intros y [_ Hy]%list_elem_of_filter. by apply Hx.
Qed.

Lemma last_le_Some t k e : StronglySorted R t → last_le k t = Some e →
  e ∈ t ∧ e.1 <= k ∧ ∀ e', e' ∈ t → e'.1 <= k → e' = e ∨ R e' e.
Proof.
  intros Hs Hl. apply sorted_last in Hl as [He Hall]; [|by apply sorted_filter].
  apply list_elem_of_filter in He as [Hk He]. split_and!; [done|done|].
  intros e' He' Hk'. apply Hall, list_elem_of_filter. done.
Qed.

Lemma last_le_None t k e : last_le k t = None → e ∈ t → k < e.1.
Proof.
  intros Hl%last_None He. apply Z.nle_gt. intros Hk.
  assert (Hin : e ∈ filter (λ e : Z * A, e.1 <= k) t) by by apply list_elem_of_filter.
  rewrite Hl in Hin. by apply not_elem_of_nil in Hin.
Qed.

Lemma first_ge_Some t k e : StronglySorted R t → first_ge k t = Some e →
  e ∈ t ∧ k <= e.1 ∧ ∀ e', e' ∈ t → k <= e'.1 → e' = e ∨ R e e'.
Proof.
  intros Hs Hl. unfold first_ge in Hl.
  pose proof (sorted_filter (λ e, k <= e.1) t Hs) as Hf.
  destruct (filter (λ e, k <= e.1) t) as [|x l] eqn:Heq; [done|]. simplify_eq/=.
  assert (He : e ∈ filter (λ e, k <= e.1) t) by (rewrite Heq; left).
  apply list_elem_of_filter in He as [Hk He]. split_and!; [done|done|].
  intros e' He' Hk'. assert (Hin : e' ∈ e :: l) by (rewrite <- Heq; by apply list_elem_of_filter).
  apply elem_of_cons in Hin as [->|Hin]; [by left|right].
  apply StronglySorted_inv in Hf as [_ Hf]. rewrite list.Forall_forall in Hf. by apply Hf.
Qed.

Lemma first_ge_None t k e : first_ge k t = None → e ∈ t → e.1 < k.
Proof.
  unfold first_ge. intros Hl%head_None He. apply Z.nle_gt. intros Hk.
  assert (Hin : e ∈ filter (λ e, k <= e.1) t) by by apply list_elem_of_filter.
  rewrite Hl in Hin. by apply not_elem_of_nil in Hin.
Qed.

Lemma bt_get_unique k a t :
  (k, a) ∈ t → (∀ e, e ∈ t → e.1 = k → e = (k, a)) → bt_get k t = Some a.
Proof.
  unfold bt_get. induction t as [|x t IH]; intros Hin Hu; [set_solver|].
  rewrite filter_cons. case_decide as Hx.
  - by rewrite (Hu x) by (done || left).
  - apply IH; [|intros e He; apply Hu; by right].
    apply elem_of_cons in Hin as [<-|?]; done.
Qed.

Lemma bt_insert_perm k a t : (∀ e, e ∈ t → e.1 ≠ k) → bt_insert k a t ≡ₚ (k, a) :: t.
Proof.
  induction t as [|[k' a'] t IH]; intros Hk; [done|]. simpl.
  assert (k' ≠ k) by (apply (Hk (k', a')); left).
  destruct (Z.ltb_spec k k'); [done|]. rewrite (proj2 (Z.eqb_neq k k')) by done.
  rewrite IH; [|intros e He; apply Hk; by right]. apply Permutation_swap.
Qed.

Lemma bt_insert_sorted k a t :
  (∀ x y, R x y → x.1 < y.1) → StronglySorted R t →
  (∀ e, e ∈ t → e.1 < k ∧ R e (k, a) ∨ k < e.1 ∧ R (k, a) e) →
  StronglySorted R (bt_insert k a t).
Proof.
  intros HR. induction 1 as [|[k' a'] t Hs IH Hx]; intros Hk; [by repeat constructor|].
  assert (Hperm : bt_insert k a t ≡ₚ (k, a) :: t).
  { apply bt_insert_perm. intros e He. destruct (Hk e); [by right|lia..]. }
  rewrite list.Forall_forall in Hx. simpl.
  destruct (Hk (k', a')) as [[Hlt H1]|[Hlt H1]]; [left|..]; simpl in Hlt.
  - destruct (Z.ltb_spec k k'); [lia|]. rewrite (proj2 (Z.eqb_neq k k')) by lia.
    constructor; [apply IH; intros e He; apply Hk; by right|].
    apply list.Forall_forall. intros e. rewrite Hperm.
    intros [->|He]%elem_of_cons; [done|by apply Hx].
  - destruct (Z.ltb_spec k k'); [|lia].
    constructor; [by constructor; [|apply list.Forall_forall]|].
    apply list.Forall_forall. intros e [->|He]%elem_of_cons; [done|].
    destruct (Hk e) as [[He' _]|[_ ?]]; [by right| |done].
    specialize (HR _ _ (Hx e He)). simpl in HR. lia.
Qed.
End BTree.

(** ** IntervalTree *)

Module IntervalTree.
Section IntervalTree.
Context {V : Type}.

Definition IntervalTree : Type := list (Z * (ClosedInterval * V)).

Definition tree_new : IntervalTree := [].
Definition tree_clear (_ : IntervalTree) : IntervalTree := [].

(** The two checks of [insert], against the nearest stored interval on either side. *)
Definition clash_left (i : ClosedInterval) (t : IntervalTree) : bool :=
  match last_le (start i) t with Some (_, (j, _)) => start i <=? end_ j | None => false end.
Definition clash_right (i : ClosedInterval) (t : IntervalTree) : bool :=
  match first_ge (start i) t with Some (_, (j, _)) => start j <=? end_ i | None => false end.

(** [Err tt] is the error [Overlapping interval]. *)
Definition tree_insert (i : ClosedInterval) (v : V) (t : IntervalTree) : res unit IntervalTree :=
  if clash_left i t then Err tt
  else if clash_right i t then Err tt
  else Ok (bt_insert (start i) (i, v) t).

Definition tree_get (point : Z) (t : IntervalTree) : option V :=
  match last_le point t with
  | Some (_, (j, v)) => if contains j point then Some v else None
  | None => None
  end.

(** Removes the entry at the interval's start, and returns its value if the stored interval
    is the one asked for. *)
Definition tree_remove (i : ClosedInterval) (t : IntervalTree) : option V * IntervalTree :=
  match bt_get (start i) t with
  | Some (j, v) => (if bool_decide (j = i) then Some v else None, bt_delete (start i) t)
  | None => (None, t)
  end.

Definition tree_iter (t : IntervalTree) : list (ClosedInterval * V) := snd <$> t.

(** The invariant: keys are starts, intervals are not empty, and each ends before the next
    begins. *)
Definition before (e e' : Z * (ClosedInterval * V)) : Prop := e.1 <= end_ e.2.1 < e'.1.
Definition entry_ok (e : Z * (ClosedInterval * V)) : Prop :=
  e.1 = start e.2.1 ∧ start e.2.1 <= end_ e.2.1.
Definition tree_ok (t : IntervalTree) : Prop :=
  StronglySorted before t ∧ ∀ e, e ∈ t → entry_ok e.

Lemma before_keys x y : before x y → x.1 < y.1.
Proof. unfold before. lia. Qed.

(** The value at a point, by looking at every stored interval. *)
Definition covers (p : Z) (e : Z * (ClosedInterval * V)) : Prop := contains e.2.1 p = true.

Lemma tree_ok_unique t p e e' : tree_ok t → e ∈ t → e' ∈ t → covers p e → covers p e' → e = e'.
Proof.
  intros [Hs Hok] He He' Hc Hc'. unfold covers, contains in *. bool_prop.
  assert (Hcmp : ∀ s, StronglySorted before s → e ∈ s → e' ∈ s → e = e' ∨ before e e' ∨ before e' e).
  { clear. induction 1 as [|x s Hs IH Hx]; intros He He'; [set_solver|].
    rewrite list.Forall_forall in Hx. set_unfold. naive_solver. }
  pose proof (Hok e He) as [? ?]. pose proof (Hok e' He') as [? ?].
  destruct (Hcmp t) as [?|[Hb|Hb]]; try done; unfold before in Hb; lia.
Qed.

Lemma tree_get_spec t p v : tree_ok t →
  tree_get p t = Some v ↔ ∃ e, e ∈ t ∧ covers p e ∧ v = e.2.2.
Proof.
  intros Ht. pose proof Ht as [Hs Hok]. unfold tree_get.
  destruct (last_le p t) as [[k [j w]]|] eqn:Hl.
  - apply (last_le_Some before) in Hl as (He & Hk & Hall); [|done]. split.
    + destruct (contains j p) eqn:Hc; intros; simplify_eq. by eexists.
    + intros (e & He' & Hc & ->). destruct (Hall e He') as [->|Hb].
      * pose proof (Hok e He') as [-> ?]. unfold covers, contains in Hc. bool_prop. lia.
      * unfold covers in Hc. cbn in Hc. by rewrite Hc.
      * exfalso. unfold before, covers, contains in *. bool_prop. cbn in *. lia.
  - split; [done|]. intros (e & He & Hc & ->). exfalso.
    pose proof (last_le_None t p e Hl He). pose proof (Hok e He) as [? ?].
    unfold covers, contains in Hc. bool_prop. lia.
Qed.

Lemma clash_left_spec t i : tree_ok t →
  clash_left i t = true ↔ ∃ e, e ∈ t ∧ e.1 <= start i <= end_ e.2.1.
Proof.
  intros [Hs Hok]. unfold clash_left. destruct (last_le (start i) t) as [[k [j w]]|] eqn:Hl.
  - apply (last_le_Some before) in Hl as (He & Hk & Hall); [|done]. rewrite Z.leb_le. split.
    + intros Hj. exists (k, (j, w)). done.
    + intros (e & He' & Hlo & Hhi). destruct (Hall e He' Hlo) as [->|Hb]; [done|].
      unfold before in Hb. cbn in *. lia.
  - split; [done|]. intros (e & He & Hlo & _). pose proof (last_le_None t _ e Hl He). lia.
Qed.

Lemma clash_right_spec t i : tree_ok t →
  clash_right i t = true ↔ ∃ e, e ∈ t ∧ start i <= e.1 <= end_ i.
Proof.
  intros [Hs Hok]. unfold clash_right. destruct (first_ge (start i) t) as [[k [j w]]|] eqn:Hl.
  - apply (first_ge_Some before) in Hl as (He & Hk & Hall); [|done]. rewrite Z.leb_le.
    pose proof (Hok _ He) as [Hkj _]. cbn in Hk, Hkj. split.
    + intros Hj. exists (k, (j, w)). cbn. split; [done|lia].
    + intros (e & He' & Hlo & Hhi). destruct (Hall e He' Hlo) as [->|Hb]; [cbn in *; lia|].
      unfold before in Hb. cbn in *. lia.
  - split; [done|]. intros (e & He & Hlo & _). pose proof (first_ge_None t _ e Hl He). lia.
Qed.

(** The two neighbours decide whether any stored interval overlaps. *)
Lemma clash_spec t i : tree_ok t → start i <= end_ i →
  clash_left i t || clash_right i t = true ↔ ∃ e, e ∈ t ∧ overlaps i e.2.1 = true.
Proof.
  intros Ht Hi. rewrite orb_true_iff, clash_left_spec, clash_right_spec by done.
  assert (Hov : ∀ e, e ∈ t → overlaps i e.2.1 = true ↔
    e.1 <= start i <= end_ e.2.1 ∨ start i <= e.1 <= end_ i).
  { intros e He. destruct (proj2 Ht e He) as [-> ?]. unfold overlaps.
    rewrite andb_true_iff, !Z.leb_le. lia. }
  split; [intros [(e & He & H)|(e & He & H)]|intros (e & He & H%Hov)]; naive_solver.
Qed.

Lemma tree_insert_run t i v :
  tree_insert i v t =
    if clash_left i t || clash_right i t then Err tt else Ok (bt_insert (start i) (i, v) t).
Proof. unfold tree_insert. by destruct (clash_left i t), (clash_right i t). Qed.

(** An accepted interval is clear of every stored one. *)
Lemma tree_insert_Ok t t' i v : tree_ok t → start i <= end_ i → tree_insert i v t = Ok t' →
  t' = bt_insert (start i) (i, v) t ∧
  ∀ e, e ∈ t → e.1 < start i ∧ before e (start i, (i, v)) ∨
               start i < e.1 ∧ before (start i, (i, v)) e.
Proof.
  intros Ht Hi. rewrite tree_insert_run. case_match eqn:Hc; [done|]. intros [= <-].
  split; [done|]. intros e He. pose proof (proj2 Ht e He) as [Hk Hne].
  destruct (overlaps i e.2.1) eqn:Hov.
  - assert (Ht' : clash_left i t || clash_right i t = true) by (apply clash_spec; eauto).
    congruence.
  - unfold overlaps in Hov. apply andb_false_iff in Hov. rewrite !Z.leb_gt in Hov.
    unfold before. cbn. lia.
Qed.

Lemma tree_insert_ok t t' i v : tree_ok t → start i <= end_ i → tree_insert i v t = Ok t' →
  tree_ok t' ∧ t' ≡ₚ (start i, (i, v)) :: t.
Proof.
  intros Ht Hi Hins. destruct (tree_insert_Ok _ _ _ _ Ht Hi Hins) as [-> Hcl].
  assert (Hp : bt_insert (start i) (i, v) t ≡ₚ (start i, (i, v)) :: t).
  { apply bt_insert_perm. intros e He. destruct (Hcl e He); lia. }
  split; [split|done].
  - apply bt_insert_sorted; [apply before_keys|apply Ht|done].
  - intros e. rewrite Hp. intros [->|He]%elem_of_cons; [done|by apply Ht].
Qed.

Lemma tree_remove_ok t i : tree_ok t → tree_ok (tree_remove i t).2.
Proof.
  intros [Hs Hok]. unfold tree_remove. destruct (bt_get (start i) t) as [[j v]|]; [|done].
  cbn. unfold bt_delete. split; [by apply sorted_filter|].
  intros e [_ He]%list_elem_of_filter. by apply Hok.
Qed.

(** The trees a program can build. *)
Inductive reach : IntervalTree → Prop :=
| reach_new : reach tree_new
| reach_clear t : reach t → reach (tree_clear t)
| reach_insert t t' i v : reach t → start i <= end_ i → tree_insert i v t = Ok t' → reach t'
| reach_remove t i : reach t → reach (tree_remove i t).2.

Lemma reach_ok t : reach t → tree_ok t.
Proof.
  induction 1; [by split; [constructor|set_solver]..|by eapply tree_insert_ok|].
  by apply tree_remove_ok.
Qed.

(** The value at [p] by looking at every stored interval in turn. *)
Definition scan (p : Z) (l : list (ClosedInterval * V)) : option V :=
  snd <$> head (filter (λ iv, contains iv.1 p = true) l).

Lemma scan_spec t p v : tree_ok t →
  scan p (tree_iter t) = Some v ↔ ∃ e, e ∈ t ∧ covers p e ∧ v = e.2.2.
Proof.
  intros Ht. unfold scan, tree_iter.
  destruct (filter (λ iv, contains iv.1 p = true) (snd <$> t)) as [|[j w] l] eqn:Hf; cbn.
  - split; [done|]. intros (e & He & Hc & ->). exfalso.
    assert (Hin : e.2 ∈ filter (λ iv, contains iv.1 p = true) (snd <$> t)).
    { apply list_elem_of_filter. split; [done|]. by apply list_elem_of_fmap_2. }
    rewrite Hf in Hin. by apply not_elem_of_nil in Hin.
  - assert (Hin : (j, w) ∈ filter (λ iv, contains iv.1 p = true) (snd <$> t)) by (rewrite Hf; left).
    apply list_elem_of_filter in Hin as [Hc [e [He Hin]]%list_elem_of_fmap].
    assert (Hce : covers p e) by (unfold covers; by rewrite <- He). split.
    + intros [= <-]. exists e. by rewrite <- He.
    + intros (e' & He' & Hc' & ->). rewrite <- (tree_ok_unique t p e e') by done.
      by rewrite <- He.
Qed.

(** In every tree built by new, insert, remove and clear, a lookup finds the value whose
    interval contains the point exactly as a scan of all stored intervals would; an insert
    is refused exactly when the interval overlaps a stored one, and an accepted one adds
    just that interval: its points map to the new value and all others as before. *)
Theorem interval_tree_lookup t i v :
  reach t → start i <= end_ i →
  (∀ p, tree_get p t = scan p (tree_iter t)) ∧
  (tree_insert i v t = Err tt ↔ ∃ jw, jw ∈ tree_iter t ∧ overlaps i jw.1 = true) ∧
  (∀ t', tree_insert i v t = Ok t' →
     tree_iter t' ≡ₚ (i, v) :: tree_iter t ∧
     ∀ p, tree_get p t' = if contains i p then Some v else tree_get p t).
Proof.
  intros Ht%reach_ok Hi. split_and!.
  - intros p. apply option_eq. intros w. by rewrite tree_get_spec, scan_spec.
  - rewrite tree_insert_run. etrans; [|etrans; [apply (clash_spec t i Ht Hi)|]].
    + by destruct (_ || _).
    + unfold tree_iter. split.
      * intros (e & He & Ho). exists e.2. split; [by apply list_elem_of_fmap_2|done].
      * intros (jw & [e [-> He]]%list_elem_of_fmap & Ho). by exists e.
  - intros t' Hins. destruct (tree_insert_ok _ _ _ _ Ht Hi Hins) as [Ht' Hp]. split.
    + unfold tree_iter. by rewrite Hp.
    + intros p. apply option_eq. intros w. rewrite tree_get_spec by done. setoid_rewrite Hp.
      destruct (contains i p) eqn:Hc.
      * split; [|intros [= <-]; exists (start i, (i, v)); split; [left|done]].
        intros (e & He & Hce & ->). f_equal.
        rewrite <- (tree_ok_unique t' p (start i, (i, v)) e); try done; rewrite Hp; [left|done].
      * rewrite tree_get_spec by done. unfold covers. set_unfold. split; [|naive_solver].
        intros (e & [->|He] & Hce & ->); [cbn in *; congruence|by exists e].
Qed.

(** Asking to remove an interval that only shares its start with a stored one reports that
    nothing was removed, yet the stored interval is gone. *)
Theorem remove_drops_other_interval t i j v :
  reach t → (j, v) ∈ tree_iter t → start j = start i → j ≠ i →
  (tree_remove i t).1 = None ∧
  tree_get (start j) t = Some v ∧ tree_get (start j) (tree_remove i t).2 = None.
Proof.
  intros Hr Hj Hst Hne. pose proof (reach_ok t Hr) as Ht.
  apply list_elem_of_fmap in Hj as [[k jv] [Hjv Hin]]. cbn in Hjv. subst jv.
  pose proof (proj2 Ht _ Hin) as [Hk Hle]. cbn in Hk, Hle. subst k.
  assert (Hget : ∀ k w, tree_get k t = Some w ↔ ∃ e, e ∈ t ∧ covers k e ∧ w = e.2.2)
    by (intros; by apply tree_get_spec).
  assert (Hcov : covers (start j) (start j, (j, v))).
  { unfold covers, contains. cbn. apply andb_true_iff. rewrite !Z.leb_le. lia. }
  assert (Hfind : bt_get (start i) t = Some (j, v)).
  { rewrite <- Hst. apply bt_get_unique; [done|]. intros e He Hk.
    apply (tree_ok_unique t (start j)); try done. pose proof (proj2 Ht _ He) as [? ?].
    unfold covers, contains. apply andb_true_iff. rewrite !Z.leb_le. lia. }
  split_and!.
  - unfold tree_remove. rewrite Hfind. cbn. by rewrite bool_decide_eq_false_2.
  - apply Hget. by exists (start j, (j, v)).
  - pose proof (tree_remove_ok t i Ht) as Ht'. apply eq_None_not_Some. intros [w Hw].
    apply tree_get_spec in Hw as (e & He & Hc & _); [|done].
    unfold tree_remove in He. rewrite Hfind in He. cbn in He.
    apply list_elem_of_filter in He as [Hkey He]. apply Hkey.
    by rewrite (tree_ok_unique t (start j) e (start j, (j, v))).
Qed.
End IntervalTree.

Definition three : IntervalTree :=
  [(1, (mkClosedInterval 1 5, 10)); (10, (mkClosedInterval 10 15, 20))].

Lemma three_reach : reach three.
Proof.
  apply (reach_insert (bt_insert 10 (mkClosedInterval 10 15, 20) []) _ (mkClosedInterval 1 5) 10);
    [|cbn; lia|reflexivity].
  apply (reach_insert [] _ (mkClosedInterval 10 15) 20); [apply reach_new|cbn; lia|reflexivity].
Qed.

Lemma interval_tree_lookup_witness :
  (∀ p, tree_get p three = scan p (tree_iter three)) ∧
  tree_get 7 (bt_insert 6 (mkClosedInterval 6 9, 30) three) = Some 30.
Proof.
  destruct (interval_tree_lookup three (mkClosedInterval 6 9) 30 three_reach ltac:(cbn; lia))
    as (H1 & _ & H3).
  split; [exact H1|]. destruct (H3 _ eq_refl) as [_ Hg]. exact (Hg 7).
Defined.
End IntervalTree.

(** ** BoundedQueue *)

Module BoundedQueue.
Section BoundedQueue.
Context {T : Type} (U : Z).

Definition queue_push (item : T) (q : list T) : list T :=
  let q := q ++ [item] in
  if U <? zlen q then tail q else q.

(** A queue of capacity [U] holds the last [U] items pushed, oldest first. *)
Lemma queue_holds_last items : 0 <= U →
  fold_left (λ q x, queue_push x q) items [] = drop (length items - Z.to_nat U) items.
Proof.
  intros HU. induction items as [|x items IH] using rev_ind; [done|].
  rewrite fold_left_app. cbn [fold_left]. rewrite IH. unfold queue_push, zlen.
  rewrite !length_app, length_drop. cbn [length].
  destruct (Z.ltb_spec U (Z.of_nat (length items - (length items - Z.to_nat U) + 1))).
  - replace (length items + 1 - Z.to_nat U)%nat with (S (length items - Z.to_nat U)) by lia.
    rewrite <- drop_app_le by lia. change (tail ?l) with (drop 1 l).
    rewrite drop_drop. f_equal. lia.
  - replace (length items + 1 - Z.to_nat U)%nat with 0%nat by lia.
    replace (length items - Z.to_nat U)%nat with 0%nat by lia. done.
Qed.
End BoundedQueue.
End BoundedQueue.

(** ** RunningAverage *)

Module RunningAverage.

Record AverageEntry := mkAverageEntry {
  buffer : list f64;
  max_size : Z;
  sum : f64;
  all_time_pushes : Z;
  min_samples : Z;
}.

Definition entry_new (size : Z) (min : option Z) : AverageEntry :=
  mkAverageEntry [] size (f64_of_Z 0) 0 (default 0 min).

Definition entry_push (value : f64) (e : AverageEntry) : AverageEntry :=
  let '(b, s) :=
    if zlen (buffer e) =? max_size e then
      match buffer e with
      | old :: b => (b, f64_sub (sum e) old)
      | [] => ([], sum e)
      end
    else (buffer e, sum e) in
  mkAverageEntry (b ++ [value]) (max_size e) (f64_add s value)
    (as_u64 (all_time_pushes e + 1)) (min_samples e).

Definition average (e : AverageEntry) : option f64 :=
  if zlen (buffer e) <=? min_samples e then None
  else Some (f64_div (sum e) (f64_of_Z (zlen (buffer e)))).

Notation RunningAverage := (gmap string AverageEntry) (only parsing).

Definition add_entry_if_needed (name : string) (size : Z) (min : option Z) (r : RunningAverage) :
    RunningAverage :=
  if decide (is_Some (r !! name)) then r else <[name := entry_new size min]> r.

(** Pushing to an entry that was never added panics. *)
Definition push (name : string) (value : f64) (r : RunningAverage) : res unit RunningAverage :=
  e ← unwrap (r !! name); Ok (<[name := entry_push value e]> r).

Definition sample (name : string) (r : RunningAverage) : option f64 :=
  r !! name ≫= average.

Definition get_all_averages (r : RunningAverage) : gmap string (option f64) := average <$> r.

(** The window: after any pushes an entry of positive size holds the last [size] values,
    and the count of all pushes. *)
Lemma buffer_window size min vs : 1 <= size → Z.of_nat (length vs) <= u64_max →
  let e := fold_left (λ e v, entry_push v e) vs (entry_new size min) in
  buffer e = drop (length vs - Z.to_nat size) vs ∧ max_size e = size ∧
  all_time_pushes e = Z.of_nat (length vs).
Proof.
  intros Hs. induction vs as [|v vs IH] using rev_ind; [done|].
  rewrite length_app. cbn [length]. intros Hlen.
  destruct IH as (Hb & Hm & Ha); [lia|]. rewrite fold_left_app. cbn [fold_left].
  set (e := fold_left _ vs _) in *. unfold entry_push. rewrite Hm, Ha, Hb.
  unfold zlen. rewrite length_drop.
  assert (Hu : as_u64 (Z.of_nat (length vs) + 1) = Z.of_nat (length vs + 1)).
  { unfold as_u64, u64_max in *. rewrite Z.mod_small by lia. lia. }
  destruct (Z.eqb_spec (Z.of_nat (length vs - (length vs - Z.to_nat size))) size) as [He|He].
  - destruct (drop (length vs - Z.to_nat size) vs) as [|x b] eqn:Hd.
    { apply (f_equal length) in Hd. rewrite length_drop in Hd. cbn in Hd. lia. }
    cbn. split_and!; [|done|done].
    replace (length vs + 1 - Z.to_nat size)%nat with (S (length vs - Z.to_nat size)) by lia.
    rewrite drop_app_le by lia. f_equal. change b with (drop 1 (x :: b)).
    rewrite <- Hd, drop_drop. f_equal. lia.
  - cbn. split_and!; [|done|done].
    replace (length vs + 1 - Z.to_nat size)%nat with 0%nat by lia.
    by replace (length vs - Z.to_nat size)%nat with 0%nat by lia.
Qed.

(** The sum is kept by subtracting what leaves the window, so a NaN that was pushed once
    stays in the average for good, also when the window no longer holds it. *)
Lemma nan_stays e vs : sum e = S754_nan →
  let e' := fold_left (λ e v, entry_push v e) vs e in
  sum e' = S754_nan ∧ (average e' = None ∨ average e' = Some S754_nan).
Proof.
  intros He. assert (Hs : sum (fold_left (λ e v, entry_push v e) vs e) = S754_nan).
  { revert e He. induction vs as [|v vs IH]; intros e He; [done|]. cbn [fold_left].
    apply IH. unfold entry_push. rewrite He.
    destruct (_ =? _); [destruct (buffer e)|]; done. }
  cbn zeta. split; [exact Hs|]. unfold average.
  destruct (_ <=? _); [by left|right]. by rewrite Hs.
Qed.

(** A window of two values after a NaN and three ones: the window is clean, the average not. *)
Lemma nan_outlives_window :
  let e := fold_left (λ e v, entry_push v e)
             [S754_nan; f64_of_Z 1; f64_of_Z 1; f64_of_Z 1] (entry_new 2 None) in
  buffer e = [f64_of_Z 1; f64_of_Z 1] ∧ average e = Some S754_nan.
Proof. vm_compute. done. Qed.
End RunningAverage.
