(* ===== verification/Barrier.v ===== *)
(** * The cancellable barrier

    src/shared/core/src/cancellable_barrier.rs: the barrier at which the threads of a
    trainer meet.  Every critical section is one step: entering [wait] up to the point
    where it returns or parks on the condition variable, resuming after a wake-up with the
    lock held again, [cancel] and [reset].  A condition variable may also wake a thread
    for no reason.  Any interleaving of the threads is a list of such steps. *)

From stdpp Require Import base tactics list numbers decidable gmap.
From S2P Require Import Prelude.

Open Scope Z_scope.

(** A thread inside [wait], with the generation it read on entering. *)
Inductive Waiter := Parked (generation : Z) | Woken (generation : Z).

Record BarrierState := mkBarrier {
  count : Z;
  total : Z;
  generation : Z;
  cancelled : bool;
  waiters : gmap nat Waiter;
}.

Definition barrier_new (n : Z) : res unit BarrierState :=
  res_assert (0 <? n) ;; Ok (mkBarrier 0 n 0 false ∅).

Inductive BarrierStep := Enter (t : nat) | Spurious (t : nat) | Resume (t : nat) | Cancel | Reset.

(** What happened: a thread joined a generation, or returned from [wait]. *)
Inductive BarrierEvent := Arrived (t : nat) (g : Z) | Returned (t : nat) (g : Z) (ok : bool).

Definition wake (w : Waiter) : Waiter := match w with Parked g | Woken g => Woken g end.
Definition notify_all (ws : gmap nat Waiter) : gmap nat Waiter := wake <$> ws.

Definition wait_enter (t : nat) (s : BarrierState) : BarrierState * list BarrierEvent :=
  if cancelled s then (s, [Returned t (generation s) false])
  else
    let g := generation s in
    let c := count s + 1 in
    if c <? total s then
      (mkBarrier c (total s) g false (<[t := Parked g]> (waiters s)), [Arrived t g])
    else
      (mkBarrier 0 (total s) (as_u64 (g + 1)) false (notify_all (waiters s)),
       [Arrived t g; Returned t g true]).

(** The loop condition, checked again with the lock held. *)
Definition wait_resume (t : nat) (g : Z) (s : BarrierState) : BarrierState * list BarrierEvent :=
  let put ws := mkBarrier (count s) (total s) (generation s) (cancelled s) ws in
  if (count s <? total s) && (generation s =? g) && negb (cancelled s) then
    (put (<[t := Parked g]> (waiters s)), [])
  else (put (delete t (waiters s)), [Returned t g (negb (cancelled s))]).

Definition cancel (s : BarrierState) : BarrierState :=
  mkBarrier (count s) (total s) (generation s) true (notify_all (waiters s)).

Definition reset (s : BarrierState) : BarrierState :=
  mkBarrier 0 (total s) (as_u64 (generation s + 1)) false (waiters s).

(** One step of the threads; [None] when it is not possible. *)
Definition barrier_step (e : BarrierStep) (s : BarrierState) :
    option (BarrierState * list BarrierEvent) :=
  match e with
  | Enter t => match waiters s !! t with None => Some (wait_enter t s) | Some _ => None end
  | Spurious t =>
      match waiters s !! t with
      | Some (Parked g) =>
          Some (mkBarrier (count s) (total s) (generation s) (cancelled s)
                  (<[t := Woken g]> (waiters s)), [])
      | _ => None
      end
  | Resume t =>
      match waiters s !! t with Some (Woken g) => Some (wait_resume t g s) | _ => None end
  | Cancel => Some (cancel s, [])
  | Reset => Some (reset s, [])
  end.

Fixpoint barrier_run (es : list BarrierStep) (s : BarrierState) :
    option (BarrierState * list BarrierEvent) :=
  match es with
  | [] => Some (s, [])
  | e :: es' =>
      '(s1, l1) ← barrier_step e s;
      '(s2, l2) ← barrier_run es' s1;
      Some (s2, l1 ++ l2)
  end.

(** [reset] is used between two jobs, when no thread is inside [wait]. *)
Inductive quiet_resets : list BarrierStep → BarrierState → Prop :=
| quiet_nil s : quiet_resets [] s
| quiet_cons e es s :
    (e = Reset → waiters s = ∅) →
    (∀ s' l, barrier_step e s = Some (s', l) → quiet_resets es s') →
    quiet_resets (e :: es) s.

(** ** The invariant *)

Definition arrived_in (g : Z) (ev : BarrierEvent) : bool :=
  match ev with Arrived _ g' => g' =? g | _ => false end.
Definition arrivals (g : Z) (l : list BarrierEvent) : Z :=
  zlen (filter (λ ev, arrived_in g ev = true) l).

Definition waiter_ok (s : BarrierState) (full : Z → Prop) (w : Waiter) : Prop :=
  match w with
  | Parked g => g = generation s ∧ cancelled s = false
  | Woken g => g <= generation s ∧ (g < generation s → full g)
  end.

Record barrier_inv (n : Z) (l : list BarrierEvent) (s : BarrierState) : Prop := {
  inv_total : total s = n;
  inv_count : 0 <= count s < n;
  inv_current : arrivals (generation s) l = count s;
  inv_future : ∀ g, generation s < g → arrivals g l = 0;
  inv_waiters : ∀ t w, waiters s !! t = Some w → waiter_ok s (λ g, arrivals g l = n) w;
  inv_released : ∀ t g, Returned t g true ∈ l → g < generation s ∧ arrivals g l = n;
}.

Lemma arrivals_app g l1 l2 : arrivals g (l1 ++ l2) = arrivals g l1 + arrivals g l2.
Proof. unfold arrivals, zlen. rewrite filter_app, length_app. lia. Qed.

Lemma arrivals_quiet g l : (∀ ev, ev ∈ l → arrived_in g ev = false) → arrivals g l = 0.
Proof.
  intros Hq. unfold arrivals, zlen.
  destruct (filter _ l) as [|ev l'] eqn:Hf; [done|]. exfalso.
  assert (Hin : ev ∈ filter (λ ev, arrived_in g ev = true) l) by (rewrite Hf; left).
  apply list_elem_of_filter in Hin as [Ht Hin]. specialize (Hq _ Hin). congruence.
Qed.

(** The events of a step: none arrives, or one thread arrives in the current generation. *)
Lemma arrivals_arrived g t g' l :
  (∀ ev, ev ∈ l → arrived_in g ev = false) →
  arrivals g (Arrived t g' :: l) = if g' =? g then 1 else 0.
Proof.
  intros Hq. change (Arrived t g' :: l) with ([Arrived t g'] ++ l).
  rewrite arrivals_app, (arrivals_quiet g l Hq). unfold arrivals, zlen. rewrite filter_cons.
  cbn [arrived_in]. case_decide as Hg; destruct (g' =? g); done.
Qed.

(** Steps in which nobody arrives and the generation stays. *)
Lemma inv_frame n l l' s s' :
  barrier_inv n l s →
  total s' = total s → count s' = count s → generation s' = generation s →
  (∀ g ev, ev ∈ l' → arrived_in g ev = false) →
  (∀ t w, waiters s' !! t = Some w → waiter_ok s' (λ g, arrivals g l = n) w) →
  (∀ t g, Returned t g true ∈ l' → g < generation s ∧ arrivals g l = n) →
  barrier_inv n (l ++ l') s'.
Proof.
  intros I Ht Hc Hg Hq Hw Hr.
  assert (Ha : ∀ g, arrivals g (l ++ l') = arrivals g l).
  { intros g. rewrite arrivals_app, (arrivals_quiet g l') by apply Hq. lia. }
  destruct I as [It Ic Icur If Iw Ir].
  constructor; rewrite ?Ht, ?Hc, ?Hg, ?Ha; try done.
  - intros g Hlt. rewrite Ha. by apply If.
  - intros t w Hl. specialize (Hw t w Hl). destruct w; cbn in *; rewrite ?Ha; done.
  - intros t g. rewrite Ha, elem_of_app. intros [Hin|Hin]; [by eapply Ir|by eapply Hr].
Qed.

Lemma notify_all_Some ws t w : notify_all ws !! t = Some w ↔
  ∃ w', ws !! t = Some w' ∧ w = wake w'.
Proof. unfold notify_all. rewrite lookup_fmap_Some. naive_solver. Qed.

(** A thread arrives and parks. *)
Lemma inv_park n l s t : barrier_inv n l s → cancelled s = false → count s + 1 < total s →
  barrier_inv n (l ++ [Arrived t (generation s)])
    (mkBarrier (count s + 1) (total s) (generation s) false
       (<[t := Parked (generation s)]> (waiters s))).
Proof.
  intros [It Ic Icur If Iw Ir] Hc Hlt.
  assert (Ha : ∀ g, arrivals g (l ++ [Arrived t (generation s)]) =
    arrivals g l + if generation s =? g then 1 else 0).
  { intros g. rewrite arrivals_app, arrivals_arrived; [done|set_solver]. }
  constructor; cbn; [done|lia| | | |].
  - rewrite Ha, Z.eqb_refl. lia.
  - intros g Hg. rewrite Ha, If, (proj2 (Z.eqb_neq _ _)) by lia. done.
  - intros t' w. rewrite lookup_insert_Some. intros [[_ <-]|[_ Hw]]; [done|].
    specialize (Iw _ _ Hw). destruct w as [g|g]; cbn in *; [naive_solver|].
    split; [lia|]. intros Hg. rewrite Ha, (proj2 (Z.eqb_neq _ _)) by lia. naive_solver lia.
  - intros t' g. rewrite elem_of_app. intros [Hin|Hin]; [|set_solver].
    destruct (Ir _ _ Hin) as [Hg Hfull]. split; [done|].
    rewrite Ha, (proj2 (Z.eqb_neq _ _)) by lia. lia.
Qed.

(** The last thread arrives: its generation is complete and everybody is woken. *)
Lemma inv_trip n l s t : barrier_inv n l s → cancelled s = false → count s + 1 = total s →
  barrier_inv n (l ++ [Arrived t (generation s); Returned t (generation s) true])
    (mkBarrier 0 (total s) (generation s + 1) false (notify_all (waiters s))).
Proof.
  intros [It Ic Icur If Iw Ir] Hc Heq.
  assert (Ha : ∀ g, arrivals g (l ++ [Arrived t (generation s); Returned t (generation s) true]) =
    arrivals g l + if generation s =? g then 1 else 0).
  { intros g. rewrite arrivals_app, arrivals_arrived; [done|].
    intros ev ->%list_elem_of_singleton. done. }
  constructor; cbn; [done|lia| | | |].
  - rewrite Ha, (proj2 (Z.eqb_neq _ _)), If by lia. done.
  - intros g Hg. rewrite Ha, If, (proj2 (Z.eqb_neq _ _)) by lia. done.
  - intros t' w (w' & Hw & ->)%notify_all_Some. specialize (Iw _ _ Hw).
    destruct w' as [g|g]; cbn in *.
    + destruct Iw as [-> _]. split; [lia|]. intros _. rewrite Ha, Z.eqb_refl. lia.
    + destruct Iw as [Hg Hfull]. split; [lia|]. intros _. rewrite Ha.
      destruct (Z.eqb_spec (generation s) g) as [<-|]; [lia|]. rewrite Hfull by lia. lia.
  - intros t' g. rewrite elem_of_app. intros [Hin|Hin].
    + destruct (Ir _ _ Hin) as [Hg Hfull]. split; [lia|].
      rewrite Ha, (proj2 (Z.eqb_neq _ _)) by lia. lia.
    + apply elem_of_cons in Hin as [?|Hin%list_elem_of_singleton]; [done|]. simplify_eq.
      split; [lia|]. rewrite Ha, Z.eqb_refl. lia.
Qed.

Lemma inv_reset n l s : barrier_inv n l s → waiters s = ∅ → 0 < n →
  barrier_inv n l (mkBarrier 0 (total s) (generation s + 1) false (waiters s)).
Proof.
  intros [It Ic Icur If Iw Ir] Hw Hn. constructor; cbn; [done|lia| | | |].
  - apply If. lia.
  - intros g Hg. apply If. lia.
  - rewrite Hw. intros t w Hl. by rewrite lookup_empty in Hl.
  - intros t g Hin. destruct (Ir _ _ Hin). split; [lia|done].
Qed.

Lemma inv_resume n l s t g : barrier_inv n l s → waiters s !! t = Some (Woken g) →
  barrier_inv n (l ++ (wait_resume t g s).2) (wait_resume t g s).1.
Proof.
  intros I Ht. pose proof (inv_waiters _ _ _ I _ _ Ht) as [Hle Hfull].
  pose proof (inv_count _ _ _ I) as Hc. rewrite <- (inv_total _ _ _ I) in Hc.
  unfold wait_resume. rewrite (proj2 (Z.ltb_lt _ _)) by lia. cbn [andb].
  destruct ((generation s =? g) && negb (cancelled s)) eqn:Hcond; cbn [fst snd].
  - apply andb_true_iff in Hcond as [<-%Z.eqb_eq Hnc%negb_true_iff].
    apply (inv_frame n l [] s); cbn; try done; [by intros ? ? ?%not_elem_of_nil| |by intros ? ? ?%not_elem_of_nil].
    intros t' w. rewrite lookup_insert_Some. intros [[_ <-]|[_ Hw]]; [done|].
    by apply (inv_waiters _ _ _ I _ _ Hw).
  - apply (inv_frame n l _ s); cbn; try done.
    + intros g' ev ->%list_elem_of_singleton. done.
    + intros t' w. rewrite lookup_delete_Some. intros [_ Hw].
      by apply (inv_waiters _ _ _ I _ _ Hw).
    + intros t' g' Hin%list_elem_of_singleton. injection Hin as _ -> Hok.
      rewrite <- Hok in Hcond. rewrite andb_true_r in Hcond. apply Z.eqb_neq in Hcond.
      split; [lia|]. apply Hfull. lia.
Qed.

Lemma inv_step n l s e s' l' :
  0 < n → (e = Reset → waiters s = ∅) → 0 <= generation s < u64_max →
  barrier_inv n l s → barrier_step e s = Some (s', l') → barrier_inv n (l ++ l') s'.
Proof.
  intros Hn Hq Hgen I Hstep.
  assert (Hg1 : as_u64 (generation s + 1) = generation s + 1)
    by (unfold as_u64, u64_max in *; rewrite Z.mod_small; lia).
  destruct e as [t|t|t| |]; cbn in Hstep.
  - destruct (waiters s !! t); [done|]. injection Hstep as Hstep. unfold wait_enter in Hstep.
    destruct (cancelled s) eqn:Hc.
    + simplify_eq. apply (inv_frame n l _ s'); try done; [|apply I|].
      * intros g ev ->%list_elem_of_singleton. done.
      * intros t' g Hin%list_elem_of_singleton. done.
    + pose proof (inv_count _ _ _ I). pose proof (inv_total _ _ _ I).
      destruct (Z.ltb_spec (count s + 1) (total s)); simplify_eq; [by apply inv_park|].
      rewrite Hg1. apply inv_trip; [done|done|lia].
  - destruct (waiters s !! t) as [[g|g]|] eqn:Ht; [|done|done]. simplify_eq.
    pose proof (inv_waiters _ _ _ I _ _ Ht) as [-> Hc].
    apply (inv_frame n l [] s); cbn; try done; [by intros ? ? ?%not_elem_of_nil| |by intros ? ? ?%not_elem_of_nil].
    intros t' w. rewrite lookup_insert_Some. intros [[_ <-]|[_ Hw]]; [cbn; lia|].
    by apply (inv_waiters _ _ _ I _ _ Hw).
  - destruct (waiters s !! t) as [[g|g]|] eqn:Ht; [done| |done]. injection Hstep as Hstep.
    pose proof (inv_resume n l s t g I Ht) as Hr. by rewrite Hstep in Hr.
  - simplify_eq. apply (inv_frame n l [] s); cbn; try done; [by intros ? ? ?%not_elem_of_nil| |by intros ? ? ?%not_elem_of_nil].
    intros t' w (w' & Hw & ->)%notify_all_Some. pose proof (inv_waiters _ _ _ I _ _ Hw) as Hok.
    destruct w'; cbn in *; [lia|done].
  - simplify_eq. rewrite app_nil_r. unfold reset. rewrite Hg1. apply inv_reset; auto.
Qed.

Lemma generation_step e s s' l : 0 <= generation s < u64_max →
  barrier_step e s = Some (s', l) → 0 <= generation s' <= generation s + 1.
Proof.
  intros Hg Hstep.
  assert (Hg1 : as_u64 (generation s + 1) = generation s + 1)
    by (unfold as_u64, u64_max in *; rewrite Z.mod_small; lia).
  destruct e; cbn in Hstep; unfold wait_enter, wait_resume in Hstep;
    repeat case_match; simplify_eq; cbn; rewrite ?Hg1; lia.
Qed.

Lemma barrier_run_cons e es s r : barrier_run (e :: es) s = Some r ↔
  ∃ s1 l1 s2 l2, barrier_step e s = Some (s1, l1) ∧ barrier_run es s1 = Some (s2, l2) ∧
    r = (s2, l1 ++ l2).
Proof.
  cbn [barrier_run]. destruct (barrier_step e s) as [[s1 l1]|]; cbn; [|naive_solver].
  destruct (barrier_run es s1) as [[s2 l2]|] eqn:Hr; cbn; naive_solver.
Qed.

Lemma inv_run n es l s s' l' :
  0 < n → 0 <= generation s → generation s + zlen es <= u64_max → quiet_resets es s →
  barrier_inv n l s → barrier_run es s = Some (s', l') → barrier_inv n (l ++ l') s'.
Proof.
  intros Hn. revert l s l'. induction es as [|e es IH]; intros l s l' Hg0 Hlen Hq I Hrun.
  { cbn in Hrun. simplify_eq. by rewrite app_nil_r. }
  apply barrier_run_cons in Hrun as (s1 & l1 & s2 & l2 & H1 & H2 & ?). simplify_eq.
  inversion Hq as [|? ? ? Hquiet Hrest]; subst. unfold zlen in *. cbn [length] in Hlen.
  assert (Hb : 0 <= generation s < u64_max) by lia.
  pose proof (generation_step _ _ _ _ Hb H1) as Hg.
  rewrite app_assoc. eapply (IH (l ++ l1) s1); [lia|lia|by eapply Hrest| |done].
  by eapply inv_step.
Qed.

Lemma inv_new n s : barrier_new n = Ok s → 0 < n ∧ barrier_inv n [] s ∧ generation s = 0.
Proof.
  unfold barrier_new. destruct (Z.ltb_spec 0 n); cbn; [|done]. intros. simplify_eq.
  split; [done|]. split; [|done]. constructor; cbn; try done; try lia; set_solver.
Qed.

(** ** Theorems *)

(** Whatever the threads do, in any order, with spurious wake-ups and cancellations, and
    resets only while nobody waits: a wait of generation [g] returns without an error only
    after exactly as many threads as the barrier's size arrived in [g].  A thread that is
    still parked waits for an incomplete generation that is not cancelled; any other
    waiter has been woken, and when it runs it returns, with an error exactly when the
    barrier is cancelled. *)
Theorem barrier_releases_together n es s0 s l :
  barrier_new n = Ok s0 → zlen es <= u64_max → quiet_resets es s0 →
  barrier_run es s0 = Some (s, l) →
  (∀ t g, Returned t g true ∈ l → arrivals g l = n) ∧
  (∀ t g, waiters s !! t = Some (Parked g) →
     g = generation s ∧ cancelled s = false ∧ arrivals g l < n) ∧
  (∀ t g, waiters s !! t = Some (Woken g) → g ≠ generation s ∨ cancelled s = true →
     ∃ s', barrier_step (Resume t) s = Some (s', [Returned t g (negb (cancelled s))]) ∧
       waiters s' !! t = None).
Proof.
  intros Hnew Hlen Hq Hrun. destruct (inv_new n s0 Hnew) as (Hn & I0 & Hg0).
  assert (I : barrier_inv n l s)
    by (apply (inv_run n es [] s0 s l); try done; rewrite Hg0; lia).
  split_and!.
  - intros t g Hin. by apply (inv_released _ _ _ I t g).
  - intros t g Hw. destruct (inv_waiters _ _ _ I _ _ Hw) as [-> Hc].
    split_and!; [done|done|]. rewrite (inv_current _ _ _ I). apply (inv_count _ _ _ I).
  - intros t g Hw Hover. cbn. rewrite Hw. unfold wait_resume.
    assert (Hcond : (generation s =? g) && negb (cancelled s) = false).
    { apply andb_false_iff. destruct Hover as [?| ->]; [left; by apply Z.eqb_neq|by right]. }
    rewrite <- andb_assoc, Hcond, andb_false_r. eexists. split; [done|]. apply lookup_delete_eq.
Qed.

(** The condition on resets is needed: a waiter that is woken by a cancellation but runs
    only after the following reset returns as if the barrier had been complete. *)
Lemma reset_hides_cancellation s t g :
  waiters s !! t = Some (Parked g) → 0 <= generation s < u64_max → g = generation s →
  ∃ s', barrier_run [Cancel; Reset; Resume t] s = Some (s', [Returned t g true]).
Proof.
  intros Hw Hgen ->.
  assert (Hn : notify_all (waiters s) !! t = Some (Woken (generation s)))
    by (apply notify_all_Some; eauto).
  exists (mkBarrier 0 (total s) (as_u64 (generation s + 1)) false
            (delete t (notify_all (waiters s)))).
  apply barrier_run_cons. do 4 eexists. split; [done|]. split; [|done].
  apply barrier_run_cons. do 4 eexists. split; [done|]. split; [|done].
  apply barrier_run_cons. eexists _, [Returned t (generation s) true], _, [].
  split; [|by split; [cbn; reflexivity|]].
  cbn [barrier_step]. change (waiters (reset (cancel s))) with (notify_all (waiters s)).
  rewrite Hn. unfold wait_resume. cbn [count total generation cancelled reset cancel waiters].
  rewrite (proj2 (Z.eqb_neq _ _)); [by rewrite andb_false_r|].
  unfold as_u64, u64_max in *. rewrite Z.mod_small by lia. lia.
Qed.

(** Two threads: the first parks and is woken spuriously, the second completes the
    generation, and the first returns. *)
Definition meeting : list BarrierStep := [Enter 1; Spurious 1; Resume 1; Enter 2; Resume 1].

Lemma meeting_quiet s : quiet_resets meeting s.
Proof. repeat (constructor; [done|intros ? ? _]). constructor. Qed.

Lemma barrier_releases_together_witness :
  ∃ s l, barrier_run meeting (mkBarrier 0 2 0 false ∅) = Some (s, l) ∧
    arrivals 0 l = 2 ∧ waiters s = ∅.
Proof.
  eexists _, _. split; [vm_compute; reflexivity|].
  match goal with |- arrivals 0 ?l = 2 ∧ waiters ?s = ∅ =>
    destruct (barrier_releases_together 2 meeting (mkBarrier 0 2 0 false ∅) s l) as (H & _) end.
  - reflexivity.
  - vm_compute. discriminate.
  - apply meeting_quiet.
  - vm_compute. reflexivity.
  - split; [|reflexivity]. apply (H 1%nat 0). set_solver.
Defined.
