(* ===== verification/Scheduler.v ===== *)
(** * The download scheduler

    src/shared/network/src/download/scheduler.rs: the actor that bounds how many model
    parameters a client downloads at once and keeps the downloads that failed until they
    may be tried again.  The actor handles one message at a time, so its behaviour is a
    function of the message, of [Instant::now()] and of which requesters still wait for
    an answer (a [oneshot] send fails once its receiver is dropped); it returns the new
    state and the answers that were delivered.  Blob tickets and tags are types of
    another crate, of which only the ticket's hash is used, and the order in which a
    [HashMap] is walked is unspecified: both are parameters. *)

From stdpp Require Import base tactics list numbers decidable gmap strings sorting.
From Stdlib Require Import SpecFloat.
From S2P Require Import Prelude Float.

Open Scope Z_scope.

(** ** Durations and instants, in nanoseconds *)

Definition NANOS_PER_SEC : Z := 10 ^ 9.

Definition f32 : Type := spec_float.
Definition f32_of_Z (z : Z) : f32 := binary_normalize 24 128 z 0 false.
Definition f32_add : f32 → f32 → f32 := SFadd 24 128.
Definition f32_mul : f32 → f32 → f32 := SFmul 24 128.
Definition f32_div : f32 → f32 → f32 := SFdiv 24 128.

(** [usize as i32], and [2_f32.powi(n)]. *)
Definition as_i32 (z : Z) : Z := (z + 2 ^ 31) mod 2 ^ 32 - 2 ^ 31.
Definition two_powi (n : Z) : f32 := binary_normalize 24 128 1 n false.

Definition as_secs_f32 (d : Z) : f32 :=
  f32_add (f32_of_Z (d / NANOS_PER_SEC))
          (f32_div (f32_of_Z (d mod NANOS_PER_SEC)) (f32_of_Z NANOS_PER_SEC)).

(** The integer nearest to [a / b], ties to even. *)
Definition round_div_even (a b : Z) : Z :=
  let q := a / b in
  let r := 2 * (a mod b) in
  if (b <? r) || ((r =? b) && Z.odd q) then q + 1 else q.

(** [Duration::from_secs_f32] panics on a negative value, on NaN, and when the seconds do
    not fit [u64]. *)
Definition from_secs_f32 {E} (x : f32) : res E Z :=
  match x with
  | S754_zero _ => Ok 0
  | S754_finite false m e =>
      let ns := if 0 <=? e then Zpos m * 2 ^ e * NANOS_PER_SEC
                else round_div_even (Zpos m * NANOS_PER_SEC) (2 ^ (- e)) in
      if ns / NANOS_PER_SEC <=? u64_max then Ok ns else Panic
  | _ => Panic
  end.

Definition mul_f32 {E} (d : Z) (x : f32) : res E Z := from_secs_f32 (f32_mul x (as_secs_f32 d)).

(** [Instant + Duration] panics when the seconds do not fit [i64]. *)
Definition instant_add {E} (t d : Z) : res E Z :=
  if (t + d) / NANOS_PER_SEC <=? i64_max then Ok (t + d) else Panic.

(** ** The actor *)

Record RetryConfig := mkRetryConfig {
  backoff_base : Z;
  max_distro_retries : Z;
}.
Definition RetryConfig_default : RetryConfig := mkRetryConfig (2 * NANOS_PER_SEC) 3.

Inductive ModelRequestType := Config | ModelParameter (name : string).

Inductive DownloadType :=
| DistroResult (peers : list (list Z))
| ModelSharing (request : ModelRequestType).

Inductive RetryQueueResult := Queued | MaxRetriesExceeded.

Notation Hash := (list Z) (only parsing).

(** The part of the blob store's types the scheduler uses. *)
Class Blobs := {
  BlobTicket : Type;
  Tag : Type;
  ticket_hash : BlobTicket → Hash;
}.

Section Actor.
Context `{B : Blobs}.

Record RetryEntry := mkRetryEntry {
  re_retries : Z;
  re_retry_time : option Z;
  re_ticket : BlobTicket;
  re_tag : Tag;
  re_download_type : DownloadType;
}.

Record ReadyRetry := mkReadyRetry {
  rr_hash : Hash;
  rr_ticket : BlobTicket;
  rr_tag : Tag;
  rr_download_type : DownloadType;
  rr_retries : Z;
}.

Definition into_ready_retry (e : RetryEntry) (hash : Hash) : ReadyRetry :=
  mkReadyRetry hash (re_ticket e) (re_tag e) (re_download_type e) (re_retries e).

(** A requester is named by its [oneshot] channel. *)
Inductive SchedulerMessage :=
| WaitForCapacity (response : nat)
| ReleaseCapacity
| QueueFailedDownload (ticket : BlobTicket) (tag : Tag) (download_type : DownloadType)
    (response : nat)
| RemoveRetry (hash : Hash) (response : nat)
| StartParameterRetry (response : nat)
| GetDueConfigRetries (response : nat)
| GetDueDistroRetries (response : nat).

Inductive Reply :=
| Granted
| QueueResult (r : RetryQueueResult)
| Removed (b : bool)
| OneRetry (r : option ReadyRetry)
| Retries (l : list ReadyRetry).

Record DownloadSchedulerActor := mkActor {
  active_downloads : Z;
  max_concurrent : Z;
  waiting_for_capacity : list nat;
  retry_entries : gmap Hash RetryEntry;
  retry_config : RetryConfig;
}.

Definition actor_new (max_concurrent : Z) (retry_config : RetryConfig) : DownloadSchedulerActor :=
  mkActor 0 max_concurrent [] ∅ retry_config.

Definition set_active (x : Z) (a : DownloadSchedulerActor) : DownloadSchedulerActor :=
  mkActor x (max_concurrent a) (waiting_for_capacity a) (retry_entries a) (retry_config a).
Definition set_waiting (x : list nat) (a : DownloadSchedulerActor) : DownloadSchedulerActor :=
  mkActor (active_downloads a) (max_concurrent a) x (retry_entries a) (retry_config a).
Definition set_entries (x : gmap Hash RetryEntry) (a : DownloadSchedulerActor) :
    DownloadSchedulerActor :=
  mkActor (active_downloads a) (max_concurrent a) (waiting_for_capacity a) x (retry_config a).

(** The order in which a hash map is walked: some order of its entries. *)
Class MapOrder := map_iter : gmap Hash RetryEntry → list (Hash * RetryEntry).
Class MapOrderLaws (O : MapOrder) : Prop := map_iter_perm m : map_iter m ≡ₚ map_to_list m.

Context {O : MapOrder}.

Definition take_retry (st : gmap Hash RetryEntry * list ReadyRetry) (hash : Hash) :
    gmap Hash RetryEntry * list ReadyRetry :=
  match fst st !! hash with
  | Some e => (delete hash (fst st), snd st ++ [into_ready_retry e hash])
  | None => st
  end.

Definition drain_retries (predicate : RetryEntry → bool) (m : gmap Hash RetryEntry) :
    gmap Hash RetryEntry * list ReadyRetry :=
  let due_hashes := fst <$> filter (λ kv, predicate (snd kv) = true) (map_iter m) in
  fold_left take_retry due_hashes (m, []).

(** The answer reaches the requester if it still waits. *)
Definition send (live : nat → bool) (response : nat) (r : Reply) : list (nat * Reply) :=
  if live response then [(response, r)] else [].

(** The waiters left once one has been served, and the one served. *)
Fixpoint pop_waiters (live : nat → bool) (ws : list nat) : option nat * list nat :=
  match ws with
  | [] => (None, [])
  | w :: ws' => if live w then (Some w, ws') else pop_waiters live ws'
  end.

Definition notify_next_waiter (live : nat → bool) (a : DownloadSchedulerActor) :
    DownloadSchedulerActor * list (nat * Reply) :=
  match pop_waiters live (waiting_for_capacity a) with
  | (Some w, ws) => (set_active (active_downloads a + 1) (set_waiting ws a), [(w, Granted)])
  | (None, ws) => (set_waiting ws a, [])
  end.

Definition is_parameter (e : RetryEntry) : bool :=
  match re_download_type e with ModelSharing (ModelParameter _) => true | _ => false end.
Definition is_config (e : RetryEntry) : bool :=
  match re_download_type e with ModelSharing Config => true | _ => false end.
Definition is_distro (e : RetryEntry) : bool :=
  match re_download_type e with DistroResult _ => true | _ => false end.

(** [retry_time.map(|t| now >= t).unwrap_or(default)]. *)
Definition due (now : Z) (default : bool) (e : RetryEntry) : bool :=
  match re_retry_time e with Some t => t <=? now | None => default end.

Definition queue_failed_download (now : Z) (ticket : BlobTicket) (tag : Tag) (dt : DownloadType)
    (a : DownloadSchedulerActor) : res Empty_set (DownloadSchedulerActor * RetryQueueResult) :=
  let hash := ticket_hash ticket in
  let prev_retries := default 0 (re_retries <$> retry_entries a !! hash) in
  match dt with
  | ModelSharing _ =>
      Ok (set_entries (<[hash := mkRetryEntry (as_u64 (prev_retries + 1)) None ticket tag dt]>
                         (retry_entries a)) a, Queued)
  | DistroResult _ =>
      let new_retries := as_u64 (prev_retries + 1) in
      if max_distro_retries (retry_config a) <? new_retries then
        Ok (set_entries (delete hash (retry_entries a)) a, MaxRetriesExceeded)
      else
        backoff ← mul_f32 (backoff_base (retry_config a)) (two_powi (as_i32 prev_retries));
        retry_time ← instant_add now backoff;
        Ok (set_entries (<[hash := mkRetryEntry new_retries (Some retry_time) ticket tag dt]>
                           (retry_entries a)) a, Queued)
  end.

Definition start_parameter_retry (now : Z) (a : DownloadSchedulerActor) :
    res Empty_set (DownloadSchedulerActor * option ReadyRetry) :=
  if max_concurrent a <=? active_downloads a then Ok (a, None) else
  match list_find (λ kv, is_parameter (snd kv) && due now true (snd kv) = true)
          (map_iter (retry_entries a)) with
  | Some (_, (hash, _)) =>
      entry ← unwrap (retry_entries a !! hash);
      Ok (set_entries (delete hash (retry_entries a)) (set_active (active_downloads a + 1) a),
          Some (into_ready_retry entry hash))
  | None => Ok (a, None)
  end.

Definition handle_message (now : Z) (live : nat → bool) (m : SchedulerMessage)
    (a : DownloadSchedulerActor) : res Empty_set (DownloadSchedulerActor * list (nat * Reply)) :=
  match m with
  | WaitForCapacity response =>
      if active_downloads a <? max_concurrent a then
        Ok (set_active (active_downloads a + 1) a, send live response Granted)
      else Ok (set_waiting (waiting_for_capacity a ++ [response]) a, [])
  | ReleaseCapacity =>
      Ok (notify_next_waiter live (set_active (sat_sub (active_downloads a) 1) a))
  | QueueFailedDownload ticket tag dt response =>
      '(a', r) ← queue_failed_download now ticket tag dt a;
      Ok (a', send live response (QueueResult r))
  | RemoveRetry hash response =>
      Ok (set_entries (delete hash (retry_entries a)) a,
          send live response (Removed (bool_decide (is_Some (retry_entries a !! hash)))))
  | StartParameterRetry response =>
      '(a', r) ← start_parameter_retry now a;
      Ok (a', send live response (OneRetry r))
  | GetDueConfigRetries response =>
      let '(m', l) := drain_retries is_config (retry_entries a) in
      Ok (set_entries m' a, send live response (Retries l))
  | GetDueDistroRetries response =>
      let '(m', l) := drain_retries (λ e, is_distro e && due now false e) (retry_entries a) in
      Ok (set_entries m' a, send live response (Retries l))
  end.

(** The actor's loop: the messages in the order of the channel, each with the time and the
    requesters still waiting when it is handled; the answers in the order they were sent. *)
Definition event : Type := Z * (nat → bool) * SchedulerMessage.

Fixpoint download_scheduler_actor (a : DownloadSchedulerActor) (es : list event) :
    res Empty_set (DownloadSchedulerActor * list (nat * Reply)) :=
  match es with
  | [] => Ok (a, [])
  | (now, live, m) :: es' =>
      '(a', out) ← handle_message now live m a;
      '(a'', out') ← download_scheduler_actor a' es';
      Ok (a'', out ++ out')
  end.
End Actor.

(** ** Draining the retry map *)

Section Facts.
Context `{B : Blobs} {O : MapOrder} {OL : MapOrderLaws O}.

Definition ready (kv : Hash * RetryEntry) : ReadyRetry := into_ready_retry (snd kv) (fst kv).

Lemma map_iter_lookup m k e : (k, e) ∈ map_iter m ↔ m !! k = Some e.
Proof. rewrite (map_iter_perm m). apply elem_of_map_to_list. Qed.

Lemma map_iter_NoDup m : NoDup (map_iter m).*1.
Proof. rewrite (map_iter_perm m). apply NoDup_fst_map_to_list. Qed.

Lemma take_retries_spec kvs m acc :
  NoDup kvs.*1 → (∀ k e, (k, e) ∈ kvs → m !! k = Some e) →
  fold_left take_retry kvs.*1 (m, acc) =
    (foldr delete m kvs.*1, acc ++ (ready <$> kvs)).
Proof.
  revert m acc. induction kvs as [|[k e] kvs IH]; intros m acc Hnd Hin.
  - simpl. by rewrite app_nil_r.
  - cbn [fmap list_fmap fst fold_left foldr] in *. apply NoDup_cons in Hnd as [Hk Hnd].
    unfold take_retry at 2. cbn [fst snd].
    rewrite (Hin k e) by (left; done). rewrite IH; [|done|].
    + rewrite <- app_assoc. f_equal. clear IH Hin Hnd Hk acc.
      induction (kvs.*1) as [|j l IHl]; [done|]. cbn [foldr].
      rewrite IHl. apply delete_delete.
    + intros k' e' Hkv. rewrite lookup_delete_ne; [by apply Hin; right|].
      intros <-. apply Hk. change k with (fst (k, e')). by apply list_elem_of_fmap_2.
Qed.

Lemma lookup_foldr_delete (m : gmap Hash RetryEntry) ks k :
  foldr delete m ks !! k = if bool_decide (k ∈ ks) then None else m !! k.
Proof.
  induction ks as [|j ks IH]; [done|]. cbn [foldr].
  destruct (decide (j = k)) as [<-|Hne].
  - rewrite lookup_delete_eq, bool_decide_eq_true_2; [done|left].
  - rewrite lookup_delete_ne, IH by done.
    rewrite (bool_decide_ext (k ∈ ks) (k ∈ j :: ks)); [done|].
    rewrite elem_of_cons. naive_solver.
Qed.

(** What [drain_retries] hands out and what it keeps. *)
Lemma drain_retries_spec p m :
  ∃ kvs, drain_retries p m = (filter (λ kv, p (snd kv) = false) m, ready <$> kvs) ∧
    kvs ≡ₚ filter (λ kv, p (snd kv) = true) (map_to_list m).
Proof.
  unfold drain_retries. set (kvs := filter _ (map_iter m)).
  assert (Hin : ∀ k e, (k, e) ∈ kvs ↔ p e = true ∧ m !! k = Some e).
  { intros k e. unfold kvs. rewrite list_elem_of_filter, map_iter_lookup. done. }
  exists kvs. split; [|unfold kvs; by rewrite (map_iter_perm m)].
  rewrite take_retries_spec; [|eapply sublist_NoDup; [apply map_iter_NoDup|] |naive_solver].
  2: { apply fmap_sublist, sublist_filter. }
  f_equal. apply map_eq. intros k. rewrite lookup_foldr_delete, map_lookup_filter.
  destruct (m !! k) as [e|] eqn:Hk; simpl; [|by case_bool_decide].
  destruct (p e) eqn:Hp.
  - rewrite bool_decide_eq_true_2; [done|]. change k with (fst (k, e)).
    apply list_elem_of_fmap_2, Hin. done.
  - rewrite bool_decide_eq_false_2; [done|].
    intros [[k' e'] [-> Hkv]]%list_elem_of_fmap. apply Hin in Hkv as []. simpl in *. congruence.
Qed.
End Facts.
