(* ===== verification/SchedulerThms.v ===== *)
(** * What the download scheduler promises

    The number of slots is never exceeded and no slot idles while somebody waits; waiters
    are served in the order they asked and each one is served once enough slots have been
    released; the retry queries hand out exactly the entries that are due.  The last part
    shows that the limit on the retries of a training result does not bind in the cycle
    the client runs. *)

From stdpp Require Import base tactics list numbers decidable gmap strings sets.
From S2P Require Import Prelude Float Scheduler.

Open Scope Z_scope.

Section Scheduler.
Context `{B : Blobs} {O : MapOrder}.

(** ** The state invariant *)

Definition sched_wf (max : Z) (cfg : RetryConfig) (a : DownloadSchedulerActor) : Prop :=
  max_concurrent a = max ∧ retry_config a = cfg ∧
  0 <= active_downloads a <= max ∧
  (waiting_for_capacity a ≠ [] → active_downloads a = max).

Lemma pop_waiters_suffix live ws :
  ∃ dead, (∀ w, w ∈ dead → live w = false) ∧
    match pop_waiters live ws with
    | (Some w, ws') => ws = dead ++ w :: ws' ∧ live w = true
    | (None, ws') => ws = dead ∧ ws' = []
    end.
Proof.
  induction ws as [|w ws [dead [Hd IH]]]; [by exists []; split; [set_solver|]|].
  simpl. destruct (live w) eqn:Hw.
  - exists []. split; [set_solver|done].
  - exists (w :: dead). split; [intros x [->|?]%elem_of_cons; auto|].
    destruct (pop_waiters live ws) as [[?|] ?]; destruct IH as [-> ?]; subst; auto.
Qed.

Lemma queue_failed_frame now ticket tag dt a a' r :
  queue_failed_download now ticket tag dt a = Ok (a', r) →
  ∃ m, a' = set_entries m a.
Proof.
  unfold queue_failed_download. destruct dt; cbn zeta.
  - case_match; intros Hq; [by simplify_eq; eauto|].
    apply res_bind_Ok in Hq as [d [_ Hq]]. apply res_bind_Ok in Hq as [t [_ Hq]].
    simplify_eq. eauto.
  - intros Hq. simplify_eq. eauto.
Qed.

Lemma start_retry_frame now a a' r :
  start_parameter_retry now a = Ok (a', r) →
  a' = a ∨ (active_downloads a < max_concurrent a ∧
            ∃ m, a' = set_entries m (set_active (active_downloads a + 1) a)).
Proof.
  unfold start_parameter_retry. destruct (Z.leb_spec (max_concurrent a) (active_downloads a)).
  { intros; simplify_eq; auto. }
  destruct (list_find _ _) as [[? [h e]]|]; [|intros; simplify_eq; auto].
  intros Hq. apply res_bind_Ok in Hq as [e' [_ Hq]]. simplify_eq. eauto.
Qed.

(** What a message does to the slots and the queue: the three cases. *)
Lemma handle_message_frame now live m a a' out :
  handle_message now live m a = Ok (a', out) →
  (∃ w, m = WaitForCapacity w ∧
     ((active_downloads a < max_concurrent a ∧ a' = set_active (active_downloads a + 1) a ∧
       out = send live w Granted) ∨
      (max_concurrent a <= active_downloads a ∧ out = [] ∧
       a' = set_waiting (waiting_for_capacity a ++ [w]) a))) ∨
  (m = ReleaseCapacity ∧
     (a', out) = notify_next_waiter live (set_active (sat_sub (active_downloads a) 1) a)) ∨
  ((∀ w, m ≠ WaitForCapacity w) ∧ m ≠ ReleaseCapacity ∧
   (∀ w, (w, Granted) ∉ out) ∧
   ∃ e x, a' = set_entries e (set_active x a) ∧
     (x = active_downloads a ∨ (active_downloads a < max_concurrent a ∧ x = active_downloads a + 1))).
Proof.
  assert (Hsend : ∀ r x, x ≠ Granted → ∀ w, (w, Granted) ∉ send live r x).
  { intros r x Hx w. unfold send. destruct (live r); set_solver. }
  assert (Heta : ∀ e, set_entries e a = set_entries e (set_active (active_downloads a) a)) by done.
  destruct m as [w| |t tg dt w|h w|w|w|w]; simpl.
  - destruct (Z.ltb_spec (active_downloads a) (max_concurrent a)); intros; simplify_eq; eauto 10.
  - intros. right. left. split; [done|congruence].
  - intros Hq. apply res_bind_Ok in Hq as [[a1 r] [Hq Hr]]. simplify_eq. right. right.
    apply queue_failed_frame in Hq as [e ->]. split_and!; try done; eauto.
  - intros; simplify_eq. right. right. split_and!; try done; eauto.
  - intros Hq. apply res_bind_Ok in Hq as [[a1 r] [Hq Hr]]. simplify_eq. right. right.
    split_and!; try done; [by apply Hsend|].
    apply start_retry_frame in Hq as [->|[? [e ->]]]; [|eauto 10].
    exists (retry_entries a), (active_downloads a). split; [by destruct a|auto].
  - destruct (drain_retries _ _) as [e l]. intros; simplify_eq. right. right.
    split_and!; try done; eauto.
  - destruct (drain_retries _ _) as [e l]. intros; simplify_eq. right. right.
    split_and!; try done; eauto.
Qed.

Lemma sched_wf_step max cfg now live m a a' out :
  1 <= max → sched_wf max cfg a → handle_message now live m a = Ok (a', out) →
  sched_wf max cfg a'.
Proof.
  intros Hmax (Hm & Hc & Ha & Hw) Hstep.
  destruct (handle_message_frame _ _ _ _ _ _ Hstep)
    as [(w & -> & [(? & -> & _)|(? & _ & ->)])|[(-> & Hn)|(_ & _ & _ & e & x & -> & Hx)]];
    unfold sched_wf; simpl.
  - split_and!; try done; try lia. intros Hne%Hw. lia.
  - split_and!; try done; lia.
  - unfold notify_next_waiter in Hn. simpl in Hn. unfold sat_sub in Hn.
    destruct (pop_waiters_suffix live (waiting_for_capacity a)) as (dead & _ & Hp).
    destruct (pop_waiters live (waiting_for_capacity a)) as [[w|] ws]; simplify_eq; simpl;
      destruct Hp as [Hp ->] || destruct Hp as [Hp _].
    + assert (active_downloads a = max_concurrent a) by (apply Hw; rewrite Hp; by destruct dead).
      split_and!; try done; lia.
    + split_and!; try done; lia.
  - split_and!; try done; [lia|lia|]. intros Hne%Hw. lia.
Qed.

Lemma sched_wf_new max cfg : 1 <= max → sched_wf max cfg (actor_new max cfg).
Proof. intros. unfold sched_wf; simpl. split_and!; try done; lia. Qed.

Lemma actor_cons e es a r :
  download_scheduler_actor a (e :: es) = Ok r ↔
  ∃ a1 out1 a2 out2, handle_message e.1.1 e.1.2 e.2 a = Ok (a1, out1) ∧
    download_scheduler_actor a1 es = Ok (a2, out2) ∧ r = (a2, out1 ++ out2).
Proof.
  destruct e as [[now live] m]. cbn [download_scheduler_actor fst snd].
  rewrite res_bind_Ok. split.
  - intros ([a1 o1] & H1 & Hr). apply res_bind_Ok in Hr as ([a2 o2] & H2 & Hr).
    simplify_eq. eauto 10.
  - intros (a1 & o1 & a2 & o2 & H1 & H2 & ->). exists (a1, o1). split; [done|].
    by rewrite H2.
Qed.

Lemma sched_wf_run max cfg es a a' out :
  1 <= max → sched_wf max cfg a → download_scheduler_actor a es = Ok (a', out) →
  sched_wf max cfg a'.
Proof.
  intros Hmax. revert a out. induction es as [|e es IH]; intros a out Hwf Hrun.
  - by simplify_eq/=.
  - apply actor_cons in Hrun as (a1 & o1 & a2 & o2 & H1 & H2 & ?). simplify_eq.
    eapply IH; [|done]. by eapply sched_wf_step.
Qed.

(** ** The queue of waiters *)

Definition request_of (e : event) : option nat :=
  match e.2 with WaitForCapacity w => Some w | _ => None end.
Definition requests (es : list event) : list nat := omap request_of es.

Definition grant_of (x : nat * Reply) : option nat :=
  match x.2 with Granted => Some x.1 | _ => None end.
Definition granted (out : list (nat * Reply)) : list nat := omap grant_of out.

Definition is_release (e : event) : bool :=
  match e.2 with ReleaseCapacity => true | _ => false end.
Definition releases (es : list event) : nat := length (filter (λ e, is_release e = true) es).

(** [w] still waits for its answer whenever a message of [es] is handled. *)
Definition stays_live (es : list event) (w : nat) : Prop := ∀ e, e ∈ es → e.1.2 w = true.

(** Who leaves the queue between two states, in order: everybody who got a slot, and
    otherwise only requesters that had gone. *)
Definition queue_step (ws : list nat) (es : list event) (out : list (nat * Reply))
    (ws' served : list nat) : Prop :=
  ws ++ requests es = served ++ ws' ∧
  granted out `sublist_of` served ∧
  (∀ w, w ∈ served → stays_live es w → w ∈ granted out).

Lemma granted_none out : (∀ w, (w, Granted) ∉ out) → granted out = [].
Proof.
  intros Hn. destruct (granted out) as [|w l] eqn:Hg; [done|]. exfalso.
  assert (Hw : w ∈ granted out) by (rewrite Hg; left).
  apply list_elem_of_omap in Hw as [[x r] [Hin Hr]]. destruct r; simplify_eq/=; try done.
  by destruct (Hn _ Hin).
Qed.

Lemma granted_send live w : granted (send live w Granted) = if live w then [w] else [].
Proof. unfold send. by destruct (live w). Qed.

Lemma queue_step_message max cfg now live m a a' out :
  sched_wf max cfg a → handle_message now live m a = Ok (a', out) →
  ∃ served, queue_step (waiting_for_capacity a) [(now, live, m)] out
              (waiting_for_capacity a') served ∧
    (m = ReleaseCapacity → waiting_for_capacity a ≠ [] → served ≠ []).
Proof.
  intros (Hm & _ & Ha & Hw) Hstep. unfold queue_step.
  assert (Hlive : ∀ w, stays_live [(now, live, m)] w → live w = true).
  { intros w Hl. apply (Hl (now, live, m)). left. }
  destruct (handle_message_frame _ _ _ _ _ _ Hstep)
    as [(w & -> & [(? & -> & ->)|(? & -> & ->)])|[(-> & Hn)|(Hm1 & Hm2 & Hg & e & x & -> & _)]];
    simpl.
  - destruct (waiting_for_capacity a) as [|w' ws].
    + exists [w]. rewrite granted_send. split; [|done]. split; [done|].
      split; [by destruct (live w); repeat constructor|].
      intros w' ->%list_elem_of_singleton ->%Hlive. left.
    + destruct (proj1 (Z.lt_nge _ _) H). rewrite Hw by done. lia.
  - exists []. split; [|done]. split_and!; [done|constructor|set_solver].
  - unfold notify_next_waiter in Hn. simpl in Hn.
    destruct (pop_waiters_suffix live (waiting_for_capacity a)) as (dead & Hd & Hp).
    destruct (pop_waiters live (waiting_for_capacity a)) as [[w|] ws]; simplify_eq; simpl.
    + destruct Hp as [-> Hw']. exists (dead ++ [w]).
      split; [split_and!|by destruct dead].
      * by rewrite app_nil_r, <- app_assoc.
      * apply sublist_inserts_l. done.
      * intros w' [Hin%Hd| ->%list_elem_of_singleton]%elem_of_app Hl%Hlive; [congruence|left].
    + destruct Hp as [-> ->]. exists dead. rewrite !app_nil_r.
      split; [split_and!; [done|apply sublist_nil_l|]|by intros _ ?].
      intros w' Hin%Hd Hl%Hlive. congruence.
  - exists []. rewrite (granted_none out) by done. split; [|done].
    split_and!; [|done|set_solver]. destruct m; simpl; try done; try by rewrite app_nil_r.
    naive_solver.
Qed.

Lemma queue_step_run max cfg es a a' out :
  1 <= max → sched_wf max cfg a → download_scheduler_actor a es = Ok (a', out) →
  ∃ served, queue_step (waiting_for_capacity a) es out (waiting_for_capacity a') served ∧
    (releases es `min` length (waiting_for_capacity a) ≤ length served)%nat.
Proof.
  intros Hmax. revert a out. induction es as [|e es IH]; intros a out Hwf Hrun.
  { simplify_eq/=. exists []. unfold queue_step, requests. simpl. rewrite app_nil_r.
    split; [split_and!; [done|constructor|set_solver]|lia]. }
  apply actor_cons in Hrun as (a1 & o1 & a2 & o2 & H1 & H2 & ?). simplify_eq.
  destruct e as [[now live] m]. simpl in H1.
  destruct (queue_step_message _ _ _ _ _ _ _ _ Hwf H1) as (s1 & (Hq1 & Hs1 & Hl1) & Hr1).
  destruct (IH a1 o2) as (s2 & (Hq2 & Hs2 & Hl2) & Hr2);
    [by eapply sched_wf_step|done|].
  assert (Hreq : requests ((now, live, m) :: es) = requests [(now, live, m)] ++ requests es)
    by (unfold requests; simpl; by case_match).
  exists (s1 ++ s2). split; [split_and!|].
  - etrans; [exact (f_equal (app _) Hreq)|].
    rewrite app_assoc, Hq1, <- !app_assoc. f_equal. exact Hq2.
  - unfold granted. rewrite omap_app. by apply sublist_app.
  - intros w Hw Hl. unfold granted. rewrite omap_app, elem_of_app.
    apply elem_of_app in Hw as [Hw|Hw]; [left; apply Hl1|right; apply Hl2]; try done;
      intros e He; apply Hl; set_solver.
  - apply (f_equal length) in Hq1. rewrite !length_app in *.
    unfold releases in *. rewrite filter_cons.
    destruct m; simpl in *; try lia.
    destruct (waiting_for_capacity a); simpl in *; [lia|].
    destruct s1; simpl in *; [by destruct Hr1|lia].
Qed.

(** ** No panics *)

Definition entries_u64 (a : DownloadSchedulerActor) : Prop :=
  ∀ h e, retry_entries a !! h = Some e → u64 (re_retries e).

(** Every backoff the configuration can ask for is a duration, and added to an instant up
    to [T] it is an instant. *)
Definition backoffs_fit (cfg : RetryConfig) (T : Z) : Prop :=
  ∀ p, u64 p → as_u64 (p + 1) <= max_distro_retries cfg →
    ∃ d, @mul_f32 Empty_set (backoff_base cfg) (two_powi (as_i32 p)) = Ok d ∧
         (T + d) / NANOS_PER_SEC <= i64_max.

Lemma as_u64_u64 x : u64 (as_u64 x).
Proof. unfold u64, as_u64, u64_max. pose proof (Z.mod_pos_bound x (2 ^ 64)). lia. Qed.

Lemma prev_u64 a h : entries_u64 a → u64 (default 0 (re_retries <$> retry_entries a !! h)).
Proof.
  intros Hu. destruct (retry_entries a !! h) as [e|] eqn:He; simpl; [by eapply Hu|].
  unfold u64, u64_max. lia.
Qed.

Lemma queue_failed_total cfg T now ticket tag dt a :
  retry_config a = cfg → backoffs_fit cfg T → now <= T → entries_u64 a →
  ∃ a' r, queue_failed_download now ticket tag dt a = Ok (a', r) ∧ entries_u64 a'.
Proof.
  intros <- Hfit Hnow Hu. unfold queue_failed_download. cbn zeta.
  pose proof (prev_u64 a (ticket_hash ticket) Hu) as Hp. revert Hp.
  generalize (default 0 (re_retries <$> retry_entries a !! ticket_hash ticket)). intros p Hp.
  assert (Hins : ∀ t, entries_u64 (set_entries (<[ticket_hash ticket :=
    mkRetryEntry (as_u64 (p + 1)) t ticket tag dt]> (retry_entries a)) a)).
  { intros t h e. simpl. rewrite lookup_insert_Some.
    intros [[_ <-]|[_ He]]; [apply as_u64_u64|by eapply Hu]. }
  destruct dt as [peers|rq]; [|by eauto].
  destruct (Z.ltb_spec (max_distro_retries (retry_config a)) (as_u64 (p + 1))) as [Hlt|Hle].
  - do 2 eexists. split; [done|]. intros h e. simpl. rewrite lookup_delete_Some.
    intros [_ He]. by eapply Hu.
  - destruct (Hfit p Hp Hle) as (d & -> & Hd). cbn [mbind res_bind].
    unfold instant_add. rewrite (proj2 (Z.leb_le _ _)); [cbn; by eauto|].
    etrans; [apply Z.div_le_mono; [done|]|exact Hd]. lia.
Qed.
End Scheduler.

Section Total.
Context `{B : Blobs} {O : MapOrder} {OL : MapOrderLaws O}.

Lemma entries_u64_submap a a' :
  retry_entries a' ⊆ retry_entries a → entries_u64 a → entries_u64 a'.
Proof. intros Hs Hu h e He. eapply Hu. by eapply lookup_weaken. Qed.

Lemma start_retry_total now a :
  ∃ a' r, start_parameter_retry now a = Ok (a', r) ∧ retry_entries a' ⊆ retry_entries a.
Proof.
  unfold start_parameter_retry. case_match; [by eauto|].
  destruct (list_find _ _) as [[i [h e]]|] eqn:Hf; [|by eauto].
  apply list_find_Some in Hf as (Hl & _ & _). apply list_elem_of_lookup_2 in Hl.
  apply map_iter_lookup in Hl. rewrite Hl. cbn.
  do 2 eexists. split; [done|]. apply delete_subseteq.
Qed.

Lemma handle_message_total cfg T now live m a :
  retry_config a = cfg → backoffs_fit cfg T → now <= T → entries_u64 a →
  ∃ a' out, handle_message now live m a = Ok (a', out) ∧ entries_u64 a' ∧ retry_config a' = cfg.
Proof.
  intros Hc Hfit Hnow Hu. destruct m as [w| |t tg dt w|h w|w|w|w]; simpl.
  - case_match; do 2 eexists; by split_and!.
  - unfold notify_next_waiter. destruct (pop_waiters _ _) as [[?|] ?]; do 2 eexists; by split_and!.
  - destruct (queue_failed_total cfg T now t tg dt a) as (a' & r & Hq & Hu'); try done.
    rewrite Hq. apply queue_failed_frame in Hq as [e ->]. cbn. do 2 eexists. by split_and!.
  - do 2 eexists. split_and!; [done| |done]. eapply entries_u64_submap; [|done].
    apply delete_subseteq.
  - destruct (start_retry_total now a) as (a' & r & Hq & Hs). rewrite Hq. cbn.
    do 2 eexists. split_and!; [done|by eapply entries_u64_submap|].
    by apply start_retry_frame in Hq as [->|[_ [? ->]]].
  - destruct (drain_retries_spec is_config (retry_entries a)) as (kvs & -> & _).
    do 2 eexists. split_and!; [done| |done]. eapply entries_u64_submap; [|done].
    apply map_filter_subseteq.
  - destruct (drain_retries_spec (λ e, is_distro e && due now false e) (retry_entries a))
      as (kvs & -> & _).
    do 2 eexists. split_and!; [done| |done]. eapply entries_u64_submap; [|done].
    apply map_filter_subseteq.
Qed.

Lemma run_total cfg T es a :
  retry_config a = cfg → backoffs_fit cfg T → entries_u64 a →
  (∀ e, e ∈ es → e.1.1 <= T) →
  ∃ a' out, download_scheduler_actor a es = Ok (a', out).
Proof.
  intros Hc Hfit. revert a Hc. induction es as [|e es IH]; intros a Hc Hu Ht; [by simpl; eauto|].
  destruct (handle_message_total cfg T e.1.1 e.1.2 e.2 a) as (a1 & o1 & H1 & Hu1 & Hc1);
    try done; [apply Ht; left|].
  destruct (IH a1) as (a2 & o2 & H2); [done|done|set_solver|].
  exists a2, (o1 ++ o2). apply actor_cons. eauto 10.
Qed.
End Total.

Section Theorems.
Context `{B : Blobs} {O : MapOrder} {OL : MapOrderLaws O}.

(** ** Theorems *)

(** Whatever messages a scheduler with at least one slot handles, at whatever times and
    whoever stops waiting, no more downloads are active than it has slots, and while
    somebody waits all its slots are taken. *)
Theorem capacity_respected max cfg es a out :
  1 <= max → download_scheduler_actor (actor_new max cfg) es = Ok (a, out) →
  0 <= active_downloads a <= max ∧
  (waiting_for_capacity a ≠ [] → active_downloads a = max).
Proof.
  intros Hmax Hrun. eapply sched_wf_run in Hrun; [|done|by apply sched_wf_new].
  by destruct Hrun as (_ & _ & ? & ?).
Qed.

(** Waiters are served in the order they asked: the requests are those served followed
    by those waiting; the slots granted follow that order, and a served requester without
    a slot had stopped waiting.  Once as many releases have been handled as there are
    waiters, each waiter that did not give up has its slot, whatever other messages come
    in between. *)
Theorem waiters_served_in_order max cfg es a out :
  1 <= max → download_scheduler_actor (actor_new max cfg) es = Ok (a, out) →
  (∃ served, requests es = served ++ waiting_for_capacity a ∧
     granted out `sublist_of` served ∧
     ∀ w, w ∈ served → stays_live es w → w ∈ granted out) ∧
  (∀ es' a' out', download_scheduler_actor a es' = Ok (a', out') →
     (length (waiting_for_capacity a) ≤ releases es')%nat →
     ∀ w, w ∈ waiting_for_capacity a → stays_live es' w → w ∈ granted out').
Proof.
  intros Hmax Hrun. pose proof (sched_wf_new max cfg Hmax) as H0.
  pose proof (sched_wf_run _ _ _ _ _ _ Hmax H0 Hrun) as Hwf. split.
  - destruct (queue_step_run _ _ _ _ _ _ Hmax H0 Hrun) as (s & (Hq & Hs & Hl) & _).
    exists s. done.
  - intros es' a' out' Hrun' Hrel w Hw Hlive.
    destruct (queue_step_run _ _ _ _ _ _ Hmax Hwf Hrun') as (s & (Hq & _ & Hl) & Hn).
    apply Hl; [|done]. rewrite Nat.min_r in Hn by done.
    apply (f_equal (take (length s))) in Hq. rewrite take_app_length in Hq.
    rewrite <- Hq, take_app_ge by lia. set_solver.
Qed.

Lemma backoff_default p :
  u64 p → as_u64 (p + 1) <= 3 →
  @mul_f32 Empty_set (2 * NANOS_PER_SEC) (two_powi (as_i32 p)) =
    Ok (NANOS_PER_SEC * (if p =? u64_max then 1 else 2 ^ (p + 1))) ∧ (p <= 2 ∨ p = u64_max).
Proof.
  unfold u64, as_u64. intros Hp Hle.
  destruct (Z.eq_dec p u64_max) as [->|Hne]; [by split; [vm_compute|right]|].
  rewrite Z.mod_small in Hle by (unfold u64_max in *; lia).
  assert (Hc : p = 0 ∨ p = 1 ∨ p = 2) by lia.
  destruct Hc as [-> | [-> | ->]]; (split; [by vm_compute|left; lia]).
Qed.

Lemma backoffs_fit_default T :
  (T + 8 * NANOS_PER_SEC) / NANOS_PER_SEC <= i64_max → backoffs_fit RetryConfig_default T.
Proof.
  intros HT p Hp Hle. destruct (backoff_default p Hp Hle) as [Hd Hc].
  eexists. split; [exact Hd|]. etrans; [apply Z.div_le_mono; [done|]|exact HT].
  unfold u64 in Hp. destruct (p =? u64_max) eqn:Hm; [unfold NANOS_PER_SEC; lia|].
  apply Z.eqb_neq in Hm. assert (Hc' : p = 0 ∨ p = 1 ∨ p = 2) by lia.
  destruct Hc' as [-> | [-> | ->]]; unfold NANOS_PER_SEC; lia.
Qed.

(** With the default configuration the scheduler never panics: whatever messages arrive
    while the clock's seconds plus eight fit an [i64], the loop handles all of them. *)
Theorem scheduler_total max es T :
  (T + 8 * NANOS_PER_SEC) / NANOS_PER_SEC <= i64_max →
  (∀ e, e ∈ es → e.1.1 <= T) →
  ∃ a out, download_scheduler_actor (actor_new max RetryConfig_default) es = Ok (a, out).
Proof.
  intros HT Hes. eapply (run_total RetryConfig_default T); [done|by apply backoffs_fit_default| |done].
  intros h e He. done.
Qed.

(** The retry policy of the default configuration.  A failed download of a training
    result that is on record with [k] earlier retries is queued as retry [k + 1], due
    [2 ^ (k + 1)] seconds later, while [k < 3], and at [k = 3] it is dropped and the caller
    told so; a failed model download is always queued, due at once.  No other entry
    changes. *)
Theorem retry_policy now ticket tag dt a k :
  retry_config a = RetryConfig_default →
  default 0 (re_retries <$> retry_entries a !! ticket_hash ticket) = k → 0 <= k <= 3 →
  (now + 8 * NANOS_PER_SEC) / NANOS_PER_SEC <= i64_max →
  queue_failed_download now ticket tag dt a =
    Ok (match dt with
        | ModelSharing _ =>
            (set_entries (<[ticket_hash ticket := mkRetryEntry (k + 1) None ticket tag dt]>
                            (retry_entries a)) a, Queued)
        | DistroResult _ =>
            if k =? 3 then (set_entries (delete (ticket_hash ticket) (retry_entries a)) a,
                            MaxRetriesExceeded)
            else (set_entries (<[ticket_hash ticket :=
                     mkRetryEntry (k + 1) (Some (now + 2 ^ (k + 1) * NANOS_PER_SEC)) ticket tag dt]>
                     (retry_entries a)) a, Queued)
        end).
Proof.
  intros Hc Hk Hrange Hnow. unfold queue_failed_download. rewrite Hk, Hc. cbn zeta.
  assert (Hu : as_u64 (k + 1) = k + 1) by (unfold as_u64; rewrite Z.mod_small; lia).
  rewrite Hu. destruct dt as [peers|rq]; [|done].
  cbn [max_distro_retries backoff_base RetryConfig_default].
  destruct (Z.eqb_spec k 3) as [->|Hne]; [done|].
  rewrite (proj2 (Z.ltb_ge _ _)) by lia.
  destruct (backoff_default k) as [-> _]; [unfold u64, u64_max; lia|lia|].
  rewrite (proj2 (Z.eqb_neq _ _)) by (unfold u64_max; lia). cbn [mbind res_bind].
  rewrite Z.mul_comm. unfold instant_add. rewrite (proj2 (Z.leb_le _ _)); [done|].
  etrans; [apply Z.div_le_mono; [done|]|exact Hnow].
  assert (Hc' : k = 0 ∨ k = 1 ∨ k = 2) by lia.
  destruct Hc' as [-> | [-> | ->]]; unfold NANOS_PER_SEC; lia.
Qed.

(** The answer of a query for due entries, and the entries it leaves. *)
Definition hands_out (p : RetryEntry → bool) (a a' : DownloadSchedulerActor)
    (l : list ReadyRetry) : Prop :=
  a' = set_entries (filter (λ kv, p (snd kv) = false) (retry_entries a)) a ∧
  l ≡ₚ ready <$> filter (λ kv, p (snd kv) = true) (map_to_list (retry_entries a)).

(** The queries of the retry loop.  Asking for results or configurations hands out every
    entry of that kind that is due, each once, and keeps all others.  Asking for a
    parameter hands out one that is due and takes a slot for it; it hands out none only
    when every slot is taken or no parameter is due, and then nothing changes. *)
Theorem retries_handed_out now a :
  (∃ a' l, handle_message now (λ _, true) (GetDueDistroRetries 0) a = Ok (a', [(0%nat, Retries l)]) ∧
     hands_out (λ e, is_distro e && due now false e) a a' l) ∧
  (∃ a' l, handle_message now (λ _, true) (GetDueConfigRetries 0) a = Ok (a', [(0%nat, Retries l)]) ∧
     hands_out is_config a a' l) ∧
  (∃ a' r, handle_message now (λ _, true) (StartParameterRetry 0) a = Ok (a', [(0%nat, OneRetry r)]) ∧
     match r with
     | Some x => active_downloads a < max_concurrent a ∧
         ∃ e, retry_entries a !! rr_hash x = Some e ∧ x = into_ready_retry e (rr_hash x) ∧
           is_parameter e = true ∧ due now true e = true ∧
           a' = set_entries (delete (rr_hash x) (retry_entries a))
                  (set_active (active_downloads a + 1) a)
     | None => a' = a ∧
         (max_concurrent a <= active_downloads a ∨
          ∀ h e, retry_entries a !! h = Some e → is_parameter e && due now true e = false)
     end).
Proof.
  split_and!; simpl.
  - destruct (drain_retries_spec (λ e, is_distro e && due now false e) (retry_entries a))
      as (kvs & -> & Hp). do 2 eexists. split; [done|]. split; [done|by apply fmap_Permutation].
  - destruct (drain_retries_spec is_config (retry_entries a)) as (kvs & -> & Hp).
    do 2 eexists. split; [done|]. split; [done|by apply fmap_Permutation].
  - unfold start_parameter_retry.
    destruct (Z.leb_spec (max_concurrent a) (active_downloads a)); [cbn; do 2 eexists; split; [done|]; split; [done|by left]|].
    destruct (list_find _ _) as [[i [h e]]|] eqn:Hf; cbn.
    + apply list_find_Some in Hf as (Hl & Hp & _). apply list_elem_of_lookup_2 in Hl.
      apply map_iter_lookup in Hl. rewrite Hl. cbn. apply andb_true_iff in Hp as [? ?].
      do 2 eexists. split; [done|]. split; [done|]. exists e. by split_and!.
    + apply list_find_None in Hf. do 2 eexists. split; [done|]. split; [done|]. right.
      intros h e He%map_iter_lookup. rewrite list.Forall_forall in Hf.
      specialize (Hf _ He). simpl in Hf. by destruct (_ && _).
Qed.

(** One turn of the client's loop for a result that cannot be fetched: the download fails,
    and when its backoff is over the retry check collects it and starts it again. *)
Definition failing_cycle (ticket : BlobTicket) (tag : Tag) (peers : list (list Z)) (d t : Z) :
    list event :=
  [(t, λ _, true, QueueFailedDownload ticket tag (DistroResult peers) 0);
   (t + d, λ _, true, GetDueDistroRetries 1)].

Lemma failing_cycle_run ticket tag peers d t a :
  1 <= max_distro_retries (retry_config a) →
  @mul_f32 Empty_set (backoff_base (retry_config a)) (two_powi 0) = Ok d →
  (t + d) / NANOS_PER_SEC <= i64_max → retry_entries a !! ticket_hash ticket = None →
  ∃ a' l, download_scheduler_actor a (failing_cycle ticket tag peers d t) =
      Ok (a', [(0%nat, QueueResult Queued); (1%nat, Retries l)]) ∧
    retry_config a' = retry_config a ∧ retry_entries a' !! ticket_hash ticket = None ∧
    ∀ x, x ∈ l → rr_hash x = ticket_hash ticket → rr_retries x = 1.
Proof.
  intros Hmax Hd Hfit Hnone. unfold failing_cycle. cbn [download_scheduler_actor handle_message].
  unfold queue_failed_download. rewrite Hnone. cbn [fmap option_fmap option_map from_option].
  rewrite (proj2 (Z.ltb_ge _ _)) by (change (as_u64 (0 + 1)) with 1; lia).
  change (as_i32 0) with 0. rewrite Hd. cbn [mbind res_bind]. unfold instant_add.
  rewrite (proj2 (Z.leb_le _ _)) by done. cbn [mbind res_bind handle_message].
  set (a1 := set_entries _ a).
  destruct (drain_retries_spec (λ e, is_distro e && due (t + d) false e) (retry_entries a1))
    as (kvs & -> & Hp). cbn. do 2 eexists. split; [done|]. split; [done|]. split.
  - apply map_lookup_filter_None. right. intros e. rewrite lookup_insert_eq.
    intros [= <-]. cbn. unfold due. cbn. by rewrite Z.leb_refl.
  - intros x Hx Hh. apply list_elem_of_fmap in Hx as [[h e] [-> Hkv]].
    rewrite Hp in Hkv. apply list_elem_of_filter in Hkv as [_ Hkv%elem_of_map_to_list].
    cbn in Hh, Hkv. rewrite Hh, lookup_insert_eq in Hkv. by simplify_eq.
Qed.

Lemma actor_app es1 es2 a a1 out1 :
  download_scheduler_actor a es1 = Ok (a1, out1) →
  download_scheduler_actor a (es1 ++ es2) =
    ('(a2, out2) ← download_scheduler_actor a1 es2; Ok (a2, out1 ++ out2)).
Proof.
  revert a out1. induction es1 as [|[[now live] m] es1 IH]; intros a out1 Hrun.
  - simplify_eq/=. by destruct (download_scheduler_actor _ _) as [[]| |].
  - simpl in *. destruct (handle_message _ _ _ _) as [[a' o]| |]; try done. simpl in *.
    apply res_bind_Ok in Hrun as ([a'' o''] & Hr & ?). simplify_eq.
    rewrite (IH _ _ Hr). destruct (download_scheduler_actor a1 es2) as [[]| |]; simpl; try done.
    by rewrite <- app_assoc.
Qed.

(** However often a training result fails to download in the client's retry loop, it is
    queued again, as attempt 1 and after the shortest backoff: collecting an entry for its
    retry removes it together with its count, so the configured limit is never reached. *)
Theorem distro_retry_limit_never_reached ticket tag peers d ts a :
  1 <= max_distro_retries (retry_config a) →
  @mul_f32 Empty_set (backoff_base (retry_config a)) (two_powi 0) = Ok d →
  (∀ t, t ∈ ts → (t + d) / NANOS_PER_SEC <= i64_max) →
  retry_entries a !! ticket_hash ticket = None →
  ∃ a' out, download_scheduler_actor a (ts ≫= failing_cycle ticket tag peers d) = Ok (a', out) ∧
    (∀ r, (r, QueueResult MaxRetriesExceeded) ∉ out) ∧
    length (filter (λ x, x.1 = 0%nat) out) = length ts ∧
    (∀ r l x, (r, Retries l) ∈ out → x ∈ l → rr_hash x = ticket_hash ticket → rr_retries x = 1).
Proof.
  revert a. induction ts as [|t ts IH]; intros a Hmax Hd Hts Hnone.
  { exists a, []. cbn. split_and!; [done|set_solver|done|set_solver]. }
  destruct (failing_cycle_run ticket tag peers d t a) as (a1 & l & Hrun & Hc & Hn & Hl);
    try done; [apply Hts; left|].
  destruct (IH a1) as (a2 & out & Hrun2 & Hq & Hlen & Hone);
    [by rewrite Hc|by rewrite Hc|set_solver|done|].
  exists a2, ([(0%nat, QueueResult Queued); (1%nat, Retries l)] ++ out).
  change ((t :: ts) ≫= failing_cycle ticket tag peers d)
    with (failing_cycle ticket tag peers d t ++ (ts ≫= failing_cycle ticket tag peers d)).
  rewrite (actor_app _ _ _ _ _ Hrun), Hrun2.
  split_and!; [done| | |].
  - intros r. rewrite elem_of_app. intros [Hin|Hin]; [|by eapply Hq]. set_solver.
  - cbn. by rewrite <- Hlen.
  - intros r l' x Hin. rewrite elem_of_app in Hin. destruct Hin as [Hin|Hin]; [|by eapply Hone].
    apply elem_of_cons in Hin as [?|Hin%list_elem_of_singleton]; [done|].
    simplify_eq. apply Hl.
Qed.
End Theorems.

(** ** Witnesses *)

Module Example.
#[local] Instance blobs : Blobs := {| BlobTicket := list Z; Tag := unit; ticket_hash := λ t, t |}.
#[local] Instance order : MapOrder := map_to_list.
#[local] Instance order_laws : MapOrderLaws order.
Proof. by intros m. Qed.

(** The blob all failing downloads ask for. *)
Definition blob : @BlobTicket blobs := [7].
Definition tag : @Tag blobs := tt.

(** One slot and four requesters, the third of which gives up. *)
Definition alive (w : nat) : bool := negb (Nat.eqb w 3).
Definition asks : list event :=
  [(0, alive, WaitForCapacity 1); (1, alive, WaitForCapacity 2); (2, alive, WaitForCapacity 3);
   (3, alive, WaitForCapacity 4); (4, alive, ReleaseCapacity)].
Definition waiting : DownloadSchedulerActor :=
  mkActor 1 1 [3%nat; 4%nat] ∅ RetryConfig_default.

Lemma asks_run :
  download_scheduler_actor (actor_new 1 RetryConfig_default) asks =
    Ok (waiting, [(1%nat, Granted); (2%nat, Granted)]).
Proof. vm_compute. reflexivity. Qed.

Lemma capacity_respected_witness :
  1 <= 1 ∧ 0 <= active_downloads waiting <= 1 ∧
  (waiting_for_capacity waiting ≠ [] → active_downloads waiting = 1).
Proof. split; [lia|]. apply (capacity_respected 1 _ asks _ _ ltac:(lia) asks_run). Defined.

(** Two releases serve the last requester, past the one that gave up. *)
Lemma waiters_served_in_order_witness :
  4%nat ∈ granted [(4%nat, Granted)] ∧
  ∃ served, requests asks = served ++ [3%nat; 4%nat].
Proof.
  destruct (waiters_served_in_order 1 _ asks _ _ ltac:(lia) asks_run) as [(s & Hs & _) Hlive].
  split; [|by exists s].
  apply (Hlive [(5, alive, ReleaseCapacity); (6, alive, ReleaseCapacity)]
           (mkActor 0 1 [] ∅ RetryConfig_default)).
  - vm_compute. reflexivity.
  - vm_compute. lia.
  - vm_compute. right. left.
  - intros e He. apply elem_of_cons in He as [->|He%list_elem_of_singleton]; [done|by subst].
Defined.

Definition result : list event :=
  [(0, alive, QueueFailedDownload blob tag (DistroResult []) 1);
   (2 * NANOS_PER_SEC, alive, GetDueDistroRetries 2)].

Lemma scheduler_total_witness :
  ∃ a out, download_scheduler_actor (actor_new 1 RetryConfig_default) result = Ok (a, out).
Proof.
  apply (scheduler_total 1 result (2 * NANOS_PER_SEC)); [vm_compute; discriminate|].
  intros e He. apply elem_of_cons in He as [->|He%list_elem_of_singleton]; [|subst e];
    vm_compute; discriminate.
Defined.

Lemma retry_policy_witness :
  queue_failed_download 5 blob tag (DistroResult []) (actor_new 1 RetryConfig_default) =
    Ok (mkActor 0 1 [] {[ [7] := mkRetryEntry 1 (Some (5 + 2 * NANOS_PER_SEC)) blob tag
                                    (DistroResult []) ]} RetryConfig_default, Queued).
Proof.
  apply (retry_policy 5 blob tag (DistroResult []) (actor_new 1 RetryConfig_default) 0);
    [reflexivity|reflexivity|lia|vm_compute; discriminate].
Defined.

Lemma distro_retry_limit_never_reached_witness :
  ∃ a' out,
    download_scheduler_actor (actor_new 1 RetryConfig_default)
      ([0; 10; 20; 30; 40] ≫= failing_cycle blob tag [] (2 * NANOS_PER_SEC)) = Ok (a', out) ∧
    length (filter (λ x, x.1 = 0%nat) out) = 5%nat.
Proof.
  destruct (distro_retry_limit_never_reached blob tag [] (2 * NANOS_PER_SEC) [0; 10; 20; 30; 40]
              (actor_new 1 RetryConfig_default)) as (a & out & Hrun & _ & Hlen & _).
  - vm_compute; discriminate.
  - vm_compute; reflexivity.
  - intros t Ht. etrans; [apply Z.div_le_mono; [done|]|].
    + instantiate (1 := 40 + 2 * NANOS_PER_SEC). set_unfold. lia.
    + vm_compute; discriminate.
  - reflexivity.
  - exists a, out. split; [exact Hrun|exact Hlen].
Defined.
End Example.
