(* ===== verification/Client.v ===== *)
(** * The training client

    src/shared/client/src/state: the state machine of a client that takes part in a run
    (steps.rs), the rounds it keeps (round_state.rs), and what it does when a step starts
    (warmup.rs, train.rs, witness.rs), with the messages of src/shared/client/src/protocol.rs.

    A client keeps the current and the previous round.  Three objects of a round are
    shared with the tasks it spawns ([Arc<Mutex<_>>]: downloads, Bloom filters, batches not
    yet trained on), so they live in a heap of cells that rounds and tasks name; a round
    moves from current to previous with its cells.  Each critical section of a task is a
    step of its own, so any interleaving of messages and tasks is a list of steps.

    Tensors and trainers belong to the tensor library: deserialising is a parameter
    ([Tensors]), and what an awaited training, witnessing or cooldown task returns is an
    argument of [apply_state].  Random Bloom filters are arguments too.  A send on a
    channel appends to the client's output, or fails when the channel is closed.
    Statistics, logs and metrics are left out. *)

From stdpp Require Import base tactics list numbers decidable gmap countable.
From S2P Require Import Prelude CoreTypes Hashing Bloom Merkle CoordinatorState Committee Coordinator DataSelection Payload Scheduler.

Open Scope Z_scope.

#[global] Instance ClosedInterval_countable : Countable ClosedInterval.
Proof.
  apply (inj_countable' (λ i, (start i, end_ i)) (λ '(a, b), mkClosedInterval a b)).
  by intros [].
Defined.
#[global] Instance BatchId_eq_dec : EqDecision BatchId := ClosedInterval_eq_dec.
#[global] Instance BatchId_countable : Countable BatchId := ClosedInterval_countable.

(** What the client uses of the tensor library. *)
Class Tensors := {
  Trainer_ : Type;
  DistroResult_ : Type;
  (** the conversion of one checked result *)
  build_result : SerializedDistroResult → res TchError DistroResult_;
}.

(** ** Messages *)

Section Data.
Context {B : Blobs} {T : Tensors}.

Record TrainingResult := mkTrainingResult {
  tr_batch_id : BatchId;
  tr_ticket : BlobTicket;
}.

Record Finished_ := mkFinished {
  fi_broadcast_merkle : list Z;
  fi_warmup : bool;
}.

Inductive BroadcastType := BTrainingResult (r : TrainingResult) | BFinished (f : Finished_).

Record Broadcast := mkBroadcast {
  bc_step : Z;
  bc_proof : CommitteeProof;
  bc_commitment : Commitment;
  bc_nonce : Z;
  bc_data : BroadcastType;
}.

(** ** Rounds *)

Inductive DeserializeError := DeserializeThreadCrashed | DeserializeFailed (e : TchError).

(** A deserialising thread with its payload, and its result once it is done. *)
Inductive PayloadState :=
| Downloading (from : NodeIdentity) (batch_id : BatchId) (ticket : BlobTicket)
| Deserializing (payload : TransmittableDistroResult)
    (result : option (res DeserializeError (list DistroResult_ * Z))).

(** Maps with a [NodeIdentity] as key compare signers, so the signer is the key here. *)
Record RoundState := mkRoundState {
  rs_height : Z;
  rs_step : Z;
  rs_sent_witness : bool;
  rs_sent_finished : bool;
  rs_downloads : nat;
  rs_results : gmap BatchId (list (NodeIdentity * (Commitment * TrainingResult)));
  rs_clients_finished : gmap (list Z) Finished_;
  rs_data_assignments : list (BatchId * NodeIdentity);
  rs_blooms : nat;
  rs_broadcasts : list (list Z);
  rs_committee_info : option (CommitteeProof * WitnessProof * CommitteeSelection);
  rs_not_yet_trained_on : nat;
  rs_self_distro_results : list (list DistroResult_);
}.

(** The shared objects, by address. *)
Record Heap := mkHeap {
  h_next : nat;
  h_downloads : gmap nat (gmap Hash PayloadState);
  h_blooms : gmap nat (option (Bloom * Bloom));
  h_batches : gmap nat (option (gset BatchId));
}.

Definition downloads_at (l : nat) (h : Heap) : gmap Hash PayloadState :=
  default ∅ (h_downloads h !! l).
Definition blooms_at (l : nat) (h : Heap) : option (Bloom * Bloom) :=
  default None (h_blooms h !! l).
Definition batches_at (l : nat) (h : Heap) : option (gset BatchId) :=
  default None (h_batches h !! l).

Definition put_downloads (l : nat) (x : gmap Hash PayloadState) (h : Heap) : Heap :=
  mkHeap (h_next h) (<[l := x]> (h_downloads h)) (h_blooms h) (h_batches h).
Definition put_blooms (l : nat) (x : option (Bloom * Bloom)) (h : Heap) : Heap :=
  mkHeap (h_next h) (h_downloads h) (<[l := x]> (h_blooms h)) (h_batches h).
Definition put_batches (l : nat) (x : option (gset BatchId)) (h : Heap) : Heap :=
  mkHeap (h_next h) (h_downloads h) (h_blooms h) (<[l := x]> (h_batches h)).

(** Fresh cells for a round; the three objects of a round get one address, each in its own
    map. *)
Definition alloc (bl : option (Bloom * Bloom)) (ids : option (gset BatchId)) (h : Heap) :
    nat * Heap :=
  (h_next h,
   mkHeap (S (h_next h)) (<[h_next h := ∅]> (h_downloads h)) (<[h_next h := bl]> (h_blooms h))
     (<[h_next h := ids]> (h_batches h))).

(** [RoundState::new]. *)
Definition RoundState_new (h : Heap) : RoundState * Heap :=
  let '(l, h') := alloc None None h in
  (mkRoundState 0 0 false false l ∅ ∅ [] l [] None l [], h').

Definition distro_result_blob_downloaded (hash : Hash) (r : RoundState) (h : Heap) : bool :=
  bool_decide (is_Some (downloads_at (rs_downloads r) h !! hash)).

(** ** The client *)

(** The task that checks a downloaded payload, between its critical sections. *)
Inductive VerifyPc := VCheck | VClear (just_finished : bool) | VStore.
Record VerifyTask := mkVerifyTask {
  vt_pc : VerifyPc;
  vt_hash : Hash;
  vt_payload : TransmittableDistroResult;
  vt_from : NodeIdentity;
  vt_batch_id : BatchId;
  vt_commitment : Commitment;
  vt_batches : nat;
  vt_blooms : nat;
  vt_downloads : nat;
}.

(** The task that applies the results of a round. *)
Record ApplyTask := mkApplyTask {
  at_payloads : nat;
  at_commitments : gmap BatchId (list (NodeIdentity * (Commitment * TrainingResult)));
  at_witnesses : list Witness;
  at_quorum : Z;
  at_batch_ids : list BatchId;
  at_cold_start_warmup_steps : Z;
  at_checkpoint_is_p2p : bool;
}.

Inductive ActiveStep :=
| Intermediate | InWarmup | InTraining (finished : bool) | InWitness | InCooldown.

Record FinishedBroadcast := mkFinishedBroadcast {
  fb_step : Z;
  fb_merkle : list Z;
  fb_commitment_data_hash : list Z;
  fb_proof : CommitteeProof;
  fb_warmup : bool;
}.

(** What the client sends on its channels. *)
Inductive Output :=
| RequestDownload (ticket : BlobTicket) (from : NodeIdentity) (step : Z)
| BroadcastFinished (f : FinishedBroadcast)
| SendWitness (w : Witness)
| SendWarmupWitness (w : Witness)
| SendHealthChecks (checks : list (NodeIdentity * CommitteeProof)).

(** Which receivers still exist, and whether the statistics lock is usable. *)
Record Channels := mkChannels {
  ch_download : bool;
  ch_opportunistic : bool;
  ch_finished : bool;
  ch_health : bool;
  ch_stats : bool;
}.

Record StepStateMachine := mkMachine {
  identity : NodeIdentity;
  active_step : ActiveStep;
  sm_current : RoundState;
  sm_previous : RoundState;
  sent_warmup_finished : bool;
  sent_warmup_witness : bool;
  coordinator_state : Coordinator;
  sm_heap : Heap;
  sm_verifying : list VerifyTask;
  sm_applying : list ApplyTask;
  sm_out : list Output;
  sm_channels : Channels;
}.

Definition set_active_step (x : ActiveStep) (m : StepStateMachine) : StepStateMachine :=
  mkMachine (identity m) x (sm_current m) (sm_previous m) (sent_warmup_finished m)
    (sent_warmup_witness m) (coordinator_state m) (sm_heap m) (sm_verifying m) (sm_applying m)
    (sm_out m) (sm_channels m).
Definition set_current (x : RoundState) (m : StepStateMachine) : StepStateMachine :=
  mkMachine (identity m) (active_step m) x (sm_previous m) (sent_warmup_finished m)
    (sent_warmup_witness m) (coordinator_state m) (sm_heap m) (sm_verifying m) (sm_applying m)
    (sm_out m) (sm_channels m).
Definition set_previous (x : RoundState) (m : StepStateMachine) : StepStateMachine :=
  mkMachine (identity m) (active_step m) (sm_current m) x (sent_warmup_finished m)
    (sent_warmup_witness m) (coordinator_state m) (sm_heap m) (sm_verifying m) (sm_applying m)
    (sm_out m) (sm_channels m).
Definition set_warmup_finished (x : bool) (m : StepStateMachine) : StepStateMachine :=
  mkMachine (identity m) (active_step m) (sm_current m) (sm_previous m) x (sent_warmup_witness m)
    (coordinator_state m) (sm_heap m) (sm_verifying m) (sm_applying m) (sm_out m) (sm_channels m).
Definition set_warmup_witness (x : bool) (m : StepStateMachine) : StepStateMachine :=
  mkMachine (identity m) (active_step m) (sm_current m) (sm_previous m) (sent_warmup_finished m) x
    (coordinator_state m) (sm_heap m) (sm_verifying m) (sm_applying m) (sm_out m) (sm_channels m).
Definition set_coordinator_state (x : Coordinator) (m : StepStateMachine) : StepStateMachine :=
  mkMachine (identity m) (active_step m) (sm_current m) (sm_previous m) (sent_warmup_finished m)
    (sent_warmup_witness m) x (sm_heap m) (sm_verifying m) (sm_applying m) (sm_out m) (sm_channels
    m).
Definition set_heap (x : Heap) (m : StepStateMachine) : StepStateMachine :=
  mkMachine (identity m) (active_step m) (sm_current m) (sm_previous m) (sent_warmup_finished m)
    (sent_warmup_witness m) (coordinator_state m) x (sm_verifying m) (sm_applying m) (sm_out m)
    (sm_channels m).
Definition set_verifying (x : list VerifyTask) (m : StepStateMachine) : StepStateMachine :=
  mkMachine (identity m) (active_step m) (sm_current m) (sm_previous m) (sent_warmup_finished m)
    (sent_warmup_witness m) (coordinator_state m) (sm_heap m) x (sm_applying m) (sm_out m)
    (sm_channels m).
Definition set_applying (x : list ApplyTask) (m : StepStateMachine) : StepStateMachine :=
  mkMachine (identity m) (active_step m) (sm_current m) (sm_previous m) (sent_warmup_finished m)
    (sent_warmup_witness m) (coordinator_state m) (sm_heap m) (sm_verifying m) x (sm_out m)
    (sm_channels m).
Definition set_out (x : list Output) (m : StepStateMachine) : StepStateMachine :=
  mkMachine (identity m) (active_step m) (sm_current m) (sm_previous m) (sent_warmup_finished m)
    (sent_warmup_witness m) (coordinator_state m) (sm_heap m) (sm_verifying m) (sm_applying m) x
    (sm_channels m).
Definition set_sent_witness (x : bool) (r : RoundState) : RoundState :=
  mkRoundState (rs_height r) (rs_step r) x (rs_sent_finished r) (rs_downloads r) (rs_results r)
    (rs_clients_finished r) (rs_data_assignments r) (rs_blooms r) (rs_broadcasts r)
    (rs_committee_info r) (rs_not_yet_trained_on r) (rs_self_distro_results r).
Definition set_sent_finished (x : bool) (r : RoundState) : RoundState :=
  mkRoundState (rs_height r) (rs_step r) (rs_sent_witness r) x (rs_downloads r) (rs_results r)
    (rs_clients_finished r) (rs_data_assignments r) (rs_blooms r) (rs_broadcasts r)
    (rs_committee_info r) (rs_not_yet_trained_on r) (rs_self_distro_results r).
Definition set_downloads_cell (x : nat) (r : RoundState) : RoundState :=
  mkRoundState (rs_height r) (rs_step r) (rs_sent_witness r) (rs_sent_finished r) x (rs_results r)
    (rs_clients_finished r) (rs_data_assignments r) (rs_blooms r) (rs_broadcasts r)
    (rs_committee_info r) (rs_not_yet_trained_on r) (rs_self_distro_results r).
Definition set_results (x : gmap BatchId (list (NodeIdentity * (Commitment * TrainingResult)))) (r
    : RoundState) : RoundState :=
  mkRoundState (rs_height r) (rs_step r) (rs_sent_witness r) (rs_sent_finished r) (rs_downloads r)
    x (rs_clients_finished r) (rs_data_assignments r) (rs_blooms r) (rs_broadcasts r)
    (rs_committee_info r) (rs_not_yet_trained_on r) (rs_self_distro_results r).
Definition set_clients_finished (x : gmap (list Z) Finished_) (r : RoundState) : RoundState :=
  mkRoundState (rs_height r) (rs_step r) (rs_sent_witness r) (rs_sent_finished r) (rs_downloads r)
    (rs_results r) x (rs_data_assignments r) (rs_blooms r) (rs_broadcasts r) (rs_committee_info r)
    (rs_not_yet_trained_on r) (rs_self_distro_results r).
Definition set_broadcasts (x : list (list Z)) (r : RoundState) : RoundState :=
  mkRoundState (rs_height r) (rs_step r) (rs_sent_witness r) (rs_sent_finished r) (rs_downloads r)
    (rs_results r) (rs_clients_finished r) (rs_data_assignments r) (rs_blooms r) x
    (rs_committee_info r) (rs_not_yet_trained_on r) (rs_self_distro_results r).
Definition set_self_results (x : list (list DistroResult_)) (r : RoundState) : RoundState :=
  mkRoundState (rs_height r) (rs_step r) (rs_sent_witness r) (rs_sent_finished r) (rs_downloads r)
    (rs_results r) (rs_clients_finished r) (rs_data_assignments r) (rs_blooms r) (rs_broadcasts r)
    (rs_committee_info r) (rs_not_yet_trained_on r) x.

Definition on_heap (f : Heap → Heap) (m : StepStateMachine) : StepStateMachine :=
  set_heap (f (sm_heap m)) m.
Definition emit (o : Output) (m : StepStateMachine) : StepStateMachine :=
  set_out (sm_out m ++ [o]) m.

(** [&mut self.current_round] or [&mut self.previous_round]. *)
Definition round_of (current : bool) (m : StepStateMachine) : RoundState :=
  if current then sm_current m else sm_previous m.
Definition on_round (current : bool) (f : RoundState → RoundState) (m : StepStateMachine) :
    StepStateMachine :=
  if current then set_current (f (sm_current m)) m else set_previous (f (sm_previous m)) m.

(** A client list has an identity. *)
Definition is_client (i : NodeIdentity) (cl : list Client) : bool :=
  existsb (λ x, id_eqb (id x) i) cl.
Fixpoint client_index_from (k : Z) (i : NodeIdentity) (cl : list Client) : option Z :=
  match cl with
  | [] => None
  | x :: cl' => if id_eqb (id x) i then Some k else client_index_from (k + 1) i cl'
  end.
Definition client_index (i : NodeIdentity) (c : Coordinator) : option Z :=
  client_index_from 0 i (clients (epoch_state c)).

Fixpoint assigned_to (b : BatchId) (l : list (BatchId * NodeIdentity)) : option NodeIdentity :=
  match l with
  | [] => None
  | (b', i) :: l' => if bool_decide (b' = b) then Some i else assigned_to b l'
  end.
End Data.

(** ** Messages from peers (steps.rs) *)

Section Operations.
Context {H : HashFns} {B : Blobs} {T : Tensors} {K : TensorKinds}.

Inductive OpportunisticWitnessError := OWSend | OWFinished | OWStatsLoggerMutex.
Inductive ApplyMessageError := StartDownloadBlob | AMStatsLoggerMutex.
Inductive ApplyMessageOutcome := Applied | Ignored | Invalid.

(** [MerkleTree::new(&broadcasts).get_root().cloned().unwrap_or(default)]. *)
Definition broadcasts_root {E} (broadcasts : list (list Z)) : res E (list Z) :=
  t ← merkle_new broadcasts;
  Ok (default (replicate 32 0) (merkle_root t)).

(** [WitnessStep::get_witness_to_send] (witness.rs). *)
Definition get_witness_to_send {E} : M E StepStateMachine (option Witness) :=
  m ← self;
  if rs_sent_witness (sm_previous m) then mret None else
  match rs_committee_info (sm_current m) with
  | None => mret None
  | Some (_, proof, _) =>
      if is_false (wp_witness proof) then mret None else
      broadcast_merkle ← lift (broadcasts_root (rs_broadcasts (sm_previous m)));
      let '(participant_bloom, broadcast_bloom) :=
        default (bloom_default 16 8, bloom_default 16 8)
          (blooms_at (rs_blooms (sm_previous m)) (sm_heap m)) in
      modify (on_round false (set_sent_witness true)) ;;
      mret (Some (mkWitness proof participant_bloom broadcast_bloom broadcast_merkle))
  end.

Definition deserialized (p : PayloadState) : bool :=
  match p with Deserializing _ (Some _) => true | _ => false end.

(** Every payload of the round is deserialised. *)
Definition all_deserialized (r : RoundState) (h : Heap) : bool :=
  forallb (λ kv, deserialized (snd kv)) (map_to_list (downloads_at (rs_downloads r) h)).

(** No client is missing from [clients_finished]. *)
Definition all_clients_finished (m : StepStateMachine) : bool :=
  forallb (λ x, bool_decide (is_Some (rs_clients_finished (sm_current m) !! signer (id x))))
    (clients (epoch_state (coordinator_state m))).

Definition send_finished (step : Z) (broadcasts : list (list Z)) (proof : CommitteeProof)
    (warmup : bool) : M OpportunisticWitnessError StepStateMachine unit :=
  m ← self;
  merkle ← lift (broadcasts_root broadcasts);
  throw_if (negb (ch_finished (sm_channels m))) OWFinished ;;
  modify (emit (BroadcastFinished
    (mkFinishedBroadcast step merkle (sha256 merkle) proof warmup))).

Definition send_opportunistic (o : Output) : M OpportunisticWitnessError StepStateMachine unit :=
  m ← self;
  throw_if (negb (ch_opportunistic (sm_channels m))) OWSend ;;
  modify (emit o).

(** The part of [try_send_opportunistic_witness] for a round that has a committee. *)
Definition try_send_in_round (proof : CommitteeProof) : M OpportunisticWitnessError StepStateMachine unit :=
  m ← self;
  match active_step m with
  | InTraining true =>
      if bool_decide (batches_at (rs_not_yet_trained_on (sm_previous m)) (sm_heap m) = None) then
        if negb (all_deserialized (sm_previous m) (sm_heap m)) then mret tt
        else if negb (rs_sent_finished (sm_current m)) then
          send_finished (rs_step (sm_current m)) (rs_broadcasts (sm_previous m)) proof false ;;
          modify (on_round true (set_sent_finished true))
        else if negb (all_clients_finished m) then mret tt
        else
          w ← get_witness_to_send;
          match w with
          | None => mret tt
          | Some witness =>
              throw_if (negb (ch_stats (sm_channels m))) OWStatsLoggerMutex ;;
              send_opportunistic (SendWitness witness)
          end
      else mret tt
  | _ => mret tt
  end.

(** The part for a round without a committee, while the run warms up. *)
Definition try_send_in_warmup : M OpportunisticWitnessError StepStateMachine unit :=
  m ← self;
  if negb (sent_warmup_finished m) then
    send_finished 0 (rs_broadcasts (sm_current m)) (mkCommitteeProof TieBreaker 0 0) true ;;
    modify (set_warmup_finished true)
  else if negb (all_clients_finished m) then mret tt
  else if negb (sent_warmup_witness m) then
    merkle ← lift (broadcasts_root (rs_broadcasts (sm_current m)));
    match client_index (identity m) (coordinator_state m) with
    | Some index =>
        send_opportunistic (SendWarmupWitness (mkWitness (mkWitnessProof index index sb_FALSE)
          (bloom_default 16 8) (bloom_default 16 8) merkle))
    | None => mret tt
    end ;;
    modify (set_warmup_witness true)
  else mret tt.

Definition try_send_opportunistic_witness : M OpportunisticWitnessError StepStateMachine unit :=
  m ← self;
  match rs_committee_info (sm_current m) with
  | Some (proof, _, _) => try_send_in_round proof
  | None =>
      if bool_decide (run_state (coordinator_state m) = Warmup) then try_send_in_warmup
      else mret tt
  end.

Definition is_warmup_broadcast (b : Broadcast) : bool :=
  match bc_data b with BTrainingResult _ => false | BFinished f => fi_warmup f end.

(** The checks of [apply_message] on the sender: [Some outcome] when it stops there. *)
Definition check_sender (from : NodeIdentity) (b : Broadcast) (r : RoundState)
    (m : StepStateMachine) : res ApplyMessageError (option ApplyMessageOutcome) :=
  let cl := clients (epoch_state (coordinator_state m)) in
  stop ← (if negb (is_warmup_broadcast b) && negb (id_eqb from (identity m)) then
            match rs_committee_info r with
            | Some (_, _, selection) =>
                ok ← verify_committee_for_client selection from (bc_proof b) cl;
                Ok (if (ok : bool) then None else Some Invalid)
            | None => Ok (Some Ignored)
            end
          else Ok (if is_client from cl then None else Some Invalid));
  match stop with
  | Some o => Ok (Some o)
  | None =>
      Ok (if negb (is_warmup_broadcast b) && negb (bool_decide (cp_committee (bc_proof b) = Trainer))
          then Some Invalid else None)
  end.

(** A training result, once the sender is accepted. *)
Definition apply_training_result (current : bool) (from : NodeIdentity) (b : Broadcast)
    (t : TrainingResult) : M ApplyMessageError StepStateMachine (option ApplyMessageOutcome) :=
  m ← self;
  let r := round_of current m in
  let hash := ticket_hash (tr_ticket t) in
  match assigned_to (tr_batch_id t) (rs_data_assignments r) with
  | None => mret (Some Invalid)
  | Some assignee =>
      if distro_result_blob_downloaded hash r (sm_heap m) then mret (Some Ignored)
      else if negb (id_eqb from assignee) then mret (Some Invalid)
      else
        modify (on_round current (λ r, set_results
          (<[tr_batch_id t := default [] (rs_results r !! tr_batch_id t)
                                ++ [(from, (bc_commitment b, t))]]> (rs_results r)) r)) ;;
        modify (on_heap (λ h, put_downloads (rs_downloads r)
          (<[hash := Downloading from (tr_batch_id t) (tr_ticket t)]>
             (downloads_at (rs_downloads r) h)) h)) ;;
        throw_if (negb (ch_stats (sm_channels m))) AMStatsLoggerMutex ;;
        whenM (negb (id_eqb from (identity m)))
          (throw_if (negb (ch_download (sm_channels m))) StartDownloadBlob ;;
           modify (emit (RequestDownload (tr_ticket t) from (bc_step b)))) ;;
        mret None
  end.

Definition apply_finished (current : bool) (from : NodeIdentity) (f : Finished_) :
    M ApplyMessageError StepStateMachine (option ApplyMessageOutcome) :=
  m ← self;
  if bool_decide (is_Some (rs_clients_finished (round_of current m) !! signer from))
  then mret (Some Ignored)
  else
    modify (on_round current (λ r, set_clients_finished
      (<[signer from := f]> (rs_clients_finished r)) r)) ;;
    throw_if (negb (ch_stats (sm_channels m))) AMStatsLoggerMutex ;;
    mret None.

Definition apply_message (from : NodeIdentity) (b : Broadcast) :
    M ApplyMessageError StepStateMachine ApplyMessageOutcome :=
  m ← self;
  if negb ((rs_step (sm_current m) =? bc_step b) || (rs_step (sm_previous m) =? bc_step b))
  then mret Invalid
  else
    let current := rs_step (sm_current m) =? bc_step b in
    stop ← asks (check_sender from b (round_of current m));
    match stop with
    | Some o => mret o
    | None =>
        stop ← match bc_data b with
               | BTrainingResult t => apply_training_result current from b t
               | BFinished f => apply_finished current from f
               end;
        match stop with
        | Some o => mret o
        | None =>
            modify (on_round current (λ r,
              set_broadcasts (rs_broadcasts r ++ [data_hash (bc_commitment b)]) r)) ;;
            mret Applied
        end
    end.

(** ** Downloaded results (steps.rs) *)

(** [comm.0 == from && comm.1.1.ticket.hash() == hash]. *)
Definition commitment_for (from : NodeIdentity) (hash : Hash)
    (l : list (NodeIdentity * (Commitment * TrainingResult))) : option Commitment :=
  (λ x, x.2.2.1) <$>
    list_find (λ x, id_eqb x.1 from && bool_decide (ticket_hash (tr_ticket x.2.2) = hash) = true) l.

(** The synchronous part: the checks, and the task it spawns. *)
Definition apply_distro_result (hash : Hash) (p : TransmittableDistroResult)
    (self_result : option (list DistroResult_)) (m : StepStateMachine) : StepStateMachine :=
  let spawn (current : bool) :=
    let m := match self_result with
             | Some x => on_round current (λ r, set_self_results (rs_self_distro_results r ++ [x]) r) m
             | None => m
             end in
    let r := round_of current m in
    match downloads_at (rs_downloads r) (sm_heap m) !! hash with
    | Some (Downloading from batch_id _) =>
        match rs_results r !! batch_id with
        | None => m
        | Some l =>
            match commitment_for from hash l with
            | None => m
            | Some commitment =>
                set_verifying (sm_verifying m ++
                  [mkVerifyTask VCheck hash p from batch_id commitment
                     (rs_not_yet_trained_on r) (rs_blooms r) (rs_downloads r)]) m
            end
        end
    | _ => m
    end in
  if distro_result_blob_downloaded hash (sm_current m) (sm_heap m) then spawn true
  else if distro_result_blob_downloaded hash (sm_previous m) (sm_heap m) then spawn false
  else m.

(** The lock on the remaining batches and the filters: a vote for the batch if it is still
    open; whether the round just became complete. *)
Definition vote_for_batch {E} (t : VerifyTask) (h : Heap) : res E (Heap * bool) :=
  match batches_at (vt_batches t) h with
  | Some remaining =>
      h ← match blooms_at (vt_blooms t) h with
          | Some (participant, broadcast) =>
              participant ← bloom_add (sha256 (signer (vt_from t))) participant;
              broadcast ← (if bool_decide (vt_batch_id t ∈ remaining)
                           then bloom_add (data_hash (vt_commitment t)) broadcast
                           else Ok broadcast);
              Ok (put_blooms (vt_blooms t) (Some (participant, broadcast)) h)
          | None => Ok h
          end;
      let remaining := remaining ∖ {[vt_batch_id t]} in
      Ok (put_batches (vt_batches t) (Some remaining) h, bool_decide (remaining = ∅))
  | None => Ok (h, false)
  end.

Definition vt_at (pc : VerifyPc) (t : VerifyTask) : VerifyTask :=
  mkVerifyTask pc (vt_hash t) (vt_payload t) (vt_from t) (vt_batch_id t) (vt_commitment t)
    (vt_batches t) (vt_blooms t) (vt_downloads t).

(** One critical section of the task; [None] when it is over. *)
Definition verify_step {E} (t : VerifyTask) (h : Heap) : res E (Heap * option VerifyTask) :=
  match vt_pc t with
  | VCheck =>
      if bool_decide (comptue_hash (vt_payload t) = data_hash (vt_commitment t)) then
        '(h', just_finished) ← vote_for_batch t h;
        Ok (h', Some (vt_at (VClear just_finished) t))
      else Ok (h, None)
  | VClear just_finished =>
      Ok (if just_finished then put_batches (vt_batches t) None h else h, Some (vt_at VStore t))
  | VStore =>
      Ok (put_downloads (vt_downloads t)
            (<[vt_hash t := Deserializing (vt_payload t) None]> (downloads_at (vt_downloads t) h)) h,
          None)
  end.

(** [TryFrom<&SerializedDistroResult> for DistroResult], and the deserialising thread. *)
Definition try_into (r : SerializedDistroResult) : res TchError DistroResult_ :=
  result_check r ;; build_result r.
Fixpoint try_all (l : list SerializedDistroResult) : res TchError (list DistroResult_) :=
  match l with
  | [] => Ok []
  | r :: l' => x ← try_into r; xs ← try_all l'; Ok (x :: xs)
  end.
(** The result of the thread; a crash of the inner one is an error. *)
Definition deserialize (p : TransmittableDistroResult) : res DeserializeError (list DistroResult_ * Z) :=
  match try_all (td_distro_results p) with
  | Ok l => Ok (l, td_trainer_nonce p)
  | Err e => Err (DeserializeFailed e)
  | Panic => Err DeserializeThreadCrashed
  end.

Definition finish_deserializing (l : nat) (hash : Hash) (h : Heap) : Heap :=
  match downloads_at l h !! hash with
  | Some (Deserializing p None) =>
      put_downloads l (<[hash := Deserializing p (Some (deserialize p))]> (downloads_at l h)) h
  | _ => h
  end.

(** ** Applying the results of a round (train.rs) *)

Inductive ApplyError :=
| ANoActiveRound
| DidNotFinishDeserializingCommitment (c : Commitment) (b : BatchId)
| DidNotBeginDownloadingCommitment (c : Commitment) (b : BatchId) (h : Hash)
| UnknownCommitment (c : Commitment) (b : BatchId).

(** What is applied for one batch, if anything. *)
Definition batch_results (t : ApplyTask) (batch_id : BatchId) (payloads : gmap Hash PayloadState) :
    res ApplyError (gmap Hash PayloadState * option (list DistroResult_)) :=
  match at_commitments t !! batch_id with
  | None => Ok (payloads, None)
  | Some batch_commitments =>
      consensus ← select_consensus_commitment_by_witnesses
                    ((λ x, x.2.1) <$> batch_commitments) (at_witnesses t) (at_quorum t);
      match consensus with
      | None => Ok (payloads, None)
      | Some index =>
          x ← unwrap (batch_commitments !! index);
          let '(_, (commitment, result)) := x in
          let hash := ticket_hash (tr_ticket result) in
          match payloads !! hash with
          | Some (Deserializing _ (Some (Ok (results, trainer_nonce)))) =>
              Ok (delete hash payloads,
                  if (trainer_nonce <? at_cold_start_warmup_steps t) && at_checkpoint_is_p2p t
                  then None else Some results)
          | Some (Deserializing _ (Some (Err _))) => Ok (delete hash payloads, None)
          | Some (Deserializing _ (Some Panic)) => Panic
          | Some (Deserializing _ None) =>
              Err (DidNotFinishDeserializingCommitment commitment batch_id)
          | Some (Downloading _ _ ticket) =>
              Err (DidNotBeginDownloadingCommitment commitment batch_id (ticket_hash ticket))
          | None => Err (UnknownCommitment commitment batch_id)
          end
      end
  end.

Fixpoint apply_loop (t : ApplyTask) (batch_ids : list BatchId) (payloads : gmap Hash PayloadState) :
    res ApplyError (list (list DistroResult_)) :=
  match batch_ids with
  | [] => Ok []
  | b :: bs =>
      '(payloads', r) ← batch_results t b payloads;
      rest ← apply_loop t bs payloads';
      Ok (match r with Some x => x :: rest | None => rest end)
  end.

(** The results handed to the optimiser, in the order of the batches. *)
Definition results_to_apply (t : ApplyTask) (h : Heap) : res ApplyError (list (list DistroResult_)) :=
  apply_loop t (at_batch_ids t) (downloads_at (at_payloads t) h).

Definition checkpoint_is_p2p (c : Coordinator) : bool :=
  match checkpoint_ (the_llm (model c)) with CkP2P _ | CkP2PGcs _ => true | _ => false end.

(** The synchronous part of [apply_results]: [None] in the first two rounds of an epoch. *)
Definition apply_results (state : Coordinator) : M ApplyError StepStateMachine (option ApplyTask) :=
  m ← self;
  if rs_height (sm_current m) =? 0 then mret None
  else
    prev ← lift (ok_or (previous_round state) ANoActiveRound);
    quorum ← lift (witness_quorum (as_u16 (zlen (witnesses prev))) state);
    _ ← lift (get_cold_start_warmup_bounds state);
    let payloads := rs_downloads (sm_previous m) in
    let commitments := rs_results (sm_previous m) in
    let '(fresh, h) := alloc None None (sm_heap m) in
    modify (λ m, set_heap h (on_round false (λ r, set_results ∅ (set_downloads_cell fresh r)) m)) ;;
    prev_prev ← lift (ok_or (previous_previous_round state) ANoActiveRound);
    info ← lift (ok_or (rs_committee_info (sm_previous m)) ANoActiveRound);
    n ← lift (get_num_trainer_nodes info.2);
    batch_ids ← lift (get_batch_ids_for_round prev_prev state n);
    mret (Some (mkApplyTask payloads commitments (witnesses prev) quorum batch_ids
                  (cold_start_warmup_steps (the_llm (model state))) (checkpoint_is_p2p state))).

(** ** Starting a step (warmup.rs, train.rs, witness.rs, cooldown.rs) *)

Inductive TrainError :=
| NoTrainers | NoActiveRound_ | NoCommitteeInfo | TApply (e : ApplyError)
| TCoordinatorError (e : CoordinatorError).

(** The clients a witness finds unhealthy, with the seats it computes for them. *)
Fixpoint unhealthy_from (k : Z) (sel : CommitteeSelection) (state : Coordinator) (cl : list Client) :
    res TrainError (list (NodeIdentity * CommitteeProof)) :=
  match cl with
  | [] => Ok []
  | x :: cl' =>
      proof ← get_committee sel k;
      bad ← match healthy (id x) proof state with
            | Ok h => Ok (negb h)
            | Err _ => Ok true
            | Panic => Panic
            end;
      rest ← unhealthy_from (k + 1) sel state cl';
      Ok (if (bad : bool) then (id x, proof) :: rest else rest)
  end.

Definition start_sending_health_checks (state : Coordinator) : M TrainError StepStateMachine unit :=
  m ← self;
  if rs_height (sm_current m) =? 0 then mret tt
  else
    info ← lift (ok_or (rs_committee_info (sm_current m)) NoCommitteeInfo);
    let '(_, witness_proof, selection) := info in
    if is_false (first_round (epoch_state state)) && is_true (wp_witness witness_proof) then
      checks ← lift (unhealthy_from 0 selection state (clients (epoch_state state)));
      whenM (negb (bool_decide (checks = [])) && ch_health (sm_channels m))
        (modify (emit (SendHealthChecks checks)))
    else mret tt.

(** [*previous_round = std::mem::take(current_round)]. *)
Definition rotate_rounds (m : StepStateMachine) : StepStateMachine :=
  let '(r, h) := RoundState_new (sm_heap m) in
  set_heap h (set_current r (set_previous (sm_current m) m)).

(** [TrainingStepMetadata::start]; [bl] are the two random filters of the round. *)
Definition training_start (index : Z) (state : Coordinator) (trainers : list Trainer_)
    (bl : Bloom * Bloom) : M TrainError StepStateMachine ActiveStep :=
  throw_if (bool_decide (length trainers = 0%nat)) NoTrainers ;;
  applying ← zoom (λ m, m) (λ m _, m) TApply (apply_results state);
  modify (λ m, set_applying (sm_applying m ++ option_list applying) m) ;;
  start_sending_health_checks state ;;
  round ← lift (ok_or (current_round state) NoActiveRound_);
  modify rotate_rounds ;;
  selection ← lift (map_err TCoordinatorError
    (CommitteeSelection_new (tie_breaker_tasks round) (witness_nodes (config state))
       (verification_percent (config state)) (zlen (clients (epoch_state state)))
       (random_seed round)));
  let have_training := negb (last_step_set (epoch_state state)) in
  assignments ← lift (if (have_training : bool) then assign_data_for_state state selection else Ok []);
  ids ← lift (if (have_training : bool) then
                n ← get_num_trainer_nodes selection;
                l ← get_batch_ids_for_round round state n;
                Ok (Some (list_to_set l : gset BatchId))
              else Ok None);
  committee_proof ← lift (get_committee selection index);
  witness_proof ← lift (get_witness selection index);
  m ← self;
  let '(l, h) := alloc (Some bl) ids (sm_heap m) in
  modify (λ m, set_heap h (set_current
    (mkRoundState (height round) (step (progress state)) false false l ∅ ∅ assignments l []
       (Some (committee_proof, witness_proof, selection)) l []) m)) ;;
  _ ← lift (get_cold_start_warmup_bounds state);
  mret (InTraining false).

(** [WarmupStepMetadata::start]. *)
Definition warmup_start (m : StepStateMachine) : StepStateMachine :=
  let '(p, h) := RoundState_new (sm_heap m) in
  let '(c, h) := RoundState_new h in
  set_heap h (set_current c (set_previous p m)).

Inductive WitnessingError := WNoTrainers | WTask.
Inductive CooldownError := CNoTrainers | CTask.
Inductive StepError :=
| Desync (a : ActiveStep) (r : RunState)
| SWitness (e : WitnessingError) | SCooldown (e : CooldownError) | STrain (e : TrainError)
| SEvals | SStatsLoggerMutex.

(** What finishing a step gave back: the trainers, and whether evaluations run on them. *)
Record Awaited := mkAwaited {
  aw_running : bool;
  aw_trainers : list Trainer_;
}.

(** [WitnessStepMetadata::start]; the witness is sent by a task of its own. *)
Definition witness_start (aw : Awaited) : M WitnessingError StepStateMachine ActiveStep :=
  throw_if (negb (aw_running aw) && bool_decide (length (aw_trainers aw) = 0%nat)) WNoTrainers ;;
  w ← get_witness_to_send;
  match w with
  | Some witness =>
      m ← self; whenM (ch_opportunistic (sm_channels m)) (modify (emit (SendWitness witness)))
  | None => mret tt
  end ;;
  mret InWitness.

(** [CooldownStepMetadata::start]; the checkpoint it writes is named after [step - 1],
    which wraps off chain. *)
Definition cooldown_start (aw : Awaited) (_state : Coordinator) :
    M CooldownError StepStateMachine ActiveStep :=
  throw_if (bool_decide (length (aw_trainers aw) = 0%nat)) CNoTrainers ;;
  mret InCooldown.

(** ** New coordinator states (steps.rs) *)

(** [unreachable!] in the intermediate state. *)
Definition allowed_in_run_state {E} (a : ActiveStep) (r : RunState) : res E bool :=
  match a, r with
  | Intermediate, _ => Panic
  | InWarmup, (Warmup | WaitingForMembers | Paused) => Ok true
  | InCooldown, Cooldown => Ok true
  | InTraining _, RoundTrain => Ok true
  | InWitness, RoundWitness => Ok true
  | _, _ => Ok false
  end.

Notation SM := (M StepError StepStateMachine).

(** A call whose error is wrapped by the step's. *)
Definition in_step {E A} (f : E → StepError) (m : M E StepStateMachine A) : SM A :=
  zoom (λ s, s) (λ s _, s) f m.

(** The client is no member of the epoch: it abandons its step and waits in warmup. *)
Definition leave_step (a : ActiveStep) (fin : res StepError Awaited) : SM ActiveStep :=
  match a with
  | Intermediate => lift Panic
  | InWarmup => mret InWarmup
  | _ => _ ← lift fin; modify warmup_start ;; mret InWarmup
  end.

(** The next step of a member, from the active one (already taken) and the run's state. *)
Definition next_step (a : ActiveStep) (index : Z) (state : Coordinator) (bl : Bloom * Bloom)
    (fin : res StepError Awaited) : SM ActiveStep :=
  match a, run_state state with
  | InWarmup, RoundTrain =>
      aw ← lift fin;
      modify (λ m, set_warmup_finished false (set_warmup_witness false m)) ;;
      m ← self;
      throw_if (negb (ch_stats (sm_channels m))) SStatsLoggerMutex ;;
      in_step STrain (training_start index state (aw_trainers aw) bl)
  | InTraining _, RoundWitness =>
      aw ← lift fin;
      m ← self;
      throw_if (negb (ch_stats (sm_channels m))) SStatsLoggerMutex ;;
      in_step SWitness (witness_start aw)
  | InWitness, RoundTrain =>
      aw ← lift fin;
      in_step STrain (training_start index state (aw_trainers aw) bl)
  | InWitness, Cooldown =>
      aw ← lift fin;
      in_step SCooldown (cooldown_start aw state)
  | InCooldown, (WaitingForMembers | Warmup | Paused) =>
      _ ← lift fin; modify warmup_start ;; mret InWarmup
  | a, r =>
      ok ← lift (allowed_in_run_state a r);
      if (ok : bool) then mret a else throw (Desync a r)
  end.

(** The active step is taken first, so a failure leaves the intermediate one. *)
Definition apply_state (state : Coordinator) (bl : Bloom * Bloom) (fin : res StepError Awaited) :
    SM unit :=
  m ← self;
  modify (set_active_step Intermediate) ;;
  match client_index (identity m) state with
  | None =>
      a ← leave_step (active_step m) fin;
      modify (set_active_step a)
  | Some index =>
      a ← next_step (active_step m) index state bl fin;
      modify (set_active_step a) ;;
      modify (set_coordinator_state state)
  end.

(** ** The run manager (steps.rs)

    [init_run] loads the model and joins the network; its result is what the spawned task
    returns, [None] while it runs. *)

Inductive InitRunError := InitFailed.

Inductive InitStage :=
| NotYetInitialized (config : option NodeIdentity)
| Initializing (future : option (res InitRunError StepStateMachine)) (state : Coordinator)
| Running (machine : StepStateMachine).

Inductive ApplyStateError := AInit (e : InitRunError) | AStep (e : StepError).

Definition manager_new (config : NodeIdentity) : InitStage := NotYetInitialized (Some config).

Definition manager_coordinator_state (s : InitStage) : option Coordinator :=
  match s with
  | NotYetInitialized _ => None
  | Initializing _ c => Some c
  | Running m => Some (coordinator_state m)
  end.

(** The stage after looking at the new state; [None] when the call returns at once. *)
Definition manager_advance (state : Coordinator) (s : InitStage) :
    res ApplyStateError (option InitStage) :=
  match s with
  | NotYetInitialized (Some config) =>
      if bool_decide (run_state state = Warmup) && is_client config (clients (epoch_state state))
      then Ok (Some (Initializing None state))
      else Ok None
  | NotYetInitialized None => Panic
  | Initializing future c =>
      if bool_decide (run_state state = WaitingForMembers) || bool_decide (run_state state = Paused)
      then Ok None
      else
        match future with
        | Some (Ok machine) => Ok (Some (Running machine))
        | Some (Err e) => Err (AInit e)
        | Some Panic => Panic
        | None => Ok None
        end
  | Running m => Ok (Some (Running m))
  end.

Definition manager_apply_state (state : Coordinator) (bl : Bloom * Bloom)
    (fin : res StepError Awaited) : M ApplyStateError InitStage unit := λ s,
  match manager_advance state s with
  | Err e => (Err e, s)
  | Panic => (Panic, s)
  | Ok None => (Ok tt, s)
  | Ok (Some (Running m)) =>
      let '(r, m') := apply_state state bl fin m in (map_err AStep r, Running m')
  | Ok (Some s') => (Ok tt, s')
  end.

(** [RunManager::try_send_opportunistic_witness]: first see whether the initialisation is
    done, with the state it was started in. *)
Inductive ManagerWitnessError := MWitness (e : OpportunisticWitnessError) | MApplyState (e : ApplyStateError).

Definition manager_try_send (bl : Bloom * Bloom) (fin : res StepError Awaited) :
    M ManagerWitnessError InitStage unit := λ s,
  let '(r, s) := match s with
                 | Initializing _ init_state => manager_apply_state init_state bl fin s
                 | _ => (Ok tt, s)
                 end in
  match r with
  | Err e => (Err (MApplyState e), s)
  | Panic => (Panic, s)
  | Ok _ =>
      match s with
      | Running m =>
          let '(r, m') := try_send_opportunistic_witness m in (map_err MWitness r, Running m')
      | _ => (Ok tt, s)
      end
  end.

Definition manager_apply_message (from : NodeIdentity) (b : Broadcast) :
    M ApplyMessageError InitStage ApplyMessageOutcome := λ s,
  match s with
  | Running m => let '(r, m') := apply_message from b m in (r, Running m')
  | _ => (Ok Ignored, s)
  end.

Definition manager_apply_distro_result (hash : Hash) (p : TransmittableDistroResult)
    (self_result : option (list DistroResult_)) (s : InitStage) : InitStage :=
  match s with Running m => Running (apply_distro_result hash p self_result m) | _ => s end.

(** ** Steps of a running client

    Whatever the network, the coordinator, the tasks and the timers do next. *)

Inductive ClientStep :=
| OnMessage (from : NodeIdentity) (b : Broadcast)
| OnDistroResult (hash : Hash) (p : TransmittableDistroResult)
    (self_result : option (list DistroResult_))
| OnTimer
| OnState (state : Coordinator) (bl : Bloom * Bloom) (fin : res StepError Awaited)
| OnVerify (i : nat)
| OnDeserialized (cell : nat) (hash : Hash)
| OnTrained.

(** Run the [i]-th task one step; a finished task leaves the list. *)
Definition run_verify (i : nat) (m : StepStateMachine) : res StepError StepStateMachine :=
  match sm_verifying m !! i with
  | None => Ok m
  | Some t =>
      '(h, t') ← verify_step t (sm_heap m);
      Ok (set_heap h (set_verifying
            (match t' with
             | Some t' => <[i := t']> (sm_verifying m)
             | None => delete i (sm_verifying m)
             end) m))
  end.

(** The client after a step, and whether it goes on: an error of a call ends the client. *)
Definition client_step (e : ClientStep) (m : StepStateMachine) : bool * StepStateMachine :=
  match e with
  | OnMessage from b => let '(r, m') := apply_message from b m in (is_ok r, m')
  | OnDistroResult hash p self => (true, apply_distro_result hash p self m)
  | OnTimer => let '(r, m') := try_send_opportunistic_witness m in (is_ok r, m')
  | OnState state bl fin => let '(r, m') := apply_state state bl fin m in (is_ok r, m')
  | OnVerify i => match run_verify i m with Ok m' => (true, m') | _ => (false, m) end
  | OnDeserialized cell hash => (true, on_heap (finish_deserializing cell hash) m)
  | OnTrained =>
      (true, match active_step m with
             | InTraining _ => set_active_step (InTraining true) m
             | _ => m
             end)
  end.

(** [StepStateMachine::new]. *)
Definition machine_new (identity : NodeIdentity) (c : Coordinator) (ch : Channels) : StepStateMachine :=
  let h := mkHeap 0 ∅ ∅ ∅ in
  let '(p, h) := RoundState_new h in
  let '(cur, h) := RoundState_new h in
  warmup_start (mkMachine identity InWarmup cur p false false c h [] [] [] ch).

(** A received payload is made of integers of their types. *)
Definition step_typed (e : ClientStep) : Prop :=
  match e with OnDistroResult _ p _ => payload_typed p | _ => True end.

Inductive client_run (m0 : StepStateMachine) : StepStateMachine → Prop :=
| run_start : client_run m0 m0
| run_step m e m' :
    client_run m0 m → step_typed e → client_step e m = (true, m') → client_run m0 m'.
End Operations.
