(* ===== verification/ClientInv.v ===== *)
(** * The books of a client

    What holds in every state of a client: the results it records for a round, the payloads
    it stores for them and the tasks that check payloads fit together, whoever holds them
    now (the current round, the previous round, or a task that applies them). *)

From stdpp Require Import base tactics list numbers decidable gmap sets.
From S2P Require Import Prelude CoreTypes Hashing Bloom Merkle CoordinatorState Committee Coordinator Frames DataSelection Payload Scheduler Client.

Open Scope Z_scope.

Section Books.
Context {H : HashFns} {B : Blobs} {T : Tensors} {K : TensorKinds}.

Notation entry := (NodeIdentity * (Commitment * TrainingResult))%type.
Notation results := (gmap BatchId (list entry)).

Definition blob (x : entry) : Hash := ticket_hash (tr_ticket x.2.2).
Definition batch (x : entry) : BatchId := tr_batch_id x.2.2.
Definition committed (x : entry) : list Z := data_hash x.2.1.

Definition recorded (res : results) (x : entry) : Prop := ∃ l, res !! batch x = Some l ∧ x ∈ l.

(** What a stored payload says about the result it belongs to. *)
Definition payload_of (x : entry) (ps : PayloadState) : Prop :=
  match ps with
  | Downloading from b _ => from = x.1 ∧ b = batch x
  | Deserializing p r =>
      payload_typed p ∧ comptue_hash p = committed x ∧ (r = None ∨ r = Some (deserialize p))
  end.

(** Results and payloads of one round. *)
Record ledger_ok (res : results) (d : gmap Hash PayloadState) : Prop := {
  lo_index : ∀ b l x, res !! b = Some l → x ∈ l → batch x = b;
  lo_unique : ∀ x y, recorded res x → recorded res y → blob x = blob y → x = y;
  lo_known : ∀ x, recorded res x → is_Some (d !! blob x);
  lo_payload : ∀ hash ps, d !! hash = Some ps →
    ∃ x, recorded res x ∧ blob x = hash ∧ payload_of x ps;
}.

(** A task checks a payload against the commitment of a recorded result. *)
Definition task_of (res : results) (t : VerifyTask) : Prop :=
  ∃ x, recorded res x ∧ blob x = vt_hash t ∧ x.2.1 = vt_commitment t.

(** Past its first section the payload matches. *)
Definition task_checked (t : VerifyTask) : Prop :=
  vt_pc t ≠ VCheck → comptue_hash (vt_payload t) = data_hash (vt_commitment t).

(** [hs] lists who holds which download cell with which results. *)
Record books_ok (hs : list (nat * results)) (h : Heap) (ts : list VerifyTask) : Prop := {
  bo_distinct : NoDup hs.*1;
  bo_allocated : ∀ l res, (l, res) ∈ hs → (l < h_next h)%nat;
  bo_ledger : ∀ l res, (l, res) ∈ hs → ledger_ok res (downloads_at l h);
  bo_tasks : ∀ l res t, (l, res) ∈ hs → t ∈ ts → vt_downloads t = l → task_of res t;
  bo_task : ∀ t, t ∈ ts →
    (vt_downloads t < h_next h)%nat ∧ payload_typed (vt_payload t) ∧ task_checked t;
}.

Lemma recorded_empty x : ¬ recorded ∅ x.
Proof. intros (l & Hl & _). by rewrite lookup_empty in Hl. Qed.

Lemma ledger_empty : ledger_ok ∅ ∅.
Proof.
  constructor.
  - intros b l x Hl. by rewrite lookup_empty in Hl.
  - by intros x y []%recorded_empty.
  - by intros x []%recorded_empty.
  - intros hash ps Hp. by rewrite lookup_empty in Hp.
Qed.

(** *** Changes of the books *)

Lemma books_drop hs hs' h ts : hs' `sublist_of` hs → books_ok hs h ts → books_ok hs' h ts.
Proof.
  intros Hsub [Hd Ha Hl Ht Hts].
  pose proof (sublist_subseteq _ _ Hsub) as Hin.
  constructor; [|intros l res ?%Hin; by eapply Ha|intros l res ?%Hin; by apply Hl|
    intros l res t ?%Hin; by apply Ht|done].
  eapply sublist_NoDup; [exact Hd|]. by apply fmap_sublist.
Qed.

Lemma books_perm hs hs' h ts : hs ≡ₚ hs' → books_ok hs h ts → books_ok hs' h ts.
Proof.
  intros Hp [Hd Ha Hl Ht Hts].
  assert (Hin : ∀ x, x ∈ hs' → x ∈ hs) by (intros x; by rewrite Hp).
  constructor; [by rewrite <- Hp|intros l res ?%Hin; by eapply Ha|intros l res ?%Hin; by apply Hl|
    intros l res t ?%Hin; by apply Ht|done].
Qed.

(** Only downloads and fresh addresses matter. *)
Lemma books_heap hs h h' ts :
  h_downloads h' = h_downloads h → h_next h' = h_next h → books_ok hs h ts → books_ok hs h' ts.
Proof.
  intros Hd Hn [Hnd Ha Hl Ht Hts].
  assert (Hat : ∀ l, downloads_at l h' = downloads_at l h) by (intros; unfold downloads_at; by rewrite Hd).
  constructor; rewrite ?Hn; try done. intros l res Hin. rewrite Hat. by apply Hl.
Qed.

(** A new holder with fresh cells. *)
Lemma books_fresh hs h ts bl ids :
  books_ok hs h ts →
  books_ok (((alloc bl ids h).1, ∅) :: hs) (alloc bl ids h).2 ts.
Proof.
  intros [Hd Ha Hl Ht Hts]. unfold alloc. cbn.
  assert (Hnew : ∀ l res, (l, res) ∈ hs → l ≠ h_next h) by (intros l res Hin; specialize (Ha _ _ Hin); lia).
  constructor; cbn.
  - constructor; [|done]. intros [[l res] [Heq Hin]]%list_elem_of_fmap.
    by apply (Hnew _ _ Hin).
  - intros l res [Heq|Hin]%elem_of_cons; [simplify_eq; lia|]. specialize (Ha _ _ Hin). lia.
  - intros l res [Heq|Hin]%elem_of_cons; unfold downloads_at; cbn.
    + simplify_eq. rewrite lookup_insert_eq. apply ledger_empty.
    + rewrite lookup_insert_ne by (symmetry; by eapply Hnew). by apply (Hl _ _ Hin).
  - intros l res t [Heq|Hin]%elem_of_cons Ht'; [simplify_eq|by eapply Ht].
    intros Heq. destruct (Hts t Ht') as (? & _). lia.
  - intros t Ht'. destruct (Hts t Ht') as (? & ? & ?). split_and!; [lia|done..].
Qed.

Lemma recorded_insert res x y :
  recorded (<[batch x := default [] (res !! batch x) ++ [x]]> res) y ↔ recorded res y ∨ y = x.
Proof.
  unfold recorded. destruct (decide (batch y = batch x)) as [Hb|Hb].
  - rewrite Hb, lookup_insert_eq. split.
    + intros (l & [= <-] & Hin). apply elem_of_app in Hin as [Hin| ->%list_elem_of_singleton]; [left|by right].
      destruct (res !! batch x) as [l|] eqn:Hl; cbn in Hin; [|by apply not_elem_of_nil in Hin].
      eauto.
    + intros [(l & Hl & Hin)| ->]; eexists; (split; [done|]); apply elem_of_app.
      * left. by rewrite Hl.
      * right. by apply list_elem_of_singleton.
  - rewrite lookup_insert_ne by done. split; [by left|]. intros [?| ->]; done.
Qed.

(** A holder records a result whose blob it did not know, and starts downloading it. *)
Lemma ledger_record res d x ticket :
  ledger_ok res d → d !! blob x = None →
  ledger_ok (<[batch x := default [] (res !! batch x) ++ [x]]> res)
            (<[blob x := Downloading x.1 (batch x) ticket]> d).
Proof.
  intros [Hi Hu Hk Hp] Hnew.
  assert (Hfresh : ∀ y, recorded res y → blob y ≠ blob x).
  { intros y Hy Heq. destruct (Hk y Hy) as [ps Hps]. congruence. }
  constructor.
  - intros b l y. destruct (decide (b = batch x)) as [->|Hne].
    + rewrite lookup_insert_eq. intros [= <-] [Hin|Hin%list_elem_of_singleton]%elem_of_app; [|by subst].
      destruct (res !! batch x) as [l|] eqn:Hl; cbn in Hin; [by eapply Hi|by apply not_elem_of_nil in Hin].
    + rewrite lookup_insert_ne by done. apply Hi.
  - intros y z. rewrite !recorded_insert. intros [Hy| ->] [Hz| ->] Heq; [by apply Hu| | |done].
    + by apply Hfresh in Hy.
    + symmetry in Heq. by apply Hfresh in Hz.
  - intros y. rewrite recorded_insert. intros [Hy| ->]; [|by rewrite lookup_insert_eq].
    rewrite lookup_insert_ne by (symmetry; by apply Hfresh). by apply Hk.
  - intros hash ps. rewrite lookup_insert_Some. intros [[<- <-]|[Hne Hps]].
    + exists x. rewrite recorded_insert. split_and!; [by right|done|done..].
    + destruct (Hp _ _ Hps) as (y & Hy & Hb & Ho). exists y. rewrite recorded_insert. auto.
Qed.

Lemma task_of_mono res x t : task_of res t →
  task_of (<[batch x := default [] (res !! batch x) ++ [x]]> res) t.
Proof. intros (y & Hy & ?). exists y. rewrite recorded_insert. auto. Qed.

Lemma downloads_put l l' d h :
  downloads_at l (put_downloads l' d h) = if decide (l = l') then d else downloads_at l h.
Proof.
  unfold downloads_at, put_downloads. cbn. case_decide as Hl.
  - subst. by rewrite lookup_insert_eq.
  - by rewrite lookup_insert_ne.
Qed.

(** What a change of one holder's cell and results must respect. *)
Lemma books_update hs1 hs2 l res res' d' h ts :
  books_ok (hs1 ++ (l, res) :: hs2) h ts → ledger_ok res' d' →
  (∀ t, t ∈ ts → task_of res t → task_of res' t) →
  books_ok (hs1 ++ (l, res') :: hs2) (put_downloads l d' h) ts.
Proof.
  intros [Hd Ha Hl Ht Hts] Hled Htask.
  rewrite fmap_app in Hd. cbn in Hd.
  assert (Hother : ∀ k r, (k, r) ∈ hs1 ++ hs2 → k ≠ l).
  { intros k r Hin ->. apply NoDup_app in Hd as (_ & Hd1 & [Hd2 _]%NoDup_cons).
    apply elem_of_app in Hin as [Hin|Hin].
    - apply (Hd1 l); [by apply (list_elem_of_fmap_2 fst) in Hin|left].
    - apply Hd2. by apply (list_elem_of_fmap_2 fst) in Hin. }
  assert (Hsplit : ∀ k r, (k, r) ∈ hs1 ++ (l, res') :: hs2 →
    (k = l ∧ r = res') ∨ (k ≠ l ∧ (k, r) ∈ hs1 ++ (l, res) :: hs2)).
  { intros k r Hin. assert (Hc : (k, r) = (l, res') ∨ (k, r) ∈ hs1 ++ hs2) by set_solver.
    destruct Hc as [[= -> ->]|Hc]; [by left|right]. split; [by eapply Hother|set_solver]. }
  constructor.
  - by rewrite fmap_app.
  - intros k r [[-> ->]|[_ Hin]]%Hsplit; [|by apply (Ha k r)]. apply (Ha l res). set_solver.
  - intros k r [[-> ->]|[Hne Hin]]%Hsplit; rewrite downloads_put.
    + by rewrite decide_True.
    + rewrite decide_False by done. by apply Hl.
  - intros k r t [[-> ->]|[_ Hin]]%Hsplit Ht' Hcell; [|by eapply Ht].
    apply Htask; [done|]. apply (Ht l res); [set_solver|done..].
  - done.
Qed.

(** A payload that matches its commitment is stored. *)
Lemma ledger_store res d t :
  ledger_ok res d → payload_typed (vt_payload t) → task_of res t →
  comptue_hash (vt_payload t) = data_hash (vt_commitment t) →
  ledger_ok res (<[vt_hash t := Deserializing (vt_payload t) None]> d).
Proof.
  intros [Hi Hu Hk Hp] Hty (x & Hx & Hb & Hc) Hm. constructor; [done|done|..].
  - intros y Hy. rewrite lookup_insert_is_Some. destruct (decide (vt_hash t = blob y)); [by left|right].
    split; [done|by apply Hk].
  - intros hash ps. rewrite lookup_insert_Some. intros [[<- <-]|[Hne Hps]]; [|by apply Hp].
    exists x. split_and!; [done|done|]. cbn. unfold committed. rewrite Hc. auto.
Qed.

Lemma ledger_finish res d hash p :
  ledger_ok res d → d !! hash = Some (Deserializing p None) →
  ledger_ok res (<[hash := Deserializing p (Some (deserialize p))]> d).
Proof.
  intros [Hi Hu Hk Hp] Hd. constructor; [done|done|..].
  - intros y Hy. rewrite lookup_insert_is_Some. destruct (decide (hash = blob y)); [by left|right].
    split; [done|by apply Hk].
  - intros hash' ps. rewrite lookup_insert_Some. intros [[<- <-]|[Hne Hps]]; [|by apply Hp].
    destruct (Hp _ _ Hd) as (x & Hx & Hb & Hty & Hc & _). exists x. cbn. split_and!; auto.
Qed.

(** A cell nobody holds may change freely. *)
Lemma books_orphan hs l d h ts :
  (∀ res, (l, res) ∉ hs) → books_ok hs h ts → books_ok hs (put_downloads l d h) ts.
Proof.
  intros Hno [Hd Ha Hl Ht Hts]. constructor; try done.
  intros k r Hin. rewrite downloads_put, decide_False; [by apply Hl|]. intros ->. by apply (Hno r).
Qed.

(** A change of one cell that keeps the ledger of whoever holds it. *)
Lemma books_cell hs l d' h ts :
  (∀ res, (l, res) ∈ hs → ledger_ok res (downloads_at l h) → ledger_ok res d') →
  books_ok hs h ts → books_ok hs (put_downloads l d' h) ts.
Proof.
  intros Hled Hb. destruct (decide (l ∈ hs.*1)) as [Hin|Hno].
  - apply list_elem_of_fmap in Hin as [[l' res] [Heq Hin]]. cbn in Heq. subst l'.
    apply list_elem_of_split in Hin as (hs1 & hs2 & ->).
    eapply books_update; [exact Hb| |auto]. apply Hled; [set_solver|].
    eapply bo_ledger; [exact Hb|set_solver].
  - apply books_orphan; [|done]. intros res Hin. apply Hno.
    by apply (list_elem_of_fmap_2 fst) in Hin.
Qed.

Lemma books_tasks hs h ts ts' :
  books_ok hs h ts →
  (∀ t, t ∈ ts' → ((vt_downloads t < h_next h)%nat ∧ payload_typed (vt_payload t) ∧ task_checked t) ∧
     ∀ res, (vt_downloads t, res) ∈ hs → task_of res t) →
  books_ok hs h ts'.
Proof.
  intros [Hd Ha Hl Ht Hts] Hnew. constructor; try done.
  - intros l res t Hin Ht' <-. by apply Hnew.
  - intros t Ht'. by apply Hnew.
Qed.
End Books.

(** ** The invariant of a client *)

Section Invariant.
Context {H : HashFns} {B : Blobs} {T : Tensors} {K : TensorKinds}.

Notation entry := (NodeIdentity * (Commitment * TrainingResult))%type.
Notation results := (gmap BatchId (list entry)).

Definition round_holder (r : RoundState) : nat * results := (rs_downloads r, rs_results r).
Definition task_holder (t : ApplyTask) : nat * results := (at_payloads t, at_commitments t).
Definition holders (m : StepStateMachine) : list (nat * results) :=
  round_holder (sm_current m) :: round_holder (sm_previous m) :: (task_holder <$> sm_applying m).

(** Every recorded result comes from the client its batch is assigned to. *)
Definition from_assignees (r : RoundState) : Prop :=
  ∀ x, recorded (rs_results r) x →
    ∃ a, assigned_to (batch x) (rs_data_assignments r) = Some a ∧ id_eqb x.1 a = true.

Record client_inv (m : StepStateMachine) : Prop := {
  ci_books : books_ok (holders m) (sm_heap m) (sm_verifying m);
  ci_current : from_assignees (sm_current m);
  ci_previous : from_assignees (sm_previous m);
}.

(** States that agree on everything the invariant reads. *)
Definition round_same (r r' : RoundState) : Prop :=
  round_holder r' = round_holder r ∧ rs_data_assignments r' = rs_data_assignments r.
Definition books_same (m m' : StepStateMachine) : Prop :=
  round_same (sm_current m) (sm_current m') ∧ round_same (sm_previous m) (sm_previous m') ∧
  sm_heap m' = sm_heap m ∧ sm_verifying m' = sm_verifying m ∧ sm_applying m' = sm_applying m.

#[global] Instance round_same_preorder : PreOrder round_same.
Proof. split; [by intros r|]. intros r s t [] []. split; congruence. Qed.
#[global] Instance books_same_preorder : PreOrder books_same.
Proof.
  split; [by intros m; split_and!|]. intros a b c (? & ? & ? & ? & ?) (? & ? & ? & ? & ?).
  split_and!; try congruence; by etrans.
Qed.

Lemma from_assignees_same r r' : round_same r r' → from_assignees r → from_assignees r'.
Proof.
  unfold round_same, round_holder, from_assignees. intros [[= _ ->] ->]. done.
Qed.

Lemma inv_same m m' : books_same m m' → client_inv m → client_inv m'.
Proof.
  intros (Hc & Hp & Hh & Hv & Ha) [Hb Hcur Hprev].
  constructor; [|by eapply from_assignees_same..].
  unfold holders. destruct Hc as [-> _], Hp as [-> _]. by rewrite Hh, Hv, Ha.
Qed.

Lemma kept_same {E A} (op : M E StepStateMachine A) :
  respects books_same op → respects (kept client_inv) op.
Proof. intros Hop m a m' Hrun Hinv. eapply inv_same; [by eapply Hop|done]. Qed.

(** *** The timer *)

Lemma get_witness_same {E} : respects books_same (@get_witness_to_send H B T E).
Proof. unfold get_witness_to_send. frame_step. apply respects_modify. by intros m. Qed.

Lemma send_finished_same s l p w : respects books_same (send_finished s l p w).
Proof. unfold send_finished. frame_step. apply respects_modify. by intros m. Qed.

Lemma send_opportunistic_same o : respects books_same (send_opportunistic o).
Proof. unfold send_opportunistic. frame_step. apply respects_modify. by intros m. Qed.

#[local] Hint Resolve get_witness_same send_finished_same send_opportunistic_same : frames.

Lemma try_send_same : respects books_same try_send_opportunistic_witness.
Proof.
  unfold try_send_opportunistic_witness, try_send_in_round, try_send_in_warmup.
  frame_step; apply respects_modify; by intros m.
Qed.

(** *** Messages *)

(** A training result is turned away without a change, or recorded. *)
Lemma apply_training_result_Ok current from b t m o m' :
  apply_training_result current from b t m = (Ok o, m') →
  ((o = Some Invalid ∨ o = Some Ignored) ∧ m' = m) ∨
  (o = None ∧
   (∃ a, assigned_to (tr_batch_id t) (rs_data_assignments (round_of current m)) = Some a ∧
         id_eqb from a = true) ∧
   downloads_at (rs_downloads (round_of current m)) (sm_heap m) !! ticket_hash (tr_ticket t) = None ∧
   let r := round_of current m in
   let x := (from, (bc_commitment b, t)) in
   let m1 := on_heap (λ h, put_downloads (rs_downloads r)
     (<[blob x := Downloading from (batch x) (tr_ticket t)]> (downloads_at (rs_downloads r) h)) h)
     (on_round current (λ r, set_results
       (<[batch x := default [] (rs_results r !! batch x) ++ [x]]> (rs_results r)) r) m) in
   m' = if id_eqb from (identity m) then m1
        else emit (RequestDownload (tr_ticket t) from (bc_step b)) m1).
Proof.
  intros Hrun. unfold apply_training_result in Hrun. autorewrite with run in Hrun. cbn zeta in Hrun.
  destruct (assigned_to _ _) as [a|] eqn:Ha; [|apply mret_Ok in Hrun as [-> ->]; by auto].
  unfold distro_result_blob_downloaded in Hrun. case_bool_decide as Hd.
  { apply mret_Ok in Hrun as [-> ->]. by auto. }
  destruct (id_eqb from a) eqn:Hid; cbn [negb] in Hrun;
    [|apply mret_Ok in Hrun as [-> ->]; by auto].
  right. autorewrite with run in Hrun.
  apply M_bind_Ok in Hrun as (? & m1 & [_ ->]%throw_if_Ok & Hrun).
  apply M_bind_Ok in Hrun as (? & m2 & Hw & [-> ->]%mret_Ok).
  split_and!; [done|eauto|by apply eq_None_not_Some|].
  destruct (id_eqb from (identity m)); cbn [negb whenM] in Hw.
  - by apply mret_Ok in Hw as [_ ->].
  - apply M_bind_Ok in Hw as (? & m3 & [_ ->]%throw_if_Ok & Hw). by apply modify_Ok in Hw.
Qed.

Lemma holders_current_split m : holders m = [] ++ round_holder (sm_current m) ::
  (round_holder (sm_previous m) :: (task_holder <$> sm_applying m)).
Proof. done. Qed.
Lemma holders_previous_split m : holders m = [round_holder (sm_current m)] ++
  round_holder (sm_previous m) :: (task_holder <$> sm_applying m).
Proof. done. Qed.

Lemma from_assignees_record r x a :
  from_assignees r → assigned_to (batch x) (rs_data_assignments r) = Some a → id_eqb x.1 a = true →
  from_assignees (set_results (<[batch x := default [] (rs_results r !! batch x) ++ [x]]> (rs_results r)) r).
Proof.
  intros Hr Ha Hid y. cbn. rewrite recorded_insert. intros [Hy| ->]; [by apply Hr|eauto].
Qed.

Lemma inv_record current m x ticket a :
  client_inv m →
  assigned_to (batch x) (rs_data_assignments (round_of current m)) = Some a → id_eqb x.1 a = true →
  downloads_at (rs_downloads (round_of current m)) (sm_heap m) !! blob x = None →
  client_inv (on_heap (λ h, put_downloads (rs_downloads (round_of current m))
     (<[blob x := Downloading x.1 (batch x) ticket]>
        (downloads_at (rs_downloads (round_of current m)) h)) h)
     (on_round current (λ r, set_results
       (<[batch x := default [] (rs_results r !! batch x) ++ [x]]> (rs_results r)) r) m)).
Proof.
  intros [Hb Hc Hp] Ha Hid Hnew. constructor.
  - destruct current; cbn [round_of] in *.
    + rewrite holders_current_split in Hb. refine (books_update _ _ _ _ _ _ _ _ Hb _ _).
      * apply ledger_record; [|done]. apply (bo_ledger _ _ _ Hb). left.
      * intros t _. apply task_of_mono.
    + rewrite holders_previous_split in Hb. refine (books_update _ _ _ _ _ _ _ _ Hb _ _).
      * apply ledger_record; [|done]. apply (bo_ledger _ _ _ Hb). set_solver.
      * intros t _. apply task_of_mono.
  - destruct current; [by eapply from_assignees_record|done].
  - destruct current; [done|by eapply from_assignees_record].
Qed.

Lemma apply_training_result_inv current from b t :
  respects (kept client_inv) (apply_training_result current from b t).
Proof.
  intros m o m' Hrun Hinv.
  apply apply_training_result_Ok in Hrun as [[_ ->]|(_ & (a & Ha & Hid) & Hnew & ->)]; [done|].
  cbn zeta. set (x := (from, (bc_commitment b, t))).
  pose proof (inv_record current m x (tr_ticket t) a Hinv Ha Hid Hnew) as Hinv'.
  destruct (id_eqb from (identity m)); [exact Hinv'|].
  eapply inv_same; [|exact Hinv']. by destruct current.
Qed.

Lemma apply_finished_same current from f : respects books_same (apply_finished current from f).
Proof. unfold apply_finished. frame_step; apply respects_modify; intros m; by destruct current. Qed.

Lemma apply_finished_inv current from f :
  respects (kept client_inv) (apply_finished current from f).
Proof. apply kept_same, apply_finished_same. Qed.

#[local] Hint Resolve apply_training_result_inv apply_finished_inv : frames.

Lemma apply_message_inv from b : respects (kept client_inv) (apply_message from b).
Proof.
  unfold apply_message. frame_step; apply kept_same, respects_modify; intros m; by destruct (_ =? _).
Qed.
(** *** Downloads and tasks *)

Lemma holder_unique hs h ts l res res' :
  books_ok hs h ts → (l, res) ∈ hs → (l, res') ∈ hs → res = res'.
Proof.
  intros [Hd _ _ _ _] Hin Hin'.
  apply list_elem_of_lookup in Hin as [i Hi], Hin' as [j Hj].
  assert (i = j) as ->; [|congruence].
  eapply (NoDup_lookup hs.*1 i j l); [done|by rewrite list_lookup_fmap, Hi|by rewrite list_lookup_fmap, Hj].
Qed.

Lemma round_in_holders current m : round_holder (round_of current m) ∈ holders m.
Proof. unfold holders. destruct current; set_solver. Qed.

Lemma commitment_for_Some from hash l c :
  commitment_for from hash l = Some c →
  ∃ x, x ∈ l ∧ x.2.1 = c ∧ blob x = hash ∧ id_eqb x.1 from = true.
Proof.
  unfold commitment_for. intros (y & Hf & ->)%fmap_Some. destruct y as [i x].
  apply list_find_Some in Hf as (Hi & Hp & _). apply andb_true_iff in Hp as [Hid Hh].
  exists x. split_and!; [by eapply list_elem_of_lookup_2|done|by apply bool_decide_eq_true_1 in Hh|done].
Qed.

Lemma apply_distro_result_inv hash p s m :
  payload_typed p → client_inv m → client_inv (apply_distro_result hash p s m).
Proof.
  intros Hp Hinv. unfold apply_distro_result. cbn zeta.
  assert (Hspawn : ∀ current m, client_inv m →
    client_inv match downloads_at (rs_downloads (round_of current m)) (sm_heap m) !! hash with
    | Some (Downloading from b _) =>
        match rs_results (round_of current m) !! b with
        | None => m
        | Some l =>
            match commitment_for from hash l with
            | None => m
            | Some c =>
                set_verifying (sm_verifying m ++
                  [mkVerifyTask VCheck hash p from b c (rs_not_yet_trained_on (round_of current m))
                     (rs_blooms (round_of current m)) (rs_downloads (round_of current m))]) m
            end
        end
    | _ => m
    end).
  { clear m Hinv. intros current m Hinv. pose proof (ci_books _ Hinv) as Hb.
    pose proof (bo_ledger _ _ _ Hb _ _ (round_in_holders current m)) as Hled.
    destruct (downloads_at _ _ !! hash) as [[from b tk|]|] eqn:Hd; try done.
    destruct (rs_results _ !! b) as [l|] eqn:Hl; [|done].
    destruct (commitment_for from hash l) as [c|] eqn:Hc; [|done].
    destruct (commitment_for_Some _ _ _ _ Hc) as (x & Hx & Hxc & Hxb & _).
    assert (Hbx : batch x = b) by (by eapply (lo_index _ _ Hled)).
    constructor; [|apply Hinv|apply Hinv]. cbn [sm_heap sm_verifying set_verifying].
    eapply books_tasks; [exact Hb|]. intros t [Ht| ->%list_elem_of_singleton]%elem_of_app.
    - split; [by apply (bo_task _ _ _ Hb)|]. intros res Hr. by eapply (bo_tasks _ _ _ Hb).
    - cbn. split; [split_and!; [eapply (bo_allocated _ _ _ Hb), (round_in_holders current)|done|by intros []]|].
      intros res Hr. rewrite (holder_unique _ _ _ _ _ _ Hb Hr (round_in_holders current m)).
      exists x. split_and!; [|done|done]. exists l. by rewrite Hbx. }
  assert (Hself : ∀ current, client_inv match s with
    | Some x => on_round current (λ r, set_self_results (rs_self_distro_results r ++ [x]) r) m
    | None => m end).
  { intros current. destruct s; [|done]. eapply inv_same; [|exact Hinv]. by destruct current. }
  destruct (distro_result_blob_downloaded _ _ _); [apply (Hspawn true), (Hself true)|].
  destruct (distro_result_blob_downloaded _ _ _); [apply (Hspawn false), (Hself false)|done].
Qed.

Lemma vote_for_batch_heap {E} t h h' b :
  @vote_for_batch H B T E t h = Ok (h', b) → h_downloads h' = h_downloads h ∧ h_next h' = h_next h.
Proof.
  unfold vote_for_batch. destruct (batches_at _ _) as [rem|]; [|intros; by simplify_eq].
  intros Hv. apply res_bind_Ok in Hv as (h1 & Hh1 & Hv). simplify_eq. cbn.
  destruct (blooms_at _ _) as [[p1 p2]|]; [|by simplify_eq].
  apply res_bind_Ok in Hh1 as (q1 & _ & Hh1). apply res_bind_Ok in Hh1 as (q2 & _ & Hh1).
  by simplify_eq.
Qed.

(** Replacing a task by one with the same payload that has passed the check. *)
Lemma books_advance hs h ts i t t' :
  books_ok hs h ts → ts !! i = Some t →
  vt_downloads t' = vt_downloads t → vt_payload t' = vt_payload t →
  vt_hash t' = vt_hash t → vt_commitment t' = vt_commitment t →
  comptue_hash (vt_payload t) = data_hash (vt_commitment t) →
  books_ok hs h (<[i := t']> ts).
Proof.
  intros Hb Hi Hd Hp Hh Hc Hm. pose proof (list_elem_of_lookup_2 _ _ _ Hi) as Hin.
  eapply books_tasks; [exact Hb|]. intros u Hu.
  apply list_elem_of_lookup in Hu as [j Hj]. apply list_lookup_insert_Some in Hj as [(-> & <- & _)|[_ Hj]].
  - destruct (bo_task _ _ _ Hb t Hin) as (? & ? & _). unfold task_checked. rewrite Hd, Hp, Hc.
    split; [done|]. intros res Hr.
    destruct (bo_tasks _ _ _ Hb _ _ t Hr Hin eq_refl) as (x & Hx & Hxb & Hxc).
    exists x. rewrite Hh, Hc. done.
  - pose proof (list_elem_of_lookup_2 _ _ _ Hj) as Hju.
    split; [by apply (bo_task _ _ _ Hb)|]. intros res Hr. by apply (bo_tasks _ _ _ Hb _ _ u Hr).
Qed.

Lemma books_remove hs h ts i : books_ok hs h ts → books_ok hs h (delete i ts).
Proof.
  intros Hb. assert (Hin : ∀ t, t ∈ delete i ts → t ∈ ts) by (intros t; apply sublist_subseteq, sublist_delete).
  eapply books_tasks; [exact Hb|]. intros t Ht%Hin. split; [by apply (bo_task _ _ _ Hb)|].
  intros res Hr. by apply (bo_tasks _ _ _ Hb _ _ t Hr).
Qed.

Lemma run_verify_inv i m m' : client_inv m → run_verify i m = Ok m' → client_inv m'.
Proof.
  intros Hinv Hrun. unfold run_verify in Hrun.
  destruct (sm_verifying m !! i) as [t|] eqn:Hi; [|by simplify_eq].
  apply res_bind_Ok in Hrun as ([h t'] & Hstep & Hrun). simplify_eq.
  pose proof (ci_books _ Hinv) as Hb. pose proof (list_elem_of_lookup_2 _ _ _ Hi) as Hin.
  destruct (bo_task _ _ _ Hb t Hin) as (_ & Hty & Hck).
  constructor; [|apply Hinv|apply Hinv]. cbn [sm_heap sm_verifying set_heap set_verifying].
  change (holders _) with (holders m). unfold verify_step in Hstep.
  destruct (vt_pc t) as [|jf|] eqn:Hpc.
  - case_bool_decide as Hm; [|simplify_eq; by apply books_remove].
    apply res_bind_Ok in Hstep as ([h1 jf] & Hv & Hstep). simplify_eq.
    apply vote_for_batch_heap in Hv as [Hvd Hvn].
    eapply books_advance; [by eapply books_heap|done..].
  - simplify_eq. assert (Hm : comptue_hash (vt_payload t) = data_hash (vt_commitment t))
      by (apply Hck; by rewrite Hpc).
    eapply books_advance; [|done..]. eapply books_heap; [| |exact Hb]; by destruct jf.
  - simplify_eq. apply books_remove, books_cell; [|done]. intros res Hr Hled.
    apply ledger_store; [done|done|by apply (bo_tasks _ _ _ Hb _ _ t Hr)|].
    apply Hck. by rewrite Hpc.
Qed.

Lemma finish_deserializing_inv l hash m :
  client_inv m → client_inv (on_heap (finish_deserializing l hash) m).
Proof.
  intros Hinv. constructor; [|apply Hinv|apply Hinv]. cbn [sm_heap sm_verifying on_heap set_heap].
  change (holders _) with (holders m). pose proof (ci_books _ Hinv) as Hb.
  unfold finish_deserializing.
  destruct (downloads_at l (sm_heap m) !! hash) as [[|p [r|]]|] eqn:Hd; try done.
  apply books_cell; [|done]. intros res _ Hled. by apply ledger_finish.
Qed.

(** *** New states *)

Lemma from_assignees_empty h : from_assignees (RoundState_new h).1.
Proof. intros x Hx. by apply recorded_empty in Hx. Qed.

Lemma warmup_start_inv m : client_inv m → client_inv (warmup_start m).
Proof.
  intros [Hb _ _]. unfold warmup_start.
  destruct (RoundState_new (sm_heap m)) as [p h1] eqn:H1.
  destruct (RoundState_new h1) as [c h2] eqn:H2.
  unfold RoundState_new, alloc in H1, H2. simplify_eq/=.
  constructor; [|by intros x Hx%recorded_empty..].
  assert (Hb' : books_ok (task_holder <$> sm_applying m) (sm_heap m) (sm_verifying m)).
  { eapply books_drop; [|exact Hb]. by do 2 apply sublist_cons. }
  exact (books_fresh _ _ _ None None (books_fresh _ _ _ None None Hb')).
Qed.

Lemma rotate_rounds_inv m : client_inv m → client_inv (rotate_rounds m).
Proof.
  intros [Hb Hc _]. unfold rotate_rounds.
  destruct (RoundState_new (sm_heap m)) as [r h1] eqn:H1. unfold RoundState_new, alloc in H1. simplify_eq/=.
  constructor; [|by intros x Hx%recorded_empty|exact Hc].
  assert (Hb' : books_ok (round_holder (sm_current m) :: (task_holder <$> sm_applying m))
                  (sm_heap m) (sm_verifying m)).
  { eapply books_drop; [|exact Hb]. by apply sublist_skip, sublist_cons. }
  exact (books_fresh _ _ _ None None Hb').
Qed.

(** A round that starts, in fresh cells. *)
Lemma new_round_inv m r bl ids :
  rs_downloads r = (alloc bl ids (sm_heap m)).1 → rs_results r = ∅ →
  client_inv m → client_inv (set_heap (alloc bl ids (sm_heap m)).2 (set_current r m)).
Proof.
  intros Hl Hres [Hb _ Hp]. constructor; [|intros x; cbn; rewrite Hres; by intros ?%recorded_empty|exact Hp].
  cbn [sm_heap sm_verifying set_heap]. unfold holders. cbn [sm_current sm_previous sm_applying set_heap set_current].
  unfold round_holder at 1. rewrite Hl, Hres. apply books_fresh.
  eapply books_drop; [|exact Hb]. by apply sublist_cons.
Qed.

(** The results of the previous round move from the round to the task that applies them. *)
Lemma apply_results_inv state m o m' :
  apply_results state m = (Ok o, m') → client_inv m →
  client_inv (set_applying (sm_applying m' ++ option_list o) m').
Proof.
  intros Hrun Hinv. unfold apply_results in Hrun. autorewrite with run in Hrun.
  destruct (_ =? 0).
  { apply mret_Ok in Hrun as [-> ->]. cbn. rewrite app_nil_r.
    eapply inv_same; [|exact Hinv]. by destruct m. }
  repeat (apply M_bind_Ok in Hrun as (? & ? & Hl & Hrun); apply lift_Ok in Hl as [_ ->]).
  apply mret_Ok in Hrun as [-> ->]. destruct Hinv as [Hb Hc Hp].
  constructor; [|exact Hc|by intros y Hy%recorded_empty].
  pose proof (books_fresh _ _ _ None None Hb) as Hb'. refine (books_perm _ _ _ _ _ Hb').
  unfold holders, task_holder, round_holder.
  cbn [sm_applying sm_current sm_previous option_list set_applying set_heap on_round set_previous
       rs_downloads rs_results set_results set_downloads_cell].
  rewrite fmap_app. cbn. rewrite <- Permutation_cons_append. etrans; [apply Permutation_swap|].
  constructor. constructor. constructor. done.
Qed.

Lemma health_checks_same state : respects books_same (start_sending_health_checks state).
Proof.
  unfold start_sending_health_checks. frame_step. apply respects_modify. by intros m.
Qed.

Lemma training_start_inv index state trainers bl :
  respects (kept client_inv) (training_start index state trainers bl).
Proof.
  intros m a m' Hrun Hinv. unfold training_start in Hrun.
  apply M_bind_Ok in Hrun as (? & m1 & [_ ->]%throw_if_Ok & Hrun).
  apply M_bind_Ok in Hrun as (o & m1 & (m2 & Ha & ->)%zoom_Ok & Hrun).
  rewrite bind_modify in Hrun. pose proof (apply_results_inv _ _ _ _ Ha Hinv) as Hinv1.
  apply M_bind_Ok in Hrun as (? & m3 & Hh & Hrun).
  apply (inv_same _ _ (health_checks_same _ _ _ _ Hh)) in Hinv1.
  apply M_bind_Ok in Hrun as (round & ? & [_ ->]%lift_Ok & Hrun). rewrite bind_modify in Hrun.
  apply rotate_rounds_inv in Hinv1.
  do 5 (apply M_bind_Ok in Hrun as (? & ? & Hl & Hrun); apply lift_Ok in Hl as [_ ->]).
  rewrite bind_self in Hrun. cbn zeta in Hrun.
  destruct (alloc _ _ _) as [l h] eqn:Halloc. rewrite bind_modify in Hrun.
  apply M_bind_Ok in Hrun as (? & ? & [_ ->]%lift_Ok & [_ ->]%mret_Ok).
  replace h with ((l, h).2) by done. rewrite <- Halloc. apply new_round_inv; [|done|done].
  by rewrite Halloc.
Qed.

Lemma modify_inv {E} f : (∀ m, client_inv m → client_inv (f m)) → respects (E:=E) (kept client_inv) (modify f).
Proof. intros Hf. apply respects_modify. exact Hf. Qed.

Lemma witness_start_same aw : respects books_same (witness_start aw).
Proof.
  pose proof @get_witness_same. unfold witness_start. frame_step. apply respects_modify. by intros m.
Qed.

Lemma in_step_inv {E A} (f : E → StepError) (op : M E StepStateMachine A) :
  respects (kept client_inv) op → respects (kept client_inv) (in_step f op).
Proof. intros Hop. unfold in_step. eapply respects_zoom; [exact Hop|]. done. Qed.

Lemma witness_start_inv aw : respects (kept client_inv) (witness_start aw).
Proof. apply kept_same, witness_start_same. Qed.
Lemma cooldown_start_inv aw state : respects (kept client_inv) (cooldown_start aw state).
Proof. unfold cooldown_start. frame_step. Qed.

#[local] Hint Resolve in_step_inv training_start_inv witness_start_inv cooldown_start_inv : frames.

Lemma apply_state_inv state bl fin : respects (kept client_inv) (apply_state state bl fin).
Proof.
  unfold apply_state, leave_step, next_step. frame_step; apply modify_inv; intros m Hm;
    first [by apply warmup_start_inv | by apply (inv_same m)].
Qed.

(** *** Runs *)

Lemma machine_new_inv i c ch : client_inv (machine_new i c ch).
Proof.
  unfold machine_new. cbn zeta. apply warmup_start_inv. constructor; [|by intros x Hx%recorded_empty..].
  assert (H0 : books_ok [] (mkHeap 0 ∅ ∅ ∅) []) by (constructor; [constructor|set_solver..]).
  exact (books_fresh _ _ _ None None (books_fresh _ _ _ None None H0)).
Qed.

Lemma client_step_inv e m m' :
  step_typed e → client_step e m = (true, m') → client_inv m → client_inv m'.
Proof.
  intros Hty Hstep Hinv.
  assert (Hop : ∀ E A (op : M E StepStateMachine A), respects (kept client_inv) op →
    (let '(r, m') := op m in (is_ok r, m')) = (true, m') → client_inv m').
  { intros E A op Hkept Hop. destruct (op m) as [[a|e'|] m1] eqn:Hrun; simplify_eq.
    by eapply Hkept. }
  destruct e as [from b|hash p s| |state bl fin|i|cell hash|]; cbn in Hstep.
  - by eapply Hop, Hstep; apply apply_message_inv.
  - simplify_eq. by apply apply_distro_result_inv.
  - by eapply Hop, Hstep; apply kept_same, try_send_same.
  - by eapply Hop, Hstep; apply apply_state_inv.
  - destruct (run_verify i m) eqn:Hv; simplify_eq. by eapply run_verify_inv.
  - simplify_eq. by apply finish_deserializing_inv.
  - simplify_eq. destruct (active_step m); try done. by apply (inv_same m).
Qed.

Lemma client_run_inv m0 m : client_inv m0 → client_run m0 m → client_inv m.
Proof. intros H0. induction 1 as [|m e m' _ IH Hty Hstep]; [done|]. by eapply client_step_inv. Qed.
End Invariant.
