(* ===== verification/ClientThms.v ===== *)
(** * What clients agree on

    Clients that end a round with the results the witnesses vouch for hand the same tensors
    to their optimisers, whatever the order in which messages, downloads and tasks ran. *)

From stdpp Require Import base tactics list numbers decidable gmap sets.
From S2P Require Import Prelude CoreTypes Hashing Bloom Merkle CoordinatorState Committee Coordinator CoordinatorInv CoordinatorProps CoordinatorThms Frames DataSelection Consensus Payload Scheduler Client ClientInv.

Open Scope Z_scope.

Section Agreement.
Context {H : HashFns} {B : Blobs} {T : Tensors} {K : TensorKinds}.

(** The commitments a task knows for a batch. *)
Definition known (t : ApplyTask) (b : BatchId) : list Commitment :=
  (λ x, x.2.1) <$> default [] (at_commitments t !! b).

(** A result a quorum of the round's witnesses reports. *)
Definition backed (t : ApplyTask) (h : list Z) : Prop := at_quorum t <= support (at_witnesses t) h.

(** What the choice of a result needs of a task: its quorum is more than half of the witnesses,
    and no witness reports two results of a batch. *)
Record settled (t : ApplyTask) : Prop := {
  se_filters : Forall (λ w, bloom_wf (broadcast_bloom w)) (at_witnesses t);
  se_count : zlen (at_witnesses t) <= u16_max;
  se_quorum : 1 <= at_quorum t;
  se_majority : zlen (at_witnesses t) < 2 * at_quorum t;
  se_single : ∀ b, b ∈ at_batch_ids t → single_votes (at_witnesses t) (known t b);
}.

(** What applying a payload contributes. *)
Definition contribution (t : ApplyTask) (p : TransmittableDistroResult) : option (list DistroResult_) :=
  match deserialize p with
  | Ok (results, nonce) =>
      if (nonce <? at_cold_start_warmup_steps t) && at_checkpoint_is_p2p t then None else Some results
  | _ => None
  end.

Lemma batch_outcome t b d payloads payloads' r :
  settled t → b ∈ at_batch_ids t → ledger_ok (at_commitments t) d → payloads ⊆ d →
  batch_results t b payloads = Ok (payloads', r) →
  payloads' ⊆ d ∧
  ∃ o, (∀ h, o = Some h ↔ h ∈ data_hash <$> known t b ∧ backed t h) ∧
    match o with
    | None => r = None
    | Some h => ∃ p, payload_typed p ∧ comptue_hash p = h ∧ r = contribution t p
    end.
Proof.
  intros [Hwf Hlen Hq Hmaj Hs] Hb Hled Hsub Hrun. specialize (Hs b Hb).
  destruct (chosen_spec (E:=ApplyError) _ (known t b) _ Hwf Hlen Hq Hs Hmaj) as (o & Ho & Hspec).
  unfold batch_results in Hrun. unfold known in Ho.
  destruct (at_commitments t !! b) as [l|] eqn:Hl; cbn in Ho.
  2: { simplify_eq. split; [done|]. exists None. split; [|done].
       intros h. unfold known. rewrite Hl. cbn. split; [done|]. by intros [?%not_elem_of_nil _]. }
  assert (Hk : known t b = (λ x, x.2.1) <$> l) by (unfold known; by rewrite Hl).
  rewrite Ho in Hrun. cbn [mbind res_bind] in Hrun.
  destruct o as [i|]; [|simplify_eq; split; [done|]; by exists None].
  apply res_bind_Ok in Hrun as (x & Hx%unwrap_Ok & Hrun). destruct x as [from [c tr]].
  assert (Hch : chosen (known t b) (Some i) = Some (data_hash c)).
  { cbn. by rewrite Hk, list_lookup_fmap, Hx. }
  assert (Hrec : recorded (at_commitments t) (from, (c, tr))).
  { pose proof (list_elem_of_lookup_2 _ _ _ Hx) as Hin. exists l. split; [|done].
    by rewrite (lo_index _ _ Hled _ _ _ Hl Hin). }
  destruct (payloads !! ticket_hash (tr_ticket tr)) as [ps|] eqn:Hps; [|done].
  pose proof (lookup_weaken _ _ _ _ Hps Hsub) as Hd.
  destruct (lo_payload _ _ Hled _ _ Hd) as (y & Hy & Hyb & Hof).
  rewrite (lo_unique _ _ Hled _ _ Hy Hrec Hyb) in Hof.
  destruct ps as [|p [rp|]]; [done| |done]. destruct Hof as (Hty & Hcm & [?|[= ->]]); [done|].
  assert (Hdel : delete (ticket_hash (tr_ticket tr)) payloads ⊆ d) by (etrans; [apply delete_subseteq|done]).
  enough (payloads' ⊆ d ∧ r = contribution t p) as [Hsub' ->].
  { split; [done|]. exists (Some (data_hash c)). split; [by rewrite <- Hch|]. by exists p. }
  unfold contribution. destruct (deserialize p) as [[rs n]|e|] eqn:Hde; by simplify_eq.
Qed.

Lemma loop_agrees t1 t2 d1 d2 ids p1 p2 rs1 rs2 :
  settled t1 → settled t2 → ledger_ok (at_commitments t1) d1 → ledger_ok (at_commitments t2) d2 →
  (∀ b, b ∈ ids → b ∈ at_batch_ids t1 ∧ b ∈ at_batch_ids t2 ∧
     ∀ h, (h ∈ data_hash <$> known t1 b ∧ backed t1 h) ↔ (h ∈ data_hash <$> known t2 b ∧ backed t2 h)) →
  (∀ p, contribution t1 p = contribution t2 p) →
  p1 ⊆ d1 → p2 ⊆ d2 → apply_loop t1 ids p1 = Ok rs1 → apply_loop t2 ids p2 = Ok rs2 →
  rs1 = rs2 ∨ collision.
Proof.
  intros Hs1 Hs2 Hl1 Hl2 Hsame Hc. revert p1 p2 rs1 rs2. induction ids as [|b ids IH].
  { intros p1 p2 rs1 rs2 _ _ [= <-] [= <-]. by left. }
  intros p1 p2 rs1 rs2 Hp1 Hp2 Hr1 Hr2. cbn in Hr1, Hr2.
  apply res_bind_Ok in Hr1 as ([q1 o1] & Hb1 & Hr1), Hr2 as ([q2 o2] & Hb2 & Hr2).
  apply res_bind_Ok in Hr1 as (l1 & Ht1 & Hr1), Hr2 as (l2 & Ht2 & Hr2). simplify_eq.
  destruct (Hsame b (list_elem_of_here _ _)) as (Hi1 & Hi2 & Hiff).
  destruct (batch_outcome _ _ _ _ _ _ Hs1 Hi1 Hl1 Hp1 Hb1) as (Hq1 & c1 & Hc1 & Ho1).
  destruct (batch_outcome _ _ _ _ _ _ Hs2 Hi2 Hl2 Hp2 Hb2) as (Hq2 & c2 & Hc2 & Ho2).
  destruct (IH (λ b Hb, Hsame b (list_elem_of_further _ _ _ Hb)) _ _ _ _ Hq1 Hq2 Ht1 Ht2) as [->|?]; [|by right].
  assert (c1 = c2) as -> by (apply option_eq; intros h; by rewrite Hc1, Hc2, Hiff).
  destruct c2 as [h|]; [|left; by subst].
  destruct Ho1 as (x & Hx & Hxh & ->), Ho2 as (y & Hy & <- & ->).
  destruct (commitment_inj _ _ Hx Hy Hxh) as [->|]; [left|by right]. by rewrite Hc.
Qed.

(** Two tasks that apply the same round. *)
Record same_round (t1 t2 : ApplyTask) : Prop := {
  sr_witnesses : at_witnesses t1 = at_witnesses t2;
  sr_quorum : at_quorum t1 = at_quorum t2;
  sr_batches : at_batch_ids t1 = at_batch_ids t2;
  sr_cold_start : at_cold_start_warmup_steps t1 = at_cold_start_warmup_steps t2;
  sr_p2p : at_checkpoint_is_p2p t1 = at_checkpoint_is_p2p t2;
}.

Lemma applying_ledger m t :
  client_inv m → t ∈ sm_applying m → ledger_ok (at_commitments t) (downloads_at (at_payloads t) (sm_heap m)).
Proof.
  intros [Hb _ _] Ht. apply (bo_ledger _ _ _ Hb). unfold holders. do 2 right.
  by apply (list_elem_of_fmap_2 task_holder).
Qed.

Lemma settled_by c t : let n := zlen (at_witnesses t) in let nodes := settling_nodes c n in
  1 <= nodes <= Z.of_nat SOLANA_MAX_NUM_WITNESSES → nodes ≠ 4 → n <= nodes →
  @witness_quorum unit n c = Ok (at_quorum t) →
  Forall (λ w, bloom_wf (broadcast_bloom w)) (at_witnesses t) →
  (∀ b, b ∈ at_batch_ids t → single_votes (at_witnesses t) (known t b)) → settled t.
Proof.
  cbn zeta. intros Hn H4 Hle Hq Hwf Hs. destruct (quorum_majority (E:=unit) c _ Hn H4) as (q & Hq' & Hq1 & Hm).
  change (Z.of_nat SOLANA_MAX_NUM_WITNESSES) with 32 in Hn.
  assert (q = at_quorum t) as -> by congruence. constructor; try done; unfold u16_max; lia.
Qed.

(** C5: Two clients that apply the same round, after any interleaving of messages, downloads,
    checks and coordinator states, hand the same results to their optimisers, in the same
    order, or a SHA-256 collision has been found.  The quorum is the one the coordinator
    computes for the round, for a number of witnesses other than four (with four, two pairs
    of witnesses are two quorums); each client must have heard of the results that a quorum
    of the witnesses reports, and no witness reports two results of one batch. *)
Theorem clients_apply_the_same i1 i2 c1 c2 ch1 ch2 m1 m2 t1 t2 rs1 rs2 c :
  client_run (machine_new i1 c1 ch1) m1 → client_run (machine_new i2 c2 ch2) m2 →
  t1 ∈ sm_applying m1 → t2 ∈ sm_applying m2 → same_round t1 t2 →
  let n := zlen (at_witnesses t1) in let nodes := settling_nodes c n in
  @witness_quorum unit n c = Ok (at_quorum t1) →
  1 <= nodes <= Z.of_nat SOLANA_MAX_NUM_WITNESSES → nodes ≠ 4 → n <= nodes →
  Forall (λ w, bloom_wf (broadcast_bloom w)) (at_witnesses t1) →
  (∀ b, b ∈ at_batch_ids t1 →
     single_votes (at_witnesses t1) (known t1 b) ∧ single_votes (at_witnesses t1) (known t2 b)) →
  (∀ b h, b ∈ at_batch_ids t1 → backed t1 h →
     h ∈ data_hash <$> known t1 b ↔ h ∈ data_hash <$> known t2 b) →
  results_to_apply t1 (sm_heap m1) = Ok rs1 → results_to_apply t2 (sm_heap m2) = Ok rs2 →
  rs1 = rs2 ∨ collision.
Proof.
  cbn zeta. intros Hrun1 Hrun2 Ht1 Ht2 [Hw Hq Hbs Hcs Hp] Hqu Hn H4 Hle Hwf Hsv Hheard Hr1 Hr2.
  assert (Hs1 : settled t1) by (eapply settled_by; [done..|]; intros b Hb; by apply Hsv).
  assert (Hs2 : settled t2).
  { rewrite Hw, Hq in *. eapply settled_by; [done..|]. intros b Hb. rewrite <- Hbs in Hb. by apply Hsv. }
  pose proof (client_run_inv _ _ (machine_new_inv _ _ _) Hrun1) as Hinv1.
  pose proof (client_run_inv _ _ (machine_new_inv _ _ _) Hrun2) as Hinv2.
  unfold results_to_apply in *. rewrite <- Hbs in Hr2.
  eapply (loop_agrees t1 t2); [done|done|by eapply (applying_ledger m1)|by eapply (applying_ledger m2)| | |done..].
  - intros b Hb. split_and!; [done|by rewrite <- Hbs|]. intros h.
    unfold backed. rewrite <- Hw, <- Hq. unfold backed in Hheard. naive_solver.
  - intros p. unfold contribution. by rewrite Hcs, Hp.
Qed.
End Agreement.

(** ** The books of a client *)

Section Books.
Context {H : HashFns} {B : Blobs} {T : Tensors} {K : TensorKinds}.

(** C8: In every state of a client, for both rounds it keeps: a recorded result comes from the
    client its batch is assigned to; a blob is recorded at most once; and a payload that
    is stored for a blob hashes to the commitment its sender announced for it, with its
    tensors, once deserialised, being those of the payload. *)
Theorem client_keeps_its_books i c ch m current :
  client_run (machine_new i c ch) m →
  let r := round_of current m in
  (∀ x, recorded (rs_results r) x →
     ∃ a, assigned_to (batch x) (rs_data_assignments r) = Some a ∧ id_eqb x.1 a = true) ∧
  (∀ x y, recorded (rs_results r) x → recorded (rs_results r) y → blob x = blob y → x = y) ∧
  (∀ hash p o, downloads_at (rs_downloads r) (sm_heap m) !! hash = Some (Deserializing p o) →
     ∃ x, recorded (rs_results r) x ∧ blob x = hash ∧ comptue_hash p = data_hash x.2.1 ∧
       (o = None ∨ o = Some (deserialize p))).
Proof.
  intros Hrun. cbn zeta. pose proof (client_run_inv _ _ (machine_new_inv _ _ _) Hrun) as Hinv.
  pose proof (bo_ledger _ _ _ (ci_books _ Hinv) _ _ (round_in_holders current m)) as Hled.
  split_and!.
  - destruct current; [apply (ci_current _ Hinv)|apply (ci_previous _ Hinv)].
  - apply (lo_unique _ _ Hled).
  - intros hash p o Hd. destruct (lo_payload _ _ Hled _ _ Hd) as (x & Hx & Hb & _ & Hc & Ho).
    by exists x.
Qed.

Lemma check_sender_accepts from b r m : check_sender from b r m = Ok None →
  is_warmup_broadcast b = false →
  cp_committee (bc_proof b) = Trainer ∧
  (id_eqb from (identity m) = true ∧ is_client from (clients (epoch_state (coordinator_state m))) = true
   ∨ ∃ p w sel, rs_committee_info r = Some (p, w, sel) ∧
       @verify_committee_for_client H sel ApplyMessageError from (bc_proof b)
         (clients (epoch_state (coordinator_state m))) = Ok true).
Proof.
  unfold check_sender. intros Hc Hw. rewrite Hw in Hc. cbn [negb andb] in Hc.
  apply res_bind_Ok in Hc as (stop & Hs & Hc). destruct stop as [o|]; [done|].
  split; [case_bool_decide; [done|by cbn in Hc]|].
  destruct (id_eqb from (identity m)) eqn:Hid; cbn [negb] in Hs.
  - left. split; [done|]. by destruct (is_client _ _).
  - right. destruct (rs_committee_info r) as [[[p w] sel]|]; [|done].
    apply res_bind_Ok in Hs as (ok & Hok & Hs). destruct ok; [|done]. eauto.
Qed.

Lemma check_sender_stops from b r m o : check_sender from b r m = Ok (Some o) → o ≠ Applied.
Proof.
  unfold check_sender. intros Hc. apply res_bind_Ok in Hc as (stop & Hs & Hc).
  destruct stop as [o'|]; [|by case_match; simplify_eq]. simplify_eq.
  case_match; [|by case_match; simplify_eq].
  destruct (rs_committee_info r) as [[[p w] sel]|]; [|by simplify_eq].
  apply res_bind_Ok in Hs as (ok & _ & Hs). by destruct ok; simplify_eq.
Qed.

(** A training result is applied only if it is for a round the client keeps, its sender
    holds a trainer seat of that round (or is the client itself), the batch is assigned to
    the sender and the blob is new; then it is recorded with the commitment it came with,
    its download starts, and nothing else of the books changes. *)
Theorem applied_training_result from b t m m' :
  bc_data b = BTrainingResult t → apply_message from b m = (Ok Applied, m') →
  let current := rs_step (sm_current m) =? bc_step b in
  let r := round_of current m in
  let r' := round_of current m' in
  let hash := ticket_hash (tr_ticket t) in
  let entry := (from, (bc_commitment b, t)) in
  rs_step r = bc_step b ∧ cp_committee (bc_proof b) = Trainer ∧
  (id_eqb from (identity m) = true ∧ is_client from (clients (epoch_state (coordinator_state m))) = true
   ∨ ∃ p w sel, rs_committee_info r = Some (p, w, sel) ∧
       @verify_committee_for_client H sel ApplyMessageError from (bc_proof b)
         (clients (epoch_state (coordinator_state m))) = Ok true) ∧
  (∃ a, assigned_to (tr_batch_id t) (rs_data_assignments r) = Some a ∧ id_eqb from a = true) ∧
  downloads_at (rs_downloads r) (sm_heap m) !! hash = None ∧
  rs_results r' = <[tr_batch_id t := default [] (rs_results r !! tr_batch_id t) ++ [entry]]> (rs_results r) ∧
  downloads_at (rs_downloads r') (sm_heap m') =
    <[hash := Downloading from (tr_batch_id t) (tr_ticket t)]> (downloads_at (rs_downloads r) (sm_heap m)) ∧
  rs_broadcasts r' = rs_broadcasts r ++ [data_hash (bc_commitment b)] ∧
  round_of (negb current) m' = round_of (negb current) m ∧
  sm_out m' = sm_out m ++ (if id_eqb from (identity m) then []
                           else [RequestDownload (tr_ticket t) from (bc_step b)]).
Proof.
  intros Hdata Hrun. cbn zeta. unfold apply_message in Hrun. rewrite bind_self in Hrun.
  destruct (negb _) eqn:Hst; [by apply mret_Ok in Hrun as [? _]|]. rewrite Hdata in Hrun.
  apply M_bind_Ok in Hrun as (o & m1 & [Hck ->]%asks_Ok & Hrun).
  destruct o as [o|].
  { apply mret_Ok in Hrun as [<- _]. by apply check_sender_stops in Hck. }
  apply M_bind_Ok in Hrun as (o & m1 & Htr & Hrun).
  apply apply_training_result_Ok in Htr as [[Ho _]|(-> & Ha & Hnew & ->)].
  { destruct Ho as [-> | ->]; by apply mret_Ok in Hrun as [? _]. }
  rewrite bind_modify in Hrun. apply mret_Ok in Hrun as [_ ->]. cbn zeta.
  apply check_sender_accepts in Hck as [Htr Hseat]; [|unfold is_warmup_broadcast; by rewrite Hdata].
  apply negb_false_iff, orb_true_iff in Hst.
  destruct (rs_step (sm_current m) =? bc_step b) eqn:Hcur; cbn [round_of negb] in *.
  all: split; [lia|]. all: split_and!; try done.
  all: destruct (id_eqb from (identity m)); cbn;
    first [done | by rewrite app_nil_r | by rewrite downloads_put, decide_True].
Qed.
End Books.

(** ** Following the run *)

Section Following.
Context {H : HashFns} {B : Blobs} {T : Tensors} {K : TensorKinds}.

Definition keeps_state : relation Coordinator := λ c c', run_state c' = run_state c.
#[global] Instance keeps_state_preorder : PreOrder keeps_state.
Proof. unfold keeps_state. split; [by intros c|]. intros a b c ??. congruence. Qed.

Lemma keeps_modify {E} f : (∀ c, run_state (f c) = run_state c) → respects (E:=E) keeps_state (modify f).
Proof. intros Hf. by apply respects_modify. Qed.

Lemma set_client_state_keeps i s : respects keeps_state (set_client_state i s).
Proof. unfold set_client_state. by apply keeps_modify. Qed.
#[local] Hint Resolve set_client_state_keeps : frames.

Lemma withdraw_keeps i : respects keeps_state (withdraw i).
Proof. unfold withdraw. frame_step. Qed.
Lemma eject_keeps i : respects keeps_state (eject i).
Proof. unfold eject. frame_step. Qed.
Lemma checkpoint_keeps from i ck : respects keeps_state (checkpoint from i ck).
Proof. unfold checkpoint. frame_step; by apply keeps_modify. Qed.
Lemma drop_clients_keeps ps : ∀ n, respects keeps_state (drop_clients ps n).
Proof.
  induction ps as [|p ps IH]; intros n; cbn; [frame_step|].
  apply respects_bind; [typeclasses eauto| |intros ?; apply IH]. unfold drop_client. frame_step.
Qed.
Lemma health_check_keeps from checks : respects keeps_state (health_check from checks).
Proof. pose proof drop_clients_keeps. unfold health_check. frame_step. Qed.

Lemma withdraw_all_keeps : respects keeps_state withdraw_all.
Proof.
  unfold withdraw_all. frame_step. intros c u c' Hrun. unfold ignore_err in Hrun.
  destruct (withdraw x c) as [[[]|e|] c1] eqn:Hw; simplify_eq.
  - by apply withdraw_keeps in Hw.
  - by apply withdraw_Err in Hw as ->.
Qed.

Lemma push_witness_keeps w : respects keeps_state (push_witness w).
Proof. unfold push_witness, update_current_round, set_round. frame_step. by apply keeps_modify. Qed.

(** The state changes any call makes: those of a tick, pausing and resuming. *)
Definition run_edge (s s' : RunState) : bool :=
  tick_edge s s' || bool_decide (s = s') ||
  match s, s' with
  | (WaitingForMembers | Warmup), Paused | Paused, (WaitingForMembers | Finished) => true
  | _, _ => false
  end.

Lemma run_edge_refl s : run_edge s s = true.
Proof. unfold run_edge. rewrite bool_decide_true by done. by rewrite orb_true_r. Qed.

Lemma witness_edge from w ts c c' u : witness from w ts c = (Ok u, c') →
  run_edge (run_state c) (run_state c') = true.
Proof.
  intros Hrun. unfold witness in Hrun. do 9 peel Hrun. apply push_witness_keeps in Ha6.
  destruct (_ && _).
  - apply change_state_Ok in Hrun as [_ ->]. apply negb_false_iff, orb_true_iff in Ha0 as [Hs|Hs];
      apply bool_decide_eq_true_1 in Hs; by rewrite Hs.
  - apply mret_Ok in Hrun as [_ ->]. rewrite Ha6. apply run_edge_refl.
Qed.

Lemma start_round_train_state ts seed tb c c' u :
  start_round_train ts seed tb c = (Ok u, c') → run_state c' = RoundTrain.
Proof.
  intros Hrun. unfold start_round_train in Hrun. do 2 peel Hrun.
  destruct a as [[hd ht] di]. do 2 peel Hrun. by apply change_state_Ok in Hrun as [_ ->].
Qed.

Lemma warmup_witness_edge from w ts seed c c' u : warmup_witness from w ts seed c = (Ok u, c') →
  run_edge (run_state c) (run_state c') = true.
Proof.
  intros Hrun. unfold warmup_witness in Hrun. do 2 peel Hrun. case_bool_decide.
  { apply mret_Ok in Hrun as [_ ->]. apply run_edge_refl. }
  do 5 peel Hrun. apply push_witness_keeps in Ha4. bool_prop. destruct (_ =? _).
  - apply start_round_train_state in Hrun as ->. by rewrite Ha0.
  - apply mret_Ok in Hrun as [_ ->]. rewrite Ha4. apply run_edge_refl.
Qed.

Lemma pause_edge ts c c' u : pause ts c = (Ok u, c') → run_edge (run_state c) (run_state c') = true.
Proof.
  intros Hrun. unfold pause in Hrun. peel Hrun. destruct (halted c) eqn:Hh; [done|]. cbn [negb] in Hrun.
  destruct (active c) eqn:Ha.
  - apply modify_Ok in Hrun as ->. apply run_edge_refl.
  - do 2 peel Hrun. apply change_state_Ok in Ha1 as [_ ->]. unfold set_cold_start in Hrun.
    apply modify_Ok in Hrun as ->. cbn. unfold halted, active in *. by destruct (run_state c).
Qed.

Lemma run_op_edges o c c' : coord_wf c → run_op o c = (Ok tt, c') →
  run_edge (run_state c) (run_state c') = true.
Proof.
  intros Hwf Hrun.
  assert (Hsame : keeps_state c c' → run_edge (run_state c) (run_state c') = true).
  { intros ->. apply run_edge_refl. }
  destruct o as [new ts seed|from w ts|from w ts seed|from checks|from i ck|i|i|ts|ts]; cbn [run_op] in Hrun.
  - peel Hrun. apply mret_Ok in Hrun as [_ ->]. unfold run_edge. by erewrite tick_edges.
  - by eapply witness_edge.
  - by eapply warmup_witness_edge.
  - peel Hrun. apply mret_Ok in Hrun as [_ ->]. by eapply Hsame, health_check_keeps.
  - by eapply Hsame, checkpoint_keeps.
  - by eapply Hsame, withdraw_keeps.
  - by eapply Hsame, eject_keeps.
  - by eapply pause_edge.
  - unfold resume in Hrun. do 2 peel Hrun. apply start_waiting_state in Hrun as [-> _].
    bool_prop. rewrite Ha. by destruct (_ <? _).
Qed.

(** The step a member of the epoch should be in. *)
Definition in_step_with (m : StepStateMachine) (c : Coordinator) : Prop :=
  @allowed_in_run_state unit (active_step m) (run_state c) = Ok true.

Definition desynced (r : res StepError unit) : Prop := ∃ a s, r = Err (Desync a s).

Definition never_desyncs {A} (op : M StepError StepStateMachine A) : Prop :=
  ∀ m a s, (op m).1 ≠ Err (Desync a s).

Lemma never_bind {A C} (op : M StepError StepStateMachine A) (f : A → M StepError StepStateMachine C) :
  never_desyncs op → (∀ x, never_desyncs (f x)) → never_desyncs (op ≫= f).
Proof.
  intros Hop Hf m a s. specialize (Hop m a s). unfold mbind, M_bind.
  destruct (op m) as [[x|e|] m1]; cbn in *; [apply Hf|congruence|done].
Qed.

Lemma never_in_step {E A} (f : E → StepError) (op : M E StepStateMachine A) :
  (∀ e a s, f e ≠ Desync a s) → never_desyncs (in_step f op).
Proof.
  intros Hf m a s. unfold in_step, zoom. destruct (op m) as [[x|e|] m1]; cbn; try done.
  intros [= Heq]. by apply (Hf e a s).
Qed.

Lemma never_modify f : never_desyncs (modify f).
Proof. done. Qed.
Lemma never_self : never_desyncs self.
Proof. done. Qed.
Lemma never_ret {A} (x : A) : never_desyncs (mret x).
Proof. done. Qed.
Lemma never_throw_if b : never_desyncs (throw_if b SStatsLoggerMutex).
Proof. by destruct b. Qed.
Lemma never_lift {A} (r : res StepError A) : (∀ a s, r ≠ Err (Desync a s)) → never_desyncs (lift r).
Proof. intros Hr m. exact Hr. Qed.

Lemma training_start_step index c trainers bl m x m' :
  training_start index c trainers bl m = (Ok x, m') → x = InTraining false.
Proof.
  intros Hrun. unfold training_start in Hrun. 
  repeat first [apply mret_Ok in Hrun as [-> _]; done | peel Hrun | case_match].
Qed.
Lemma witness_start_step aw m x m' : witness_start aw m = (Ok x, m') → x = InWitness.
Proof. intros Hrun. unfold witness_start in Hrun. do 3 peel Hrun. by apply mret_Ok in Hrun as [-> _]. Qed.
Lemma cooldown_start_step aw c m x m' : cooldown_start aw c m = (Ok x, m') → x = InCooldown.
Proof. intros Hrun. unfold cooldown_start in Hrun. peel Hrun. by apply mret_Ok in Hrun as [-> _]. Qed.

Lemma in_step_Ok {E A} (f : E → StepError) (op : M E StepStateMachine A) m x m' :
  in_step f op m = (Ok x, m') → op m = (Ok x, m').
Proof. unfold in_step. by intros (t & Ht & ->)%zoom_Ok. Qed.

Create HintDb desync.
#[local] Hint Resolve never_modify never_self never_ret never_throw_if never_lift : desync.
#[local] Hint Extern 2 (never_desyncs (in_step _ _)) => (apply never_in_step; discriminate) : desync.
Ltac never := repeat first [solve [auto with desync] | apply never_bind; [|intros ?]].

(** The steps a member may be in before and after a call on the coordinator. *)
Lemma next_step_follows a index c' bl fin s :
  @allowed_in_run_state unit a s = Ok true → run_edge s (run_state c') = true →
  run_state c' ≠ Finished → (∀ x r, fin ≠ Err (Desync x r)) →
  never_desyncs (next_step a index c' bl fin) ∧
  ∀ m x m', next_step a index c' bl fin m = (Ok x, m') →
    @allowed_in_run_state unit x (run_state c') = Ok true.
Proof.
  intros Hal Hedge Hnf Hfin.
  unfold next_step. destruct a, s; try done; destruct (run_state c') eqn:Hr; try done.
  all: split; [first [by intros m x r | never]|intros m x m' Hrun].
  all: try (apply mret_Ok in Hrun as [-> _]; done).
  all: repeat peel Hrun; try (apply in_step_Ok in Hrun).
  all: first [by apply training_start_step in Hrun as -> | by apply witness_start_step in Hrun as ->
    | by apply cooldown_start_step in Hrun as -> | by apply mret_Ok in Hrun as [-> _]].
Qed.

Lemma leave_step_follows a fin : a ≠ Intermediate → (∀ x r, fin ≠ Err (Desync x r)) →
  never_desyncs (leave_step a fin) ∧
  ∀ m x m', leave_step a fin m = (Ok x, m') → x = InWarmup.
Proof.
  intros Ha Hfin. unfold leave_step. destruct a; try done.
  all: split; [never|intros m x m' Hrun; repeat peel Hrun; by apply mret_Ok in Hrun as [-> _]].
Qed.

Lemma never_run (op : M StepError StepStateMachine unit) m r m' :
  never_desyncs op → op m = (r, m') → ¬ desynced r.
Proof. intros Hop Hrun (a & s & ->). apply (Hop m a s). by rewrite Hrun. Qed.

(** C9: A client that is in the step its coordinator state calls for never loses step: after
    any successful call on the coordinator that does not finish the run, the client does
    not report a desynchronisation, and when it succeeds it is again in the right step
    and keeps the new state; a client that is no longer a member waits in warmup. *)
Theorem client_follows_the_run o c c' bl fin m r m' :
  coord_wf c → run_op o c = (Ok tt, c') → run_state c' ≠ Finished →
  in_step_with m c → (∀ a s, fin ≠ Err (Desync a s)) →
  apply_state c' bl fin m = (r, m') →
  ¬ desynced r ∧
  (r = Ok tt →
   match client_index (identity m) c' with
   | Some _ => in_step_with m' c' ∧ coordinator_state m' = c'
   | None => active_step m' = InWarmup
   end).
Proof.
  intros Hwf Hop Hnf Hstep Hfin Hrun. apply run_op_edges in Hop; [|done].
  unfold apply_state in Hrun. rewrite bind_self, bind_modify in Hrun.
  destruct (client_index (identity m) c') as [i|].
  - destruct (next_step_follows _ i c' bl fin _ Hstep Hop Hnf Hfin) as [Hnever Hok].
    split; [eapply never_run, Hrun; never|]. intros ->.
    apply M_bind_Ok in Hrun as (a & m1 & Hnext & Hrun). rewrite bind_modify in Hrun.
    apply modify_Ok in Hrun as ->. split; [|done]. by apply Hok in Hnext.
  - destruct (leave_step_follows (active_step m) fin) as [Hnever Hok]; [|done|].
    { intros Hi. unfold in_step_with in Hstep. by rewrite Hi in Hstep. }
    split; [eapply never_run, Hrun; never|]. intros ->.
    apply M_bind_Ok in Hrun as (a & m1 & Hleave & Hrun).
    apply modify_Ok in Hrun as ->. cbn. by eapply Hok.
Qed.

(** A finished run desynchronises every member: the last tick of a run's last cooldown
    leaves the members in place, and no step is allowed in a finished run. *)
Theorem end_of_run_desyncs new ts seed c c' i bl fin m :
  coord_wf c → run_state c = Cooldown → is_true (pending_pause c) = false →
  total_steps (config c) <= step (progress c) →
  tick new ts seed c = (Ok (EpochEnd true), c') →
  in_step_with m c → client_index (identity m) c' = Some i →
  apply_state c' bl fin m = (Err (Desync InCooldown Finished), set_active_step Intermediate m).
Proof.
  intros (He & _) Hs Hp Hdone Hrun Hstep Hi. unfold tick in Hrun. rewrite bind_self, Hs in Hrun.
  apply tick_cooldown_edge in Hrun as [[_ ?]|[_ Hr]]; [done| |done|done].
  rewrite Hp in Hr. destruct (Z.ltb_spec (step (progress c)) (total_steps (config c))); [lia|].
  unfold apply_state. rewrite bind_self, bind_modify, Hi. unfold in_step_with in Hstep. rewrite Hs in Hstep.
  unfold next_step. rewrite Hr. by destruct (active_step m).
Qed.
End Following.

(** ** Two clients through two rounds *)

Module ClientRuns.
Import Sample Runs.
#[local] Existing Instance zero_hashes.
#[local] Existing Instance Payload.sizes.
#[local] Instance blobs : Blobs := {| BlobTicket := list Z; Tag := unit; ticket_hash := λ t, t |}.
#[local] Instance tensors : Tensors :=
  {| Trainer_ := unit; DistroResult_ := SerializedDistroResult; build_result := λ r, Ok r |}.

Definition run_steps (es : list ClientStep) (m : StepStateMachine) : bool * StepStateMachine :=
  foldl (λ '(b, m) e, let '(b', m') := client_step e m in (b && b', m')) (true, m) es.

Lemma run_steps_run es m0 m : client_run m0 m → Forall step_typed es → (run_steps es m).1 = true →
  client_run m0 (run_steps es m).2.
Proof.
  unfold run_steps. revert m.
  assert (Hf : ∀ es m, (foldl (λ '(b, m) e, let '(b', m') := client_step e m in (b && b', m'))
    (false, m) es).1 = false).
  { intros l. induction l as [|e l IH]; intros m; [done|]. cbn. destruct (client_step e m) as [b m']. apply IH. }
  induction es as [|e es IH]; intros m Hm Hty Hok; [done|].
  apply list.Forall_cons in Hty as [He Hty]. cbn in *.
  destruct (client_step e m) as [[] m'] eqn:Hs; cbn in *; [|by rewrite Hf in Hok].
  apply IH; [|done|done]. by eapply run_step.
Qed.

Definition zeros : list Z := replicate 32 0.

(** The witness of the second round reports the results of the first. *)
Definition report : Witness :=
  let empty := bloom_default 16 8 in
  mkWitness (mkWitnessProof 0 0 1) empty
    match @bloom_add zero_hashes unit zeros empty with Ok b => b | _ => empty end zeros.
Definition ops : list op :=
  [OTick (Some [node 1; node 2]) 200 7; OTick None 300 7;
   OWitness (node 1) (vote_of 0) 310; OTick None 330 8;
   OWitness (node 1) report 340; OTick None 360 9].
Definition after (n : nat) : Coordinator := run_all (take n ops) fresh.

Definition bl : Bloom * Bloom := (bloom_default 16 8, bloom_default 16 8).
Definition fin : res StepError Awaited := Ok (mkAwaited false [tt]).
Definition on (n : nat) : ClientStep := OnState (after n) bl fin.
Definition m0 (k : Z) : StepStateMachine :=
  machine_new (node k) (after 1) (mkChannels true true true true true).

(** Node [k] announces the result of its batch, and a client downloads it. *)
Definition batch_of (k : Z) : BatchId :=
  if k =? 1 then mkClosedInterval 2 3 else mkClosedInterval 0 1.
Definition announcement (k : Z) : Broadcast :=
  mkBroadcast 1 (mkCommitteeProof Trainer (k - 1) (k - 1)) (mkCommitment zeros [k]) 0
    (BTrainingResult (mkTrainingResult (batch_of k) [k])).
Definition share (k : Z) : TransmittableDistroResult :=
  mkTransmittable 1 0 (batch_of k) [mkSerialized floats floats [2; 2] k].
Definition fetch (k : Z) : list ClientStep :=
  [OnDistroResult [k] (share k) None; OnVerify 0; OnVerify 0; OnVerify 0; OnDeserialized 5 [k]].
Definition script (k k' : Z) : list ClientStep :=
  [on 2; OnMessage (node k) (announcement k); OnMessage (node k') (announcement k')] ++
  fetch k' ++ fetch k ++ [OnTrained; on 3; on 4; on 5; on 6].

Lemma shares_typed : payload_typed (share 1) ∧ payload_typed (share 2).
Proof.
  assert (Ht : tensor_typed floats).
  { split_and!; [repeat constructor; vm_compute; discriminate|split; vm_compute; done..]. }
  split; (split_and!; [split; vm_compute; done..| |split; vm_compute; done]);
    apply list.Forall_cons; (split; [|constructor]);
    (split_and!; [done..|repeat constructor; vm_compute; done|split; vm_compute; done|split; vm_compute; done]).
Qed.

Lemma script_typed : Forall step_typed (script 1 2) ∧ Forall step_typed (script 2 1).
Proof.
  destruct shares_typed. split; repeat (apply list.Forall_cons; split; [done|]); constructor.
Qed.

Definition client1 : StepStateMachine := (run_steps (script 1 2) (m0 1)).2.
Definition client2 : StepStateMachine := (run_steps (script 2 1) (m0 2)).2.

Lemma client1_run : client_run (m0 1) client1.
Proof.
  apply run_steps_run; [apply run_start|apply script_typed|]. vm_compute. reflexivity.
Qed.
Lemma client2_run : client_run (m0 2) client2.
Proof.
  apply run_steps_run; [apply run_start|apply script_typed|]. vm_compute. reflexivity.
Qed.

Definition no_task : ApplyTask := mkApplyTask 0 ∅ [] 0 [] 0 false.
Definition task1 : ApplyTask := Eval vm_compute in default no_task (head (sm_applying client1)).
Definition task2 : ApplyTask := Eval vm_compute in default no_task (head (sm_applying client2)).

Lemma task1_in : task1 ∈ sm_applying client1.
Proof. apply list_elem_of_lookup. exists 0%nat. vm_compute. reflexivity. Qed.
Lemma task2_in : task2 ∈ sm_applying client2.
Proof. apply list_elem_of_lookup. exists 0%nat. vm_compute. reflexivity. Qed.

Definition batches : list BatchId := [mkClosedInterval 0 1; mkClosedInterval 2 3].

(** Both clients know the one result of either batch. *)
Lemma known_results b : b ∈ batches →
  data_hash <$> known task1 b = [zeros] ∧ data_hash <$> known task2 b = [zeros].
Proof.
  intros [-> |[-> |[]%not_elem_of_nil]%elem_of_cons]%elem_of_cons; vm_compute; done.
Qed.

Lemma single_if_one ws cs : data_hash <$> cs = [zeros] → single_votes ws cs.
Proof.
  intros Heq w c c' _ Hc Hc' _ _. apply (list_elem_of_fmap_2 data_hash) in Hc, Hc'.
  rewrite Heq in Hc, Hc'. apply list_elem_of_singleton in Hc, Hc'. congruence.
Qed.

Definition applied : list (list SerializedDistroResult) :=
  [[mkSerialized floats floats [2; 2] 2]; [mkSerialized floats floats [2; 2] 1]].

Lemma clients_apply_the_same_witness :
  results_to_apply task1 (sm_heap client1) = Ok applied ∧
  results_to_apply task2 (sm_heap client2) = Ok applied ∧ (applied = applied ∨ collision).
Proof.
  assert (H1 : results_to_apply task1 (sm_heap client1) = Ok applied) by (vm_compute; reflexivity).
  assert (H2 : results_to_apply task2 (sm_heap client2) = Ok applied) by (vm_compute; reflexivity).
  split; [exact H1|]. split; [exact H2|].
  refine (clients_apply_the_same (node 1) (node 2) (after 1) (after 1) _ _ client1 client2 task1 task2
    applied applied (after 6) client1_run client2_run task1_in task2_in _ _ _ _ _ _ _ _ H1 H2).
  - constructor; vm_compute; reflexivity.
  - vm_compute. reflexivity.
  - vm_compute. intuition discriminate.
  - vm_compute. discriminate.
  - vm_compute. discriminate.
  - apply list.Forall_cons; split; [vm_compute; discriminate|constructor].
  - intros b Hb. split; apply single_if_one, known_results; exact Hb.
  - intros b h Hb _. destruct (known_results b) as [-> ->]; [exact Hb|done].
Defined.

Definition halfway : StepStateMachine := (run_steps (take 8 (script 1 2)) (m0 1)).2.

Lemma client_keeps_its_books_witness :
  ∃ x, recorded (rs_results (round_of true halfway)) x ∧
    blob x = [2] ∧ comptue_hash (share 2) = data_hash x.2.1.
Proof.
  destruct (client_keeps_its_books (node 1) (after 1) (mkChannels true true true true true)
    halfway true) as (_ & _ & H3).
  - apply run_steps_run; [apply run_start|apply list.Forall_take, script_typed|vm_compute; reflexivity].
  - destruct (H3 [2] (share 2) (Some (deserialize (share 2)))) as (x & Hx & Hb & Hc & _);
      [vm_compute; reflexivity|].
    exact (ex_intro _ x (conj Hx (conj Hb Hc))).
Defined.

Definition started : StepStateMachine := (run_steps [on 2] (m0 2)).2.
Definition told : StepStateMachine := (apply_message (node 1) (announcement 1) started).2.

Lemma applied_training_result_witness :
  let current := rs_step (sm_current started) =? bc_step (announcement 1) in
  rs_broadcasts (round_of current told) =
    rs_broadcasts (round_of current started) ++ [data_hash (bc_commitment (announcement 1))].
Proof.
  refine (match applied_training_result (node 1) (announcement 1) (mkTrainingResult (batch_of 1) [1])
            started told eq_refl _ with
          | conj _ (conj _ (conj _ (conj _ (conj _ (conj _ (conj _ (conj Hb _))))))) => Hb end).
  vm_compute. reflexivity.
Defined.

Lemma client_follows_the_run_witness :
  let m := (run_steps [on 2] (m0 1)).2 in
  ¬ desynced (apply_state (after 3) bl fin m).1.
Proof.
  cbn zeta.
  refine (proj1 (client_follows_the_run (OWitness (node 1) (vote_of 0) 310) (after 2) (after 3) bl fin
    (run_steps [on 2] (m0 1)).2 _ _ _ _ _ _ _ (surjective_pairing _))).
  - apply (@reachable_wf zero_hashes fresh); [exact fresh_wf|].
    apply run_all_reachable; [apply reach_refl|vm_compute; reflexivity].
  - vm_compute. reflexivity.
  - vm_compute. discriminate.
  - vm_compute. reflexivity.
  - discriminate.
Defined.
End ClientRuns.
