(* ===== verification/Projection.v ===== *)
(** * Events of a cluster and their projection

    src/shared/event-sourcing/src: the events nodes record (events.rs) and the projection
    (projection.rs) that folds them, with the states of the coordinator, into the picture
    of the cluster an observer shows.

    Times are nanoseconds.  Maps that keep insertion order for display are plain finite
    maps here.  The counters wrap.  Uploads are not tracked by the projection, so the
    snapshot has no field for them. *)

From stdpp Require Import base tactics list numbers decidable gmap strings countable.
From S2P Require Import Prelude CoreTypes Hashing Float CoordinatorState Client Scheduler.

Open Scope Z_scope.

(** ** Events *)

Definition EndpointId : Type := list Z.
Definition BlobHash : Type := list Z.

(** [Result<(), String>]. *)
Inductive Outcome := Succeeded | FailedWith (e : string).
Definition succeeded (o : Outcome) : bool := match o with Succeeded => true | _ => false end.

Record SelectedPath := mkSelectedPath { sp_addr : string; sp_rtt : Z }.

Inductive SubscriptionStatus := Up | Down.
Inductive RpcCallType := RpcWitness | RpcWarmupWitness | RpcHealthCheck | RpcCheckpoint | RpcJoin | RpcTick.

Inductive CoordinatorEvent :=
| CoordinatorStateChanged (new_state_hash : string)
| SolanaSubscriptionChanged (url : string) (status : SubscriptionStatus)
| RpcCallSubmitted (call_type : RpcCallType)
| RpcCallResult (call_type : RpcCallType) (result : Outcome).

Inductive ClientEvent :=
| StateChanged (old_state new_state : RunState) (epoch step : Z)
| HealthCheckFailed (index round : Z)
| ErrorEvent (message : string)
| WarningEvent (message : string).

Inductive P2PEvent :=
| ConnectionChanged (endpoint : EndpointId) (path : option SelectedPath)
| ConnectionLatencyChanged (endpoint : EndpointId) (latency_ms : Z)
| GossipNeighborUp (endpoint : EndpointId)
| GossipNeighborDown (endpoint : EndpointId)
| GossipTrainingResultSent
| GossipFinishedSent
| GossipTrainingResultReceived (blob : BlobHash) (batch_id : BatchId)
| GossipFinishedReceived
| GossipLagged
| BlobAddedToStore (blob : BlobHash) (model_parameter : string)
| BlobUploadStarted (to_endpoint : EndpointId) (size_bytes : Z)
| BlobUploadProgress (bytes_transferred : Z)
| BlobUploadCompleted (blob : BlobHash) (result : Outcome)
| BlobDownloadRequested (blob : BlobHash)
| BlobDownloadTryProvider (blob : BlobHash) (endpoint : EndpointId)
| BlobDownloadProviderFailed (blob : BlobHash) (endpoint : EndpointId)
| BlobDownloadStarted (blob : BlobHash) (size_bytes : Z)
| BlobDownloadProgress (blob : BlobHash) (bytes_transferred : Z)
| BlobDownloadCompleted (blob : BlobHash) (result : Outcome).

Inductive TrainEvent :=
| BatchAssigned (batch_id : BatchId)
| BatchDataDownloadStart
| BatchDataDownloadComplete (ok : bool)
| TrainingStarted (batch_id : BatchId)
| TrainingFinished (batch_id : BatchId) (step : Z) (loss : option f64)
| UntrainedBatchWarning (batch_id : BatchId) (expected_trainer : option string)
| WitnessElected (step round epoch index committee_position : Z) (is_witness : bool)
| DistroResultDeserializeStarted (blob : BlobHash)
| DistroResultDeserializeComplete (blob : BlobHash) (result : Outcome)
| ApplyDistroResultsStart
| ApplyDistroResultsComplete (result : Outcome)
| DistroResultAddedToConsensus (result : Outcome).

Inductive WarmupEvent :=
| P2PParamInfoRequest (from : EndpointId)
| P2PParamInfoResponse
| CheckpointDownloadStarted (size_bytes : Z)
| CheckpointDownloadProgress (bytes_downloaded : Z)
| CheckpointDownloadComplete (result : Outcome)
| ModelLoadStarted
| ModelLoadComplete.

Inductive CooldownEvent :=
| ModelSerializationStarted
| ModelSerializationFinished (success : bool) (error_string : option string)
| CheckpointWriteStarted
| CheckpointWriteFinished (success : bool) (error_string : option string)
| CheckpointUploadStarted
| CheckpointUploadProgress (bytes_uploaded : Z)
| CheckpointUploadFinished (success : bool) (error_string : option string).

Record RunStarted := mkRunStarted {
  st_run_id : string;
  st_node_id : string;
  st_config : string;
  st_psyche_version : string;
}.

Record ResourceSnapshot := mkResource {
  rc_gpu_mem_used_bytes : option Z;
  rc_gpu_utilization_percent : option f32;
  rc_cpu_mem_used_bytes : Z;
  rc_cpu_utilization_percent : f32;
  rc_network_bytes_sent_total : Z;
  rc_network_bytes_recv_total : Z;
  rc_disk_space_available_bytes : Z;
}.

Inductive EventData :=
| ERunStarted (r : RunStarted)
| ECoordinator (e : CoordinatorEvent)
| EClient (e : ClientEvent)
| EP2P (e : P2PEvent)
| ETrain (e : TrainEvent)
| EWarmup (e : WarmupEvent)
| ECooldown (e : CooldownEvent)
| EResource (r : ResourceSnapshot).

Record Event := mkEvent { ev_timestamp : Z; ev_data : EventData }.

(** ** Snapshots *)

Record CoordinatorStateSnapshot := mkCoordinatorSnapshot {
  cu_timestamp : Z;
  cu_run_state : RunState;
  cu_epoch : Z;
  cu_step : Z;
  cu_checkpoint : Checkpoint;
  cu_client_ids : list string;
  cu_min_clients : Z;
  cu_batch_assignments : list (BatchId * string);
}.

Inductive WarmupPhase := Idle | NegotiatingP2P | PhaseDownloading | LoadingModel | Complete.
#[global] Instance WarmupPhase_eq_dec : EqDecision WarmupPhase.
Proof. solve_decision. Defined.

Record WarmupSnapshot := mkWarmupSnapshot {
  wu_phase : WarmupPhase;
  wu_download_total_bytes : option Z;
  wu_download_bytes : Z;
  wu_model_loaded : bool;
}.

Record PeerInfo := mkPeerInfo {
  pi_connection_path : option SelectedPath;
  pi_latency_ms : option Z;
}.

Record BlobDownloadTransfer := mkBlobDownload {
  bd_size_bytes : Z;
  bd_bytes_transferred : Z;
  bd_result : option Outcome;
}.

Record P2PSnapshot := mkP2PSnapshot {
  pp_peers : gmap EndpointId PeerInfo;
  pp_gossip_neighbors : gset EndpointId;
  pp_downloads : gmap BlobHash BlobDownloadTransfer;
  pp_blobs_in_store : Z;
  pp_gossip_sent : Z;
  pp_gossip_recv : Z;
}.

Record WitnessInfo := mkWitnessInfo {
  wi_step : Z;
  wi_round : Z;
  wi_epoch : Z;
  wi_index : Z;
  wi_committee_position : Z;
}.

(** A batch download is its result once there is one. *)
Record TrainSnapshot := mkTrainSnapshot {
  tn_batches_assigned : Z;
  tn_batch_downloads : gmap BatchId (option bool);
  tn_training_in_progress : bool;
  tn_witness : option WitnessInfo;
  tn_last_distro_ok : option bool;
  tn_untrained_warnings : list (BatchId * option string);
}.

Record CooldownSnapshot := mkCooldownSnapshot {
  cd_is_checkpointer : bool;
  cd_serialization_ok : option bool;
  cd_serialization_error : option string;
  cd_checkpoint_write_ok : option bool;
  cd_upload_bytes : Z;
  cd_upload_ok : option bool;
  cd_upload_error : option string;
}.

Inductive DownloadStatus := NotStarted | InProgress | Success | Failed.

Record NodeBatchStatus := mkNodeBatchStatus {
  nb_gossip_received : bool;
  nb_download : DownloadStatus;
  nb_deserialized : option bool;
}.

Record WitnessStatus := mkWitnessStatus {
  wt_info : WitnessInfo;
  wt_submitted : bool;
  wt_rpc_result : option bool;
}.

Record ClusterBatchView := mkBatchView {
  bv_assigned_to : option string;
  bv_blob : option BlobHash;
  bv_data_downloaded : option bool;
  bv_trained : bool;
  bv_node_status : gmap string NodeBatchStatus;
}.

Record NodeSnapshot := mkNodeSnapshot {
  nd_node_id : string;
  nd_run_state : option RunState;
  nd_epoch : Z;
  nd_step : Z;
  nd_warmup : WarmupSnapshot;
  nd_losses : list (Z * f64);
  nd_health_check_steps : list Z;
  nd_last_error : option string;
  nd_network_tx_bps : option Z;
  nd_network_rx_bps : option Z;
  nd_p2p : P2PSnapshot;
  nd_train : TrainSnapshot;
  nd_cooldown : CooldownSnapshot;
  nd_last_resource : option (Z * ResourceSnapshot);
}.

Record ClusterSnapshot := mkCluster {
  cl_timestamp : Z;
  cl_coordinator : option CoordinatorStateSnapshot;
  cl_nodes : gmap string NodeSnapshot;
  cl_step_batches : gmap BatchId ClusterBatchView;
  cl_prev_step_batches : gmap BatchId ClusterBatchView;
  cl_blob_to_batch : gmap BlobHash BatchId;
  cl_applied_by : gset string;
  cl_prev_applied_by : gset string;
  cl_step_witnesses : gmap string WitnessStatus;
}.

Definition set_wu_phase (x : WarmupPhase) (r : WarmupSnapshot) : WarmupSnapshot :=
  mkWarmupSnapshot x (wu_download_total_bytes r) (wu_download_bytes r) (wu_model_loaded r).
Definition set_wu_download_total_bytes (x : option Z) (r : WarmupSnapshot) : WarmupSnapshot :=
  mkWarmupSnapshot (wu_phase r) x (wu_download_bytes r) (wu_model_loaded r).
Definition set_wu_download_bytes (x : Z) (r : WarmupSnapshot) : WarmupSnapshot :=
  mkWarmupSnapshot (wu_phase r) (wu_download_total_bytes r) x (wu_model_loaded r).
Definition set_wu_model_loaded (x : bool) (r : WarmupSnapshot) : WarmupSnapshot :=
  mkWarmupSnapshot (wu_phase r) (wu_download_total_bytes r) (wu_download_bytes r) x.
Definition set_pi_latency_ms (x : option Z) (r : PeerInfo) : PeerInfo :=
  mkPeerInfo (pi_connection_path r) x.
Definition set_bd_bytes_transferred (x : Z) (r : BlobDownloadTransfer) : BlobDownloadTransfer :=
  mkBlobDownload (bd_size_bytes r) x (bd_result r).
Definition set_bd_result (x : option Outcome) (r : BlobDownloadTransfer) : BlobDownloadTransfer :=
  mkBlobDownload (bd_size_bytes r) (bd_bytes_transferred r) x.
Definition set_pp_peers (x : gmap EndpointId PeerInfo) (r : P2PSnapshot) : P2PSnapshot :=
  mkP2PSnapshot x (pp_gossip_neighbors r) (pp_downloads r) (pp_blobs_in_store r) (pp_gossip_sent r)
    (pp_gossip_recv r).
Definition set_pp_gossip_neighbors (x : gset EndpointId) (r : P2PSnapshot) : P2PSnapshot :=
  mkP2PSnapshot (pp_peers r) x (pp_downloads r) (pp_blobs_in_store r) (pp_gossip_sent r)
    (pp_gossip_recv r).
Definition set_pp_downloads (x : gmap BlobHash BlobDownloadTransfer) (r : P2PSnapshot) : P2PSnapshot :=
  mkP2PSnapshot (pp_peers r) (pp_gossip_neighbors r) x (pp_blobs_in_store r) (pp_gossip_sent r)
    (pp_gossip_recv r).
Definition set_pp_blobs_in_store (x : Z) (r : P2PSnapshot) : P2PSnapshot :=
  mkP2PSnapshot (pp_peers r) (pp_gossip_neighbors r) (pp_downloads r) x (pp_gossip_sent r)
    (pp_gossip_recv r).
Definition set_pp_gossip_sent (x : Z) (r : P2PSnapshot) : P2PSnapshot :=
  mkP2PSnapshot (pp_peers r) (pp_gossip_neighbors r) (pp_downloads r) (pp_blobs_in_store r) x
    (pp_gossip_recv r).
Definition set_pp_gossip_recv (x : Z) (r : P2PSnapshot) : P2PSnapshot :=
  mkP2PSnapshot (pp_peers r) (pp_gossip_neighbors r) (pp_downloads r) (pp_blobs_in_store r)
    (pp_gossip_sent r) x.
Definition set_tn_batches_assigned (x : Z) (r : TrainSnapshot) : TrainSnapshot :=
  mkTrainSnapshot x (tn_batch_downloads r) (tn_training_in_progress r) (tn_witness r)
    (tn_last_distro_ok r) (tn_untrained_warnings r).
Definition set_tn_batch_downloads (x : gmap BatchId (option bool)) (r : TrainSnapshot) : TrainSnapshot :=
  mkTrainSnapshot (tn_batches_assigned r) x (tn_training_in_progress r) (tn_witness r)
    (tn_last_distro_ok r) (tn_untrained_warnings r).
Definition set_tn_training_in_progress (x : bool) (r : TrainSnapshot) : TrainSnapshot :=
  mkTrainSnapshot (tn_batches_assigned r) (tn_batch_downloads r) x (tn_witness r) (tn_last_distro_ok
    r) (tn_untrained_warnings r).
Definition set_tn_witness (x : option WitnessInfo) (r : TrainSnapshot) : TrainSnapshot :=
  mkTrainSnapshot (tn_batches_assigned r) (tn_batch_downloads r) (tn_training_in_progress r) x
    (tn_last_distro_ok r) (tn_untrained_warnings r).
Definition set_tn_last_distro_ok (x : option bool) (r : TrainSnapshot) : TrainSnapshot :=
  mkTrainSnapshot (tn_batches_assigned r) (tn_batch_downloads r) (tn_training_in_progress r)
    (tn_witness r) x (tn_untrained_warnings r).
Definition set_tn_untrained_warnings (x : list (BatchId * option string)) (r : TrainSnapshot) : TrainSnapshot :=
  mkTrainSnapshot (tn_batches_assigned r) (tn_batch_downloads r) (tn_training_in_progress r)
    (tn_witness r) (tn_last_distro_ok r) x.
Definition set_cd_is_checkpointer (x : bool) (r : CooldownSnapshot) : CooldownSnapshot :=
  mkCooldownSnapshot x (cd_serialization_ok r) (cd_serialization_error r) (cd_checkpoint_write_ok r)
    (cd_upload_bytes r) (cd_upload_ok r) (cd_upload_error r).
Definition set_cd_serialization_ok (x : option bool) (r : CooldownSnapshot) : CooldownSnapshot :=
  mkCooldownSnapshot (cd_is_checkpointer r) x (cd_serialization_error r) (cd_checkpoint_write_ok r)
    (cd_upload_bytes r) (cd_upload_ok r) (cd_upload_error r).
Definition set_cd_serialization_error (x : option string) (r : CooldownSnapshot) : CooldownSnapshot :=
  mkCooldownSnapshot (cd_is_checkpointer r) (cd_serialization_ok r) x (cd_checkpoint_write_ok r)
    (cd_upload_bytes r) (cd_upload_ok r) (cd_upload_error r).
Definition set_cd_checkpoint_write_ok (x : option bool) (r : CooldownSnapshot) : CooldownSnapshot :=
  mkCooldownSnapshot (cd_is_checkpointer r) (cd_serialization_ok r) (cd_serialization_error r) x
    (cd_upload_bytes r) (cd_upload_ok r) (cd_upload_error r).
Definition set_cd_upload_bytes (x : Z) (r : CooldownSnapshot) : CooldownSnapshot :=
  mkCooldownSnapshot (cd_is_checkpointer r) (cd_serialization_ok r) (cd_serialization_error r)
    (cd_checkpoint_write_ok r) x (cd_upload_ok r) (cd_upload_error r).
Definition set_cd_upload_ok (x : option bool) (r : CooldownSnapshot) : CooldownSnapshot :=
  mkCooldownSnapshot (cd_is_checkpointer r) (cd_serialization_ok r) (cd_serialization_error r)
    (cd_checkpoint_write_ok r) (cd_upload_bytes r) x (cd_upload_error r).
Definition set_cd_upload_error (x : option string) (r : CooldownSnapshot) : CooldownSnapshot :=
  mkCooldownSnapshot (cd_is_checkpointer r) (cd_serialization_ok r) (cd_serialization_error r)
    (cd_checkpoint_write_ok r) (cd_upload_bytes r) (cd_upload_ok r) x.
Definition set_nb_gossip_received (x : bool) (r : NodeBatchStatus) : NodeBatchStatus :=
  mkNodeBatchStatus x (nb_download r) (nb_deserialized r).
Definition set_nb_download (x : DownloadStatus) (r : NodeBatchStatus) : NodeBatchStatus :=
  mkNodeBatchStatus (nb_gossip_received r) x (nb_deserialized r).
Definition set_nb_deserialized (x : option bool) (r : NodeBatchStatus) : NodeBatchStatus :=
  mkNodeBatchStatus (nb_gossip_received r) (nb_download r) x.
Definition set_wt_submitted (x : bool) (r : WitnessStatus) : WitnessStatus :=
  mkWitnessStatus (wt_info r) x (wt_rpc_result r).
Definition set_wt_rpc_result (x : option bool) (r : WitnessStatus) : WitnessStatus :=
  mkWitnessStatus (wt_info r) (wt_submitted r) x.
Definition set_bv_assigned_to (x : option string) (r : ClusterBatchView) : ClusterBatchView :=
  mkBatchView x (bv_blob r) (bv_data_downloaded r) (bv_trained r) (bv_node_status r).
Definition set_bv_blob (x : option BlobHash) (r : ClusterBatchView) : ClusterBatchView :=
  mkBatchView (bv_assigned_to r) x (bv_data_downloaded r) (bv_trained r) (bv_node_status r).
Definition set_bv_data_downloaded (x : option bool) (r : ClusterBatchView) : ClusterBatchView :=
  mkBatchView (bv_assigned_to r) (bv_blob r) x (bv_trained r) (bv_node_status r).
Definition set_bv_trained (x : bool) (r : ClusterBatchView) : ClusterBatchView :=
  mkBatchView (bv_assigned_to r) (bv_blob r) (bv_data_downloaded r) x (bv_node_status r).
Definition set_bv_node_status (x : gmap string NodeBatchStatus) (r : ClusterBatchView) : ClusterBatchView :=
  mkBatchView (bv_assigned_to r) (bv_blob r) (bv_data_downloaded r) (bv_trained r) x.
Definition set_nd_run_state (x : option RunState) (r : NodeSnapshot) : NodeSnapshot :=
  mkNodeSnapshot (nd_node_id r) x (nd_epoch r) (nd_step r) (nd_warmup r) (nd_losses r)
    (nd_health_check_steps r) (nd_last_error r) (nd_network_tx_bps r) (nd_network_rx_bps r) (nd_p2p
    r) (nd_train r) (nd_cooldown r) (nd_last_resource r).
Definition set_nd_epoch (x : Z) (r : NodeSnapshot) : NodeSnapshot :=
  mkNodeSnapshot (nd_node_id r) (nd_run_state r) x (nd_step r) (nd_warmup r) (nd_losses r)
    (nd_health_check_steps r) (nd_last_error r) (nd_network_tx_bps r) (nd_network_rx_bps r) (nd_p2p
    r) (nd_train r) (nd_cooldown r) (nd_last_resource r).
Definition set_nd_step (x : Z) (r : NodeSnapshot) : NodeSnapshot :=
  mkNodeSnapshot (nd_node_id r) (nd_run_state r) (nd_epoch r) x (nd_warmup r) (nd_losses r)
    (nd_health_check_steps r) (nd_last_error r) (nd_network_tx_bps r) (nd_network_rx_bps r) (nd_p2p
    r) (nd_train r) (nd_cooldown r) (nd_last_resource r).
Definition set_nd_warmup (x : WarmupSnapshot) (r : NodeSnapshot) : NodeSnapshot :=
  mkNodeSnapshot (nd_node_id r) (nd_run_state r) (nd_epoch r) (nd_step r) x (nd_losses r)
    (nd_health_check_steps r) (nd_last_error r) (nd_network_tx_bps r) (nd_network_rx_bps r) (nd_p2p
    r) (nd_train r) (nd_cooldown r) (nd_last_resource r).
Definition set_nd_losses (x : list (Z * f64)) (r : NodeSnapshot) : NodeSnapshot :=
  mkNodeSnapshot (nd_node_id r) (nd_run_state r) (nd_epoch r) (nd_step r) (nd_warmup r) x
    (nd_health_check_steps r) (nd_last_error r) (nd_network_tx_bps r) (nd_network_rx_bps r) (nd_p2p
    r) (nd_train r) (nd_cooldown r) (nd_last_resource r).
Definition set_nd_health_check_steps (x : list Z) (r : NodeSnapshot) : NodeSnapshot :=
  mkNodeSnapshot (nd_node_id r) (nd_run_state r) (nd_epoch r) (nd_step r) (nd_warmup r) (nd_losses
    r) x (nd_last_error r) (nd_network_tx_bps r) (nd_network_rx_bps r) (nd_p2p r) (nd_train r)
    (nd_cooldown r) (nd_last_resource r).
Definition set_nd_last_error (x : option string) (r : NodeSnapshot) : NodeSnapshot :=
  mkNodeSnapshot (nd_node_id r) (nd_run_state r) (nd_epoch r) (nd_step r) (nd_warmup r) (nd_losses
    r) (nd_health_check_steps r) x (nd_network_tx_bps r) (nd_network_rx_bps r) (nd_p2p r) (nd_train
    r) (nd_cooldown r) (nd_last_resource r).
Definition set_nd_network_tx_bps (x : option Z) (r : NodeSnapshot) : NodeSnapshot :=
  mkNodeSnapshot (nd_node_id r) (nd_run_state r) (nd_epoch r) (nd_step r) (nd_warmup r) (nd_losses
    r) (nd_health_check_steps r) (nd_last_error r) x (nd_network_rx_bps r) (nd_p2p r) (nd_train r)
    (nd_cooldown r) (nd_last_resource r).
Definition set_nd_network_rx_bps (x : option Z) (r : NodeSnapshot) : NodeSnapshot :=
  mkNodeSnapshot (nd_node_id r) (nd_run_state r) (nd_epoch r) (nd_step r) (nd_warmup r) (nd_losses
    r) (nd_health_check_steps r) (nd_last_error r) (nd_network_tx_bps r) x (nd_p2p r) (nd_train r)
    (nd_cooldown r) (nd_last_resource r).
Definition set_nd_p2p (x : P2PSnapshot) (r : NodeSnapshot) : NodeSnapshot :=
  mkNodeSnapshot (nd_node_id r) (nd_run_state r) (nd_epoch r) (nd_step r) (nd_warmup r) (nd_losses
    r) (nd_health_check_steps r) (nd_last_error r) (nd_network_tx_bps r) (nd_network_rx_bps r) x
    (nd_train r) (nd_cooldown r) (nd_last_resource r).
Definition set_nd_train (x : TrainSnapshot) (r : NodeSnapshot) : NodeSnapshot :=
  mkNodeSnapshot (nd_node_id r) (nd_run_state r) (nd_epoch r) (nd_step r) (nd_warmup r) (nd_losses
    r) (nd_health_check_steps r) (nd_last_error r) (nd_network_tx_bps r) (nd_network_rx_bps r)
    (nd_p2p r) x (nd_cooldown r) (nd_last_resource r).
Definition set_nd_cooldown (x : CooldownSnapshot) (r : NodeSnapshot) : NodeSnapshot :=
  mkNodeSnapshot (nd_node_id r) (nd_run_state r) (nd_epoch r) (nd_step r) (nd_warmup r) (nd_losses
    r) (nd_health_check_steps r) (nd_last_error r) (nd_network_tx_bps r) (nd_network_rx_bps r)
    (nd_p2p r) (nd_train r) x (nd_last_resource r).
Definition set_nd_last_resource (x : option (Z * ResourceSnapshot)) (r : NodeSnapshot) : NodeSnapshot :=
  mkNodeSnapshot (nd_node_id r) (nd_run_state r) (nd_epoch r) (nd_step r) (nd_warmup r) (nd_losses
    r) (nd_health_check_steps r) (nd_last_error r) (nd_network_tx_bps r) (nd_network_rx_bps r)
    (nd_p2p r) (nd_train r) (nd_cooldown r) x.
Definition set_cl_timestamp (x : Z) (r : ClusterSnapshot) : ClusterSnapshot :=
  mkCluster x (cl_coordinator r) (cl_nodes r) (cl_step_batches r) (cl_prev_step_batches r)
    (cl_blob_to_batch r) (cl_applied_by r) (cl_prev_applied_by r) (cl_step_witnesses r).
Definition set_cl_coordinator (x : option CoordinatorStateSnapshot) (r : ClusterSnapshot) : ClusterSnapshot :=
  mkCluster (cl_timestamp r) x (cl_nodes r) (cl_step_batches r) (cl_prev_step_batches r)
    (cl_blob_to_batch r) (cl_applied_by r) (cl_prev_applied_by r) (cl_step_witnesses r).
Definition set_cl_nodes (x : gmap string NodeSnapshot) (r : ClusterSnapshot) : ClusterSnapshot :=
  mkCluster (cl_timestamp r) (cl_coordinator r) x (cl_step_batches r) (cl_prev_step_batches r)
    (cl_blob_to_batch r) (cl_applied_by r) (cl_prev_applied_by r) (cl_step_witnesses r).
Definition set_cl_step_batches (x : gmap BatchId ClusterBatchView) (r : ClusterSnapshot) : ClusterSnapshot :=
  mkCluster (cl_timestamp r) (cl_coordinator r) (cl_nodes r) x (cl_prev_step_batches r)
    (cl_blob_to_batch r) (cl_applied_by r) (cl_prev_applied_by r) (cl_step_witnesses r).
Definition set_cl_prev_step_batches (x : gmap BatchId ClusterBatchView) (r : ClusterSnapshot) : ClusterSnapshot :=
  mkCluster (cl_timestamp r) (cl_coordinator r) (cl_nodes r) (cl_step_batches r) x (cl_blob_to_batch
    r) (cl_applied_by r) (cl_prev_applied_by r) (cl_step_witnesses r).
Definition set_cl_blob_to_batch (x : gmap BlobHash BatchId) (r : ClusterSnapshot) : ClusterSnapshot :=
  mkCluster (cl_timestamp r) (cl_coordinator r) (cl_nodes r) (cl_step_batches r)
    (cl_prev_step_batches r) x (cl_applied_by r) (cl_prev_applied_by r) (cl_step_witnesses r).
Definition set_cl_applied_by (x : gset string) (r : ClusterSnapshot) : ClusterSnapshot :=
  mkCluster (cl_timestamp r) (cl_coordinator r) (cl_nodes r) (cl_step_batches r)
    (cl_prev_step_batches r) (cl_blob_to_batch r) x (cl_prev_applied_by r) (cl_step_witnesses r).
Definition set_cl_prev_applied_by (x : gset string) (r : ClusterSnapshot) : ClusterSnapshot :=
  mkCluster (cl_timestamp r) (cl_coordinator r) (cl_nodes r) (cl_step_batches r)
    (cl_prev_step_batches r) (cl_blob_to_batch r) (cl_applied_by r) x (cl_step_witnesses r).
Definition set_cl_step_witnesses (x : gmap string WitnessStatus) (r : ClusterSnapshot) : ClusterSnapshot :=
  mkCluster (cl_timestamp r) (cl_coordinator r) (cl_nodes r) (cl_step_batches r)
    (cl_prev_step_batches r) (cl_blob_to_batch r) (cl_applied_by r) (cl_prev_applied_by r) x.

Definition WarmupSnapshot_default : WarmupSnapshot := mkWarmupSnapshot Idle None 0 false.
Definition P2PSnapshot_default : P2PSnapshot := mkP2PSnapshot ∅ ∅ ∅ 0 0 0.
Definition TrainSnapshot_default : TrainSnapshot := mkTrainSnapshot 0 ∅ false None None [].
Definition CooldownSnapshot_default : CooldownSnapshot :=
  mkCooldownSnapshot false None None None 0 None None.
Definition NodeBatchStatus_default : NodeBatchStatus := mkNodeBatchStatus false NotStarted None.
Definition ClusterBatchView_default : ClusterBatchView := mkBatchView None None None false ∅.

Definition NodeSnapshot_new (node_id : string) : NodeSnapshot :=
  mkNodeSnapshot node_id None 0 0 WarmupSnapshot_default [] [] None None None P2PSnapshot_default
    TrainSnapshot_default CooldownSnapshot_default None.

(** [ClusterSnapshot::new] at the time [now]. *)
Definition ClusterSnapshot_new (now : Z) : ClusterSnapshot := mkCluster now None ∅ ∅ ∅ ∅ ∅ ∅ ∅.

(** ** Events of one node *)

Definition on_train (f : TrainSnapshot → TrainSnapshot) (n : NodeSnapshot) : NodeSnapshot :=
  set_nd_train (f (nd_train n)) n.
Definition on_warmup (f : WarmupSnapshot → WarmupSnapshot) (n : NodeSnapshot) : NodeSnapshot :=
  set_nd_warmup (f (nd_warmup n)) n.
Definition on_cooldown (f : CooldownSnapshot → CooldownSnapshot) (n : NodeSnapshot) : NodeSnapshot :=
  set_nd_cooldown (f (nd_cooldown n)) n.
Definition on_p2p (f : P2PSnapshot → P2PSnapshot) (n : NodeSnapshot) : NodeSnapshot :=
  set_nd_p2p (f (nd_p2p n)) n.

Definition apply_client_event (e : ClientEvent) (n : NodeSnapshot) : NodeSnapshot :=
  match e with
  | StateChanged _ new_state epoch step =>
      let n := set_nd_step step (set_nd_epoch epoch (set_nd_run_state (Some new_state) n)) in
      let n := if bool_decide (new_state = WaitingForMembers)
               then set_nd_warmup WarmupSnapshot_default n else n in
      if bool_decide (new_state = Cooldown) then set_nd_cooldown CooldownSnapshot_default n else n
  | HealthCheckFailed _ round => set_nd_health_check_steps (nd_health_check_steps n ++ [round]) n
  | ErrorEvent message => set_nd_last_error (Some message) n
  | WarningEvent _ => n
  end.

Definition apply_train_event (e : TrainEvent) (n : NodeSnapshot) : NodeSnapshot :=
  match e with
  | BatchAssigned b =>
      on_train (λ t, set_tn_witness None (set_tn_training_in_progress false
        (set_tn_batch_downloads
           (match tn_batch_downloads t !! b with
            | Some _ => tn_batch_downloads t
            | None => <[b := None]> (tn_batch_downloads t)
            end)
           (set_tn_batches_assigned (as_u64 (tn_batches_assigned t + 1)) t)))) n
  | BatchDataDownloadStart => n
  | BatchDataDownloadComplete ok =>
      on_train (λ t, set_tn_batch_downloads
        ((λ d, match d with None => Some ok | Some _ => d end) <$> tn_batch_downloads t) t) n
  | TrainingStarted _ => on_train (set_tn_training_in_progress true) n
  | TrainingFinished _ step loss =>
      let n := on_train (set_tn_training_in_progress false) n in
      let n := match loss with
               | Some l => set_nd_losses (nd_losses n ++ [(step, l)]) n
               | None => n
               end in
      set_nd_step step n
  | WitnessElected step round epoch index position _ =>
      on_train (set_tn_witness (Some (mkWitnessInfo step round epoch index position))) n
  | UntrainedBatchWarning b expected =>
      on_train (λ t, set_tn_untrained_warnings (tn_untrained_warnings t ++ [(b, expected)]) t) n
  | DistroResultDeserializeStarted _ | DistroResultDeserializeComplete _ _ => n
  | ApplyDistroResultsStart => on_train (set_tn_last_distro_ok None) n
  | ApplyDistroResultsComplete r => on_train (set_tn_last_distro_ok (Some (succeeded r))) n
  | DistroResultAddedToConsensus _ => n
  end.

Definition apply_warmup_event (e : WarmupEvent) (n : NodeSnapshot) : NodeSnapshot :=
  match e with
  | P2PParamInfoRequest _ | P2PParamInfoResponse =>
      if bool_decide (wu_phase (nd_warmup n) = Idle) then on_warmup (set_wu_phase NegotiatingP2P) n else n
  | CheckpointDownloadStarted size =>
      on_warmup (λ w, set_wu_download_bytes 0 (set_wu_download_total_bytes
        (if 0 <? size then Some size else None) (set_wu_phase PhaseDownloading w))) n
  | CheckpointDownloadProgress bytes => on_warmup (set_wu_download_bytes bytes) n
  | CheckpointDownloadComplete _ => n
  | ModelLoadStarted => on_warmup (set_wu_phase LoadingModel) n
  | ModelLoadComplete => on_warmup (λ w, set_wu_model_loaded true (set_wu_phase Complete w)) n
  end.

Definition apply_cooldown_event (e : CooldownEvent) (n : NodeSnapshot) : NodeSnapshot :=
  match e with
  | ModelSerializationStarted => on_cooldown (set_cd_is_checkpointer true) n
  | ModelSerializationFinished ok err =>
      on_cooldown (λ c, set_cd_serialization_error err (set_cd_serialization_ok (Some ok) c)) n
  | CheckpointWriteStarted => n
  | CheckpointWriteFinished ok _ => on_cooldown (set_cd_checkpoint_write_ok (Some ok)) n
  | CheckpointUploadStarted => n
  | CheckpointUploadProgress bytes => on_cooldown (set_cd_upload_bytes bytes) n
  | CheckpointUploadFinished ok err =>
      let n := on_cooldown (λ c, set_cd_upload_error err (set_cd_upload_ok (Some ok) c)) n in
      if ok then set_nd_warmup WarmupSnapshot_default n else n
  end.

Definition apply_p2p_event (e : P2PEvent) (n : NodeSnapshot) : NodeSnapshot :=
  match e with
  | ConnectionChanged i path =>
      on_p2p (λ p, set_pp_peers
        (<[i := mkPeerInfo path (pp_peers p !! i ≫= pi_latency_ms)]> (pp_peers p)) p) n
  | GossipNeighborUp i => on_p2p (λ p, set_pp_gossip_neighbors ({[i]} ∪ pp_gossip_neighbors p) p) n
  | GossipNeighborDown i => on_p2p (λ p, set_pp_gossip_neighbors (pp_gossip_neighbors p ∖ {[i]}) p) n
  | GossipLagged => n
  | ConnectionLatencyChanged i ms =>
      on_p2p (λ p, set_pp_peers (alter (set_pi_latency_ms (Some ms)) i (pp_peers p)) p) n
  | BlobAddedToStore _ _ =>
      on_p2p (λ p, set_pp_blobs_in_store (as_u64 (pp_blobs_in_store p + 1)) p) n
  | BlobUploadStarted _ _ | BlobUploadProgress _ | BlobUploadCompleted _ _ => n
  | BlobDownloadStarted b size =>
      on_p2p (λ p, set_pp_downloads (<[b := mkBlobDownload size 0 None]> (pp_downloads p)) p) n
  | BlobDownloadProgress b bytes =>
      on_p2p (λ p, set_pp_downloads (alter (set_bd_bytes_transferred bytes) b (pp_downloads p)) p) n
  | BlobDownloadCompleted b r =>
      on_p2p (λ p, set_pp_downloads (alter (set_bd_result (Some r)) b (pp_downloads p)) p) n
  | GossipTrainingResultSent | GossipFinishedSent =>
      on_p2p (λ p, set_pp_gossip_sent (as_u32 (pp_gossip_sent p + 1)) p) n
  | GossipTrainingResultReceived _ _ | GossipFinishedReceived =>
      on_p2p (λ p, set_pp_gossip_recv (as_u32 (pp_gossip_recv p + 1)) p) n
  | BlobDownloadRequested _ | BlobDownloadTryProvider _ _ | BlobDownloadProviderFailed _ _ => n
  end.

(** [(t - t').num_milliseconds() as u64 / 1000]. *)
Definition elapsed_secs (t t' : Z) : Z := as_u64 (Z.quot (t - t') (10 ^ 6)) / 1000.
Definition saturating_sub (a b : Z) : Z := Z.max 0 (a - b).

Definition apply_resource (t : Z) (r : ResourceSnapshot) (n : NodeSnapshot) : NodeSnapshot :=
  let n := match nd_last_resource n with
           | Some (prev_ts, prev) =>
               let dt := elapsed_secs t prev_ts in
               if 0 <? dt then
                 set_nd_network_rx_bps (Some (saturating_sub (rc_network_bytes_recv_total r)
                                                (rc_network_bytes_recv_total prev) / dt))
                   (set_nd_network_tx_bps (Some (saturating_sub (rc_network_bytes_sent_total r)
                                                   (rc_network_bytes_sent_total prev) / dt)) n)
               else n
           | None => n
           end in
  set_nd_last_resource (Some (t, r)) n.

(** The first phase of [apply_node_event]. *)
Definition apply_to_node (e : Event) (n : NodeSnapshot) : NodeSnapshot :=
  match ev_data e with
  | EClient c => apply_client_event c n
  | ETrain t => apply_train_event t n
  | EWarmup w => apply_warmup_event w n
  | ECooldown c => apply_cooldown_event c n
  | EP2P p => apply_p2p_event p n
  | EResource r => apply_resource (ev_timestamp e) r n
  | ERunStarted _ | ECoordinator _ => n
  end.

(** ** The view of the cluster *)

(** The batch is of the previous step and not of the current one. *)
Definition in_prev (b : BatchId) (s : ClusterSnapshot) : bool :=
  bool_decide (cl_step_batches s !! b = None) && bool_decide (is_Some (cl_prev_step_batches s !! b)).

Definition on_batch (b : BatchId) (f : ClusterBatchView → ClusterBatchView) (s : ClusterSnapshot) :
    ClusterSnapshot :=
  if in_prev b s then set_cl_prev_step_batches (alter f b (cl_prev_step_batches s)) s
  else set_cl_step_batches (alter f b (cl_step_batches s)) s.

(** [entry(node_id).or_default()]. *)
Definition on_status (node_id : string) (f : NodeBatchStatus → NodeBatchStatus) (v : ClusterBatchView) :
    ClusterBatchView :=
  set_bv_node_status
    (<[node_id := f (default NodeBatchStatus_default (bv_node_status v !! node_id))]> (bv_node_status v)) v.

(** The batch a blob was announced for. *)
Definition on_blob (blob : BlobHash) (f : ClusterBatchView → ClusterBatchView) (s : ClusterSnapshot) :
    ClusterSnapshot :=
  match cl_blob_to_batch s !! blob with Some b => on_batch b f s | None => s end.

Definition mark_downloaded (node_id : string) (ok : bool) (v : ClusterBatchView) : ClusterBatchView :=
  if bool_decide (bv_assigned_to v = Some node_id) && bool_decide (bv_data_downloaded v = None)
  then set_bv_data_downloaded (Some ok) v else v.

Definition is_witness_call (c : RpcCallType) : bool :=
  match c with RpcWitness | RpcWarmupWitness => true | _ => false end.

(** The second phase of [apply_node_event]. *)
Definition apply_to_cluster (node_id : string) (e : EventData) (s : ClusterSnapshot) : ClusterSnapshot :=
  match e with
  | ETrain (BatchDataDownloadComplete ok) =>
      set_cl_prev_step_batches (mark_downloaded node_id ok <$> cl_prev_step_batches s)
        (set_cl_step_batches (mark_downloaded node_id ok <$> cl_step_batches s) s)
  | ETrain (TrainingFinished b _ _) => on_batch b (set_bv_trained true) s
  | ETrain (ApplyDistroResultsComplete r) =>
      if succeeded r then set_cl_applied_by ({[node_id]} ∪ cl_applied_by s) s else s
  | ETrain (WitnessElected step round epoch index position is_witness) =>
      if is_witness then
        set_cl_step_witnesses (<[node_id := mkWitnessStatus
          (mkWitnessInfo step round epoch index position) false None]> (cl_step_witnesses s)) s
      else s
  | ETrain (DistroResultDeserializeComplete blob r) =>
      on_blob blob (on_status node_id (set_nb_deserialized (Some (succeeded r)))) s
  | EP2P (GossipTrainingResultReceived blob b) =>
      on_batch b (λ v,
        on_status node_id (set_nb_gossip_received true)
          (match bv_blob v with None => set_bv_blob (Some blob) v | Some _ => v end))
        (set_cl_blob_to_batch (<[blob := b]> (cl_blob_to_batch s)) s)
  | EP2P (BlobDownloadStarted blob _) => on_blob blob (on_status node_id (set_nb_download InProgress)) s
  | EP2P (BlobDownloadCompleted blob r) =>
      on_blob blob (on_status node_id (set_nb_download (if succeeded r then Success else Failed))) s
  | ECoordinator (RpcCallSubmitted c) =>
      if is_witness_call c
      then set_cl_step_witnesses (alter (set_wt_submitted true) node_id (cl_step_witnesses s)) s
      else s
  | ECoordinator (RpcCallResult c r) =>
      if is_witness_call c
      then set_cl_step_witnesses (alter (set_wt_rpc_result (Some (succeeded r))) node_id
             (cl_step_witnesses s)) s
      else s
  | _ => s
  end.

Definition apply_node_event (node_id : string) (e : Event) (s : ClusterSnapshot) : ClusterSnapshot :=
  let s := set_cl_timestamp (ev_timestamp e) s in
  let n := default (NodeSnapshot_new node_id) (cl_nodes s !! node_id) in
  let s := set_cl_nodes (<[node_id := apply_to_node e n]> (cl_nodes s)) s in
  apply_to_cluster node_id (ev_data e) s.

(** The views a new step starts with, and late assignments of the same step. *)
Definition seed_views (l : list (BatchId * string)) : gmap BatchId ClusterBatchView :=
  foldl (λ m '(b, node_id), <[b := set_bv_assigned_to (Some node_id) ClusterBatchView_default]> m) ∅ l.
Definition refresh_views (l : list (BatchId * string)) (m : gmap BatchId ClusterBatchView) :
    gmap BatchId ClusterBatchView :=
  foldl (λ m '(b, node_id),
    <[b := set_bv_assigned_to (Some node_id) (default ClusterBatchView_default (m !! b))]> m) m l.

Definition apply_coordinator (u : CoordinatorStateSnapshot) (s : ClusterSnapshot) : ClusterSnapshot :=
  let s := set_cl_timestamp (cu_timestamp u) s in
  let s :=
    if bool_decide (cu_step <$> cl_coordinator s = Some (cu_step u)) then
      set_cl_step_batches (refresh_views (cu_batch_assignments u) (cl_step_batches s)) s
    else
      set_cl_step_batches (seed_views (cu_batch_assignments u))
        (set_cl_step_witnesses ∅ (set_cl_blob_to_batch ∅
          (set_cl_applied_by ∅ (set_cl_prev_applied_by (cl_applied_by s)
            (set_cl_prev_step_batches (cl_step_batches s) s))))) in
  set_cl_coordinator (Some u) s.
