(* ===== verification/EventStore.v ===== *)
(** * The event store

    src/shared/event-sourcing/src/store.rs: frames of events in a file, reading them back
    past damaged ones, and the writer that starts a new file for every epoch.

    One frame is the COBS encoding of an event: bytes other than zero, then a zero.  The
    encoding itself is the library's, so it is a parameter with that as its law. *)

From stdpp Require Import base tactics list numbers decidable gmap strings.
From S2P Require Import Prelude CoreTypes CoordinatorState Projection.

Open Scope Z_scope.

Section Frames.
Context {T : Type} (from_bytes_cobs : list Z → option T).

(** [try_decode_cobs_frame] from the cursor on: the decoded value, and the bytes after the
    new cursor.  [frame] are the bytes already seen of the current frame. *)
Fixpoint decode_from (frame data : list Z) : option T * list Z :=
  match data with
  | [] => (None, [])
  | b :: data' =>
      if b =? 0 then
        match from_bytes_cobs (frame ++ [b]) with
        | Some decoded => (Some decoded, data')
        | None => decode_from [] data'
        end
      else decode_from (frame ++ [b]) data'
  end.
Definition try_decode_cobs_frame (data : list Z) : option T * list Z := decode_from [] data.

(** [while cursor < data.len() { match try_decode … { Some => push, None => break } }]; every
    turn but the last takes a byte, so the length of the data bounds the turns. *)
Fixpoint read_loop (fuel : nat) (data : list Z) : list T * list Z :=
  match fuel, data with
  | S fuel', _ :: _ =>
      match try_decode_cobs_frame data with
      | (Some e, rest) => let '(es, rest') := read_loop fuel' rest in (e :: es, rest')
      | (None, rest) => ([], rest)
      end
  | _, _ => ([], data)
  end.
Definition read_frames (data : list Z) : list T * list Z := read_loop (length data) data.

(** ** What is read back *)

(** A frame: no zero but the last byte. *)
Definition framed (f : list Z) : Prop := ∃ body, f = body ++ [0] ∧ Forall (λ b, b ≠ 0) body.

Lemma decode_skips frame body rest : Forall (λ b, b ≠ 0) body →
  decode_from frame (body ++ rest) = decode_from (frame ++ body) rest.
Proof.
  revert frame. induction body as [|b body IH]; intros frame Hb; [by rewrite app_nil_r|].
  apply list.Forall_cons in Hb as [Hne Hb]. cbn. rewrite (proj2 (Z.eqb_neq b 0)) by done.
  rewrite IH by done. by rewrite <- app_assoc.
Qed.

Lemma decode_framed f rest : framed f →
  decode_from [] (f ++ rest) =
    match from_bytes_cobs f with Some e => (Some e, rest) | None => decode_from [] rest end.
Proof.
  intros (body & -> & Hb). rewrite <- app_assoc, decode_skips by done. done.
Qed.

(** Complete frames that decode to nothing are passed over. *)
Lemma decode_damaged fs rest : Forall framed fs → Forall (λ f, from_bytes_cobs f = None) fs →
  decode_from [] (concat fs ++ rest) = decode_from [] rest.
Proof.
  intros Hf Hd. induction fs as [|f fs IH]; [done|].
  apply list.Forall_cons in Hf as [Hf Hfs], Hd as [Hd Hds]. cbn [concat].
  rewrite <- app_assoc, decode_framed by done. rewrite Hd. by apply IH.
Qed.

Lemma framed_nonempty f : framed f → f ≠ [].
Proof. intros (body & -> & _). by destruct body. Qed.

Lemma decode_crash_tail tail : Forall (λ b, b ≠ 0) tail → decode_from [] tail = (None, []).
Proof. intros Ht. rewrite <- (app_nil_r tail) at 1. by rewrite decode_skips. Qed.

(** Enough turns for the frames that are there. *)
Lemma read_loop_frames fuel fs tail : Forall framed fs → Forall (λ b, b ≠ 0) tail →
  (length (concat fs ++ tail) <= fuel)%nat →
  read_loop fuel (concat fs ++ tail) = (omap from_bytes_cobs fs, []).
Proof.
  revert fs. induction fuel as [|fuel IH]; intros fs Hf Ht Hlen.
  - destruct (concat fs ++ tail) eqn:Hd; [|cbn in Hlen; lia].
    destruct fs as [|f fs]; [done|]. apply list.Forall_cons in Hf as [Hf _].
    cbn in Hd. apply app_eq_nil in Hd as [Hd _]. apply app_eq_nil in Hd as [Hd _].
    by apply framed_nonempty in Hf.
  - (* the damaged frames up to the first good one *)
    assert (Hsplit : (Forall (λ f, from_bytes_cobs f = None) fs) ∨
      ∃ bad f e good, fs = bad ++ f :: good ∧ Forall (λ f, from_bytes_cobs f = None) bad ∧
        from_bytes_cobs f = Some e).
    { clear. induction fs as [|f fs IH]; [by left; constructor|].
      destruct (from_bytes_cobs f) as [e|] eqn:He; [right; exists [], f, e, fs; by repeat constructor|].
      destruct IH as [IH|(bad & g & e & good & -> & Hb & Hg)]; [left; by constructor|right].
      exists (f :: bad), g, e, good. split_and!; [done|by constructor|done]. }
    cbn [read_loop]. destruct (concat fs ++ tail) as [|b data] eqn:Hd.
    { destruct fs as [|f fs]; [done|]. apply list.Forall_cons in Hf as [Hf _].
      cbn in Hd. apply app_eq_nil in Hd as [Hd _]. apply app_eq_nil in Hd as [Hd _].
      by apply framed_nonempty in Hf. }
    rewrite <- Hd in *. clear b data Hd. unfold try_decode_cobs_frame.
    destruct Hsplit as [Hbad|(bad & f & e & good & -> & Hbad & He)].
    + rewrite decode_damaged, decode_crash_tail by done. f_equal. symmetry.
      clear -Hbad. induction fs as [|f fs IH]; [done|]. apply list.Forall_cons in Hbad as [Hf Hbad].
      cbn. rewrite Hf. by apply IH.
    + apply list.Forall_app in Hf as [Hf1 Hf2]. apply list.Forall_cons in Hf2 as [Hf2 Hf3].
      rewrite concat_app, <- app_assoc, decode_damaged by done. cbn [concat].
      rewrite <- app_assoc, decode_framed by done. rewrite He.
      rewrite IH; [|done|done|].
      * f_equal. rewrite omap_app. cbn. rewrite He.
        assert (Hn : omap from_bytes_cobs bad = []).
        { clear -Hbad. induction bad as [|g bad IH]; [done|]. apply list.Forall_cons in Hbad as [Hg Hbad].
          cbn. rewrite Hg. by apply IH. }
        by rewrite Hn.
      * rewrite concat_app, !length_app in Hlen. cbn in Hlen. rewrite !length_app in Hlen.
        pose proof (framed_nonempty f Hf2). destruct f; [done|]. cbn in Hlen. rewrite length_app. lia.
Qed.

Lemma read_frames_run fs tail : Forall framed fs → Forall (λ b, b ≠ 0) tail →
  read_frames (concat fs ++ tail) = (omap from_bytes_cobs fs, []).
Proof. intros. by apply read_loop_frames. Qed.
End Frames.

(** ** The in-memory backend *)

Record InMemoryBackend := mkInMemory {
  im_events : list Event;
  im_run_context : option RunStarted;
}.

Definition im_push (e : Event) (b : InMemoryBackend) : InMemoryBackend :=
  mkInMemory (im_events b ++ [e])
    (match ev_data e with ERunStarted r => Some r | _ => im_run_context b end).

(** [EventStore::import_streamed_file] on the bytes of the file. *)
Definition import_streamed_file (from_bytes_cobs : list Z → option Event) (data : list Z)
    (b : InMemoryBackend) : InMemoryBackend :=
  foldl (λ b e, im_push e b) b (read_frames from_bytes_cobs data).1.

Lemma import_events codec data b :
  im_events (import_streamed_file codec data b) = im_events b ++ (read_frames codec data).1.
Proof.
  unfold import_streamed_file. generalize (read_frames codec data).1 as es. intros es. revert b.
  induction es as [|e es IH]; intros b; [by rewrite app_nil_r|]. cbn. rewrite IH. cbn.
  by rewrite <- app_assoc.
Qed.

(** ** The writer

    A file is the list of events in it.  Its name holds the epoch and the time it was
    opened at; failing writes are logged by the code and are not modelled. *)

Record FileWriterState := mkWriter {
  fw_output_file : string;
  fw_current_epoch : Z;
  fw_run_context : RunStarted;
  fw_keep_files : option Z;
  fw_created_files : list string;
  fw_disk : gmap string (list Event);
}.

Section Writer.
Context (file_name : Z → Z → string).

(** Opening a file writes the run's context as its first event. *)
Definition open_new_file (now epoch : Z) (context : RunStarted) (disk : gmap string (list Event)) :
    string * gmap string (list Event) :=
  let path := file_name epoch now in
  (path, <[path := [mkEvent now (ERunStarted context)]]> disk).

Definition writer_new (now epoch : Z) (context : RunStarted) (keep : option Z)
    (disk : gmap string (list Event)) : FileWriterState :=
  let '(path, disk) := open_new_file now epoch context disk in
  mkWriter path epoch context keep [path] disk.

Definition write_event (e : Event) (w : FileWriterState) : FileWriterState :=
  mkWriter (fw_output_file w) (fw_current_epoch w) (fw_run_context w) (fw_keep_files w)
    (fw_created_files w) (alter (λ es, es ++ [e]) (fw_output_file w) (fw_disk w)).

(** [while len > keep]: the oldest files go. *)
Fixpoint drop_files (excess : nat) (created : list string) (disk : gmap string (list Event)) :
    list string * gmap string (list Event) :=
  match excess, created with
  | S n, old :: created' => drop_files n created' (delete old disk)
  | _, _ => (created, disk)
  end.

Definition excess_files (keep : option Z) (created : list string) : nat :=
  match keep with Some k => Z.to_nat (zlen created - k) | None => 0 end.

Definition rotate (now new_epoch : Z) (w : FileWriterState) : FileWriterState :=
  let '(path, disk) := open_new_file now new_epoch (fw_run_context w) (fw_disk w) in
  let created := fw_created_files w ++ [path] in
  let '(created, disk) := drop_files (excess_files (fw_keep_files w) created) created disk in
  mkWriter path new_epoch (fw_run_context w) (fw_keep_files w) created disk.

(** One message of the backend's channel. *)
Definition handle_event (now : Z) (e : Event) (w : FileWriterState) : FileWriterState :=
  match ev_data e with
  | EClient (StateChanged _ _ epoch _) =>
      if fw_current_epoch w <? epoch then rotate now epoch (write_event e w) else write_event e w
  | _ => write_event e w
  end.

(** Messages with the times they are handled at. *)
Definition write_all (msgs : list (Z * Event)) (w : FileWriterState) : FileWriterState :=
  foldl (λ w '(now, e), handle_event now e w) w msgs.

(** *** What stays on disk *)

Definition contents (w : FileWriterState) : list Event :=
  concat ((λ path, tail (default [] (fw_disk w !! path))) <$> fw_created_files w).

(** The files are distinct, the last is the one written to, each starts with the run's
    context, and together they hold the last of the events handled (all of them when no
    file is ever deleted). *)
Record writer_ok (w : FileWriterState) (written : list Event) : Prop := {
  wo_last : last (fw_created_files w) = Some (fw_output_file w);
  wo_names : ∀ path, path ∈ fw_created_files w →
    ∃ epoch now, path = file_name epoch now ∧ epoch <= fw_current_epoch w;
  wo_distinct : NoDup (fw_created_files w);
  wo_files : ∀ path, path ∈ fw_created_files w →
    ∃ t es, fw_disk w !! path = Some (mkEvent t (ERunStarted (fw_run_context w)) :: es);
  wo_contents : contents w `suffix_of` written;
  wo_all : fw_keep_files w = None → contents w = written;
  wo_count : ∀ k, fw_keep_files w = Some k → 1 <= k ∧ zlen (fw_created_files w) <= k;
}.

Definition file_events (disk : gmap string (list Event)) (path : string) : list Event :=
  tail (default [] (disk !! path)).

Lemma file_events_ext disk disk' paths : (∀ p, p ∈ paths → disk' !! p = disk !! p) →
  concat (file_events disk' <$> paths) = concat (file_events disk <$> paths).
Proof.
  intros Heq. f_equal. apply list_fmap_ext. intros i p Hp. unfold file_events.
  by rewrite Heq by (by eapply list_elem_of_lookup_2).
Qed.

Lemma writer_new_ok now epoch context keep disk : (∀ k, keep = Some k → 1 <= k) →
  writer_ok (writer_new now epoch context keep disk) [].
Proof.
  intros Hk. unfold writer_new, open_new_file.
  assert (Hc : contents (mkWriter (file_name epoch now) epoch context keep [file_name epoch now]
    (<[file_name epoch now := [mkEvent now (ERunStarted context)]]> disk)) = []).
  { unfold contents. cbn. by rewrite lookup_insert_eq. }
  split; cbn [fw_created_files fw_output_file fw_current_epoch fw_disk fw_run_context fw_keep_files].
  - done.
  - intros path ->%list_elem_of_singleton. by exists epoch, now.
  - apply NoDup_singleton.
  - intros path ->%list_elem_of_singleton. rewrite lookup_insert_eq. by eexists _, _.
  - by rewrite Hc.
  - by rewrite Hc.
  - intros k Hkk. specialize (Hk k Hkk). unfold zlen. cbn. lia.
Qed.

Lemma write_event_ok e w written : writer_ok w written → writer_ok (write_event e w) (written ++ [e]).
Proof.
  intros [Hlast Hnames Hnd Hfiles Hsuf Hall Hcount].
  assert (Hc : contents (write_event e w) = contents w ++ [e]).
  { unfold contents. cbn [fw_created_files fw_disk write_event]. fold (file_events (fw_disk w)).
    change (concat (file_events (alter (λ es, es ++ [e]) (fw_output_file w) (fw_disk w)) <$> fw_created_files w)
      = concat (file_events (fw_disk w) <$> fw_created_files w) ++ [e]).
    pose proof (Hfiles (fw_output_file w)) as Hout. apply last_Some in Hlast as [init Hinit].
    rewrite Hinit in Hnd, Hout |- *. apply NoDup_app in Hnd as (_ & Hnot & _).
    rewrite !fmap_app, !concat_app. rewrite (file_events_ext (fw_disk w) _ init).
    2:{ intros p Hp. apply lookup_alter_ne. intros <-. apply (Hnot _ Hp). by left. }
    destruct Hout as (t & es & Hout); [set_solver|]. cbn. unfold file_events.
    rewrite lookup_alter_eq, Hout. cbn. by rewrite !app_nil_r, app_assoc. }
  split; cbn [fw_created_files fw_output_file fw_current_epoch fw_disk fw_run_context fw_keep_files write_event];
    [done..| | | |done].
  - intros path Hin. destruct (Hfiles path Hin) as (t & es & Hp).
    destruct (decide (path = fw_output_file w)) as [->|Hne].
    + rewrite lookup_alter_eq, Hp. by exists t, (es ++ [e]).
    + rewrite lookup_alter_ne by done. by exists t, es.
  - rewrite Hc. destruct Hsuf as [k ->]. exists k. by rewrite app_assoc.
  - intros Hk. by rewrite Hc, Hall.
Qed.

(** Dropping the oldest files keeps the others as they are. *)
Lemma drop_files_spec n created disk : NoDup created →
  let '(created', disk') := drop_files n created disk in
  created' = drop n created ∧ ∀ p, p ∈ drop n created → disk' !! p = disk !! p.
Proof.
  revert created disk. induction n as [|n IH]; intros created disk Hnd; cbn; [done|].
  destruct created as [|old created]; [done|]. apply list.NoDup_cons in Hnd as [Hnot Hnd].
  specialize (IH created (delete old disk) Hnd). destruct (drop_files n created (delete old disk)) as [c' d'].
  destruct IH as [-> Hd]. split; [done|]. intros p Hp. rewrite Hd by done. apply lookup_delete_ne.
  intros ->. apply Hnot. rewrite <- (take_drop n created). apply elem_of_app. by right.
Qed.

Context (Hepochs : ∀ e t e' t', file_name e t = file_name e' t' → e = e').

Lemma rotate_ok now new_epoch w written : writer_ok w written → fw_current_epoch w < new_epoch →
  writer_ok (rotate now new_epoch w) written.
Proof.
  intros [Hlast Hnames Hnd Hfiles Hsuf Hall Hcount] Hep. unfold rotate, open_new_file.
  set (path := file_name new_epoch now). set (disk := <[path := _]> (fw_disk w)).
  set (created := fw_created_files w ++ [path]).
  assert (Hnew : path ∉ fw_created_files w).
  { intros (e & t & Heq & Hle)%Hnames. apply Hepochs in Heq. lia. }
  assert (Hnd' : NoDup created).
  { apply NoDup_app. split_and!; [done| |apply NoDup_singleton]. intros p Hp ->%list_elem_of_singleton. done. }
  set (n := excess_files (fw_keep_files w) created).
  assert (Hn : (n <= length (fw_created_files w))%nat).
  { subst n. unfold excess_files. destruct (fw_keep_files w) as [k|] eqn:Hk; [|lia].
    destruct (Hcount k eq_refl). unfold zlen in *. unfold created. rewrite length_app. cbn. lia. }
  pose proof (drop_files_spec n created disk Hnd') as Hdrop.
  destruct (drop_files n created disk) as [created' disk']. destruct Hdrop as [-> Hdisk].
  assert (Hdc : drop n created = drop n (fw_created_files w) ++ [path]).
  { unfold created. by rewrite drop_app_le. }
  assert (Hsub : ∀ p, p ∈ drop n created → p ∈ created).
  { intros p Hp. rewrite <- (take_drop n created). apply elem_of_app. by right. }
  assert (Hkept : ∀ p, p ∈ fw_created_files w → disk !! p = fw_disk w !! p).
  { intros p Hp. apply lookup_insert_ne. by intros <-. }
  assert (Hc : contents (mkWriter path new_epoch (fw_run_context w) (fw_keep_files w) (drop n created) disk') =
    concat (file_events (fw_disk w) <$> drop n (fw_created_files w))).
  { unfold contents. cbn [fw_created_files fw_disk].
    change (concat (file_events disk' <$> drop n created) =
      concat (file_events (fw_disk w) <$> drop n (fw_created_files w))).
    rewrite (file_events_ext disk disk' _ Hdisk), Hdc, fmap_app, concat_app. cbn. unfold file_events at 2.
    unfold disk. rewrite lookup_insert_eq. cbn. rewrite app_nil_r. apply file_events_ext.
    intros p Hp. apply Hkept. rewrite <- (take_drop n (fw_created_files w)). apply elem_of_app. by right. }
  split; cbn [fw_created_files fw_output_file fw_current_epoch fw_disk fw_run_context fw_keep_files].
  - rewrite Hdc. by apply last_snoc.
  - intros p [Hp| ->%list_elem_of_singleton]%Hsub%elem_of_app; [|by exists new_epoch, now].
    destruct (Hnames p Hp) as (e & t & -> & Hle). exists e, t. split; [done|lia].
  - rewrite <- (take_drop n created) in Hnd'. by apply NoDup_app in Hnd' as (_ & _ & ?).
  - intros p Hp. rewrite (Hdisk p Hp). apply Hsub, elem_of_app in Hp as [Hp| ->%list_elem_of_singleton].
    + rewrite Hkept by done. by apply Hfiles.
    + unfold disk. rewrite lookup_insert_eq. by eexists _, _.
  - rewrite Hc. destruct Hsuf as [k Hk]. rewrite Hk. exists (k ++ concat (file_events (fw_disk w) <$> take n (fw_created_files w))).
    rewrite <- app_assoc, <- concat_app, <- fmap_app, take_drop. done.
  - intros Hk. rewrite Hc. assert (n = 0%nat) as -> by (subst n; by rewrite Hk). by apply Hall.
  - intros k Hk. destruct (Hcount k Hk) as [H1 _]. split; [done|]. unfold zlen. rewrite length_drop.
    subst n. rewrite Hk. unfold excess_files, zlen. lia.
Qed.

Lemma write_all_ok msgs w written : writer_ok w written → writer_ok (write_all msgs w) (written ++ msgs.*2).
Proof.
  revert w written. induction msgs as [|[now e] msgs IH]; intros w written Hok; [by rewrite app_nil_r|].
  cbn. change (e :: msgs.*2) with ([e] ++ msgs.*2). rewrite app_assoc. apply IH.
  pose proof (write_event_ok e w written Hok) as Hw. unfold handle_event.
  destruct (ev_data e) as [| |c| | | | |]; try done. destruct c; try done.
  destruct (Z.ltb_spec (fw_current_epoch w) epoch); [|done]. by apply rotate_ok.
Qed.

Lemma write_all_keep msgs w : fw_keep_files (write_all msgs w) = fw_keep_files w.
Proof.
  revert w. induction msgs as [|[now e] msgs IH]; intros w; [done|]. cbn. etrans; [apply IH|].
  unfold handle_event, rotate. destruct (ev_data e) as [| |c| | | | |]; try done. destruct c; try done.
  destruct (_ <? _); [|done]. cbn. by destruct (drop_files _ _ _).
Qed.

(** The files hold the recent events: whatever is recorded, every file on disk starts with
    the context of the run, the files together hold a tail of what was recorded (all of it
    when no limit is set), and there are never more files than the limit. *)
Theorem recent_events_on_disk now epoch context keep disk msgs : (∀ k, keep = Some k → 1 <= k) →
  let w := write_all msgs (writer_new now epoch context keep disk) in
  contents w `suffix_of` msgs.*2 ∧ (keep = None → contents w = msgs.*2) ∧
  (∀ path, path ∈ fw_created_files w →
     ∃ t es, fw_disk w !! path = Some (mkEvent t (ERunStarted (fw_run_context w)) :: es)) ∧
  ∀ k, keep = Some k → zlen (fw_created_files w) <= k.
Proof.
  intros Hk w. pose proof (write_all_ok msgs _ _ (writer_new_ok now epoch context keep disk Hk)) as Hok.
  assert (Hkeep : fw_keep_files w = keep) by apply write_all_keep.
  destruct Hok as [_ _ _ Hfiles Hsuf Hall Hcount]. fold w in Hfiles, Hsuf, Hall, Hcount. rewrite Hkeep in Hall, Hcount.
  split_and!; [done..|]. intros k Hkk. by destruct (Hcount k Hkk).
Qed.
End Writer.
