(* ===== verification/Timeline.v ===== *)
(** * The timeline of a cluster

    src/shared/event-sourcing/src/timeline.rs: the events of every node and the states of
    the coordinator, read from the files of an events directory, put in the order of their
    times and indexed by checkpoints, so that the picture of the cluster after any entry
    can be had without replaying the whole history.  [refresh] reads what the files have
    gained and merges it in.

    The directory is an argument: what the scan of it returns, in any order.  Decoding an
    event (postcard), a coordinator (its bytes in memory), a time (chrono) and printing an
    address (base58) are the libraries', so they are parameters.  Reporting the progress of
    a load is left out. *)

From Stdlib Require Import Ascii.
From stdpp Require Import base tactics list numbers decidable gmap sets strings sorting.
From S2P Require Import Prelude StableSort CoreTypes Hashing CoordinatorState Committee DataSelection Projection EventStore.

Open Scope Z_scope.

(** ** Entries *)

Inductive TimelineEntry :=
| TNode (timestamp : Z) (node_id : string) (event : Event)
| TCoordinator (timestamp : Z) (state : CoordinatorStateSnapshot).

Definition te_timestamp (e : TimelineEntry) : Z :=
  match e with TNode t _ _ | TCoordinator t _ => t end.
Definition te_node_id (e : TimelineEntry) : option string :=
  match e with TNode _ node_id _ => Some node_id | TCoordinator _ _ => None end.

Definition earlier (a b : TimelineEntry) : Prop := te_timestamp a <= te_timestamp b.
#[global] Instance earlier_dec : RelDecision earlier.
Proof. intros a b. unfold earlier. apply _. Defined.
#[global] Instance earlier_total : Total earlier.
Proof. intros a b. unfold earlier. lia. Qed.
#[global] Instance earlier_trans : Transitive earlier.
Proof. intros a b c. unfold earlier. lia. Qed.

(** [entries.sort_by_key(|e| e.timestamp())]. *)
Definition sort_entries (l : list TimelineEntry) : list TimelineEntry := stable_sort earlier l.

Definition apply_entry (e : TimelineEntry) (s : ClusterSnapshot) : ClusterSnapshot :=
  match e with
  | TNode _ node_id event => apply_node_event node_id event s
  | TCoordinator _ state => apply_coordinator state s
  end.

(** ** The timeline *)

Definition COORDINATOR_SUBDIR : string := "coordinator".
Definition CHECKPOINT_INTERVAL : Z := 5000.

(** Bytes read of each file with its time of modification, and bytes on disk per node. *)
Record LiveSource := mkLiveSource {
  ls_file_positions : gmap (string * string) (Z * Z);
  ls_node_file_sizes : gmap string Z;
}.

Record ClusterTimeline := mkTimeline {
  tl_entries : list TimelineEntry;
  tl_checkpoints : list (nat * ClusterSnapshot);
  tl_tail : ClusterSnapshot;
  tl_live : option LiveSource;
  tl_ids : list string;
  tl_seen : gset string;
  tl_ranges : list (string * (Z * Z));
}.

Definition timeline_new (now : Z) : ClusterTimeline :=
  mkTimeline [] [] (ClusterSnapshot_new now) None [] ∅ [].

(** The loop of [extend_checkpoints] over the entries from [idx] on. *)
Fixpoint checkpoint_loop (idx : nat) (es : list TimelineEntry) (cps : list (nat * ClusterSnapshot))
    (s : ClusterSnapshot) : list (nat * ClusterSnapshot) * ClusterSnapshot :=
  match es with
  | [] => (cps, s)
  | e :: es' =>
      let cps := if Z.of_nat idx mod CHECKPOINT_INTERVAL =? 0 then cps ++ [(idx, s)] else cps in
      checkpoint_loop (S idx) es' cps (apply_entry e s)
  end.

Definition extend_checkpoints (start_idx : nat) (tl : ClusterTimeline) : ClusterTimeline :=
  let '(cps, s) := checkpoint_loop start_idx (drop start_idx (tl_entries tl)) (tl_checkpoints tl) (tl_tail tl) in
  mkTimeline (tl_entries tl) cps s (tl_live tl) (tl_ids tl) (tl_seen tl) (tl_ranges tl).

Definition rebuild_checkpoints (now : Z) (tl : ClusterTimeline) : ClusterTimeline :=
  let '(cps, s) := checkpoint_loop 0 (tl_entries tl) [] (ClusterSnapshot_new now) in
  mkTimeline (tl_entries tl) cps s (tl_live tl) (tl_ids tl) (tl_seen tl) (tl_ranges tl).

(** *** Who appears, and when *)

Definition entity_id (e : TimelineEntry) : string := default "coordinator" (te_node_id e).

(** [if seen.insert(id) { cached.push(id) }]. *)
Definition see_id (id : string) (acc : list string * gset string) : list string * gset string :=
  if decide (id ∈ acc.2) then acc else (acc.1 ++ [id], {[id]} ∪ acc.2).

Definition extend_entity_ids (start_idx : nat) (tl : ClusterTimeline) : ClusterTimeline :=
  let '(ids, seen) := foldl (λ acc e, see_id (entity_id e) acc) (tl_ids tl, tl_seen tl)
                        (drop start_idx (tl_entries tl)) in
  mkTimeline (tl_entries tl) (tl_checkpoints tl) (tl_tail tl) (tl_live tl) ids seen (tl_ranges tl).

Definition rebuild_entity_ids (tl : ClusterTimeline) : ClusterTimeline :=
  extend_entity_ids 0 (mkTimeline (tl_entries tl) (tl_checkpoints tl) (tl_tail tl) (tl_live tl) [] ∅
                         (tl_ranges tl)).

Definition widen (ts : Z) (r : Z * Z) : Z * Z :=
  (if ts <? r.1 then ts else r.1, if r.2 <? ts then ts else r.2).

(** [entry(id).and_modify(widen).or_insert((ts, ts))], keeping the order of insertion. *)
Fixpoint range_entry (id : string) (ts : Z) (l : list (string * (Z * Z))) : list (string * (Z * Z)) :=
  match l with
  | [] => [(id, (ts, ts))]
  | (id', r) :: l' => if decide (id' = id) then (id', widen ts r) :: l' else (id', r) :: range_entry id ts l'
  end.

Definition note_range (l : list (string * (Z * Z))) (e : TimelineEntry) : list (string * (Z * Z)) :=
  match e with TNode ts node_id _ => range_entry node_id ts l | TCoordinator _ _ => l end.

Definition extend_timestamp_ranges (start_idx : nat) (tl : ClusterTimeline) : ClusterTimeline :=
  mkTimeline (tl_entries tl) (tl_checkpoints tl) (tl_tail tl) (tl_live tl) (tl_ids tl) (tl_seen tl)
    (foldl note_range (tl_ranges tl) (drop start_idx (tl_entries tl))).

Definition clear_ranges (tl : ClusterTimeline) : ClusterTimeline :=
  mkTimeline (tl_entries tl) (tl_checkpoints tl) (tl_tail tl) (tl_live tl) (tl_ids tl) (tl_seen tl) [].

Definition set_tl_entries (es : list TimelineEntry) (tl : ClusterTimeline) : ClusterTimeline :=
  mkTimeline es (tl_checkpoints tl) (tl_tail tl) (tl_live tl) (tl_ids tl) (tl_seen tl) (tl_ranges tl).
Definition set_tl_index (cps : list (nat * ClusterSnapshot)) (s : ClusterSnapshot) (tl : ClusterTimeline) :
    ClusterTimeline :=
  mkTimeline (tl_entries tl) cps s (tl_live tl) (tl_ids tl) (tl_seen tl) (tl_ranges tl).
Definition set_tl_live (l : option LiveSource) (tl : ClusterTimeline) : ClusterTimeline :=
  mkTimeline (tl_entries tl) (tl_checkpoints tl) (tl_tail tl) l (tl_ids tl) (tl_seen tl) (tl_ranges tl).

(** *** Pushing one entry *)

Definition push_node_event (node_id : string) (event : Event) (tl : ClusterTimeline) : ClusterTimeline :=
  let append_start := length (tl_entries tl) in
  let tl := set_tl_entries (tl_entries tl ++ [TNode (ev_timestamp event) node_id event]) tl in
  let tl := extend_checkpoints append_start tl in
  let '(ids, seen) := see_id node_id (tl_ids tl, tl_seen tl) in
  extend_timestamp_ranges append_start
    (mkTimeline (tl_entries tl) (tl_checkpoints tl) (tl_tail tl) (tl_live tl) ids seen (tl_ranges tl)).

Definition push_coordinator (state : CoordinatorStateSnapshot) (tl : ClusterTimeline) : ClusterTimeline :=
  let append_start := length (tl_entries tl) in
  let tl := set_tl_entries (tl_entries tl ++ [TCoordinator (cu_timestamp state) state]) tl in
  let tl := extend_checkpoints append_start tl in
  let '(ids, seen) := see_id "coordinator" (tl_ids tl, tl_seen tl) in
  mkTimeline (tl_entries tl) (tl_checkpoints tl) (tl_tail tl) (tl_live tl) ids seen (tl_ranges tl).

(** *** Taking in sorted new entries *)

(** [entries.partition_point(|e| e.timestamp() < ts)]: the entries are in order, so the ones
    before [ts] are a prefix. *)
Fixpoint partition_point (ts : Z) (es : list TimelineEntry) : nat :=
  match es with
  | e :: es' => if te_timestamp e <? ts then S (partition_point ts es') else 0
  | [] => 0
  end.

(** The checkpoints up to the first at or after the merge point. *)
Fixpoint checkpoints_before (merge_point : nat) (cps : list (nat * ClusterSnapshot)) :
    list (nat * ClusterSnapshot) :=
  match cps with
  | (c, s) :: cps' => if (merge_point <=? c)%nat then [] else (c, s) :: checkpoints_before merge_point cps'
  | [] => []
  end.

(** [pop().unwrap_or((0, ClusterSnapshot::new()))]. *)
Definition pop_checkpoint (now : Z) (cps : list (nat * ClusterSnapshot)) :
    (nat * ClusterSnapshot) * list (nat * ClusterSnapshot) :=
  match last cps with
  | Some c => (c, take (length cps - 1) cps)
  | None => ((0%nat, ClusterSnapshot_new now), [])
  end.

(** The second half of [refresh]; the new entries are not empty. *)
Definition absorb (now : Z) (new_entries : list TimelineEntry) (tl : ClusterTimeline) : ClusterTimeline :=
  let new_entries := sort_entries new_entries in
  let newest_existing := default 0 (te_timestamp <$> last (tl_entries tl)) in
  let earliest_new := default 0 (te_timestamp <$> head new_entries) in
  if earliest_new <? newest_existing then
    let merge_point := partition_point earliest_new (tl_entries tl) in
    let '((replay_start, base), cps) := pop_checkpoint now (checkpoints_before merge_point (tl_checkpoints tl)) in
    let tl := set_tl_index cps base tl in
    let tl := set_tl_entries (sort_entries (tl_entries tl ++ new_entries)) tl in
    extend_timestamp_ranges 0 (clear_ranges (rebuild_entity_ids (extend_checkpoints replay_start tl)))
  else
    let append_start := length (tl_entries tl) in
    let tl := set_tl_entries (tl_entries tl ++ new_entries) tl in
    extend_timestamp_ranges append_start (extend_entity_ids append_start (extend_checkpoints append_start tl)).

(** *** The picture after an entry *)

Definition snapshot_at (now : Z) (idx : nat) (tl : ClusterTimeline) : ClusterSnapshot :=
  match tl_entries tl with
  | [] => ClusterSnapshot_new now
  | _ :: _ =>
      let idx := Nat.min idx (length (tl_entries tl) - 1) in
      let '(start_idx, base) :=
        default (0%nat, ClusterSnapshot_new now)
          (List.find (λ cs, (cs.1 <=? idx)%nat) (rev (tl_checkpoints tl))) in
      foldl (λ s e, apply_entry e s) base (take (S idx - start_idx) (drop start_idx (tl_entries tl)))
  end.

(** ** The events directory *)

(** A file: its length and time of modification when they can be asked for, and its bytes
    when it can be read. *)
Record DataFile := mkDataFile {
  df_name : string;
  df_meta : option (Z * option Z);
  df_data : option (list Z);
}.
(** A subdirectory with its files, when they can be listed. *)
Record NodeDir := mkNodeDir { dir_node : string; dir_files : option (list DataFile) }.

(** [Path::extension]: what follows the last dot, unless the name has no other dot and
    starts with it. *)
Fixpoint after_last_dot (s : string) : option string :=
  match s with
  | EmptyString => None
  | String c s' =>
      match after_last_dot s' with
      | Some e => Some e
      | None => if Ascii.eqb c "."%char then Some s' else None
      end
  end.
Definition extension (name : string) : option string :=
  match name with String _ s => after_last_dot s | EmptyString => None end.

Definition name_le (a b : DataFile) : Prop := String.leb (df_name a) (df_name b) = true.
#[global] Instance name_le_dec : RelDecision name_le.
Proof. intros a b. unfold name_le. apply _. Defined.

Definition is_coord (d : NodeDir) : bool := bool_decide (dir_node d = COORDINATOR_SUBDIR).
Definition accepted_ext (d : NodeDir) : string := if is_coord d then "bin" else "postcard".
Definition data_files (d : NodeDir) (files : list DataFile) : list DataFile :=
  stable_sort name_le (List.filter (λ f, bool_decide (extension (df_name f) = Some (accepted_ext d))) files).

Definition add_size (node : string) (len : Z) (sizes : gmap string Z) : gmap string Z :=
  <[node := default 0 (sizes !! node) + len]> sizes.

Inductive IoError := ReadFailed.

(** What the libraries decode. *)
Class Codec := {
  event_of_cobs : list Z → option Event;
  coordinator_of_bytes : list Z → Coordinator;
  coordinator_size : nat;
  from_timestamp_millis : Z → option Z;
  base58 : list Z → string;
}.

Section Reading.
Context {H : HashFns} `{Codec}.

(** [NodeIdentity]'s display: the first characters of the address. *)
Definition signer_prefix (s : list Z) : string := String.substring 0 8 (base58 s).
Definition id_to_string (i : NodeIdentity) : string := signer_prefix (signer i).

(** The batches of the coordinator's round, when its clients are those of the epoch. *)
Definition snapshot_assignments {E : Type} (coord : Coordinator) : res E (list (BatchId * string)) :=
  let round_clients_len := match current_round coord with Some r => clients_len r | None => 0 end in
  if round_clients_len =? zlen (clients (epoch_state coord)) then
    match from_coordinator coord 0 with
    | Ok sel =>
        match assign_data_for_state (E := E) coord sel with
        | Ok tree => Ok (prod_map (λ b, b) id_to_string <$> tree)
        | Err e => Err e
        | Panic => Panic
        end
    | Err _ => Ok []
    | Panic => Panic
    end
  else Ok [].

Definition coordinator_to_snapshot {E : Type} (timestamp : Z) (coord : Coordinator) : res E CoordinatorStateSnapshot :=
  batch_assignments ← snapshot_assignments coord;
  Ok (mkCoordinatorSnapshot timestamp (run_state coord) (epoch (progress coord)) (step (progress coord))
        (checkpoint_ (the_llm (model coord))) ((λ c, id_to_string (id c)) <$> clients (epoch_state coord))
        (min_clients (config coord)) batch_assignments).

Definition COORD_RECORD_SIZE : nat := 8 + coordinator_size.

(** [i64::from_le_bytes]. *)
Definition i64_from_le_bytes (bs : list Z) : Z :=
  let z := from_le_bytes bs in if z <? 2 ^ 63 then z else z - 2 ^ 64.

(** Every turn takes a record, so the length bounds the turns. *)
Fixpoint records_loop {E : Type} (fuel : nat) (data : list Z) : res E (list (Z * CoordinatorStateSnapshot)) :=
  match fuel with
  | O => Ok []
  | S fuel' =>
      if (COORD_RECORD_SIZE <=? length data)%nat then
        let timestamp_millis := i64_from_le_bytes (take 8 data) in
        let coord := coordinator_of_bytes (take coordinator_size (drop 8 data)) in
        let timestamp := default 0 (from_timestamp_millis timestamp_millis) in
        snapshot ← coordinator_to_snapshot timestamp coord;
        rest ← records_loop fuel' (drop COORD_RECORD_SIZE data);
        Ok ((timestamp, snapshot) :: rest)
      else Ok []
  end.
Definition decode_coordinator_records {E : Type} (data : list Z) : res E (list (Z * CoordinatorStateSnapshot)) :=
  records_loop (length data) data.

(** The entries in the bytes of a file, and the cursor after them. *)
Definition read_entries {E : Type} (d : NodeDir) (data : list Z) : res E (list TimelineEntry * Z) :=
  if is_coord d then
    records ← decode_coordinator_records data;
    Ok ((λ '(t, s), TCoordinator t s) <$> records, zlen records * Z.of_nat COORD_RECORD_SIZE)
  else
    let '(events, rest) := read_frames event_of_cobs data in
    Ok ((λ e, TNode (ev_timestamp e) (dir_node d) e) <$> events, zlen data - zlen rest).

(** *** Loading *)

Definition mtime_of (f : DataFile) : Z := default 0 (df_meta f ≫= snd).

(** Scanning: the files of every subdirectory, and the bytes of each node. *)
Fixpoint scan_dir (dir : list NodeDir) (sizes : gmap string Z) :
    res IoError (list (NodeDir * DataFile) * gmap string Z) :=
  match dir with
  | [] => Ok ([], sizes)
  | d :: dir' =>
      files ← ok_or (dir_files d) ReadFailed;
      let files := data_files d files in
      let sizes := foldl (λ sizes f, match df_meta f with
                                     | Some (len, _) => add_size (dir_node d) len sizes
                                     | None => sizes
                                     end) sizes files in
      '(rest, sizes) ← scan_dir dir' sizes;
      Ok (((λ f, (d, f)) <$> files) ++ rest, sizes)
  end.

Definition load_file (df : NodeDir * DataFile)
    (acc : list TimelineEntry * gmap (string * string) (Z * Z)) :
    res IoError (list TimelineEntry * gmap (string * string) (Z * Z)) :=
  let '(d, f) := df in
  data ← ok_or (df_data f) ReadFailed;
  '(entries, cursor) ← read_entries d data;
  Ok (acc.1 ++ entries, <[(dir_node d, df_name f) := (cursor, mtime_of f)]> acc.2).

Definition from_events_dir (now : Z) (dir : option (list NodeDir)) : res IoError ClusterTimeline :=
  dir ← ok_or dir ReadFailed;
  '(all_files, sizes) ← scan_dir dir ∅;
  '(raw_entries, positions) ← res_fold load_file all_files ([], ∅);
  let tl := mkTimeline (sort_entries raw_entries) [] (ClusterSnapshot_new now)
              (Some (mkLiveSource positions sizes)) [] ∅ [] in
  Ok (extend_timestamp_ranges 0 (rebuild_entity_ids (rebuild_checkpoints now tl))).

(** *** Refreshing *)

Record Refresh := mkRefresh {
  rf_new_entries : list TimelineEntry;
  rf_positions : gmap (string * string) (Z * Z);
  rf_sizes : gmap string Z;
}.

(** The body of the loop over a node's files; [current] are the positions before. *)
Definition refresh_file {E : Type} (current : gmap (string * string) (Z * Z)) (d : NodeDir) (f : DataFile) (acc : Refresh) :
    res E Refresh :=
  match df_meta f with
  | None => Ok acc
  | Some (len, modified) =>
      let file_mtime := default 0 modified in
      let path := (dir_node d, df_name f) in
      let acc := mkRefresh (rf_new_entries acc) (rf_positions acc) (add_size (dir_node d) len (rf_sizes acc)) in
      if bool_decide (snd <$> current !! path = Some file_mtime) then Ok acc
      else
        let start_pos := default 0 (fst <$> current !! path) in
        match df_data f with
        | None => Ok acc
        | Some data =>
            '(entries, cursor) ← read_entries d (drop (Z.to_nat start_pos) data);
            Ok (mkRefresh (rf_new_entries acc ++ entries)
                  (<[path := (start_pos + cursor, file_mtime)]> (rf_positions acc)) (rf_sizes acc))
        end
  end.

Definition refresh_node {E : Type} (current : gmap (string * string) (Z * Z)) (d : NodeDir) (acc : Refresh) : res E Refresh :=
  res_fold (refresh_file current d) (data_files d (default [] (dir_files d))) acc.

Definition refresh {E : Type} (now : Z) (dir : option (list NodeDir)) (tl : ClusterTimeline) : res E (bool * ClusterTimeline) :=
  match tl_live tl, dir with
  | Some live, Some dir =>
      r ← res_fold (refresh_node (ls_file_positions live)) dir (mkRefresh [] ∅ ∅);
      let tl := set_tl_live (Some (mkLiveSource (rf_positions r ∪ ls_file_positions live) (rf_sizes r))) tl in
      Ok (match rf_new_entries r with [] => (false, tl) | _ => (true, absorb now (rf_new_entries r) tl) end)
  | _, _ => Ok (false, tl)
  end.
End Reading.
