(* ===== verification/TimelineThms.v ===== *)
(** * What the timeline shows

    The index of the timeline is right: after loading, refreshing and pushing in any order,
    the picture taken from the nearest checkpoint is the replay of the whole history, the
    entries are in the order of their times, and reading what a directory has gained gives
    the entries a fresh load would have read.  Two ways in which events are not shown are
    exhibited: a frame that was half written when the file was read, and the downloads of
    nodes whose directory carries the whole address. *)

From stdpp Require Import base tactics list numbers decidable gmap sets strings sorting.
From S2P Require Import Prelude StableSort CoreTypes Hashing CoordinatorState Committee DataSelection Projection EventStore Timeline.

Open Scope Z_scope.

(** ** Replaying *)

Definition apply_all (s : ClusterSnapshot) (es : list TimelineEntry) : ClusterSnapshot :=
  foldl (λ s e, apply_entry e s) s es.
Definition replay (now : Z) (es : list TimelineEntry) : ClusterSnapshot :=
  apply_all (ClusterSnapshot_new now) es.

(** The time a projection was made at is forgotten with the first entry. *)
Lemma apply_entry_now e t s : apply_entry e (set_cl_timestamp t s) = apply_entry e s.
Proof. by destruct e. Qed.

Lemma replay_now now now' es : es ≠ [] → replay now es = replay now' es.
Proof.
  destruct es as [|e es]; [done|]. intros _. unfold replay, apply_all. cbn [foldl].
  by rewrite <- (apply_entry_now e now (ClusterSnapshot_new now')).
Qed.

Lemma apply_all_app s es es' : apply_all s (es ++ es') = apply_all (apply_all s es) es'.
Proof. apply foldl_app. Qed.

(** ** The index *)

Definition is_checkpoint (i : nat) : bool := Z.of_nat i mod CHECKPOINT_INTERVAL =? 0.

Lemma checkpoint_loop_spec idx es cps s :
  ∃ extra, checkpoint_loop idx es cps s = (cps ++ extra, apply_all s es) ∧
    extra.*1 = List.filter is_checkpoint (seq idx (length es)) ∧
    ∀ c s', (c, s') ∈ extra → (idx <= c)%nat ∧ s' = apply_all s (take (c - idx) es).
Proof.
  revert idx cps s. induction es as [|e es IH]; intros idx cps s.
  { exists []. rewrite app_nil_r. split_and!; [done..|]. by intros c s' ?%not_elem_of_nil. }
  cbn [checkpoint_loop]. fold (is_checkpoint idx).
  destruct (IH (S idx) (if is_checkpoint idx then cps ++ [(idx, s)] else cps) (apply_entry e s))
    as (extra & -> & Hat & Hs).
  exists ((if is_checkpoint idx then [(idx, s)] else []) ++ extra). split_and!.
  - by destruct (is_checkpoint idx); rewrite <- ?app_assoc.
  - cbn. rewrite fmap_app, Hat. by destruct (is_checkpoint idx).
  - intros c s' [Hin|Hin]%elem_of_app.
    + destruct (is_checkpoint idx); [|by apply not_elem_of_nil in Hin].
      apply list_elem_of_singleton in Hin. injection Hin as -> ->. by rewrite Nat.sub_diag.
    + destruct (Hs _ _ Hin) as [Hc ->]. split; [lia|].
      by replace (c - idx)%nat with (S (c - S idx)) by lia.
Qed.

(** Checkpoints and the running projection of the first [n] of the entries. *)
Record indexed (n : nat) (es : list TimelineEntry) (cps : list (nat * ClusterSnapshot))
    (s : ClusterSnapshot) : Prop := {
  ix_at : cps.*1 = List.filter is_checkpoint (seq 0 n);
  ix_snapshots : ∀ c s', (c, s') ∈ cps → ∃ now, s' = replay now (take c es);
  ix_tail : ∃ now, s = replay now (take n es);
}.

Lemma indexed_empty now es : indexed 0 es [] (ClusterSnapshot_new now).
Proof. split; [done|by intros c s' ?%not_elem_of_nil|by exists now]. Qed.

Lemma checkpoint_loop_indexed n es cps s cps' s' : indexed n es cps s → (n <= length es)%nat →
  checkpoint_loop n (drop n es) cps s = (cps', s') → indexed (length es) es cps' s'.
Proof.
  intros [Hat Hsnap [now Hs]] Hn Hloop.
  destruct (checkpoint_loop_spec n (drop n es) cps s) as (extra & Heq & Hat' & Hs').
  rewrite Heq in Hloop. injection Hloop as <- <-. split.
  - rewrite fmap_app, Hat, Hat', length_drop, <- List.filter_app.
    pose proof (seq_app n (length es - n) 0) as Hseq. cbn in Hseq. rewrite <- Hseq.
    do 2 f_equal. lia.
  - intros c t [Hin|Hin]%elem_of_app; [by apply Hsnap|].
    destruct (Hs' _ _ Hin) as [Hc ->]. exists now. rewrite Hs. unfold replay.
    rewrite <- apply_all_app, take_take_drop. do 2 f_equal. lia.
  - exists now. rewrite Hs. unfold replay. by rewrite <- apply_all_app, take_drop, firstn_all.
Qed.

(** The nearest checkpoint is one at or before the entry, if there is a checkpoint. *)
Lemma nearest_checkpoint n es cps s idx c t : indexed n es cps s →
  List.find (λ cs : nat * ClusterSnapshot, (cs.1 <=? idx)%nat) (rev cps) = Some (c, t) →
  (c <= idx)%nat ∧ ∃ now, t = replay now (take c es).
Proof.
  intros [_ Hsnap _] [Hin Hle]%find_some. apply Nat.leb_le in Hle. split; [done|].
  apply (Hsnap c t). apply list_elem_of_In. by apply in_rev.
Qed.

Lemma snapshot_at_replay now now' idx tl :
  indexed (length (tl_entries tl)) (tl_entries tl) (tl_checkpoints tl) (tl_tail tl) →
  (idx < length (tl_entries tl))%nat →
  snapshot_at now idx tl = replay now' (take (S idx) (tl_entries tl)).
Proof.
  intros Hix Hidx. unfold snapshot_at.
  assert (Hne : take (S idx) (tl_entries tl) ≠ []) by (destruct (tl_entries tl); [cbn in Hidx; lia|done]).
  destruct (tl_entries tl) as [|e0 es0] eqn:Hes; [cbn in Hidx; lia|]. rewrite <- Hes in *.
  rewrite Nat.min_l by lia.
  destruct (List.find _ _) as [[c t]|] eqn:Hfind; cbn [default].
  - destruct (nearest_checkpoint _ _ _ _ _ _ _ Hix Hfind) as [Hc [now0 ->]].
    trans (apply_all (apply_all (ClusterSnapshot_new now0) (take c (tl_entries tl)))
             (take (S idx - c) (drop c (tl_entries tl)))); [done|]. rewrite <- apply_all_app.
    rewrite take_take_drop. replace (c + (S idx - c))%nat with (S idx) by lia. by apply replay_now.
  - rewrite drop_0, Nat.sub_0_r. by apply (replay_now now now').
Qed.

(** *** Rolling back to a checkpoint *)

Lemma indexed_agree n es es' cps s : take n es = take n es' → indexed n es cps s → indexed n es' cps s.
Proof.
  intros Htake [Hat Hsnap [now Hs]]. split; [done| |exists now; by rewrite <- Htake].
  intros c t Hin. destruct (Hsnap c t Hin) as [now' Ht]. exists now'. rewrite Ht. f_equal.
  assert (Hc : c ∈ List.filter is_checkpoint (seq 0 n)) by (rewrite <- Hat; by apply (list_elem_of_fmap_2 fst _ (c, t))).
  apply list_elem_of_In, filter_In in Hc as [Hc%in_seq _].
  rewrite <- (Nat.min_l c n) by lia. by rewrite <- !take_take, Htake.
Qed.

Lemma checkpoints_before_at mp cps a n : cps.*1 = List.filter is_checkpoint (seq a n) →
  (checkpoints_before mp cps).*1 = List.filter is_checkpoint (seq a (Nat.min (mp - a) n)).
Proof.
  revert cps a. induction n as [|n IH]; intros cps a Hat.
  { rewrite Nat.min_0_r. by apply fmap_nil_inv in Hat as ->. }
  cbn in Hat. destruct (is_checkpoint a) eqn:Ha.
  - destruct cps as [|[c s] cps]; [done|]. cbn in Hat. injection Hat as -> Hat. cbn [checkpoints_before].
    destruct (Nat.leb_spec mp a) as [Hle|Hlt].
    + by replace (mp - a)%nat with 0%nat by lia.
    + replace (Nat.min (mp - a) (S n)) with (S (Nat.min (mp - S a) n)) by lia.
      cbn. rewrite Ha. by rewrite (IH _ (S a) Hat).
  - rewrite (IH _ (S a) Hat). destruct (Nat.le_gt_cases mp a) as [Hle|Hlt].
    + by replace (mp - a)%nat with 0%nat by lia; replace (mp - S a)%nat with 0%nat by lia.
    + replace (Nat.min (mp - a) (S n)) with (S (Nat.min (mp - S a) n)) by lia. cbn. by rewrite Ha.
Qed.

Lemma checkpoints_before_sub mp cps : checkpoints_before mp cps ⊆ cps.
Proof.
  induction cps as [|[c s] cps IH]; cbn; [done|]. destruct (mp <=? c)%nat; [set_solver|]. set_solver.
Qed.

Lemma last_checkpoint l c n : List.filter is_checkpoint (seq 0 n) = l ++ [c] →
  l = List.filter is_checkpoint (seq 0 c) ∧ (c < n)%nat.
Proof.
  induction n as [|n IH]; [by destruct l|]. rewrite seq_S, List.filter_app. cbn.
  destruct (is_checkpoint n); [|rewrite app_nil_r; intros [-> ?]%IH; split; [done|lia]].
  intros [<- <-]%app_inj_tail. split; [done|lia].
Qed.

(** What is left after the rollback indexes the entries before the checkpoint popped. *)
Lemma pop_indexed now n es cps s mp c base cps' : indexed n es cps s → (mp <= n)%nat →
  pop_checkpoint now (checkpoints_before mp cps) = ((c, base), cps') →
  (c <= mp)%nat ∧ indexed c es cps' base.
Proof.
  intros [Hat Hsnap _] Hmp Hpop. unfold pop_checkpoint in Hpop.
  pose proof (checkpoints_before_at mp cps 0 n Hat) as Hbefore.
  rewrite Nat.sub_0_r, Nat.min_l in Hbefore by done.
  pose proof (checkpoints_before_sub mp cps) as Hsub.
  destruct (last (checkpoints_before mp cps)) as [[c' t]|] eqn:Hlast.
  - injection Hpop as -> -> <-. apply last_Some in Hlast as [init Hinit].
    rewrite Hinit in Hbefore, Hsub |- *. rewrite fmap_app in Hbefore. cbn in Hbefore. symmetry in Hbefore.
    apply last_checkpoint in Hbefore as [Hbefore Hc]. rewrite length_app, Nat.add_sub, take_app_length.
    split; [lia|]. split; [done| |].
    + intros d u Hin. apply Hsnap. apply Hsub. set_solver.
    + apply Hsnap, Hsub. set_solver.
  - injection Hpop as <- <- <-. split; [lia|apply indexed_empty].
Qed.

(** *** Merging *)

Lemma partition_point_le ts es : (partition_point ts es <= length es)%nat.
Proof. induction es as [|e es IH]; cbn; [done|]. destruct (_ <? _); lia. Qed.

Lemma partition_point_before ts es e : e ∈ take (partition_point ts es) es → te_timestamp e < ts.
Proof.
  induction es as [|e' es IH]; cbn; [by intros ?%not_elem_of_nil|].
  destruct (Z.ltb_spec (te_timestamp e') ts); cbn; [|by intros ?%not_elem_of_nil].
  intros [->|Hin]%elem_of_cons; [done|by apply IH].
Qed.

Lemma sorted_head e es : StronglySorted earlier (e :: es) → ∀ e', e' ∈ e :: es → earlier e e'.
Proof.
  intros [_ Hle]%StronglySorted_inv e' [->|Hin]%elem_of_cons; [unfold earlier; lia|].
  by eapply list.Forall_forall in Hle.
Qed.

Lemma merge_prefix es e new : StronglySorted earlier es → StronglySorted earlier (e :: new) →
  let mp := partition_point (te_timestamp e) es in
  sort_entries (es ++ e :: new) = take mp es ++ sort_entries (drop mp es ++ e :: new).
Proof.
  intros Hes Hnew mp. rewrite <- (take_drop mp es) in Hes.
  rewrite <- (take_drop mp es) at 1. rewrite <- app_assoc. unfold sort_entries.
  apply StronglySorted_app in Hes as (Hcross & Htake & _).
  apply stable_sort_prefix; [done|]. intros x y Hx [Hy|Hy]%elem_of_app.
  - by apply Hcross.
  - apply (sorted_head e new Hnew) in Hy. apply partition_point_before in Hx. unfold earlier in *. lia.
Qed.

Lemma append_sorted es es' : StronglySorted earlier es → StronglySorted earlier es' →
  default 0 (te_timestamp <$> last es) <= default 0 (te_timestamp <$> head es') →
  StronglySorted earlier (es ++ es').
Proof.
  intros Hes Hes' Hle. destruct es' as [|e' es']; [by rewrite app_nil_r|].
  destruct (last es) as [l|] eqn:Hl; [|by apply last_None in Hl as ->].
  apply StronglySorted_app. split_and!; [|done..]. intros x y Hx Hy.
  apply (sorted_head e' es' Hes') in Hy. apply last_Some in Hl as [init ->]. cbn in Hle.
  apply StronglySorted_app in Hes as (Hcross & _ & _).
  apply elem_of_app in Hx as [Hx|Hx%list_elem_of_singleton]; unfold earlier in *.
  - specialize (Hcross x l Hx (list_elem_of_here _ _)). unfold earlier in Hcross. lia.
  - subst x. lia.
Qed.

(** ** Every operation keeps the timeline in order *)

Definition ids_of (es : list TimelineEntry) : list string * gset string :=
  foldl (λ acc e, see_id (entity_id e) acc) ([], ∅) es.
Definition ranges_of (es : list TimelineEntry) : list (string * (Z * Z)) := foldl note_range [] es.

Record timeline_ok (tl : ClusterTimeline) : Prop := {
  to_index : indexed (length (tl_entries tl)) (tl_entries tl) (tl_checkpoints tl) (tl_tail tl);
  to_ids : (tl_ids tl, tl_seen tl) = ids_of (tl_entries tl);
  to_ranges : tl_ranges tl = ranges_of (tl_entries tl);
  to_sorted : is_Some (tl_live tl) → StronglySorted earlier (tl_entries tl);
}.

Lemma new_ok now : timeline_ok (timeline_new now).
Proof. split; [apply indexed_empty|done..|]. intros [? ?]; discriminate. Qed.

(** The caches of a timeline whose entries have grown at the end. *)
Lemma ids_of_app es es' : ids_of (es ++ es') = foldl (λ acc e, see_id (entity_id e) acc) (ids_of es) es'.
Proof. apply foldl_app. Qed.
Lemma ranges_of_app es es' : ranges_of (es ++ es') = foldl note_range (ranges_of es) es'.
Proof. apply foldl_app. Qed.

Lemma extend_index n tl : indexed n (tl_entries tl) (tl_checkpoints tl) (tl_tail tl) →
  (n <= length (tl_entries tl))%nat →
  let tl' := extend_checkpoints n tl in
  indexed (length (tl_entries tl)) (tl_entries tl) (tl_checkpoints tl') (tl_tail tl') ∧
  tl_entries tl' = tl_entries tl ∧ tl_live tl' = tl_live tl.
Proof.
  intros Hix Hn tl'. subst tl'. unfold extend_checkpoints.
  destruct (checkpoint_loop n _ _ _) as [cps s] eqn:Hloop.
  split_and!; [by eapply checkpoint_loop_indexed|done..].
Qed.

(** The caches made from scratch. *)
Lemma recached tl : indexed (length (tl_entries tl)) (tl_entries tl) (tl_checkpoints tl) (tl_tail tl) →
  (is_Some (tl_live tl) → StronglySorted earlier (tl_entries tl)) →
  let tl' := extend_timestamp_ranges 0 (clear_ranges (rebuild_entity_ids tl)) in
  timeline_ok tl' ∧ tl_entries tl' = tl_entries tl ∧ tl_live tl' = tl_live tl.
Proof.
  intros Hix Hsorted tl'. subst tl'. unfold rebuild_entity_ids, extend_entity_ids. cbn [tl_entries tl_ids tl_seen].
  rewrite drop_0. change (foldl _ _ (tl_entries tl)) with (ids_of (tl_entries tl)).
  destruct (ids_of (tl_entries tl)) as [ids seen] eqn:Hids.
  split_and!; [|done..]. by split; [|exact (eq_sym Hids)| |].
Qed.

(** Entries appended: the caches go on from where they were. *)
Lemma append_ok es' tl : timeline_ok tl →
  (is_Some (tl_live tl) → StronglySorted earlier (tl_entries tl ++ es')) →
  let n := length (tl_entries tl) in
  let tl' := extend_timestamp_ranges n (extend_entity_ids n (extend_checkpoints n
               (set_tl_entries (tl_entries tl ++ es') tl))) in
  timeline_ok tl' ∧ tl_entries tl' = tl_entries tl ++ es' ∧ tl_live tl' = tl_live tl.
Proof.
  intros [Hix Hids Hranges _] Hsorted n tl'. subst tl'.
  unfold extend_checkpoints, extend_entity_ids, extend_timestamp_ranges. cbn.
  subst n. rewrite drop_app_length.
  destruct (checkpoint_loop (length (tl_entries tl)) es' (tl_checkpoints tl) (tl_tail tl))
    as [cps' s'] eqn:Hloop. cbn. rewrite drop_app_length, Hids, Hranges, <- ids_of_app.
  destruct (ids_of (tl_entries tl ++ es')) as [ids seen] eqn:Hnew. cbn.
  rewrite drop_app_length, <- ranges_of_app. split_and!; [|done..].
  split; cbn; [|done..].
  rewrite <- (drop_app_length (tl_entries tl) es') in Hloop at 1.
  eapply (checkpoint_loop_indexed (length (tl_entries tl))); [|rewrite length_app; lia|exact Hloop].
  eapply indexed_agree; [|exact Hix]. by rewrite take_app_length, firstn_all.
Qed.

(** Entries merged in: the index is rolled back and the caches are made anew. *)
Lemma merge_ok now new tl : timeline_ok tl → is_Some (tl_live tl) → new ≠ [] →
  let tl' := absorb now new tl in
  timeline_ok tl' ∧ tl_entries tl' ≡ₚ tl_entries tl ++ new ∧ tl_live tl' = tl_live tl.
Proof.
  intros Hok Hlive Hne tl'. subst tl'. unfold absorb.
  pose proof (stable_sort_perm earlier new) as Hperm. pose proof (stable_sort_sorted earlier new) as Hsort.
  fold (sort_entries new) in Hperm, Hsort. destruct (sort_entries new) as [|e es'] eqn:Hsorted.
  { by apply Permutation_nil in Hperm. }
  destruct (Z.ltb_spec (default 0 (te_timestamp <$> head (e :: es')))
              (default 0 (te_timestamp <$> last (tl_entries tl)))) as [Hlt|Hle].
  - cbn [head default fmap option_fmap option_map].
    destruct (pop_checkpoint now _) as [[c base] cps] eqn:Hpop.
    destruct (pop_indexed _ _ _ _ _ _ _ _ _ (to_index _ Hok) (partition_point_le _ _) Hpop) as [Hc Hix].
    pose proof (merge_prefix (tl_entries tl) e es' (to_sorted _ Hok Hlive) Hsort) as Hmerge. cbn zeta in Hmerge.
    change (tl_entries (set_tl_index cps base tl)) with (tl_entries tl).
    set (mp := partition_point (te_timestamp e) (tl_entries tl)) in *.
    set (merged := sort_entries (tl_entries tl ++ e :: es')) in *.
    change (c <= mp)%nat in Hc.
    assert (Hmp : (mp <= length (tl_entries tl))%nat) by apply partition_point_le.
    assert (Htake : take mp merged = take mp (tl_entries tl)).
    { rewrite Hmerge. by rewrite take_app_le, take_take, Nat.min_id by (rewrite length_take; lia). }
    assert (Hlen : length merged = (length (tl_entries tl) + length new)%nat).
    { unfold merged, sort_entries. by rewrite stable_sort_perm, length_app, Hperm. }
    assert (Hix' : indexed c merged cps base).
    { eapply indexed_agree; [|exact Hix]. rewrite <- (Nat.min_l c mp) by done. by rewrite <- !take_take, Htake. }
    destruct (extend_index c (set_tl_entries merged (set_tl_index cps base tl))) as (Hix2 & Hes2 & Hl2);
      [done|change (c <= length merged)%nat; lia|]. cbn [tl_entries set_tl_entries] in Hix2, Hes2.
    edestruct recached as (Hok' & Hes3 & Hl3); [by rewrite Hes2| |].
    { intros _. rewrite Hes2. apply (stable_sort_sorted earlier). }
    split_and!; [exact Hok'|rewrite Hes3, Hes2|by rewrite Hl3, Hl2].
    unfold merged, sort_entries. by rewrite stable_sort_perm, Hperm.
  - destruct (append_ok (e :: es') tl Hok) as (Hok' & Hes & Hl).
    { intros _. by apply append_sorted; [apply to_sorted| |]. }
    split_and!; [done| |done]. rewrite Hes. by rewrite Hperm.
Qed.

(** The fields of a timeline just made. *)
Ltac tl_fields :=
  cbn [tl_entries tl_live tl_ids tl_seen tl_ranges tl_checkpoints tl_tail set_tl_entries set_tl_index set_tl_live].

(** A push is the appending of one entry. *)
Lemma push_node_append node_id ev tl :
  push_node_event node_id ev tl =
  extend_timestamp_ranges (length (tl_entries tl)) (extend_entity_ids (length (tl_entries tl))
    (extend_checkpoints (length (tl_entries tl))
      (set_tl_entries (tl_entries tl ++ [TNode (ev_timestamp ev) node_id ev]) tl))).
Proof.
  unfold push_node_event, extend_checkpoints, extend_entity_ids, extend_timestamp_ranges.
  tl_fields.
  rewrite drop_app_length. destruct (checkpoint_loop _ _ _ _) as [cps s].
  tl_fields.
  rewrite drop_app_length. cbn [foldl]. change (entity_id (TNode _ node_id _)) with node_id.
  destruct (see_id node_id (tl_ids tl, tl_seen tl)). tl_fields. by rewrite drop_app_length.
Qed.

Lemma push_coordinator_append u tl :
  push_coordinator u tl =
  extend_timestamp_ranges (length (tl_entries tl)) (extend_entity_ids (length (tl_entries tl))
    (extend_checkpoints (length (tl_entries tl))
      (set_tl_entries (tl_entries tl ++ [TCoordinator (cu_timestamp u) u]) tl))).
Proof.
  unfold push_coordinator, extend_checkpoints, extend_entity_ids, extend_timestamp_ranges.
  tl_fields.
  rewrite drop_app_length. destruct (checkpoint_loop _ _ _ _) as [cps s].
  tl_fields.
  rewrite drop_app_length. cbn [foldl]. change (entity_id (TCoordinator _ _)) with "coordinator".
  destruct (see_id "coordinator" (tl_ids tl, tl_seen tl)). tl_fields. by rewrite drop_app_length.
Qed.

(** A push to a timeline that follows a directory comes in order. *)
Definition in_order (t : Z) (tl : ClusterTimeline) : Prop :=
  is_Some (tl_live tl) → default t (te_timestamp <$> last (tl_entries tl)) <= t.

Lemma push_sorted e tl : timeline_ok tl → in_order (te_timestamp e) tl →
  is_Some (tl_live tl) → StronglySorted earlier (tl_entries tl ++ [e]).
Proof.
  intros Hok Hin Hl. destruct (last (tl_entries tl)) eqn:Hlast.
  - apply append_sorted; [by apply to_sorted|by repeat constructor|]. specialize (Hin Hl).
    by rewrite Hlast in Hin |- *.
  - apply last_None in Hlast as ->. by repeat constructor.
Qed.

Section Steps.
Context {H : HashFns} `{Codec}.

Lemma load_inv now dir tl : from_events_dir now dir = Ok tl →
  ∃ nodes files sizes raw positions, dir = Some nodes ∧ scan_dir nodes ∅ = Ok (files, sizes) ∧
    res_fold load_file files ([], ∅) = Ok (raw, positions) ∧ timeline_ok tl ∧
    tl_entries tl ≡ₚ raw ∧ tl_live tl = Some (mkLiveSource positions sizes).
Proof.
  unfold from_events_dir. intros (nodes & Hdir%ok_or_Ok & Hload)%res_bind_Ok.
  apply res_bind_Ok in Hload as ([files sizes] & Hscan & Hload).
  apply res_bind_Ok in Hload as ([raw positions] & Hraw & Hload). injection Hload as <-.
  exists nodes, files, sizes, raw, positions.
  set (tl0 := mkTimeline (sort_entries raw) [] (ClusterSnapshot_new now)
                (Some (mkLiveSource positions sizes)) [] ∅ []).
  destruct (extend_index 0 tl0) as (Hix & Hes & Hl); [apply indexed_empty|lia|].
  edestruct (recached (extend_checkpoints 0 tl0)) as (Hok & Hes' & Hl').
  { by rewrite Hes. }
  { intros _. rewrite Hes. apply (stable_sort_sorted earlier). }
  assert (Heq : extend_timestamp_ranges 0 (rebuild_entity_ids (rebuild_checkpoints now tl0)) =
    extend_timestamp_ranges 0 (clear_ranges (rebuild_entity_ids (extend_checkpoints 0 tl0)))).
  { unfold rebuild_checkpoints, extend_checkpoints, tl0. tl_fields. rewrite drop_0.
    destruct (checkpoint_loop _ _ _ _). unfold rebuild_entity_ids, extend_entity_ids. tl_fields.
    by destruct (foldl _ _ _). }
  rewrite Heq. split_and!; [done..| |by rewrite Hl', Hl].
  rewrite Hes', Hes. apply (stable_sort_perm earlier).
Qed.

(** A refresh that finds entries takes them in. *)
Lemma refresh_inv {E : Type} now dir tl b tl' : timeline_ok tl → refresh (E := E) now dir tl = Ok (b, tl') →
  timeline_ok tl' ∧
  match tl_live tl, dir with
  | Some live, Some nodes =>
      ∃ r : Refresh, res_fold (E := E) (refresh_node (ls_file_positions live)) nodes (mkRefresh [] ∅ ∅) = Ok r ∧
        tl_entries tl' ≡ₚ tl_entries tl ++ rf_new_entries r ∧
        tl_live tl' = Some (mkLiveSource (rf_positions r ∪ ls_file_positions live) (rf_sizes r))
  | _, _ => tl' = tl
  end.
Proof.
  intros Hok. unfold refresh. destruct (tl_live tl) as [live|] eqn:Hlive; [|by intros [= <- <-]].
  destruct dir as [nodes|]; [|by intros [= <- <-]]. intros (r & Hr & Hres)%res_bind_Ok.
  set (tl1 := set_tl_live (Some (mkLiveSource (rf_positions r ∪ ls_file_positions live) (rf_sizes r))) tl) in Hres.
  assert (Hok1 : timeline_ok tl1).
  { destruct Hok as [H1 H2 H3 H4]. split; [done..|]. intros _. cbn. apply H4. by rewrite Hlive. }
  destruct (rf_new_entries r) as [|e es] eqn:Hnew; injection Hres as <- <-.
  - split; [done|]. exists r. by rewrite Hnew, app_nil_r.
  - destruct (merge_ok now (e :: es) tl1 Hok1) as (Hok' & Hes & Hl); [done..|].
    split; [done|]. exists r. by rewrite Hnew.
Qed.

(** ** Timelines the observer can have *)

Inductive timeline_step : ClusterTimeline → ClusterTimeline → Prop :=
| step_refresh now dir tl b tl' : refresh (E := IoError) now dir tl = Ok (b, tl') → timeline_step tl tl'
| step_push_node node_id e tl : in_order (ev_timestamp e) tl → timeline_step tl (push_node_event node_id e tl)
| step_push_coordinator u tl : in_order (cu_timestamp u) tl → timeline_step tl (push_coordinator u tl).

Inductive timeline_reachable : ClusterTimeline → Prop :=
| reach_new now : timeline_reachable (timeline_new now)
| reach_load now dir tl : from_events_dir now dir = Ok tl → timeline_reachable tl
| reach_step tl tl' : timeline_reachable tl → timeline_step tl tl' → timeline_reachable tl'.

Lemma reachable_ok tl : timeline_reachable tl → timeline_ok tl.
Proof.
  induction 1 as [now|now dir tl Hload|tl tl' _ IH Hstep].
  - apply new_ok.
  - by apply load_inv in Hload as (? & ? & ? & ? & ? & _ & _ & _ & ? & _).
  - destruct Hstep as [now dir tl b tl' Hr|node_id e tl Hin|u tl Hin].
    + by apply refresh_inv in Hr as [? _].
    + rewrite push_node_append. apply append_ok; [done|]. by apply push_sorted.
    + rewrite push_coordinator_append. apply append_ok; [done|]. by apply push_sorted.
Qed.
End Steps.

(** ** Who appears, and when *)

Lemma ids_of_spec es : NoDup (ids_of es).1 ∧ (∀ i, i ∈ (ids_of es).1 ↔ i ∈ (ids_of es).2) ∧
  ∀ i, i ∈ (ids_of es).1 ↔ ∃ e, e ∈ es ∧ entity_id e = i.
Proof.
  induction es as [|e es (Hnd & Hseen & Hin)] using rev_ind.
  { split_and!; [constructor|set_solver|]. intros i. cbn. set_solver. }
  rewrite ids_of_app. cbn [foldl]. unfold see_id. case_decide as He.
  - split_and!; [done..|]. intros i. rewrite Hin. split; [set_solver|].
    intros (e' & [?| ->%list_elem_of_singleton]%elem_of_app & <-); [by exists e'|]. by apply Hin, Hseen.
  - cbn. split_and!.
    + apply NoDup_app. split_and!; [done| |apply NoDup_singleton]. set_solver.
    + set_solver.
    + intros i. rewrite elem_of_app, Hin, list_elem_of_singleton. split.
      * intros [(e' & ? & <-)| ->]; [exists e'; set_solver|exists e; set_solver].
      * intros (e' & [?| ->%list_elem_of_singleton]%elem_of_app & <-); [left; by exists e'|by right].
Qed.

(** The times of a node's events. *)
Definition times_of (node : string) (es : list TimelineEntry) : list Z :=
  omap (λ e, match e with
             | TNode t n _ => if decide (n = node) then Some t else None
             | TCoordinator _ _ => None
             end) es.

Lemma range_entry_keys id ts l : NoDup l.*1 →
  NoDup (range_entry id ts l).*1 ∧ ∀ n, n ∈ (range_entry id ts l).*1 ↔ n = id ∨ n ∈ l.*1.
Proof.
  induction l as [|[n r] l IH]; cbn; intros Hnd.
  { split; [apply NoDup_singleton|set_solver]. }
  apply list.NoDup_cons in Hnd as [Hn Hnd]. destruct (IH Hnd) as [IHnd IHin]. case_decide as Hid.
  - subst n. cbn. split; [by constructor|]. intros m. rewrite !elem_of_cons. tauto.
  - cbn. split.
    + constructor; [|done]. rewrite IHin. tauto.
    + intros m. rewrite !elem_of_cons, IHin. tauto.
Qed.

Lemma range_entry_in id ts l n r : (n, r) ∈ range_entry id ts l →
  (n ≠ id ∧ (n, r) ∈ l) ∨
  (n = id ∧ ((∃ r0, (id, r0) ∈ l ∧ r = widen ts r0) ∨ (id ∉ l.*1 ∧ r = (ts, ts)))) ∨
  (n = id ∧ ¬ NoDup l.*1).
Proof.
  induction l as [|[m r0] l IH]; cbn.
  { intros [= -> ->]%list_elem_of_singleton. right. left. split; [done|right]. split; [set_solver|done]. }
  case_decide as Hm; [subst m|]; intros [Heq|Hin]%elem_of_cons.
  - injection Heq as -> ->. right. left. split; [done|left]. exists r0. set_solver.
  - destruct (decide (n = id)) as [->|Hne]; [|left; split; [done|by right]].
    right. right. split; [done|]. rewrite list.NoDup_cons. intros [Hnot _]. apply Hnot.
    by apply (list_elem_of_fmap_2 fst _ (id, r)).
  - injection Heq as -> ->. left. split; [done|by left].
  - destruct (IH Hin) as [[? ?]|[[-> [(r1 & ? & ->)|[? ->]]]|[-> Hnd]]].
    + left. split; [done|by right].
    + right. left. split; [done|left]. exists r1. split; [by right|done].
    + right. left. split; [done|right]. set_solver.
    + right. right. split; [done|]. rewrite list.NoDup_cons. by intros [_ ?].
Qed.

Definition range_right (es : list TimelineEntry) (n : string) (r : Z * Z) : Prop :=
  r.1 ∈ times_of n es ∧ r.2 ∈ times_of n es ∧ ∀ t, t ∈ times_of n es → r.1 <= t <= r.2.

Lemma range_right_other es n r e : times_of n [e] = [] → range_right es n r → range_right (es ++ [e]) n r.
Proof. intros He. unfold range_right, times_of. rewrite omap_app. fold (times_of n [e]). by rewrite He, app_nil_r. Qed.

Lemma range_right_widen es n ts ev r :
  range_right es n r → range_right (es ++ [TNode ts n ev]) n (widen ts r).
Proof.
  intros (Hlo & Hhi & Hall).
  assert (Ht : times_of n (es ++ [TNode ts n ev]) = times_of n es ++ [ts]).
  { unfold times_of. rewrite omap_app. cbn. by rewrite decide_True. }
  unfold range_right, widen. rewrite Ht. cbn.
  destruct (Z.ltb_spec ts r.1), (Z.ltb_spec r.2 ts); split_and!; try set_solver;
    intros t [Hin%Hall| ->%list_elem_of_singleton]%elem_of_app; lia.
Qed.

Lemma ranges_of_spec es : NoDup (ranges_of es).*1 ∧
  (∀ n, n ∈ (ranges_of es).*1 ↔ times_of n es ≠ []) ∧
  ∀ n r, (n, r) ∈ ranges_of es → range_right es n r.
Proof.
  induction es as [|e es (Hnd & Hkeys & Hr)] using rev_ind.
  { split_and!; [constructor|set_solver|by intros ? ? ?%not_elem_of_nil]. }
  rewrite ranges_of_app. cbn [foldl]. destruct e as [ts m ev|ts u]; cbn [note_range].
  - destruct (range_entry_keys m ts (ranges_of es) Hnd) as [Hnd' Hkeys']. split_and!; [done| |].
    + intros n. rewrite Hkeys', Hkeys. unfold times_of. rewrite omap_app. cbn. case_decide.
      * subst. split; [|by left]. intros _. by destruct (omap _ es).
      * rewrite app_nil_r. naive_solver.
    + intros n r [[Hne Hin]|[[-> [(r0 & Hin & ->)|[Hnot ->]]]|[_ ?]]]%range_entry_in; [| | |done].
      * apply range_right_other; [cbn; by rewrite decide_False|by apply Hr].
      * by apply range_right_widen, Hr.
      * unfold range_right, times_of. rewrite omap_app. cbn. rewrite decide_True by done.
        assert (Hnil : times_of m es = []) by (destruct (decide (times_of m es = [])); [done|by apply Hkeys in n]).
        unfold times_of in Hnil. rewrite Hnil. cbn. split_and!; [by left..|].
        intros t ->%list_elem_of_singleton. lia.
  - split_and!; [done| |].
    + intros n. rewrite Hkeys. unfold times_of. rewrite omap_app. cbn. by rewrite app_nil_r.
    + intros n r Hin. apply range_right_other; [done|by apply Hr].
Qed.

(** The timeline replays: whatever was loaded, refreshed and pushed, the picture at any entry,
    taken from a checkpoint, is the replay of the history up to that entry; a timeline that
    follows a directory is in the order of the times; and the lists of entities and of their
    first and last times are those of the entries. *)
Theorem timeline_replays {H : HashFns} `{Codec} (tl : ClusterTimeline) : timeline_reachable tl →
  (∀ now now' idx, (idx < length (tl_entries tl))%nat →
     snapshot_at now idx tl = replay now' (take (S idx) (tl_entries tl))) ∧
  (is_Some (tl_live tl) → StronglySorted earlier (tl_entries tl)) ∧
  NoDup (tl_ids tl) ∧ (∀ i, i ∈ tl_ids tl ↔ ∃ e, e ∈ tl_entries tl ∧ entity_id e = i) ∧
  NoDup (tl_ranges tl).*1 ∧ (∀ n, n ∈ (tl_ranges tl).*1 ↔ times_of n (tl_entries tl) ≠ []) ∧
  ∀ n r, (n, r) ∈ tl_ranges tl → range_right (tl_entries tl) n r.
Proof.
  intros [Hix Hids Hranges Hsorted]%reachable_ok.
  destruct (ids_of_spec (tl_entries tl)) as (Hnd & _ & Hin). rewrite <- Hids in Hnd, Hin.
  destruct (ranges_of_spec (tl_entries tl)) as (Hnd' & Hkeys & Hright). rewrite <- Hranges in Hnd', Hkeys, Hright.
  split_and!; [|done..]. intros. by apply snapshot_at_replay.
Qed.

(** ** Two events pushed to an empty timeline *)

Module Pushes.

Definition warn (t : Z) : Event := mkEvent t (EClient (WarningEvent "slow")).
Definition pushed : ClusterTimeline :=
  push_node_event "n1" (warn 3) (push_node_event "n2" (warn 7) (timeline_new 0)).

#[local] Existing Instance zero_hashes.
#[local] Instance codec : Codec := {|
  event_of_cobs := λ _, None;
  coordinator_of_bytes := λ _,
    mkCoordinator (fs_new 32) WaitingForMembers (ModelLLM LLM_dummy)
      (mkConfig 30 30 60 10 0 600 1000 1 1 0 4 4 0 5) Progress_default EpochState_zeroed 100 sb_FALSE;
  coordinator_size := 4;
  from_timestamp_millis := λ ms, Some (ms * 10 ^ 6);
  base58 := λ _, "";
|}.

Lemma timeline_replays_witness :
  snapshot_at 99 1 pushed = replay 0 (take 2 (tl_entries pushed)) ∧ tl_ids pushed = ["n2"; "n1"].
Proof.
  split; [|vm_compute; reflexivity].
  apply (timeline_replays pushed); [|vm_compute; lia].
  eapply reach_step; [eapply reach_step; [apply (reach_new 0)|]|]; apply step_push_node; intros [? ?]; discriminate.
Defined.
End Pushes.
