(* ===== verification/TimelineFollow.v ===== *)
(** * Following a directory

    Reading only what the files have gained since the last look gives the entries that a
    fresh load of the directory would give, as long as the files grow by whole frames and
    records.  When a file was read in the middle of a frame, that frame is lost. *)

From stdpp Require Import base tactics list numbers decidable gmap sets strings sorting fin_sets.
From S2P Require Import Prelude StableSort CoreTypes Hashing CoordinatorState Committee DataSelection Projection EventStore Timeline TimelineThms.

Open Scope Z_scope.

(** ** Gathering by path *)

Notation path := (string * string)%type.

Definition gather (h : path → list TimelineEntry) (X : gset path) : list TimelineEntry :=
  concat (h <$> elements X).

#[local] Instance concat_perm : Proper ((≡ₚ) ==> (≡ₚ)) (@concat TimelineEntry).
Proof.
  intros l l' Hl. induction Hl as [|x l l' _ IH|x y l|]; cbn; [done|by rewrite IH| |by etrans].
  rewrite !app_assoc. by rewrite (Permutation_app_comm y x).
Qed.

Lemma gather_union h X Y : X ## Y → gather h (X ∪ Y) ≡ₚ gather h X ++ gather h Y.
Proof. intros HXY. unfold gather. by rewrite elements_disj_union, fmap_app, concat_app. Qed.

Lemma gather_app h1 h2 X : gather (λ p, h1 p ++ h2 p) X ≡ₚ gather h1 X ++ gather h2 X.
Proof.
  unfold gather. induction (elements X) as [|p l IH]; cbn; [done|]. rewrite IH, <- !app_assoc.
  f_equiv. rewrite !app_assoc. f_equiv. apply Permutation_app_comm.
Qed.

Lemma gather_ext h1 h2 X : (∀ p, p ∈ X → h1 p = h2 p) → gather h1 X = gather h2 X.
Proof.
  intros Heq. unfold gather. f_equal. apply list_fmap_ext. intros i p Hp. apply Heq.
  apply elem_of_elements. by eapply list_elem_of_lookup_2.
Qed.

Lemma gather_none h X : (∀ p, p ∈ X → h p = []) → gather h X = [].
Proof.
  intros Hnil. rewrite (gather_ext h (λ _, [])) by done. unfold gather.
  induction (elements X); cbn; [done|by rewrite IHl].
Qed.

Lemma gather_list h l : NoDup l → concat (h <$> l) ≡ₚ gather h (list_to_set l).
Proof. intros Hnd. unfold gather. by rewrite elements_list_to_set. Qed.

Section Follow.
Context {H : HashFns} `{Codec}.

(** ** Whole frames and records *)

Definition at_node (node : string) : NodeDir := mkNodeDir node None.

(** The bytes of a file end where a frame or a record ends. *)
Definition whole (node : string) (data : list Z) : Prop :=
  if is_coord (at_node node) then ∃ n, length data = (n * COORD_RECORD_SIZE)%nat
  else ∃ fs, data = concat fs ∧ Forall framed fs.

Lemma whole_app node data more : whole node data → whole node more → whole node (data ++ more).
Proof.
  unfold whole. destruct (is_coord _).
  - intros [n Hn] [n' Hn']. exists (n + n')%nat. rewrite length_app. lia.
  - intros (fs & -> & Hfs) (gs & -> & Hgs). exists (fs ++ gs). rewrite concat_app. split; [done|].
    by apply list.Forall_app.
Qed.

Lemma records_fuel {E} fuel fuel' data : (length data <= fuel)%nat → (length data <= fuel')%nat →
  records_loop (E := E) fuel data = records_loop fuel' data.
Proof.
  revert fuel' data. induction fuel as [|fuel IH]; intros fuel' data Hf Hf'.
  - destruct data; [|cbn in Hf; lia]. by destruct fuel'.
  - destruct fuel' as [|fuel']; [destruct data; [done|cbn in Hf'; lia]|]. cbn [records_loop].
    destruct (Nat.leb_spec COORD_RECORD_SIZE (length data)) as [Hle|]; [|done].
    rewrite (IH fuel'); [done|..]; rewrite length_drop; unfold COORD_RECORD_SIZE in *; lia.
Qed.

Lemma decode_record {E} data : (COORD_RECORD_SIZE <= length data)%nat →
  decode_coordinator_records (E := E) data =
  (let timestamp := default 0 (from_timestamp_millis (i64_from_le_bytes (take 8 data))) in
   snapshot ← coordinator_to_snapshot timestamp (coordinator_of_bytes (take coordinator_size (drop 8 data)));
   rest ← decode_coordinator_records (drop COORD_RECORD_SIZE data);
   Ok ((timestamp, snapshot) :: rest)).
Proof.
  intros Hlen. unfold decode_coordinator_records at 1.
  destruct (length data) as [|n] eqn:Hn; [unfold COORD_RECORD_SIZE in Hlen; lia|].
  cbn [records_loop]. rewrite Hn, (proj2 (Nat.leb_le _ _)) by done. unfold decode_coordinator_records.
  by rewrite (records_fuel n (length (drop COORD_RECORD_SIZE data)))
    by (rewrite ?length_drop, ?Hn; unfold COORD_RECORD_SIZE in *; lia).
Qed.

Lemma decode_records_app {E} n data more : length data = (n * COORD_RECORD_SIZE)%nat →
  decode_coordinator_records (E := E) (data ++ more) =
  (rs ← decode_coordinator_records data; rs' ← decode_coordinator_records more; Ok (rs ++ rs')).
Proof.
  revert data. induction n as [|n IH]; intros data Hlen.
  - destruct data; [|done]. cbn [app]. by destruct (decode_coordinator_records more) as [rs'|e|].
  - assert (Hle : (COORD_RECORD_SIZE <= length data)%nat) by lia.
    rewrite (decode_record (data ++ more)), (decode_record data) by (rewrite ?length_app; lia).
    rewrite (take_app_le data more 8), (drop_app_le data more 8) by (unfold COORD_RECORD_SIZE in *; lia).
    rewrite (take_app_le (drop 8 data)) by (rewrite length_drop; unfold COORD_RECORD_SIZE in *; lia).
    rewrite (drop_app_le data more COORD_RECORD_SIZE) by done. cbn zeta.
    destruct (coordinator_to_snapshot _ _); [|done..]. unfold mbind, res_bind.
    rewrite (IH (drop COORD_RECORD_SIZE data)) by (rewrite length_drop; lia).
    unfold mbind, res_bind. destruct (decode_coordinator_records (drop _ data)); [|done..].
    by destruct (decode_coordinator_records more).
Qed.

Lemma decode_records_length {E} n data rs : length data = (n * COORD_RECORD_SIZE)%nat →
  decode_coordinator_records (E := E) data = Ok rs → length rs = n.
Proof.
  revert data rs. induction n as [|n IH]; intros data rs Hlen.
  - destruct data; [|done]. by intros [= <-].
  - rewrite decode_record by lia. intros (s & _ & Hrs)%res_bind_Ok.
    apply res_bind_Ok in Hrs as (rest & Hrest & [= <-]). cbn. f_equal.
    eapply IH; [|exact Hrest]. rewrite length_drop. lia.
Qed.

(** Reading whole bytes leaves the cursor at their end, and reading in two parts is reading
    once. *)
Lemma read_whole {E} node data es c : whole node data →
  read_entries (E := E) (at_node node) data = Ok (es, c) → c = zlen data.
Proof.
  unfold whole, read_entries. destruct (is_coord _).
  - intros [n Hn] (rs & Hrs & [= _ <-])%res_bind_Ok. apply (decode_records_length n) in Hrs as Hl; [|done].
    unfold zlen. rewrite Hl, Hn. lia.
  - intros (fs & -> & Hfs). pose proof (read_frames_run event_of_cobs fs [] Hfs (list.Forall_nil_2 _)) as Hr.
    rewrite app_nil_r in Hr. rewrite Hr. intros [= _ <-]. unfold zlen. cbn. lia.
Qed.

Lemma read_parts {E} node data more : whole node data → whole node more →
  read_entries (E := E) (at_node node) (data ++ more) =
  ('(es, c) ← read_entries (at_node node) data; '(es', c') ← read_entries (at_node node) more;
   Ok (es ++ es', c + c')).
Proof.
  unfold whole, read_entries. destruct (is_coord _).
  - intros [n Hn] _. rewrite (decode_records_app n) by done.
    destruct (decode_coordinator_records data) as [rs|?|]; [|done..]. cbn.
    destruct (decode_coordinator_records more) as [rs'|?|]; [|done..]. cbn.
    rewrite fmap_app. do 2 f_equal. unfold zlen. rewrite length_app. lia.
  - intros (fs & -> & Hfs) (gs & -> & Hgs). rewrite <- concat_app.
    assert (Hr : ∀ l, Forall framed l → read_frames event_of_cobs (concat l) = (omap event_of_cobs l, [])).
    { intros l Hl. pose proof (read_frames_run event_of_cobs l [] Hl (list.Forall_nil_2 _)) as Hr.
      by rewrite app_nil_r in Hr. }
    rewrite !Hr by (try apply list.Forall_app; done). cbn. rewrite omap_app, fmap_app.
    do 2 f_equal. unfold zlen. rewrite concat_app, length_app. cbn. lia.
Qed.

(** ** Directories as maps from paths to bytes *)

Notation Files := (gmap path (list Z * Z)).

Definition data_at (m : Files) (p : path) : list Z := default [] (fst <$> m !! p).
Definition entries_in (node : string) (data : list Z) : list TimelineEntry :=
  match read_entries (E := IoError) (at_node node) data with Ok (es, _) => es | _ => [] end.
Definition all_entries (m : Files) : list TimelineEntry :=
  gather (λ p, entries_in p.1 (data_at m p)) (dom m).

Definition path_of (df : NodeDir * DataFile) : path := (dir_node df.1, df_name df.2).
Definition files_of (nodes : list NodeDir) : list (NodeDir * DataFile) :=
  concat ((λ d, (λ f, (d, f)) <$> data_files d (default [] (dir_files d))) <$> nodes).

(** The scan of the directory finds the files of [m], each once, and can read them. *)
Definition file_holds (m : Files) (df : NodeDir * DataFile) : Prop :=
  ∃ data t, m !! path_of df = Some (data, t) ∧ df_data df.2 = Some data ∧
    df_meta df.2 = Some (zlen data, Some t).
Definition dir_holds (nodes : list NodeDir) (m : Files) : Prop :=
  Forall (λ d, is_Some (dir_files d)) nodes ∧ NoDup (path_of <$> files_of nodes) ∧
  Forall (file_holds m) (files_of nodes) ∧ dom m = list_to_set (path_of <$> files_of nodes).

(** The files end with whole frames, and no coordinator in them makes the decoding panic. *)
Definition files_whole (m : Files) : Prop :=
  map_Forall (λ p '(data, _), whole p.1 data ∧ is_ok (read_entries (E := IoError) (at_node p.1) data) = true) m.

(** Files grow by whole frames, their times change when they do, and none goes. *)
Definition grown (m m' : Files) : Prop :=
  ∀ p data t, m !! p = Some (data, t) →
    ∃ more t', m' !! p = Some (data ++ more, t') ∧ whole p.1 more ∧ (t' = t → more = []).

Lemma entries_in_nil node : entries_in node [] = [].
Proof. unfold entries_in, read_entries. by destruct (is_coord _). Qed.

Lemma read_is_ok node data : is_ok (read_entries (E := IoError) (at_node node) data) = true →
  whole node data → read_entries (E := IoError) (at_node node) data = Ok (entries_in node data, zlen data).
Proof.
  unfold entries_in. intros Hok Hw. destruct (read_entries _ data) as [[es c]|?|] eqn:Hr; [|done..].
  by apply read_whole in Hr as ->.
Qed.

(** Two whole parts of a file that can be read. *)
Lemma entries_in_app node data more : whole node data → whole node more →
  is_ok (read_entries (E := IoError) (at_node node) (data ++ more)) = true →
  is_ok (read_entries (E := IoError) (at_node node) more) = true ∧
  entries_in node (data ++ more) = entries_in node data ++ entries_in node more.
Proof.
  intros Hd Hm. unfold entries_in. rewrite read_parts by done.
  destruct (read_entries _ data) as [[es c]|?|]; [|done..].
  by destruct (read_entries _ more) as [[es' c']|?|].
Qed.

(** *** Scanning *)

Lemma scan_files nodes sizes : Forall (λ d, is_Some (dir_files d)) nodes →
  ∃ sizes', scan_dir nodes sizes = Ok (files_of nodes, sizes').
Proof.
  revert sizes. induction nodes as [|d nodes IH]; intros sizes Hall; [by exists sizes|].
  apply list.Forall_cons in Hall as [[files Hd] Hall]. cbn [scan_dir]. rewrite Hd. cbn [ok_or mbind res_bind].
  match goal with |- context [scan_dir nodes ?s] => destruct (IH s Hall) as [sizes' ->] end.
  exists sizes'. unfold files_of. cbn. by rewrite Hd.
Qed.

Lemma refresh_flat {E} cur nodes acc :
  res_fold (E := E) (refresh_node cur) nodes acc =
  res_fold (λ df, refresh_file cur df.1 df.2) (files_of nodes) acc.
Proof.
  revert acc. induction nodes as [|d nodes IH]; intros acc; [done|]. unfold files_of. cbn [res_fold fmap list_fmap concat].
  rewrite res_fold_app. unfold refresh_node.
  assert (Hinner : ∀ l a, res_fold (refresh_file cur d) l a =
    res_fold (E := E) (λ df, refresh_file cur df.1 df.2) ((λ f, (d, f)) <$> l) a).
  { induction l as [|f l IHl]; intros a; [done|]. cbn. destruct (refresh_file _ _ _ _); [apply IHl|done..]. }
  rewrite <- Hinner. destruct (res_fold _ _ acc) as [a|?|]; [|done..]. apply IH.
Qed.

(** *** The timeline holds what is in the files *)

Definition positions_of (m : Files) : gmap path (Z * Z) := (λ '(data, t), (zlen data, t)) <$> m.

Lemma positions_lookup (m : Files) p : positions_of m !! p = (λ '(data, t), (zlen data, t)) <$> m !! p.
Proof. apply lookup_fmap. Qed.

Record follows (tl : ClusterTimeline) (m : Files) : Prop := {
  fo_ok : timeline_ok tl;
  fo_whole : files_whole m;
  fo_entries : tl_entries tl ≡ₚ all_entries m;
  fo_positions : ∃ sizes, tl_live tl = Some (mkLiveSource (positions_of m) sizes);
}.

(** Gathering over the files of a scan. *)
Lemma gather_files h nodes m : dir_holds nodes m →
  concat ((λ df, h (path_of df)) <$> files_of nodes) ≡ₚ gather h (dom m).
Proof.
  intros (_ & Hnd & _ & ->). rewrite <- gather_list by done. by rewrite <- list_fmap_compose.
Qed.

Lemma load_files m l acc : files_whole m → Forall (file_holds m) l →
  ∃ positions, res_fold load_file l acc =
    Ok (acc.1 ++ concat ((λ df, entries_in (path_of df).1 (data_at m (path_of df))) <$> l), positions) ∧
  ∀ p, positions !! p = if decide (p ∈ path_of <$> l) then positions_of m !! p else acc.2 !! p.
Proof.
  intros Hm. revert acc. induction l as [|[d f] l IH]; intros [raw pos] Hl.
  { exists pos. cbn. rewrite app_nil_r. split; [done|]. intros p. by rewrite decide_False by set_solver. }
  apply list.Forall_cons in Hl as [(data & t & Hp & Hdata & Hmeta) Hl]. cbn in Hdata, Hmeta.
  destruct (Hm _ _ Hp) as [Hw Hok]. cbn [res_fold]. unfold load_file at 2. rewrite Hdata.
  unfold mbind, res_bind, ok_or.
  change (read_entries d data) with (read_entries (E := IoError) (at_node (path_of (d, f)).1) data). rewrite read_is_ok by done.
  destruct (IH (raw ++ entries_in (path_of (d, f)).1 data, <[path_of (d, f) := (zlen data, mtime_of f)]> pos) Hl)
    as (positions & Hfold & Hpos).
  exists positions. split.
  - etrans; [exact Hfold|]. cbn [fst fmap list_fmap concat].
    assert (Hda : data_at m (path_of (d, f)) = data) by (unfold data_at; by rewrite Hp).
    by rewrite Hda, <- app_assoc.
  - intros p. rewrite Hpos. cbn [fmap list_fmap snd]. destruct (decide (p = path_of (d, f))) as [->|Hne].
    + rewrite (decide_True (P := _ ∈ _ :: _)) by set_solver. case_decide; [done|].
      rewrite lookup_insert, decide_True by done. unfold mtime_of. by rewrite positions_lookup, Hp, Hmeta.
    + rewrite lookup_insert_ne by done. destruct (decide (p ∈ path_of <$> l)) as [Hin|Hnin].
      * by rewrite decide_True by (by right).
      * by rewrite decide_False by (rewrite elem_of_cons; tauto).
Qed.

Lemma load_follows now nodes m : dir_holds nodes m → files_whole m →
  ∃ tl, from_events_dir now (Some nodes) = Ok tl ∧ follows tl m.
Proof.
  intros Hdir Hm. pose proof Hdir as (Hlist & Hnd & Hfiles & Hdom).
  destruct (scan_files nodes ∅ Hlist) as [sizes Hscan].
  destruct (load_files m (files_of nodes) ([], ∅) Hm Hfiles) as (positions & Hload & Hpos).
  assert (Hpositions : positions = positions_of m).
  { apply map_eq. intros p. rewrite Hpos. case_decide as Hin; [done|]. cbn. rewrite lookup_empty. symmetry.
    rewrite positions_lookup. apply fmap_None, not_elem_of_dom. rewrite Hdom. set_solver. }
  assert (Hex : ∃ tl, from_events_dir now (Some nodes) = Ok tl).
  { unfold from_events_dir. cbn [ok_or mbind res_bind]. rewrite Hscan. cbn [mbind res_bind].
    rewrite Hload. cbn [mbind res_bind]. by eexists. }
  destruct Hex as [tl Htl]. exists tl. split; [done|].
  apply load_inv in Htl as (? & ? & ? & raw & ? & [= <-] & Hscan' & Hraw & Hok & Hes & Hlive).
  rewrite Hscan in Hscan'. injection Hscan' as <- <-. rewrite Hload in Hraw. injection Hraw as <- <-.
  split; [done..| |].
  - rewrite Hes. by apply (gather_files (λ p, entries_in p.1 (data_at m p))).
  - exists sizes. by rewrite Hlive, Hpositions.
Qed.

(** What a refresh reads of each file. *)
Definition gained (m m' : Files) (p : path) : list Z := drop (length (data_at m p)) (data_at m' p).

(** What a refresh needs to know of a file: how its bytes have grown. *)
Lemma grown_file m m' p data' t' : files_whole m → files_whole m' → grown m m' → m' !! p = Some (data', t') →
  data' = data_at m p ++ gained m m' p ∧ whole p.1 (data_at m p) ∧ whole p.1 (gained m m' p) ∧
  is_ok (read_entries (E := IoError) (at_node p.1) (gained m m' p)) = true ∧
  entries_in p.1 data' = entries_in p.1 (data_at m p) ++ entries_in p.1 (gained m m' p) ∧
  (snd <$> m !! p = Some t' → gained m m' p = []).
Proof.
  intros Hm Hm' Hg Hp'. destruct (Hm' _ _ Hp') as [Hw' Hok'].
  assert (Hd' : data_at m' p = data') by (unfold data_at; by rewrite Hp').
  destruct (m !! p) as [[data t]|] eqn:Hp.
  - destruct (Hg _ _ _ Hp) as (more & t1 & Hp1 & Hwm & Hsame). rewrite Hp' in Hp1. injection Hp1 as -> ->.
    destruct (Hm _ _ Hp) as [Hw _].
    assert (Hd : data_at m p = data) by (unfold data_at; by rewrite Hp).
    unfold gained. rewrite Hd, Hd', drop_app_length.
    destruct (entries_in_app p.1 data more Hw Hwm Hok') as [Hokm Happ].
    split_and!; [done..|]. intros [= ->]. by apply Hsame.
  - assert (Hd : data_at m p = []) by (unfold data_at; by rewrite Hp).
    unfold gained. rewrite Hd, Hd', drop_0, entries_in_nil. split_and!; try done.
    unfold whole. destruct (is_coord _); [by exists 0%nat|]. exists []. split; [done|constructor].
Qed.

Lemma refresh_one m m' d f acc : files_whole m → files_whole m' → grown m m' → file_holds m' (d, f) →
  rf_positions acc !! path_of (d, f) = None →
  ∃ r, refresh_file (E := IoError) (positions_of m) d f acc = Ok r ∧
    rf_new_entries r = rf_new_entries acc ++ entries_in (dir_node d) (gained m m' (path_of (d, f))) ∧
    (rf_positions r ∪ positions_of m) !! path_of (d, f) = positions_of m' !! path_of (d, f) ∧
    ∀ q, q ≠ path_of (d, f) → rf_positions r !! q = rf_positions acc !! q.
Proof.
  intros Hm Hm' Hg (data & t & Hp & Hdata & Hmeta) Hnone. cbn in Hdata, Hmeta.
  destruct (grown_file _ _ _ _ _ Hm Hm' Hg Hp) as (Hsplit & Hw & Hwg & Hokg & _ & Hsame).
  unfold refresh_file. rewrite Hmeta, Hdata. cbn [default]. fold (path_of (d, f)).
  change (dir_node d, df_name f) with (path_of (d, f)).
  assert (Hcur : snd <$> positions_of m !! path_of (d, f) = snd <$> m !! path_of (d, f)).
  { rewrite positions_lookup. by destruct (m !! path_of (d, f)) as [[]|]. }
  assert (Hstart : default 0 (fst <$> positions_of m !! path_of (d, f)) = zlen (data_at m (path_of (d, f)))).
  { rewrite positions_lookup. unfold data_at. by destruct (m !! path_of (d, f)) as [[]|]. }
  rewrite Hcur, Hstart. case_bool_decide as Ht.
  - eexists. split; [done|]. cbn [rf_new_entries rf_positions]. split_and!; [|clear Hcur Hstart|done].
    + by rewrite (Hsame Ht), entries_in_nil, app_nil_r.
    + rewrite lookup_union, Hnone, (left_id_L None (∪)), !positions_lookup, Hp.
      rewrite (Hsame Ht), app_nil_r in Hsplit. destruct (m !! path_of (d, f)) as [[data0 t0]|] eqn:Hold; [|done].
      injection Ht as ->. cbn. unfold data_at in Hsplit. rewrite Hold in Hsplit. cbn in Hsplit. by subst.
  - assert (Hdrop : drop (Z.to_nat (zlen (data_at m (path_of (d, f))))) data = gained m m' (path_of (d, f))).
    { unfold zlen. rewrite Nat2Z.id, Hsplit at 1. by rewrite drop_app_length. }
    rewrite Hdrop. change (read_entries d ?x) with (read_entries (E := IoError) (at_node (path_of (d, f)).1) x).
    rewrite read_is_ok by done. eexists. split; [done|]. cbn [rf_new_entries rf_positions]. split_and!; [done| |].
    + rewrite lookup_union, lookup_insert, decide_True, (positions_lookup m'), Hp by done. cbn.
      assert (Hlen : zlen data = zlen (data_at m (path_of (d, f))) + zlen (gained m m' (path_of (d, f)))).
      { rewrite Hsplit at 1. unfold zlen. rewrite length_app. lia. }
      rewrite Hlen. by destruct (positions_of m !! _).
    + intros q Hq. by rewrite lookup_insert_ne.
Qed.

Lemma refresh_files m m' l acc : files_whole m → files_whole m' → grown m m' → Forall (file_holds m') l →
  NoDup (path_of <$> l) → (∀ p, p ∈ path_of <$> l → rf_positions acc !! p = None) →
  ∃ r, res_fold (E := IoError) (λ df, refresh_file (positions_of m) df.1 df.2) l acc = Ok r ∧
    rf_new_entries r = rf_new_entries acc ++
      concat ((λ df, entries_in (path_of df).1 (gained m m' (path_of df))) <$> l) ∧
    (∀ p, p ∈ path_of <$> l → (rf_positions r ∪ positions_of m) !! p = positions_of m' !! p) ∧
    ∀ p, p ∉ path_of <$> l → rf_positions r !! p = rf_positions acc !! p.
Proof.
  intros Hm Hm' Hg. revert acc. induction l as [|[d f] l IH]; intros acc Hl Hnd Hnone.
  { exists acc. cbn. rewrite app_nil_r. split_and!; [done..| |done]. by intros p ?%not_elem_of_nil. }
  apply list.Forall_cons in Hl as [Hf Hl]. cbn [fmap list_fmap] in Hnd, Hnone |- *.
  apply list.NoDup_cons in Hnd as [Hnot Hnd].
  destruct (refresh_one m m' d f acc) as (acc1 & Hone & Hnew1 & Hpos1 & Hrest1); [done..|by apply Hnone; left|].
  destruct (IH acc1 Hl Hnd) as (r & Hr & Hnew & Hpos & Hrest).
  { intros p Hin. rewrite Hrest1 by (by intros ->). apply Hnone. by right. }
  exists r. cbn [res_fold fst snd]. rewrite Hone. split_and!; [done| | |].
  - rewrite Hnew, Hnew1. cbn [concat]. by rewrite <- app_assoc.
  - intros p [->|Hin]%elem_of_cons; [|by apply Hpos].
    rewrite <- Hpos1, !lookup_union. by rewrite (Hrest _ Hnot).
  - intros p Hin. rewrite elem_of_cons in Hin. rewrite Hrest, Hrest1 by tauto. done.
Qed.

Lemma grown_dom m m' : grown m m' → dom m ⊆ dom m'.
Proof.
  intros Hg p [[data t] Hp]%elem_of_dom. destruct (Hg _ _ _ Hp) as (? & ? & Hp' & _).
  apply elem_of_dom. by eexists.
Qed.

(** The entries of grown files: those that were there, and those gained. *)
Lemma all_entries_grown m m' : files_whole m → files_whole m' → grown m m' →
  all_entries m' ≡ₚ all_entries m ++ gather (λ p, entries_in p.1 (gained m m' p)) (dom m').
Proof.
  intros Hm Hm' Hg. unfold all_entries at 1.
  rewrite (gather_ext _ (λ p, entries_in p.1 (data_at m p) ++ entries_in p.1 (gained m m' p))).
  2:{ intros p [[data' t'] Hp']%elem_of_dom.
      destruct (grown_file _ _ _ _ _ Hm Hm' Hg Hp') as (_ & _ & _ & _ & Happ & _).
      unfold data_at at 1. by rewrite Hp'. }
  rewrite gather_app. f_equiv.
  rewrite (union_difference_L (dom m) (dom m')) by (by apply grown_dom).
  rewrite gather_union by set_solver.
  rewrite (gather_none _ (dom m' ∖ dom m)); [by rewrite app_nil_r|].
  intros p [_ Hp]%elem_of_difference. apply not_elem_of_dom in Hp. unfold data_at. rewrite Hp. apply entries_in_nil.
Qed.

Lemma refresh_follows now nodes' m m' tl : follows tl m → dir_holds nodes' m' → files_whole m' → grown m m' →
  ∃ b tl', refresh (E := IoError) now (Some nodes') tl = Ok (b, tl') ∧ follows tl' m'.
Proof.
  intros [Hok Hm Hes [sizes Hlive]] Hdir Hm' Hg. pose proof Hdir as (_ & Hnd & Hfiles & Hdom).
  destruct (refresh_files m m' (files_of nodes') (mkRefresh [] ∅ ∅)) as (r & Hr & Hnew & Hpos & Hrest); [done..|].
  assert (Hex : ∃ b tl', refresh (E := IoError) now (Some nodes') tl = Ok (b, tl')).
  { unfold refresh. rewrite Hlive. cbn [ls_file_positions]. rewrite refresh_flat, Hr.
    unfold mbind, res_bind. destruct (rf_new_entries r); by eexists _, _. }
  destruct Hex as (b & tl' & Href). exists b, tl'. split; [done|].
  apply refresh_inv in Href as [Hok' Hres]; [|done]. rewrite Hlive in Hres.
  destruct Hres as (r' & Hr' & Hes' & Hlive'). cbn [ls_file_positions] in Hr', Hlive'.
  rewrite refresh_flat, Hr in Hr'. injection Hr' as <-. split; [done..| |].
  - rewrite Hes', Hes, Hnew, (all_entries_grown m m') by done. f_equiv.
    by apply (gather_files (λ p, entries_in p.1 (gained m m' p))).
  - exists (rf_sizes r). rewrite Hlive'. do 2 f_equal. apply map_eq. intros p.
    destruct (decide (p ∈ path_of <$> files_of nodes')) as [Hin|Hnin]; [by apply Hpos|].
    assert (Hnot : p ∉ dom m') by (rewrite Hdom; set_solver).
    rewrite lookup_union, (Hrest p Hnin), !positions_lookup.
    rewrite (proj1 (not_elem_of_dom m' p)) by done.
    by rewrite (proj1 (not_elem_of_dom m p)) by (intros ?%(grown_dom _ _ Hg); done).
Qed.

(** *** Looking again and again *)

Inductive growing : Files → list (Z * list NodeDir) → Files → Prop :=
| growing_nil m : growing m [] m
| growing_cons m now nodes m1 steps m2 : dir_holds nodes m1 → files_whole m1 → grown m m1 →
    growing m1 steps m2 → growing m ((now, nodes) :: steps) m2.

Definition refresh_all (steps : list (Z * list NodeDir)) (tl : ClusterTimeline) : res IoError ClusterTimeline :=
  res_fold (λ '(now, nodes) tl, '(_, tl') ← refresh now (Some nodes) tl; Ok tl') steps tl.

Lemma refresh_all_follows m steps m' tl : growing m steps m' → follows tl m →
  ∃ tl', refresh_all steps tl = Ok tl' ∧ follows tl' m'.
Proof.
  intros Hg. revert tl. induction Hg as [m|m now nodes m1 steps m2 Hdir Hw Hgr _ IH]; intros tl Hf; [by exists tl|].
  destruct (refresh_follows now nodes m m1 tl) as (b & tl1 & Href & Hf1); [done..|].
  destruct (IH tl1 Hf1) as (tl' & Hall & Hf'). exists tl'. split; [|done].
  unfold refresh_all. cbn [res_fold]. by rewrite Href.
Qed.

(** Nothing is missed: a timeline that was loaded once and refreshed while the files grew by
    whole frames and records has the entries of a fresh load of the directory. *)
Theorem refresh_misses_nothing now nodes m steps m' now' nodes' :
  dir_holds nodes m → files_whole m → growing m steps m' → dir_holds nodes' m' → files_whole m' →
  ∃ tl0 tl tl', from_events_dir now (Some nodes) = Ok tl0 ∧ refresh_all steps tl0 = Ok tl ∧
    from_events_dir now' (Some nodes') = Ok tl' ∧ tl_entries tl ≡ₚ tl_entries tl'.
Proof.
  intros Hdir Hw Hg Hdir' Hw'.
  destruct (load_follows now nodes m Hdir Hw) as (tl0 & Hload & Hf).
  destruct (refresh_all_follows _ _ _ _ Hg Hf) as (tl & Hall & Hf2).
  destruct (load_follows now' nodes' m' Hdir' Hw') as (tl' & Hload' & Hf').
  exists tl0, tl, tl'. split_and!; [done..|]. by rewrite (fo_entries _ _ Hf2), (fo_entries _ _ Hf').
Qed.
End Follow.

(** ** A frame read half is lost *)

Section HalfFrames.
Context {T : Type} (from_bytes_cobs : list Z → option T).

Lemma framed_parts f1 f2 : framed (f1 ++ f2) → f2 ≠ [] → Forall (λ b, b ≠ 0) f1 ∧ framed f2.
Proof.
  intros (body & Heq & Hbody) Hne. destruct (exists_last Hne) as (g & z & ->).
  rewrite app_assoc in Heq. apply app_inj_tail in Heq as [<- ->].
  apply list.Forall_app in Hbody as [H1 H2]. split; [done|]. by exists g.
Qed.

(** The cursor passes the half that is there, so the next look sees only the other half:
    the event of the frame is read by a fresh load and by no refresh. *)
Theorem half_frame_is_lost fs f1 f2 : Forall framed fs → framed (f1 ++ f2) → f2 ≠ [] →
  read_frames from_bytes_cobs (concat fs ++ f1) = (omap from_bytes_cobs fs, []) ∧
  read_frames from_bytes_cobs f2 = (omap from_bytes_cobs [f2], []) ∧
  read_frames from_bytes_cobs (concat fs ++ f1 ++ f2) = (omap from_bytes_cobs (fs ++ [f1 ++ f2]), []).
Proof.
  intros Hfs Hf Hne. destruct (framed_parts f1 f2 Hf Hne) as [H1 H2].
  split_and!; [by apply read_frames_run| |].
  - pose proof (read_frames_run from_bytes_cobs [f2] []) as Hr. cbn [concat] in Hr.
    rewrite !app_nil_r in Hr. apply Hr; by repeat constructor.
  - pose proof (read_frames_run from_bytes_cobs (fs ++ [f1 ++ f2]) []) as Hr.
    rewrite concat_app, app_nil_r in Hr. cbn [concat] in Hr. rewrite app_nil_r in Hr.
    apply Hr; [|constructor]. apply list.Forall_app. by repeat constructor.
Qed.

(** Pieces of a file: events as they were written, and frames that were damaged. *)
Definition piece_bytes (encode : T → list Z) (p : T + list Z) : list Z :=
  match p with inl e => encode e | inr f => f end.
Definition piece_event (p : T + list Z) : option T := match p with inl e => Some e | inr _ => None end.
Definition damaged (p : T + list Z) : Prop :=
  match p with inl _ => True | inr f => framed f ∧ from_bytes_cobs f = None end.

(** Events survive damage: from a file in which frames were damaged and whose writer stopped
    in the middle of a frame, exactly the events whose frames are whole are read, in order. *)
Theorem events_survive_damage (encode : T → list Z) pieces tail :
  (∀ e, framed (encode e)) → (∀ e, from_bytes_cobs (encode e) = Some e) →
  Forall damaged pieces → Forall (λ b, b ≠ 0) tail →
  read_frames from_bytes_cobs (concat (piece_bytes encode <$> pieces) ++ tail) = (omap piece_event pieces, []).
Proof.
  intros Hframed Hdec Hdam Htail. rewrite read_frames_run; [|clear -Hframed Hdam|done].
  - f_equal. clear -Hdec Hdam. induction Hdam as [|p ps Hp _ IH]; [done|]. cbn. rewrite IH.
    destruct p as [e|f]; cbn; [by rewrite Hdec|]. destruct Hp as [_ Hp]. by rewrite Hp.
  - induction Hdam as [|p ps Hp _ IH]; [constructor|]. cbn. constructor; [|done].
    destruct p as [e|f]; cbn; [done|]. by destruct Hp.
Qed.
End HalfFrames.

(** ** A directory of one node *)

Module Sample.

Definition warn (t : Z) : Event := mkEvent t (EClient (WarningEvent "slow")).

(** Two events with the frames [1 0] and [2 2 0]. *)
#[export] Instance codec : Codec := {|
  event_of_cobs := λ f, match f with [1; 0] => Some (warn 10) | [2; 2; 0] => Some (warn 5) | _ => None end;
  coordinator_of_bytes := λ _,
    mkCoordinator (fs_new 32) WaitingForMembers (ModelLLM LLM_dummy)
      (mkConfig 30 30 60 10 0 600 1000 1 1 0 4 4 0 5) Progress_default EpochState_zeroed 100 sb_FALSE;
  coordinator_size := 4;
  from_timestamp_millis := λ ms, Some (ms * 10 ^ 6);
  base58 := λ _, "";
|}.

Definition file (name : string) (t : Z) (data : list Z) : DataFile :=
  mkDataFile name (Some (zlen data, Some t)) (Some data).
Definition before : list NodeDir := [mkNodeDir "n1" (Some [file "notes.txt" 1 []; file "a.postcard" 1 [1; 0]])].
Definition after : list NodeDir :=
  [mkNodeDir COORDINATOR_SUBDIR (Some [file "state.bin" 2 (replicate 12 0)]);
   mkNodeDir "n1" (Some [file "a.postcard" 2 [1; 0; 2; 2; 0]; file "notes.txt" 1 []])].
Definition m0 : gmap path (list Z * Z) := {[("n1", "a.postcard") := ([1; 0], 1)]}.
Definition m1 : gmap path (list Z * Z) :=
  {[("n1", "a.postcard") := ([1; 0; 2; 2; 0], 2); (COORDINATOR_SUBDIR, "state.bin") := (replicate 12 0, 2)]}.

#[local] Existing Instance zero_hashes.

Lemma before_holds : dir_holds before m0.
Proof.
  assert (Hfiles : files_of before = [(mkNodeDir "n1" (dir_files (hd (at_node "") before)), file "a.postcard" 1 [1; 0])])
    by (vm_compute; reflexivity).
  unfold dir_holds. rewrite Hfiles. split; [by repeat constructor|]. cbn [fmap list_fmap].
  split; [apply NoDup_singleton|]. split.
  - constructor; [|constructor]. exists [1; 0], 1. split; [apply lookup_singleton_eq|done].
  - unfold m0. rewrite dom_singleton_L. cbn [list_to_set]. by rewrite (right_id_L ∅ (∪)).
Qed.

Lemma after_holds : dir_holds after m1.
Proof.
  assert (Hfiles : files_of after =
    [(mkNodeDir COORDINATOR_SUBDIR (dir_files (hd (at_node "") after)), file "state.bin" 2 (replicate 12 0));
     (mkNodeDir "n1" (dir_files (hd (at_node "") (tl after))), file "a.postcard" 2 [1; 0; 2; 2; 0])])
    by (vm_compute; reflexivity).
  unfold dir_holds. rewrite Hfiles. split; [by repeat constructor|]. cbn [fmap list_fmap].
  split; [apply NoDup_cons; split; [|apply NoDup_singleton]; by intros ?%list_elem_of_singleton|]. split.
  - constructor; [|constructor; [|constructor]].
    + exists (replicate 12 0), 2. split; [|done]. unfold m1.
      rewrite lookup_insert_ne by done. apply lookup_singleton_eq.
    + exists [1; 0; 2; 2; 0], 2. split; [|done]. apply lookup_insert_eq.
  - unfold m1. rewrite dom_insert_L, dom_singleton_L. cbn [list_to_set].
    rewrite (right_id_L ∅ (∪)). apply (comm_L (∪)).
Qed.

Lemma framed_1 : framed [1; 0].
Proof. exists [1]. split; [done|]. by repeat constructor. Qed.
Lemma framed_22 : framed [2; 2; 0].
Proof. exists [2; 2]. split; [done|]. by repeat constructor. Qed.

Lemma m0_whole : files_whole m0.
Proof.
  apply map_Forall_singleton. split; [|vm_compute; reflexivity].
  exists [[1; 0]]. split; [done|]. repeat constructor. apply framed_1.
Qed.
Lemma m1_whole : files_whole m1.
Proof.
  apply map_Forall_insert_2; [|apply map_Forall_singleton]; (split; [|vm_compute; reflexivity]).
  - exists [[1; 0]; [2; 2; 0]]. split; [done|]. repeat constructor; [apply framed_1|apply framed_22].
  - by exists 1%nat.
Qed.
Lemma m0_grown : grown m0 m1.
Proof.
  unfold m0. intros p data t [<- [= <- <-]]%lookup_singleton_Some. exists [2; 2; 0], 2.
  split; [apply lookup_insert_eq|]. split; [|done].
  exists [[2; 2; 0]]. split; [done|]. repeat constructor. apply framed_22.
Qed.

(** The file gains an older event and a coordinator's file appears: the refreshed timeline
    has the three entries a fresh load has. *)
Lemma refresh_misses_nothing_witness : ∃ tl0 tl tl', from_events_dir 0 (Some before) = Ok tl0 ∧
  refresh_all [(1, after)] tl0 = Ok tl ∧ from_events_dir 2 (Some after) = Ok tl' ∧
  tl_entries tl ≡ₚ tl_entries tl'.
Proof.
  apply (refresh_misses_nothing 0 before m0 [(1, after)] m1 2 after).
  - exact before_holds.
  - exact m0_whole.
  - apply (growing_cons _ _ _ m1); [exact after_holds|exact m1_whole|exact m0_grown|constructor].
  - exact after_holds.
  - exact m1_whole.
Defined.

(** The event of a half-written frame: read by a load, missed by a refresh. *)
Example half_frame : 
  read_frames event_of_cobs ([1; 0] ++ [2; 2]) = ([warn 10], []) ∧
  read_frames event_of_cobs [0] = ([], []) ∧
  read_frames event_of_cobs ([1; 0] ++ [2; 2] ++ [0]) = ([warn 10; warn 5], []).
Proof. exact (half_frame_is_lost event_of_cobs [[1; 0]] [2; 2] [0] ltac:(repeat constructor; apply framed_1) framed_22 ltac:(done)). Qed.

(** Numbers written in unary, with one frame that decodes to nothing. *)
Definition unary (n : nat) : list Z := replicate n 1 ++ [0].
Definition unary_of (f : list Z) : option nat :=
  if bool_decide (f = unary (length f - 1)) then Some (length f - 1)%nat else None.

Lemma events_survive_damage_witness :
  read_frames unary_of ([1; 1; 0] ++ [7; 0] ++ [1; 0] ++ [1]) = ([2%nat; 1%nat], []).
Proof.
  apply (events_survive_damage unary_of unary [inl 2%nat; inr [7; 0]; inl 1%nat] [1]).
  - intros n. exists (replicate n 1). split; [done|]. apply Forall_replicate. lia.
  - intros n. unfold unary_of, unary. rewrite length_app, length_replicate. cbn. rewrite Nat.add_sub.
    by rewrite bool_decide_true.
  - repeat constructor. exists [7]. split; [done|]. by repeat constructor.
  - by repeat constructor.
Defined.
End Sample.
