(* ===== verification/ProjectionThms.v ===== *)
(** * What the projection shows

    A node's part of the picture is the fold of that node's own events; the batches of the
    coordinator's step are shown with the node they are assigned to, whatever events come in
    between; and the downloads of a node whose name is longer than the prefix the
    coordinator's states carry are never shown. *)

From stdpp Require Import base tactics list numbers decidable gmap sets strings sorting.
From S2P Require Import Prelude StableSort CoreTypes Hashing CoordinatorState Committee DataSelection Projection EventStore Timeline TimelineThms.

Open Scope Z_scope.

(** ** Nodes stay apart *)

Lemma on_batch_nodes b f s : cl_nodes (on_batch b f s) = cl_nodes s.
Proof. unfold on_batch. by destruct (in_prev b s). Qed.

Lemma apply_to_cluster_nodes n e s : cl_nodes (apply_to_cluster n e s) = cl_nodes s.
Proof.
  destruct e as [ |c|c|p|t| | | ]; try done; cbn.
  - destruct c; try done; destruct (is_witness_call _); done.
  - destruct p; try done; unfold on_blob; try (by rewrite on_batch_nodes);
      destruct (cl_blob_to_batch s !! _); by rewrite ?on_batch_nodes.
  - destruct t; try done; unfold on_blob; rewrite ?on_batch_nodes; try done.
    + by destruct is_witness.
    + destruct (cl_blob_to_batch s !! _); by rewrite ?on_batch_nodes.
    + by destruct (succeeded _).
Qed.

(** The events of one node. *)
Definition own_events (n : string) (es : list TimelineEntry) : list Event :=
  omap (λ e, match e with
             | TNode _ m ev => if decide (m = n) then Some ev else None
             | TCoordinator _ _ => None
             end) es.
Definition node_fold (n : string) (evs : list Event) : NodeSnapshot :=
  foldl (λ s e, apply_to_node e s) (NodeSnapshot_new n) evs.

(** A node's picture is the fold of its own events. *)
Theorem node_shows_its_own_events now n es :
  cl_nodes (replay now es) !! n =
    match own_events n es with [] => None | evs => Some (node_fold n evs) end.
Proof.
  induction es as [|e es IH] using rev_ind; [apply lookup_empty|].
  unfold replay. rewrite apply_all_app. fold (replay now es). cbn [apply_all foldl].
  unfold own_events. rewrite omap_app. fold (own_events n es). destruct e as [t m ev|t u]; cbn.
  - unfold apply_node_event. rewrite apply_to_cluster_nodes. cbn. case_decide as Hm; [subst m|].
    + rewrite lookup_insert_eq, IH. destruct (own_events n es) as [|e0 evs]; [done|].
      cbn [app default]. unfold node_fold. cbn [foldl]. by rewrite foldl_app.
    + rewrite lookup_insert_ne, app_nil_r by done. exact IH.
  - rewrite app_nil_r. unfold apply_coordinator. cbn. case_bool_decide; exact IH.
Qed.

(** ** Assignments are shown *)

Definition keeps_assigned (f : ClusterBatchView → ClusterBatchView) : Prop :=
  ∀ v, bv_assigned_to (f v) = bv_assigned_to v.

(** Who the batches of the current and of the previous step are assigned to. *)
Definition assigned (m : gmap BatchId ClusterBatchView) (b : BatchId) : option (option string) :=
  bv_assigned_to <$> m !! b.

Lemma assigned_alter f m b b' : keeps_assigned f → assigned (alter f b m) b' = assigned m b'.
Proof.
  intros Hf. unfold assigned. destruct (decide (b = b')) as [->|Hne].
  - rewrite lookup_alter_eq. destruct (m !! b'); cbn; [by rewrite Hf|done].
  - by rewrite lookup_alter_ne.
Qed.

Lemma assigned_fmap f m b : keeps_assigned f → assigned (f <$> m) b = assigned m b.
Proof. intros Hf. unfold assigned. rewrite lookup_fmap. destruct (m !! b); cbn; [by rewrite Hf|done]. Qed.

Definition same_assigned (s s' : ClusterSnapshot) : Prop :=
  cl_coordinator s' = cl_coordinator s ∧
  (∀ b, assigned (cl_step_batches s') b = assigned (cl_step_batches s) b) ∧
  ∀ b, assigned (cl_prev_step_batches s') b = assigned (cl_prev_step_batches s) b.

Lemma on_batch_assigned b f s : keeps_assigned f → same_assigned s (on_batch b f s).
Proof. intros Hf. unfold on_batch. destruct (in_prev b s); split_and!; try done; intros; by apply assigned_alter. Qed.

Lemma on_blob_assigned b f s : keeps_assigned f → same_assigned s (on_blob b f s).
Proof. intros Hf. unfold on_blob. destruct (_ !! _); [by apply on_batch_assigned|done]. Qed.

Lemma apply_to_cluster_assigned n e s : same_assigned s (apply_to_cluster n e s).
Proof.
  assert (Hmark : ∀ ok, keeps_assigned (mark_downloaded n ok)).
  { intros ok v. unfold mark_downloaded. by destruct (_ && _). }
  destruct e as [ |c|c|p|t| | | ]; try done; cbn.
  - destruct c; try done; destruct (is_witness_call _); done.
  - destruct p; try done; try by apply on_blob_assigned.
    set (s' := set_cl_blob_to_batch _ s).
    apply (on_batch_assigned batch_id _ s'). intros v. cbn. by destruct (bv_blob v).
  - destruct t; try done; try by apply on_blob_assigned.
    + split_and!; [done|intros; by apply assigned_fmap..].
    + by apply on_batch_assigned.
    + by destruct is_witness.
    + by destruct (succeeded _).
Qed.

Lemma node_event_assigned n e s : same_assigned s (apply_node_event n e s).
Proof. unfold apply_node_event. exact (apply_to_cluster_assigned n (ev_data e) _). Qed.

(** Folding assignments into views, each with the view it writes given what is there. *)
Definition write_views (w : gmap BatchId ClusterBatchView → BatchId → ClusterBatchView)
    (l : list (BatchId * string)) (m : gmap BatchId ClusterBatchView) : gmap BatchId ClusterBatchView :=
  foldl (λ m '(b, n), <[b := set_bv_assigned_to (Some n) (w m b)]> m) m l.

Lemma write_views_other w l m b : b ∉ l.*1 → write_views w l m !! b = m !! b.
Proof.
  revert m. induction l as [|[b0 n0] l IH]; intros m Hb; [done|]. cbn in Hb. apply not_elem_of_cons in Hb as [Hne Hb].
  cbn. fold (write_views w l). etrans; [by apply IH|]. by rewrite lookup_insert_ne.
Qed.

Lemma write_views_assigned w l m b n : NoDup l.*1 → (b, n) ∈ l → assigned (write_views w l m) b = Some (Some n).
Proof.
  revert m. induction l as [|[b0 n0] l IH]; intros m Hnd Hin; [by apply not_elem_of_nil in Hin|].
  cbn in Hnd. apply list.NoDup_cons in Hnd as [Hnot Hnd]. cbn. fold (write_views w l).
  apply elem_of_cons in Hin as [[= -> ->]|Hin]; [|by apply IH].
  unfold assigned. etrans; [exact (f_equal _ (write_views_other w l _ _ Hnot))|]. by rewrite lookup_insert_eq.
Qed.

Lemma write_views_names w l m (P : string → Prop) b n : Forall P l.*2 →
  (∀ b n, assigned m b = Some (Some n) → P n) → assigned (write_views w l m) b = Some (Some n) → P n.
Proof.
  revert m. induction l as [|[b0 n0] l IH]; intros m Hl Hm; [apply Hm|].
  cbn in Hl. apply list.Forall_cons in Hl as [Hn0 Hl]. cbn. fold (write_views w l). apply IH; [done|].
  intros b1 n1. unfold assigned. destruct (decide (b0 = b1)) as [->|Hne].
  - rewrite lookup_insert_eq. by intros [= <-].
  - rewrite lookup_insert_ne by done. apply Hm.
Qed.

(** The views after a state of the coordinator. *)
Lemma apply_coordinator_views u s : ∃ w m,
  cl_step_batches (apply_coordinator u s) = write_views w (cu_batch_assignments u) m ∧
  (m = ∅ ∨ m = cl_step_batches s) ∧
  (cl_prev_step_batches (apply_coordinator u s) = cl_step_batches s ∨
   cl_prev_step_batches (apply_coordinator u s) = cl_prev_step_batches s).
Proof.
  unfold apply_coordinator. cbn. case_bool_decide; cbn.
  - exists (λ m b, default ClusterBatchView_default (m !! b)), (cl_step_batches s). by auto.
  - exists (λ _ _, ClusterBatchView_default), ∅. by auto.
Qed.

(** Assignments are shown: after any history that ends with a state of the coordinator and
    any events of nodes, each batch that state assigns is shown with its node. *)
Theorem assignments_are_shown now es u b n :
  cl_coordinator (replay now es) = Some u → NoDup (cu_batch_assignments u).*1 →
  (b, n) ∈ cu_batch_assignments u →
  ∃ v, cl_step_batches (replay now es) !! b = Some v ∧ bv_assigned_to v = Some n.
Proof.
  intros Hu Hnd Hin.
  enough (Ha : assigned (cl_step_batches (replay now es)) b = Some (Some n)).
  { unfold assigned in Ha. destruct (_ !! b) as [v|] eqn:Hv; [|done]. injection Ha as Ha. by exists v. }
  induction es as [|e es IH] using rev_ind; [done|].
  revert Hu. unfold replay. rewrite apply_all_app. fold (replay now es). cbn [apply_all foldl].
  destruct e as [t m ev|t u']; cbn [apply_entry].
  - destruct (node_event_assigned m ev (replay now es)) as (Hc & Hs & _). rewrite Hc, Hs. exact IH.
  - intros [= <-]. destruct (apply_coordinator_views u' (replay now es)) as (w & m & -> & _).
    by apply write_views_assigned.
Qed.

(** ** Downloads of nodes with long names *)

Section Names.
Context {H : HashFns} `{Codec}.

Lemma substring_length n s : (String.length (String.substring 0 n s) <= n)%nat.
Proof. revert s. induction n as [|n IH]; intros [|c s]; cbn; [lia..|]. specialize (IH s). lia. Qed.

(** The names in the assignments of a coordinator's state are prefixes of addresses. *)
Lemma snapshot_names {E : Type} coord l : snapshot_assignments (E := E) coord = Ok l →
  Forall (λ n, (String.length n <= 8)%nat) l.*2.
Proof.
  unfold snapshot_assignments. destruct (_ =? _); [|by intros [= <-]; constructor].
  destruct (from_coordinator coord 0) as [sel|?|]; [|by intros [= <-]; constructor|done].
  destruct (assign_data_for_state coord sel) as [tree|?|]; [|done..]. intros [= <-].
  rewrite <- list_fmap_compose. apply list.Forall_fmap, list.Forall_true. intros [b i]. apply substring_length.
Qed.

(** The states of the timeline were made from coordinators. *)
Definition from_coordinators (es : list TimelineEntry) : Prop :=
  ∀ t u, TCoordinator t u ∈ es → ∃ coord, coordinator_to_snapshot (E := IoError) t coord = Ok u.

Definition names_short (s : ClusterSnapshot) : Prop :=
  (∀ b n, assigned (cl_step_batches s) b = Some (Some n) → (String.length n <= 8)%nat) ∧
  ∀ b n, assigned (cl_prev_step_batches s) b = Some (Some n) → (String.length n <= 8)%nat.

Lemma replay_names_short now es : from_coordinators es → names_short (replay now es).
Proof.
  induction es as [|e es IH] using rev_ind; [by intros _; split; intros b n|]. intros Hall.
  assert (Hes : names_short (replay now es)) by (apply IH; intros t u Hin; apply Hall; set_solver).
  unfold replay. rewrite apply_all_app. fold (replay now es). cbn [apply_all foldl].
  destruct Hes as [H1 H2]. destruct e as [t m ev|t u]; cbn [apply_entry].
  - destruct (node_event_assigned m ev (replay now es)) as (_ & Hs & Hp).
    split; intros b n; [rewrite Hs; apply H1|rewrite Hp; apply H2].
  - destruct (Hall t u) as [coord Hcoord]; [set_solver|]. unfold coordinator_to_snapshot in Hcoord.
    apply res_bind_Ok in Hcoord as (l & Hl%snapshot_names & Hu).
    assert (Hbatch : cu_batch_assignments u = l) by (by injection Hu as <-). rewrite <- Hbatch in Hl.
    destruct (apply_coordinator_views u (replay now es)) as (w & m & Hw & Hm & Hp). unfold names_short. rewrite Hw. split.
    + intros b n. apply (write_views_names w _ m (λ n, (String.length n <= 8)%nat) b n); [done|]. destruct Hm as [-> | ->]; [by intros|apply H1].
    + destruct Hp as [-> | ->]; done.
Qed.

(** Downloads are never shown: the states of the coordinator name a node by the first eight
    characters of its address, so an event of a node recorded under a longer name marks no
    batch as downloaded. *)
Theorem downloads_are_never_shown now es node t ok : from_coordinators es → (8 < String.length node)%nat →
  let s' := apply_node_event node (mkEvent t (ETrain (BatchDataDownloadComplete ok))) (replay now es) in
  cl_step_batches s' = cl_step_batches (replay now es) ∧
  cl_prev_step_batches s' = cl_prev_step_batches (replay now es).
Proof.
  intros Hes Hlong. destruct (replay_names_short now es Hes) as [H1 H2]. cbn.
  assert (Hid : ∀ m : gmap BatchId ClusterBatchView,
    (∀ b n, assigned m b = Some (Some n) → (String.length n <= 8)%nat) → mark_downloaded node ok <$> m = m).
  { intros m Hm. apply map_eq. intros b. rewrite lookup_fmap. destruct (m !! b) as [v|] eqn:Hv; [|done]. cbn.
    unfold mark_downloaded. rewrite bool_decide_false; [done|]. intros Ha.
    enough (String.length node <= 8)%nat by lia. apply (Hm b). unfold assigned. by rewrite Hv, <- Ha. }
  split; by apply Hid.
Qed.
End Names.

(** ** A cluster of one node *)

Module Example.

#[local] Existing Instance zero_hashes.

(** An address of more than eight characters, and a state that assigns it a batch by its prefix. *)
#[local] Instance codec : Codec := {|
  event_of_cobs := λ _, None;
  coordinator_of_bytes := λ _,
    mkCoordinator (fs_new 32) WaitingForMembers (ModelLLM LLM_dummy)
      (mkConfig 30 30 60 10 0 600 1000 1 1 0 4 4 0 5) Progress_default EpochState_zeroed 100 sb_FALSE;
  coordinator_size := 4;
  from_timestamp_millis := λ ms, Some (ms * 10 ^ 6);
  base58 := λ _, "9xQeWvG816bUx9EP";
|}.
Definition coord : Coordinator := coordinator_of_bytes [].
Definition update : CoordinatorStateSnapshot :=
  mkCoordinatorSnapshot 5 WaitingForMembers 0 1 (CkDummy HubRepo_dummy) [] 1 [].

Lemma downloads_are_never_shown_witness :
  let es := [TCoordinator 5 update] in
  cl_step_batches (apply_node_event "9xQeWvG816bUx9EP" (mkEvent 6 (ETrain (BatchDataDownloadComplete true))) (replay 0 es))
  = cl_step_batches (replay 0 es).
Proof.
  apply (downloads_are_never_shown 0 [TCoordinator 5 update] "9xQeWvG816bUx9EP" 6 true); [|cbn; lia].
  intros t u [= -> ->]%list_elem_of_singleton. exists coord. vm_compute. reflexivity.
Defined.
End Example.
