(* ===== verification/Verifier.v ===== *)
(** * The verifier

    src/shared/verifier/src/lib.rs: whether a submitted update is the one an honest replay
    gives, within a band that allows for the drift of floating point, the proof of fraud, the
    calibration of the band, and the aggregation that leaves outliers out.

    An update is a list of [f32] bit patterns, as it is hashed and as it travels; a NaN is a
    NaN whatever its payload.  The replay of a contribution is a trait of the code and a
    parameter here. *)

From stdpp Require Import base tactics list numbers strings.
From Stdlib Require Import SpecFloat.
From S2P Require Import Prelude StableSort CoreTypes Hashing Float Float32.

Open Scope Z_scope.

Definition DEFAULT_BAND : f32 := f32_of_bits 1028443341.
Definition DEFAULT_SAFETY_FACTOR : f32 := f32_of_Z 5.
Definition NORM_FLOOR : f32 := f32_of_bits 730643660.

Inductive VerifierError :=
| LengthMismatch (submitted recomputed : Z)
| InvalidBand (band : f32)
| EmptyCalibration
| NonFiniteSubmission (index : Z)
| NonFiniteReplay (index : Z)
| NonFiniteCalibration.

Record BandVerdict := mkBandVerdict { distance : f32; band : f32; fraud : bool }.

(** [BandVerdict::margin]. *)
Definition margin (v : BandVerdict) : f32 := f32_sub (distance v) (band v).

(** [for (index, value) in xs.iter().enumerate() { if !value.is_finite() { return } }]. *)
Fixpoint first_non_finite (i : Z) (xs : list Z) : option Z :=
  match xs with
  | [] => None
  | x :: xs' => if sf_finite (f32_of_bits x) then first_non_finite (i + 1) xs' else Some i
  end.

(** One turn of the loop over both updates. *)
Definition accumulate (acc : f64 * f64) (sr : Z * Z) : f64 * f64 :=
  let '(diff_sq, ref_sq) := acc in
  let s := f32_of_bits sr.1 in
  let r := f32_of_bits sr.2 in
  let d := f64_of_f32 (f32_sub s r) in
  (f64_add diff_sq (f64_mul d d), f64_add ref_sq (f64_mul (f64_of_f32 r) (f64_of_f32 r))).

Definition relative_l2_distance (submitted recomputed : list Z) : res VerifierError f32 :=
  res_throw_if (negb (zlen submitted =? zlen recomputed))
    (LengthMismatch (zlen submitted) (zlen recomputed)) ;;
  match first_non_finite 0 submitted with
  | Some i => Err (NonFiniteSubmission i)
  | None =>
      match first_non_finite 0 recomputed with
      | Some i => Err (NonFiniteReplay i)
      | None =>
          let '(diff_sq, ref_sq) := foldl accumulate (f64_of_Z 0, f64_of_Z 0) (zip submitted recomputed) in
          let denom := sf_max (f64_sqrt ref_sq) (f64_of_f32 NORM_FLOOR) in
          Ok (f32_of_f64 (f64_div (f64_sqrt diff_sq) denom))
      end
  end.

Definition verify_within_band (submitted recomputed : list Z) (b : f32) : res VerifierError BandVerdict :=
  res_throw_if (negb (sf_finite b) || f32_ltb b f32_zero) (InvalidBand b) ;;
  d ← match relative_l2_distance submitted recomputed with
      | Ok d => Ok d
      | Err (NonFiniteSubmission _) => Ok f32_infinity
      | Err other => Err other
      | Panic => Panic
      end;
  Ok (mkBandVerdict d b (f32_ltb b d)).

Definition calibrate_band (drift_distances : list f32) (safety_factor : f32) : res VerifierError f32 :=
  res_throw_if (bool_decide (length drift_distances = 0%nat)) EmptyCalibration ;;
  res_throw_if (existsb (λ d, negb (sf_finite d)) drift_distances) NonFiniteCalibration ;;
  let worst := foldl (λ acc d, sf_max acc (f32_abs d)) f32_zero drift_distances in
  Ok (f32_mul worst (sf_max safety_factor (f32_of_Z 1))).

Section Audits.
Context {H : HashFns}.

(** [hasher.update(value.to_le_bytes())] for each value. *)
Definition hash_delta (delta : list Z) : list Z := sha256 (concat (to_le_bytes 4 <$> delta)).

Record FraudProof := mkFraudProof {
  fp_target_index : Z;
  fp_committed_hash : list Z;
  fp_replayed_hash : list Z;
  fp_distance : f32;
  fp_band : f32;
}.

Record AuditReport := mkAuditReport { ar_verdict : BandVerdict; ar_proof : option FraudProof }.

Definition audit_contribution (target_index : Z) (submitted recomputed : list Z) (b : f32) :
    res VerifierError AuditReport :=
  verdict ← verify_within_band submitted recomputed b;
  Ok (mkAuditReport verdict
        (if fraud verdict then
           Some (mkFraudProof target_index (hash_delta submitted) (hash_delta recomputed)
                   (distance verdict) (band verdict))
         else None)).

Inductive ReplayError :=
| NotAssigned (target : Z)
| CheckpointUnavailable (checkpoint : Z)
| Backend (message : string).

(** [ReplayEngine::replay]. *)
Definition ReplayEngine : Type := Z → ReplayError + list Z.

Record Contribution := mkContribution { cn_target_index : Z; cn_submitted : list Z }.

Inductive AuditOutcome :=
| Judged (report : AuditReport)
| ReplayFailed (target_index : Z) (error : ReplayError)
| Malformed (target_index : Z) (error : VerifierError).

Definition audit_one (engine : ReplayEngine) (b : f32) (c : Contribution) : res VerifierError AuditOutcome :=
  match engine (cn_target_index c) with
  | inr recomputed =>
      match audit_contribution (cn_target_index c) (cn_submitted c) recomputed b with
      | Ok report => Ok (Judged report)
      | Err error => Ok (Malformed (cn_target_index c) error)
      | Panic => Panic
      end
  | inl error => Ok (ReplayFailed (cn_target_index c) error)
  end.

(** [audit_round]: [map] over the contributions. *)
Definition audit_round (engine : ReplayEngine) (contributions : list Contribution) (b : f32) :
    res VerifierError (list AuditOutcome) :=
  foldr (λ c rest, o ← audit_one engine b c; os ← rest; Ok (o :: os)) (Ok []) contributions.

Definition outcome_proof (o : AuditOutcome) : option FraudProof :=
  match o with Judged report => ar_proof report | _ => None end.
Definition fraud_proofs (outcomes : list AuditOutcome) : list FraudProof := omap outcome_proof outcomes.
End Audits.

(** ** Aggregation *)

Record AggregationConfig := mkAggregationConfig { excision_multiplier : f32; iterations : nat }.
Definition AggregationConfig_default : AggregationConfig := mkAggregationConfig (f32_of_Z 3) 3.
Record Aggregation := mkAggregation { result : list f32; kept : list bool }.

Definition l2_norm (v : list f32) : f32 :=
  f32_of_f64 (f64_sqrt (foldl (λ acc x, f64_add acc (f64_mul (f64_of_f32 x) (f64_of_f32 x))) (f64_of_Z 0) v)).

(** [distance_to]. *)
Definition distance_to (delta center : list f32) : f32 := l2_norm (zip_with f32_sub delta center).

(** [a.partial_cmp(b)] is not [Greater]; a NaN compares as equal. *)
Definition not_greater (a b : f32) : Prop := SFcompare a b ≠ Some Gt.
#[global] Instance not_greater_dec : RelDecision not_greater.
Proof. intros a b. unfold not_greater. destruct (SFcompare a b) as [[]|]; first [by left|right; by intros []]. Defined.

(** Of finite values; the order among NaNs is the sorting algorithm's. *)
Definition median (values : list f32) : f32 :=
  let sorted := stable_sort not_greater values in
  let mid := (length values / 2)%nat in
  match values with
  | [] => f32_zero
  | _ =>
      if Nat.odd (length values) then nth mid sorted f32_zero
      else f32_mul (f32_div (f32_of_Z 1) (f32_of_Z 2)) (f32_add (nth (mid - 1) sorted f32_zero) (nth mid sorted f32_zero))
  end.

(** One delta added to the sum, clipped to the radius around the centre. *)
Definition clip_add (radius : f32) (center accum delta : list f32) : list f32 :=
  let norm := distance_to delta center in
  let factor := if f32_ltb NORM_FLOOR norm then sf_min (f32_div radius norm) (f32_of_Z 1) else f32_of_Z 1 in
  zip_with (λ a dc, f32_add a (f32_mul (f32_sub dc.1 dc.2) factor)) accum (zip delta center).

(** One turn of the loop that moves the centre. *)
Definition move_center (dim : nat) (deltas : list (list f32)) (center : list f32) : list f32 :=
  let radius := median ((λ d, distance_to d center) <$> deltas) in
  let accum := foldl (clip_add radius center) (replicate dim f32_zero) deltas in
  let n := f32_of_Z (zlen deltas) in
  zip_with (λ c a, f32_add c (f32_div a n)) center accum.

(** [for d in deltas { if d.len() != dim { return Err(…) } }]. *)
Fixpoint check_dims (dim : nat) (deltas : list (list f32)) : res VerifierError unit :=
  match deltas with
  | [] => Ok tt
  | d :: ds => if (length d =? dim)%nat then check_dims dim ds else Err (LengthMismatch (zlen d) (Z.of_nat dim))
  end.

Definition robust_aggregate (deltas : list (list f32)) (config : AggregationConfig) : res VerifierError Aggregation :=
  match deltas with
  | [] => Ok (mkAggregation [] [])
  | first :: _ =>
      let dim := length first in
      check_dims dim deltas ;;
      let center := replicate dim f32_zero in
      let distances := (λ d, distance_to d center) <$> deltas in
      let limit := f32_mul (excision_multiplier config) (median distances) in
      let kept := (λ d, f32_leb d limit) <$> distances in
      let chosen := if existsb (λ k, k) kept
                    then (zip deltas kept ≫= λ dk, if dk.2 : bool then [dk.1] else [])
                    else deltas in
      Ok (mkAggregation (Nat.iter (iterations config) (move_center dim chosen) center) kept)
  end.
