(* ===== verification/VerifierThms.v ===== *)
(** * What the verifier's judgement is worth

    Every judgement is decided: the distance is never a NaN, so a submission is fraud or
    within the band.  A submission that is the replay is within every band; one that is not
    made of numbers is fraud.  Two exceptions are exhibited: a submission of the wrong length
    is not judged, and a run that diverged convicts a node that computed what the verifier
    computed. *)

From stdpp Require Import base tactics list numbers strings.
From Stdlib Require Import SpecFloat.
From S2P Require Import Prelude CoreTypes Hashing Float Float32 Verifier.

Open Scope Z_scope.

Definition all_finite (xs : list Z) : Prop := Forall (λ x, sf_finite (f32_of_bits x) = true) xs.

Lemma first_non_finite_spec i xs :
  match first_non_finite i xs with Some _ => ¬ all_finite xs | None => all_finite xs end.
Proof.
  revert i. induction xs as [|x xs IH]; intros i; [constructor|]. cbn.
  destruct (sf_finite (f32_of_bits x)) eqn:Hx.
  - specialize (IH (i + 1)). destruct (first_non_finite (i + 1) xs).
    + intros [_ ?]%list.Forall_cons. done.
    + by constructor.
  - intros [? _]%list.Forall_cons. congruence.
Qed.

Lemma first_non_finite_none xs : all_finite xs → first_non_finite 0 xs = None.
Proof. intros Hx. pose proof (first_non_finite_spec 0 xs) as Hs. by destruct (first_non_finite 0 xs). Qed.

(** The lengths and the values that let a distance be computed. *)
Lemma distance_inv s r d : relative_l2_distance s r = Ok d →
  length s = length r ∧ all_finite s ∧ all_finite r ∧
  let '(diff_sq, ref_sq) := foldl accumulate (f64_of_Z 0, f64_of_Z 0) (zip s r) in
  d = f32_of_f64 (f64_div (f64_sqrt diff_sq) (sf_max (f64_sqrt ref_sq) (f64_of_f32 NORM_FLOOR))).
Proof.
  unfold relative_l2_distance. intros ([] & Hlen%res_throw_if_Ok & Hd)%res_bind_Ok.
  apply negb_false_iff, Z.eqb_eq in Hlen. unfold zlen in Hlen.
  pose proof (first_non_finite_spec 0 s) as Hs. destruct (first_non_finite 0 s); [done|].
  pose proof (first_non_finite_spec 0 r) as Hr. destruct (first_non_finite 0 r); [done|].
  split_and!; [lia|done..|]. destruct (foldl accumulate _ _) as [diff_sq ref_sq]. by injection Hd as <-.
Qed.

(** ** The distance is a number or infinity *)

Lemma accumulate_bounded sr acc M : sf_finite (f32_of_bits sr.1) = true → sf_finite (f32_of_bits sr.2) = true →
  plus_signed acc.1 → finite_upto 4000 M 256 acc.2 → 0 < M → M + 1 < 2 ^ 53 →
  plus_signed (accumulate acc sr).1 ∧ finite_upto 4000 (M + 1) 256 (accumulate acc sr).2.
Proof.
  destruct acc as [diff_sq ref_sq]. cbn [fst snd]. intros Hs Hr Hd Href HM HM1. unfold accumulate. cbn [fst snd]. split.
  - apply f64_add_plus; [done|]. apply f64_mul_self, convert_not_nan. by apply f32_sub_not_nan.
  - apply f64_add_upto; [done| |done|lia|done]. by apply f64_of_bits_square.
Qed.

Lemma fold_bounded l acc M : Forall (λ sr, sf_finite (f32_of_bits sr.1) = true ∧ sf_finite (f32_of_bits sr.2) = true) l →
  plus_signed acc.1 → finite_upto 4000 M 256 acc.2 → 0 < M → M + zlen l < 2 ^ 53 →
  plus_signed (foldl accumulate acc l).1 ∧ finite_upto 4000 (M + zlen l) 256 (foldl accumulate acc l).2.
Proof.
  revert acc M. induction l as [|sr l IH]; intros acc M Hl Hd Href HM Hlen.
  { unfold zlen. cbn. by rewrite Z.add_0_r. }
  apply list.Forall_cons in Hl as [[Hs Hr] Hl]. unfold zlen in *. cbn [length] in *. cbn [foldl].
  destruct (accumulate_bounded sr acc M) as [H1 H2]; [done..|lia|].
  replace (M + Z.of_nat (S (length l))) with (M + 1 + Z.of_nat (length l)) by lia.
  apply IH; [done..|lia|lia].
Qed.

(** The norm of the replay, with its floor, is a positive number. *)
Lemma denominator_positive ref_sq M : finite_upto 4000 M 256 ref_sq → 0 < M < 2 ^ 53 →
  ∃ m e, sf_max (f64_sqrt ref_sq) (f64_of_f32 NORM_FLOOR) = S754_finite false m e.
Proof.
  intros Href HM.
  assert (H53 : finite_upto 4000 (2 ^ 53) 256 ref_sq).
  { destruct Href as [->|(m & e & -> & He & Hle)]; [by left|right]. exists m, e. split_and!; [done..|].
    assert (0 < 2 ^ (256 + 4000)) by (apply Z.pow_pos_nonneg; lia). nia. }
  assert (Hfloor : ∃ m e, f64_of_f32 NORM_FLOOR = S754_finite false m e) by (vm_compute; by eexists _, _).
  destruct Hfloor as (mf & ef & Hf). rewrite Hf.
  destruct (f64_sqrt_upto ref_sq H53) as [->|(m & e & -> & _)]; [by exists mf, ef|].
  destruct (sf_max_cases (S754_finite false m e) (S754_finite false mf ef)) as [-> | ->]; by eexists _, _.
Qed.

Lemma zip_finite s r : length s = length r → all_finite s → all_finite r →
  Forall (λ sr, sf_finite (f32_of_bits sr.1) = true ∧ sf_finite (f32_of_bits sr.2) = true) (zip s r).
Proof.
  revert r. induction s as [|x s IH]; intros [|y r]; cbn; [done..|]. intros [= Hlen] [Hx Hs]%list.Forall_cons
    [Hy Hr]%list.Forall_cons. constructor; [done|]. by apply IH.
Qed.

Lemma distance_plus_signed s r d : relative_l2_distance s r = Ok d → zlen s < 2 ^ 53 - 1 → plus_signed d.
Proof.
  intros (Hlen & Hs & Hr & Hd)%distance_inv Hsmall.
  pose proof (fold_bounded (zip s r) (f64_of_Z 0, f64_of_Z 0) 1 (zip_finite s r Hlen Hs Hr)) as Hb.
  assert (Hz : zlen (zip s r) = zlen s) by (unfold zlen; rewrite length_zip_with; lia). rewrite Hz in Hb.
  destruct Hb as [H1 H2]; [by left|by left|done|lia|].
  destruct (foldl accumulate _ _) as [diff_sq ref_sq]. cbn [fst snd] in H1, H2. subst d.
  destruct (denominator_positive ref_sq (1 + zlen s) H2) as (m & e & ->); [unfold zlen in *; lia|].
  by apply convert_plus, f64_div_plus, f64_sqrt_plus.
Qed.

(** ** Comparing *)

Lemma SFcompare_swap x y : SFcompare y x = CompOpp <$> SFcompare x y.
Proof.
  assert (Hz : ∀ a b : Z, Z.compare b a = CompOpp (Z.compare a b)) by apply Z.compare_antisym.
  assert (Hp : ∀ a b : positive, Pos.compare_cont Eq b a = CompOpp (Pos.compare_cont Eq a b)) by apply Pos.compare_antisym.
  destruct x as [[]|[]| |[] m e], y as [[]|[]| |[] m' e']; try done; cbn; rewrite (Hz e e'), (Hp m m');
    by destruct (Z.compare e e'), (Pos.compare_cont Eq m m').
Qed.

Lemma not_below x y : x ≠ S754_nan → y ≠ S754_nan → SFltb x y = false → SFleb y x = true.
Proof.
  intros Hx Hy. unfold SFltb, SFleb. rewrite (SFcompare_swap x y).
  destruct (SFcompare x y) as [[]|] eqn:Hc; [done..|].
  destruct x as [[]|[]| |[] m e], y as [[]|[]| |[] m' e']; done.
Qed.

Lemma band_valid b : negb (sf_finite b) || f32_ltb b f32_zero = false →
  sf_finite b = true ∧ SFltb b (S754_zero false) = false.
Proof. intros [H1%negb_false_iff H2]%orb_false_iff. done. Qed.

Lemma verify_inv s r b v : verify_within_band s r b = Ok v →
  sf_finite b = true ∧ SFltb b (S754_zero false) = false ∧ band v = b ∧ fraud v = SFltb b (distance v) ∧
  (relative_l2_distance s r = Ok (distance v) ∨
   (∃ i, relative_l2_distance s r = Err (NonFiniteSubmission i)) ∧ distance v = S754_infinity false).
Proof.
  unfold verify_within_band. intros ([] & Hb%res_throw_if_Ok%band_valid & Hv)%res_bind_Ok.
  apply res_bind_Ok in Hv as (d & Hd & [= <-]). destruct Hb as [Hb1 Hb2]. split_and!; [done..|]. cbn.
  destruct (relative_l2_distance s r) as [d'|[]|]; try done; injection Hd as <-; [by left|right].
  split; [by eexists|done].
Qed.

(** C25: Every judgement is decided: the distance is a number or infinity and never a NaN, so a
    judged submission is either fraud, its distance above the band, or not, and then its
    distance is at most the band. *)
Theorem verdict_is_decided s r b v : verify_within_band s r b = Ok v → zlen s < 2 ^ 53 - 1 →
  distance v ≠ S754_nan ∧ band v = b ∧
  (fraud v = true ∧ SFltb b (distance v) = true ∨ fraud v = false ∧ SFleb (distance v) b = true).
Proof.
  intros (Hb & _ & Hband & Hfraud & Hd)%verify_inv Hlen.
  assert (Hnan : distance v ≠ S754_nan).
  { destruct Hd as [Hd|[_ ->]]; [|done]. by eapply plus_signed_not_nan, distance_plus_signed. }
  split_and!; [done..|]. destruct (SFltb b (distance v)) eqn:Hlt; [by left|right].
  split; [done|]. apply not_below; [by destruct b|done..].
Qed.

(** Twice the replay is one replay away from it, which is above the default band. *)
Lemma verdict_is_decided_witness :
  match verify_within_band [1073741824] [1065353216] DEFAULT_BAND with
  | Ok v => distance v = f32_of_Z 1 ∧ fraud v = true ∧ distance v ≠ S754_nan
  | _ => False
  end.
Proof.
  destruct (verify_within_band [1073741824] [1065353216] DEFAULT_BAND) as [v| |] eqn:Hv.
  - assert (Hd : distance v = f32_of_Z 1 ∧ fraud v = true) by (vm_compute in Hv; injection Hv as <-; split; vm_compute; reflexivity).
    destruct Hd as [Hd Hf]. split; [exact Hd|]. split; [exact Hf|].
    exact (proj1 (verdict_is_decided _ _ _ _ Hv eq_refl)).
  - vm_compute in Hv. discriminate Hv.
  - vm_compute in Hv. discriminate Hv.
Defined.

(** ** The honest and the garbled *)

Lemma fold_diag l acc : all_finite l → acc.1 = S754_zero false →
  (foldl accumulate acc (zip l l)).1 = S754_zero false.
Proof.
  revert acc. induction l as [|x l IH]; intros [d rf] Hl Hd; [done|]. apply list.Forall_cons in Hl as [Hx Hl].
  cbn [zip_with foldl zip]. apply IH; [done|]. cbn [fst] in Hd. subst d. unfold accumulate. cbn [fst snd].
  by rewrite f32_sub_diag.
Qed.

(** The honest are not convicted: an update that is the replay, bit for bit and made of
    numbers, has distance zero and is within every valid band. *)
Theorem honest_is_not_convicted s b : all_finite s → zlen s < 2 ^ 53 - 1 →
  sf_finite b = true → SFltb b (S754_zero false) = false →
  verify_within_band s s b = Ok (mkBandVerdict (S754_zero false) b false).
Proof.
  intros Hs Hlen Hb Hb0. unfold verify_within_band, f32_ltb, f32_zero. rewrite Hb, Hb0. cbn [negb orb res_throw_if].
  assert (Hd : relative_l2_distance s s = Ok (S754_zero false)).
  { unfold relative_l2_distance. rewrite Z.eqb_refl, (first_non_finite_none s Hs). cbn [negb res_throw_if mbind res_bind].
    pose proof (fold_bounded (zip s s) (f64_of_Z 0, f64_of_Z 0) 1 (zip_finite s s eq_refl Hs Hs)) as Hf.
    assert (Hz : zlen (zip s s) = zlen s) by (unfold zlen; rewrite length_zip_with; lia). rewrite Hz in Hf.
    destruct Hf as [_ H2]; [by left|by left|done|lia|].
    pose proof (fold_diag s (f64_of_Z 0, f64_of_Z 0) Hs eq_refl) as H1.
    destruct (foldl accumulate _ _) as [diff_sq ref_sq]. cbn [fst snd] in H1, H2. subst diff_sq.
    destruct (denominator_positive ref_sq (1 + zlen s) H2) as (m & e & ->); [unfold zlen in *; lia|]. done. }
  cbn [mbind res_bind]. rewrite Hd. cbn [mbind res_bind]. by rewrite Hb0.
Qed.

(** A submission with a value that is not a number is fraud, whatever the band. *)
Theorem not_numbers_is_fraud s r b : length s = length r → ¬ all_finite s →
  sf_finite b = true → SFltb b (S754_zero false) = false →
  verify_within_band s r b = Ok (mkBandVerdict (S754_infinity false) b true).
Proof.
  intros Hlen Hs Hb Hb0. unfold verify_within_band, f32_ltb, f32_zero. rewrite Hb, Hb0. cbn [negb orb res_throw_if].
  assert (Hd : ∃ i, relative_l2_distance s r = Err (NonFiniteSubmission i)).
  { unfold relative_l2_distance. rewrite (proj2 (Z.eqb_eq _ _)) by (unfold zlen; lia).
    pose proof (first_non_finite_spec 0 s) as Hf. destruct (first_non_finite 0 s) as [i|]; [|done]. by exists i. }
  destruct Hd as [i Hd]. cbn [mbind res_bind]. rewrite Hd. cbn [mbind res_bind]. do 2 f_equal.
  destruct b as [[]| | |[] m e]; done.
Qed.

(** A submission of another length is never judged. *)
Theorem wrong_length_is_not_judged s r b : length s ≠ length r →
  sf_finite b = true → SFltb b (S754_zero false) = false →
  verify_within_band s r b = Err (LengthMismatch (zlen s) (zlen r)).
Proof.
  intros Hlen Hb Hb0. unfold verify_within_band, f32_ltb, f32_zero. rewrite Hb, Hb0. cbn [negb orb res_throw_if mbind res_bind].
  unfold relative_l2_distance. rewrite (proj2 (Z.eqb_neq _ _)) by (unfold zlen; lia). done.
Qed.

(** A run that diverged: the node submits what the verifier computes, and is convicted. *)
Theorem diverged_run_convicts_the_honest s b : ¬ all_finite s →
  sf_finite b = true → SFltb b (S754_zero false) = false →
  fraud <$> (match verify_within_band s s b with Ok v => Some v | _ => None end) = Some true.
Proof. intros Hs Hb Hb0. by rewrite not_numbers_is_fraud. Qed.

(** ** A round of audits *)

Section Audits.
Context {H : HashFns}.

(** The proof a contribution gives rise to. *)
Definition proof_of (engine : ReplayEngine) (b : f32) (c : Contribution) : option FraudProof :=
  match engine (cn_target_index c) with
  | inr r =>
      match verify_within_band (cn_submitted c) r b with
      | Ok v => if fraud v then Some (mkFraudProof (cn_target_index c) (hash_delta (cn_submitted c)) (hash_delta r)
                                        (distance v) (band v)) else None
      | _ => None
      end
  | inl _ => None
  end.

Lemma distance_never_panics s r : relative_l2_distance s r ≠ Panic.
Proof.
  unfold relative_l2_distance. destruct (_ =? _); cbn; [|done].
  destruct (first_non_finite 0 s); [done|]. destruct (first_non_finite 0 r); [done|].
  by destruct (foldl accumulate _ _).
Qed.

Lemma verify_never_panics s r b : verify_within_band s r b ≠ Panic.
Proof.
  unfold verify_within_band. destruct (_ || _); cbn; [done|].
  pose proof (distance_never_panics s r). by destruct (relative_l2_distance s r) as [|[]|].
Qed.

Lemma audit_one_proof engine b c : ∃ o, audit_one engine b c = Ok o ∧ outcome_proof o = proof_of engine b c.
Proof.
  unfold audit_one, proof_of, audit_contribution. destruct (engine _) as [err|r]; [by eexists|].
  pose proof (verify_never_panics (cn_submitted c) r b). destruct (verify_within_band _ r b) as [v|e|]; [|by eexists|done].
  eexists. split; [done|]. by destruct (fraud v).
Qed.

Lemma audit_round_proofs engine cs b :
  ∃ os, audit_round engine cs b = Ok os ∧ length os = length cs ∧ fraud_proofs os = omap (proof_of engine b) cs.
Proof.
  induction cs as [|c cs (os & Hos & Hlen & Hp)]; [by exists []|].
  destruct (audit_one_proof engine b c) as (o & Ho & Hpo). exists (o :: os).
  unfold audit_round. cbn. fold (audit_round engine cs b). rewrite Ho. cbn. rewrite Hos. cbn.
  split_and!; [done|by f_equal|]. unfold fraud_proofs in *. cbn. by rewrite Hpo, Hp.
Qed.

(** A proof of fraud names the guilty: an audit gives every contribution an outcome; a proof
    comes from a contribution that could be replayed and whose distance is above the band,
    with the hashes of what was submitted and of the replay; and a contribution that is the
    replay, bit for bit and made of numbers, gives none. *)
Theorem proofs_name_the_guilty engine cs b :
  ∃ os, audit_round engine cs b = Ok os ∧ length os = length cs ∧
  (∀ p, p ∈ fraud_proofs os → ∃ c r v, c ∈ cs ∧ engine (cn_target_index c) = inr r ∧
     verify_within_band (cn_submitted c) r b = Ok v ∧ SFltb b (distance v) = true ∧
     p = mkFraudProof (cn_target_index c) (hash_delta (cn_submitted c)) (hash_delta r) (distance v) b) ∧
  (∀ c, c ∈ cs → engine (cn_target_index c) = inr (cn_submitted c) → all_finite (cn_submitted c) →
     zlen (cn_submitted c) < 2 ^ 53 - 1 → proof_of engine b c = None) ∧
  fraud_proofs os = omap (proof_of engine b) cs.
Proof.
  destruct (audit_round_proofs engine cs b) as (os & Hos & Hlen & Hp). exists os. split_and!; [done..| | |done].
  - intros p. rewrite Hp, list_elem_of_omap. intros (c & Hc & Hpc). unfold proof_of in Hpc.
    destruct (engine (cn_target_index c)) as [|r] eqn:Hr; [done|].
    destruct (verify_within_band (cn_submitted c) r b) as [v| |] eqn:Hv; [|done..].
    apply verify_inv in Hv as Hi. destruct Hi as (_ & _ & Hband & Hfraud & _).
    destruct (fraud v) eqn:Hf; [|done]. injection Hpc as <-. exists c, r, v. by rewrite Hband.
  - intros c Hc Hr Hfin Hsmall. unfold proof_of. rewrite Hr.
    destruct (verify_within_band (cn_submitted c) (cn_submitted c) b) as [v| |] eqn:Hv; [|done..].
    apply verify_inv in Hv as Hi. destruct Hi as (Hb & Hb0 & _).
    rewrite honest_is_not_convicted in Hv by done. by injection Hv as <-.
Qed.
End Audits.

(** ** The robust aggregate *)

Lemma move_center_length dim deltas center : length center = dim → Forall (λ d, length d = dim) deltas →
  length (move_center dim deltas center) = dim.
Proof.
  intros Hc Hd. unfold move_center. rewrite length_zip_with.
  enough (length (foldl (clip_add (median ((λ d, distance_to d center) <$> deltas)) center) (replicate dim f32_zero) deltas) = dim) by lia.
  generalize (median ((λ d, distance_to d center) <$> deltas)) as radius. intros radius.
  assert (Ha : length (replicate dim f32_zero) = dim) by apply length_replicate.
  revert Ha. generalize (replicate dim f32_zero) as accum.
  induction Hd as [|d ds Hd _ IH]; intros accum Ha; [done|]. cbn. apply IH. unfold clip_add.
  rewrite length_zip_with, length_zip_with. lia.
Qed.

Lemma check_dims_spec dim ds :
  match check_dims dim ds with
  | Ok _ => Forall (λ d, length d = dim) ds
  | Err e => ∃ d, d ∈ ds ∧ e = LengthMismatch (zlen d) (Z.of_nat dim) ∧ length d ≠ dim
  | Panic => False
  end.
Proof.
  induction ds as [|d ds IH]; cbn; [constructor|]. destruct (Nat.eqb_spec (length d) dim) as [He|Hne].
  - destruct (check_dims dim ds) as [|e|]; [by constructor| |done].
    destruct IH as (d' & ? & ? & ?). exists d'. split; [by right|done].
  - exists d. split; [by left|done].
Qed.

(** The aggregate has the dimension of the updates and says of each whether it was kept;
    updates of different dimensions are refused. *)
Theorem aggregate_shape first rest config :
  match robust_aggregate (first :: rest) config with
  | Ok a => Forall (λ d, length d = length first) rest ∧ length (result a) = length first ∧
            length (kept a) = S (length rest)
  | Err e => ∃ d, d ∈ rest ∧ e = LengthMismatch (zlen d) (zlen first) ∧ length d ≠ length first
  | Panic => False
  end.
Proof.
  unfold robust_aggregate. set (dim := length first).
  pose proof (check_dims_spec dim (first :: rest)) as Hcheck.
  destruct (check_dims dim (first :: rest)) as [[]|e|]; cbn [mbind res_bind]; [| |done].
  - cbn [result kept]. split_and!; [by apply list.Forall_cons in Hcheck as [_ ?]| |by rewrite !length_fmap].
    set (chosen := if existsb _ _ then _ else _).
    assert (Hchosen : Forall (λ d, length d = dim) chosen).
    { subst chosen. destruct (existsb _ _); [|done]. apply list.Forall_forall. intros d.
      rewrite list_elem_of_bind. intros ([d' k] & Hd & Hin). cbn in Hd. destruct k; [|by apply not_elem_of_nil in Hd].
      apply list_elem_of_singleton in Hd as ->. apply elem_of_zip_l in Hin.
      by eapply (proj1 (list.Forall_forall _ _) Hcheck). }
    assert (Hc : length (replicate dim f32_zero) = dim) by apply length_replicate.
    revert Hc. generalize (replicate dim f32_zero) as center.
    induction (iterations config) as [|n IH]; intros center Hc; [done|]. cbn. apply move_center_length; [by apply IH|done].
  - destruct Hcheck as (d & [->|Hd]%elem_of_cons & -> & Hne); [done|]. by exists d.
Qed.
