(* ===== verification/DumpNames.v ===== *)
(** * Names of the audited files

    A client writes each result it receives to a file whose name holds who sent it, the step
    and the batch (src/shared/client/src/state/train.rs); the verifier's tools read all that
    back from the name (src/tools/rust-tools/leviathan-verifier and
    solana-tooling/src/daemon.rs).  The string functions are those of the standard library,
    on bytes. *)

From Stdlib Require Import Ascii.
From stdpp Require Import base tactics list numbers strings.
From S2P Require Import Prelude CoreTypes.

Open Scope Z_scope.
#[local] Arguments String.append !_ _ : simpl nomatch.

(** ** Strings *)

(** [s.strip_prefix(p)]. *)
Fixpoint strip_prefix (p s : string) : option string :=
  match p, s with
  | EmptyString, _ => Some s
  | String a p', String b s' => if Ascii.eqb a b then strip_prefix p' s' else None
  | String _ _, EmptyString => None
  end.

(** [s.find(p)]. *)
Fixpoint find (p s : string) : option nat :=
  match strip_prefix p s with
  | Some _ => Some 0%nat
  | None => match s with EmptyString => None | String _ s' => S <$> find p s' end
  end.

(** [&s[n..]] and [&s[..n]] for [n] in range. *)
Fixpoint skip (n : nat) (s : string) : string :=
  match n, s with S n', String _ s' => skip n' s' | _, _ => s end.
Fixpoint upto (n : nat) (s : string) : string :=
  match n, s with S n', String c s' => String c (upto n' s') | _, _ => EmptyString end.

(** [s.split_once(p)]. *)
Definition split_once (p s : string) : option (string * string) :=
  match find p s with
  | Some i => Some (upto i s, skip (i + String.length p) s)
  | None => None
  end.

(** [s.ends_with(p)]. *)
Definition ends_with (p s : string) : bool :=
  (String.length p <=? String.length s)%nat &&
  bool_decide (skip (String.length s - String.length p) s = p).

(** [s.trim_end_matches(p)] and [trim_start_matches(p)]: as often as [p] is there. *)
Fixpoint trim_end_loop (fuel : nat) (p s : string) : string :=
  match fuel with
  | S fuel' => if ends_with p s then trim_end_loop fuel' p (upto (String.length s - String.length p) s) else s
  | O => s
  end.
Definition trim_end_matches (p s : string) : string := trim_end_loop (String.length s) p s.
Fixpoint trim_start_loop (fuel : nat) (p s : string) : string :=
  match fuel with
  | S fuel' => match strip_prefix p s with Some s' => trim_start_loop fuel' p s' | None => s end
  | O => s
  end.
Definition trim_start_matches (p s : string) : string := trim_start_loop (String.length s) p s.

(** [s.trim()], of the white space of ASCII. *)
Definition is_whitespace (c : ascii) : bool :=
  let n := N_of_ascii c in ((9 <=? n) && (n <=? 13) || (n =? 32))%N.
Fixpoint trim_start (s : string) : string :=
  match s with String c s' => if is_whitespace c then trim_start s' else s | EmptyString => s end.
Fixpoint trim_end (s : string) : string :=
  match s with
  | EmptyString => EmptyString
  | String c s' =>
      match trim_end s' with
      | EmptyString => if is_whitespace c then EmptyString else String c EmptyString
      | t => String c t
      end
  end.
Definition trim (s : string) : string := trim_end (trim_start s).

(** [s.parse()] for an unsigned integer up to [max]: a plus sign and digits. *)
Definition digit_of (c : ascii) : option Z :=
  let n := Z.of_N (N_of_ascii c) in if (48 <=? n) && (n <=? 57) then Some (n - 48) else None.
Fixpoint parse_digits (max acc : Z) (s : string) : option Z :=
  match s with
  | EmptyString => Some acc
  | String c s' =>
      match digit_of c with
      | Some d => if 10 * acc + d <=? max then parse_digits max (10 * acc + d) s' else None
      | None => None
      end
  end.
Definition parse_uint (max : Z) (s : string) : option Z :=
  let digits := match s with String "+"%char s' => s' | _ => s end in
  match digits with EmptyString => None | _ => parse_digits max 0 digits end.

(** [Display] of an unsigned integer. *)
Definition digit_char (d : Z) : ascii := ascii_of_N (Z.to_N (48 + d)).
Fixpoint show_loop (fuel : nat) (z : Z) (acc : string) : string :=
  let acc := String (digit_char (z mod 10)) acc in
  match fuel with
  | S fuel' => if z / 10 =? 0 then acc else show_loop fuel' (z / 10) acc
  | O => acc
  end.
(** Twenty digits hold every 64-bit number. *)
Definition show_uint (z : Z) : string := show_loop 20 z "".

(** ** The names *)

(** [Display] of a closed interval and of a batch. *)
Definition show_interval (start end_ : Z) : string :=
  if start =? end_ then show_uint start
  else "[" +:+ show_uint start +:+ ", " +:+ show_uint end_ +:+ "]".
Definition show_batch (b : BatchId) : string := "B" +:+ show_interval (start b) (end_ b).

(** [write_gradients_to_disk]: [committer] is the base58 of the sender's signer. *)
Definition dump_name (committer : string) (step : Z) (b : BatchId) : string :=
  "result-" +:+ committer +:+ "-step" +:+ show_uint step +:+ "-batch" +:+ show_batch b +:+ ".vec-postcard".

Definition contribution_key (name : string) : option string :=
  if ends_with ".vec-postcard" name then
    match find "step" name with
    | Some i => Some (trim_end_matches ".vec-postcard" (skip i name))
    | None => None
    end
  else None.

Definition parse_committer (name : string) : option string :=
  rest ← strip_prefix "result-" name;
  end_ ← find "-step" rest;
  Some (upto end_ rest).

(** The slice panics when the brackets come in the wrong order. *)
Definition parse_batch_bounds {E} (text : string) : res E (option (Z * Z)) :=
  match find "[" text, find "]" text with
  | Some lb, Some rb =>
      if (rb <? lb + 1)%nat then Panic
      else
        let inner := upto (rb - (lb + 1)) (skip (lb + 1) text) in
        Ok (match split_once "," inner with
            | Some (a, rest) =>
                let b := match split_once "," rest with Some (b, _) => b | None => rest end in
                start ← parse_uint u64_max (trim a);
                end_ ← parse_uint u64_max (trim b);
                Some (start, end_)
            | None => None
            end)
  | _, _ => Ok None
  end.

Definition parse_assignment_key {E} (key : string) : res E (option (Z * BatchId)) :=
  match
    '(step_part, batch_part) ← split_once "-batchB" key;
    digits ← strip_prefix "step" step_part;
    step ← parse_uint u32_max digits;
    let bounds := trim_end_matches "]" (trim_start_matches "[" batch_part) in
    '(a, b) ← split_once "," bounds;
    start ← parse_uint u64_max (trim a);
    end_ ← parse_uint u64_max (trim b);
    Some (step, start, end_)
  with
  | Some (step, start, end_) => b ← ClosedInterval_new start end_; Ok (Some (step, b))
  | None => Ok None
  end.

(** ** Finding and cutting *)

Lemma append_assoc a b c : (a +:+ b) +:+ c = a +:+ (b +:+ c).
Proof. induction a as [|x a IH]; cbn; [done|by rewrite IH]. Qed.
Lemma append_nil_r a : a +:+ "" = a.
Proof. induction a as [|x a IH]; cbn; [done|by rewrite IH]. Qed.
Lemma length_append a b : String.length (a +:+ b) = (String.length a + String.length b)%nat.
Proof. induction a as [|x a IH]; cbn; [done|by rewrite IH]. Qed.

Lemma strip_prefix_app p s : strip_prefix p (p +:+ s) = Some s.
Proof. induction p as [|a p IH]; cbn; [done|]. by rewrite Ascii.eqb_refl. Qed.

Lemma strip_prefix_Some p s t : strip_prefix p s = Some t → s = p +:+ t.
Proof.
  revert s. induction p as [|a p IH]; intros [|b s]; cbn; [by intros [= <-]..|done|].
  destruct (Ascii.eqb_spec a b) as [->|]; [|done]. by intros ->%IH.
Qed.

(** A prefix of the whole that fits is a prefix of the first part. *)
Lemma strip_prefix_short p s z : (String.length p <= String.length s)%nat →
  is_Some (strip_prefix p (s +:+ z)) → is_Some (strip_prefix p s).
Proof.
  revert s. induction p as [|a p IH]; intros [|b s] Hlen; cbn in *; [done..|lia|].
  destruct (Ascii.eqb a b); [|by intros []]. apply IH. lia.
Qed.

Lemma skip_app a b : skip (String.length a) (a +:+ b) = b.
Proof. induction a as [|x a IH]; cbn; [by destruct b|done]. Qed.
Lemma upto_app a b : upto (String.length a) (a +:+ b) = a.
Proof. induction a as [|x a IH]; cbn; [by destruct b|by rewrite IH]. Qed.

Fixpoint has (c : ascii) (s : string) : bool :=
  match s with EmptyString => false | String a s' => Ascii.eqb a c || has c s' end.

Lemma has_app c a b : has c (a +:+ b) = has c a || has c b.
Proof. induction a as [|x a IH]; cbn; [done|]. by rewrite IH, orb_assoc. Qed.

(** A pattern is found where its first character first occurs. *)
Lemma find_first c q a z : has c a = false → find (String c q) (a +:+ String c q +:+ z) = Some (String.length a).
Proof.
  intros Ha. induction a as [|x a IH].
  - cbn. by rewrite Ascii.eqb_refl, strip_prefix_app.
  - cbn in Ha. apply orb_false_iff in Ha as [Hx Ha]. cbn [String.append find strip_prefix String.length].
    rewrite Ascii.eqb_sym, Hx. cbn in IH. by rewrite IH.
Qed.

(** A pattern without the separator does not reach over it. *)
Lemma strip_prefix_sep p x d y : has d p = false → strip_prefix p x = None →
  strip_prefix p (x +:+ String d y) = None.
Proof.
  revert x. induction p as [|a p IH]; intros x Hp Hx; [by destruct x|]. cbn in Hp. apply orb_false_iff in Hp as [Ha Hp].
  destruct x as [|b x]; cbn in *; [by rewrite Ha|]. destruct (Ascii.eqb a b); [|done]. by apply IH.
Qed.

Lemma find_sep p x d y : p ≠ "" → has d p = false → find p x = None →
  find p (x +:+ String d y) = (λ n, String.length x + S n)%nat <$> find p y.
Proof.
  intros Hne Hp. induction x as [|b x IH]; intros Hx.
  - cbn [String.append String.length]. cbn [find]. pose proof (strip_prefix_sep p "" d y Hp) as Hs. cbn in Hs.
    rewrite Hs by (by destruct p). by destruct (find p y).
  - cbn [find] in Hx. destruct (strip_prefix p (String b x)) eqn:Hs; [done|].
    cbn [String.append find]. change (String b (x +:+ String d y)) with (String b x +:+ String d y).
    rewrite (strip_prefix_sep p _ d y Hp Hs), IH; [|by destruct (find p x)]. by destruct (find p y).
Qed.

Lemma find_here p s : find p (p +:+ s) = Some 0%nat.
Proof. pose proof (strip_prefix_app p s) as Hs. destruct (p +:+ s); cbn [find]; by rewrite Hs. Qed.

Lemma find_bound p s i : find p s = Some i → (i + String.length p <= String.length s)%nat.
Proof.
  revert i. induction s as [|b s IH]; intros i; cbn [find].
  - destruct (strip_prefix p "") eqn:Hs; [|done]. intros [= <-]. apply strip_prefix_Some in Hs.
    rewrite Hs, length_append. lia.
  - destruct (strip_prefix p (String b s)) as [t|] eqn:Hs.
    + intros [= <-]. apply strip_prefix_Some in Hs. rewrite Hs, length_append. lia.
    + destruct (find p s) as [j|]; [|done]. intros [= <-]. specialize (IH j eq_refl). cbn. lia.
Qed.

Lemma find_app_l p s z i : find p s = Some i → find p (s +:+ z) = Some i.
Proof.
  revert i. induction s as [|b s IH]; intros i; cbn [find].
  - destruct (strip_prefix p "") eqn:Hs; [|done]. intros [= <-]. destruct p; [|done]. by destruct z.
  - cbn [String.append]. cbn [find]. destruct (strip_prefix p (String b s)) as [t|] eqn:Hs.
    + intros [= <-]. apply strip_prefix_Some in Hs. change (String b (s +:+ z)) with (String b s +:+ z).
      by rewrite Hs, append_assoc, strip_prefix_app.
    + destruct (find p s) as [j|] eqn:Hj; [|done]. intros [= <-]. pose proof (find_bound _ _ _ Hj) as Hb.
      assert (Hn : strip_prefix p (String b (s +:+ z)) = None).
      { destruct (strip_prefix p (String b (s +:+ z))) eqn:Hz; [|done].
        destruct (strip_prefix_short p (String b s) z) as [t Ht]; [cbn; lia|cbn; by rewrite Hz|]. congruence. }
      by rewrite Hn, (IH j eq_refl).
Qed.

Lemma find_skip p s i : find p s = Some i → ∃ t, skip i s = p +:+ t.
Proof.
  revert i. induction s as [|b s IH]; intros i; cbn [find].
  - destruct (strip_prefix p "") as [t|] eqn:Hs; [|done]. intros [= <-]. exists t. by apply strip_prefix_Some in Hs.
  - destruct (strip_prefix p (String b s)) as [t|] eqn:Hs.
    + intros [= <-]. exists t. by apply strip_prefix_Some in Hs.
    + destruct (find p s) as [j|]; [|done]. intros [= <-]. by apply (IH j).
Qed.

Lemma split_once_first c q a z : has c a = false →
  split_once (String c q) (a +:+ String c q +:+ z) = Some (a, z).
Proof.
  intros Ha. unfold split_once. rewrite find_first by done. f_equal.
  rewrite upto_app. f_equal. rewrite <- length_append, <- append_assoc. apply skip_app.
Qed.

(** ** Cutting off the extension *)

Lemma ends_with_app x p : ends_with p (x +:+ p) = true.
Proof.
  unfold ends_with. rewrite length_append, Nat.add_sub, skip_app, bool_decide_true, andb_true_r by done.
  apply Nat.leb_le. lia.
Qed.

Lemma skip_length n s : (String.length (skip n s) = String.length s - n)%nat.
Proof. revert s. induction n as [|n IH]; intros [|c s]; cbn; [done..|]. apply IH. Qed.

Lemma skip_snoc n s c : (n <= String.length s)%nat → skip n (s +:+ String c "") = skip n s +:+ String c "".
Proof.
  revert s. induction n as [|n IH]; intros s Hn; [done|]. destruct s as [|a s]; cbn in *; [lia|]. apply IH. lia.
Qed.

Lemma snoc_inj a b c d : a +:+ String c "" = b +:+ String d "" → c = d.
Proof.
  revert b. induction a as [|x a IH]; intros [|y b]; cbn.
  - by intros [= ->].
  - intros [= _ Hb]. by destruct b.
  - intros [= _ Ha]. by destruct a.
  - intros [= _ Hab]. by eapply IH.
Qed.

Lemma ends_with_other x c p d : c ≠ d → ends_with (p +:+ String d "") (x +:+ String c "") = false.
Proof.
  intros Hne. unfold ends_with. apply andb_false_iff. destruct (_ <=? _)%nat eqn:Hle; [right|by left].
  apply bool_decide_false. apply Nat.leb_le in Hle. rewrite !length_append in *. cbn in *.
  rewrite skip_snoc by lia. intros Heq%snoc_inj. done.
Qed.

Lemma trim_end_once x c p d : c ≠ d →
  trim_end_matches (p +:+ String d "") ((x +:+ String c "") +:+ (p +:+ String d "")) = x +:+ String c "".
Proof.
  intros Hne. unfold trim_end_matches.
  destruct (String.length ((x +:+ String c "") +:+ (p +:+ String d ""))) as [|n] eqn:Hn.
  { rewrite !length_append in Hn. cbn in Hn. lia. }
  assert (Hlen : (String.length ((x +:+ String c "") +:+ (p +:+ String d "")) - String.length (p +:+ String d ""))%nat
    = String.length (x +:+ String c "")).
  { rewrite length_append. lia. }
  cbn [trim_end_loop]. rewrite ends_with_app, Hlen, upto_app. destruct n; [done|]. cbn [trim_end_loop].
  by rewrite ends_with_other.
Qed.

(** ** Numbers *)

Lemma digit_of_char d : 0 <= d < 10 → digit_of (digit_char d) = Some d.
Proof.
  intros Hd. unfold digit_of, digit_char. rewrite N_ascii_embedding by lia.
  rewrite Z2N.id by lia. assert (H1 : 48 <=? 48 + d = true) by (apply Z.leb_le; lia).
  assert (H2 : 48 + d <=? 57 = true) by (apply Z.leb_le; lia). rewrite H1, H2. cbn. f_equal. lia.
Qed.

Lemma show_loop_parse fuel max z acc : 0 <= z <= max → z < 10 ^ (Z.of_nat fuel + 1) →
  parse_digits max 0 (show_loop fuel z acc) = parse_digits max z acc.
Proof.
  revert z acc. induction fuel as [|fuel IH]; intros z acc Hz Hfuel; cbn [show_loop].
  - assert (z mod 10 = z) by (apply Z.mod_small; lia). cbn [parse_digits]. rewrite digit_of_char by lia.
    by replace (10 * 0 + z mod 10) with z by lia; rewrite (proj2 (Z.leb_le _ _)) by lia.
  - pose proof (Z.div_mod z 10 ltac:(lia)) as Hdm. pose proof (Z.mod_pos_bound z 10 ltac:(lia)) as Hm.
    destruct (Z.eqb_spec (z / 10) 0) as [H0|Hne].
    + cbn [parse_digits]. rewrite digit_of_char by lia.
      replace (10 * 0 + z mod 10) with z by lia. by rewrite (proj2 (Z.leb_le _ _)) by lia.
    + assert (Hdiv : 0 <= z / 10) by (apply Z.div_pos; lia).
      rewrite IH; [|lia|].
      2:{ apply Z.div_lt_upper_bound; [lia|]. rewrite <- Z.pow_succ_r by lia.
          replace (Z.succ (Z.of_nat fuel + 1)) with (Z.of_nat (S fuel) + 1) by lia. done. }
      cbn [parse_digits]. rewrite digit_of_char by lia.
      replace (10 * (z / 10) + z mod 10) with z by lia. by rewrite (proj2 (Z.leb_le _ _)) by lia.
Qed.

(** Only digits, and at least one. *)
Lemma show_loop_has fuel z acc c : digit_of c = None → has c acc = false → has c (show_loop fuel z acc) = false.
Proof.
  intros Hc. revert z acc. induction fuel as [|fuel IH]; intros z acc Hacc; cbn [show_loop].
  all: assert (Hd : has c (String (digit_char (z mod 10)) acc) = false).
  1, 3: cbn; rewrite Hacc, orb_false_r; destruct (Ascii.eqb_spec (digit_char (z mod 10)) c) as [<-|]; [|done];
    by rewrite digit_of_char in Hc by (apply Z.mod_pos_bound; lia).
  - done.
  - destruct (_ =? 0); [done|]. by apply IH.
Qed.

Lemma show_has z c : digit_of c = None → has c (show_uint z) = false.
Proof. intros. by apply show_loop_has. Qed.

Lemma show_cons z : ∃ c s, show_uint z = String c s.
Proof.
  unfold show_uint. generalize "" as acc. generalize 20%nat as fuel. intros fuel. revert z.
  induction fuel as [|fuel IH]; intros z acc; cbn [show_loop]; [by eexists _, _|].
  destruct (_ =? 0); [by eexists _, _|apply IH].
Qed.

Lemma parse_show max z : 0 <= z <= max → z < 10 ^ 20 → parse_uint max (show_uint z) = Some z.
Proof.
  intros Hz Hsmall. unfold parse_uint. destruct (show_cons z) as (c & s & Hs).
  assert (Hplus : has "+"%char (show_uint z) = false) by (by apply show_has).
  assert (Hmatch : (match show_uint z with String "+"%char s' => s' | _ => show_uint z end) = show_uint z).
  { rewrite Hs in Hplus |- *. cbn in Hplus. apply orb_false_iff in Hplus as [Hplus _].
    destruct c as [[] [] [] [] [] [] [] []]; done. }
  rewrite Hmatch, Hs, <- Hs. unfold show_uint. rewrite show_loop_parse; [done|lia|].
  eapply Z.lt_le_trans; [exact Hsmall|]. apply Z.pow_le_mono_r; lia.
Qed.

Definition no_space (s : string) : Prop := ∀ c, is_whitespace c = true → has c s = false.

Lemma trim_start_id s : no_space s → trim_start s = s.
Proof.
  destruct s as [|c s]; [done|]. intros Hs. cbn. destruct (is_whitespace c) eqn:Hc; [|done].
  specialize (Hs c Hc). cbn in Hs. by rewrite Ascii.eqb_refl in Hs.
Qed.
Lemma trim_end_id s : no_space s → trim_end s = s.
Proof.
  induction s as [|c s IH]; [done|]. intros Hs. cbn. rewrite IH.
  - destruct (is_whitespace c) eqn:Hc; [|by destruct s]. specialize (Hs c Hc). cbn in Hs. by rewrite Ascii.eqb_refl in Hs.
  - intros d Hd. specialize (Hs d Hd). cbn in Hs. by apply orb_false_iff in Hs as [_ ?].
Qed.
Lemma trim_id s : no_space s → trim s = s.
Proof. intros Hs. unfold trim. by rewrite (trim_start_id s Hs), trim_end_id. Qed.

Lemma show_no_space z : no_space (show_uint z).
Proof.
  intros c Hc. apply show_has. unfold digit_of. unfold is_whitespace in Hc.
  destruct ((48 <=? Z.of_N (N_of_ascii c)) && (Z.of_N (N_of_ascii c) <=? 57)) eqn:Hd; [|done]. exfalso.
  apply andb_true_iff in Hd as [H1%Z.leb_le H2%Z.leb_le].
  apply orb_true_iff in Hc as [[H3%N.leb_le H4%N.leb_le]%andb_true_iff|H3%N.eqb_eq]; lia.
Qed.

(** Both numbers of an interval, as they are split and trimmed. *)
Lemma bounds_read a b : u64 a → u64 b →
  split_once "," (show_uint a +:+ ", " +:+ show_uint b) = Some (show_uint a, " " +:+ show_uint b) ∧
  parse_uint u64_max (trim (show_uint a)) = Some a ∧ parse_uint u64_max (trim (" " +:+ show_uint b)) = Some b.
Proof.
  intros [Ha0 Ha] [Hb0 Hb].
  assert (Hsmall : u64_max < 10 ^ 20) by (vm_compute; reflexivity).
  split_and!.
  - apply (split_once_first ","%char "" (show_uint a) (" " +:+ show_uint b)). by apply show_has.
  - rewrite trim_id by apply show_no_space. apply parse_show; lia.
  - change (trim (" " +:+ show_uint b)) with (trim (show_uint b)).
    rewrite trim_id by apply show_no_space. apply parse_show; lia.
Qed.

(** ** What the names say *)

(** What follows the committer's dash. *)
Definition key_of (step : Z) (b : BatchId) : string := "step" +:+ show_uint step +:+ "-batch" +:+ show_batch b.

Lemma dump_name_key committer step b :
  dump_name committer step b = ("result-" +:+ committer +:+ "-") +:+ (key_of step b +:+ ".vec-postcard").
Proof.
  unfold dump_name, key_of. by rewrite !append_assoc.
Qed.

Lemma show_snoc z : ∃ x, show_uint z = x +:+ String (digit_char (z mod 10)) "".
Proof.
  unfold show_uint. generalize "" as acc. generalize 20%nat as fuel. intros fuel. revert z.
  induction fuel as [|fuel IH]; intros z acc; cbn [show_loop]; [by exists ""|].
  destruct (_ =? 0); [by exists ""|].
  destruct (IH (z / 10) (String (digit_char (z mod 10)) acc)) as [x ->].
  exists (x +:+ String (digit_char ((z / 10) mod 10)) ""). by rewrite append_assoc.
Qed.

Lemma digit_char_not z c : digit_of c = None → digit_char (z mod 10) ≠ c.
Proof. intros Hc <-. by rewrite digit_of_char in Hc by (apply Z.mod_pos_bound; lia). Qed.

(** A key ends with a bracket or a digit. *)
Lemma key_snoc step b : ∃ x c, key_of step b = x +:+ String c "" ∧ c ≠ "d"%char.
Proof.
  unfold key_of, show_batch, show_interval. destruct (start b =? end_ b).
  - destruct (show_snoc (start b)) as [x ->].
    exists ("step" +:+ show_uint step +:+ "-batch" +:+ "B" +:+ x), (digit_char (start b mod 10)).
    split; [by rewrite !append_assoc|by apply digit_char_not].
  - exists ("step" +:+ show_uint step +:+ "-batch" +:+ "B" +:+ "[" +:+ show_uint (start b) +:+ ", " +:+ show_uint (end_ b)), "]"%char.
    split; [by rewrite !append_assoc|done].
Qed.

Lemma name_ends committer step b : ends_with ".vec-postcard" (dump_name committer step b) = true.
Proof. rewrite dump_name_key, <- append_assoc. apply ends_with_app. Qed.

Lemma key_trimmed step b : trim_end_matches ".vec-postcard" (key_of step b +:+ ".vec-postcard") = key_of step b.
Proof.
  destruct (key_snoc step b) as (x & c & -> & Hc). exact (trim_end_once x c ".vec-postcar" "d"%char Hc).
Qed.

Lemma find_none c q s : has c s = false → find (String c q) s = None.
Proof.
  induction s as [|x s IH]; [done|]. cbn [has find strip_prefix]. intros [Hx Hs]%orb_false_iff.
  by rewrite Ascii.eqb_sym, Hx, IH.
Qed.

Lemma committer_read committer step b : has "-"%char committer = false →
  parse_committer (dump_name committer step b) = Some committer.
Proof.
  intros Hc. unfold parse_committer, dump_name. rewrite strip_prefix_app. cbn [mbind option_bind].
  rewrite (find_first "-"%char "step" committer _ Hc). cbn [mbind option_bind]. by rewrite upto_app.
Qed.

Lemma key_read committer step b : find "step" committer = None →
  contribution_key (dump_name committer step b) = Some (key_of step b).
Proof.
  intros Hc. unfold contribution_key. rewrite name_ends.
  assert (Hfind : find "step" (dump_name committer step b) = Some (String.length ("result-" +:+ committer +:+ "-"))).
  { rewrite dump_name_key, !append_assoc. change ("result-" +:+ ?x) with ("result" +:+ String "-"%char x).
    rewrite (find_sep "step" "result" "-"%char) by done.
    change ("-" +:+ ?x) with (String "-"%char x). rewrite (find_sep "step" committer "-"%char) by done.
    unfold key_of. rewrite !append_assoc, find_here. cbn [fmap option_fmap option_map].
    change ("result" +:+ String "-"%char ?x) with ("result-" +:+ x). rewrite !length_append. done. }
  rewrite Hfind, dump_name_key, skip_app. by rewrite key_trimmed.
Qed.

Notation show_pair b := (show_uint (start b) +:+ ", " +:+ show_uint (end_ b)).

Lemma key_pair step b : start b ≠ end_ b →
  key_of step b = "step" +:+ show_uint step +:+ "-batchB" +:+ "[" +:+ show_pair b +:+ "]".
Proof.
  intros Hne. unfold key_of, show_batch, show_interval. rewrite (proj2 (Z.eqb_neq _ _)) by done. by rewrite !append_assoc.
Qed.

(** The text between the first brackets. *)
Lemma bounds_between {E : Type} pre b : has "["%char pre = false → has "]"%char pre = false → u64 (start b) → u64 (end_ b) →
  parse_batch_bounds (E := E) (pre +:+ "[" +:+ show_pair b +:+ "]") = Ok (Some (start b, end_ b)).
Proof.
  intros Hpl Hpr Ha Hb. destruct (bounds_read (start b) (end_ b) Ha Hb) as (Hsplit & Hpa & Hpb).
  set (inner := show_pair b) in *.
  assert (Hinner : has "]"%char inner = false) by (unfold inner; rewrite !has_app, !show_has by done; done).
  set (text := pre +:+ "[" +:+ inner +:+ "]").
  assert (Hl : find "[" text = Some (String.length pre)) by (by apply (find_first "["%char "")).
  assert (Hr : find "]" text = Some (String.length (pre +:+ "[" +:+ inner))).
  { replace text with ((pre +:+ "[" +:+ inner) +:+ "]" +:+ "") by (unfold text; by rewrite !append_assoc).
    apply (find_first "]"%char ""). rewrite !has_app, Hpr. by rewrite Hinner. }
  unfold parse_batch_bounds. rewrite Hl, Hr. rewrite !length_append. cbn [String.length].
  rewrite (proj2 (Nat.ltb_ge _ _)) by lia.
  replace (String.length pre + (1 + String.length inner) - (String.length pre + 1))%nat with (String.length inner) by lia.
  replace (skip (String.length pre + 1) text) with (inner +:+ "]").
  2:{ unfold text. change (String.length pre + 1)%nat with (String.length pre + String.length "[")%nat.
      rewrite <- length_append, <- (append_assoc pre "["). symmetry. apply skip_app. }
  rewrite upto_app, Hsplit.
  assert (Hrest : split_once "," (" " +:+ show_uint (end_ b)) = None).
  { unfold split_once. rewrite (find_none ","%char ""); [done|]. rewrite has_app, show_has; done. }
  rewrite Hrest, Hpa. cbn [mbind option_bind]. by rewrite Hpb.
Qed.

Lemma brackets_trimmed b :
  trim_end_matches "]" (trim_start_matches "[" ("[" +:+ show_pair b +:+ "]")) = show_pair b.
Proof.
  assert (Hts : trim_start_matches "[" ("[" +:+ show_pair b +:+ "]") = show_pair b +:+ "]").
  { unfold trim_start_matches. change ("[" +:+ ?x) with (String "["%char x) at 1. cbn [String.length trim_start_loop].
    rewrite strip_prefix_app.
    assert (Hnot : strip_prefix "[" (show_pair b +:+ "]") = None).
    { destruct (show_cons (start b)) as (c & s & Hc). pose proof (show_has (start b) "["%char eq_refl) as Hh.
      rewrite Hc in Hh |- *. cbn [has] in Hh. apply orb_false_iff in Hh as [Hh _].
      cbn [String.append strip_prefix]. by rewrite Ascii.eqb_sym, Hh. }
    destruct (String.length _); cbn [trim_start_loop]; [done|]. by rewrite Hnot. }
  rewrite Hts. destruct (show_snoc (end_ b)) as [x Hx].
  replace (show_pair b) with ((show_uint (start b) +:+ ", " +:+ x) +:+ String (digit_char (end_ b mod 10)) "")
    by (by rewrite Hx, !append_assoc).
  apply (trim_end_once _ _ "" "]"%char). by apply digit_char_not.
Qed.

Lemma assignment_read step b : u32 step → u64 (start b) → u64 (end_ b) → start b < end_ b →
  parse_assignment_key (E := unit) (key_of step b) = Ok (Some (step, b)).
Proof.
  intros Hu Ha Hb Hlt. destruct (bounds_read (start b) (end_ b) Ha Hb) as (Hsplit & Hpa & Hpb).
  rewrite key_pair by lia. unfold parse_assignment_key. rewrite <- append_assoc.
  rewrite (split_once_first "-"%char "batchB") by (rewrite has_app, show_has; done).
  cbn [mbind option_bind]. rewrite strip_prefix_app. cbn [mbind option_bind].
  rewrite parse_show by (unfold u32, u32_max in *; lia). cbn [mbind option_bind].
  rewrite brackets_trimmed, Hsplit. cbn [mbind option_bind]. rewrite Hpa. cbn [mbind option_bind]. rewrite Hpb.
  cbn [mbind option_bind]. unfold ClosedInterval_new. rewrite (proj2 (Z.leb_le _ _)) by lia. cbn. by destruct b.
Qed.

(** Files named by a client are read back: the committer, and for a batch of several
    sequences the step and the batch. *)
Theorem dump_names_round_trip committer step b :
  has "-"%char committer = false → find "step" committer = None → u32 step → u64 (start b) → u64 (end_ b) →
  start b < end_ b →
  let key := key_of step b in
  parse_committer (dump_name committer step b) = Some committer ∧
  contribution_key (dump_name committer step b) = Some key ∧
  parse_batch_bounds (E := unit) key = Ok (Some (start b, end_ b)) ∧
  parse_assignment_key (E := unit) key = Ok (Some (step, b)).
Proof.
  intros Hdash Hstep Hu Ha Hb Hlt key.
  split_and!; [by apply committer_read|by apply key_read| |by apply assignment_read].
  unfold key. rewrite key_pair by lia.
  replace ("step" +:+ show_uint step +:+ "-batchB" +:+ "[" +:+ show_pair b +:+ "]")
    with (("step" +:+ show_uint step +:+ "-batchB") +:+ "[" +:+ show_pair b +:+ "]") by (by rewrite !append_assoc).
  apply bounds_between; [rewrite !has_app, show_has; done..| |]; done.
Qed.

Lemma dump_names_round_trip_witness :
  let b := mkClosedInterval 12 15 in
  parse_committer (dump_name "9xQe" 7 b) = Some "9xQe" ∧
  contribution_key (dump_name "9xQe" 7 b) = Some "step7-batchB[12, 15]" ∧
  parse_batch_bounds (E := unit) "step7-batchB[12, 15]" = Ok (Some (12, 15)) ∧
  parse_assignment_key (E := unit) "step7-batchB[12, 15]" = Ok (Some (7, b)).
Proof.
  exact (dump_names_round_trip "9xQe" 7 (mkClosedInterval 12 15) eq_refl eq_refl
    ltac:(split; vm_compute; congruence) ltac:(split; vm_compute; congruence) ltac:(split; vm_compute; congruence) eq_refl).
Defined.

(** ** Contributions the audits do not reach *)

(** A batch of one sequence is printed without brackets. *)
Lemma single_key step b : start b = end_ b → key_of step b = "step" +:+ show_uint step +:+ "-batchB" +:+ show_uint (start b).
Proof. intros He. unfold key_of, show_batch, show_interval. rewrite He, Z.eqb_refl. done. Qed.

Lemma single_bounds {E : Type} step b : start b = end_ b → parse_batch_bounds (E := E) (key_of step b) = Ok None.
Proof.
  intros He. rewrite (single_key step b He). unfold parse_batch_bounds.
  rewrite (find_none "["%char ""); [done|]. rewrite !has_app, !show_has; done.
Qed.

Lemma trim_start_none c s : has c s = false → trim_start_matches (String c "") s = s.
Proof.
  intros Hs. unfold trim_start_matches. destruct s as [|a s]; [done|]. cbn in Hs. apply orb_false_iff in Hs as [Ha _].
  cbn [String.length trim_start_loop strip_prefix]. by rewrite Ascii.eqb_sym, Ha.
Qed.

Lemma trim_end_none z c : digit_of c = None → trim_end_matches (String c "") (show_uint z) = show_uint z.
Proof.
  intros Hc. unfold trim_end_matches. destruct (show_snoc z) as [x Hx]. rewrite Hx.
  destruct (String.length _); [done|]. cbn [trim_end_loop].
  change (String c "") with ("" +:+ String c ""). rewrite ends_with_other; [done|]. by apply digit_char_not.
Qed.

(** A batch of one sequence is not recognised: its name is read as no batch and no
    assignment. *)
Theorem single_batches_are_not_read step b : start b = end_ b →
  parse_batch_bounds (E := unit) (key_of step b) = Ok None ∧
  parse_assignment_key (E := unit) (key_of step b) = Ok None.
Proof.
  intros He. split.
  - by apply single_bounds.
  - rewrite (single_key step b He). unfold parse_assignment_key. rewrite <- append_assoc.
    rewrite (split_once_first "-"%char "batchB") by (rewrite has_app, show_has; done).
    cbn [mbind option_bind]. rewrite strip_prefix_app. cbn [mbind option_bind].
    destruct (parse_uint u32_max (show_uint step)); [|done]. cbn [mbind option_bind].
    rewrite trim_start_none, trim_end_none by (by try apply show_has).
    unfold split_once. by rewrite (find_none ","%char "") by (by apply show_has).
Qed.

Lemma split_once_Some p s a b : split_once p s = Some (a, b) → s = a +:+ p +:+ b.
Proof.
  unfold split_once. destruct (find p s) as [i|] eqn:Hi; [|done]. intros [= <- <-].
  revert i Hi. induction s as [|c s IH]; intros i; cbn [find].
  - destruct (strip_prefix p "") as [t|] eqn:Hs; [|done]. intros [= <-]. apply strip_prefix_Some in Hs. by destruct p.
  - destruct (strip_prefix p (String c s)) as [t|] eqn:Hs.
    + intros [= <-]. apply strip_prefix_Some in Hs. rewrite Hs. cbn [upto Nat.add String.append]. by rewrite skip_app.
    + destruct (find p s) as [j|]; [|done]. intros [= <-]. cbn [upto Nat.add skip String.append]. f_equal. by apply IH.
Qed.

Lemma first_split c a b x y : has c a = false → has c b = false → a +:+ String c x = b +:+ String c y → x = y.
Proof.
  revert b. induction a as [|u a IH]; intros [|v b]; cbn.
  - by intros _ _ [= ->].
  - intros _ [Hv _]%orb_false_iff [= Hc _]. rewrite Hc, Ascii.eqb_refl in Hv. done.
  - intros [Hu _]%orb_false_iff _ [= Hc _]. rewrite Hc, Ascii.eqb_refl in Hu. done.
  - intros [_ Ha]%orb_false_iff [_ Hb]%orb_false_iff [= _ He]. by apply (IH b).
Qed.

Lemma parse_digits_has max acc s z c : parse_digits max acc s = Some z → digit_of c = None → has c s = false.
Proof.
  intros Hp Hc. revert acc Hp. induction s as [|a s IH]; intros acc; cbn; [done|].
  destruct (digit_of a) as [d|] eqn:Ha; [|done]. destruct (_ <=? _); [|done]. intros Hs.
  rewrite (IH _ Hs), orb_false_r. destruct (Ascii.eqb_spec a c) as [->|]; [|done]. congruence.
Qed.

Lemma parse_uint_has max s z c : parse_uint max s = Some z → digit_of c = None → c ≠ "+"%char → has c s = false.
Proof.
  unfold parse_uint. intros Hp Hc Hne. destruct s as [|a s]; [done|].
  destruct (ascii_dec a "+") as [->|Ha].
  - cbn [has]. rewrite (proj2 (Ascii.eqb_neq "+" c)) by congruence. destruct s; [done|]. by eapply parse_digits_has.
  - assert (Hm : (match String a s with String "+"%char s' => s' | _ => String a s end) = String a s).
    { destruct a as [[] [] [] [] [] [] [] []]; done. }
    rewrite Hm in Hp. by eapply parse_digits_has.
Qed.

Lemma find_split p s i : find p s = Some i → ∃ a t, s = a +:+ p +:+ t ∧ String.length a = i.
Proof.
  revert i. induction s as [|c s IH]; intros i; cbn [find].
  - destruct (strip_prefix p "") as [t|] eqn:Hs; [|done]. intros [= <-]. exists "", t. by apply strip_prefix_Some in Hs.
  - destruct (strip_prefix p (String c s)) as [t|] eqn:Hs.
    + intros [= <-]. exists "", t. by apply strip_prefix_Some in Hs.
    + destruct (find p s) as [j|]; [|done]. intros [= <-]. destruct (IH j eq_refl) as (a & t & -> & <-).
      by exists (String c a), t.
Qed.

(** An assignment is read only from a text whose first dash starts [-batchB]. *)
Lemma assignment_first_dash x y : has "-"%char x = false → strip_prefix "batchB" y = None →
  parse_assignment_key (E := unit) (x +:+ String "-"%char y) = Ok None.
Proof.
  intros Hx Hy. unfold parse_assignment_key.
  destruct (split_once "-batchB" (x +:+ String "-"%char y)) as [[sp bp]|] eqn:Hs; [|done]. cbn [mbind option_bind].
  destruct (strip_prefix "step" sp) as [digits|] eqn:Hd; [|done]. cbn [mbind option_bind].
  destruct (parse_uint u32_max digits) as [step|] eqn:Hp; [|done]. exfalso.
  apply split_once_Some in Hs. apply strip_prefix_Some in Hd as ->.
  apply first_split in Hs; [|done|].
  - subst y. pose proof (strip_prefix_app "batchB" bp) as Hb. cbn in Hb, Hy. congruence.
  - rewrite has_app. by rewrite (parse_uint_has _ _ _ _ Hp).
Qed.

(** An address that contains [step] hides its contributions from a replay: the key of its
    files starts inside the address, and no assignment is read from it. *)
Theorem step_in_address_hides committer step b :
  has "-"%char committer = false → is_Some (find "step" committer) →
  ∃ key, contribution_key (dump_name committer step b) = Some key ∧ key ≠ key_of step b ∧
  parse_assignment_key (E := unit) key = Ok None.
Proof.
  intros Hdash [i Hi]. destruct (find_split _ _ _ Hi) as (a & t & Ha & Hlen).
  exists ("step" +:+ t +:+ "-" +:+ key_of step b).
  assert (Hst : has "-"%char ("step" +:+ t) = false).
  { rewrite Ha, has_app in Hdash. by apply orb_false_iff in Hdash as [_ ?]. }
  split_and!.
  - unfold contribution_key. rewrite name_ends.
    assert (Hf : find "step" (dump_name committer step b) = Some (String.length ("result-" +:+ a))).
    { rewrite dump_name_key, !append_assoc. change ("result-" +:+ ?x) with ("result" +:+ String "-"%char x).
      rewrite (find_sep "step" "result" "-"%char) by done. rewrite (find_app_l _ _ _ _ Hi). subst i.
      cbn [fmap option_fmap option_map]. by rewrite !length_append. }
    rewrite Hf. f_equal. rewrite dump_name_key, Ha, !append_assoc, <- (append_assoc "result-"), skip_app.
    destruct (key_snoc step b) as (x & c & -> & Hc).
    replace ("step" +:+ t +:+ "-" +:+ (x +:+ String c "") +:+ ".vec-postcard")
      with ((("step" +:+ t +:+ "-" +:+ x) +:+ String c "") +:+ ".vec-postcard") by (by rewrite !append_assoc).
    rewrite (trim_end_once _ c ".vec-postcar" "d"%char Hc). by rewrite !append_assoc.
  - unfold key_of at 2. intros Heq. apply (f_equal String.length) in Heq. unfold key_of in Heq.
    rewrite !length_append in Heq. cbn in Heq. lia.
  - replace ("step" +:+ t +:+ "-" +:+ key_of step b) with (("step" +:+ t) +:+ String "-"%char (key_of step b))
      by (by rewrite append_assoc).
    by apply assignment_first_dash.
Qed.
