(* ===== verification/AuditTool.v ===== *)
(** * The verifier's tool

    src/tools/rust-tools/leviathan-verifier/src/lib.rs and replay.rs: the directory of dumps
    by key, the audit of a directory against another or against replays, its summary, the
    data set the tool writes, and the engine that replays with a trainer.

    A directory is the list of its files in the order they are read; of a file the model has
    the name and what [decompress_dump] makes of its contents, which takes the tensor
    library.  The trainer is the modeling crate's and a parameter.  An engine has a state:
    the trainer is moved out of it and back. *)

From stdpp Require Import base tactics list numbers gmap strings.
From S2P Require Import Prelude CoreTypes Hashing Float Float32 Verifier DumpNames.

Open Scope Z_scope.

Record DumpFile := mkDumpFile { df_path : string; df_delta : option (list Z) }.

Inductive ToolError :=
| CannotRead
| BadDump (path : string)
| VerifierFailed (error : VerifierError)
| EmptyVocabulary.

Definition from_verifier {A} (r : res VerifierError A) : res ToolError A :=
  match r with Ok a => Ok a | Err e => Err (VerifierFailed e) | Panic => Panic end.

(** ** The directory by key *)

(** [BTreeMap<String, _>], as the list it iterates over. *)
Fixpoint key_insert {V} (k : string) (v : V) (m : list (string * V)) : list (string * V) :=
  match m with
  | [] => [(k, v)]
  | (k', v') :: m' =>
      match String.compare k k' with
      | Lt => (k, v) :: m
      | Eq => (k, v) :: m'
      | Gt => (k', v') :: key_insert k v m'
      end
  end.
Fixpoint key_lookup {V} (k : string) (m : list (string * V)) : option V :=
  match m with
  | [] => None
  | (k', v') :: m' => if String.eqb k k' then Some v' else key_lookup k m'
  end.

Definition index_file (m : list (string * DumpFile)) (f : DumpFile) : list (string * DumpFile) :=
  match contribution_key (df_path f) with Some key => key_insert key f m | None => m end.
(** No directory when it cannot be read. *)
Definition index_dir (dir : option (list DumpFile)) : res ToolError (list (string * DumpFile)) :=
  files ← ok_or dir CannotRead;
  Ok (foldl index_file [] files).

Definition decompress_dump (f : DumpFile) : res ToolError (list Z) := ok_or (df_delta f) (BadDump (df_path f)).

(** ** The data set *)

Definition next_state (state : Z) : Z :=
  as_u64 (as_u64 (state * 6364136223846793005) + 1442695040888963407).
Definition token_of (vocab_size state : Z) : Z := Z.shiftr state 33 mod vocab_size.
Fixpoint token_bytes (n : nat) (vocab_size state : Z) : list Z :=
  match n with
  | O => []
  | S n' => let state := next_state state in to_le_bytes 2 (token_of vocab_size state) ++ token_bytes n' vocab_size state
  end.
(** The bytes that are written. *)
Definition write_token_dataset (vocab_size sequence_length sequences seed : Z) : res ToolError (list Z) :=
  res_throw_if (vocab_size =? 0) EmptyVocabulary ;;
  let total_tokens := as_u64 (sequence_length * as_u64 (sequences + 1)) in
  Ok (token_bytes (Z.to_nat total_tokens) vocab_size (Z.lor seed 1)).

(** ** Outcomes *)

Inductive ContributionOutcome :=
| OutcomeOk (key : string) (distance : f32)
| OutcomeFraud (key : string) (proof : FraudProof)
| OutcomeLengthMismatch (key : string) (submitted reference : Z)
| OutcomeNoReference (key : string).

(** [AuditSummary] and its counts. *)
Record AuditSummary := mkAuditSummary { outcomes : list ContributionOutcome }.
Definition is_audited (o : ContributionOutcome) : bool :=
  match o with OutcomeOk _ _ | OutcomeFraud _ _ => true | _ => false end.
Definition is_fraud (o : ContributionOutcome) : bool :=
  match o with OutcomeFraud _ _ | OutcomeLengthMismatch _ _ _ => true | _ => false end.
Definition audited (s : AuditSummary) : nat := length (List.filter is_audited (outcomes s)).
Definition frauds (s : AuditSummary) : nat := length (List.filter is_fraud (outcomes s)).
Definition proofs (s : AuditSummary) : list FraudProof :=
  omap (λ o, match o with OutcomeFraud _ proof => Some proof | _ => None end) (outcomes s).

Section Tool.
Context {H : HashFns}.

(** From the comparison of the lengths on, in both audits. *)
Definition judge (i : Z) (key : string) (submitted reference : list Z) (b : f32) : res ToolError ContributionOutcome :=
  if negb (zlen submitted =? zlen reference) then
    Ok (OutcomeLengthMismatch key (zlen submitted) (zlen reference))
  else
    report ← from_verifier (audit_contribution i submitted reference b);
    if fraud (ar_verdict report) then proof ← unwrap (ar_proof report); Ok (OutcomeFraud key proof)
    else Ok (OutcomeOk key (distance (ar_verdict report))).

Fixpoint audit_dirs_from (i : Z) (submitted reference : list (string * DumpFile)) (b : f32) :
    res ToolError (list ContributionOutcome) :=
  match submitted with
  | [] => Ok []
  | (key, submitted_path) :: submitted' =>
      o ← match key_lookup key reference with
          | None => Ok (OutcomeNoReference key)
          | Some reference_path =>
              submitted_delta ← decompress_dump submitted_path;
              reference_delta ← decompress_dump reference_path;
              judge i key submitted_delta reference_delta b
          end;
      rest ← audit_dirs_from (i + 1) submitted' reference b;
      Ok (o :: rest)
  end.
Definition audit_dirs (submitted reference : option (list DumpFile)) (b : f32) : res ToolError AuditSummary :=
  submitted_index ← index_dir submitted;
  reference_index ← index_dir reference;
  os ← audit_dirs_from 0 submitted_index reference_index b;
  Ok (mkAuditSummary os).

(** [engine.replay(target_index)] changes the engine's state. *)
Fixpoint audit_with_replay_from {ES} (replay : ES → Z → ES * (ReplayError + list Z)) (engine : ES) (i : Z)
    (submitted : list (string * DumpFile)) (b : f32) : res ToolError (list ContributionOutcome) :=
  match submitted with
  | [] => Ok []
  | (key, submitted_path) :: submitted' =>
      submitted_delta ← decompress_dump submitted_path;
      let '(engine', replayed) := replay engine i in
      o ← match replayed with
          | inl _ => Ok (OutcomeNoReference key)
          | inr reference_delta => judge i key submitted_delta reference_delta b
          end;
      rest ← audit_with_replay_from replay engine' (i + 1) submitted' b;
      Ok (o :: rest)
  end.
Definition audit_with_replay {ES} (replay : ES → Z → ES * (ReplayError + list Z)) (engine : ES)
    (submitted : option (list DumpFile)) (b : f32) : res ToolError AuditSummary :=
  submitted_index ← index_dir submitted;
  os ← audit_with_replay_from replay engine 0 submitted_index b;
  Ok (mkAuditSummary os).
End Tool.

(** ** The engine *)

Section Engine.
Context {T D R : Type}.

Record ReplayAssignment := mkReplayAssignment {
  ra_target_index : Z;
  ra_step : Z;
  ra_batch_id : BatchId;
  ra_data : list D;
}.

(** [Trainer::train] with fresh optimizer state: the trainer comes back with the results, if
    the run uses DisTrO, and is lost with an error. *)
Context (train : T → ReplayAssignment → string + (T * option R)) (decompress_results : R → string + list Z).

Record TrainerReplayEngine := mkEngine { slot : option T; assignments : gmap Z ReplayAssignment }.

(** [assignments.into_iter().map(|a| (a.target_index, a)).collect()]. *)
Definition engine_new (trainer : T) (l : list ReplayAssignment) : TrainerReplayEngine :=
  mkEngine (Some trainer) (foldl (λ m a, <[ra_target_index a := a]> m) ∅ l).
Definition into_trainer (e : TrainerReplayEngine) : option T := slot e.

Definition recompute (e : TrainerReplayEngine) (a : ReplayAssignment) : TrainerReplayEngine * (ReplayError + list Z) :=
  match slot e with
  | None => (e, inl (Backend "replay trainer unavailable"))
  | Some trainer =>
      match train trainer a with
      | inl error => (mkEngine None (assignments e), inl (Backend ("replay training failed: " +:+ error)))
      | inr (trainer', results) =>
          (mkEngine (Some trainer') (assignments e),
           match results with
           | None => inl (Backend "replay produced no distro results, the run is not using DisTrO")
           | Some r =>
               match decompress_results r with
               | inl e => inl (Backend ("cannot decompress replay: " +:+ e))
               | inr dense => inr dense
               end
           end)
      end
  end.

Definition engine_replay (e : TrainerReplayEngine) (target_index : Z) : TrainerReplayEngine * (ReplayError + list Z) :=
  match assignments e !! target_index with
  | None => (e, inl (NotAssigned target_index))
  | Some a => recompute e a
  end.
End Engine.
Arguments ReplayAssignment : clear implicits.
Arguments TrainerReplayEngine : clear implicits.
