(* ===== verification/AuditToolThms.v ===== *)
(** * The directory by key, as a map

    [BTreeMap] laws of the index: its keys ascend, and a key has the last file read that
    bears it. *)

From Stdlib Require Import Ascii.
From stdpp Require Import base tactics list numbers gmap strings sorting.
From S2P Require Import Prelude CoreTypes Hashing Float32 Verifier VerifierThms DumpNames AuditTool.

Open Scope Z_scope.

Lemma compare_trans a b c : String.compare a b = Lt → String.compare b c = Lt → String.compare a c = Lt.
Proof.
  revert b c. induction a as [|x a IH]; intros [|y b] [|z c]; cbn; try done. unfold Ascii.compare.
  destruct (N.compare_spec (N_of_ascii x) (N_of_ascii y)), (N.compare_spec (N_of_ascii y) (N_of_ascii z)),
    (N.compare_spec (N_of_ascii x) (N_of_ascii z)); try done; try lia. apply IH.
Qed.

Lemma compare_refl a : String.compare a a = Eq.
Proof. induction a as [|x a IH]; cbn; [done|]. unfold Ascii.compare. by rewrite N.compare_refl. Qed.

Section Index.
Context {V : Type}.
Implicit Types (m : list (string * V)).

Definition ascending m : Prop := StronglySorted (λ a b, String.compare a b = Lt) m.*1.

Lemma key_insert_keys k (v : V) m a : a ∈ (key_insert k v m).*1 → a = k ∨ a ∈ m.*1.
Proof.
  induction m as [|[k' v'] m IH]; cbn; [intros ->%list_elem_of_singleton; by left|].
  destruct (String.compare k k') eqn:Hc; cbn; rewrite ?elem_of_cons.
  - apply String.compare_eq_iff in Hc as ->. intros [->|?]; [by left|right; by right].
  - tauto.
  - intros [->|[->|?]%IH]; [right; by left|by left|right; by right].
Qed.

Lemma key_insert_ascending k (v : V) m : ascending m → ascending (key_insert k v m).
Proof.
  unfold ascending. induction m as [|[k' v'] m IH]; cbn; intros Hs; [by repeat constructor|].
  inversion_clear Hs as [|? ? Hs' Hall]. destruct (String.compare k k') eqn:Hc; cbn.
  - apply String.compare_eq_iff in Hc as ->. by constructor.
  - constructor; [by constructor|]. constructor; [done|]. eapply list.Forall_impl; [exact Hall|]. intros a. by apply compare_trans.
  - constructor; [by apply IH|]. apply list.Forall_forall. intros a [->|Ha]%key_insert_keys.
    + by rewrite String.compare_antisym, Hc.
    + by eapply (proj1 (list.Forall_forall _ _) Hall).
Qed.

Lemma lookup_insert_key k a (v : V) m : key_lookup a (key_insert k v m) = if String.eqb a k then Some v else key_lookup a m.
Proof.
  induction m as [|[k' v'] m IH]; cbn; [done|]. destruct (String.compare k k') eqn:Hc; cbn.
  - apply String.compare_eq_iff in Hc as ->. by destruct (String.eqb a k').
  - done.
  - rewrite IH. destruct (String.eqb_spec a k') as [->|]; [|done]. destruct (String.eqb_spec k' k) as [->|]; [|done].
    pose proof (compare_refl k). congruence.
Qed.

Lemma ascending_keys m : ascending m → NoDup m.*1.
Proof.
  intros Hs. unfold ascending in Hs. induction Hs as [|k l _ IH Hall]; constructor; [|done].
  intros Hin. apply (proj1 (list.Forall_forall _ _) Hall) in Hin.
  pose proof (compare_refl k). congruence.
Qed.

Lemma key_lookup_in m k (v : V) : ascending m → (k, v) ∈ m ↔ key_lookup k m = Some v.
Proof.
  intros Hs%ascending_keys. induction m as [|[k' v'] m IH]; cbn; [split; [by intros ?%not_elem_of_nil|done]|].
  cbn in Hs. apply list.NoDup_cons in Hs as [Hno Hs]. rewrite elem_of_cons, IH by done.
  destruct (String.eqb_spec k k') as [->|Hne]; [|naive_solver].
  split; [|intros [= ->]; by left]. intros [[= ->]|Hin]; [done|]. exfalso. apply Hno.
  rewrite <- IH in Hin by done. by apply (list_elem_of_fmap_2 fst) in Hin.
Qed.
End Index.

Definition bears (key : string) (f : DumpFile) : bool := bool_decide (contribution_key (df_path f) = Some key).

(** The index of a directory: its keys ascend, and a file is found under a key exactly when
    it is the last file read that bears the key. *)
Theorem index_dir_keeps_last files :
  ∃ index, index_dir (Some files) = Ok index ∧ ascending index ∧
  ∀ key f, (key, f) ∈ index ↔ last (List.filter (bears key) files) = Some f.
Proof.
  eexists. split; [done|].
  assert (Hall : ascending (foldl index_file [] files) ∧
    ∀ key, key_lookup key (foldl index_file [] files) = last (List.filter (bears key) files)).
  { induction files as [|f files [IHs IHl]] using rev_ind; [by split; [constructor|]|].
    rewrite foldl_snoc. unfold index_file at 1 3. destruct (contribution_key (df_path f)) as [k|] eqn:Hk.
    - split; [by apply key_insert_ascending|]. intros key. rewrite lookup_insert_key, List.filter_app, IHl. cbn [List.filter].
      unfold bears at 3. rewrite Hk. destruct (String.eqb_spec key k) as [->|Hne].
      + by rewrite bool_decide_true, last_snoc.
      + by rewrite bool_decide_false, app_nil_r by congruence.
    - split; [done|]. intros key. rewrite List.filter_app, IHl. cbn [List.filter].
      unfold bears at 3. by rewrite Hk, bool_decide_false, app_nil_r. }
  destruct Hall as [Hs Hl]. split; [done|]. intros key f. by rewrite key_lookup_in, Hl.
Qed.

(** ** The audit of a directory *)

Section Audit.
Context {H : HashFns}.

Definition within (sd rd : list Z) (b : f32) : Prop := ∃ v, verify_within_band sd rd b = Ok v ∧ fraud v = false.

Lemma judge_fraud i key sd rd b o : judge i key sd rd b = Ok o → is_fraud o = false ↔ within sd rd b.
Proof.
  unfold judge, within. destruct (Z.eqb_spec (zlen sd) (zlen rd)) as [He|Hne]; cbn [negb].
  - unfold audit_contribution. destruct (verify_within_band sd rd b) as [v| |]; [|done..]. cbn.
    destruct (fraud v) eqn:Hf; cbn; intros [= <-]; cbn; split; try done.
    + intros (v' & [= <-] & ?). congruence.
    + intros _. by exists v.
  - intros [= <-]. cbn. split; [done|]. intros (v & Hv & _). apply verify_inv in Hv as (_ & _ & _ & _ & Hd).
    exfalso. destruct Hd as [[Hlen _]%distance_inv|[[j Hd] _]]; [apply Hne; unfold zlen; by rewrite Hlen|].
    unfold relative_l2_distance in Hd. destruct (Z.eqb_spec (zlen sd) (zlen rd)); [done|]. done.
Qed.

Lemma audit_dirs_clean b ri si : ∀ i os, audit_dirs_from i si ri b = Ok os →
  length os = length si ∧
  (List.filter is_fraud os = [] ↔
   ∀ key f g sd rd, (key, f) ∈ si → key_lookup key ri = Some g → df_delta f = Some sd → df_delta g = Some rd → within sd rd b).
Proof.
  induction si as [|[key f] si IH]; intros i os; cbn [audit_dirs_from].
  { intros [= <-]. split; [done|]. split; [|done]. by intros _ ? ? ? ? ? ?%not_elem_of_nil. }
  intros (o & Ho & (rest & Hrest & [= <-])%res_bind_Ok)%res_bind_Ok.
  destruct (IH _ _ Hrest) as [Hlen Hiff]. split; [cbn; by f_equal|].
  assert (Hhead : is_fraud o = false ↔
    ∀ g sd rd, key_lookup key ri = Some g → df_delta f = Some sd → df_delta g = Some rd → within sd rd b).
  { destruct (key_lookup key ri) as [g|]; [|by injection Ho as <-].
    unfold decompress_dump in Ho. apply res_bind_Ok in Ho as (sd & Hsd%ok_or_Ok & Ho).
    apply res_bind_Ok in Ho as (rd & Hrd%ok_or_Ok & Ho). rewrite (judge_fraud _ _ _ _ _ _ Ho). naive_solver. }
  cbn [List.filter]. split.
  - destruct (is_fraud o) eqn:Ho'; [done|]. intros Hnil key' f' g sd rd [[= -> ->]|Hin]%elem_of_cons; [by apply Hhead|].
    by eapply Hiff.
  - intros Hall. assert (Hz : is_fraud o = false). { apply Hhead. intros. eapply Hall; [by left|done..]. }
    rewrite Hz. apply Hiff. intros. eapply Hall; [by right|done..].
Qed.

(** The tool reports no fraud exactly when every submitted dump that has a reference is of
    the reference's length and within the band of it; it has an outcome for every key. *)
Theorem clean_means_within_band files refs b s : audit_dirs (Some files) (Some refs) b = Ok s →
  frauds s = 0%nat ↔
  ∀ key f g sd rd, last (List.filter (bears key) files) = Some f → last (List.filter (bears key) refs) = Some g →
    df_delta f = Some sd → df_delta g = Some rd → within sd rd b.
Proof.
  unfold audit_dirs. destruct (index_dir_keeps_last files) as (si & -> & _ & Hsi).
  destruct (index_dir_keeps_last refs) as (ri & -> & Hasc & Hri). cbn [mbind res_bind].
  intros (os & Hos & [= <-])%res_bind_Ok. destruct (audit_dirs_clean _ _ _ _ _ Hos) as [_ Hiff].
  unfold frauds. cbn [outcomes]. rewrite length_zero_iff_nil, Hiff. split.
  - intros Hall key f g sd rd Hf Hg. apply (Hall key f g); [by apply Hsi|]. by rewrite <- key_lookup_in, Hri.
  - intros Hall key f g sd rd Hf Hg. apply (Hall key f g); [by apply Hsi|]. by rewrite <- Hri, key_lookup_in.
Qed.
End Audit.

(** ** The data set *)

Lemma token_bytes_length n vocab state : length (token_bytes n vocab state) = (2 * n)%nat.
Proof.
  revert state. induction n as [|n IH]; intros state; cbn [token_bytes]; [done|].
  rewrite length_app, to_le_bytes_length, IH. lia.
Qed.

Lemma token_bytes_read n vocab state i : 0 < vocab <= 2 ^ 16 → (i < n)%nat →
  0 <= from_le_bytes (take 2 (drop (2 * i) (token_bytes n vocab state))) < vocab.
Proof.
  intros Hv. revert state i. induction n as [|n IH]; intros state i Hi; [lia|]. cbn [token_bytes].
  set (t := token_of vocab (next_state state)).
  assert (Ht : 0 <= t < vocab) by (apply Z.mod_pos_bound; lia).
  assert (Hlen : length (to_le_bytes 2 t) = 2%nat) by apply to_le_bytes_length.
  destruct i as [|i].
  - change (drop (2 * 0) ?l) with l. rewrite take_app_length' by done. rewrite from_to_le_bytes; [lia|].
    change (256 ^ Z.of_nat 2) with (2 ^ 16). lia.
  - replace (2 * S i)%nat with (length (to_le_bytes 2 t) + 2 * i)%nat by lia. rewrite drop_app_add. apply IH. lia.
Qed.

(** The data set fits the model: it has the tokens that were asked for, two bytes each, and
    every one is in the vocabulary. *)
Theorem dataset_in_vocabulary vocab sequence_length sequences seed bytes :
  0 <= vocab <= u16_max → u32 sequence_length → 0 <= sequences < 2 ^ 31 →
  write_token_dataset vocab sequence_length sequences seed = Ok bytes →
  Z.of_nat (length bytes) = 2 * (sequence_length * (sequences + 1)) ∧
  ∀ i, (2 * i < length bytes)%nat → 0 <= from_le_bytes (take 2 (drop (2 * i) bytes)) < vocab.
Proof.
  intros Hv [Hl0 Hl] Hs. unfold write_token_dataset. intros ([] & Hz%res_throw_if_Ok & [= <-])%res_bind_Ok.
  apply Z.eqb_neq in Hz. unfold as_u64, u32_max, u16_max in *.
  rewrite (Z.mod_small (sequences + 1)) by lia. rewrite Z.mod_small by nia.
  set (total := Z.to_nat _). pose proof (token_bytes_length total vocab (Z.lor seed 1)) as Hlen.
  split; [rewrite Hlen; unfold total; nia|]. intros i Hi. apply token_bytes_read; lia.
Qed.

Lemma dataset_in_vocabulary_witness :
  match write_token_dataset 50 4 2 7 with
  | Ok bytes => Z.of_nat (length bytes) = 24 ∧ 0 <= from_le_bytes (take 2 (drop 6 bytes)) < 50
  | _ => False
  end.
Proof.
  assert (Hv : 0 <= 50 <= u16_max) by (split; vm_compute; congruence).
  assert (Hl : u32 4) by (split; vm_compute; congruence).
  destruct (write_token_dataset 50 4 2 7) as [bytes| |] eqn:Hw; [|vm_compute in Hw; discriminate Hw..].
  destruct (dataset_in_vocabulary 50 4 2 7 bytes Hv Hl ltac:(lia) Hw) as [Hlen Hall]. split; [exact Hlen|].
  apply (Hall 3%nat). lia.
Defined.
