(* ===== verification/Daemon.v ===== *)
(** * The verifier's daemon

    solana-tooling/src/daemon.rs: a pass over the dumps of a run, which judges those it is
    assigned and submits a verdict or a slash for each committer it convicts; and
    bin/verifier_daemon.rs: the engine prepared for each pass, and the loop of passes that
    share what was settled.

    What a pass reads from the chain and from the disk is its world: the run, the
    coordinator's account, the directories, and the answer to each transaction.  The engine
    has a state.  Base58 is a library's, a parameter.  A pass that fails keeps what it had
    settled and submitted before. *)

From stdpp Require Import base tactics list numbers gmap strings.
From S2P Require Import Prelude CoreTypes Hashing Float32 CoordinatorState Coordinator.
From S2P Require Import DataSelection Treasurer Verifier DumpNames AuditTool.

Open Scope Z_scope.

Record AuditConfig := mkAuditConfig {
  submitted_dir : string;
  reference_dir : option string;
  ac_band : f32;
  audit_assigned : bool;
  dry_run : bool;
  verdict_mode : bool;
  replay_step : option Z;
}.

(** The transactions: [process_treasurer_run_submit_audit_verdict] and
    [process_treasurer_run_slash_with_hashes]. *)
Inductive Action :=
| SubmitAuditVerdict (target : list Z) (evidence : Evidence)
| SlashWithHashes (evidence : Evidence).

Record Submission := mkSubmission { su_committer : string; su_action : Action; su_accepted : bool }.

(** [w_prepared] is the coordinator as read when the engine is prepared, [w_coordinator] as
    read by the pass. *)
Record World := mkWorld {
  w_prepared : option Coordinator;
  w_tie_breakers : option Z;
  w_coordinator : option Coordinator;
  w_read_dir : string → option (list DumpFile);
  w_accepts : list Submission → Action → bool;
}.

Inductive DaemonError :=
| RunNotFound
| AccountNotFound
| NothingToAuditAgainst
| ToolFailed (error : ToolError).

Record Pass (ES : Type) := mkPass {
  judged : gset string;
  engine : ES;
  submissions : list Submission;
  new_convictions : Z;
}.
Arguments mkPass {ES} _ _ _ _.
Arguments judged {ES} _.
Arguments engine {ES} _.
Arguments submissions {ES} _.
Arguments new_convictions {ES} _.

Section Pass.
Context {H : HashFns} {ES : Type}.
Implicit Types (p : Pass ES).
Definition settle (key : string) p : Pass ES := mkPass ({[key]} ∪ judged p) (engine p) (submissions p) (new_convictions p).
Definition set_engine (e : ES) p : Pass ES := mkPass (judged p) e (submissions p) (new_convictions p).
Definition count_conviction p : Pass ES := mkPass (judged p) (engine p) (submissions p) (new_convictions p + 1).
Definition record_submission (s : Submission) p : Pass ES :=
  mkPass (judged p) (engine p) (submissions p ++ [s]) (new_convictions p).

Notation DM := (M DaemonError (Pass ES)).
Definition tool {A} (r : res ToolError A) : res DaemonError A := map_err ToolFailed r.

Context (bs58 : list Z → string).

(** The audits of the round, by committer and bounds. *)
Fixpoint assigned_bounds (audits : list AuditAssignment) : res DaemonError (list (string * Z * Z)) :=
  match audits with
  | [] => Ok []
  | a :: audits' =>
      bounds ← parse_batch_bounds (show_batch (au_batch_id a));
      rest ← assigned_bounds audits';
      Ok (match bounds with
          | Some (start, end_) => (bs58 (signer (au_target a)), start, end_) :: rest
          | None => rest
          end)
  end.
Definition assigned_set (c : Coordinator) (tie_breaker_committee_size : Z) : res DaemonError (list (string * Z * Z)) :=
  match select_audits_for_current_round c tie_breaker_committee_size with
  | Ok audits => assigned_bounds audits
  | Err _ => Ok []
  | Panic => Panic
  end.

Definition roster_index (c : Coordinator) (committer : string) : option nat :=
  fst <$> list_find (λ cl, bs58 (signer (id cl)) = committer) (clients (epoch_state c)).

Context (cfg : AuditConfig) (w : World) (c : Coordinator) (assigned : option (list (string * Z * Z))).
Context (reference : option (list (string * DumpFile))) (replay : option (ES → Z → ES * (ReplayError + list Z))).

(** The reference to judge against, if there is one. *)
Definition reference_delta (key : string) (index : option nat) : DM (option (list Z)) :=
  match reference, replay with
  | Some reference, _ =>
      match key_lookup key reference with
      | None => mret None
      | Some reference_path => delta ← lift (tool (decompress_dump reference_path)); mret (Some delta)
      end
  | None, Some replay =>
      at_step ← match replay_step cfg with
                | Some step => key_step ← lift (parse_assignment_key key); mret (bool_decide (fst <$> key_step = Some step))
                | None => mret true
                end;
      if at_step : bool then
        match index with
        | None => mret None
        | Some i =>
            p ← self;
            let '(e, replayed) := replay (engine p) (Z.of_nat i) in
            modify (set_engine e) ;;
            mret (match replayed with inr delta => Some delta | inl _ => None end)
        end
      else mret None
  | None, None => lift Panic
  end.

(** From the fraud on: the conviction of the committer. *)
Definition convict (key committer : string) (index : option nat) (evidence_at : Z → Evidence) : DM unit :=
  p ← self;
  if bool_decide (committer ∈ judged p) then mret tt
  else
    match index with
    | None => mret tt
    | Some i =>
        if dry_run cfg then modify count_conviction
        else
          action ← (if verdict_mode cfg then
                      cl ← lift (unwrap (clients (epoch_state c) !! i));
                      mret (SubmitAuditVerdict (signer (id cl)) (evidence_at (Z.of_nat i)))
                    else mret (SlashWithHashes (evidence_at (Z.of_nat i))));
          p ← self;
          let accepted := w_accepts w (submissions p) action in
          modify (record_submission (mkSubmission committer action accepted)) ;;
          whenM accepted (modify (settle committer) ;; modify (settle key) ;; modify count_conviction)
    end.

(** One turn of the loop. *)
Definition audit_entry (entry : string * DumpFile) : DM unit :=
  let '(key, submitted_path) := entry in
  match parse_committer (df_path submitted_path) with
  | None => mret tt
  | Some committer =>
      p ← self;
      if bool_decide (key ∈ judged p) then mret tt
      else
        bounds ← lift (parse_batch_bounds key);
        let '(batch_start, batch_end) := default (0, 0) bounds in
        if match assigned with
           | Some assigned => negb (bool_decide ((committer, batch_start, batch_end) ∈ assigned))
           | None => false
           end
        then mret tt
        else
          let index := roster_index c committer in
          reference ← reference_delta key index;
          match reference with
          | None => mret tt
          | Some reference_delta =>
              submitted_delta ← lift (tool (decompress_dump submitted_path));
              verdict ← lift (tool (from_verifier (verify_within_band submitted_delta reference_delta (ac_band cfg))));
              if negb (fraud verdict) then modify (settle key)
              else
                convict key committer index (λ i,
                  mkEvidence (hash_delta submitted_delta) (hash_delta reference_delta) i batch_start batch_end)
          end
  end.
End Pass.

(** [audit_pass]: the number of new convictions. *)
Definition audit_pass {H : HashFns} {ES} (bs58 : list Z → string) (cfg : AuditConfig) (w : World)
    (replay : option (ES → Z → ES * (ReplayError + list Z))) : M DaemonError (Pass ES) Z :=
  tie_breaker_committee_size ← lift (ok_or (w_tie_breakers w) RunNotFound);
  c ← lift (ok_or (w_coordinator w) AccountNotFound);
  assigned ← (if audit_assigned cfg then
                s ← lift (assigned_set bs58 c tie_breaker_committee_size); mret (Some s)
              else mret None);
  submitted ← lift (tool (index_dir (w_read_dir w (submitted_dir cfg))));
  reference ← match reference_dir cfg with
              | Some dir => r ← lift (tool (index_dir (w_read_dir w dir))); mret (Some r)
              | None => mret None
              end;
  throw_if (match reference, replay with None, None => true | _, _ => false end) NothingToAuditAgainst ;;
  before ← gets new_convictions;
  forM_ submitted (audit_entry bs58 cfg w c assigned reference replay) ;;
  after ← gets new_convictions;
  mret (after - before).

(** ** The daemon *)

Section Daemon.
Context {H : HashFns} {T D R : Type}.
Context (train : T → ReplayAssignment D → string + (T * option R)) (decompress_results : R → string + list Z).
Context (bs58 : list Z → string) (get_samples : BatchId → option (list D)).

Record Replayer := mkReplayer { rp_trainer : option T; rp_step : Z }.

Inductive LoopError :=
| CannotPrepare
| TrainerLost
| PassFailed (error : DaemonError).

(** The assignments of [Replayer::engine]. *)
Fixpoint replay_assignments (step : Z) (c : Coordinator) (index : list (string * DumpFile)) :
    res LoopError (list (ReplayAssignment D)) :=
  match index with
  | [] => Ok []
  | (key, path) :: index' =>
      parsed ← parse_assignment_key key;
      match parsed with
      | None => replay_assignments step c index'
      | Some (at_step, batch_id) =>
          if negb (at_step =? step) then replay_assignments step c index'
          else
            match parse_committer (df_path path) with
            | None => replay_assignments step c index'
            | Some committer =>
                match roster_index bs58 c committer with
                | None => replay_assignments step c index'
                | Some i =>
                    data ← ok_or (get_samples batch_id) CannotPrepare;
                    rest ← replay_assignments step c index';
                    Ok (mkReplayAssignment (Z.of_nat i) at_step batch_id data :: rest)
                end
            end
      end
  end.

(** [Replayer::engine] takes the trainer, [reclaim] puts it back. *)
Definition replayer_engine (rp : Replayer) (cfg : AuditConfig) (w : World) :
    res LoopError (TrainerReplayEngine T D) :=
  c ← ok_or (w_prepared w) CannotPrepare;
  index ← map_err (λ _, CannotPrepare) (index_dir (w_read_dir w (submitted_dir cfg)));
  l ← replay_assignments (rp_step rp) c index;
  trainer ← ok_or (rp_trainer rp) TrainerLost;
  Ok (engine_new trainer l).
Definition reclaim (rp : Replayer) (e : TrainerReplayEngine T D) : Replayer := mkReplayer (into_trainer e) (rp_step rp).

Record Daemon := mkDaemon {
  dm_replayer : option Replayer;
  dm_judged : gset string;
  dm_submissions : list Submission;
}.

Definition no_engine : TrainerReplayEngine T D := mkEngine None ∅.

(** One turn of the loop in [main]: [w] is what this pass finds.  An error is printed and
    the loop goes on. *)
Definition daemon_turn (cfg : AuditConfig) (w : World) (d : Daemon) : res LoopError Z * Daemon :=
  let run replay e :=
    let '(r, p) := audit_pass bs58 cfg w replay (mkPass (dm_judged d) e (dm_submissions d) 0) in
    (map_err PassFailed r, p) in
  match dm_replayer d with
  | Some rp =>
      match replayer_engine rp cfg w with
      | Ok e =>
          let '(r, p) := run (Some (engine_replay train decompress_results)) e in
          (r, mkDaemon (Some (reclaim rp (engine p))) (judged p) (submissions p))
      | Err err => (Err err, d)
      | Panic => (Panic, d)
      end
  | None =>
      let '(r, p) := run None no_engine in
      (r, mkDaemon None (judged p) (submissions p))
  end.

(** The loop over what successive passes find; a panic ends the process. *)
Fixpoint daemon_loop (once : bool) (cfg : AuditConfig) (worlds : list World) (d : Daemon) : Daemon :=
  match worlds with
  | [] => d
  | w :: worlds' =>
      match daemon_turn cfg w d with
      | (Ok _, d') => if once then d' else daemon_loop once cfg worlds' d'
      | (Err _, d') => daemon_loop once cfg worlds' d'
      | (Panic, d') => d'
      end
  end.
Definition daemon_new (replayer : option Replayer) : Daemon := mkDaemon replayer ∅ [].
End Daemon.
