(* ===== verification/DaemonThms.v ===== *)
(** * What the daemon does to the nodes

    Every transaction a pass submits is backed: a dump of the committer in the directory,
    judged above the band against its reference, at the committer's place in the roster and,
    when only assignments are audited, for an assigned batch.  Nobody is convicted twice in a
    session, and a pass that completes convicts every fraud it could judge.  What the pass
    does not reach is exhibited: dumps after one of the wrong length, batches of one
    sequence, everything once a replay has failed. *)

From stdpp Require Import base tactics list numbers gmap strings.
From Stdlib Require Import SpecFloat Ascii.
From S2P Require Import Prelude CoreTypes Hashing Float32 CoordinatorState Coordinator.
From S2P Require Import DataSelection Treasurer Verifier VerifierThms DumpNames AuditTool AuditToolThms Daemon.

Open Scope Z_scope.

(** A fraud made of numbers is not its replay. *)
Lemma fraud_differs s b v : verify_within_band s s b = Ok v → fraud v = true → all_finite s → ¬ zlen s < 2 ^ 53 - 1.
Proof.
  intros Hv Hf Hfin Hsmall. apply verify_inv in Hv as Hi. destruct Hi as (Hb & Hb0 & _).
  rewrite honest_is_not_convicted in Hv by done. by injection Hv as <-.
Qed.

(** ** What a method does whatever it returns *)

Definition always {E S A} (R : relation S) (m : M E S A) : Prop := ∀ s, R s (m s).2.

Section Always.
Context {E S : Type} (R : relation S) `{!PreOrder R}.

Lemma always_bind {A B} (m : M E S A) (f : A → M E S B) :
  always R m → (∀ a, always R (f a)) → always R (m ≫= f).
Proof.
  intros Hm Hf s. specialize (Hm s). unfold mbind, M_bind. destruct (m s) as [[a|e|] s1]; [|done..].
  etrans; [done|apply Hf].
Qed.
Lemma always_ret {A} (a : A) : always (E := E) R (mret a).
Proof. by intros s. Qed.
Lemma always_lift {A} (r : res E A) : always R (lift r).
Proof. by intros s. Qed.
Lemma always_forM {A} (l : list A) (f : A → M E S unit) : (∀ x, x ∈ l → always R (f x)) → always R (forM_ l f).
Proof.
  induction l as [|x l IH]; intros Hf; cbn [forM_]; [apply always_ret|].
  apply always_bind; [apply Hf; by left|intros _]. apply IH. intros y Hy. apply Hf. by right.
Qed.
End Always.

(** ** The pass *)

Section Pass.
Context {H : HashFns} {ES : Type} (bs58 : list Z → string).
Context (cfg : AuditConfig) (w : World) (c : Coordinator) (assigned : option (list (string * Z * Z))).
Context (reference : option (list (string * DumpFile))) (replay : option (ES → Z → ES * (ReplayError + list Z))).
Context (index : list (string * DumpFile)).

(** What a dump with this key is judged against, for the member at [i]. *)
Definition is_reference (key : string) (i : nat) (delta : list Z) : Prop :=
  match reference with
  | Some m => ∃ f, key_lookup key m = Some f ∧ df_delta f = Some delta
  | None => ∃ rp e, replay = Some rp ∧ (rp e (Z.of_nat i)).2 = inr delta ∧
      ∀ step, replay_step cfg = Some step → ∃ b, parse_assignment_key (E := DaemonError) key = Ok (Some (step, b))
  end.

(** The evidence behind a transaction. *)
Definition backed (s : Submission) : Prop :=
  ∃ key f i cl bounds submitted replayed v,
    (key, f) ∈ index ∧ parse_committer (df_path f) = Some (su_committer s) ∧
    clients (epoch_state c) !! i = Some cl ∧ bs58 (signer (id cl)) = su_committer s ∧
    parse_batch_bounds (E := DaemonError) key = Ok bounds ∧
    (∀ l, assigned = Some l → (su_committer s, (default (0, 0) bounds).1, (default (0, 0) bounds).2) ∈ l) ∧
    df_delta f = Some submitted ∧ is_reference key i replayed ∧
    verify_within_band submitted replayed (ac_band cfg) = Ok v ∧ fraud v = true ∧ dry_run cfg = false ∧
    (all_finite submitted → zlen submitted < 2 ^ 53 - 1 → submitted ≠ replayed) ∧
    let evidence := mkEvidence (hash_delta submitted) (hash_delta replayed) (Z.of_nat i)
                      (default (0, 0) bounds).1 (default (0, 0) bounds).2 in
    su_action s = if verdict_mode cfg then SubmitAuditVerdict (signer (id cl)) evidence else SlashWithHashes evidence.

(** The committers convicted by a list of transactions. *)
Definition convicted (l : list Submission) : list string := su_committer <$> List.filter su_accepted l.

(** What the pass adds. *)
Definition extends (p p' : Pass ES) : Prop :=
  judged p ⊆ judged p' ∧
  ∃ new, submissions p' = submissions p ++ new ∧ Forall backed new ∧ NoDup (convicted new) ∧
    (∀ s, s ∈ convicted new → s ∉ judged p ∧ s ∈ judged p').

Lemma convicted_app l l' : convicted (l ++ l') = convicted l ++ convicted l'.
Proof. unfold convicted. by rewrite List.filter_app, fmap_app. Qed.

#[export] Instance extends_preorder : PreOrder extends.
Proof.
  split.
  - intros p. split; [done|]. exists []. rewrite app_nil_r. split_and!; [done|done|constructor|]. intros s. by intros ?%not_elem_of_nil.
  - intros p1 p2 p3 [Hj1 (n1 & Hs1 & Hb1 & Hd1 & Hc1)] [Hj2 (n2 & Hs2 & Hb2 & Hd2 & Hc2)].
    split; [by etrans|]. exists (n1 ++ n2). rewrite Hs2, Hs1, convicted_app, app_assoc.
    split_and!; [done|by apply list.Forall_app| |].
    + apply NoDup_app. split_and!; [done| |done]. intros s H1 H2. destruct (Hc1 s H1) as [_ Hin].
      by destruct (Hc2 s H2) as [? _].
    + intros s [H1|H2]%elem_of_app.
      * destruct (Hc1 s H1) as [? ?]. split; [done|]. by apply Hj2.
      * destruct (Hc2 s H2) as [Hno ?]. split; [|done]. intros Hin. by apply Hno, Hj1.
Qed.

(** Steps that submit nothing. *)
Lemma extends_quiet p p' : judged p ⊆ judged p' → submissions p' = submissions p → extends p p'.
Proof.
  intros Hj Hs. split; [done|]. exists []. rewrite Hs, app_nil_r. split_and!; [done..|constructor|].
  intros s. by intros ?%not_elem_of_nil.
Qed.

Lemma reference_quiet key i : always extends (reference_delta (ES := ES) cfg reference replay key i).
Proof.
  unfold reference_delta. destruct reference as [m|].
  - destruct (key_lookup key m) as [f|]; [|apply always_ret; apply _].
    apply always_bind; [apply _|apply always_lift; apply _|intros; apply always_ret; apply _].
  - destruct replay as [rp|]; [|apply always_lift; apply _]. apply always_bind; [apply _| |].
    { destruct (replay_step cfg); [|apply always_ret; apply _].
      apply always_bind; [apply _|apply always_lift; apply _|intros; apply always_ret; apply _]. }
    intros []; [|apply always_ret; apply _]. destruct i as [i|]; [|apply always_ret; apply _].
    intros p. rewrite bind_self. destruct (rp (engine p) (Z.of_nat i)) as [e r]. by apply extends_quiet.
Qed.

(** What the reference is, when there is one. *)
Lemma reference_sound key i p p' delta :
  reference_delta (ES := ES) cfg reference replay key (Some i) p = (Ok (Some delta), p') → is_reference key i delta.
Proof.
  unfold reference_delta, is_reference. destruct reference as [m|].
  - destruct (key_lookup key m) as [f|]; [|done]. intros Hrun. run_inv. exists f. split; [done|].
    unfold tool, decompress_dump in *. run_inv. congruence.
  - destruct replay as [rp|]; [|done]. intros (at_step & p1 & Hstep & Hrun)%M_bind_Ok.
    destruct at_step; [|by run_inv]. rewrite bind_self in Hrun.
    destruct (rp (engine p1) (Z.of_nat i)) as [e r] eqn:Hr. rewrite bind_modify in Hrun. apply mret_Ok in Hrun as [Hd _].
    destruct r as [|d]; [done|]. injection Hd as ->. exists rp, (engine p1). rewrite Hr. split_and!; [done..|].
    intros st Hst. rewrite Hst in Hstep. apply M_bind_Ok in Hstep as (parsed & p2 & [Hp ->]%lift_Ok & [Hb _]%mret_Ok).
    symmetry in Hb. apply bool_decide_eq_true in Hb. destruct parsed as [[at_ b]|]; [|done]. injection Hb as ->. by exists b.
Qed.

Definition action_at (i : nat) (cl : Client) (evidence_at : Z → Evidence) : Action :=
  if verdict_mode cfg then SubmitAuditVerdict (signer (id cl)) (evidence_at (Z.of_nat i))
  else SlashWithHashes (evidence_at (Z.of_nat i)).

(** One transaction, and the committer is settled when it is accepted. *)
Lemma submission_extends key committer (action : Action) p :
  (∀ accepted, backed (mkSubmission committer action accepted)) → committer ∉ judged p →
  let accepted := w_accepts w (submissions p) action in
  let p1 := record_submission (mkSubmission committer action accepted) p in
  extends p (whenM (E := DaemonError) accepted
    (modify (settle committer) ;; modify (settle key) ;; modify count_conviction) p1).2.
Proof.
  intros Hb Hno accepted p1. unfold whenM. destruct accepted eqn:Hacc; cbn.
  - split; [set_solver|]. eexists [_]. split_and!; [done|by constructor|apply NoDup_singleton|].
    intros s ->%list_elem_of_singleton. split; [done|set_solver].
  - split; [done|]. eexists [_]. split_and!; [done|by constructor|constructor|]. by intros s ?%not_elem_of_nil.
Qed.

Lemma convict_extends key committer oi evidence_at :
  (∀ i, oi = Some i → ∃ cl, clients (epoch_state c) !! i = Some cl ∧
     (dry_run cfg = false → ∀ accepted, backed (mkSubmission committer (action_at i cl evidence_at) accepted))) →
  always extends (convict (ES := ES) cfg w c key committer oi evidence_at).
Proof.
  intros Hb p. unfold convict. rewrite bind_self. case_bool_decide as Hno; [done|].
  destruct oi as [i|]; [|done]. destruct (Hb i eq_refl) as (cl & Hcl & Hback).
  destruct (dry_run cfg); [by apply extends_quiet|]. specialize (Hback eq_refl). unfold action_at in Hback.
  destruct (verdict_mode cfg).
  - rewrite Hcl. unfold unwrap. cbn [mbind M_bind lift]. by apply submission_extends.
  - by apply submission_extends.
Qed.

Lemma roster_sound committer i : roster_index bs58 c committer = Some i →
  ∃ cl, clients (epoch_state c) !! i = Some cl ∧ bs58 (signer (id cl)) = committer.
Proof.
  unfold roster_index. destruct (list_find _ _) as [[j cl]|] eqn:Hf; [|done]. intros [= <-].
  apply list_find_Some in Hf as (Hcl & He & _). by exists cl.
Qed.

Lemma entry_extends e : e ∈ index →
  always extends (audit_entry (ES := ES) bs58 cfg w c assigned reference replay e).
Proof.
  destruct e as [key f]. intros Hin p. unfold audit_entry.
  destruct (parse_committer (df_path f)) as [committer|] eqn:Hcom; [|done]. rewrite bind_self.
  case_bool_decide as Hkey; [done|]. unfold mbind at 1, M_bind, lift.
  destruct (parse_batch_bounds key) as [bounds|err|] eqn:Hbounds; [|done..].
  destruct (default (0, 0) bounds) as [bs be] eqn:Hdef. destruct (match assigned with Some _ => _ | None => _ end) eqn:Has; [done|].
  pose proof (reference_quiet key (roster_index bs58 c committer) p) as Hq.
  unfold mbind at 1, M_bind. destruct (reference_delta _ _ _ _ _ p) as [[[rd|]|err|] p1] eqn:Href; [|exact Hq..].
  cbn [snd] in Hq. etrans; [exact Hq|]. unfold decompress_dump.
  destruct (df_delta f) as [sd|] eqn:Hsd; [|done]. unfold tool, mbind, M_bind, lift. cbn [ok_or map_err].
  destruct (verify_within_band sd rd (ac_band cfg)) as [v|err|] eqn:Hv; [|done..]. cbn [from_verifier map_err].
  destruct (fraud v) eqn:Hf; cbn [negb]; [|apply extends_quiet; [cbn; set_solver|done]].
  apply convict_extends. intros i Hi. destruct (roster_sound _ _ Hi) as (cl & Hcl & Hbs). exists cl. split; [done|].
  intros Hdry accepted. rewrite Hi in Href. exists key, f, i, cl, bounds, sd, rd, v. rewrite Hdef. cbn [fst snd su_committer su_action].
  split_and!; try done; [|by eapply reference_sound|].
  - intros l Hl. rewrite Hl in Has. by apply negb_false_iff, bool_decide_eq_true in Has.
  - intros Hfin Hsmall <-. by apply (fraud_differs _ _ _ Hv Hf).
Qed.
End Pass.

(** What a pass reads of its world. *)
Definition pass_reads {H : HashFns} (bs58 : list Z → string) (cfg : AuditConfig) (w : World) (c : Coordinator)
    (assigned : option (list (string * Z * Z))) (index : list (string * DumpFile))
    (reference : option (list (string * DumpFile))) : Prop :=
  w_coordinator w = Some c ∧ index_dir (w_read_dir w (submitted_dir cfg)) = Ok index ∧
  (if audit_assigned cfg then
     ∃ n l, w_tie_breakers w = Some n ∧ assigned_set bs58 c n = Ok l ∧ assigned = Some l
   else assigned = None) ∧
  match reference_dir cfg with
  | Some dir => ∃ m, index_dir (w_read_dir w dir) = Ok m ∧ reference = Some m
  | None => reference = None
  end.

Section Passes.
Context {H : HashFns} {ES : Type} (bs58 : list Z → string) (cfg : AuditConfig).
Implicit Types (p : Pass ES).

(** Steps that only read. *)
Lemma reading {E S A B} (m : M E S A) (f : A → M E S B) s r s' :
  (m s).2 = s → (m ≫= f) s = (r, s') → (∃ a, (m s).1 = Ok a ∧ f a s = (r, s')) ∨ s' = s ∧ ∀ b, r ≠ Ok b.
Proof.
  unfold mbind, M_bind. destruct (m s) as [[a|e|] s1]; cbn; intros ->.
  - intros Hf. left. by exists a.
  - intros [= <- <-]. by right.
  - intros [= <- <-]. by right.
Qed.

Lemma reading_if {E S A B} (m : M E S A) (f : A → B) (o : M E S B) s r s' (b : bool) (k : B → M E S Z) :
  (m s).2 = s → (o s).2 = s →
  ((if b then a ← m; mret (f a) else o) ≫= k) s = (r, s') →
  (∃ x, (if b then ∃ a, (m s).1 = Ok a ∧ x = f a else (o s).1 = Ok x) ∧ k x s = (r, s')) ∨ s' = s ∧ ∀ z, r ≠ Ok z.
Proof.
  intros Hm Ho. destruct b; intros Hrun.
  - apply reading in Hrun as [(x & Hx & Hk)|?]; [left| |].
    + exists x. split; [|done]. revert Hx. unfold mbind, M_bind. destruct (m s) as [[a| |] s1]; [|done..]. intros [= <-]. by exists a.
    + by right.
    + unfold mbind, M_bind. by destruct (m s) as [[a| |] s1].
  - apply reading in Hrun as [(x & Hx & Hk)|?]; [left| |done]; [by exists x|by right].
Qed.

(** A pass fails on what it reads, or is its loop. *)
Lemma audit_pass_loop w replay p r p' : audit_pass bs58 cfg w replay p = (r, p') →
  p' = p ∧ (∀ n, r ≠ Ok n) ∨
  ∃ c assigned index reference, pass_reads bs58 cfg w c assigned index reference ∧
    (reference = None → is_Some replay) ∧
    let run := forM_ index (audit_entry bs58 cfg w c assigned reference replay) p in
    p' = run.2 ∧ (∀ n, r = Ok n → run.1 = Ok tt ∧ n = new_convictions p' - new_convictions p).
Proof.
  unfold audit_pass. intros Hrun. apply reading in Hrun as [(n & Hn & Hrun)|?]; [|by left|done].
  apply ok_or_Ok in Hn. apply reading in Hrun as [(c & Hc & Hrun)|?]; [|by left|done]. apply ok_or_Ok in Hc.
  apply (reading_if _ Some) in Hrun as [(assigned & Has & Hrun)|?]; [|by left|done..].
  apply reading in Hrun as [(index & Hidx & Hrun)|?]; [|by left|done]. apply map_err_Ok in Hidx.
  assert (Href : ∃ reference, match reference_dir cfg with
      Some dir => ∃ m, index_dir (w_read_dir w dir) = Ok m ∧ reference = Some m | None => reference = None end ∧
      (throw_if (match reference, replay with None, None => true | _, _ => false end) NothingToAuditAgainst ;;
       before ← gets new_convictions;
       forM_ index (audit_entry bs58 cfg w c assigned reference replay) ;;
       after ← gets new_convictions; mret (after - before)) p = (r, p') ∨ p' = p ∧ ∀ z, r ≠ Ok z).
  { destruct (reference_dir cfg) as [dir|].
    - apply (reading_if _ Some (mret None) _ _ _ true) in Hrun as [(x & (m & Hm & ->) & Hk)|?]; [| |done..]; [|by exists None; right].
      exists (Some m). left. split; [|exact Hk]. apply map_err_Ok in Hm. by exists m.
    - rewrite bind_ret in Hrun. exists None. by left. }
  destruct Href as (reference & [[Href Hk]|?]); [|by left].
  apply reading in Hk as [([] & Hnone & Hk)|?]; [|by left|by destruct reference, replay].
  right. exists c, assigned, index, reference. split_and!.
  - split_and!; [done..| |done]. destruct (audit_assigned cfg); [|by injection Has].
    destruct Has as (l & Hl & ->). by exists n, l.
  - intros ->. by destruct replay.
  - rewrite bind_gets in Hk. revert Hk. unfold mbind, M_bind.
    destruct (forM_ _ _ p) as [[[]| |] p1]; cbn; by intros [= <- <-].
  - intros k ->. rewrite bind_gets in Hk. revert Hk. unfold mbind, M_bind.
    destruct (forM_ _ _ p) as [[[]| |] p1]; cbn; [|done..]. by intros [= <- <-].
Qed.

(** C10: Every transaction of a pass is backed by a fraud, whatever the pass returns. *)
Theorem submissions_are_backed w replay p :
  let p' := (audit_pass bs58 cfg w replay p).2 in
  p' = p ∨ ∃ c assigned index reference, pass_reads bs58 cfg w c assigned index reference ∧
    extends bs58 cfg c assigned reference replay index p p'.
Proof.
  destruct (audit_pass bs58 cfg w replay p) as [r p'] eqn:Hpass. cbn [snd].
  destruct (audit_pass_loop _ _ _ _ _ Hpass) as [[Hp _]|(c & assigned & index & reference & Hreads & _ & Hrun & _)]; [by left|right].
  exists c, assigned, index, reference. split; [done|]. rewrite Hrun.
  apply (always_forM (extends bs58 cfg c assigned reference replay index)). intros e He. by apply entry_extends.
Qed.
End Passes.

(** ** A session *)

Section Session.
Context {H : HashFns} {T D R : Type}.
Context (train : T → ReplayAssignment D → string + (T * option R)) (decompress_results : R → string + list Z).
Context (bs58 : list Z → string) (get_samples : BatchId → option (list D)).

(** Everybody convicted is settled, once. *)
Definition settled_once {T} (d : Daemon (T := T)) : Prop :=
  NoDup (convicted (dm_submissions d)) ∧ ∀ s, s ∈ convicted (dm_submissions d) → s ∈ dm_judged d.

Lemma pass_settles {ES} cfg w replay (p : Pass ES) :
  NoDup (convicted (submissions p)) → (∀ s, s ∈ convicted (submissions p) → s ∈ judged p) →
  let p' := (audit_pass bs58 cfg w replay p).2 in
  NoDup (convicted (submissions p')) ∧ ∀ s, s ∈ convicted (submissions p') → s ∈ judged p'.
Proof.
  intros Hd Hj p'. destruct (audit_pass bs58 cfg w replay p) as [r p1] eqn:Hpass. subst p'. cbn [snd].
  destruct (audit_pass_loop _ _ _ _ _ _ _ Hpass) as [[-> _]|(c & assigned & index & reference & _ & _ & -> & _)]; [done|].
  destruct (always_forM (extends bs58 cfg c assigned reference replay index) index
    (audit_entry bs58 cfg w c assigned reference replay)) with (s := p) as [Hsub (new & -> & _ & Hnew & Hc)].
  { intros e He. by apply entry_extends. }
  rewrite convicted_app. split.
  - apply NoDup_app. split_and!; [done| |done]. intros s H1 H2. destruct (Hc s H2) as [Hno _]. by apply Hno, Hj.
  - intros s [H1|H2]%elem_of_app; [by apply Hsub, Hj|by apply Hc].
Qed.

Lemma turn_settles cfg w d : settled_once d →
  settled_once (daemon_turn train decompress_results bs58 get_samples cfg w d).2.
Proof.
  intros [Hd Hj]. unfold daemon_turn. destruct (dm_replayer d) as [rp|].
  - destruct (replayer_engine _ _ rp cfg w) as [e| |]; [|done..].
    pose proof (pass_settles cfg w (Some (engine_replay train decompress_results))
      (mkPass (dm_judged d) e (dm_submissions d) 0) Hd Hj) as Hp.
    by destruct (audit_pass _ _ _ _ _) as [r p].
  - pose proof (pass_settles cfg w None (mkPass (dm_judged d) (no_engine (T := T) (D := D)) (dm_submissions d) 0) Hd Hj) as Hp.
    by destruct (audit_pass _ _ _ _ _) as [r p].
Qed.

(** C27: Nobody is convicted twice: over a whole session, whatever the passes find and however
    they end, the accepted transactions name each committer at most once. *)
Theorem nobody_convicted_twice once cfg worlds replayer :
  NoDup (convicted (dm_submissions
    (daemon_loop train decompress_results bs58 get_samples once cfg worlds (daemon_new replayer)))).
Proof.
  assert (Hinit : settled_once (daemon_new replayer)).
  { split; [constructor|]. by intros s ?%not_elem_of_nil. }
  revert Hinit. generalize (daemon_new replayer) as d. induction worlds as [|w worlds IH]; intros d Hd; [apply Hd|].
  cbn [daemon_loop]. pose proof (turn_settles cfg w d Hd) as Ht.
  destruct (daemon_turn _ _ _ _ cfg w d) as [[n|e|] d']; [|by apply IH|apply Ht].
  destruct once; [apply Ht|by apply IH].
Qed.
End Session.

(** ** Every fraud is convicted *)

Section Complete.
Context {H : HashFns} {ES : Type} (bs58 : list Z → string) (Hbs58 : ∀ s, has "-"%char (bs58 s) = false).
Context (cfg : AuditConfig) (w : World) (c : Coordinator) (assigned : option (list (string * Z * Z))).
Context (m : list (string * DumpFile)) (replay : option (ES → Z → ES * (ReplayError + list Z))).
Notation entry := (audit_entry (ES := ES) bs58 cfg w c assigned (Some m) replay).
Implicit Types (p : Pass ES).

(** A key is settled by its own entry only: the other strings that are settled are
    addresses. *)
Definition unsettled (key : string) p p' : Prop := key ∈ judged p' → key ∈ judged p.
#[local] Instance unsettled_preorder key : PreOrder (unsettled key).
Proof. split; unfold unsettled; [by intros p|]. intros p1 p2 p3. auto. Qed.

Lemma entry_unsettled key k f : has "-"%char key = true → k ≠ key → always (unsettled key) (entry (k, f)).
Proof.
  intros Hdash Hne p. unfold audit_entry.
  destruct (parse_committer (df_path f)) as [committer|]; [|done]. rewrite bind_self.
  case_bool_decide; [done|]. unfold mbind at 1, M_bind, lift.
  destruct (parse_batch_bounds k) as [bounds|err|]; [|done..].
  destruct (default (0, 0) bounds) as [bs be]. destruct (match assigned with Some _ => _ | None => _ end); [done|].
  unfold reference_delta. destruct (key_lookup k m) as [g|]; [|done].
  unfold decompress_dump, tool, mbind, M_bind, lift. destruct (df_delta g) as [rd|]; [|done].
  cbn [ok_or map_err mret M_ret]. destruct (df_delta f) as [sd|]; [|done]. cbn [ok_or map_err].
  destruct (verify_within_band sd rd (ac_band cfg)) as [v|err|]; [|done..]. cbn [from_verifier map_err].
  destruct (fraud v); cbn [negb]; [|unfold unsettled; cbn; set_solver].
  unfold convict. rewrite bind_self. case_bool_decide; [done|].
  destruct (roster_index bs58 c committer) as [i|] eqn:Hi; [|done].
  destruct (roster_sound _ _ _ _ Hi) as (cl & Hcl & Hbs). destruct (dry_run cfg); [by intros ?|].
  assert (Hcom : committer ≠ key). { intros ->. rewrite <- Hbs, Hbs58 in Hdash. done. }
  destruct (verdict_mode cfg); rewrite ?Hcl; unfold unwrap, mbind, M_bind, lift, self, modify, whenM, unsettled;
    cbn [mret M_ret]; destruct (w_accepts _ _ _); cbn; set_solver.
Qed.

(** A fraud that is judged is convicted, when its transaction is accepted. *)
Lemma entry_convicts key f g committer i bounds sd rd v p p' :
  parse_committer (df_path f) = Some committer → roster_index bs58 c committer = Some i →
  parse_batch_bounds (E := DaemonError) key = Ok bounds →
  (∀ l, assigned = Some l → (committer, (default (0, 0) bounds).1, (default (0, 0) bounds).2) ∈ l) →
  key_lookup key m = Some g → df_delta f = Some sd → df_delta g = Some rd →
  verify_within_band sd rd (ac_band cfg) = Ok v → fraud v = true → dry_run cfg = false →
  (∀ l a, w_accepts w l a = true) → key ∉ judged p →
  entry (key, f) p = (Ok tt, p') → committer ∈ judged p'.
Proof.
  intros Hcom Hi Hb Has Hg Hsd Hrd Hv Hf Hdry Hacc Hkey. unfold audit_entry. rewrite Hcom, bind_self.
  rewrite bool_decide_false by done. rewrite Hb, bind_lift_Ok.
  destruct (default (0, 0) bounds) as [bs be]. cbn [fst snd] in Has.
  assert (Hskip : match assigned with Some l => negb (bool_decide ((committer, bs, be) ∈ l)) | None => false end = false).
  { destruct assigned as [l|]; [|done]. rewrite bool_decide_true; [done|by apply Has]. }
  rewrite Hskip, Hi. unfold reference_delta, decompress_dump, tool, mbind, M_bind, lift. rewrite Hg, Hrd.
  cbn [ok_or map_err mret M_ret]. rewrite Hsd. cbn [ok_or map_err]. rewrite Hv. cbn [from_verifier map_err].
  rewrite Hf. cbn [negb]. unfold convict. rewrite bind_self. case_bool_decide as Hin; [by intros [= <-]|]. rewrite Hdry.
  destruct (roster_sound _ _ _ _ Hi) as (cl & Hcl & _).
  destruct (verdict_mode cfg); rewrite ?Hcl; unfold unwrap, mbind, M_bind, lift, self, modify, whenM;
    cbn [mret M_ret]; rewrite Hacc; cbn; intros [= <-]; cbn; set_solver.
Qed.

Lemma forM_split {E S A} (l1 l2 : list A) x (body : A → M E S unit) s s' :
  forM_ (l1 ++ x :: l2) body s = (Ok tt, s') →
  ∃ s1 s2, forM_ l1 body s = (Ok tt, s1) ∧ body x s1 = (Ok tt, s2) ∧ forM_ l2 body s2 = (Ok tt, s').
Proof.
  revert s. induction l1 as [|y l1 IH]; intros s; cbn [forM_ app].
  - intros ([] & s2 & Hx & Hl)%M_bind_Ok. by exists s, s2.
  - intros ([] & s1 & Hy & Hl)%M_bind_Ok. destruct (IH s1 Hl) as (s2 & s3 & H1 & H2 & H3).
    exists s2, s3. split; [|done]. apply M_bind_Ok. by exists tt, s1.
Qed.

Lemma loop_convicts index key f g committer i bounds sd rd v p p' :
  ascending index → (key, f) ∈ index → has "-"%char key = true → key ∉ judged p →
  parse_committer (df_path f) = Some committer → roster_index bs58 c committer = Some i →
  parse_batch_bounds (E := DaemonError) key = Ok bounds →
  (∀ l, assigned = Some l → (committer, (default (0, 0) bounds).1, (default (0, 0) bounds).2) ∈ l) →
  key_lookup key m = Some g → df_delta f = Some sd → df_delta g = Some rd →
  verify_within_band sd rd (ac_band cfg) = Ok v → fraud v = true → dry_run cfg = false →
  (∀ l a, w_accepts w l a = true) →
  forM_ index entry p = (Ok tt, p') → committer ∈ judged p'.
Proof.
  intros Hasc Hin Hdash Hkey Hcom Hi Hb Has Hg Hsd Hrd Hv Hf Hdry Hacc Hrun.
  apply ascending_keys in Hasc. apply list_elem_of_split in Hin as (l1 & l2 & ->).
  destruct (forM_split _ _ _ _ _ _ Hrun) as (p1 & p2 & H1 & H2 & H3).
  assert (Hkey1 : key ∉ judged p1).
  { intros Hk. apply Hkey. assert (Hu : unsettled key p (forM_ l1 entry p).2); [|by rewrite H1 in Hu; apply Hu].
    apply (always_forM (unsettled key)). intros [k f'] Hl. apply entry_unsettled; [done|]. intros ->.
    rewrite fmap_app in Hasc. apply NoDup_app in Hasc as (_ & Hd & _). apply (Hd key); [|left].
    by apply (list_elem_of_fmap_2 fst) in Hl. }
  assert (Hjudged : committer ∈ judged p2) by (by eapply (entry_convicts key f)).
  assert (He : extends bs58 cfg c assigned (Some m) replay l2 p2 (forM_ l2 entry p2).2).
  { apply (always_forM (extends bs58 cfg c assigned (Some m) replay l2)). intros e He. by apply entry_extends. }
  rewrite H3 in He. by apply He.
Qed.
End Complete.

(** A dump that a pass against references can judge, and that is a fraud. *)
Definition convictable {H : HashFns} (bs58 : list Z → string) (cfg : AuditConfig) (w : World) (key committer : string) : Prop :=
  ∃ c files dir refs f g i bounds sd rd v,
    w_coordinator w = Some c ∧ roster_index bs58 c committer = Some i ∧
    w_read_dir w (submitted_dir cfg) = Some files ∧ last (List.filter (bears key) files) = Some f ∧
    reference_dir cfg = Some dir ∧ w_read_dir w dir = Some refs ∧ last (List.filter (bears key) refs) = Some g ∧
    parse_committer (df_path f) = Some committer ∧ parse_batch_bounds (E := DaemonError) key = Ok bounds ∧
    (audit_assigned cfg = true → ∀ n l, w_tie_breakers w = Some n → assigned_set bs58 c n = Ok l →
       (committer, (default (0, 0) bounds).1, (default (0, 0) bounds).2) ∈ l) ∧
    df_delta f = Some sd ∧ df_delta g = Some rd ∧ verify_within_band sd rd (ac_band cfg) = Ok v ∧ fraud v = true.

(** C28: A pass that completes convicts every fraud it could judge: against references, with
    every transaction accepted and the key not settled before, the committer of a
    convictable dump is settled when the pass returns. *)
Theorem frauds_are_convicted {H : HashFns} {ES} bs58 cfg w (replay : option (ES → Z → ES * (ReplayError + list Z))) p n p'
    key committer :
  (∀ s, has "-"%char (bs58 s) = false) → has "-"%char key = true →
  audit_pass bs58 cfg w replay p = (Ok n, p') →
  convictable bs58 cfg w key committer → key ∉ judged p →
  dry_run cfg = false → (∀ l a, w_accepts w l a = true) →
  committer ∈ judged p'.
Proof.
  intros Hbs58 Hdash Hpass (c & files & dir & refs & f & g & i & bounds & sd & rd & v & Hc & Hi & Hfiles & Hf & Hdir & Hrefs
    & Hg & Hcom & Hb & Has & Hsd & Hrd & Hv & Hfr) Hkey Hdry Hacc.
  destruct (audit_pass_loop _ _ _ _ _ _ _ Hpass) as [[_ Hno]|(c' & assigned & index & reference & Hreads & _ & Hrun & Hok)].
  { by destruct (Hno n). }
  destruct Hreads as (Hc' & Hidx & Hassigned & Href). assert (c' = c) as -> by congruence.
  rewrite Hfiles in Hidx. destruct (index_dir_keeps_last files) as (index' & Hidx' & Hasc & Hmem).
  assert (index' = index) as -> by congruence.
  rewrite Hdir in Href. destruct Href as (m & Hm & ->). rewrite Hrefs in Hm.
  destruct (index_dir_keeps_last refs) as (m' & Hm' & Hmasc & Hmmem). assert (m' = m) as -> by congruence.
  destruct (Hok n eq_refl) as [Hloop _].
  eapply (loop_convicts bs58 Hbs58 cfg w c assigned m replay index key f g); try done.
  - by apply Hmem.
  - intros l ->. destruct (audit_assigned cfg); [|done]. destruct Hassigned as (nt & l' & Hnt & Hl' & [= <-]).
    by apply (Has eq_refl nt).
  - by apply key_lookup_in, Hmmem.
  - rewrite Hrun. by destruct (forM_ _ _ p) as [r q]; cbn in *; subst.
Qed.

(** ** A pass on a small directory *)
Module Sample.
Import CoordinatorThms.Sample.
Definition base58 (s : list Z) : string := if bool_decide (s = replicate 32 1) then "9xQeWvG8" else "4uQeVj5t".
Definition coordinator : Coordinator := on_epoch (set_clients [Client_new (node 2); Client_new (node 1)]) fresh.
Definition ones : list Z := [1065353216; 1065353216].
Definition twos : list Z := [1073741824; 1073741824].
Definition name (committer : string) : string := dump_name committer 7 (mkClosedInterval 12 15).
Definition config : AuditConfig := mkAuditConfig "submitted" (Some "reference") DEFAULT_BAND false false true None.
(** The first node's result is twice what it should be. *)
Definition world (delta : list Z) : World :=
  mkWorld None (Some 0) (Some coordinator)
    (λ dir, if String.eqb dir "submitted" then Some [mkDumpFile (name "9xQeWvG8") (Some delta)]
            else Some [mkDumpFile (name "honest") (Some ones)]) (λ _ _, true).
Definition start : Pass unit := mkPass ∅ tt [] 0.
End Sample.

Lemma frauds_are_convicted_witness :
  let p' := (@audit_pass zero_hashes _ Sample.base58 Sample.config (Sample.world Sample.twos) None Sample.start).2 in
  "9xQeWvG8" ∈ judged p' ∧ length (submissions p') = 1%nat.
Proof.
  split; [|vm_compute; reflexivity].
  apply (@frauds_are_convicted zero_hashes _ Sample.base58 Sample.config (Sample.world Sample.twos) None Sample.start 1 _
    "step7-batchB[12, 15]" "9xQeWvG8").
  - intros s. unfold Sample.base58. by case_bool_decide.
  - reflexivity.
  - apply injective_projections; [vm_compute; reflexivity|reflexivity].
  - exists Sample.coordinator, [mkDumpFile (Sample.name "9xQeWvG8") (Some Sample.twos)], "reference",
      [mkDumpFile (Sample.name "honest") (Some Sample.ones)], (mkDumpFile (Sample.name "9xQeWvG8") (Some Sample.twos)),
      (mkDumpFile (Sample.name "honest") (Some Sample.ones)), 1%nat, (Some (12, 15)), Sample.twos, Sample.ones.
    eexists. split_and!; [reflexivity|vm_compute; reflexivity|reflexivity|vm_compute; reflexivity|reflexivity|reflexivity
      |vm_compute; reflexivity|vm_compute; reflexivity|vm_compute; reflexivity|done|reflexivity|reflexivity
      |vm_compute; reflexivity|reflexivity].
  - set_solver.
  - reflexivity.
  - done.
Defined.
