(* ===== verification/DaemonLimits.v ===== *)
(** * What the daemon does not reach

    The replay prepared for a member is that of the batch its dump names, as long as the
    member has one dump of the step and the roster is the one the engine was prepared with.
    A dump of the wrong length ends every pass at itself; a batch of one sequence is never
    judged when only assignments are; a replay that fails ends the audits for good. *)

From stdpp Require Import base tactics list numbers gmap strings.
From Stdlib Require Import SpecFloat Ascii.
From S2P Require Import Prelude CoreTypes Hashing Float32 CoordinatorState Coordinator.
From S2P Require Import DataSelection Treasurer Verifier VerifierThms DumpNames AuditTool AuditToolThms Daemon DaemonThms.

Open Scope Z_scope.

(** ** Replays are of the named batch *)

Section Replays.
Context {T D R : Type} (bs58 : list Z → string) (get_samples : BatchId → option (list D)).

Lemma engine_lookup (trainer : T) (l : list (ReplayAssignment D)) i :
  assignments (engine_new trainer l) !! i = last (List.filter (λ a, bool_decide (ra_target_index a = i)) l).
Proof.
  unfold engine_new. cbn [assignments]. induction l as [|a l IH] using rev_ind; [done|].
  rewrite foldl_snoc, List.filter_app. cbn [List.filter]. case_bool_decide as Ha.
  - by rewrite <- Ha, lookup_insert_eq, last_snoc.
  - by rewrite lookup_insert_ne, app_nil_r.
Qed.

(** The dumps the engine is prepared for, with their place in the roster. *)
Definition prepared (step : Z) (c : Coordinator) (index : list (string * DumpFile)) (i : nat) (b : BatchId) : Prop :=
  ∃ key f committer, (key, f) ∈ index ∧ parse_assignment_key (E := LoopError) key = Ok (Some (step, b)) ∧
    parse_committer (df_path f) = Some committer ∧ roster_index bs58 c committer = Some i.

Lemma replay_assignments_spec step c index l : replay_assignments bs58 get_samples step c index = Ok l →
  (∀ a, a ∈ l → ∃ i, ra_target_index a = Z.of_nat i ∧ ra_step a = step ∧
     prepared step c index i (ra_batch_id a) ∧ get_samples (ra_batch_id a) = Some (ra_data a)) ∧
  (∀ i b, prepared step c index i b → ∃ a, a ∈ l ∧ ra_target_index a = Z.of_nat i).
Proof.
  revert l. induction index as [|[key f] index IH]; intros l; cbn [replay_assignments].
  { intros [= <-]. split; [by intros a ?%not_elem_of_nil|]. by intros i b (? & ? & ? & ?%not_elem_of_nil & _). }
  assert (Hskip : ∀ l, replay_assignments bs58 get_samples step c index = Ok l →
    (∀ b committer i, parse_assignment_key (E := LoopError) key = Ok (Some (step, b)) →
       parse_committer (df_path f) = Some committer → roster_index bs58 c committer ≠ Some i) →
    (∀ a, a ∈ l → ∃ i, ra_target_index a = Z.of_nat i ∧ ra_step a = step ∧
       prepared step c ((key, f) :: index) i (ra_batch_id a) ∧ get_samples (ra_batch_id a) = Some (ra_data a)) ∧
    (∀ i b, prepared step c ((key, f) :: index) i b → ∃ a, a ∈ l ∧ ra_target_index a = Z.of_nat i)).
  { intros l' Hl' Hnot. destruct (IH l' Hl') as [Hs Hc]. split.
    - intros a Ha. destruct (Hs a Ha) as (i & ? & ? & (k & g & com & Hin & ?) & ?). exists i. split_and!; [done..| |done].
      exists k, g, com. split; [by right|done].
    - intros i b (k & g & com & [[= -> ->]|Hin]%elem_of_cons & Hp & Hcom & Hi); [by destruct (Hnot b com i)|].
      apply (Hc i b). by exists k, g, com. }
  intros (parsed & Hp & Hl)%res_bind_Ok. destruct parsed as [[at_step b]|]; [|apply Hskip; [done|intros; congruence]].
  destruct (Z.eqb_spec at_step step) as [->|Hne]; cbn [negb] in Hl; [|apply Hskip; [done|intros; congruence]].
  destruct (parse_committer (df_path f)) as [com|] eqn:Hcom; [|apply Hskip; [done|intros; congruence]].
  destruct (roster_index bs58 c com) as [i|] eqn:Hi; [|apply Hskip; [done|intros; congruence]].
  apply res_bind_Ok in Hl as (data & Hdata%ok_or_Ok & Hl). apply res_bind_Ok in Hl as (rest & Hrest & [= <-]).
  destruct (IH rest Hrest) as [Hs Hc]. split.
  - intros a [->|Ha]%elem_of_cons.
    + exists i. split_and!; [done..| |done]. exists key, f, com. split; [by left|done].
    + destruct (Hs a Ha) as (j & ? & ? & (k & g & com' & Hin & ?) & ?). exists j. split_and!; [done..| |done].
      exists k, g, com'. split; [by right|done].
  - intros j b' (k & g & com' & [[= -> ->]|Hin]%elem_of_cons & Hp' & Hcom' & Hi').
    + eexists. split; [by left|]. cbn. congruence.
    + destruct (Hc j b') as (a & ? & ?); [by exists k, g, com'|]. exists a. split; [by right|done].
Qed.

(** A member is replayed on its own batch: when the engine is prepared from a roster and a
    directory in which the member at [i] has one batch of the step, the assignment the
    engine keeps under [i] is that batch with its samples. *)
Theorem replays_the_named_batch (rp : Replayer (T := T)) cfg w (e : TrainerReplayEngine T D) c index i b :
  replayer_engine bs58 get_samples rp cfg w = Ok e →
  w_prepared w = Some c → index_dir (w_read_dir w (submitted_dir cfg)) = Ok index →
  prepared (rp_step rp) c index i b → (∀ b', prepared (rp_step rp) c index i b' → b' = b) →
  ∃ data, get_samples b = Some data ∧
    assignments e !! Z.of_nat i = Some (mkReplayAssignment (Z.of_nat i) (rp_step rp) b data).
Proof.
  unfold replayer_engine. intros Hrun Hc Hidx Hprep Huniq.
  apply res_bind_Ok in Hrun as (c' & Hc'%ok_or_Ok & Hrun). assert (c' = c) as -> by congruence.
  apply res_bind_Ok in Hrun as (index' & Hidx'%map_err_Ok & Hrun). assert (index' = index) as -> by congruence.
  apply res_bind_Ok in Hrun as (l & Hl & (trainer & _ & [= <-])%res_bind_Ok).
  destruct (replay_assignments_spec _ _ _ _ Hl) as [Hsound Hcomplete]. destruct (Hcomplete i b Hprep) as (a & Ha & Hai).
  rewrite engine_lookup. set (mine := List.filter _ l).
  assert (Hmine : ∀ a, a ∈ mine → ∃ data, get_samples b = Some data ∧ a = mkReplayAssignment (Z.of_nat i) (rp_step rp) b data).
  { intros a' Ha'. apply list_elem_of_In, filter_In in Ha' as [Hin%list_elem_of_In Hi%bool_decide_eq_true].
    destruct (Hsound a' Hin) as (j & Hj & Hst & Hp & Hd). assert (j = i) as -> by lia.
    rewrite (Huniq _ Hp) in Hd. exists (ra_data a'). split; [done|]. destruct a'; cbn in *. subst. f_equal. by apply Huniq. }
  assert (Hin : a ∈ mine). { apply list_elem_of_In, filter_In. split; [by apply list_elem_of_In|]. by apply bool_decide_eq_true. }
  destruct (last mine) as [a'|] eqn:Hlast.
  - apply last_Some_elem_of in Hlast. destruct (Hmine a' Hlast) as (data & ? & ->). by exists data.
  - apply last_None in Hlast. rewrite Hlast in Hin. by apply not_elem_of_nil in Hin.
Qed.
End Replays.

(** The first node is second in the roster; its dump names the batch from 12 to 15. *)
Lemma replays_the_named_batch_witness :
  let w := mkWorld (Some DaemonThms.Sample.coordinator) (Some 0) (Some DaemonThms.Sample.coordinator)
    (λ _, Some [mkDumpFile (DaemonThms.Sample.name "9xQeWvG8") (Some DaemonThms.Sample.twos)]) (λ _ _, true) in
  let samples := λ b : BatchId, Some [start b; end_ b] in
  ∃ e, replayer_engine DaemonThms.Sample.base58 samples (mkReplayer (Some tt) 7) DaemonThms.Sample.config w = Ok e ∧
  assignments e !! 1 = Some (mkReplayAssignment 1 7 (mkClosedInterval 12 15) [12; 15]).
Proof.
  intros w samples.
  destruct (replayer_engine DaemonThms.Sample.base58 samples (mkReplayer (Some tt) 7) DaemonThms.Sample.config w)
    as [e| |] eqn:He; [|vm_compute in He; discriminate He..]. exists e. split; [reflexivity|].
  destruct (replays_the_named_batch DaemonThms.Sample.base58 samples (mkReplayer (Some tt) 7) DaemonThms.Sample.config w e
    DaemonThms.Sample.coordinator
    [("step7-batchB[12, 15]", mkDumpFile (DaemonThms.Sample.name "9xQeWvG8") (Some DaemonThms.Sample.twos))]
    1%nat (mkClosedInterval 12 15) He eq_refl) as (data & Hd & Ha).
  - vm_compute. reflexivity.
  - exists "step7-batchB[12, 15]", (mkDumpFile (DaemonThms.Sample.name "9xQeWvG8") (Some DaemonThms.Sample.twos)), "9xQeWvG8".
    split; [by left|]. split; [vm_compute; reflexivity|]. split; vm_compute; reflexivity.
  - intros b (key & f & com & [= -> ->]%list_elem_of_singleton & Hp & _). vm_compute in Hp. by injection Hp as <-.
  - injection Hd as <-. exact Ha.
Defined.

(** ** One training error ends the audits *)

Section Lost.
Context {H : HashFns} {T D R : Type}.
Context (train : T → ReplayAssignment D → string + (T * option R)) (decompress_results : R → string + list Z).
Context (bs58 : list Z → string) (get_samples : BatchId → option (list D)).

(** A trainer that was lost is never replaced: the daemon's state does not change again. *)
Lemma lost_trainer_is_final once cfg worlds d rp : dm_replayer d = Some rp → rp_trainer rp = None →
  daemon_loop train decompress_results bs58 get_samples once cfg worlds d = d.
Proof.
  intros Hrp Hnone. induction worlds as [|w worlds IH]; [done|]. cbn [daemon_loop]. unfold daemon_turn. rewrite Hrp.
  assert (Hengine : ∀ e, replayer_engine bs58 get_samples rp cfg w ≠ Ok e).
  { unfold replayer_engine. intros e. rewrite Hnone. intros (c & _ & (idx & _ & (l & _ & (t & Ht & _)%res_bind_Ok)%res_bind_Ok)%res_bind_Ok)%res_bind_Ok.
    done. }
  destruct (replayer_engine bs58 get_samples rp cfg w) as [e| |]; [by destruct (Hengine e)|done..].
Qed.

Definition lost (e : TrainerReplayEngine T D) : Prop := slot e = None.

Lemma replay_lost e i : lost e → lost (engine_replay train decompress_results e i).1.
Proof.
  unfold lost, engine_replay, recompute. intros He. destruct (assignments e !! i); [|done]. by rewrite He.
Qed.

(** The engine after a training error. *)
Lemma training_error_loses e i a trainer error : assignments e !! i = Some a → slot e = Some trainer →
  train trainer a = inl error → lost (engine_replay train decompress_results e i).1.
Proof. intros Ha Ht He. unfold engine_replay, recompute, lost. by rewrite Ha, Ht, He. Qed.
End Lost.

(** ** A dump of the wrong length *)

Section Stuck.
Context {H : HashFns} (bs58 : list Z → string) (cfg : AuditConfig).

(** The first dump of the directory would be judged, and is not as long as its reference. *)
Definition stuck (judged : gset string) (w : World) : Prop :=
  ∃ c assigned key f index m g bounds committer sd rd,
    pass_reads bs58 cfg w c assigned ((key, f) :: index) (Some m) ∧ is_Some (w_tie_breakers w) ∧
    parse_committer (df_path f) = Some committer ∧ key ∉ judged ∧
    parse_batch_bounds (E := DaemonError) key = Ok bounds ∧
    (∀ l, assigned = Some l → (committer, (default (0, 0) bounds).1, (default (0, 0) bounds).2) ∈ l) ∧
    key_lookup key m = Some g ∧ df_delta f = Some sd ∧ df_delta g = Some rd ∧ length sd ≠ length rd.

Lemma wrong_length_verdict s r b : length s ≠ length r → ∀ v, verify_within_band s r b ≠ Ok v.
Proof.
  intros Hne v Hv. apply verify_inv in Hv as (_ & _ & _ & _ & [[Hlen _]%distance_inv|[[j Hd] _]]); [done|].
  unfold relative_l2_distance in Hd. rewrite (proj2 (Z.eqb_neq _ _)) in Hd by (unfold zlen; lia). done.
Qed.

Lemma stuck_entry {ES} w c assigned m replay (p : Pass ES) key f g bounds committer sd rd :
  parse_committer (df_path f) = Some committer → key ∉ judged p →
  parse_batch_bounds (E := DaemonError) key = Ok bounds →
  (∀ l, assigned = Some l → (committer, (default (0, 0) bounds).1, (default (0, 0) bounds).2) ∈ l) →
  key_lookup key m = Some g → df_delta f = Some sd → df_delta g = Some rd → length sd ≠ length rd →
  (audit_entry bs58 cfg w c assigned (Some m) replay (key, f) p).2 = p ∧
  ∃ e, (audit_entry bs58 cfg w c assigned (Some m) replay (key, f) p).1 = Err e.
Proof.
  intros Hcom Hkey Hb Has Hg Hsd Hrd Hlen. unfold audit_entry. rewrite Hcom, bind_self.
  rewrite bool_decide_false by done. rewrite Hb, bind_lift_Ok.
  destruct (default (0, 0) bounds) as [bs be]. cbn [fst snd] in Has.
  assert (Hskip : match assigned with Some l => negb (bool_decide ((committer, bs, be) ∈ l)) | None => false end = false).
  { destruct assigned as [l|]; [|done]. rewrite bool_decide_true; [done|by apply Has]. }
  rewrite Hskip. unfold reference_delta, decompress_dump, tool, mbind, M_bind, lift. rewrite Hg, Hrd.
  cbn [ok_or map_err mret M_ret]. rewrite Hsd. cbn [ok_or map_err].
  pose proof (wrong_length_verdict sd rd (ac_band cfg) Hlen) as Hno. pose proof (verify_never_panics sd rd (ac_band cfg)) as Hnp.
  destruct (verify_within_band sd rd (ac_band cfg)) as [v|err|]; [by destruct (Hno v)| |done]. cbn. split; [done|by eexists].
Qed.

Lemma stuck_pass {ES} w replay (p : Pass ES) : stuck (judged p) w →
  (audit_pass bs58 cfg w replay p).2 = p ∧ ∃ e, (audit_pass bs58 cfg w replay p).1 = Err e.
Proof.
  intros (c & assigned & key & f & index & m & g & bounds & com & sd & rd & Hreads & [nt Hnt] & Hcom & Hkey & Hb & Has & Hg & Hsd & Hrd & Hlen).
  destruct Hreads as (Hc & Hidx & Hassigned & Href).
  destruct (reference_dir cfg) as [dir|] eqn:Hdir; [|done]. destruct Href as (m' & Hm & [= <-]).
  destruct (stuck_entry w c assigned m replay p key f g bounds com sd rd) as [H2 [e H1]]; [done..|].
  assert (Hrun : audit_pass bs58 cfg w replay p = (Err e, p)); [|by rewrite Hrun; split; [|eexists]].
  unfold audit_pass. rewrite Hnt, Hc, Hidx, Hdir, Hm. cbn [ok_or tool map_err]. rewrite !bind_lift_Ok.
  assert (Hsel : ∀ (k : option (list (string * Z * Z)) → M DaemonError (Pass ES) Z),
    ((if audit_assigned cfg then s ← lift (assigned_set bs58 c nt); mret (Some s) else mret None) ≫= k) p = k assigned p).
  { intros k. destruct (audit_assigned cfg); [|by subst]. destruct Hassigned as (n' & l & Hn' & Hl & ->).
    assert (n' = nt) as -> by congruence. by rewrite Hl. }
  rewrite Hsel, bind_lift_Ok. unfold mbind, M_bind, lift, throw_if, gets. cbn [mret M_ret forM_].
  unfold mbind, M_bind.
  destruct (audit_entry bs58 cfg w c assigned (Some m) replay (key, f) p) as [r p']. cbn in H1, H2. by subst.
Qed.
End Stuck.

(** One dump of the wrong length disables the daemon: while the first dump of the directory
    is one that would be judged and has the wrong length, no pass judges or submits
    anything, whatever the other dumps are. *)
Theorem wrong_length_disables {H : HashFns} {T D R}
    (train : T → ReplayAssignment D → string + (T * option R)) (decompress_results : R → string + list Z)
    bs58 get_samples once cfg worlds (d : Daemon (T := T)) :
  dm_replayer d = None → Forall (stuck bs58 cfg (dm_judged d)) worlds →
  daemon_loop train decompress_results bs58 get_samples once cfg worlds d = d.
Proof.
  intros Hrp Hall. induction Hall as [|w worlds Hw _ IH]; [done|]. cbn [daemon_loop]. unfold daemon_turn. rewrite Hrp.
  destruct (stuck_pass bs58 cfg w None (mkPass (dm_judged d) (no_engine (T := T) (D := D)) (dm_submissions d) 0) Hw) as [H2 [e H1]].
  destruct (audit_pass _ _ _ _ _) as [r p]. cbn in H1, H2. subst. cbn.
  by replace (mkDaemon None (dm_judged d) (dm_submissions d)) with d by (destruct d; cbn in *; by subst).
Qed.

Lemma wrong_length_disables_witness :
  let w := DaemonThms.Sample.world [1073741824] in
  let train := λ (t : unit) (a : ReplayAssignment unit), inr (t, Some tt) : string + (unit * option unit) in
  let dec := λ _ : unit, inr [] : string + list Z in
  @daemon_loop zero_hashes _ _ _ train dec DaemonThms.Sample.base58 (λ _, None) false DaemonThms.Sample.config [w; w]
    (daemon_new None) = daemon_new None.
Proof.
  intros w train dec.
  apply (@wrong_length_disables zero_hashes unit unit unit train dec DaemonThms.Sample.base58 (λ _, None) false
    DaemonThms.Sample.config [w; w] (daemon_new None) eq_refl).
  assert (Hw : @stuck zero_hashes DaemonThms.Sample.base58 DaemonThms.Sample.config ∅ w);
    [|exact (Forall_cons_2 _ _ _ Hw (Forall_cons_2 _ _ _ Hw (Forall_nil_2 _)))].
  exists DaemonThms.Sample.coordinator, None, "step7-batchB[12, 15]",
    (mkDumpFile (DaemonThms.Sample.name "9xQeWvG8") (Some [1073741824])), [],
    [("step7-batchB[12, 15]", mkDumpFile (DaemonThms.Sample.name "honest") (Some DaemonThms.Sample.ones))],
    (mkDumpFile (DaemonThms.Sample.name "honest") (Some DaemonThms.Sample.ones)), (Some (12, 15)), "9xQeWvG8",
    [1073741824], DaemonThms.Sample.ones.
  split.
  { split; [reflexivity|]. split; [vm_compute; reflexivity|]. split; [reflexivity|].
    eexists. split; [vm_compute; reflexivity|reflexivity]. }
  split; [by exists 0|]. split; [vm_compute; reflexivity|]. split; [set_solver|].
  split; [vm_compute; reflexivity|]. split; [done|]. split; [vm_compute; reflexivity|].
  split; [reflexivity|]. split; [reflexivity|done].
Defined.

(** ** Batches of one sequence *)

Section Single.
Context {H : HashFns} (bs58 : list Z → string).

(** The bounds printed for an assignment are those of a batch of several sequences. *)
Lemma assigned_bounds_differ audits l : Forall (λ a, u64 (start (au_batch_id a)) ∧ u64 (end_ (au_batch_id a))) audits →
  assigned_bounds bs58 audits = Ok l → ∀ s a b, (s, a, b) ∈ l → a ≠ b.
Proof.
  intros Hall. revert l. induction Hall as [|x audits [Hs He] _ IH]; intros l; cbn [assigned_bounds].
  { intros [= <-] s a b. by intros ?%not_elem_of_nil. }
  intros (bounds & Hb & (rest & Hrest & [= <-])%res_bind_Ok)%res_bind_Ok s a b.
  destruct (Z.eq_dec (start (au_batch_id x)) (end_ (au_batch_id x))) as [Heq|Hne].
  - assert (bounds = None) as ->.
    { unfold show_batch, show_interval in Hb. rewrite Heq, Z.eqb_refl in Hb. unfold parse_batch_bounds in Hb.
      rewrite (find_none "["%char "") in Hb; [by injection Hb|]. rewrite has_app, show_has; done. }
    by apply IH.
  - assert (Hread : parse_batch_bounds (E := DaemonError) (show_batch (au_batch_id x)) = Ok (Some (start (au_batch_id x), end_ (au_batch_id x)))).
    { unfold show_batch, show_interval. rewrite (proj2 (Z.eqb_neq _ _)) by done.
      replace ("B" +:+ "[" +:+ show_uint (start (au_batch_id x)) +:+ ", " +:+ show_uint (end_ (au_batch_id x)) +:+ "]")
        with ("B" +:+ "[" +:+ show_pair (au_batch_id x) +:+ "]") by (by rewrite !append_assoc).
      by apply bounds_between. }
    assert (bounds = Some (start (au_batch_id x), end_ (au_batch_id x))) as -> by congruence.
    intros [[= -> -> ->]|Hin]%elem_of_cons; [done|]. by eapply IH.
Qed.

(** When only assignments are audited, a batch of one sequence never is: its dump is passed
    over, although it may be the very batch that was assigned. *)
Theorem single_batches_are_never_judged {ES} cfg w c audits l reference replay (p : Pass ES) step b f :
  Forall (λ a, u64 (start (au_batch_id a)) ∧ u64 (end_ (au_batch_id a))) audits →
  assigned_bounds bs58 audits = Ok l → start b = end_ b →
  audit_entry bs58 cfg w c (Some l) reference replay (key_of step b, f) p = (Ok tt, p).
Proof.
  intros Hall Hl Hb. unfold audit_entry. destruct (parse_committer (df_path f)) as [com|]; [|done].
  rewrite bind_self. case_bool_decide; [done|].
  rewrite (single_bounds step b Hb), bind_lift_Ok. cbn [default]. rewrite bool_decide_false; [done|].
  intros Hin. by apply (assigned_bounds_differ audits l Hall Hl com 0 0 Hin).
Qed.
End Single.

(** The verifier of the round is assigned the batch [5, 5] of the first node; the node's
    dump is twice what it should be. *)
Lemma single_batches_are_never_judged_witness :
  let b := mkClosedInterval 5 5 in
  let audits := [mkAudit (CoordinatorThms.Sample.node 3) 2 (CoordinatorThms.Sample.node 1) b] in
  assigned_bounds DaemonThms.Sample.base58 audits = Ok [] ∧
  @audit_entry zero_hashes unit DaemonThms.Sample.base58 DaemonThms.Sample.config
    (DaemonThms.Sample.world DaemonThms.Sample.twos) DaemonThms.Sample.coordinator (Some [])
    (Some [("step7-batchB5", mkDumpFile "" (Some DaemonThms.Sample.ones))]) None
    (key_of 7 b, mkDumpFile (dump_name "9xQeWvG8" 7 b) (Some DaemonThms.Sample.twos)) DaemonThms.Sample.start
  = (Ok tt, DaemonThms.Sample.start).
Proof.
  intros b audits. split; [vm_compute; reflexivity|].
  apply (@single_batches_are_never_judged zero_hashes DaemonThms.Sample.base58 unit DaemonThms.Sample.config _ _ audits).
  - repeat constructor; vm_compute; congruence.
  - vm_compute; reflexivity.
  - reflexivity.
Defined.
