(* ===== verification/CentralServer.v ===== *)
(** * The centralised server

    src/architectures/centralized/server/src/app.rs: the server that runs a coordinator
    without a chain.  It keeps the clients that asked to join, hands them to the ticks,
    passes the clients' witnesses, health checks and checkpoints to the coordinator, and
    sends its state to the clients, to the data server, and to a file of states.

    A turn of [poll_next] is an event; time and random numbers are its arguments.  Errors of
    the coordinator are logged and its state is kept as the method left it; a panic ends the
    process.  The model ends a run where the coordinator's arithmetic overflows, which wraps
    in the server's build.  The hash set of pending clients has its order of iteration as a
    parameter, as has the hash that tells whether the state changed. *)

From stdpp Require Import base tactics list numbers strings.
From S2P Require Import Prelude FixedVec CoreTypes Hashing CoordinatorState Committee Coordinator.

Open Scope Z_scope.

(** [ClientToServerMessage], with the two kinds of witness. *)
Inductive ClientToServerMessage :=
| MsgJoin (run_id : list Z)
| MsgWitness (w : Witness)
| MsgWarmupWitness (w : Witness)
| MsgHealthCheck (checks : list (NodeIdentity * CommitteeProof))
| MsgCheckpoint (checkpoint : Checkpoint).

Record App := mkApp {
  coordinator : Coordinator;
  pending_clients : list NodeIdentity;
  training_data_server : bool;
  save_state_dir : bool;
  coordinator_writer : bool;
  last_coordinator_hash : Z;
  original_warmup_time : Z;
  withdraw_on_disconnect : bool;
}.

(** What leaves the server. *)
Inductive Output :=
| Broadcast (c : Coordinator)
| ToDataServer (c : Coordinator)
| ToFile (c : Coordinator)
| SaveState (c : Coordinator).

Inductive AppEvent :=
| EvMessage (from : list Z) (message : ClientToServerMessage) (now seed : Z)
| EvDisconnected (from : list Z)
| EvTick (now seed : Z)
| EvPause (now : Z).

Definition set_coordinator (c : Coordinator) (a : App) : App :=
  mkApp c (pending_clients a) (training_data_server a) (save_state_dir a) (coordinator_writer a)
    (last_coordinator_hash a) (original_warmup_time a) (withdraw_on_disconnect a).
Definition set_pending (l : list NodeIdentity) (a : App) : App :=
  mkApp (coordinator a) l (training_data_server a) (save_state_dir a) (coordinator_writer a)
    (last_coordinator_hash a) (original_warmup_time a) (withdraw_on_disconnect a).
Definition set_last_hash (h : Z) (a : App) : App :=
  mkApp (coordinator a) (pending_clients a) (training_data_server a) (save_state_dir a) (coordinator_writer a)
    h (original_warmup_time a) (withdraw_on_disconnect a).

(** [HashSet::insert] and [remove]. *)
Definition insert_pending (i : NodeIdentity) (l : list NodeIdentity) : list NodeIdentity :=
  if existsb (id_eqb i) l then l else l ++ [i].
Definition remove_pending (i : NodeIdentity) (l : list NodeIdentity) : list NodeIdentity :=
  List.filter (λ x, negb (id_eqb i x)) l.

Definition set_warmup_time (t : Z) (c : Coordinator) : Coordinator :=
  let g := config c in
  set_config (mkConfig t (cooldown_time g) (max_round_train_time g) (round_witness_time g)
    (global_batch_size_warmup_tokens g) (epoch_time g) (total_steps g) (init_min_clients g) (min_clients g)
    (witness_nodes g) (global_batch_size_start g) (global_batch_size_end g) (verification_percent g)
    (waiting_for_members_extra_time g)) c.

(** [reset_ephemeral]: the clients are overwritten, their number stays. *)
Definition Client_default : Client := Client_new (mkNodeIdentity (replicate 32 0) (replicate 32 0)).
Definition reset_ephemeral (c : Coordinator) : Coordinator :=
  set_run_state WaitingForMembers
    (on_epoch (λ e, set_exited_clients ((λ _, Client_default) <$> exited_clients e)
                      (set_clients ((λ _, Client_default) <$> clients e) e)) c).

(** What [App::new] makes of the state it is given; the data server and the files are I/O. *)
Definition app_new (c : Coordinator) (data_server save_dir writer : bool) (init_warmup_time : option Z)
    (withdraw : bool) : App :=
  let c := reset_ephemeral c in
  let original := warmup_time (config c) in
  let c := match init_warmup_time with Some t => set_warmup_time t c | None => c end in
  mkApp c [] data_server save_dir writer 0 original withdraw.

Section Server.
Context {H : HashFns} (iter : list NodeIdentity → list NodeIdentity) (state_hash : Coordinator → Z).

(** A call whose error is logged. *)
Definition attempt {E A} (m : CM A) (c : Coordinator) : res E (option A * Coordinator) :=
  match m c with
  | (Ok a, c') => Ok (Some a, c')
  | (Err _, c') => Ok (None, c')
  | (Panic, _) => Panic
  end.

Definition client_position (i : NodeIdentity) (c : Coordinator) : option nat :=
  fst <$> list_find (λ x, id_eqb (id x) i = true) (clients (epoch_state c)).

Definition post_state_change (broadcast : bool) (a : App) : App * list Output :=
  let a := if active (coordinator a) then set_coordinator (set_warmup_time (original_warmup_time a) (coordinator a)) a
           else a in
  let c := coordinator a in
  let sent := if broadcast then Broadcast c :: (if training_data_server a then [ToDataServer c] else []) else [] in
  if coordinator_writer a && negb (state_hash c =? last_coordinator_hash a)
  then (set_last_hash (state_hash c) a, sent ++ [ToFile c])
  else (a, sent).

Definition on_disconnect {E : Type} (from : list Z) (a : App) : res E App :=
  let from_identity := from_single_key from in
  let a := set_pending (remove_pending from_identity (pending_clients a)) a in
  if withdraw_on_disconnect a then
    match client_position from_identity (coordinator a) with
    | Some index => '(_, c) ← attempt (withdraw (Z.of_nat index)) (coordinator a); Ok (set_coordinator c a)
    | None => Ok a
    end
  else Ok a.

(** The [match] of [on_client_message]: whether to broadcast. *)
Definition handle_message {E : Type} (from : NodeIdentity) (message : ClientToServerMessage) (now seed : Z) (a : App) :
    res E (bool * App) :=
  let c := coordinator a in
  match message with
  | MsgJoin run_id_ =>
      Ok (false, if bool_decide (fs_to_bytes (run_id c) = run_id_)
                 then set_pending (insert_pending from (pending_clients a)) a else a)
  | MsgWitness w =>
      '(_, c') ← attempt (witness from w now) c;
      Ok (negb (bool_decide (run_state c' = run_state c)), set_coordinator c' a)
  | MsgWarmupWitness w =>
      '(_, c') ← attempt (warmup_witness from w now seed) c;
      Ok (negb (bool_decide (run_state c' = run_state c)), set_coordinator c' a)
  | MsgHealthCheck checks =>
      '(dropped, c') ← attempt (health_check from checks) c;
      Ok (match dropped with Some n => 0 <? n | None => false end, set_coordinator c' a)
  | MsgCheckpoint ck =>
      match client_position from c with
      | Some index => '(_, c') ← attempt (checkpoint from (Z.of_nat index) ck) c; Ok (true, set_coordinator c' a)
      | None => Ok (true, a)
      end
  end.
Definition on_client_message {E : Type} (from : list Z) (message : ClientToServerMessage) (now seed : Z) (a : App) :
    res E (App * list Output) :=
  '(broadcast, a) ← handle_message (from_single_key from) message now seed a;
  Ok (post_state_change broadcast a).

Definition kick_unhealthy_clients (a : App) : App :=
  set_pending (foldl (λ l client, if bool_decide (state client = Healthy) then l else remove_pending (id client) l)
                 (pending_clients a) (exited_clients (epoch_state (coordinator a)))) a.

Definition on_tick {E : Type} (now seed : Z) (a : App) : res E (App * list Output) :=
  let a := kick_unhealthy_clients a in
  '(result, c) ← attempt (tick (Some (iter (pending_clients a))) now seed) (coordinator a);
  let saved := match result with
               | Some (EpochEnd true) => if save_state_dir a then [SaveState (reset_ephemeral c)] else []
               | _ => []
               end in
  let '(a, sent) := post_state_change true (set_coordinator c a) in
  Ok (a, saved ++ sent).

Definition on_pause {E : Type} (now : Z) (a : App) : res E App :=
  '(_, c) ← match run_state (coordinator a) with
            | Paused => attempt (resume now) (coordinator a)
            | _ => attempt (pause now) (coordinator a)
            end;
  Ok (set_coordinator c a).

(** [poll_next], for the branches that change the server. *)
Definition poll_next {E : Type} (e : AppEvent) (a : App) : res E (App * list Output) :=
  match e with
  | EvMessage from message now seed => on_client_message from message now seed a
  | EvDisconnected from => a ← on_disconnect from a; Ok (a, [])
  | EvTick now seed => on_tick now seed a
  | EvPause now => a ← on_pause now a; Ok (a, [])
  end.

(** [run], over the events that happen. *)
Fixpoint run_app {E : Type} (es : list AppEvent) (a : App) : res E (App * list Output) :=
  match es with
  | [] => Ok (a, [])
  | e :: es' =>
      '(a, out) ← poll_next e a;
      '(a, rest) ← run_app es' a;
      Ok (a, out ++ rest)
  end.
End Server.
