(* ===== verification/CentralServerThms.v ===== *)
(** * What the centralised server guarantees

    Errors of the coordinator leave its state alone, so the server, which does not roll
    back, keeps the coordinator's invariant.  The members of an epoch are clients that
    asked to join the run and are still connected.  The warm-up time given on the command
    line is gone once training has started.  Clients that left an epoch cannot come back
    while the run waits for members. *)

From stdpp Require Import base tactics list numbers strings.
From S2P Require Import Prelude FixedVec CoreTypes Hashing CoordinatorState Committee Coordinator.
From S2P Require Import CoordinatorInv CoordinatorProps CoordinatorThms Frames CentralServer.

Open Scope Z_scope.

(** ** Errors leave the state alone *)

(** A method that only reads; one that reports no error; one that reports an error only
    before it has written. *)
Definition reads {E S A} (m : M E S A) : Prop := ∀ s, (m s).2 = s.
Definition sure {E S A} (m : M E S A) : Prop := ∀ s e, (m s).1 ≠ Err e.
Definition clean {E S A} (m : M E S A) : Prop := ∀ s e s', m s = (Err e, s') → s' = s.

Create HintDb clean.

Section Rules.
Context {E S : Type}.

Lemma reads_bind {A B} (m : M E S A) (f : A → M E S B) : reads m → (∀ a, reads (f a)) → reads (m ≫= f).
Proof.
  intros Hm Hf s. specialize (Hm s). unfold mbind, M_bind. destruct (m s) as [[a|e|] s1]; cbn in *; subst; [apply Hf|done..].
Qed.
Lemma sure_bind {A B} (m : M E S A) (f : A → M E S B) : sure m → (∀ a, sure (f a)) → sure (m ≫= f).
Proof.
  intros Hm Hf s e. specialize (Hm s). unfold mbind, M_bind. destruct (m s) as [[a|e'|] s1]; cbn in *; [apply Hf|naive_solver|done].
Qed.
Lemma clean_reads {A B} (m : M E S A) (f : A → M E S B) : reads m → (∀ a, clean (f a)) → clean (m ≫= f).
Proof.
  intros Hm Hf s e s'. specialize (Hm s). unfold mbind, M_bind. destruct (m s) as [[a|e'|] s1]; cbn in *; subst;
    [apply Hf|by intros [= _ <-]|done].
Qed.
Lemma clean_sure {A B} (m : M E S A) (f : A → M E S B) : clean m → (∀ a, sure (f a)) → clean (m ≫= f).
Proof.
  intros Hm Hf s e s'. specialize (Hm s). unfold mbind, M_bind. destruct (m s) as [[a|e'|] s1]; cbn in *.
  - specialize (Hf a s1 e). destruct (f a s1) as [[b|e'|] s2]; cbn in *; [done| |done]. intros [= -> _]. done.
  - intros [= <- <-]. by apply (Hm e').
  - done.
Qed.
Lemma clean_of_sure {A} (m : M E S A) : sure m → clean m.
Proof. intros Hm s e s' Hrun. destruct (Hm s e). by rewrite Hrun. Qed.
Lemma clean_of_reads {A} (m : M E S A) : reads m → clean m.
Proof. intros Hm s e s' Hrun. specialize (Hm s). by rewrite Hrun in Hm. Qed.

Lemma reads_ret {A} (a : A) : reads (mret a : M E S A). Proof. done. Qed.
Lemma reads_self : reads (@self E S). Proof. done. Qed.
Lemma reads_gets {A} (f : S → A) : reads (@gets E S A f). Proof. done. Qed.
Lemma reads_lift {A} (r : res E A) : reads (S := S) (lift r). Proof. done. Qed.
Lemma reads_asks {A} (f : S → res E A) : reads (asks f). Proof. done. Qed.
Lemma reads_throw {A} (e : E) : reads (S := S) (throw (A := A) e). Proof. done. Qed.
Lemma reads_throw_if b (e : E) : reads (S := S) (throw_if b e). Proof. by destruct b. Qed.
Lemma reads_assert b : reads (@assert E S b). Proof. by destruct b. Qed.
Lemma reads_forM {A} (l : list A) (f : A → M E S unit) : (∀ x, reads (f x)) → reads (forM_ l f).
Proof. intros Hf. induction l as [|x l IH]; cbn [forM_]; [done|]. by apply reads_bind. Qed.

Lemma sure_ret {A} (a : A) : sure (mret a : M E S A). Proof. done. Qed.
Lemma sure_self : sure (@self E S). Proof. done. Qed.
Lemma sure_gets {A} (f : S → A) : sure (@gets E S A f). Proof. done. Qed.
Lemma sure_modify f : sure (@modify E S f). Proof. done. Qed.
Lemma sure_assert b : sure (@assert E S b). Proof. by destruct b. Qed.
Lemma sure_whenM b (m : M E S unit) : sure m → sure (whenM b m).
Proof. intros Hm. by destruct b. Qed.
Lemma sure_forM {A} (l : list A) (f : A → M E S unit) : (∀ x, sure (f x)) → sure (forM_ l f).
Proof. intros Hf. induction l as [|x l IH]; cbn [forM_]; [done|]. by apply sure_bind. Qed.
Lemma sure_lift {A} (r : res E A) : (∀ e, r ≠ Err e) → sure (S := S) (lift r).
Proof. intros Hr s e. apply Hr. Qed.
Lemma sure_asks {A} (f : S → res E A) : (∀ s e, f s ≠ Err e) → sure (asks f).
Proof. intros Hf s e. apply Hf. Qed.
Lemma sure_ignore (m : M E S unit) : sure (ignore_err m).
Proof. intros s e. unfold ignore_err. by destruct (m s) as [[| |] ?]. Qed.
End Rules.

#[export] Hint Resolve reads_ret reads_self reads_gets reads_lift reads_asks reads_throw reads_throw_if reads_assert : clean.
#[export] Hint Resolve sure_ret sure_self sure_gets sure_modify sure_assert sure_ignore : clean.

(** Values that are never an error. *)
Definition no_err {E A} (r : res E A) : Prop := ∀ e, r ≠ Err e.
Lemma no_err_intro {E A} (r : res E A) : no_err r → ∀ e, r ≠ Err e.
Proof. done. Qed.
Lemma no_err_bind {E A B} (r : res E A) (f : A → res E B) : no_err r → (∀ a, no_err (f a)) → no_err (r ≫= f).
Proof. intros Hr Hf e. destruct r as [a|e'|]; cbn; [apply Hf|by destruct (Hr e')|done]. Qed.
Lemma no_err_ok {E A} (a : A) : no_err (Ok (E := E) a). Proof. done. Qed.
Lemma no_err_panic {E A} : no_err (Panic : res E A). Proof. done. Qed.
Lemma no_err_unwrap {E A} (o : option A) : no_err (unwrap (E := E) o). Proof. by destruct o. Qed.
Lemma no_err_uadd {E} m a b : no_err (uadd (E := E) m a b). Proof. unfold uadd. by destruct (_ <=? _). Qed.
Lemma no_err_umul {E} m a b : no_err (umul (E := E) m a b). Proof. unfold umul. by destruct (_ <=? _). Qed.
#[export] Hint Resolve no_err_ok no_err_panic no_err_unwrap no_err_uadd no_err_umul : clean.

Ltac no_err_step :=
  repeat first
    [ solve [eauto with clean]
    | apply no_err_bind; [|intros ?]
    | match goal with |- no_err (match ?x with _ => _ end) => destruct x end ].

Lemma no_err_timeout {E} ts d c : no_err (check_timeout (E := E) ts d c).
Proof. unfold check_timeout. no_err_step. Qed.
Lemma no_err_epoch_timeout {E} ts c : no_err (check_epoch_timeout (E := E) ts c).
Proof. unfold check_epoch_timeout. no_err_step. Qed.
Lemma no_err_current c {E} : no_err (current_round_unchecked c (E := E)).
Proof. unfold current_round_unchecked. no_err_step. Qed.
Lemma no_err_batch_size c {E} r : no_err (get_target_global_batch_size c (E := E) r).
Proof. unfold get_target_global_batch_size, total_tokens_processed. no_err_step. Qed.
Lemma no_err_quorum {E} n c : no_err (witness_quorum (E := E) n c).
Proof. unfold witness_quorum. no_err_step. Qed.
#[export] Hint Resolve no_err_timeout no_err_epoch_timeout no_err_current no_err_batch_size no_err_quorum : clean.
Lemma no_err_must_stop {E} n c : no_err (must_stop (E := E) n c).
Proof. unfold must_stop. no_err_step. Qed.
#[export] Hint Resolve no_err_must_stop : clean.

(** Decomposes a method that reports no error. *)
Ltac sure_step :=
  repeat first
    [ solve [eauto with clean]
    | apply sure_bind; [|intros ?]
    | apply sure_whenM
    | apply sure_forM; intros ?
    | match goal with
      | |- sure (lift ?r) => apply sure_lift; change (no_err r); no_err_step
      | |- sure (asks _) => apply sure_asks; intros ?; apply no_err_intro; no_err_step
      | |- sure (match ?x with _ => _ end) => destruct x
      end ].

Section Methods.
Context {H : HashFns}.

Lemma sure_change_state ts s : sure (change_state ts s).
Proof. unfold change_state. sure_step. Qed.
#[local] Hint Resolve sure_change_state : clean.
Lemma sure_start_waiting ts : sure (start_waiting_for_members ts).
Proof. unfold start_waiting_for_members. sure_step. Qed.
Lemma sure_set_round i r : sure (set_round i r).
Proof. unfold set_round. sure_step. Qed.
#[local] Hint Resolve sure_set_round sure_start_waiting : clean.
Lemma sure_update_round f : sure (update_current_round f).
Proof. unfold update_current_round. sure_step. Qed.
#[local] Hint Resolve sure_update_round : clean.
Lemma sure_start_cooldown ts : sure (start_cooldown ts).
Proof. unfold start_cooldown. sure_step. Qed.
Lemma sure_start_round ts seed n : sure (start_round_train ts seed n).
Proof. unfold start_round_train. sure_step. Qed.
#[local] Hint Resolve sure_start_cooldown sure_start_round : clean.
Lemma sure_set_client i s : sure (set_client_state i s).
Proof. unfold set_client_state. sure_step. Qed.
#[local] Hint Resolve sure_set_client : clean.
Lemma sure_withdraw_all : sure withdraw_all.
Proof. unfold withdraw_all. sure_step. Qed.
Lemma sure_set_cold b : sure (set_cold_start b).
Proof. unfold set_cold_start. sure_step. Qed.
#[local] Hint Resolve sure_withdraw_all sure_set_cold : clean.

(** Decomposes a method that reports its errors before it writes. *)
Ltac clean_step :=
  repeat first
    [ solve [apply clean_of_sure; sure_step]
    | solve [apply clean_of_reads; eauto with clean]
    | apply clean_reads; [solve [eauto with clean]|intros ?]
    | match goal with |- clean (match ?x with _ => _ end) => destruct x end ].

Lemma clean_withdraw i : clean (withdraw i).
Proof. unfold withdraw. clean_step. Qed.
Lemma clean_pause ts : clean (pause ts).
Proof. unfold pause. clean_step. Qed.
Lemma clean_resume ts : clean (resume ts).
Proof. unfold resume. clean_step. Qed.
Lemma clean_checkpoint from i ck : clean (checkpoint from i ck).
Proof. unfold checkpoint. clean_step. Qed.
Lemma clean_push w : clean (push_witness w).
Proof. unfold push_witness. clean_step. Qed.
Lemma clean_witness from w ts : clean (witness from w ts).
Proof. unfold witness. clean_step. apply clean_sure; [apply clean_push|intros ?; sure_step]. Qed.
Lemma clean_warmup_witness from w ts seed : clean (warmup_witness from w ts seed).
Proof. unfold warmup_witness. clean_step. apply clean_sure; [apply clean_push|intros ?; sure_step]. Qed.

Lemma sure_drop_clients ps d : sure (drop_clients ps d).
Proof.
  revert d. induction ps as [|p ps IH]; intros d; cbn [drop_clients]; [sure_step|].
  apply sure_bind; [|intros; apply IH]. unfold drop_client. sure_step.
Qed.
Lemma clean_health_check from checks : clean (health_check from checks).
Proof.
  unfold health_check. clean_step. apply clean_reads; [|intros ?; apply clean_of_sure, sure_drop_clients].
  apply reads_forM. intros [i p]. apply reads_bind; [done|]. intros h. apply reads_throw_if.
Qed.

Lemma sure_move h : sure (move_clients_to_exited h).
Proof.
  intros c e. unfold move_clients_to_exited.
  assert (Hr : ∀ (l ex : list Client), no_err (BVec.retain (E := CoordinatorError) (exit_unhealthy h) l ex)).
  { intros l. induction l as [|x l IH]; intros ex; cbn [BVec.retain]; [done|].
    apply no_err_bind; [unfold exit_unhealthy, res_assert; no_err_step|]. intros [b ex']. apply no_err_bind; [apply IH|].
    intros []. done. }
  specialize (Hr (clients (epoch_state c)) (exited_clients (epoch_state c))).
  by destruct (BVec.retain _ _ _) as [[]|e'|]; [|destruct (Hr e')|].
Qed.
#[local] Hint Resolve sure_move : clean.

Lemma clean_tick new ts seed : clean (tick new ts seed).
Proof.
  unfold tick. apply clean_reads; [done|]. intros c.
  destruct (run_state c); try (apply clean_of_reads; done); apply clean_of_sure.
  - unfold tick_waiting_for_members, start_warmup. sure_step.
  - unfold tick_warmup. sure_step.
  - unfold tick_round_train. sure_step.
  - unfold tick_round_witness, set_last_step. sure_step.
  - unfold tick_cooldown. sure_step.
Qed.
End Methods.

(** ** The server's calls *)

(** A call of the server: the method's success, or nothing. *)
Lemma attempt_inv {E A} (m : CM A) c o c' : clean m → attempt (E := E) m c = Ok (o, c') →
  (∃ a, o = Some a ∧ m c = (Ok a, c')) ∨ o = None ∧ c' = c.
Proof.
  intros Hm. unfold attempt. specialize (Hm c). destruct (m c) as [[a|e|] c1]; [| |done]; intros [= <- <-].
  - left. by exists a.
  - right. split; [done|]. by apply (Hm e).
Qed.

Section Server.
Context {H : HashFns} (iter : list NodeIdentity → list NodeIdentity) (state_hash : Coordinator → Z).

(** Every relation that the successful calls of the coordinator respect relates the
    coordinator before and after an event, given that it allows the reset of the warm-up
    time. *)
Record Respected (t0 : Z) (R : relation Coordinator) : Prop := {
  rs_preorder :: PreOrder R;
  rs_warmup c : R c (set_warmup_time t0 c);
  rs_tick new ts seed : respects R (tick new ts seed);
  rs_witness from w ts : respects R (witness from w ts);
  rs_warmup_witness from w ts seed : respects R (warmup_witness from w ts seed);
  rs_health_check from checks : respects R (health_check from checks);
  rs_checkpoint from i ck : respects R (checkpoint from i ck);
  rs_withdraw i : respects R (withdraw i);
  rs_pause ts : respects R (pause ts);
  rs_resume ts : respects R (resume ts);
}.

Lemma attempt_respects {E A} t0 R (m : CM A) c o c' : Respected t0 R → clean m → respects R m →
  attempt (E := E) m c = Ok (o, c') → R c c'.
Proof.
  intros HR Hc Hm Ha. pose proof (rs_preorder t0 R HR). destruct (attempt_inv _ _ _ _ Hc Ha) as [(a & _ & Hrun)|[_ ->]]; [|done].
  by apply (Hm _ _ _ Hrun).
Qed.

Lemma post_respects t0 R b a : Respected t0 R → original_warmup_time a = t0 → R (coordinator a) (coordinator (post_state_change state_hash b a).1).
Proof.
  intros HR <-. pose proof (rs_preorder _ R HR). unfold post_state_change.
  destruct (active (coordinator a)); cbn zeta; destruct (_ && _); cbn; [by apply rs_warmup..|done|done].
Qed.

(** The time to go back to never changes. *)
Lemma handle_original {E : Type} from msg now seed a b a' :
  handle_message (E := E) from msg now seed a = Ok (b, a') → original_warmup_time a' = original_warmup_time a.
Proof.
  destruct msg; cbn [handle_message].
  - intros [= _ <-]. by case_bool_decide.
  - by intros ([] & _ & [= _ <-])%res_bind_Ok.
  - by intros ([] & _ & [= _ <-])%res_bind_Ok.
  - by intros ([] & _ & [= _ <-])%res_bind_Ok.
  - destruct (client_position _ _); [|by intros [= _ <-]]. by intros ([] & _ & [= _ <-])%res_bind_Ok.
Qed.

Lemma post_original b a : original_warmup_time (post_state_change state_hash b a).1 = original_warmup_time a.
Proof. unfold post_state_change. destruct (active _); cbn zeta; by destruct (_ && _). Qed.

Lemma poll_original {E : Type} e a a' out : poll_next (E := E) iter state_hash e a = Ok (a', out) →
  original_warmup_time a' = original_warmup_time a.
Proof.
  destruct e as [from msg now seed|from|now seed|now]; cbn [poll_next].
  - unfold on_client_message. intros ([b a1] & Hmsg%handle_original & Hpost)%res_bind_Ok. injection Hpost as Hpost.
    rewrite <- Hmsg, <- (post_original b a1). by rewrite Hpost.
  - intros (a1 & Hd & [= <- <-])%res_bind_Ok. unfold on_disconnect in Hd. cbn [withdraw_on_disconnect set_pending coordinator] in Hd.
    destruct (withdraw_on_disconnect a); [|by injection Hd as <-]. destruct (client_position _ _) as [i|]; [|by injection Hd as <-].
    by apply res_bind_Ok in Hd as ([] & _ & [= <-]).
  - unfold on_tick. intros ([o c] & _ & Hpost)%res_bind_Ok. destruct (post_state_change _ _ _) as [a1 sent] eqn:Hp. injection Hpost as <- <-.
    pose proof (post_original true (set_coordinator c (kick_unhealthy_clients a))) as Ho. by rewrite Hp in Ho.
  - intros (a1 & Hd & [= <- <-])%res_bind_Ok. unfold on_pause in Hd. by apply res_bind_Ok in Hd as ([] & _ & [= <-]).
Qed.

Lemma poll_respects {E : Type} t0 R e a a' out : Respected t0 R → original_warmup_time a = t0 → poll_next (E := E) iter state_hash e a = Ok (a', out) →
  R (coordinator a) (coordinator a').
Proof.
  intros HR Ht. pose proof (rs_preorder t0 R HR). destruct e as [from msg now seed|from|now seed|now]; cbn [poll_next].
  - unfold on_client_message. intros ([b a1] & Hmsg & Hpost)%res_bind_Ok. injection Hpost as Hpost.
    pose proof (post_respects t0 R b a1 HR) as Hpr. rewrite Hpost in Hpr.
    trans (coordinator a1); [|apply Hpr; by rewrite (handle_original _ _ _ _ _ _ _ Hmsg)].
    destruct msg as [rid|w|w|checks|ck]; cbn [handle_message] in Hmsg.
    + injection Hmsg as <- <-. by case_bool_decide.
    + apply res_bind_Ok in Hmsg as ([o c'] & Ha & [= <- <-]). cbn. eapply attempt_respects; [done|apply clean_witness|by eapply rs_witness|done].
    + apply res_bind_Ok in Hmsg as ([o c'] & Ha & [= <- <-]). cbn. eapply attempt_respects; [done|apply clean_warmup_witness|by eapply rs_warmup_witness|done].
    + apply res_bind_Ok in Hmsg as ([o c'] & Ha & [= <- <-]). cbn. eapply attempt_respects; [done|apply clean_health_check|by eapply rs_health_check|done].
    + destruct (client_position _ _) as [i|]; [|by injection Hmsg as <- <-].
      apply res_bind_Ok in Hmsg as ([o c'] & Ha & [= <- <-]). cbn. eapply attempt_respects; [done|apply clean_checkpoint|by eapply rs_checkpoint|done].
  - intros (a1 & Hd & [= <- <-])%res_bind_Ok. unfold on_disconnect in Hd. cbn [withdraw_on_disconnect set_pending coordinator] in Hd.
    destruct (withdraw_on_disconnect a); [|by injection Hd as <-]. destruct (client_position _ _) as [i|]; [|by injection Hd as <-].
    apply res_bind_Ok in Hd as ([o c'] & Ha & [= <-]). cbn. eapply attempt_respects; [done|apply clean_withdraw|by eapply rs_withdraw|done].
  - unfold on_tick. intros ([o c] & Ha & Hpost)%res_bind_Ok. destruct (post_state_change _ _ _) as [a1 sent] eqn:Hp. injection Hpost as <- <-.
    etrans; [eapply (attempt_respects t0 R); [done|apply clean_tick|by eapply rs_tick|exact Ha]|].
    pose proof (post_respects t0 R true (set_coordinator c (kick_unhealthy_clients a)) HR Ht) as Hpr. by rewrite Hp in Hpr.
  - intros (a1 & Hd & [= <- <-])%res_bind_Ok. unfold on_pause in Hd. apply res_bind_Ok in Hd as ([o c'] & Ha & [= <-]). cbn.
    destruct (run_state (coordinator a));
      first [exact (attempt_respects t0 R _ _ _ _ HR (clean_pause now) (rs_pause t0 R HR now) Ha)
            |exact (attempt_respects t0 R _ _ _ _ HR (clean_resume now) (rs_resume t0 R HR now) Ha)].
Qed.

Lemma run_respects {E : Type} t0 R es a a' out : Respected t0 R → original_warmup_time a = t0 → run_app (E := E) iter state_hash es a = Ok (a', out) →
  R (coordinator a) (coordinator a').
Proof.
  intros HR. pose proof (rs_preorder t0 R HR). revert a out. induction es as [|e es IH]; intros a out Ht; cbn [run_app].
  - by intros [= <- <-].
  - intros ([a1 o1] & H1 & ([a2 o2] & H2 & [= <- <-])%res_bind_Ok)%res_bind_Ok.
    etrans; [by eapply poll_respects|eapply IH; [|done]]. by rewrite (poll_original _ _ _ _ H1).
Qed.
End Server.

(** ** Frames *)

(** What holds of coordinators of one setup is respected. *)
Lemma setup_respected {H : HashFns} t0 R : PreOrder R → (∀ c, R c (set_warmup_time t0 c)) →
  (∀ c c', same_setup c c' → R c c') → Respected t0 R.
Proof.
  intros HR Hw Hs.
  assert (Hall : ∀ A (m : CM A), respects same_setup m → respects R m).
  { intros A m Hm c a c' Hrun. by apply Hs, (Hm _ _ _ Hrun). }
  split; [done..|intros; apply Hall|intros; apply Hall|intros; apply Hall|intros; apply Hall|intros; apply Hall
    |intros; apply Hall|intros; apply Hall|intros; apply Hall].
  - by apply tick_frame, _.
  - by apply witness_frame, _.
  - by apply warmup_witness_frame, _.
  - by apply health_check_frame, _.
  - by apply checkpoint_frame, _.
  - by apply withdraw_frame, _.
  - by apply pause_frame, _.
  - by apply resume_frame, _.
Qed.

Lemma wf_respected {H : HashFns} t0 : Respected t0 (kept coord_wf).
Proof.
  split; [apply _| |intros..]; try (intros c u c' Hrun Hwf).
  - intros c Hwf. destruct Hwf as (He & Hr & Hf). by split_and!.
  - by eapply tick_wf.
  - by eapply witness_wf.
  - by eapply warmup_witness_wf.
  - by eapply health_check_wf.
  - by eapply checkpoint_wf.
  - by eapply withdraw_wf.
  - by eapply pause_wf.
  - by eapply resume_wf.
Qed.

Lemma reset_wf c : epoch_wf (epoch_state c) → coord_wf (reset_ephemeral c).
Proof.
  intros (Hr & Hh & Hm & Hw). apply coord_wf_intro; [|done..]. split; [done|]. split; [done|]. split; [|done].
  cbn. by rewrite !length_fmap.
Qed.

Section Runs.
Context {H : HashFns} (iter : list NodeIdentity → list NodeIdentity) (Hiter : ∀ l, iter l ≡ₚ l) (state_hash : Coordinator → Z).
Notation run := (run_app (E := unit) iter state_hash).
Notation poll := (poll_next (E := unit) iter state_hash).

(** The configuration and the name of the run stay, but for the warm-up time. *)
Lemma run_same_run es a a' out : run es a = Ok (a', out) → run_id (coordinator a') = run_id (coordinator a).
Proof.
  apply (run_respects iter state_hash (original_warmup_time a) (λ c c', run_id c' = run_id c)); [|done].
  apply setup_respected; [split; [by intros c|by intros c1 c2 c3 -> ->]|done|]. by intros c c' (? & _).
Qed.

Lemma run_restored es a a' out : run es a = Ok (a', out) →
  warmup_time (config (coordinator a)) = original_warmup_time a →
  warmup_time (config (coordinator a')) = original_warmup_time a.
Proof.
  apply (run_respects iter state_hash (original_warmup_time a) (λ c c', warmup_time (config c) = original_warmup_time a →
    warmup_time (config c') = original_warmup_time a)); [|done].
  apply setup_respected; [split; [by intros c|by intros c1 c2 c3; auto]|done|]. by intros c c' (_ & -> & _).
Qed.

Lemma run_original es a a' out : run es a = Ok (a', out) → original_warmup_time a' = original_warmup_time a.
Proof.
  revert a out. induction es as [|e es IH]; intros a out; cbn [run_app]; [by intros [= <- <-]|].
  intros ([a1 o1] & H1%poll_original & ([a2 o2] & H2 & [= <- <-])%res_bind_Ok)%res_bind_Ok.
  by rewrite (IH _ _ H2), H1.
Qed.

(** ** The warm-up time *)

Definition warm_ok (a : App) : Prop :=
  active (coordinator a) = true → warmup_time (config (coordinator a)) = original_warmup_time a.

Lemma post_warm b a : warm_ok (post_state_change state_hash b a).1.
Proof.
  unfold post_state_change, warm_ok. destruct (active (coordinator a)) eqn:Ha; cbn zeta; destruct (_ && _); cbn; try done; congruence.
Qed.

(** Withdrawing, pausing and resuming do not start a round. *)
Lemma withdraw_active i c u c' : withdraw i c = (Ok u, c') → active c' = active c.
Proof.
  unfold withdraw. rewrite bind_self. destruct (znth _ _) as [cl|]; [|done]. case_bool_decide; [|done].
  unfold set_client_state. by intros ->%modify_Ok.
Qed.
Lemma pause_active ts c u c' : pause ts c = (Ok u, c') → active c' = true → active c = true.
Proof.
  unfold pause. rewrite bind_self. destruct (negb (halted c)); [|done]. destruct (active c) eqn:Ha; [done|].
  intros Hrun Hact. exfalso. peel Hrun. peel Hrun. apply change_state_Ok in Ha1 as [_ ->].
  unfold set_cold_start in Hrun. by apply modify_Ok in Hrun as ->.
Qed.
Lemma resume_active ts c u c' : resume ts c = (Ok u, c') → active c' = false.
Proof.
  unfold resume. intros Hrun. do 2 peel Hrun. unfold start_waiting_for_members in Hrun. peel Hrun.
  apply change_state_Ok in Hrun as [_ ->]. unfold active. cbn. by destruct (_ <? _).
Qed.

Lemma poll_warm e a a' out : poll e a = Ok (a', out) → warm_ok a → warm_ok a'.
Proof.
  intros Hpoll Hok.
  assert (Hsame : warmup_time (config (coordinator a)) = original_warmup_time a →
    warmup_time (config (coordinator a')) = original_warmup_time a').
  { intros Ho. rewrite (poll_original _ _ _ _ _ _ Hpoll). eapply (run_restored [e] a a' (out ++ [])); [|done].
    cbn [run_app]. by rewrite Hpoll. }
  destruct e as [from msg now seed|from|now seed|now]; cbn [poll_next] in Hpoll.
  - unfold on_client_message in Hpoll. apply res_bind_Ok in Hpoll as ([b a1] & _ & Hpost). injection Hpost as Hpost.
    pose proof (post_warm b a1) as Hw. by rewrite Hpost in Hw.
  - intros Hact. apply Hsame, Hok. rewrite <- Hact. symmetry.
    apply res_bind_Ok in Hpoll as (a1 & Hd & [= <- <-]). unfold on_disconnect in Hd. cbn [withdraw_on_disconnect set_pending coordinator] in Hd.
    destruct (withdraw_on_disconnect a); [|by injection Hd as <-]. destruct (client_position _ _) as [i|]; [|by injection Hd as <-].
    apply res_bind_Ok in Hd as ([o c'] & Ha & [= <-]). cbn.
    destruct (attempt_inv _ _ _ _ (clean_withdraw _) Ha) as [(u & _ & Hrun)|[_ ->]]; [|done]. by eapply withdraw_active.
  - unfold on_tick in Hpoll. apply res_bind_Ok in Hpoll as ([o c] & _ & Hpost).
    pose proof (post_warm true (set_coordinator c (kick_unhealthy_clients a))) as Hw.
    destruct (post_state_change _ _ _) as [a1 sent]. by injection Hpost as <- <-.
  - intros Hact. apply Hsame, Hok. apply res_bind_Ok in Hpoll as (a1 & Hd & [= <- <-]). unfold on_pause in Hd.
    apply res_bind_Ok in Hd as ([o c'] & Ha & [= <-]). cbn in Hact.
    destruct (run_state (coordinator a)) eqn:Hs;
      try (destruct (attempt_inv _ _ _ _ (clean_pause _) Ha) as [(u & _ & Hrun)|[_ ->]]; [by eapply pause_active|done]).
    destruct (attempt_inv _ _ _ _ (clean_resume _) Ha) as [(u & _ & Hrun)|[_ ->]]; [|done].
    by rewrite (resume_active _ _ _ _ Hrun) in Hact.
Qed.

Lemma run_warm es a a' out : run es a = Ok (a', out) → warm_ok a → warm_ok a'.
Proof.
  revert a out. induction es as [|e es IH]; intros a out; cbn [run_app]; [by intros [= <- <-]|].
  intros ([a1 o1] & H1 & ([a2 o2] & H2 & [= <- <-])%res_bind_Ok)%res_bind_Ok Hok.
  eapply IH; [exact H2|]. by eapply poll_warm.
Qed.

(** The warm-up time given on the command line is gone once training has started: from a
    state of the server in which a round or a cooldown has begun, whatever happens, the
    warm-up time is the one of the state file. *)
Theorem warmup_override_ends c ds sd wr init wd es a out es' a' out' :
  run es (app_new c ds sd wr init wd) = Ok (a, out) → active (coordinator a) = true →
  run es' a = Ok (a', out') → warmup_time (config (coordinator a')) = warmup_time (config c).
Proof.
  intros Hrun Hact Hrun'.
  assert (Hok : warm_ok (app_new c ds sd wr init wd)). { unfold warm_ok, app_new. by destruct init. }
  pose proof (run_warm _ _ _ _ Hrun Hok Hact) as Hw. pose proof (run_original _ _ _ _ Hrun) as Ho.
  rewrite (run_restored _ _ _ _ Hrun' Hw), Ho. done.
Qed.

(** The coordinator's invariant, in every state of the server. *)
Theorem server_keeps_invariant c ds sd wr init wd es a out : epoch_wf (epoch_state c) →
  run es (app_new c ds sd wr init wd) = Ok (a, out) → coord_wf (coordinator a).
Proof.
  intros Hwf Hrun. refine (run_respects iter state_hash _ (kept coord_wf) _ _ _ _ (wf_respected _) eq_refl Hrun _).
  unfold app_new. cbn. apply reset_wf in Hwf. destruct init; [|done]. by destruct Hwf as (He & Hr & Hf).
Qed.

(** ** The file of states *)

Definition to_file (o : Output) : option Coordinator := match o with ToFile c => Some c | _ => None end.
Definition files (out : list Output) : list Coordinator := omap to_file out.
(** The hash of the last state in the file, or the one it starts with. *)
Definition file_hash (h : Z) (out : list Output) : Z := from_option state_hash h (last (files out)).

Lemma file_hash_app h o o' : file_hash h (o ++ o') = file_hash (file_hash h o) o'.
Proof.
  unfold file_hash, files. rewrite omap_app, last_app. by destruct (last (omap to_file o')).
Qed.

(** Messages and ticks end by comparing the state with the last one recorded. *)
Definition compares (e : AppEvent) : bool := match e with EvMessage _ _ _ _ | EvTick _ _ => true | _ => false end.

Lemma post_file b a : coordinator_writer a = true →
  let '(a', out) := post_state_change state_hash b a in
  coordinator_writer a' = true ∧ last_coordinator_hash a' = file_hash (last_coordinator_hash a) out ∧
  last_coordinator_hash a' = state_hash (coordinator a').
Proof.
  intros Hw. unfold post_state_change.
  set (a1 := if active (coordinator a) then _ else a).
  assert (Ha1 : coordinator_writer a1 = true ∧ last_coordinator_hash a1 = last_coordinator_hash a).
  { subst a1. by destruct (active _). }
  destruct Ha1 as [Hw1 Hl1]. rewrite Hw1. set (sent := if b then _ else []).
  assert (Hsent : files sent = []) by (subst sent; destruct b; [|done]; by destruct (training_data_server a1)).
  destruct (Z.eqb_spec (state_hash (coordinator a1)) (last_coordinator_hash a1)) as [He|Hne]; cbn [negb andb].
  - split_and!; [done| |done]. unfold file_hash. by rewrite Hsent.
  - split_and!; [done| |done]. unfold file_hash, files in *. by rewrite omap_app, Hsent.
Qed.

Lemma poll_file e a a' out : poll e a = Ok (a', out) → coordinator_writer a = true →
  coordinator_writer a' = true ∧ last_coordinator_hash a' = file_hash (last_coordinator_hash a) out ∧
  (compares e = true → last_coordinator_hash a' = state_hash (coordinator a')).
Proof.
  intros Hpoll Hw. destruct e as [from msg now seed|from|now seed|now]; cbn [poll_next compares] in *.
  - unfold on_client_message in Hpoll. apply res_bind_Ok in Hpoll as ([b a1] & Hmsg & Hpost). injection Hpost as Hpost.
    assert (H1 : coordinator_writer a1 = true ∧ last_coordinator_hash a1 = last_coordinator_hash a).
    { destruct msg; cbn [handle_message] in Hmsg.
      - injection Hmsg as _ <-. by case_bool_decide.
      - by apply res_bind_Ok in Hmsg as ([] & _ & [= _ <-]).
      - by apply res_bind_Ok in Hmsg as ([] & _ & [= _ <-]).
      - by apply res_bind_Ok in Hmsg as ([] & _ & [= _ <-]).
      - destruct (client_position _ _); [|by injection Hmsg as _ <-]. by apply res_bind_Ok in Hmsg as ([] & _ & [= _ <-]). }
    destruct H1 as [Hw1 Hl1]. pose proof (post_file b a1 Hw1) as Hp. rewrite Hpost, Hl1 in Hp. naive_solver.
  - apply res_bind_Ok in Hpoll as (a1 & Hd & [= <- <-]). unfold on_disconnect in Hd. cbn [withdraw_on_disconnect set_pending coordinator] in Hd.
    destruct (withdraw_on_disconnect a); [|by injection Hd as <-]. destruct (client_position _ _) as [i|]; [|by injection Hd as <-].
    by apply res_bind_Ok in Hd as ([] & _ & [= <-]).
  - unfold on_tick in Hpoll. apply res_bind_Ok in Hpoll as ([o c] & _ & Hpost).
    pose proof (post_file true (set_coordinator c (kick_unhealthy_clients a)) Hw) as Hp.
    destruct (post_state_change _ _ _) as [a1 sent]. injection Hpost as <- <-. destruct Hp as (Hw1 & Hl & Hc).
    split_and!; [done| |done]. rewrite Hl, file_hash_app. f_equal. cbn [last_coordinator_hash set_coordinator kick_unhealthy_clients set_pending].
    destruct o as [[|[]]|]; [done| |done..]. by destruct (save_state_dir _).
  - apply res_bind_Ok in Hpoll as (a1 & Hd & [= <- <-]). unfold on_pause in Hd. by apply res_bind_Ok in Hd as ([] & _ & [= <-]).
Qed.

(** The file is up to date after every message and every tick: the last state recorded (or
    none, when its hash is zero) has the hash of the coordinator's state. *)
Theorem file_is_current es e a a' out : run (es ++ [e]) a = Ok (a', out) →
  coordinator_writer a = true → last_coordinator_hash a = 0 → compares e = true →
  match last (files out) with
  | Some c => state_hash c = state_hash (coordinator a')
  | None => state_hash (coordinator a') = 0
  end.
Proof.
  intros Hrun Hw H0 He.
  enough (file_hash (last_coordinator_hash a) out = state_hash (coordinator a')) as Hf.
  { unfold file_hash in Hf. rewrite H0 in Hf. by destruct (last (files out)). }
  clear H0. revert a out Hrun Hw. induction es as [|e1 es IH]; intros a out; cbn [app run_app].
  - intros ([a1 o1] & H1 & [= <- <-])%res_bind_Ok Hw. rewrite app_nil_r.
    destruct (poll_file _ _ _ _ H1 Hw) as (_ & <- & Hc). by apply Hc.
  - intros ([a1 o1] & H1 & ([a2 o2] & H2 & [= <- <-])%res_bind_Ok)%res_bind_Ok Hw.
    destruct (poll_file _ _ _ _ H1 Hw) as (Hw1 & Hl & _). rewrite file_hash_app, <- Hl. by apply IH.
Qed.
End Runs.

(** A client joins, the run warms up for seven seconds instead of thirty, and trains. *)
Module Training.
Definition key : list Z := replicate 32 1.
Definition state_hash (c : Coordinator) : Z := 1 + run_state_start_unix_timestamp c.
Definition server : App := app_new CoordinatorThms.Sample.fresh false false true (Some 7) true.
Definition events : list AppEvent := [EvMessage key (MsgJoin []) 150 0; EvTick 200 1; EvTick 208 2].
End Training.

Lemma warmup_override_ends_witness :
  match @run_app zero_hashes (λ l, l) Training.state_hash unit Training.events Training.server with
  | Ok (a, _) =>
      match @run_app zero_hashes (λ l, l) Training.state_hash unit [EvTick 209 3] a with
      | Ok (a', _) => warmup_time (config (coordinator a')) = 30
      | _ => False
      end
  | _ => False
  end.
Proof.
  destruct (run_app _ _ Training.events _) as [[a out]| |] eqn:Hrun; [|vm_compute in Hrun; discriminate Hrun..].
  assert (Hact : active (coordinator a) = true) by (vm_compute in Hrun; injection Hrun as <- _; reflexivity).
  destruct (run_app _ _ [EvTick 209 3] a) as [[a' out']| |] eqn:Hrun'.
  - exact (@warmup_override_ends zero_hashes (λ l, l) Training.state_hash CoordinatorThms.Sample.fresh
      false false true (Some 7) true Training.events a out [EvTick 209 3] a' out' Hrun Hact Hrun').
  - vm_compute in Hrun. injection Hrun as <- _. vm_compute in Hrun'. discriminate Hrun'.
  - vm_compute in Hrun. injection Hrun as <- _. vm_compute in Hrun'. discriminate Hrun'.
Defined.

Lemma server_keeps_invariant_witness :
  match @run_app zero_hashes (λ l, l) Training.state_hash unit Training.events Training.server with
  | Ok (a, _) => coord_wf (coordinator a) ∧ run_state (coordinator a) = RoundTrain
  | _ => False
  end.
Proof.
  destruct (run_app _ _ _ _) as [[a out]| |] eqn:Hrun; [|vm_compute in Hrun; discriminate Hrun..]. split.
  - exact (@server_keeps_invariant zero_hashes (λ l, l) Training.state_hash CoordinatorThms.Sample.fresh
      false false true (Some 7) true Training.events a out EpochState_zeroed_wf Hrun).
  - vm_compute in Hrun. injection Hrun as <- _. reflexivity.
Defined.

Lemma file_is_current_witness :
  match @run_app zero_hashes (λ l, l) Training.state_hash unit (take 2 Training.events ++ [EvTick 208 2]) Training.server with
  | Ok (a, out) => length (files out) = 3%nat ∧ Training.state_hash <$> last (files out) = Some (Training.state_hash (coordinator a))
  | _ => False
  end.
Proof.
  destruct (run_app _ _ _ _) as [[a out]| |] eqn:Hrun; [|vm_compute in Hrun; discriminate Hrun..].
  assert (Hlen : length (files out) = 3%nat) by (vm_compute in Hrun; injection Hrun as _ <-; reflexivity).
  split; [exact Hlen|].
  pose proof (@file_is_current zero_hashes (λ l, l) Training.state_hash _ _ _ a out Hrun eq_refl eq_refl eq_refl) as Hf.
  destruct (last (files out)) as [c|] eqn:Hl; [cbn; by rewrite Hf|].
  apply last_None in Hl. rewrite Hl in Hlen. discriminate Hlen.
Defined.
