(* ===== verification/CentralMembers.v ===== *)
(** * Who the centralised server admits

    The members of an epoch are clients that asked to join the run and are still connected,
    each once; none of them left the epoch before.  The last part has a price: while the run
    waits, nobody who left can come back, and when they are all there is the run waits
    forever. *)

From stdpp Require Import base tactics list numbers strings.
From S2P Require Import Prelude FixedVec CoreTypes Hashing CoordinatorState Committee Coordinator.
From S2P Require Import CoordinatorInv CoordinatorProps CoordinatorThms Frames CentralServer CentralServerThms.

Open Scope Z_scope.

(** ** Identities of single keys *)

Lemma id_eqb_single k k' : id_eqb (from_single_key k) (from_single_key k') = true ↔ k = k'.
Proof. unfold id_eqb. cbn. by rewrite bool_decide_eq_true. Qed.

Lemma remove_pending_elem i x l : x ∈ remove_pending i l ↔ x ∈ l ∧ id_eqb i x = false.
Proof.
  unfold remove_pending. by rewrite !list_elem_of_In, filter_In, negb_true_iff.
Qed.

(** Filtering keeps the order and the distinctness. *)
Lemma filter_NoDup_fmap {A B} (f : A → B) (P : A → bool) l : NoDup (f <$> l) → NoDup (f <$> List.filter P l).
Proof.
  induction l as [|x l IH]; cbn; [done|]. intros [Hx Hl]%list.NoDup_cons. destruct (P x); [|by apply IH].
  cbn. apply list.NoDup_cons. split; [|by apply IH]. intros (y & Hy & Hin)%list_elem_of_fmap.
  apply Hx. rewrite Hy. apply list_elem_of_fmap_2. by apply list_elem_of_In, filter_In, proj1, list_elem_of_In in Hin.
Qed.

(** ** The clients that asked *)

(** The keys that asked to join the run and have not disconnected since. *)
Definition asked_step (rid : list Z) (l : list (list Z)) (e : AppEvent) : list (list Z) :=
  match e with
  | EvMessage from (MsgJoin r) _ _ => if bool_decide (r = rid) then from :: l else l
  | EvDisconnected from => List.filter (λ k, bool_decide (k ≠ from)) l
  | _ => l
  end.
Definition asked (rid : list Z) (es : list AppEvent) : list (list Z) := foldl (asked_step rid) [] es.

Definition pending_asked (rid : list Z) (l : list (list Z)) (a : App) : Prop :=
  (∀ i, i ∈ pending_clients a → ∃ k, i = from_single_key k ∧ k ∈ l) ∧ NoDup (signer <$> pending_clients a) ∧
  fs_to_bytes (run_id (coordinator a)) = rid.

Section Members.
Context {H : HashFns} (iter : list NodeIdentity → list NodeIdentity) (Hiter : ∀ l, iter l ≡ₚ l) (state_hash : Coordinator → Z).
Notation run := (run_app (E := unit) iter state_hash).
Notation poll := (poll_next (E := unit) iter state_hash).

Lemma post_pending b a : pending_clients (post_state_change state_hash b a).1 = pending_clients a.
Proof. unfold post_state_change. destruct (active _); cbn zeta; by destruct (_ && _). Qed.

(** What an event does to the pending clients. *)
Definition pending_after (e : AppEvent) (a : App) : list NodeIdentity :=
  match e with
  | EvMessage from (MsgJoin r) _ _ =>
      if bool_decide (fs_to_bytes (run_id (coordinator a)) = r)
      then insert_pending (from_single_key from) (pending_clients a) else pending_clients a
  | EvDisconnected from => remove_pending (from_single_key from) (pending_clients a)
  | EvTick _ _ => pending_clients (kick_unhealthy_clients a)
  | _ => pending_clients a
  end.

Lemma poll_pending e a a' out : poll e a = Ok (a', out) → pending_clients a' = pending_after e a.
Proof.
  destruct e as [from msg now seed|from|now seed|now]; cbn [poll_next pending_after].
  - unfold on_client_message. intros ([b a1] & Hmsg & Hpost)%res_bind_Ok. injection Hpost as Hpost.
    pose proof (post_pending b a1) as Hp. rewrite Hpost in Hp. cbn in Hp. rewrite Hp.
    destruct msg; cbn [handle_message] in Hmsg.
    + injection Hmsg as _ <-. by case_bool_decide.
    + by apply res_bind_Ok in Hmsg as ([] & _ & [= _ <-]).
    + by apply res_bind_Ok in Hmsg as ([] & _ & [= _ <-]).
    + by apply res_bind_Ok in Hmsg as ([] & _ & [= _ <-]).
    + destruct (client_position _ _); [|by injection Hmsg as _ <-]. by apply res_bind_Ok in Hmsg as ([] & _ & [= _ <-]).
  - intros (a1 & Hd & [= <- <-])%res_bind_Ok. unfold on_disconnect in Hd. cbn [withdraw_on_disconnect set_pending coordinator] in Hd.
    destruct (withdraw_on_disconnect a); [|by injection Hd as <-]. destruct (client_position _ _) as [i|]; [|by injection Hd as <-].
    by apply res_bind_Ok in Hd as ([] & _ & [= <-]).
  - unfold on_tick. intros ([o c] & _ & Hpost)%res_bind_Ok.
    pose proof (post_pending true (set_coordinator c (kick_unhealthy_clients a))) as Hp.
    destruct (post_state_change _ _ _) as [a1 sent]. injection Hpost as <- <-. exact Hp.
  - intros (a1 & Hd & [= <- <-])%res_bind_Ok. unfold on_pause in Hd. by apply res_bind_Ok in Hd as ([] & _ & [= <-]).
Qed.

(** The clients that are kept after a tick looked at the ones that left. *)
Definition left_epoch (c : Coordinator) (i : NodeIdentity) : Prop :=
  ∃ x, x ∈ exited_clients (epoch_state c) ∧ state x ≠ Healthy ∧ id_eqb (id x) i = true.

Lemma kick_elem a i : i ∈ pending_clients (kick_unhealthy_clients a) ↔ i ∈ pending_clients a ∧ ¬ left_epoch (coordinator a) i.
Proof.
  unfold kick_unhealthy_clients, left_epoch. cbn [pending_clients set_pending].
  generalize (pending_clients a) as l. induction (exited_clients (epoch_state (coordinator a))) as [|x ex IH]; intros l; cbn [foldl].
  { split; [|tauto]. intros Hi. split; [done|]. by intros (y & ?%not_elem_of_nil & _). }
  rewrite IH. case_bool_decide as Hx.
  - split; intros [Hi Hno]; (split; [done|]); intros (y & Hy & Hs & He); apply Hno.
    + apply elem_of_cons in Hy as [->|Hy]; [done|]. by exists y.
    + exists y. by split; [right|].
  - rewrite remove_pending_elem. split.
    + intros [[Hi Hid] Hno]. split; [done|]. intros (y & [->|Hy]%elem_of_cons & Hs & He); [congruence|]. apply Hno. by exists y.
    + intros [Hi Hno]. split; [split; [done|]|].
      * destruct (id_eqb (id x) i) eqn:He; [|done]. destruct Hno. exists x. by split; [left|].
      * intros (y & Hy & Hs & He). apply Hno. exists y. by split; [right|].
Qed.

Lemma kick_NoDup a : NoDup (signer <$> pending_clients a) → NoDup (signer <$> pending_clients (kick_unhealthy_clients a)).
Proof.
  unfold kick_unhealthy_clients. cbn [pending_clients set_pending]. generalize (pending_clients a) as l.
  induction (exited_clients (epoch_state (coordinator a))) as [|x ex IH]; intros l Hl; cbn [foldl]; [done|].
  apply IH. case_bool_decide; [done|]. by apply filter_NoDup_fmap.
Qed.

Lemma poll_asked rid l e a a' out : poll e a = Ok (a', out) → pending_asked rid l a →
  pending_asked rid (asked_step rid l e) a'.
Proof.
  intros Hpoll (Hin & Hnd & Hrid).
  assert (Hrid' : fs_to_bytes (run_id (coordinator a')) = rid).
  { rewrite (run_same_run iter state_hash [e] a a' (out ++ [])); [done|]. cbn [run_app]. by rewrite Hpoll. }
  unfold pending_asked. rewrite (poll_pending _ _ _ _ Hpoll). split_and!; [| |done].
  all: destruct e as [from msg now seed|from|now seed|now]; cbn [pending_after asked_step]; try done.
  - destruct msg as [r| | | |]; [|done..]. rewrite Hrid. case_bool_decide as Hr; [|rewrite bool_decide_false by congruence; done].
    rewrite bool_decide_true by done. unfold insert_pending. destruct (existsb _ _).
    + intros i Hi. destruct (Hin i Hi) as (k & ? & ?). exists k. by split; [|right].
    + intros i [Hi| ->%list_elem_of_singleton]%elem_of_app.
      * destruct (Hin i Hi) as (k & ? & ?). exists k. by split; [|right].
      * exists from. by split; [|left].
  - intros i [Hi He]%remove_pending_elem. destruct (Hin i Hi) as (k & -> & Hk). exists k. split; [done|].
    apply list_elem_of_In, filter_In. split; [by apply list_elem_of_In|]. apply bool_decide_eq_true. intros ->.
    by rewrite (proj2 (id_eqb_single from from) eq_refl) in He.
  - intros i [Hi _]%kick_elem. by apply Hin.
  - destruct msg as [r| | | |]; [|done..]. case_bool_decide; [|done]. unfold insert_pending. destruct (existsb _ _) eqn:He; [done|].
    rewrite fmap_app. apply NoDup_app. split_and!; [done| |apply NoDup_singleton].
    intros x (y & -> & Hy)%list_elem_of_fmap Hx%list_elem_of_singleton. apply not_true_iff_false in He. apply He.
    apply existsb_exists. exists y. split; [by apply list_elem_of_In|]. unfold id_eqb. by apply bool_decide_eq_true.
  - by apply filter_NoDup_fmap.
  - by apply kick_NoDup.
Qed.

Lemma run_asked rid es l a a' out : run es a = Ok (a', out) → pending_asked rid l a →
  pending_asked rid (foldl (asked_step rid) l es) a'.
Proof.
  revert l a out. induction es as [|e es IH]; intros l a out; cbn [run_app foldl]; [by intros [= <- <-]|].
  intros ([a1 o1] & H1 & ([a2 o2] & H2 & [= <- <-])%res_bind_Ok)%res_bind_Ok Hp.
  eapply IH; [exact H2|]. by eapply poll_asked.
Qed.

(** ** Admission *)

(** A tick that leaves the waiting state admits the first of the clients it was given. *)
Lemma waiting_tick l ts seed c t c' : run_state c = WaitingForMembers → tick (Some l) ts seed c = (Ok t, c') →
  c' = c ∨ run_state c' = Warmup ∧ clients (epoch_state c') = Client_new <$> take SOLANA_MAX_NUM_CLIENTS l ∧
    exited_clients (epoch_state c') = [] ∧ init_min_clients (config c) <= as_u16 (zlen l).
Proof.
  intros Hs. unfold tick. rewrite bind_self, Hs. unfold tick_waiting_for_members. intros Hrun. do 3 peel Hrun.
  apply mret_Ok in Hrun as [_ ->]. apply whenM_Ok in Ha0 as [[Hready Hrun]|[_ ->]]; [right|by left].
  destruct (Z.leb_spec (init_min_clients (config c)) (as_u16 (zlen l))) as [Hmin|]; [|by injection Ha as <-].
  do 5 peel Hrun. do 6 peel Hrun. apply change_state_Ok in Hrun as [_ ->]. done.
Qed.

(** The members of an epoch: when a tick of the server leaves the waiting state, the
    members are healthy and distinct, and each is the key of a client that asked to
    join this run, has not disconnected since, and did not leave the last epoch. *)
Theorem members_asked_to_join c ds sd wr init wd es a out now seed a' out' :
  run es (app_new c ds sd wr init wd) = Ok (a, out) → poll (EvTick now seed) a = Ok (a', out') →
  run_state (coordinator a) = WaitingForMembers → run_state (coordinator a') ≠ WaitingForMembers →
  let members := clients (epoch_state (coordinator a')) in
  run_state (coordinator a') = Warmup ∧ NoDup (signer ∘ id <$> members) ∧
  (∀ x, x ∈ members → state x = Healthy ∧ ¬ left_epoch (coordinator a) (id x) ∧
     ∃ k, id x = from_single_key k ∧ k ∈ asked (fs_to_bytes (run_id c)) es).
Proof.
  intros Hrun Hpoll Hwait Hleft.
  assert (Hasked : pending_asked (fs_to_bytes (run_id c)) (asked (fs_to_bytes (run_id c)) es) a).
  { eapply run_asked; [exact Hrun|]. split_and!; [by intros i ?%not_elem_of_nil|constructor|]. by destruct init. }
  destruct Hasked as (Hin & Hnd & _). cbn [poll_next] in Hpoll. unfold on_tick in Hpoll.
  apply res_bind_Ok in Hpoll as ([o c1] & Ha & Hpost).
  destruct (post_state_change _ _ _) as [a1 sent] eqn:Hp. injection Hpost as <- <-.
  assert (Hc1 : run_state (coordinator a1) = run_state c1 ∧ epoch_state (coordinator a1) = epoch_state c1).
  { unfold post_state_change in Hp. cbn [coordinator set_coordinator] in Hp.
    destruct (active c1); cbn zeta in Hp; destruct (_ && _); by injection Hp as <- _. }
  destruct Hc1 as [Hrs He]. rewrite Hrs in Hleft. rewrite Hrs, He.
  destruct (attempt_inv _ _ _ _ (clean_tick _ _ _) Ha) as [(t & _ & Ht)|[_ ->]]; [|done].
  destruct (waiting_tick _ _ _ _ _ _ Hwait Ht) as [->|(Hw & Hcl & _ & _)]; [done|]. cbn zeta. rewrite Hcl.
  set (pending := pending_clients (kick_unhealthy_clients a)) in *. split_and!; [done| |].
  - rewrite <- list_fmap_compose. change (compose (compose signer id) Client_new) with signer.
    apply (sublist_NoDup _ (signer <$> iter pending)); [|apply fmap_sublist, sublist_take].
    rewrite (Hiter pending). by apply kick_NoDup.
  - intros x (i & -> & (j & Hj & _)%elem_of_take)%list_elem_of_fmap. apply list_elem_of_lookup_2 in Hj as Hi. rewrite (Hiter pending) in Hi.
    apply kick_elem in Hi as [Hi Hno]. split_and!; [done..|]. by apply Hin.
Qed.
End Members.

(** ** Those who left cannot come back *)

(** What the calls that a waiting run accepts leave alone. *)
Definition quiet (c c' : Coordinator) : Prop :=
  run_state c' = run_state c ∧ config c' = config c ∧ exited_clients (epoch_state c') = exited_clients (epoch_state c).
#[export] Instance quiet_preorder : PreOrder quiet.
Proof. split; [by intros c|]. intros c1 c2 c3 (E1 & E2 & E3) (F1 & F2 & F3). split_and!; congruence. Qed.

Section Leavers.
Context {H : HashFns} (iter : list NodeIdentity → list NodeIdentity) (Hiter : ∀ l, iter l ≡ₚ l) (state_hash : Coordinator → Z).
Notation run := (run_app (E := unit) iter state_hash).
Notation poll := (poll_next (E := unit) iter state_hash).

Lemma quiet_client i s : respects quiet (set_client_state i s).
Proof. by intros c u c' ->%modify_Ok. Qed.
Lemma quiet_withdraw i : respects quiet (withdraw i).
Proof.
  intros c u c'. unfold withdraw. rewrite bind_self. destruct (znth _ _); [|done]. case_bool_decide; [|done]. apply quiet_client.
Qed.
Lemma quiet_checkpoint from i ck : respects quiet (checkpoint from i ck).
Proof.
  unfold checkpoint. apply respects_bind; [apply _|apply respects_self, _|intros c].
  apply respects_bind; [apply _|apply respects_throw_if, _|intros _].
  destruct (checkpoint_ _), ck; first [apply respects_modify; done|apply respects_ret, _].
Qed.
Lemma quiet_drop_clients ps d : respects quiet (drop_clients ps d).
Proof.
  revert d. induction ps as [|q l IH]; intros d; cbn [drop_clients]; [apply respects_ret, _|].
  apply respects_bind; [apply _| |apply IH]. unfold drop_client. frame_step. apply quiet_client.
Qed.
Lemma quiet_health_check from checks : respects quiet (health_check from checks).
Proof.
  unfold health_check. apply respects_bind; [apply _|apply respects_self, _|intros c].
  apply respects_bind; [apply _|apply respects_throw_if, _|intros _].
  apply respects_bind; [apply _|apply respects_lift, _|intros r].
  apply respects_bind; [apply _|apply respects_throw_if, _|intros _].
  apply respects_bind; [apply _| |intros _; apply quiet_drop_clients].
  apply respects_forM; [apply _|]. intros [i p].
  apply respects_bind; [apply _|apply respects_asks, _|]. intros h. apply respects_throw_if, _.
Qed.

Lemma waiting_witness from w ts c a c' : run_state c = WaitingForMembers → witness from w ts c ≠ (Ok a, c').
Proof. intros Hs Hrun. unfold witness in Hrun. do 3 peel Hrun. by rewrite Hs in Ha0. Qed.
Lemma waiting_warmup_witness from w ts seed c a c' : run_state c = WaitingForMembers → warmup_witness from w ts seed c ≠ (Ok a, c').
Proof.
  intros Hs Hrun. unfold warmup_witness in Hrun. do 2 peel Hrun. rewrite Hs in Hrun. cbn [bool_decide] in Hrun.
  rewrite bool_decide_false in Hrun by done. by peel Hrun.
Qed.

(** Nobody joins but those who left, and nobody pauses the run. *)
Definition only_leavers (c : Coordinator) (e : AppEvent) : Prop :=
  match e with
  | EvMessage from (MsgJoin _) _ _ => left_epoch c (from_single_key from)
  | EvPause _ => False
  | _ => True
  end.

Definition held_back (c : Coordinator) (a : App) : Prop :=
  quiet c (coordinator a) ∧ ∀ i, i ∈ pending_clients a → left_epoch c i.

Lemma quiet_left c c' i : quiet c c' → left_epoch c i ↔ left_epoch c' i.
Proof. intros (_ & _ & He). unfold left_epoch. by rewrite He. Qed.

Lemma post_quiet b a : run_state (coordinator a) = WaitingForMembers →
  coordinator (post_state_change state_hash b a).1 = coordinator a.
Proof. intros Hs. unfold post_state_change, active. rewrite Hs. cbn zeta. by destruct (_ && _). Qed.

Lemma attempt_quiet {A} (m : CM A) c o c' : clean m → respects quiet m → attempt (E := unit) m c = Ok (o, c') → quiet c c'.
Proof.
  intros Hc Hm Ha. destruct (attempt_inv _ _ _ _ Hc Ha) as [(a & _ & Hrun)|[_ ->]]; [by apply (Hm _ _ _ Hrun)|done].
Qed.

Lemma poll_held c e a a' out : run_state c = WaitingForMembers → 1 <= init_min_clients (config c) →
  only_leavers c e → held_back c a → poll e a = Ok (a', out) → held_back c a'.
Proof.
  intros Hs Hmin He [Hq Hp] Hpoll. assert (Hsa : run_state (coordinator a) = WaitingForMembers) by (destruct Hq; congruence).
  split.
  - etrans; [exact Hq|]. destruct e as [from msg now seed|from|now seed|now]; cbn [poll_next] in Hpoll; [| | |done].
    + unfold on_client_message in Hpoll. apply res_bind_Ok in Hpoll as ([b a1] & Hmsg & Hpost). injection Hpost as Hpost.
      assert (Hq1 : quiet (coordinator a) (coordinator a1)).
      { destruct msg as [r|w|w|checks|ck]; cbn [handle_message] in Hmsg.
        - injection Hmsg as _ <-. by case_bool_decide.
        - apply res_bind_Ok in Hmsg as ([o c'] & Ha & [= _ <-]). cbn.
          destruct (attempt_inv _ _ _ _ (clean_witness _ _ _) Ha) as [(u & _ & Hrun)|[_ ->]]; [|done]. by apply waiting_witness in Hrun.
        - apply res_bind_Ok in Hmsg as ([o c'] & Ha & [= _ <-]). cbn.
          destruct (attempt_inv _ _ _ _ (clean_warmup_witness _ _ _ _) Ha) as [(u & _ & Hrun)|[_ ->]]; [|done]. by apply waiting_warmup_witness in Hrun.
        - apply res_bind_Ok in Hmsg as ([o c'] & Ha & [= _ <-]). eapply attempt_quiet; [apply clean_health_check|apply quiet_health_check|done].
        - destruct (client_position _ _); [|by injection Hmsg as _ <-]. apply res_bind_Ok in Hmsg as ([o c'] & Ha & [= _ <-]).
          eapply attempt_quiet; [apply clean_checkpoint|apply quiet_checkpoint|done]. }
      pose proof (post_quiet b a1) as Hpq. rewrite Hpost in Hpq. cbn in Hpq. rewrite Hpq; [done|]. destruct Hq1; congruence.
    + apply res_bind_Ok in Hpoll as (a1 & Hd & [= <- <-]). unfold on_disconnect in Hd. cbn [withdraw_on_disconnect set_pending coordinator] in Hd.
      destruct (withdraw_on_disconnect a); [|by injection Hd as <-]. destruct (client_position _ _) as [i|]; [|by injection Hd as <-].
      apply res_bind_Ok in Hd as ([o c'] & Ha & [= <-]). eapply attempt_quiet; [apply clean_withdraw|apply quiet_withdraw|done].
    + unfold on_tick in Hpoll. apply res_bind_Ok in Hpoll as ([o c1] & Ha & Hpost).
      assert (Hnone : pending_clients (kick_unhealthy_clients a) = []).
      { destruct (pending_clients (kick_unhealthy_clients a)) as [|i l] eqn:Hk; [done|].
        assert (Hi : i ∈ pending_clients (kick_unhealthy_clients a)) by (rewrite Hk; left).
        apply kick_elem in Hi as [Hi Hno]. destruct Hno. rewrite <- (quiet_left c); [by apply Hp|done]. }
      assert (Hc1 : c1 = coordinator a).
      { destruct (attempt_inv _ _ _ _ (clean_tick _ _ _) Ha) as [(t & _ & Ht)|[_ ->]]; [|done].
        rewrite Hnone in Ht. apply waiting_tick in Ht as [->|(_ & _ & _ & Hm)]; [done| |done].
        pose proof (Hiter []) as Hnil. apply Permutation_nil_r in Hnil. rewrite Hnil in Hm.
        destruct Hq as (_ & Hcfg & _). cbn in Hm, Hcfg. rewrite Hcfg in Hm.
        change (as_u16 (zlen [])) with 0 in Hm. lia. }
      subst c1. pose proof (post_quiet true (set_coordinator (coordinator a) (kick_unhealthy_clients a)) Hsa) as Hpq.
      destruct (post_state_change _ _ _) as [a1 sent]. injection Hpost as <- <-. cbn in Hpq. by rewrite Hpq.
  - rewrite (poll_pending iter state_hash _ _ _ _ Hpoll).
    destruct e as [from msg now seed|from|now seed|now]; cbn [pending_after only_leavers] in *; [|..|done].
    + destruct msg as [r| | | |]; [|done..]. case_bool_decide; [|done]. unfold insert_pending. destruct (existsb _ _); [done|].
      intros i [Hi| ->%list_elem_of_singleton]%elem_of_app; [by apply Hp|done].
    + intros i [Hi _]%remove_pending_elem. by apply Hp.
    + intros i [Hi _]%kick_elem. by apply Hp.
Qed.

(** A run that waits for members waits forever when all who ask to join have left the
    epoch before: their requests are dropped at every tick, and what would forget that they
    left is the start of the next epoch. *)
Theorem leavers_cannot_return es a a' out :
  run_state (coordinator a) = WaitingForMembers → 1 <= init_min_clients (config (coordinator a)) →
  (∀ i, i ∈ pending_clients a → left_epoch (coordinator a) i) →
  Forall (only_leavers (coordinator a)) es → run es a = Ok (a', out) →
  run_state (coordinator a') = WaitingForMembers.
Proof.
  intros Hs Hmin Hp Hes Hrun. assert (Hheld : held_back (coordinator a) a) by done.
  enough (held_back (coordinator a) a') as [(Hq & _) _] by (by rewrite Hq).
  generalize dependent out. revert Hheld. generalize a at 2 3 as a1. induction Hes as [|e es He _ IH]; intros a1 Hheld out; cbn [run_app].
  - by intros [= <- <-].
  - intros ([a2 o2] & H1 & ([a3 o3] & H2 & [= <- <-])%res_bind_Ok)%res_bind_Ok.
    eapply IH; [|exact H2]. by eapply poll_held.
Qed.
End Leavers.

(** ** A run with one client *)
Module OneClient.
Import CoordinatorThms.Sample.
Definition key : list Z := replicate 32 1.
Definition server : App := app_new fresh false false false (Some 7) true.
Definition state_hash (c : Coordinator) : Z := run_state_start_unix_timestamp c.
(** It joins, disconnects during the warm-up, and the epoch is abandoned. *)
Definition leaves : list AppEvent :=
  [EvMessage key (MsgJoin []) 150 0; EvTick 200 1; EvDisconnected key; EvTick 205 2].
Definition waiting : App := match @run_app zero_hashes (λ l, l) state_hash unit leaves server with Ok (a, _) => a | _ => server end.
(** It connects again and asks, and time passes. *)
Definition returns : list AppEvent :=
  [EvMessage key (MsgJoin []) 220 0; EvTick 300 3; EvMessage key (MsgJoin []) 310 0; EvTick 1000 4].
Definition trains : list AppEvent :=
  [EvMessage key (MsgJoin []) 150 0; EvTick 200 1; EvTick 208 2].
End OneClient.

Lemma leavers_cannot_return_witness :
  match @run_app zero_hashes (λ l, l) OneClient.state_hash unit OneClient.returns OneClient.waiting with
  | Ok (a, _) => run_state (coordinator a) = WaitingForMembers
  | _ => False
  end.
Proof.
  destruct (run_app _ _ _ _) as [[a out]| |] eqn:Hrun; [|vm_compute in Hrun; discriminate Hrun..].
  assert (Hleft : left_epoch (coordinator OneClient.waiting) (from_single_key OneClient.key)).
  { exists (nth 0 (exited_clients (epoch_state (coordinator OneClient.waiting))) (Client_new (from_single_key []))).
    split; [|split; [vm_compute; congruence|vm_compute; reflexivity]].
    apply list_elem_of_lookup_2 with 0%nat. vm_compute. reflexivity. }
  apply (@leavers_cannot_return zero_hashes (λ l, l) (λ l, Permutation_refl l) OneClient.state_hash OneClient.returns
    OneClient.waiting a out); [vm_compute; reflexivity|vm_compute; congruence| | |exact Hrun].
  - intros i Hi. assert (Hnone : pending_clients OneClient.waiting = []) by (vm_compute; reflexivity).
    rewrite Hnone in Hi. destruct (not_elem_of_nil i Hi).
  - unfold OneClient.returns. apply Forall_cons_2; [exact Hleft|]. apply Forall_cons_2; [exact I|].
    apply Forall_cons_2; [exact Hleft|]. apply Forall_cons_2; [exact I|]. apply Forall_nil_2.
Defined.

Lemma members_asked_to_join_witness :
  match @run_app zero_hashes (λ l, l) OneClient.state_hash unit [EvMessage OneClient.key (MsgJoin []) 150 0] OneClient.server with
  | Ok (a, _) =>
      match @poll_next zero_hashes (λ l, l) OneClient.state_hash unit (EvTick 200 1) a with
      | Ok (a', _) => run_state (coordinator a') = Warmup
      | _ => False
      end
  | _ => False
  end.
Proof.
  destruct (run_app _ _ _ _) as [[a out]| |] eqn:Hrun; [|vm_compute in Hrun; discriminate Hrun..].
  destruct (poll_next _ _ _ a) as [[a' out']| |] eqn:Hpoll.
  - apply (@members_asked_to_join zero_hashes (λ l, l) (λ l, Permutation_refl l) OneClient.state_hash
      CoordinatorThms.Sample.fresh false false false (Some 7) true _ a out 200 1 a' out' Hrun Hpoll).
    + vm_compute in Hrun. injection Hrun as <- _. reflexivity.
    + vm_compute in Hrun. injection Hrun as <- _. vm_compute in Hpoll. injection Hpoll as <- _. discriminate.
  - vm_compute in Hrun. injection Hrun as <- _. vm_compute in Hpoll. discriminate Hpoll.
  - vm_compute in Hrun. injection Hrun as <- _. vm_compute in Hpoll. discriminate Hpoll.
Defined.
