(* ===== verification/CentralFile.v ===== *)
(** * The server's file of states

    The task that the centralised server starts when it records events
    (src/architectures/centralized/server/src/app.rs): a record is a timestamp and the bytes
    of the coordinator, appended whenever the state changed.  A crash may leave part of a
    record at the end; opening the file cuts it off.  What the timeline reads back
    (src/shared/event-sourcing/src/timeline.rs) is every state that was recorded, over any
    number of sessions. *)

From stdpp Require Import base tactics list numbers gmap strings.
From S2P Require Import Prelude CoreTypes Hashing CoordinatorState CoordinatorThms Projection EventStore StableSort Timeline TimelineThms TimelineFollow.

Open Scope Z_scope.

Section File.
Context {H : HashFns} `{Codec} (bytes_of : Coordinator → list Z).

Definition state_record (timestamp : Z) (c : Coordinator) : list Z := to_le_bytes 8 (timestamp mod 2 ^ 64) ++ bytes_of c.

(** [let aligned = len - (len % record_size)], and [set_len] when they differ. *)
Definition open_state_file (file : list Z) : list Z :=
  let aligned := (length file - length file mod COORD_RECORD_SIZE)%nat in
  if (aligned =? length file)%nat then file else take aligned file.

Definition append_record (file : list Z) (r : Z * Coordinator) : list Z := file ++ state_record r.1 r.2.

(** A session writes its states; a crash leaves the beginning of one more record. *)
Record Session := mkSession { recorded : list (Z * Coordinator); torn : list Z }.
Definition state_session (file : list Z) (s : Session) : list Z :=
  foldl append_record (open_state_file file) (recorded s) ++ torn s.

(** What the timeline makes of the states. *)
Fixpoint snapshots {E : Type} (l : list (Z * Coordinator)) : res E (list (Z * CoordinatorStateSnapshot)) :=
  match l with
  | [] => Ok []
  | (t, c) :: l' =>
      let timestamp := default 0 (from_timestamp_millis t) in
      s ← coordinator_to_snapshot timestamp c;
      rest ← snapshots l';
      Ok ((timestamp, s) :: rest)
  end.

Definition i64 (z : Z) : Prop := - 2 ^ 63 <= z < 2 ^ 63.

(** The timestamp fits its type, and the bytes of the state are those it is read from. *)
Definition plain (r : Z * Coordinator) : Prop :=
  i64 r.1 ∧ length (bytes_of r.2) = coordinator_size ∧ coordinator_of_bytes (bytes_of r.2) = r.2.

Lemma state_record_length t c : plain (t, c) → length (state_record t c) = COORD_RECORD_SIZE.
Proof. intros (_ & Hs & _). cbn in Hs. unfold state_record. by rewrite length_app, to_le_bytes_length, Hs. Qed.

Lemma i64_round_trip t : i64 t → i64_from_le_bytes (to_le_bytes 8 (t mod 2 ^ 64)) = t.
Proof.
  intros Ht. unfold i64_from_le_bytes, i64 in *. rewrite from_to_le_bytes.
  2:{ change (256 ^ Z.of_nat 8) with (2 ^ 64). apply Z.mod_pos_bound. lia. }
  destruct (Z.ltb_spec (t mod 2 ^ 64) (2 ^ 63)); destruct (Z.lt_ge_cases t 0).
  - assert (t mod 2 ^ 64 = t + 2 ^ 64) by (symmetry; apply (Z.mod_unique_pos _ _ (-1)); lia). lia.
  - rewrite Z.mod_small in *; lia.
  - assert (t mod 2 ^ 64 = t + 2 ^ 64) by (symmetry; apply (Z.mod_unique_pos _ _ (-1)); lia). lia.
  - rewrite Z.mod_small in *; lia.
Qed.

Lemma decode_one {E : Type} t c : plain (t, c) → decode_coordinator_records (E := E) (state_record t c) = snapshots [(t, c)].
Proof.
  intros Hp. pose proof (state_record_length t c Hp) as Hlen. destruct Hp as (Ht & Hsize & Hbytes). cbn in Ht, Hsize, Hbytes.
  rewrite decode_record by (by rewrite Hlen).
  assert (H8 : length (to_le_bytes 8 (t mod 2 ^ 64)) = 8%nat) by apply to_le_bytes_length.
  rewrite (drop_ge _ COORD_RECORD_SIZE) by (by rewrite Hlen). unfold state_record.
  rewrite take_app_length' by done. rewrite drop_app_length' by done. rewrite take_ge by (by rewrite Hsize).
  by rewrite i64_round_trip, Hbytes.
Qed.

(** A file of whole records, and what was recorded in it. *)
Definition holds (file : list Z) (l : list (Z * Coordinator)) : Prop :=
  ∃ n, length file = (n * COORD_RECORD_SIZE)%nat ∧ ∀ E : Type, decode_coordinator_records (E := E) file = snapshots l.

Lemma snapshots_app {E : Type} l l' :
  snapshots (E := E) (l ++ l') = (rs ← snapshots l; rs' ← snapshots l'; Ok (rs ++ rs')).
Proof.
  induction l as [|[t c] l IH]; cbn [snapshots app].
  - by destruct (snapshots l').
  - destruct (coordinator_to_snapshot _ c) as [s| |]; [|done..]. cbn [mbind res_bind]. rewrite IH.
    destruct (snapshots l) as [rs| |]; [|done..]. cbn [mbind res_bind]. by destruct (snapshots l').
Qed.

Lemma holds_append file l r : holds file l → plain r → holds (append_record file r) (l ++ [r]).
Proof.
  destruct r as [t c]. intros (n & Hlen & Hdec) Ht. exists (S n). split.
  - unfold append_record. rewrite length_app, state_record_length, Hlen by done. lia.
  - intros E. unfold append_record. rewrite (decode_records_app n) by done. rewrite Hdec, decode_one by done.
    by rewrite snapshots_app.
Qed.

(** Opening cuts off the torn record. *)
Lemma open_torn file rest l : holds file l → (length rest < COORD_RECORD_SIZE)%nat → open_state_file (file ++ rest) = file.
Proof.
  intros (n & Hlen & _) Hrest. unfold open_state_file. rewrite length_app, Hlen.
  replace ((n * COORD_RECORD_SIZE + length rest) mod COORD_RECORD_SIZE)%nat with (length rest).
  2:{ rewrite Nat.add_comm, Nat.Div0.mod_add. by rewrite Nat.mod_small. }
  destruct (Nat.eqb_spec (n * COORD_RECORD_SIZE + length rest - length rest) (n * COORD_RECORD_SIZE + length rest)) as [He|Hne].
  - destruct rest; [apply app_nil_r|cbn in He; lia].
  - replace (n * COORD_RECORD_SIZE + length rest - length rest)%nat with (length file) by lia. apply take_app_length.
Qed.

Lemma sessions_hold sessions : Forall (λ s, Forall plain (recorded s) ∧ (length (torn s) < COORD_RECORD_SIZE)%nat) sessions →
  ∃ file rest, foldl state_session [] sessions = file ++ rest ∧ holds file (concat (recorded <$> sessions)) ∧
    (length rest < COORD_RECORD_SIZE)%nat.
Proof.
  induction sessions as [|s sessions IH] using rev_ind; intros Hall.
  - exists [], []. split_and!; [done|by exists 0%nat|]. cbn. unfold COORD_RECORD_SIZE. lia.
  - apply list.Forall_app in Hall as [Hall [[Hts Htorn] _]%list.Forall_cons]. destruct (IH Hall) as (file & rest & Hf & Hh & Hr).
    rewrite foldl_snoc, Hf. unfold state_session. rewrite (open_torn _ _ _ Hh Hr).
    exists (foldl append_record file (recorded s)), (torn s). split_and!; [done| |done].
    rewrite fmap_app, concat_app. cbn [fmap list_fmap concat]. rewrite app_nil_r. revert Hh.
    generalize (concat (recorded <$> sessions)) as l. clear Hf IH. revert file. induction Hts as [|r rs Hr' _ IHr]; intros file l Hh; cbn [foldl].
    + by rewrite app_nil_r.
    + replace (l ++ r :: rs) with ((l ++ [r]) ++ rs) by (by rewrite <- app_assoc). apply IHr. by apply holds_append.
Qed.

(** Every recorded state is read back: whatever the sessions recorded and wherever crashes
    tore the last record, the timeline reads exactly the recorded states, in order. *)
Theorem recorded_states_are_read {E : Type} sessions :
  Forall (λ s, Forall plain (recorded s) ∧ (length (torn s) < COORD_RECORD_SIZE)%nat) sessions →
  decode_coordinator_records (E := E) (foldl state_session [] sessions) = snapshots (concat (recorded <$> sessions)).
Proof.
  intros (file & rest & -> & (n & Hlen & Hdec) & Hr)%sessions_hold. rewrite (decode_records_app n) by done.
  assert (Hrest : decode_coordinator_records (E := E) rest = Ok []).
  { unfold decode_coordinator_records. destruct (length rest) eqn:Hl; [done|]. cbn [records_loop].
    by rewrite Hl, (proj2 (Nat.leb_gt _ _)). }
  rewrite Hrest, Hdec. destruct (snapshots _) as [rs| |]; [|done..]. cbn. by rewrite app_nil_r.
Qed.
End File.

(** Two sessions, the first torn in the middle of a record. *)
Module TwoSessions.
#[local] Instance codec : Codec := {|
  event_of_cobs := λ _, None;
  coordinator_of_bytes := λ _, CoordinatorThms.Sample.fresh;
  coordinator_size := 3;
  from_timestamp_millis := λ t, Some t;
  base58 := λ _, "";
|}.
Definition bytes_of (_ : Coordinator) : list Z := [1; 2; 3].
Definition sessions : list Session :=
  [mkSession [(5, CoordinatorThms.Sample.fresh); (7, CoordinatorThms.Sample.fresh)] [9; 9; 9; 9];
   mkSession [(-1, CoordinatorThms.Sample.fresh)] []].
End TwoSessions.

Lemma recorded_states_are_read_witness :
  length (foldl (@state_session TwoSessions.codec TwoSessions.bytes_of) [] TwoSessions.sessions) = 33%nat ∧
  @decode_coordinator_records zero_hashes TwoSessions.codec unit
    (foldl (@state_session TwoSessions.codec TwoSessions.bytes_of) [] TwoSessions.sessions)
  = @snapshots zero_hashes TwoSessions.codec unit (concat (recorded <$> TwoSessions.sessions)).
Proof.
  split; [vm_compute; reflexivity|].
  apply (@recorded_states_are_read zero_hashes TwoSessions.codec TwoSessions.bytes_of unit TwoSessions.sessions).
  assert (Hp : ∀ t, i64 t → @plain TwoSessions.codec TwoSessions.bytes_of (t, CoordinatorThms.Sample.fresh)).
  { intros t Ht. split; [exact Ht|]. split; reflexivity. }
  apply Forall_cons_2; [split; [|cbn; lia]|apply Forall_cons_2; [split; [|cbn; lia]|apply Forall_nil_2]].
  - apply Forall_cons_2; [apply Hp; split; [discriminate|reflexivity]|].
    apply Forall_cons_2; [apply Hp; split; [discriminate|reflexivity]|apply Forall_nil_2].
  - apply Forall_cons_2; [apply Hp; split; [discriminate|reflexivity]|apply Forall_nil_2].
Defined.
