(* ===== verification/DataProviders.v ===== *)
(** * Data providers

    src/shared/data-provider/src: where the samples of a batch come from.  Files of tokens
    are cut into sequences (http.rs, [sequence_pointers]), which are read from disk
    (local.rs) or over HTTP (http.rs), several at once when they lie side by side;
    preprocessed rows (preprocessed.rs) and zeros (dummy.rs) are the other sources.

    The generator behind the shuffles (rand_chacha), the web and the reader of Parquet
    files are parameters.  Arithmetic is that of a release build on 64 bits.  A file is its
    bytes; listing and mapping files is assumed to succeed. *)

From stdpp Require Import base tactics list numbers strings.
From S2P Require Import Prelude StableSort CoreTypes CoordinatorState Timeline.

Open Scope Z_scope.

(** ** What a provider gives *)

Record TokenizedData := mkTokenizedData {
  input_ids : list Z;
  labels : option (list Z);
  position_ids : option (list Z);
  sequence_lengths : option (list Z);
}.
Definition from_input_ids (ids : list Z) : TokenizedData := mkTokenizedData ids None None None.
Definition TokenizedData_empty : TokenizedData := mkTokenizedData [] None None None.

Inductive DataError :=
| FileTooShort (file : nat)
| NoDataFiles
| OutOfBounds (data_id : Z)
| RequestFailed
| UnexpectedStatus (status : Z)
| UnexpectedLength (got expected : Z)
| TaskPanicked
| NoData
| MissingSamples
| NoInputsColumn
| NotAList
| WrongRowLength (got expected : Z)
| InvalidRow.

(** The traits [TokenizedDataProvider] and [LengthKnownDataProvider]. *)
Record Provider := mkProvider {
  num_sequences : Z;
  get_samples : BatchId → res DataError (list TokenizedData);
}.

(** ** Numbers and slices *)

Definition usize_from (t : TokenSize) : Z := match t with TwoBytes => 2 | FourBytes => 4 end.
(** [u32 as i32]. *)
Definition as_i32 (z : Z) : Z := (z + 2 ^ 31) mod 2 ^ 32 - 2 ^ 31.
(** [&l[a..b]]. *)
Definition slice {E A} (l : list A) (a b : Z) : res E (list A) :=
  if (a <=? b) && (b <=? zlen l) then Ok (take (Z.to_nat (b - a)) (drop (Z.to_nat a) l)) else Panic.
(** [(0..n).step_by(k)], for [k] that is not zero. *)
Definition step_by (n k : Z) : list Z := (λ i, i * k) <$> seqZ 0 ((n + k - 1) / k).

(** The tokens of a byte string: [chunks] of the token's size, each read as a number; the
    conversion of a chunk that is too short is unwrapped. *)
Fixpoint tokens_two {E} (data : list Z) : res E (list Z) :=
  match data with
  | [] => Ok []
  | a :: b :: rest => ts ← tokens_two rest; Ok (from_le_bytes [a; b] :: ts)
  | _ => Panic
  end.
Fixpoint tokens_four {E} (data : list Z) : res E (list Z) :=
  match data with
  | [] => Ok []
  | a :: b :: c :: d :: rest => ts ← tokens_four rest; Ok (as_i32 (from_le_bytes [a; b; c; d]) :: ts)
  | _ => Panic
  end.
Definition tokens_of {E} (t : TokenSize) (data : list Z) : res E (list Z) :=
  match t with TwoBytes => tokens_two data | FourBytes => tokens_four data end.

(** ** Sequences of files *)

(** [SliceRandom::shuffle] with the generator [ChaCha8Rng] started from a seed, and the
    draws of [random_range] it makes: the [n]-th, up to a bound. *)
Class ChaCha := {
  rand_shuffle : ∀ {A : Type}, list Z → list A → list A;
  rand_range : list Z → nat → nat → nat;
}.
Class ChaChaLaws (C : ChaCha) : Prop := {
  rand_shuffle_perm : ∀ {A : Type} seed (l : list A), rand_shuffle seed l ≡ₚ l;
  rand_range_le : ∀ seed n bound, (rand_range seed n bound ≤ bound)%nat;
}.

Record SequencePointer := mkSequencePointer { file_index : nat; byte_offset : Z }.

Definition file_pointers (sequence_bytes sequence_with_label_bytes : Z) (index : nat) (file_size : Z) :
    res DataError (list SequencePointer) :=
  res_throw_if (file_size <? sequence_with_label_bytes) (FileTooShort index) ;;
  res_assert (negb (sequence_bytes =? 0)) ;;
  Ok (mkSequencePointer index <$> step_by (file_size - sequence_with_label_bytes) sequence_bytes).
Fixpoint pointers_from (sequence_bytes sequence_with_label_bytes : Z) (index : nat) (files : list Z) :
    res DataError (list SequencePointer) :=
  match files with
  | [] => Ok []
  | size :: rest =>
      here ← file_pointers sequence_bytes sequence_with_label_bytes index size;
      others ← pointers_from sequence_bytes sequence_with_label_bytes (S index) rest;
      Ok (here ++ others)
  end.

Section Providers.
Context {C : ChaCha}.

Definition sequence_pointers (files : list Z) (t : TokenSize) (num_tokens_per_sequence : Z) (kind : ShuffleKind) :
    res DataError (list SequencePointer) :=
  let token_bytes := usize_from t in
  let sequence_bytes := as_u64 (num_tokens_per_sequence * token_bytes) in
  let sequence_with_label_bytes := as_u64 (sequence_bytes + token_bytes) in
  sequences ← pointers_from sequence_bytes sequence_with_label_bytes 0 files;
  Ok match kind with Seeded seed => rand_shuffle seed sequences | DontShuffle => sequences end.

(** ** Files on disk *)

Record LocalDataProvider := mkLocalDataProvider {
  local_files : list (list Z);
  local_sequences : list SequencePointer;
  local_seq_len : Z;
  local_token_size : TokenSize;
}.

Definition DATA_FILE_EXTENSIONS : list string := ["npy"; "bin"; "ds"].
Definition is_data_file (name : string) : bool :=
  match extension name with Some e => bool_decide (e ∈ DATA_FILE_EXTENSIONS) | None => false end.
Definition path_le (a b : string * list Z) : Prop := String.leb a.1 b.1 = true.
#[local] Instance path_le_dec : RelDecision path_le.
Proof. intros a b. unfold path_le. apply _. Defined.

Definition new_from_directory (dir : list (string * list Z)) (t : TokenSize) (num_tokens_per_sequence : Z)
    (kind : ShuffleKind) : res DataError LocalDataProvider :=
  let files := snd <$> stable_sort path_le (List.filter (λ f, is_data_file f.1) dir) in
  res_throw_if (bool_decide (files = [])) NoDataFiles ;;
  sequences ← sequence_pointers (zlen <$> files) t num_tokens_per_sequence kind;
  Ok (mkLocalDataProvider files sequences num_tokens_per_sequence t).

Definition local_sample (p : LocalDataProvider) (data_id : Z) : res DataError TokenizedData :=
  pointer ← ok_or (znth (local_sequences p) data_id) (OutOfBounds data_id);
  file ← unwrap (local_files p !! file_index pointer);
  let data_len := as_u64 (usize_from (local_token_size p) * local_seq_len p) in
  data ← slice file (byte_offset pointer) (as_u64 (byte_offset pointer + data_len));
  tokens ← tokens_of (local_token_size p) data;
  Ok (from_input_ids tokens).
Definition local_get_samples (p : LocalDataProvider) (data_ids : BatchId) : res DataError (list TokenizedData) :=
  mapM (local_sample p) (batch_iter data_ids).

Definition local_provider (p : LocalDataProvider) : Provider :=
  mkProvider (zlen (local_sequences p)) (local_get_samples p).

(** [LocalDataProviderIter]: what it yields and the index it goes on with. *)
Definition local_next (p : LocalDataProvider) (current_index : Z) : res DataError (option (TokenizedData * Z)) :=
  if current_index <? zlen (local_sequences p) then
    match local_get_samples p (mkClosedInterval current_index current_index) with
    | Ok samples =>
        result ← unwrap (last samples);
        Ok (Some (result, as_u64 (current_index + 1)))
    | _ => Panic
    end
  else Ok None.

(** ** Files on the web *)

Record Response := mkResponse { status : Z; body : list Z }.
(** The answer to a request of the bytes from one offset to another, both included, or
    none when sending or receiving fails. *)
Context (http_get : string → Z → Z → option Response).

Record HttpDataProvider := mkHttpDataProvider {
  file_urls : list string;
  http_sequences : list SequencePointer;
  http_seq_len : Z;
  http_token_size : TokenSize;
}.

Definition http_new (file_urls : list (string * Z)) (t : TokenSize) (num_tokens_per_sequence : Z)
    (kind : ShuffleKind) : res DataError HttpDataProvider :=
  sequences ← sequence_pointers (snd <$> file_urls) t num_tokens_per_sequence kind;
  Ok (mkHttpDataProvider (fst <$> file_urls) sequences num_tokens_per_sequence t).

Definition is_success (status : Z) : bool := (200 <=? status) && (status <? 300).
Definition fetch_data_range (url : string) (from length : Z) : res DataError (list Z) :=
  response ← ok_or (http_get url from (as_u64 (from + length - 1))) RequestFailed;
  res_throw_if (negb (is_success (status response)) && negb (status response =? 206)) (UnexpectedStatus (status response)) ;;
  let received_length := zlen (body response) in
  res_throw_if (negb (received_length =? length)) (UnexpectedLength received_length length) ;;
  Ok (body response).
Definition fetch_tokenized_data_range (url : string) (from length : Z) (t : TokenSize) : res DataError (list Z) :=
  data ← fetch_data_range url from length;
  tokens_of t data.

(** All in one file, each one sequence after the one before; differences wrap. *)
Fixpoint contiguous (sequence_bytes : Z) (l : list SequencePointer) : bool :=
  match l with
  | x :: (y :: _) as l' =>
      (as_u64 (byte_offset y - byte_offset x) =? sequence_bytes) && contiguous sequence_bytes l'
  | _ => true
  end.
Definition is_sequential (sequence_bytes : Z) (first : SequencePointer) (l : list SequencePointer) : bool :=
  forallb (λ x, file_index x =? file_index first)%nat l && contiguous sequence_bytes l.

Definition fetch_together (p : HttpDataProvider) (first : SequencePointer) (count : nat) :
    res DataError (list TokenizedData) :=
  let single_seq_bytes := as_u64 (usize_from (http_token_size p) * http_seq_len p) in
  url ← unwrap (file_urls p !! file_index first);
  all_data ← fetch_tokenized_data_range url (byte_offset first) (as_u64 (single_seq_bytes * Z.of_nat count)) (http_token_size p);
  mapM (λ i,
    let start_idx := as_u64 (Z.of_nat i * http_seq_len p) in
    ids ← slice all_data start_idx (as_u64 (start_idx + http_seq_len p));
    Ok (from_input_ids ids)) (seq 0 count).
(** A task that panics is an error for the one that awaits it. *)
Definition joined {A} (r : res DataError A) : res DataError A := match r with Panic => Err TaskPanicked | _ => r end.
Definition fetch_each (p : HttpDataProvider) (sequences : list SequencePointer) : res DataError (list TokenizedData) :=
  let data_len := as_u64 (usize_from (http_token_size p) * http_seq_len p) in
  tasks ← mapM (λ s, url ← unwrap (file_urls p !! file_index s); Ok (url, byte_offset s)) sequences;
  mapM (λ '(url, offset),
    ids ← joined (fetch_tokenized_data_range url offset data_len (http_token_size p));
    Ok (from_input_ids ids)) tasks.

Definition http_get_samples (p : HttpDataProvider) (data_ids : BatchId) : res DataError (list TokenizedData) :=
  sequences ← mapM (λ data_id, ok_or (znth (http_sequences p) data_id) (OutOfBounds data_id)) (batch_iter data_ids);
  first ← unwrap (head sequences);
  let single_seq_bytes := as_u64 (usize_from (http_token_size p) * http_seq_len p) in
  if is_sequential single_seq_bytes first sequences && (1 <? length sequences)%nat
  then fetch_together p first (length sequences)
  else fetch_each p sequences.

Definition http_provider (p : HttpDataProvider) : Provider :=
  mkProvider (zlen (http_sequences p)) (http_get_samples p).
End Providers.

(** ** Preprocessed rows *)

(** The fields of the Parquet reader. *)
Inductive Field :=
| FBool (x : bool) | FByte (x : Z) | FShort (x : Z) | FInt (x : Z) | FLong (x : Z)
| FUByte (x : Z) | FUShort (x : Z) | FUInt (x : Z) | FULong (x : Z) | FOther.
Definition field_to_int {E} (f : Field) : res E Z :=
  match f with
  | FBool x => Ok (if x then 1 else 0)
  | FByte x | FShort x | FInt x | FUByte x | FUShort x => Ok x
  | FLong x | FUInt x | FULong x => Ok (as_i32 x)
  | FOther => Panic
  end.

(** The columns of a row; none for one that is not a list. *)
Definition Row : Type := list (option (list Field)).
Definition list_to_vec (row : Row) (column : nat) (required_len : option Z) : res DataError (list Z) :=
  cell ← unwrap (row !! column);
  elements ← ok_or cell NotAList;
  ret ← mapM field_to_int elements;
  match required_len with
  | Some n => if zlen ret =? n then Ok ret else Err (WrongRowLength (zlen ret) n)
  | None => Ok ret
  end.
Definition optional_column (row : Row) (column : option nat) (required_len : option Z) :
    res DataError (option (list Z)) :=
  match column with
  | Some c => ids ← list_to_vec row c required_len; Ok (Some ids)
  | None => Ok None
  end.

(** What the reader gives of a data set: where the four columns are, and the rows of its
    files, none for one that cannot be read. *)
Record Columns := mkColumns {
  inputs_column : option nat;
  labels_column : option nat;
  position_ids_column : option nat;
  sequence_lengths_column : option nat;
}.
Definition read_row (cs : Columns) (inputs : nat) (num_tokens_per_sequence : Z) (row : option Row) :
    res DataError TokenizedData :=
  row ← ok_or row InvalidRow;
  ids ← list_to_vec row inputs (Some num_tokens_per_sequence);
  ls ← optional_column row (labels_column cs) (Some num_tokens_per_sequence);
  ps ← optional_column row (position_ids_column cs) (Some num_tokens_per_sequence);
  ss ← optional_column row (sequence_lengths_column cs) None;
  Ok (mkTokenizedData ids ls ps ss).

Definition PreprocessedDataProvider : Type := list TokenizedData.
Definition preprocessed_new {C : ChaCha} (cs : Columns) (rows : list (option Row)) (num_tokens_per_sequence : Z)
    (kind : ShuffleKind) : res DataError PreprocessedDataProvider :=
  inputs ← ok_or (inputs_column cs) NoInputsColumn;
  data ← mapM (read_row cs inputs num_tokens_per_sequence) rows;
  Ok match kind with Seeded seed => rand_shuffle seed data | DontShuffle => data end.

Definition preprocessed_get_samples (data : PreprocessedDataProvider) (data_ids : BatchId) :
    res DataError (list TokenizedData) :=
  let len := zlen data in
  res_throw_if (len =? 0) NoData ;;
  let first := start data_ids mod len in
  let final := end_ data_ids mod len in
  if first <=? final then slice data first (final + 1)
  else
    tail ← slice data first len;
    front ← slice data 0 (final + 1);
    Ok (tail ++ front).
Definition preprocessed_provider (data : PreprocessedDataProvider) : Provider :=
  mkProvider (zlen data) (preprocessed_get_samples data).

(** ** Zeros *)

Record DummyDataProvider := mkDummyDataProvider {
  dummy_seq_len : Z;
  dummy_token_size : TokenSize;
  dummy_num_sequences : Z;
}.
Definition dummy_sample {E} (p : DummyDataProvider) : res E TokenizedData :=
  let data_len := as_u64 (usize_from (dummy_token_size p) * dummy_seq_len p) in
  tokens ← tokens_of (dummy_token_size p) (replicate (Z.to_nat data_len) 0);
  Ok (from_input_ids tokens).
Definition dummy_get_samples (p : DummyDataProvider) (data_ids : BatchId) : res DataError (list TokenizedData) :=
  mapM (λ id, res_throw_if (dummy_num_sequences p <? id) (OutOfBounds id)) (batch_iter data_ids) ;;
  mapM (λ _, dummy_sample p) (seqZ 0 (as_u64 (end_ data_ids - start data_ids + 1))).
Definition dummy_provider (p : DummyDataProvider) : Provider :=
  mkProvider (dummy_num_sequences p) (dummy_get_samples p).
