(* ===== verification/DataProviderThms.v ===== *)
(** * What the data providers give

    The sequences of a set of files lie inside the files with room for one more token, do
    not overlap, and are as many as the sizes say, whatever the shuffle.  Providers are
    proved to be [Indexed]: a batch gives the samples of its ids, in order.  What is read
    over HTTP, in one request or in many, is what is read from disk, also from a server
    that ignores ranges. *)

From stdpp Require Import base tactics list numbers strings.
From S2P Require Import Prelude StableSort CoreTypes CoordinatorState Timeline DataProviders.

Open Scope Z_scope.

(** ** [mapM] over results *)

Section MapM.
Context {E A B : Type} (f : A → res E B).

Lemma mapM_Ok l k : mapM f l = Ok k ↔ Forall2 (λ x y, f x = Ok y) l k.
Proof.
  revert k. induction l as [|x l IH]; intros k; cbn [mapM].
  - split; [by intros [= <-]|by inversion 1].
  - split.
    + intros (y & Hy & (k' & Hk & [= <-])%res_bind_Ok)%res_bind_Ok. constructor; [done|by apply IH].
    + inversion 1 as [|? y ? k' Hy Hk]; subst. rewrite Hy. cbn. apply IH in Hk. by rewrite Hk.
Qed.

Lemma mapM_total (g : A → B) l : (∀ x, x ∈ l → f x = Ok (g x)) → mapM f l = Ok (g <$> l).
Proof.
  intros Hg. apply mapM_Ok. induction l as [|x l IH]; constructor; [apply Hg; left|].
  apply IH. intros y Hy. apply Hg. by right.
Qed.

Lemma mapM_only (g : A → B) l k : (∀ x y, x ∈ l → f x = Ok y → y = g x) → mapM f l = Ok k → k = g <$> l.
Proof.
  intros Hg Hk%mapM_Ok. induction Hk as [|x y l k Hxy _ IH]; [done|]. cbn. f_equal; [apply Hg; [left|done]|].
  apply IH. intros z w Hz. apply Hg. by right.
Qed.

Lemma mapM_length l k : mapM f l = Ok k → length k = length l.
Proof. intros Hk%mapM_Ok. symmetry. by eapply Forall2_length. Qed.
End MapM.

Lemma mapM_ext {E A B} (f g : A → res E B) l : (∀ x, x ∈ l → f x = g x) → mapM f l = mapM g l.
Proof.
  induction l as [|x l IH]; intros Hfg; cbn [mapM]; [done|]. rewrite (Hfg x) by left.
  destruct (g x); cbn; [|done..]. rewrite IH; [done|]. intros y Hy. apply Hfg. by right.
Qed.

Lemma mapM_then {E A B D} (f : A → res E B) (g : B → D) l :
  mapM (λ x, y ← f x; Ok (g y)) l = (ys ← mapM f l; Ok (g <$> ys)).
Proof.
  induction l as [|x l IH]; cbn [mapM]; [done|]. destruct (f x); cbn [mbind res_bind]; [|done..].
  rewrite IH. by destruct (mapM f l).
Qed.

Lemma mapM_over {E A B D} (f : B → res E D) (g : A → B) l : mapM f (g <$> l) = mapM (λ x, f (g x)) l.
Proof. induction l as [|x l IH]; cbn [mapM fmap list_fmap]; [done|]. by rewrite IH. Qed.

(** ** The contract of a provider *)

Class Indexed (p : Provider) (sample : Z → TokenizedData) : Prop :=
  serves : ∀ a b, 0 <= a <= b → b < num_sequences p →
    get_samples p (mkClosedInterval a b) = Ok (sample <$> seqZ a (b - a + 1)).

Lemma batch_iter_elem a b x : x ∈ batch_iter (mkClosedInterval a b) ↔ a <= x <= b.
Proof. unfold batch_iter. cbn. rewrite elem_of_seqZ. lia. Qed.

Lemma znth_range {A} (l : list A) i : 0 <= i < zlen l → ∃ x, znth l i = Some x ∧ x ∈ l.
Proof.
  intros Hi. unfold znth, zlen in *. rewrite (proj2 (Z.ltb_ge _ _)) by lia.
  destruct (lookup_lt_is_Some_2 l (Z.to_nat i)) as [x Hx]; [lia|]. exists x. split; [done|]. by eapply list_elem_of_lookup_2.
Qed.

(** ** Sequences of files *)

Lemma step_by_elem n k x : 0 < k → x ∈ step_by n k ↔ ∃ i, x = i * k ∧ 0 <= i ∧ x < n.
Proof.
  intros Hk. unfold step_by. rewrite list_elem_of_fmap. setoid_rewrite elem_of_seqZ. split.
  - intros (i & -> & Hi). exists i. split_and!; [done|lia|].
    assert (i <= (n + k - 1) / k - 1) by lia. pose proof (Z.mul_div_le (n + k - 1) k Hk). nia.
  - intros (i & -> & Hi & Hlt). exists i. split; [done|]. split; [lia|]. pose proof (Z.div_le_lower_bound (n + k - 1) k (i + 1) Hk). nia.
Qed.

Lemma step_by_NoDup n k : k ≠ 0 → NoDup (step_by n k).
Proof. intros Hk. unfold step_by. apply NoDup_fmap_2_strong; [|apply NoDup_seqZ]. intros x y _ _ E. nia. Qed.

(** A pointer into the files whose sequence and label are inside its file. *)
Definition inside (files : list Z) (sequence_bytes label_bytes : Z) (s : SequencePointer) : Prop :=
  ∃ size i, files !! file_index s = Some size ∧ byte_offset s = i * sequence_bytes ∧ 0 <= i ∧
    byte_offset s + (sequence_bytes + label_bytes) < size.

(** How many sequences a file has: one for every whole sequence after which another token
    and one more byte follow. *)
Definition sequence_count (sequence_bytes label_bytes size : Z) : Z :=
  (size - (sequence_bytes + label_bytes) + sequence_bytes - 1) / sequence_bytes.

Lemma pointers_from_Ok sb lb index files ps : 0 < sb → pointers_from sb (sb + lb) index files = Ok ps →
  (∀ s, s ∈ ps ↔ (index ≤ file_index s)%nat ∧ inside files sb lb (mkSequencePointer (file_index s - index) (byte_offset s))) ∧
  NoDup ps ∧ zlen ps = foldr Z.add 0 (sequence_count sb lb <$> files).
Proof.
  intros Hsb. revert index ps. induction files as [|size files IH]; intros index ps; cbn [pointers_from].
  { intros [= <-]. split_and!; [|constructor|done]. intros s. split; [by intros ?%elem_of_nil|]. by intros (_ & ? & ? & ? & _). }
  intros (here & Hh & (others & Ho & [= <-])%res_bind_Ok)%res_bind_Ok.
  apply IH in Ho as (Helem & Hnd & Hlen). unfold file_pointers in Hh.
  apply res_bind_Ok in Hh as (u & Hshort & Hh). apply res_throw_if_Ok, Z.ltb_ge in Hshort.
  apply res_bind_Ok in Hh as (u' & _ & [= <-]). split_and!.
  - intros s. rewrite elem_of_app, list_elem_of_fmap, Helem. split.
    + intros [(o & -> & Ho)|(Hle & sz & i & Hs & Hin)]; cbn in *.
      * apply step_by_elem in Ho as (i & -> & Hi & Hlt); [|done]. split; [lia|]. exists size, i. rewrite Nat.sub_diag. cbn. split_and!; [done..|lia].
      * split; [lia|]. exists sz, i. cbn. destruct (file_index s - index)%nat as [|j] eqn:Hj; [lia|]. cbn.
        replace (file_index s - S index)%nat with j in Hs by lia. done.
    + intros (Hle & sz & i & Hs & Hoff & Hi & Hlt). cbn in *. destruct (file_index s - index)%nat as [|j] eqn:Hj; cbn in Hs.
      * left. injection Hs as <-. exists (byte_offset s). split; [destruct s; f_equal; cbn in *; lia|].
        apply step_by_elem; [done|]. exists i. split_and!; [done..|lia].
      * right. split; [lia|]. exists sz, i. cbn. by replace (file_index s - S index)%nat with j by lia.
  - apply NoDup_app. split_and!; [| |done].
    + apply NoDup_fmap_2; [|apply step_by_NoDup; lia]. by intros ?? [= ?].
    + intros s (o & -> & _)%list_elem_of_fmap (Hle & _)%Helem. cbn in Hle. lia.
  - cbn. rewrite <- Hlen. unfold zlen. rewrite length_app, length_fmap. unfold step_by. rewrite length_fmap, length_seqZ.
    unfold sequence_count. rewrite Nat2Z.inj_add, Z2Nat.id; [done|]. apply Z.div_pos; lia.
Qed.

Lemma pointers_from_total sb lb index files : 0 < sb → Forall (λ size, sb + lb <= size) files →
  ∃ ps, pointers_from sb (sb + lb) index files = Ok ps.
Proof.
  intros Hsb Hf. revert index. induction Hf as [|size files Hs _ IH]; intros index; cbn [pointers_from]; [by eexists|].
  destruct (IH (S index)) as [ps Hps]. unfold file_pointers.
  rewrite (proj2 (Z.ltb_ge _ _)), (proj2 (Z.eqb_neq _ _)) by lia. cbn. rewrite Hps. by eexists.
Qed.

Section Files.
Context {C : ChaCha} {CL : ChaChaLaws C}.

(** Sizes that fit: at least one token, and a sequence with its label is not longer than
    the largest offset. *)
Definition fits (t : TokenSize) (n : Z) : Prop := 0 < n ∧ (n + 1) * usize_from t <= u64_max.

Lemma usize_from_pos t : 2 <= usize_from t <= 4. Proof. destruct t; cbn; lia. Qed.

Lemma fits_bytes t n : fits t n → as_u64 (n * usize_from t) = n * usize_from t ∧
  as_u64 (as_u64 (n * usize_from t) + usize_from t) = n * usize_from t + usize_from t.
Proof.
  intros [Hn Hfit]. pose proof (usize_from_pos t). unfold as_u64, u64_max in *.
  rewrite (Z.mod_small (n * _)) by nia. split; [done|]. apply Z.mod_small. nia.
Qed.

Lemma sequence_pointers_run files t n kind : fits t n →
  ∃ order : list SequencePointer → list SequencePointer, (∀ l, order l ≡ₚ l) ∧
    sequence_pointers files t n kind =
      (sequences ← pointers_from (n * usize_from t) (n * usize_from t + usize_from t) 0 files; Ok (order sequences)).
Proof.
  intros [Hsb Hlab]%fits_bytes. unfold sequence_pointers. rewrite Hlab, Hsb. destruct kind as [|seed].
  - by exists (λ l, l).
  - exists (rand_shuffle seed). split; [apply rand_shuffle_perm|done].
Qed.

Lemma sequence_pointers_Ok files t n kind ps : fits t n → sequence_pointers files t n kind = Ok ps →
  let sb := n * usize_from t in let lb := usize_from t in
  (∀ s, s ∈ ps ↔ inside files sb lb s) ∧ NoDup ps ∧ zlen ps = foldr Z.add 0 (sequence_count sb lb <$> files).
Proof.
  intros Hfit. pose proof (usize_from_pos t) as Ht. destruct (sequence_pointers_run files t n kind Hfit) as (order & Hperm & ->).
  intros (ps' & Hps & [= <-])%res_bind_Ok. apply pointers_from_Ok in Hps as (Helem & Hnd & Hlen); [|destruct Hfit; nia].
  split; [|split].
  - intros [f o]. rewrite Hperm, Helem. cbn. rewrite Nat.sub_0_r. naive_solver lia.
  - by rewrite Hperm.
  - etrans; [|exact Hlen]. unfold zlen. by rewrite Hperm.
Qed.

(** The sequences of a set of files: none is refused when each holds a sequence and its
    label; they are exactly the places at a multiple of a sequence's length after which the
    sequence, its label and one byte more fit in the file, each once, in any shuffle. *)
Theorem sequences_tile_the_files files t n kind : fits t n →
  let sb := n * usize_from t in let lb := usize_from t in
  (Forall (λ size, sb + lb <= size) files → ∃ ps, sequence_pointers files t n kind = Ok ps) ∧
  (∀ ps, sequence_pointers files t n kind = Ok ps →
     (∀ s, s ∈ ps ↔ inside files sb lb s) ∧ NoDup ps ∧
     zlen ps = foldr Z.add 0 (sequence_count sb lb <$> files)).
Proof.
  intros Hfit sb lb. pose proof (usize_from_pos t) as Ht. split; [|intros ps; by apply sequence_pointers_Ok].
  intros Hf. destruct (pointers_from_total sb lb 0 files) as [ps Hps]; [destruct Hfit; nia|done|].
  destruct (sequence_pointers_run files t n kind Hfit) as (order & _ & ->). fold sb lb. rewrite Hps. by eexists.
Qed.
End Files.

(** ** Tokens *)

Definition chunk_token (t : TokenSize) (chunk : list Z) : Z :=
  match t with TwoBytes => from_le_bytes chunk | FourBytes => as_i32 (from_le_bytes chunk) end.

Lemma tokens_of_chunk {E} t chunk data : zlen chunk = usize_from t →
  tokens_of (E := E) t (chunk ++ data) = (ts ← tokens_of t data; Ok (chunk_token t chunk :: ts)).
Proof.
  unfold zlen. destruct t; cbn [usize_from].
  - destruct chunk as [|a [|b [|]]]; cbn [length]; [lia..|done|lia].
  - destruct chunk as [|a [|b [|c [|d [|]]]]]; cbn [length]; [lia..|done|lia].
Qed.

(** A byte string of whole tokens, chunk by chunk. *)
Inductive whole (t : TokenSize) : list Z → nat → Prop :=
| whole_nil : whole t [] 0
| whole_chunk chunk data k : zlen chunk = usize_from t → whole t data k → whole t (chunk ++ data) (S k).

Lemma whole_length t data (k : nat) : zlen data = Z.of_nat k * usize_from t → whole t data k.
Proof.
  pose proof (usize_from_pos t). revert data. unfold zlen. induction k as [|k IH]; intros data Hlen.
  - destruct data; [constructor|cbn in Hlen; lia].
  - rewrite <- (take_drop (Z.to_nat (usize_from t)) data). constructor.
    + unfold zlen. rewrite length_take. lia.
    + apply IH. rewrite length_drop. lia.
Qed.

Lemma tokens_of_whole {E} t data k : whole t data k → ∃ ts, tokens_of (E := E) t data = Ok ts ∧ length ts = k.
Proof.
  induction 1 as [|chunk data k Hc _ (ts & Hts & Hk)].
  - exists []. by destruct t.
  - rewrite tokens_of_chunk by done. rewrite Hts. eexists. split; [done|]. cbn. by f_equal.
Qed.

Lemma tokens_of_app {E} t d k d' : whole t d k →
  tokens_of (E := E) t (d ++ d') = (ts ← tokens_of t d; ts' ← tokens_of t d'; Ok (ts ++ ts')).
Proof.
  induction 1 as [|chunk d k Hc _ IH]; cbn [app].
  - assert (Hnil : tokens_of (E := E) t [] = Ok []) by (by destruct t). rewrite Hnil. cbn [mbind res_bind]. destruct (tokens_of t d'); reflexivity.
  - rewrite <- app_assoc, (tokens_of_chunk t chunk (d ++ d')), (tokens_of_chunk t chunk d), IH by done. destruct (tokens_of t d); [|reflexivity..]. cbn [mbind res_bind]. destruct (tokens_of t d'); reflexivity.
Qed.

(** ** Reading a sequence *)

Lemma slice_run {E A} (l : list A) a b : a <= b <= zlen l →
  slice (E := E) l a b = Ok (take (Z.to_nat (b - a)) (drop (Z.to_nat a) l)).
Proof. intros Hab. unfold slice. by rewrite (proj2 (Z.leb_le a b)), (proj2 (Z.leb_le b _)) by lia. Qed.

Lemma zlen_cut {A} (l : list A) a n : 0 <= a → 0 <= n → a + n <= zlen l →
  zlen (take (Z.to_nat n) (drop (Z.to_nat a) l)) = n.
Proof. unfold zlen. intros. rewrite length_take, length_drop. lia. Qed.

(** The tokens of [n] words from an offset. *)
Definition tokens_at (t : TokenSize) (n : Z) (file : list Z) (offset : Z) : list Z :=
  match tokens_of (E := DataError) t (take (Z.to_nat (n * usize_from t)) (drop (Z.to_nat offset) file)) with
  | Ok ts => ts
  | _ => []
  end.

Lemma tokens_at_run t n file offset : 0 <= n → 0 <= offset → offset + n * usize_from t <= zlen file →
  tokens_of (E := DataError) t (take (Z.to_nat (n * usize_from t)) (drop (Z.to_nat offset) file)) = Ok (tokens_at t n file offset) ∧
  zlen (tokens_at t n file offset) = n.
Proof.
  intros Hn Ho Hle. pose proof (usize_from_pos t). unfold tokens_at.
  destruct (tokens_of_whole (E := DataError) t (take (Z.to_nat (n * usize_from t)) (drop (Z.to_nat offset) file)) (Z.to_nat n)) as (ts & Hts & Hlen).
  { apply whole_length. rewrite zlen_cut; nia. }
  rewrite Hts. split; [done|]. unfold zlen. lia.
Qed.

(** Where a sequence lies in its file, with room for the label. *)
Definition placed (files : list (list Z)) (t : TokenSize) (n : Z) (s : SequencePointer) : Prop :=
  ∃ file, files !! file_index s = Some file ∧ 0 <= byte_offset s ∧
    byte_offset s + (n + 1) * usize_from t <= zlen file ∧ zlen file <= u64_max.
Definition sample_of (files : list (list Z)) (t : TokenSize) (n : Z) (s : SequencePointer) : TokenizedData :=
  from_input_ids (tokens_at t n (default [] (files !! file_index s)) (byte_offset s)).

Lemma sequences_placed {C : ChaCha} {CL : ChaChaLaws C} files t n kind ps : fits t n →
  Forall (λ f, zlen f <= u64_max) files → sequence_pointers (zlen <$> files) t n kind = Ok ps →
  Forall (placed files t n) ps.
Proof.
  intros Hfit Hf Hps. apply sequence_pointers_Ok in Hps as (Helem & _ & _); [|done].
  apply list.Forall_forall. intros s (size & i & Hs & Ho & Hi & Hlt)%Helem.
  apply list_lookup_fmap_Some in Hs as (file & -> & Hs). exists file. pose proof (usize_from_pos t). destruct Hfit.
  split_and!; [done|nia|lia|]. exact (list.Forall_lookup_1 _ _ _ _ Hf Hs).
Qed.

Definition local_wf (p : LocalDataProvider) : Prop :=
  fits (local_token_size p) (local_seq_len p) ∧
  Forall (placed (local_files p) (local_token_size p) (local_seq_len p)) (local_sequences p).

Lemma local_sample_run p i s : local_wf p → znth (local_sequences p) i = Some s →
  local_sample p i = Ok (sample_of (local_files p) (local_token_size p) (local_seq_len p) s).
Proof.
  intros [Hfit Hps] Hs. unfold local_sample. rewrite Hs. cbn [ok_or mbind res_bind].
  assert (Hin : s ∈ local_sequences p). { unfold znth in Hs. destruct (i <? 0); [done|]. by eapply list_elem_of_lookup_2. }
  eapply list.Forall_forall in Hps as (file & Hf & Ho & Hle & Hmax); [|done].
  pose proof (usize_from_pos (local_token_size p)). destruct (fits_bytes _ _ Hfit) as [Hsb _]. destruct Hfit as [Hn _].
  rewrite Hf. cbn [unwrap mbind res_bind]. rewrite Z.mul_comm, Hsb. unfold as_u64 at 1. rewrite Z.mod_small by (unfold u64_max in *; nia).
  rewrite slice_run by nia. cbn [mbind res_bind]. rewrite Z.add_simpl_l.
  destruct (tokens_at_run (local_token_size p) (local_seq_len p) file (byte_offset s)) as [-> _]; [nia..|]. cbn.
  unfold sample_of. by rewrite Hf.
Qed.

Definition sample_at (files : list (list Z)) (t : TokenSize) (n : Z) (ps : list SequencePointer) (i : Z) : TokenizedData :=
  from_option (sample_of files t n) TokenizedData_empty (znth ps i).

#[global] Instance local_indexed p : local_wf p →
  Indexed (local_provider p) (sample_at (local_files p) (local_token_size p) (local_seq_len p) (local_sequences p)).
Proof.
  intros Hwf a b Hab Hb. cbn in *. unfold local_get_samples, batch_iter. cbn. apply mapM_total.
  intros i Hi%elem_of_seqZ. destruct (znth_range (local_sequences p) i) as (s & Hs & _); [lia|].
  rewrite (local_sample_run _ _ s) by done. unfold sample_at. by rewrite Hs.
Qed.

Lemma mapM_first_error {E A B} (f : A → res E B) l1 x l2 e : (∀ y, y ∈ l1 → ∃ z, f y = Ok z) → f x = Err e →
  mapM f (l1 ++ x :: l2) = Err e.
Proof.
  intros Hok Hx. induction l1 as [|y l1 IH]; cbn [app mapM]; [by rewrite Hx|].
  destruct (Hok y) as [z Hz]; [by left|]. rewrite Hz. cbn. rewrite IH; [done|]. intros w Hw. apply Hok. by right.
Qed.

Lemma znth_none {A} (l : list A) i : zlen l <= i → znth l i = None.
Proof. intros Hi. unfold znth, zlen in *. destruct (i <? 0); [done|]. apply lookup_ge_None. lia. Qed.

Lemma seqZ_split a b c : a <= c <= b → seqZ a (b - a) = seqZ a (c - a) ++ seqZ c (b - c).
Proof. intros H. replace (b - a) with ((c - a) + (b - c)) by lia. rewrite seqZ_app by lia. do 2 f_equal. lia. Qed.

Lemma directory_files {C : ChaCha} dir t n kind p : Forall (λ f, zlen f.2 <= u64_max) dir → new_from_directory dir t n kind = Ok p →
  Forall (λ f, zlen f <= u64_max) (local_files p) ∧ sequence_pointers (zlen <$> local_files p) t n kind = Ok (local_sequences p) ∧
  local_seq_len p = n ∧ local_token_size p = t.
Proof.
  intros Hdir (u & _ & (ps & Hps & [= <-])%res_bind_Ok)%res_bind_Ok. cbn. split; [|done].
  apply list.Forall_forall. intros f (x & -> & Hx)%list_elem_of_fmap. rewrite stable_sort_perm in Hx.
  apply list_elem_of_In, List.filter_In in Hx as [Hx%list_elem_of_In _]. by eapply (proj1 (list.Forall_forall _ _) Hdir).
Qed.

Lemma directory_wf {C : ChaCha} {CL : ChaChaLaws C} dir t n kind p : fits t n → Forall (λ f, zlen f.2 <= u64_max) dir →
  new_from_directory dir t n kind = Ok p → local_wf p ∧ local_seq_len p = n ∧ local_token_size p = t.
Proof.
  intros Hfit Hdir Hnew. destruct (directory_files _ _ _ _ _ Hdir Hnew) as (Hf & Hps & Hn & Ht).
  split; [|done]. unfold local_wf. rewrite Hn, Ht. split; [done|]. by apply (sequences_placed _ _ _ kind).
Qed.

Lemma local_run_dir {C : ChaCha} {CL : ChaChaLaws C} dir t n kind p a b : fits t n →
  Forall (λ f, zlen f.2 <= u64_max) dir → new_from_directory dir t n kind = Ok p → 0 <= a <= b →
  local_get_samples p (mkClosedInterval a b) =
    if b <? zlen (local_sequences p) then Ok (sample_at (local_files p) t n (local_sequences p) <$> seqZ a (b - a + 1))
    else Err (OutOfBounds (Z.max a (zlen (local_sequences p)))).
Proof.
  intros Hfit Hdir Hnew Hab. destruct (directory_wf _ _ _ _ _ Hfit Hdir Hnew) as (Hwf & Hn & Ht).
  destruct (Z.ltb_spec b (zlen (local_sequences p))) as [Hb|Hb].
  { rewrite <- Hn, <- Ht. by apply (local_indexed p Hwf). }
  unfold local_get_samples, batch_iter. cbn [start end_].
  set (c := Z.max a (zlen (local_sequences p))). replace (b - a + 1) with ((b + 1) - a) by lia. rewrite (seqZ_split a (b + 1) c) by lia.
  rewrite (seqZ_cons c) by lia. apply mapM_first_error.
  - intros i Hi%elem_of_seqZ. destruct (znth_range (local_sequences p) i) as (s & Hs & _); [lia|].
    eexists. by apply (local_sample_run p).
  - unfold local_sample. by rewrite znth_none by lia.
Qed.

(** A provider of local files never panics: a batch is answered with the samples of its
    ids, in order, each of as many tokens as a sequence has, or refused for the first id
    beyond the last sequence. *)
Theorem local_serves_batches {C : ChaCha} {CL : ChaChaLaws C} dir t n kind p a b : fits t n →
  Forall (λ f, zlen f.2 <= u64_max) dir → new_from_directory dir t n kind = Ok p → 0 <= a <= b →
  let sample := sample_at (local_files p) t n (local_sequences p) in
  local_get_samples p (mkClosedInterval a b) =
    (if b <? zlen (local_sequences p) then Ok (sample <$> seqZ a (b - a + 1))
     else Err (OutOfBounds (Z.max a (zlen (local_sequences p))))) ∧
  (∀ i, 0 <= i < zlen (local_sequences p) → zlen (input_ids (sample i)) = n).
Proof.
  intros Hfit Hdir Hnew Hab sample. split; [by eapply local_run_dir|]. intros i Hi. unfold sample, sample_at.
  destruct (znth_range (local_sequences p) i Hi) as (s & -> & Hs). cbn.
  destruct (directory_wf _ _ _ _ _ Hfit Hdir Hnew) as ((_ & Hplaced) & Hn & Ht). rewrite Hn, Ht in Hplaced.
  eapply list.Forall_forall in Hplaced as (file & Hfile & Ho & Hle & _); [|done]. rewrite Hfile. cbn.
  pose proof (usize_from_pos t). destruct Hfit. apply tokens_at_run; nia.
Qed.

(** ** Preprocessed rows and zeros *)

Definition row_at (data : PreprocessedDataProvider) (i : Z) : TokenizedData := default TokenizedData_empty (znth data i).

Lemma slice_rows data a b : 0 <= a <= b → b <= zlen data →
  slice (E := DataError) data a b = Ok (row_at data <$> seqZ a (b - a)).
Proof.
  intros Hab Hb. rewrite slice_run by lia. f_equal. apply list_eq. intros i. rewrite list_lookup_fmap. unfold zlen in Hb.
  destruct (decide (i < Z.to_nat (b - a))%nat) as [Hi|Hi].
  - rewrite lookup_take_lt, lookup_drop, lookup_seqZ_lt by lia. cbn. unfold row_at, znth. rewrite (proj2 (Z.ltb_ge _ _)) by lia.
    replace (Z.to_nat (a + Z.of_nat i)) with (Z.to_nat a + i)%nat by lia.
    destruct (lookup_lt_is_Some_2 data (Z.to_nat a + i)) as [x ->]; [lia|done].
  - rewrite lookup_take_ge, lookup_seqZ_ge by lia. done.
Qed.

Lemma rows_shift data a a' n : (∀ i, 0 <= i < n → (a + i) mod zlen data = a' + i) →
  row_at data <$> seqZ a' n = (λ i, row_at data (i mod zlen data)) <$> seqZ a n.
Proof.
  intros Hshift. apply list_eq. intros i. rewrite !list_lookup_fmap. destruct (decide (Z.of_nat i < n)) as [Hi|Hi].
  - rewrite !lookup_seqZ_lt by lia. cbn. by rewrite Hshift by lia.
  - by rewrite !lookup_seqZ_ge by lia.
Qed.

(** Preprocessed rows wrap around: a batch starts at the row of its first id modulo the
    number of rows and has one row for every id up to a full turn; the length of a longer
    batch is taken modulo the number of rows. *)
Theorem preprocessed_wraps data a b : data ≠ [] → 0 <= a <= b →
  preprocessed_get_samples data (mkClosedInterval a b) =
    Ok ((λ i, row_at data (i mod zlen data)) <$> seqZ a ((b - a) mod zlen data + 1)).
Proof.
  intros Hne Hab. assert (Hlen : 0 < zlen data) by (destruct data; unfold zlen; cbn; [done|lia]).
  unfold preprocessed_get_samples. cbn [start end_]. rewrite (proj2 (Z.eqb_neq _ _)) by lia. cbn [res_throw_if mbind res_bind].
  set (len := zlen data) in *. pose proof (Z.mod_pos_bound a len Hlen) as Ha. pose proof (Z.mod_pos_bound b len Hlen) as Hb.
  pose proof (Z.div_mod a len) as Hda. pose proof (Z.div_mod b len) as Hdb.
  set (qa := a / len) in *. set (qb := b / len) in *. destruct (Z.leb_spec (a mod len) (b mod len)) as [Hle|Hgt].
  - assert (Hmod : (b - a) mod len = b mod len - a mod len).
    { symmetry. apply (Z.mod_unique_pos _ _ (qb - qa)); [lia|]. lia. }
    rewrite Hmod, slice_rows by (fold len; lia). f_equal.
    replace (b mod len - a mod len + 1) with (b mod len + 1 - a mod len) by lia. apply rows_shift. intros i Hi. fold len.
    symmetry. apply (Z.mod_unique_pos _ _ qa); lia.
  - assert (Hmod : (b - a) mod len = b mod len - a mod len + len).
    { symmetry. apply (Z.mod_unique_pos _ _ (qb - qa - 1)); [lia|]. lia. }
    rewrite Hmod, !slice_rows by (fold len; lia). cbn [mbind res_bind]. f_equal.
    replace (b mod len - a mod len + len + 1) with ((len - a mod len) + (b mod len + 1)) by lia.
    rewrite seqZ_app, fmap_app by lia. f_equal.
    + apply rows_shift. intros i Hi. fold len. symmetry. apply (Z.mod_unique_pos _ _ qa); lia.
    + replace (b mod len + 1 - 0) with (b mod len + 1) by lia. apply rows_shift. intros i Hi. fold len.
      symmetry. apply (Z.mod_unique_pos _ _ (qa + 1)); lia.
Qed.

#[global] Instance preprocessed_indexed data : Indexed (preprocessed_provider data) (row_at data).
Proof.
  intros a b Hab Hb. cbn in Hb |- *. unfold preprocessed_get_samples. cbn [start end_].
  rewrite (proj2 (Z.eqb_neq _ _)) by lia. cbn [res_throw_if mbind res_bind].
  rewrite !Z.mod_small by lia. rewrite (proj2 (Z.leb_le _ _)) by lia. rewrite slice_rows by lia. do 2 f_equal. f_equal. lia.
Qed.

#[global] Instance dummy_indexed p : fits (dummy_token_size p) (dummy_seq_len p) → dummy_num_sequences p <= u64_max →
  Indexed (dummy_provider p) (λ _, from_input_ids (tokens_at (dummy_token_size p) (dummy_seq_len p)
    (replicate (Z.to_nat (dummy_seq_len p * usize_from (dummy_token_size p))) 0) 0)).
Proof.
  intros Hfit Hmax a b Hab Hb. cbn in Hb |- *. unfold dummy_get_samples. cbn [start end_].
  rewrite (mapM_total _ (λ _, tt)) by (intros i Hi%batch_iter_elem; unfold res_throw_if; by rewrite (proj2 (Z.ltb_ge _ _)) by lia).
  cbn [mbind res_bind]. unfold as_u64. rewrite Z.mod_small by (unfold u64_max in *; lia).
  pose proof (usize_from_pos (dummy_token_size p)). destruct (fits_bytes _ _ Hfit) as [Hsb _]. destruct Hfit as [Hn _].
  set (t := dummy_token_size p) in *. set (n := dummy_seq_len p) in *. set (sample := from_input_ids _).
  assert (Hrun : dummy_sample (E := DataError) p = Ok sample).
  { unfold dummy_sample. fold t n. rewrite Z.mul_comm, Hsb.
    destruct (tokens_at_run t n (replicate (Z.to_nat (n * usize_from t)) 0) 0) as [Htok _]; [lia..|unfold zlen; rewrite length_replicate; nia|].
    rewrite drop_0, take_replicate, Nat.min_id in Htok. by rewrite Htok. }
  rewrite (mapM_total _ (λ _, sample)) by done. f_equal. apply list_eq. intros i. rewrite !list_lookup_fmap.
  destruct (decide (Z.of_nat i < b - a + 1)); [by rewrite !lookup_seqZ_lt by lia|by rewrite !lookup_seqZ_ge by lia].
Qed.

(** ** Two small files *)

Module TwoFiles.
(** A generator whose shuffle turns a list round. *)
Definition turning : ChaCha := {| rand_shuffle := λ A _ l, reverse l; rand_range := λ _ _ bound, bound |}.
Lemma turning_laws : ChaChaLaws turning.
Proof. split; [|done]. intros A seed l. cbn. by rewrite reverse_Permutation. Qed.
Definition content : list Z := seqZ 0 27.
Definition dir : list (string * list Z) := [("b.bin", seqZ 100 20); ("notes.txt", [1]); ("a.bin", content)].
Definition provider : LocalDataProvider :=
  match @new_from_directory turning dir TwoBytes 4 (Seeded []) with Ok p => p | _ => mkLocalDataProvider [] [] 0 TwoBytes end.
Definition seven : list TokenizedData := from_input_ids <$> [[1]; [2]; [3]; [4]; [5]; [6]; [7]].
End TwoFiles.

Lemma sequences_tile_the_files_witness :
  ∃ ps, @sequence_pointers TwoFiles.turning [27; 20] TwoBytes 4 (Seeded []) = Ok ps ∧ zlen ps = 5 ∧
    inside [27; 20] 8 2 (mkSequencePointer 0 16).
Proof.
  destruct (@sequences_tile_the_files TwoFiles.turning TwoFiles.turning_laws [27; 20] TwoBytes 4 (Seeded [])) as [Hok Hall].
  - split; [lia|vm_compute; intros [=]].
  - destruct Hok as [ps Hps]; [apply Forall_cons_2; [cbn; lia|apply Forall_cons_2; [cbn; lia|apply Forall_nil_2]]|].
    destruct (Hall ps Hps) as (Helem & _ & Hlen). exists ps. split; [done|]. split; [exact Hlen|]. apply Helem.
    injection Hps as <-. rewrite list_elem_of_In. vm_compute. tauto.
Defined.

Lemma local_serves_batches_witness :
  fits TwoBytes 4 ∧ @new_from_directory TwoFiles.turning TwoFiles.dir TwoBytes 4 (Seeded []) = Ok TwoFiles.provider ∧
  local_get_samples TwoFiles.provider (mkClosedInterval 1 7) = Err (OutOfBounds 5) ∧
  local_get_samples TwoFiles.provider (mkClosedInterval 2 4) =
    Ok (sample_at (local_files TwoFiles.provider) TwoBytes 4 (local_sequences TwoFiles.provider) <$> [2; 3; 4]).
Proof.
  assert (Hfit : fits TwoBytes 4) by (split; [lia|vm_compute; intros [=]]).
  assert (Hdir : Forall (λ f : string * list Z, zlen f.2 <= u64_max) TwoFiles.dir).
  { repeat (apply Forall_cons_2; [vm_compute; intros [=]|]). apply Forall_nil_2. }
  assert (Hnew : @new_from_directory TwoFiles.turning TwoFiles.dir TwoBytes 4 (Seeded []) = Ok TwoFiles.provider) by (vm_compute; reflexivity).
  split; [done|]. split; [done|].
  pose proof (λ a b, @local_serves_batches TwoFiles.turning TwoFiles.turning_laws _ _ _ _ _ a b Hfit Hdir Hnew) as Hserve.
  destruct (Hserve 1 7) as [H17 _]; [lia|]. destruct (Hserve 2 4) as [H24 _]; [lia|]. split; [exact H17|exact H24].
Defined.

(** Of eight ids in a set of seven rows one is served. *)
Lemma preprocessed_wraps_witness :
  preprocessed_get_samples TwoFiles.seven (mkClosedInterval 5 12) = Ok [from_input_ids [6]] ∧
  preprocessed_get_samples TwoFiles.seven (mkClosedInterval 5 8) = Ok (from_input_ids <$> [[6]; [7]; [1]; [2]]).
Proof.
  split.
  - refine (eq_trans (preprocessed_wraps TwoFiles.seven 5 12 _ _) _); [intros [=]|lia|reflexivity].
  - refine (eq_trans (preprocessed_wraps TwoFiles.seven 5 8 _ _) _); [intros [=]|lia|reflexivity].
Defined.
