(* ===== verification/HttpData.v ===== *)
(** * Reading over HTTP

    http.rs reads neighbouring sequences in one request and cuts the answer up; other
    sequences are requested one by one.  Both give what a local provider of the same files
    gives, and an answer of the wrong length is never taken for data. *)

From stdpp Require Import base tactics list numbers strings.
From S2P Require Import Prelude StableSort CoreTypes CoordinatorState Timeline DataProviders DataProviderThms.

Open Scope Z_scope.

(** ** Cutting one answer into sequences *)

Lemma tokens_at_cut t n count i file offset : 0 <= n → 0 <= i < count → 0 <= offset →
  offset + count * n * usize_from t <= zlen file →
  take (Z.to_nat n) (drop (Z.to_nat (i * n)) (tokens_at t (count * n) file offset)) =
  tokens_at t n file (offset + i * (n * usize_from t)).
Proof.
  intros Hn Hi Ho Hle. pose proof (usize_from_pos t) as Ht. set (tb := usize_from t) in *.
  assert (Hq : 0 <= n * tb) by nia. assert (Hiq : 0 <= i * (n * tb)) by nia.
  assert (Hcq : (i + 1) * (n * tb) <= count * (n * tb)) by (apply Z.mul_le_mono_nonneg_r; lia).
  destruct (tokens_at_run t (count * n) file offset) as [Hall Hlen]; [fold tb; nia..|].
  destruct (tokens_at_run t (i * n) file offset) as [H1 Hl1]; [fold tb; nia..|].
  destruct (tokens_at_run t n file (offset + i * (n * tb))) as [H2 Hl2]; [fold tb; nia..|].
  destruct (tokens_at_run t ((count - i - 1) * n) file (offset + (i + 1) * (n * tb))) as [H3 Hl3]; [fold tb; nia..|].
  fold tb in Hall, H1, H2, H3.
  assert (Hdata : take (Z.to_nat (count * n * tb)) (drop (Z.to_nat offset) file) =
    take (Z.to_nat (i * n * tb)) (drop (Z.to_nat offset) file) ++
    take (Z.to_nat (n * tb)) (drop (Z.to_nat (offset + i * (n * tb))) file) ++
    take (Z.to_nat ((count - i - 1) * n * tb)) (drop (Z.to_nat (offset + (i + 1) * (n * tb))) file)).
  { replace (Z.to_nat (offset + (i + 1) * (n * tb))) with (Z.to_nat (offset + i * (n * tb)) + Z.to_nat (n * tb))%nat by nia.
    rewrite <- drop_drop, take_take_drop.
    replace (Z.to_nat (offset + i * (n * tb))) with (Z.to_nat offset + Z.to_nat (i * n * tb))%nat by nia.
    rewrite <- drop_drop, take_take_drop. f_equal. nia. }
  rewrite Hdata in Hall.
  rewrite (tokens_of_app t _ (Z.to_nat (i * n))) in Hall by (apply whole_length; rewrite zlen_cut; nia).
  rewrite (tokens_of_app t _ (Z.to_nat n)) in Hall by (apply whole_length; rewrite zlen_cut; nia).
  rewrite H1, H2, H3 in Hall. cbn in Hall. injection Hall as Hall. rewrite <- Hall. unfold zlen in *.
  rewrite drop_app_length' by lia. by rewrite take_app_length' by lia.
Qed.

(** Offsets that each follow the one before by a sequence. *)
Lemma contiguous_offsets sb x l : 0 <= sb → Forall (λ s, 0 <= byte_offset s ∧ byte_offset s + sb <= u64_max) (x :: l) →
  contiguous sb (x :: l) = true → ∀ i s, (x :: l) !! i = Some s → byte_offset s = byte_offset x + Z.of_nat i * sb.
Proof.
  intros Hsb. revert x. induction l as [|y l IH]; intros x Hb Hc i s Hs.
  - destruct i as [|i]; [|done]. injection Hs as <-. lia.
  - apply list.Forall_cons in Hb as [Hx Hb]. cbn [contiguous] in Hc. apply andb_true_iff in Hc as [Hxy%Z.eqb_eq Hc].
    apply list.Forall_cons in Hb as Hy. destruct Hy as [Hy _]. destruct i as [|i]; [injection Hs as <-; lia|].
    rewrite (IH y Hb Hc i s Hs). unfold as_u64, u64_max in *.
    assert (byte_offset y = byte_offset x + sb); [|lia].
    destruct (Z.le_gt_cases (byte_offset x) (byte_offset y)); [rewrite Z.mod_small in Hxy; lia|].
    rewrite <- (Z_mod_plus_full _ 1), Z.mod_small in Hxy; lia.
Qed.

(** ** Requests *)

Section Web.
Context {C : ChaCha} {CL : ChaChaLaws C}.
Context (http_get : string → Z → Z → option Response) (files : list (string * list Z)).

(** What a web server may do with a request of a range: fail, send the range, or ignore
    the header and send the whole file. *)
Definition honest : Prop := ∀ url content a b r, (url, content) ∈ files → http_get url a b = Some r →
  is_success (status r) = true →
  body r = take (Z.to_nat (b - a + 1)) (drop (Z.to_nat a) content) ∨ body r = content.
(** One that always sends the range. *)
Definition prompt : Prop := ∀ url content a b, (url, content) ∈ files → 0 <= a <= b → b < zlen content →
  http_get url a b = Some (mkResponse 206 (take (Z.to_nat (b - a + 1)) (drop (Z.to_nat a) content))).

Section Range.
Context (url : string) (content : list Z) (offset k : Z) (t : TokenSize).
Hypothesis Hurl : (url, content) ∈ files.
Hypothesis Hk : 0 < k.
Hypothesis Hoffset : 0 <= offset.
Hypothesis Hroom : offset + (k + 1) * usize_from t <= zlen content.
Hypothesis Hmax : zlen content <= u64_max.

Lemma range_end : as_u64 (offset + k * usize_from t - 1) = offset + k * usize_from t - 1.
Proof. pose proof (usize_from_pos t). apply Z.mod_small. unfold u64_max in *. nia. Qed.

Lemma fetch_honest ts : honest → fetch_tokenized_data_range http_get url offset (k * usize_from t) t = Ok ts →
  ts = tokens_at t k content offset.
Proof.
  pose proof (usize_from_pos t) as Ht. intros Hh (data & Hd & Hts)%res_bind_Ok. unfold fetch_data_range in Hd. rewrite range_end in Hd.
  apply res_bind_Ok in Hd as (r & Hr%ok_or_Ok & Hd). apply res_bind_Ok in Hd as (u & Hst%res_throw_if_Ok & Hd).
  apply res_bind_Ok in Hd as (u' & Hlen%res_throw_if_Ok & [= <-]). apply negb_false_iff, Z.eqb_eq in Hlen.
  assert (Hs : is_success (status r) = true).
  { apply andb_false_iff in Hst as [Hst|Hst]; apply negb_false_iff in Hst; [done|]. apply Z.eqb_eq in Hst. by rewrite Hst. }
  destruct (Hh _ _ _ _ _ Hurl Hr Hs) as [Hb|Hb]; [|exfalso; rewrite Hb in Hlen; nia].
  rewrite Hb in Hts. replace (offset + k * usize_from t - 1 - offset + 1) with (k * usize_from t) in Hts by lia.
  destruct (tokens_at_run t k content offset) as [Hrun _]; [nia..|]. unfold tokens_at. rewrite Hrun in Hts |- *. by injection Hts as <-.
Qed.

Lemma fetch_prompt : prompt → fetch_tokenized_data_range http_get url offset (k * usize_from t) t = Ok (tokens_at t k content offset).
Proof.
  pose proof (usize_from_pos t) as Ht. intros Hp. unfold fetch_tokenized_data_range, fetch_data_range. rewrite range_end.
  rewrite (Hp _ _ _ _ Hurl) by nia. cbn -[usize_from]. replace (offset + k * usize_from t - 1 - offset + 1) with (k * usize_from t) by lia.
  rewrite zlen_cut by nia. rewrite Z.eqb_refl. cbn -[usize_from]. apply tokens_at_run; nia.
Qed.
End Range.

(** ** Samples *)

Section Samples.
Context (t : TokenSize) (n : Z) (ps : list SequencePointer).
Hypothesis Hfit : fits t n.
Let contents : list (list Z) := snd <$> files.
Let h : HttpDataProvider := mkHttpDataProvider (fst <$> files) ps n t.

Lemma placed_url s : placed contents t n s → ∃ url content, files !! file_index s = Some (url, content) ∧
  (url, content) ∈ files ∧ file_urls h !! file_index s = Some url ∧ 0 <= byte_offset s ∧
  byte_offset s + (n + 1) * usize_from t <= zlen content ∧ zlen content <= u64_max ∧
  sample_of contents t n s = from_input_ids (tokens_at t n content (byte_offset s)).
Proof.
  intros (c & Hc & Ho & Hle & Hmax). unfold contents, sample_of in *. apply list_lookup_fmap_Some in Hc as ([url content] & -> & Hf).
  exists url, content. cbn. rewrite !list_lookup_fmap, Hf. cbn. split_and!; try done. by eapply list_elem_of_lookup_2.
Qed.

Definition url_of (s : SequencePointer) : string := default "" (fst <$> files !! file_index s).

Lemma fetch_each_run ss : Forall (placed contents t n) ss → fetch_each http_get h ss =
  mapM (λ s, ids ← joined (fetch_tokenized_data_range http_get (url_of s) (byte_offset s) (n * usize_from t) t); Ok (from_input_ids ids)) ss.
Proof.
  intros Hss. unfold fetch_each. cbn [http_token_size http_seq_len h]. destruct (fits_bytes _ _ Hfit) as [Hsb _].
  rewrite Z.mul_comm, Hsb. rewrite (mapM_total _ (λ s, (url_of s, byte_offset s))).
  - cbn [mbind res_bind]. by rewrite mapM_over.
  - intros s Hs. eapply list.Forall_forall in Hss as (url & content & Hf & _ & Hu & _)%placed_url; [|done].
    rewrite Hu. unfold url_of. by rewrite Hf.
Qed.

Lemma fetch_each_honest ss r : Forall (placed contents t n) ss → honest → fetch_each http_get h ss = Ok r →
  r = sample_of contents t n <$> ss.
Proof.
  intros Hss Hh. rewrite fetch_each_run by done. apply mapM_only. intros s y Hs (ids & Hids & [= <-])%res_bind_Ok.
  eapply list.Forall_forall in Hss as (url & content & Hf & Hin & _ & Ho & Hle & Hmax & ->)%placed_url; [|done].
  f_equal. eapply fetch_honest; [done|apply Hfit|done..|]. unfold url_of in Hids. rewrite Hf in Hids. cbn in Hids.
  by destruct (fetch_tokenized_data_range _ _ _ _ _).
Qed.

Lemma fetch_each_prompt ss : Forall (placed contents t n) ss → prompt →
  fetch_each http_get h ss = Ok (sample_of contents t n <$> ss).
Proof.
  intros Hss Hp. rewrite fetch_each_run by done. apply mapM_total. intros s Hs.
  eapply list.Forall_forall in Hss as (url & content & Hf & Hin & _ & Ho & Hle & Hmax & ->)%placed_url; [|done].
  unfold url_of. rewrite Hf. cbn [fmap option_fmap option_map default fst]. by rewrite (fetch_prompt url content) by first [done|apply Hfit].
Qed.

(** The sequences of one request. *)
Lemma together_places x l : Forall (placed contents t n) (x :: l) → is_sequential (n * usize_from t) x (x :: l) = true →
  ∃ url content, (url, content) ∈ files ∧ file_urls h !! file_index x = Some url ∧ zlen content <= u64_max ∧
    0 <= byte_offset x ∧ byte_offset x + (zlen (x :: l) * n + 1) * usize_from t <= zlen content ∧
    sample_of contents t n <$> (x :: l) =
      (λ i, from_input_ids (tokens_at t n content (byte_offset x + Z.of_nat i * (n * usize_from t)))) <$> seq 0 (length (x :: l)).
Proof.
  intros Hall [Hsame Hcont]%andb_true_iff. pose proof (usize_from_pos t) as Ht. destruct Hfit as [Hn _].
  assert (Hx : placed contents t n x) by (by apply list.Forall_cons in Hall as [? _]).
  apply placed_url in Hx as (url & content & Hf & Hin & Hu & Ho & _ & Hmax & _).
  assert (Hsame' : ∀ s, s ∈ x :: l → file_index s = file_index x).
  { intros s Hs. apply Nat.eqb_eq. by apply (proj1 (forallb_forall _ _) Hsame), list_elem_of_In. }
  assert (Hat : ∀ s, s ∈ x :: l → byte_offset s + (n + 1) * usize_from t <= zlen content ∧ 0 <= byte_offset s ∧
            sample_of contents t n s = from_input_ids (tokens_at t n content (byte_offset s))).
  { intros s Hs. eapply list.Forall_forall in Hall as (url' & content' & Hf' & _ & _ & Ho' & Hle' & _ & Hs')%placed_url; [|done].
    rewrite (Hsame' s Hs), Hf in Hf'. injection Hf' as <- <-. done. }
  assert (Hoff : ∀ i s, (x :: l) !! i = Some s → byte_offset s = byte_offset x + Z.of_nat i * (n * usize_from t)).
  { apply contiguous_offsets; [nia| |done]. apply list.Forall_forall. intros s (Hle & Hs & _)%Hat. unfold u64_max in *. nia. }
  exists url, content. split_and!; try done.
  - destruct (lookup_lt_is_Some_2 (x :: l) (length l)) as [s Hs]; [cbn; lia|]. replace (zlen (x :: l)) with (Z.of_nat (length l) + 1) by (unfold zlen; cbn; lia).
    apply list_elem_of_lookup_2 in Hs as Hs'. destruct (Hat s Hs') as (Hle & _ & _). rewrite (Hoff _ _ Hs) in Hle. nia.
  - apply list_eq. intros i. rewrite !list_lookup_fmap. destruct ((x :: l) !! i) as [s|] eqn:Hs.
    + rewrite lookup_seq_lt by (by eapply lookup_lt_Some). cbn [fmap option_fmap option_map Nat.add]. f_equal.
      rewrite <- (Hoff _ _ Hs). apply Hat. by eapply list_elem_of_lookup_2.
    + rewrite lookup_seq_ge; [done|]. by apply lookup_ge_None.
Qed.

Lemma cut_samples (count : nat) content offset : 0 <= offset → (0 < count)%nat → zlen content <= u64_max →
  offset + (Z.of_nat count * n + 1) * usize_from t <= zlen content →
  mapM (M := res DataError) (λ i : nat,
    let start_idx := as_u64 (Z.of_nat i * n) in
    ids ← slice (tokens_at t (Z.of_nat count * n) content offset) start_idx (as_u64 (start_idx + n));
    Ok (from_input_ids ids)) (seq 0 count) =
  Ok ((λ i, from_input_ids (tokens_at t n content (offset + Z.of_nat i * (n * usize_from t)))) <$> seq 0 count).
Proof.
  pose proof (usize_from_pos t) as Ht. destruct Hfit as [Hn _]. intros Ho Hc Hmax Hle.
  destruct (tokens_at_run t (Z.of_nat count * n) content offset) as [_ Hlen]; [nia..|].
  apply mapM_total. intros i Hi%elem_of_seq.
  assert ((Z.of_nat i + 1) * n <= Z.of_nat count * n) by nia. assert (Z.of_nat count * n <= u64_max) by nia.
  unfold as_u64. rewrite (Z.mod_small (_ * n)) by (unfold u64_max in *; nia).
  rewrite Z.mod_small by (unfold u64_max in *; nia). rewrite slice_run by nia. cbn [mbind res_bind].
  rewrite Z.add_simpl_l, tokens_at_cut by nia. done.
Qed.

Lemma fetch_together_run x l : Forall (placed contents t n) (x :: l) → is_sequential (n * usize_from t) x (x :: l) = true →
  (honest → ∀ r, fetch_together http_get h x (length (x :: l)) = Ok r → r = sample_of contents t n <$> (x :: l)) ∧
  (prompt → fetch_together http_get h x (length (x :: l)) = Ok (sample_of contents t n <$> (x :: l))).
Proof.
  intros Hall Hseq. destruct (together_places x l Hall Hseq) as (url & content & Hin & Hu & Hmax & Ho & Hle & ->).
  pose proof (usize_from_pos t) as Ht. unfold zlen in Hle. set (count := length (x :: l)) in *.
  assert (Hc : (0 < count)%nat) by (cbn; lia). assert (Hk : 0 < Z.of_nat count * n) by (destruct Hfit; nia).
  pose proof (cut_samples count content (byte_offset x) Ho Hc Hmax Hle) as Hcut.
  unfold fetch_together. rewrite Hu. cbn [unwrap mbind res_bind http_token_size http_seq_len h].
  destruct (fits_bytes _ _ Hfit) as [Hsb _]. rewrite (Z.mul_comm (usize_from t) n), Hsb.
  assert (Hlen : as_u64 (n * usize_from t * Z.of_nat count) = Z.of_nat count * n * usize_from t).
  { replace (n * usize_from t * Z.of_nat count) with (Z.of_nat count * n * usize_from t) by ring.
    apply Z.mod_small. unfold u64_max, zlen in Hmax. nia. }
  rewrite Hlen. split.
  - intros Hh r (ts & Hts & Hr)%res_bind_Ok. apply (fetch_honest url content) in Hts; [|done..]. subst ts.
    pose proof (eq_trans (eq_sym Hcut) Hr) as Heq. by injection Heq.
  - intros Hp. rewrite (fetch_prompt url content) by done. exact Hcut.
Qed.

Lemma local_run ids : Forall (placed contents t n) ps → local_get_samples (mkLocalDataProvider contents ps n t) ids =
  (ss ← mapM (λ data_id, ok_or (znth ps data_id) (OutOfBounds data_id)) (batch_iter ids); Ok (sample_of contents t n <$> ss)).
Proof.
  intros Hps. set (l := mkLocalDataProvider contents ps n t). assert (Hwf : local_wf l) by done.
  rewrite <- mapM_then. apply mapM_ext. intros i _. destruct (znth ps i) as [s|] eqn:Hs.
  - by apply (local_sample_run l).
  - unfold local_sample. cbn. by rewrite Hs.
Qed.
End Samples.

(** C29: What is read over HTTP is what is read from disk: for the same files, cut and shuffled
    the same way, whatever an honest server sends, samples that are returned are the ones
    the local provider returns; and when the server sends the ranges, the two return the
    same, errors included. *)
Theorem http_reads_the_files t n kind h ids : fits t n → Forall (λ f, zlen f.2 <= u64_max) files →
  http_new ((λ f, (f.1, zlen f.2)) <$> files) t n kind = Ok h → start ids <= end_ ids →
  let local := mkLocalDataProvider (snd <$> files) (http_sequences h) n t in
  (honest → ∀ samples, http_get_samples http_get h ids = Ok samples → local_get_samples local ids = Ok samples) ∧
  (prompt → http_get_samples http_get h ids = local_get_samples local ids).
Proof.
  intros Hfit Hf (ps & Hps & [= <-])%res_bind_Ok Hids local. cbn [http_sequences] in local.
  rewrite <- list_fmap_compose in Hps.
  assert (Hplaced : Forall (placed (snd <$> files) t n) ps).
  { eapply sequences_placed; [done| |by rewrite <- list_fmap_compose]. by apply list.Forall_fmap. }
  assert (Hurls : ((λ f : string * list Z, (f.1, zlen f.2)) <$> files).*1 = files.*1) by (by rewrite <- list_fmap_compose).
  rewrite Hurls. clear Hurls. unfold local. rewrite (local_run t n ps Hfit ids Hplaced). unfold http_get_samples. cbn [http_sequences].
  destruct (mapM _ (batch_iter ids)) as [ss|e|] eqn:Hss; cbn [mbind res_bind]; [|by split..].
  assert (Hall : Forall (placed (snd <$> files) t n) ss).
  { apply mapM_Ok in Hss. apply list.Forall_forall. intros s Hs. apply list_elem_of_lookup in Hs as [i Hi].
    destruct (Forall2_lookup_r _ _ _ _ _ Hss Hi) as (d & _ & Hd%ok_or_Ok). unfold znth in Hd. destruct (d <? 0); [done|].
    exact (list.Forall_lookup_1 _ _ _ _ Hplaced Hd). }
  destruct ss as [|x l].
  { apply mapM_length in Hss. unfold batch_iter in Hss. rewrite length_seqZ in Hss. cbn in Hss. lia. }
  cbn [head unwrap mbind res_bind http_token_size http_seq_len]. destruct (fits_bytes _ _ Hfit) as [Hsb _].
  rewrite Z.mul_comm, Hsb. destruct (is_sequential _ _ _ && _) eqn:Hseq.
  - apply andb_true_iff in Hseq as [Hseq _]. fold (length (x :: l)).
    destruct (fetch_together_run t n ps Hfit x l Hall Hseq) as [Hh Hp]. split; [|done].
    intros Hhon samples Hsam. by rewrite (Hh Hhon _ Hsam).
  - split; [|by apply fetch_each_prompt]. intros Hhon samples Hsam. by rewrite (fetch_each_honest t n ps Hfit _ _ Hall Hhon Hsam).
Qed.
End Web.

(** ** A server that sends the ranges *)

Module SmallWeb.
Definition files : list (string * list Z) := [("a", seqZ 0 27); ("b", seqZ 100 20)].
Definition http_get (url : string) (a b : Z) : option Response :=
  match list_find (λ f, f.1 = url) files with
  | Some (_, (_, content)) => Some (mkResponse 206 (take (Z.to_nat (b - a + 1)) (drop (Z.to_nat a) content)))
  | None => None
  end.
Lemma sends_ranges : prompt http_get files.
Proof. intros url content a b [[= -> ->]|[[= -> ->]|[]%elem_of_nil]%elem_of_cons]%elem_of_cons _ _; reflexivity. Qed.
Definition provider : HttpDataProvider :=
  match @http_new TwoFiles.turning ((λ f, (f.1, zlen f.2)) <$> files) TwoBytes 4 DontShuffle with
  | Ok p => p
  | _ => mkHttpDataProvider [] [] 0 TwoBytes
  end.
End SmallWeb.

Lemma http_reads_the_files_witness :
  fits TwoBytes 4 ∧ prompt SmallWeb.http_get SmallWeb.files ∧
  http_get_samples SmallWeb.http_get SmallWeb.provider (mkClosedInterval 0 2) =
    local_get_samples (mkLocalDataProvider (snd <$> SmallWeb.files) (http_sequences SmallWeb.provider) 4 TwoBytes) (mkClosedInterval 0 2) ∧
  http_get_samples SmallWeb.http_get SmallWeb.provider (mkClosedInterval 2 9) = Err (OutOfBounds 5).
Proof.
  assert (Hfit : fits TwoBytes 4) by (split; [lia|vm_compute; intros [=]]).
  assert (Hf : Forall (λ f : string * list Z, zlen f.2 <= u64_max) SmallWeb.files).
  { repeat (apply Forall_cons_2; [vm_compute; intros [=]|]). apply Forall_nil_2. }
  assert (Hnew : @http_new TwoFiles.turning ((λ f, (f.1, zlen f.2)) <$> SmallWeb.files) TwoBytes 4 DontShuffle = Ok SmallWeb.provider) by (vm_compute; reflexivity).
  split; [done|]. split; [exact SmallWeb.sends_ranges|].
  pose proof (λ ids, @http_reads_the_files TwoFiles.turning TwoFiles.turning_laws SmallWeb.http_get _ _ _ _ _ ids Hfit Hf Hnew) as Hread.
  destruct (Hread (mkClosedInterval 0 2)) as [_ H02]; [cbn; lia|]. destruct (Hread (mkClosedInterval 2 9)) as [_ H29]; [cbn; lia|].
  split; [by apply H02, SmallWeb.sends_ranges|]. rewrite H29 by exact SmallWeb.sends_ranges. vm_compute. reflexivity.
Defined.
