(* ===== verification/Float64.v ===== *)
(** * Integers as doubles

    A positive integer of 64 bits is a positive number as a double, the quotient of a number
    by itself is one, and a difference from which such an integer is taken is above minus
    infinity.  Used for the weights of data sets.

    Sums, differences, products and quotients by an integer of numbers whose magnitude is at
    most a power of two stay below one, so that none overflows or is no number. *)

From stdpp Require Import base tactics list numbers.
From Stdlib Require Import SpecFloat.
From S2P Require Import Prelude Float Float32.

Open Scope Z_scope.

(** ** Rounding does not lose a number that is not too small *)

Section Rounding.
Context (prec emax : Z) (Hprec : 0 < prec).

Lemma shr_1_m r : 0 <= shr_m r → shr_m (shr_1 r) = shr_m r / 2.
Proof.
  destruct r as [m b1 b2]. cbn [shr_m]. intros Hm. destruct m as [|[p|p|]|p]; [done| | |done|lia]; cbn [shr_1 shr_m].
  - rewrite Pos2Z.inj_xI. apply (Z.div_unique_pos _ _ _ 1); lia.
  - rewrite Pos2Z.inj_xO. apply (Z.div_unique_pos _ _ _ 0); lia.
Qed.

Lemma iter_shr_m p r : 0 <= shr_m r → shr_m (iter_pos shr_1 p r) = shr_m r / 2 ^ Zpos p.
Proof.
  revert r. induction p as [p IH|p IH|]; intros r Hm; cbn [iter_pos].
  - assert (Hp : 0 < 2 ^ Zpos p) by (apply Z.pow_pos_nonneg; lia).
    assert (H1 : 0 <= shr_m (shr_1 r)) by (rewrite shr_1_m by done; apply Z.div_pos; lia).
    rewrite IH by (by apply iter_shr_nonneg). rewrite IH, shr_1_m, !Z.div_div by lia. f_equal.
    replace (Zpos p~1) with (1 + Zpos p + Zpos p) by lia. rewrite !Z.pow_add_r by lia. lia.
  - assert (Hp : 0 < 2 ^ Zpos p) by (apply Z.pow_pos_nonneg; lia).
    rewrite IH by (by apply iter_shr_nonneg). rewrite IH, Z.div_div by lia. f_equal.
    rewrite <- Z.pow_add_r by lia. f_equal. lia.
  - by rewrite shr_1_m.
Qed.

Lemma shr_fexp_positive m e l : 0 < m → emin prec emax < Zdigits2 m + e →
  let '(r, e') := shr_fexp prec emax m e l in 0 < shr_m r ∧ emin prec emax <= e'.
Proof.
  intros Hm He. unfold shr_fexp, shr. assert (Hl : shr_m (shr_record_of_loc m l) = m) by (by destruct l as [|[]]).
  destruct m as [|m|m]; [lia| |lia]. cbn [Zdigits2] in *. pose proof (digits2_bound m) as [Hlow _].
  destruct (fexp _ _ _ - e) as [|p|p] eqn:Hn; unfold fexp in Hn; [split; lia| |split; lia].
  split; [|lia]. rewrite iter_shr_m, Hl by lia. apply Z.div_str_pos. split; [apply Z.pow_pos_nonneg; lia|].
  etrans; [|exact Hlow]. apply Z.pow_le_mono_r; lia.
Qed.

Lemma round_nearest_above m l : m <= round_nearest_even m l.
Proof. destruct l as [|[]]; cbn; try destruct (Z.even m); lia. Qed.

Lemma round_aux_positive m e l : 0 < m → emin prec emax < Zdigits2 m + e →
  binary_round_aux prec emax false m e l ≠ S754_zero false.
Proof.
  intros Hm He. unfold binary_round_aux. pose proof (shr_fexp_positive m e l Hm He) as H1.
  destruct (shr_fexp prec emax m e l) as [r e']. destruct H1 as [Hr He'].
  pose proof (round_nearest_above (shr_m r) (loc_of_shr_record r)) as Hup. set (m1 := round_nearest_even _ _) in *.
  assert (Hd : 0 < Zdigits2 m1) by (destruct m1; cbn; lia).
  pose proof (shr_fexp_positive m1 e' loc_Exact ltac:(lia) ltac:(lia)) as H2.
  destruct (shr_fexp prec emax m1 e' loc_Exact) as [r2 e2]. destruct H2 as [Hr2 _].
  destruct (shr_m r2) as [|p|p]; [lia| |lia]. by destruct (e2 <=? _).
Qed.
End Rounding.

(** ** Integers *)

Lemma f64_of_Z_upto z : 0 <= z <= u64_max → finite_upto 4000 1 256 (f64_of_Z z).
Proof.
  intros [Hz Hmax]. unfold f64_of_Z. destruct (Z.eq_dec z 0) as [->|Hne]; [by left|].
  apply normalize_upto; [lia|lia|lia|vm_compute; congruence|vm_compute; congruence|lia|vm_compute; congruence|].
  rewrite Z.mul_1_l. replace (256 + 4000) with (256 + (0 + 4000)) by lia. rewrite (Z.pow_add_r 2 256) by lia.
  apply Z.mul_le_mono_nonneg_r; [apply Z.pow_nonneg; lia|]. etrans; [exact Hmax|]. vm_compute. congruence.
Qed.

Lemma f64_of_Z_pos z : 0 < z <= u64_max → ∃ m e, f64_of_Z z = S754_finite false m e.
Proof.
  intros [Hz Hmax]. destruct (f64_of_Z_upto z) as [Hzero|(m & e & Hf & _)]; [lia| |by exists m, e].
  exfalso. revert Hzero. unfold f64_of_Z, binary_normalize, binary_round. destruct z as [|p|p]; [lia| |lia].
  destruct (shl_align p 0 _) as [mz ez] eqn:Hs. apply round_aux_positive; [lia|lia|].
  unfold shl_align in Hs. cbn [Zdigits2]. destruct (_ - 0) eqn:Hd; injection Hs as <- <-; unfold fexp, emin in *; lia.
Qed.

(** ** Quotients and differences *)

(** A number divided by anything without a minus sign that is a number or infinity. *)
Lemma f64_div_number m e y : plus_signed y → plus_signed (f64_div (S754_finite false m e) y).
Proof.
  intros [->|[->|(m' & e' & ->)]]; [by right; left|by left|].
  apply f64_div_plus. right. right. by exists m, e.
Qed.

Lemma f64_mul_number x m e : plus_signed x → plus_signed (f64_mul x (S754_finite false m e)).
Proof.
  intros [->|[->|(m' & e' & ->)]]; [by left|by right; left|]. unfold f64_mul, SFmul. cbn [xorb]. by apply round_aux_cases.
Qed.

Lemma f64_div_self m e : f64_div (S754_finite false m e) (S754_finite false m e) = f64_of_Z 1.
Proof.
  unfold f64_div, SFdiv, SFdiv_core_binary. rewrite !Z.sub_diag.
  change (Z.min (fexp 53 1024 0) 0) with (-53). change (0 - -53) with 53. cbn match. rewrite Z.shiftl_mul_pow2 by lia.
  change IntDef.Z.div_eucl with Z.div_eucl.
  assert (Hd : Z.div_eucl (Zpos m * 2 ^ 53) (Zpos m) = (2 ^ 53, 0)).
  { pose proof (Z.div_mul (2 ^ 53) (Zpos m) ltac:(lia)) as Hq. pose proof (Z.mod_mul (2 ^ 53) (Zpos m) ltac:(lia)) as Hr.
    rewrite (Z.mul_comm (2 ^ 53)) in Hq, Hr. unfold Z.div in Hq. unfold Z.modulo in Hr.
    destruct (Z.div_eucl _ _) as [q r]. by subst. }
  rewrite Hd. assert (Hl : new_location (Zpos m) 0 = loc_Exact).
  { unfold new_location, new_location_even, new_location_odd. by destruct (Z.even _). }
  rewrite Hl. vm_compute. reflexivity.
Qed.

(** Anything without a minus sign, less an integer of 64 bits. *)
Lemma f64_sub_above x z : plus_signed x → 0 <= z <= u64_max →
  f64_ltb (S754_infinity true) (f64_sub x (f64_of_Z z)) = true.
Proof.
  intros Hx Hz. destruct (f64_of_Z_upto z Hz) as [->|(m' & e' & -> & He' & Hle')].
  { by destruct Hx as [->|[->|(m & e & ->)]]. }
  destruct Hx as [->|[->|(m & e & ->)]]; [done..|]. unfold f64_sub, SFsub, f64_ltb.
  set (ez := Z.min e e'). cbn [cond_Zopp].
  assert (E2 : snd (shl_align m' e' ez) = ez). { unfold shl_align. destruct (ez - e') eqn:Hd; cbn; lia. }
  set (m1 := fst (shl_align m e ez)). set (m2 := fst (shl_align m' e' ez)).
  destruct (Z.lt_trichotomy (Zpos m1 - Zpos m2) 0) as [Hlt|[->|Hgt]]; [|done|].
  2: { destruct (normalize_cases 53 1024 (Zpos m1 - Zpos m2) ez false) as [_ Hc]. by destruct (Hc Hgt) as [->|[->|(? & ? & ->)]]. }
  assert (Hneg : ∃ k, Zpos m1 - Zpos m2 = Zneg k ∧ Zpos k <= Zpos m2) by (exists (m2 - m1)%positive; lia).
  destruct Hneg as (k & -> & Hk).
  assert (Hopp : binary_normalize 53 1024 (Zneg k) ez false = SFopp (binary_normalize 53 1024 (Zpos k) ez false)) by exact (convert_opp 53 1024 k ez).
  rewrite Hopp. set (K := 4000 + Z.abs e).
  assert (Hup : finite_upto K 1 256 (binary_normalize 53 1024 (Zpos k) ez false)).
  { apply normalize_upto; [lia|lia|lia|vm_compute; congruence|unfold emin; lia|lia|vm_compute; congruence|].
    pose proof (shl_align_value m' e' ez K ltac:(lia) ltac:(lia)) as Hv.
    rewrite (surjective_pairing (shl_align m' e' ez)), E2 in Hv. fold m2 in Hv. destruct Hv as (_ & Hv & _).
    assert (0 < 2 ^ (ez + K)) by (apply Z.pow_pos_nonneg; lia).
    assert (Hk2 : Zpos k * 2 ^ (ez + K) <= Zpos m' * 2 ^ (e' + K)) by nia. etrans; [exact Hk2|].
    replace (e' + K) with (e' + 4000 + Z.abs e) by lia. replace (256 + K) with (256 + 4000 + Z.abs e) by lia.
    rewrite !(Z.pow_add_r 2 _ (Z.abs e)) by lia. assert (0 < 2 ^ Z.abs e) by (apply Z.pow_pos_nonneg; lia). nia. }
  by destruct Hup as [->|(? & ? & -> & _)].
Qed.

(** ** Bounds on sums, products and quotients *)

(** Of magnitude at most [2 ^ E]; the shift only makes the exponents non-negative. *)
Definition SHIFT : Z := 2200.
Definition bounded (E : Z) (x : f64) : Prop :=
  (∃ s, x = S754_zero s) ∨
  ∃ s m e, x = S754_finite s m e ∧ -1074 <= e ∧ Zpos m * 2 ^ (e + SHIFT) <= 2 ^ (E + SHIFT).

Lemma bounded_finite E x : bounded E x → sf_finite x = true.
Proof. by intros [[s ->]|(s & m & e & -> & _)]. Qed.
Lemma bounded_mono E F x : bounded E x → 0 <= E + SHIFT → E <= F → bounded F x.
Proof.
  intros [[s ->]|(s & m & e & -> & He & Hle)] HE HF; [by left; eexists|]. right. exists s, m, e. split_and!; [done..|].
  etrans; [exact Hle|]. apply Z.pow_le_mono_r; unfold SHIFT in *; lia.
Qed.

(** What rounding gives has an exponent of the format. *)
Lemma shr_fexp_emin m e l : emin 53 1024 <= snd (shr_fexp 53 1024 m e l).
Proof.
  unfold shr_fexp, shr. destruct (_ - e) as [|p|p] eqn:Hd; cbn [snd]; unfold fexp, emin in *; lia.
Qed.
Lemma round_aux_emin s m e l m' e' : binary_round_aux 53 1024 s m e l = S754_finite s m' e' → -1074 <= e'.
Proof.
  unfold binary_round_aux. destruct (shr_fexp 53 1024 m e l) as [r e1]. destruct (shr_fexp 53 1024 (round_nearest_even _ _) e1 loc_Exact) as [r2 e2] eqn:Hr2.
  pose proof (shr_fexp_emin (round_nearest_even (shr_m r) (loc_of_shr_record r)) e1 loc_Exact) as Hm. rewrite Hr2 in Hm. cbn in Hm.
  destruct (shr_m r2) as [|p|p]; [done| |done]. destruct (e2 <=? _); [|done]. intros [= _ <-]. exact Hm.
Qed.

Lemma round_bounded s m e l E : 0 < m → 0 <= e + SHIFT → -1074 <= E <= 900 → (m + loc_up l) * 2 ^ (e + SHIFT) <= 2 ^ (E + SHIFT) →
  bounded E (binary_round_aux 53 1024 s m e l).
Proof.
  intros Hm He HE Hle. assert (Hup : finite_upto SHIFT 1 E (binary_round_aux 53 1024 false m e l)).
  { apply round_aux_upto; [lia|lia|lia|unfold emin; lia|unfold SHIFT in *; lia|split; [lia|vm_compute; reflexivity]|lia|lia]. }
  assert (Hs : binary_round_aux 53 1024 s m e l = if s then SFopp (binary_round_aux 53 1024 false m e l) else binary_round_aux 53 1024 false m e l).
  { destruct s; [|done]. exact (round_aux_sign 53 1024 false m e l). }
  destruct Hup as [Hz|(m' & e' & Hf & He' & Hle')].
  - left. rewrite Hs, Hz. destruct s; by eexists.
  - right. exists s, m', e'. rewrite Hs, Hf. split_and!; [by destruct s|by eapply round_aux_emin|lia].
Qed.

Lemma normalize_bounded z e s E : -1074 <= e → -1074 <= E <= 900 → Z.abs z * 2 ^ (e + SHIFT) <= 2 ^ (E + SHIFT) →
  bounded E (binary_normalize 53 1024 z e s).
Proof.
  intros He HE Hle. unfold binary_normalize, binary_round. destruct z as [|p|p]; [by left; eexists|..].
  all: pose proof (shl_align_value p e (fexp 53 1024 (Zpos (digits2_pos p) + e)) SHIFT ltac:(unfold SHIFT; lia) ltac:(unfold fexp, emin, SHIFT; lia)) as Hs;
    destruct (shl_align p e _) as [mz ez]; destruct Hs as (Hez & Heq & _); apply round_bounded; cbn [loc_up Z.abs] in *; lia.
Qed.

Lemma f64_add_bounded E x y : -1074 <= E <= 899 → bounded E x → bounded E y → bounded (E + 1) (f64_add x y).
Proof.
  intros HE Hx Hy. assert (Hpos : 0 <= E + SHIFT) by (unfold SHIFT; lia).
  pose proof Hx as [[s ->]|(s & m & e & -> & He & Hle)]; pose proof Hy as [[s' ->]|(s' & m' & e' & -> & He' & Hle')].
  - left. destruct s, s'; by eexists.
  - by eapply bounded_mono; [exact Hy|lia..].
  - by eapply bounded_mono; [exact Hx|lia..].
  - unfold f64_add, SFadd.
    pose proof (shl_align_value m e (Z.min e e') SHIFT ltac:(unfold SHIFT; lia) ltac:(unfold SHIFT; lia)) as H1.
    pose proof (shl_align_value m' e' (Z.min e e') SHIFT ltac:(unfold SHIFT; lia) ltac:(unfold SHIFT; lia)) as H2.
    assert (E1 : snd (shl_align m e (Z.min e e')) = Z.min e e') by (unfold shl_align; destruct (Z.min e e' - e) eqn:Hd; cbn; lia).
    assert (E2 : snd (shl_align m' e' (Z.min e e')) = Z.min e e') by (unfold shl_align; destruct (Z.min e e' - e') eqn:Hd; cbn; lia).
    destruct (shl_align m e _) as [m1 e1], (shl_align m' e' _) as [m2 e2]. cbn in E1, E2. subst e1 e2. cbn [fst].
    destruct H1 as (_ & H1 & _), H2 as (_ & H2 & _). apply normalize_bounded; [lia|lia|].
    replace (E + 1 + SHIFT) with (Z.succ (E + SHIFT)) by lia. rewrite Z.pow_succ_r by done.
    assert (0 < 2 ^ (Z.min e e' + SHIFT)) by (apply Z.pow_pos_nonneg; unfold SHIFT; lia).
    etrans; [apply Z.mul_le_mono_nonneg_r; [lia|]|]; [|rewrite <- H1, <- H2 in *; instantiate (1 := Zpos m1 + Zpos m2); lia].
    destruct s, s'; cbn [cond_Zopp]; lia.
Qed.

Lemma bounded_opp E x : bounded E x → bounded E (SFopp x).
Proof.
  intros [[s ->]|(s & m & e & -> & He & Hle)]; [left; by eexists|]. right. by exists (negb s), m, e.
Qed.
Lemma f64_sub_opp x y : sf_finite x = true → sf_finite y = true → f64_sub x y = f64_add x (SFopp y).
Proof.
  intros Hx Hy. destruct x as [s|s| |s m e], y as [s'|s'| |s' m' e']; try done; unfold f64_sub, f64_add, SFsub, SFadd; cbn [SFopp].
  - by destruct s, s'.
  - f_equal. destruct s'; cbn [cond_Zopp negb]; lia.
Qed.
Lemma f64_sub_bounded E x y : -1074 <= E <= 899 → bounded E x → bounded E y → bounded (E + 1) (f64_sub x y).
Proof.
  intros HE Hx Hy. rewrite f64_sub_opp by (by eapply bounded_finite). apply f64_add_bounded; [done|done|by apply bounded_opp].
Qed.

Lemma f64_mul_bounded E F x y : -500 <= E <= 450 → -500 <= F <= 450 → bounded E x → bounded F y → bounded (E + F) (f64_mul x y).
Proof.
  intros HE HF Hx Hy. pose proof Hx as [[s ->]|(s & m & e & -> & He & Hle)]; pose proof Hy as [[s' ->]|(s' & m' & e' & -> & He' & Hle')].
  1-3: left; by eexists.
  unfold f64_mul, SFmul. apply round_bounded; [lia|unfold SHIFT; lia|lia|]. cbn [loc_up]. rewrite Z.add_0_r, Pos2Z.inj_mul.
  assert (H0 : 0 < 2 ^ SHIFT) by (vm_compute; reflexivity).
  assert (Hpow : ∀ a b, 0 <= a + SHIFT → 0 <= b + SHIFT → 0 <= a + b + SHIFT → 2 ^ (a + b + SHIFT) * 2 ^ SHIFT = 2 ^ (a + SHIFT) * 2 ^ (b + SHIFT)).
  { intros a b Ha Hb Hab. rewrite <- !Z.pow_add_r by (unfold SHIFT in *; lia). f_equal. lia. }
  apply (Z.mul_le_mono_pos_r _ _ (2 ^ SHIFT) H0). rewrite <- Z.mul_assoc, !Hpow by (unfold SHIFT in *; lia).
  replace (Zpos m * Zpos m' * (2 ^ (e + SHIFT) * 2 ^ (e' + SHIFT))) with ((Zpos m * 2 ^ (e + SHIFT)) * (Zpos m' * 2 ^ (e' + SHIFT))) by ring.
  apply Z.mul_le_mono_nonneg; try done; apply Z.mul_nonneg_nonneg; try lia; apply Z.pow_nonneg; lia.
Qed.

(** ** Integers of 32 bits and their quotients *)

Lemma digits2_shift p k : digits2_pos (Pos.iter xO p k) = (digits2_pos p + k)%positive.
Proof.
  induction k as [|k IH] using Pos.peano_ind; [cbn; lia|]. rewrite Pos.iter_succ. cbn [digits2_pos]. rewrite IH. lia.
Qed.

(** An integer is represented exactly, with a full significand. *)
Lemma f64_of_u32 n : 0 < n < 2 ^ 32 → ∃ m e, f64_of_Z n = S754_finite false m e ∧ -53 < e < 0 ∧
  Zpos (digits2_pos m) = 53 ∧ Zpos m * 2 ^ (e + 53) = n * 2 ^ 53.
Proof.
  intros Hn. destruct n as [|p|p]; [lia| |lia]. pose proof (digits2_bound p) as [Hlow Hup]. set (d := Zpos (digits2_pos p)) in *.
  assert (Hd : 1 <= d <= 32).
  { split; [unfold d; lia|]. destruct (Z.le_gt_cases d 32); [done|]. assert (2 ^ 32 <= 2 ^ (d - 1)) by (apply Z.pow_le_mono_r; lia). lia. }
  set (k := Z.to_pos (53 - d)). assert (Hk : Zpos k = 53 - d) by (unfold k; lia).
  exists (Pos.iter xO p k), (d - 53).
  assert (Hdig : Zpos (digits2_pos (Pos.iter xO p k)) = 53) by (rewrite digits2_shift, Pos2Z.inj_add; fold d; lia).
  split_and!; [|lia|lia|done|].
  - unfold f64_of_Z, binary_normalize, binary_round. fold d. assert (Hf : fexp 53 1024 (d + 0) = d - 53) by (unfold fexp, emin; lia). rewrite Hf.
    unfold shl_align. replace (d - 53 - 0) with (Zneg k) by lia. unfold binary_round_aux.
    assert (Hshr : shr_fexp 53 1024 (Zpos (Pos.iter xO p k)) (d - 53) loc_Exact = (Build_shr_record (Zpos (Pos.iter xO p k)) false false, d - 53)).
    { unfold shr_fexp, shr. cbn [Zdigits2]. rewrite Hdig. assert (Hf2 : fexp 53 1024 (53 + (d - 53)) - (d - 53) = 0) by (unfold fexp, emin; lia). by rewrite Hf2. }
    unfold shift_pos. rewrite Hshr. cbn [shr_m loc_of_shr_record shr_r shr_s round_nearest_even]. rewrite Hshr. cbn [shr_m].
    destruct (Z.leb_spec (d - 53) (1024 - 53)); [done|lia].
  - assert (Hv := shl_align_value p 0 (d - 53) 53 ltac:(lia) ltac:(lia)). unfold shl_align in Hv. replace (d - 53 - 0) with (Zneg k) in Hv by lia.
    destruct Hv as (_ & Hv & _). exact Hv.
Qed.

Lemma f64_of_u32_bounded n : 0 <= n < 2 ^ 32 → bounded 32 (f64_of_Z n).
Proof.
  intros Hn. unfold f64_of_Z. apply normalize_bounded; [lia|lia|]. rewrite Z.abs_eq, Z.add_0_l by lia. rewrite (Z.pow_add_r 2 32) by (unfold SHIFT; lia).
  apply Z.mul_le_mono_nonneg_r; [apply Z.pow_nonneg; lia|lia].
Qed.

Lemma f64_div_u32_bounded k n : 0 <= k < 2 ^ 32 → 0 < n < 2 ^ 32 → bounded 86 (f64_div (f64_of_Z k) (f64_of_Z n)).
Proof.
  intros Hk Hn. destruct (f64_of_u32 n Hn) as (m2 & e2 & H2 & He2 & Hd2 & Hv2). rewrite H2. destruct (Z.eq_dec k 0) as [->|Hnz]; [left; by eexists|].
  destruct (f64_of_u32 k ltac:(lia)) as (m1 & e1 & -> & He1 & Hd1 & Hv1). unfold f64_div, SFdiv, SFdiv_core_binary. cbn [Zdigits2 xorb]. rewrite Hd1, Hd2.
  assert (Hmin : Z.min (fexp 53 1024 (53 + e1 - (53 + e2))) (e1 - e2) = e1 - e2 - 53) by (unfold fexp, emin; lia). rewrite Hmin.
  replace (e1 - e2 - (e1 - e2 - 53)) with 53 by lia. cbn match. rewrite Z.shiftl_mul_pow2 by lia.
  destruct (Z.div_eucl (Zpos m1 * 2 ^ 53) (Zpos m2)) as [q r] eqn:Hq. pose proof (Z_div_mod (Zpos m1 * 2 ^ 53) (Zpos m2) ltac:(lia)) as Hdm. rewrite Hq in Hdm. destruct Hdm as [Hdm Hr].
  pose proof (digits2_bound m1) as [Hl1 Hu1]. pose proof (digits2_bound m2) as [Hl2 Hu2]. rewrite Hd1 in *. rewrite Hd2 in *.
  change (2 ^ (53 - 1)) with 4503599627370496 in *. change (2 ^ 53) with 9007199254740992 in *.
  assert (Hq0 : 0 < q) by nia. assert (Hq1 : q <= 2 * 9007199254740992) by nia.
  apply round_bounded; [done|unfold SHIFT; lia|lia|]. assert (Hloc : loc_up (new_location (Zpos m2) r) <= 1) by (destruct (new_location _ _); cbn; lia).
  etrans; [apply Z.mul_le_mono_nonneg_r; [apply Z.pow_nonneg; lia|instantiate (1 := 2 ^ 55); change (2 ^ 55) with 36028797018963968; lia]|].
  rewrite <- Z.pow_add_r by (unfold SHIFT; lia). apply Z.pow_le_mono_r; unfold SHIFT; lia.
Qed.
