(* ===== verification/Weighted.v ===== *)
(** * Weighted data

    src/shared/data-provider/src/weighted/mod.rs: several providers mixed by weight.  An
    index says for every sample which provider it comes from and which of its samples it is;
    a batch is grouped by provider, cut into runs of consecutive samples, and put back in
    order.  Weights are IEEE 754 doubles; the draws of the shuffle are those of [ChaCha]. *)

From stdpp Require Import base tactics list numbers strings.
From Stdlib Require Import SpecFloat.
From S2P Require Import Prelude StableSort CoreTypes CoordinatorState Float Float32 Shuffle DataProviders.

Open Scope Z_scope.

Record WeightedDataProvider := mkWeightedDataProvider {
  providers : list Provider;
  dataset_index : list nat;
  dataset_sample_index : list Z;
}.

Inductive Providers :=
| ExplicitlyWeighted (l : list (Provider * f64))
| LengthWeighted (l : list Provider).

(** [x.ceil()]. *)
Definition f64_ceil (x : f64) : f64 :=
  match x with
  | S754_finite s m e =>
      if 0 <=? e then x
      else binary_normalize 53 1024 (- ((if (s : bool) then Zpos m else - Zpos m) / 2 ^ (- e))) 0 s
  | _ => x
  end.

Definition normalize (weights : list f64) : list f64 :=
  let sum := foldl f64_add (S754_zero false) weights in
  (λ w, f64_div w sum) <$> weights.
Definition weights_of (p : Providers) : list f64 :=
  match p with
  | ExplicitlyWeighted l => normalize (snd <$> l)
  | LengthWeighted l => normalize ((λ p, f64_of_Z (num_sequences p)) <$> l)
  end.
Definition providers_of (p : Providers) : list Provider :=
  match p with ExplicitlyWeighted l => fst <$> l | LengthWeighted l => l end.

(** ** The index *)

(** The provider that is furthest behind its share. *)
Definition consider {E} (weights : list f64) (dataset_sizes total_samples_drawn : list Z) (sample_idx_float : f64)
    (best : f64 * nat) (i : nat) : res E (f64 * nat) :=
  size ← unwrap (dataset_sizes !! i);
  if size =? 0 then Ok best
  else
    weight ← unwrap (weights !! i);
    drawn ← unwrap (total_samples_drawn !! i);
    let error := f64_sub (f64_mul weight sample_idx_float) (f64_of_Z drawn) in
    Ok (if f64_ltb best.1 error then (error, i) else best).
Fixpoint choose_from {E} (weights : list f64) (dataset_sizes total_samples_drawn : list Z) (sample_idx_float : f64)
    (best : f64 * nat) (l : list nat) : res E nat :=
  match l with
  | [] => Ok best.2
  | i :: l' =>
      best ← consider weights dataset_sizes total_samples_drawn sample_idx_float best i;
      choose_from weights dataset_sizes total_samples_drawn sample_idx_float best l'
  end.
Definition choose_provider {E} (weights : list f64) (dataset_sizes total_samples_drawn : list Z) (sample_idx : Z) : res E nat :=
  choose_from weights dataset_sizes total_samples_drawn (sf_max (f64_of_Z sample_idx) (f64_of_Z 1))
    (S754_infinity true, 0%nat) (seq 0 (length weights)).

Record Draws := mkDraws {
  total_samples_drawn : list Z;
  next_unique_index : list Z;
  is_exhausted : list bool;
  drawn_index : list nat;
  drawn_sample_index : list Z;
}.

Definition draw {E} (weights : list f64) (dataset_sizes : list Z) (sample_idx : Z) (d : Draws) : res E Draws :=
  chosen ← choose_provider weights dataset_sizes (total_samples_drawn d) sample_idx;
  provider_size ← unwrap (dataset_sizes !! chosen);
  exhausted ← unwrap (is_exhausted d !! chosen);
  next ← unwrap (next_unique_index d !! chosen);
  drawn ← unwrap (total_samples_drawn d !! chosen);
  '(sample_to_yield, nexts, exhausteds) ←
    (if negb exhausted then
       let next' := as_u64 (next + 1) in
       Ok (next, <[chosen := next']> (next_unique_index d),
           if next' =? provider_size then <[chosen := true]> (is_exhausted d) else is_exhausted d)
     else
       res_assert (negb (provider_size =? 0)) ;;
       Ok (drawn mod provider_size, next_unique_index d, is_exhausted d));
  Ok (mkDraws (<[chosen := as_u64 (drawn + 1)]> (total_samples_drawn d)) nexts exhausteds
        (drawn_index d ++ [chosen]) (drawn_sample_index d ++ [sample_to_yield])).

Fixpoint draw_all {E} (weights : list f64) (dataset_sizes : list Z) (sample_idx : Z) (n : nat) (d : Draws) : res E Draws :=
  match n with
  | O => Ok d
  | S n' =>
      d ← draw weights dataset_sizes sample_idx d;
      draw_all weights dataset_sizes (sample_idx + 1) n' d
  end.
Definition build_weighted_index {E} (n_samples : Z) (weights : list f64) (dataset_sizes : list Z) : res E (list nat * list Z) :=
  let num_providers := length weights in
  d ← draw_all weights dataset_sizes 0 (Z.to_nat n_samples)
        (mkDraws (replicate num_providers 0) (replicate num_providers 0) (replicate num_providers false) [] []);
  Ok (drawn_index d, drawn_sample_index d).

(** ** The shuffle *)

Fixpoint shuffle_down {C : ChaCha} {E} (seed : list Z) (drawn i : nat) (l : list nat) (k : list Z) : res E (list nat * list Z) :=
  match i with
  | O => Ok (l, k)
  | S i' =>
      let j := rand_range seed drawn i in
      l ← swap l i j;
      k ← swap k i j;
      shuffle_down seed (S drawn) i' l k
  end.
Definition shuffle_index {C : ChaCha} {E} (seed : list Z) (l : list nat) (k : list Z) : res E (list nat * list Z) :=
  shuffle_down seed 0 (length l - 1) l k.

Definition weighted_new {C : ChaCha} {E} (weighted_providers : Providers) (kind : ShuffleKind) : res E WeightedDataProvider :=
  let weights := weights_of weighted_providers in
  let ps := providers_of weighted_providers in
  res_assert (length ps =? length weights)%nat ;;
  let dataset_lengths := num_sequences <$> ps in
  let num_samples := foldl (λ s n, as_u64 (s + n)) 0 dataset_lengths in
  let samples_per_epoch := num_samples in
  let num_epochs := f64_as_unsigned u64_max (f64_ceil (f64_div (f64_of_Z num_samples) (f64_of_Z samples_per_epoch))) in
  '(index, sample_index) ← build_weighted_index samples_per_epoch weights dataset_lengths;
  '(index, sample_index) ←
    match kind with Seeded seed => shuffle_index seed index sample_index | DontShuffle => Ok (index, sample_index) end;
  Ok (mkWeightedDataProvider ps
        (take (Z.to_nat num_samples) (mjoin (replicate (Z.to_nat num_epochs) index)))
        (take (Z.to_nat num_samples) (mjoin (replicate (Z.to_nat num_epochs) sample_index)))).

(** ** A batch *)

Definition get_sample_info {E} (w : WeightedDataProvider) (index : Z) : res E (nat * Z) :=
  if zlen (dataset_index w) <=? index then Ok (0%nat, 0)
  else
    dataset_idx ← unwrap (znth (dataset_index w) index);
    sample_idx ← unwrap (znth (dataset_sample_index w) index);
    Ok (dataset_idx, sample_idx).

(** A request: where the sample goes in the batch and which sample it is. *)
Fixpoint collect_requests {E} (w : WeightedDataProvider) (original_idx : nat) (ids : list Z)
    (provider_requests : list (list (nat * Z))) : res E (list (list (nat * Z))) :=
  match ids with
  | [] => Ok provider_requests
  | id :: ids' =>
      '(provider_idx, sample_idx) ← get_sample_info w id;
      requests ← unwrap (provider_requests !! provider_idx);
      collect_requests w (S original_idx) ids' (<[provider_idx := requests ++ [(original_idx, sample_idx)]]> provider_requests)
  end.

Definition sample_le (a b : nat * Z) : Prop := a.2 <= b.2.
#[global] Instance sample_le_dec : RelDecision sample_le.
Proof. intros a b. unfold sample_le. apply _. Defined.

(** Runs of consecutive samples, after the run being gathered. *)
Fixpoint split_ranges {E} (current_range : list (nat * Z)) (l : list (nat * Z)) : res E (list (list (nat * Z))) :=
  match l with
  | [] => Ok [current_range]
  | (orig_idx, idx) :: l' =>
      '(_, prev_idx) ← unwrap (last current_range);
      if idx =? as_u64 (prev_idx + 1) then split_ranges (current_range ++ [(orig_idx, idx)]) l'
      else
        ranges ← split_ranges [(orig_idx, idx)] l';
        Ok (current_range :: ranges)
  end.
Definition ranges_of {E} (requests : list (nat * Z)) : res E (list (list (nat * Z))) :=
  match stable_sort sample_le requests with
  | [] => Ok []
  | first :: rest => split_ranges [first] rest
  end.

Fixpoint write_all {E} (results : list TokenizedData) (l : list ((nat * Z) * TokenizedData)) : res E (list TokenizedData) :=
  match l with
  | [] => Ok results
  | ((orig_idx, _), sample) :: l' =>
      res_assert (orig_idx <? length results)%nat ;;
      write_all (<[orig_idx := sample]> results) l'
  end.
Fixpoint fetch_ranges (p : Provider) (ranges : list (list (nat * Z))) (results : list TokenizedData) :
    res DataError (list TokenizedData) :=
  match ranges with
  | [] => Ok results
  | range :: ranges' =>
      first ← unwrap (head range);
      final ← unwrap (last range);
      range_samples ← get_samples p (mkClosedInterval first.2 final.2);
      results ← write_all results (zip range range_samples);
      fetch_ranges p ranges' results
  end.
Fixpoint serve_requests (ps : list Provider) (provider_idx : nat) (provider_requests : list (list (nat * Z)))
    (results : list TokenizedData) : res DataError (list TokenizedData) :=
  match provider_requests with
  | [] => Ok results
  | requests :: rest =>
      results ←
        (if bool_decide (requests = []) then Ok results
         else
           p ← unwrap (ps !! provider_idx);
           ranges ← ranges_of requests;
           fetch_ranges p ranges results);
      serve_requests ps (S provider_idx) rest results
  end.

Definition weighted_get_samples (w : WeightedDataProvider) (data_ids : BatchId) : res DataError (list TokenizedData) :=
  provider_requests ← collect_requests w 0 (batch_iter data_ids) (replicate (length (providers w)) []);
  let len := as_u64 (end_ data_ids - start data_ids + 1) in
  results ← serve_requests (providers w) 0 provider_requests (replicate (Z.to_nat len) TokenizedData_empty);
  res_throw_if (existsb (λ v, bool_decide (input_ids v = [])) results) MissingSamples ;;
  Ok results.
Definition weighted_provider (w : WeightedDataProvider) : Provider :=
  mkProvider (zlen (dataset_index w)) (weighted_get_samples w).
