(* ===== verification/WeightedBatches.v ===== *)
(** * Batches of weighted data

    A batch is grouped by provider, sorted, cut into runs, fetched run by run and put back
    in order; what comes out is the sample of every id in its place.  Proved for any
    providers that are [Indexed]. *)

From stdpp Require Import base tactics list numbers strings.
From S2P Require Import Prelude StableSort CoreTypes CoordinatorState Timeline DataProviders DataProviderThms Weighted.

Open Scope Z_scope.

(** ** Runs of consecutive samples *)

Definition consecutive (r : list (nat * Z)) : Prop := r ≠ [] ∧ ∃ a, snd <$> r = seqZ a (zlen r).

Lemma consecutive_one x : consecutive [x].
Proof. split; [done|]. by exists x.2. Qed.

Lemma consecutive_snoc r x o : consecutive r → last r = Some x → consecutive (r ++ [(o, x.2 + 1)]).
Proof.
  intros [Hne [a Ha]] Hx. split; [by destruct r|]. exists a. apply last_Some in Hx as [r' ->].
  rewrite !fmap_app in *. unfold zlen in *. rewrite !length_app in *. cbn [length fmap list_fmap] in *.
  assert (Hlast : x.2 = a + Z.of_nat (length r')).
  { assert (Hl : ((snd <$> r') ++ [x.2]) !! length r' = Some x.2) by (rewrite lookup_app_r, length_fmap, Nat.sub_diag by (rewrite length_fmap; lia); done).
    rewrite Ha, lookup_seqZ_lt in Hl by lia. by injection Hl as <-. }
  rewrite Ha. replace (Z.of_nat (length r' + 1 + 1)) with (Z.of_nat (length r' + 1) + 1) by lia.
  rewrite (seqZ_app a (Z.of_nat (length r' + 1)) 1) by lia.
  assert (Hone : ∀ c, seqZ c 1 = [c]) by (intros c; rewrite seqZ_cons by lia; done).
  rewrite Hone. do 2 f_equal. cbn. lia.
Qed.

Lemma split_ranges_run {E : Type} cur l : consecutive cur → Forall (λ x, 0 <= x.2 < u64_max) (cur ++ l) →
  ∃ ranges, split_ranges (E := E) cur l = Ok ranges ∧ Forall consecutive ranges ∧ concat ranges = cur ++ l.
Proof.
  revert cur. induction l as [|[o i] l IH]; intros cur Hcur Hall; cbn [split_ranges].
  - exists [cur]. cbn. split_and!; [done|by apply Forall_cons_2|done].
  - destruct (last cur) as [[o' prev]|] eqn:Hlast; [|by apply last_None in Hlast; destruct Hcur].
    cbn [unwrap mbind res_bind].
    assert (Hprev : 0 <= prev < u64_max).
    { apply (proj1 (list.Forall_forall _ _) Hall (o', prev)). apply elem_of_app. left. by apply last_Some_elem_of. }
    unfold as_u64. rewrite Z.mod_small by (unfold u64_max in *; lia). destruct (Z.eqb_spec i (prev + 1)) as [->|Hne].
    + destruct (IH (cur ++ [(o, prev + 1)])) as (ranges & -> & Hr & Hc); [by apply (consecutive_snoc _ (o', prev))|by rewrite <- app_assoc|].
      exists ranges. by rewrite <- app_assoc in Hc.
    + destruct (IH [(o, i)]) as (ranges & -> & Hr & Hc); [apply consecutive_one|by apply list.Forall_app in Hall as [_ ?]|].
      cbn [mbind res_bind]. exists (cur :: ranges). split_and!; [done|by apply Forall_cons_2|]. cbn. by rewrite Hc.
Qed.

Lemma ranges_of_run {E : Type} rs : Forall (λ x, 0 <= x.2 < u64_max) rs →
  ∃ ranges, ranges_of (E := E) rs = Ok ranges ∧ Forall consecutive ranges ∧ concat ranges ≡ₚ rs.
Proof.
  intros Hall. pose proof (stable_sort_perm sample_le rs) as Hperm. unfold ranges_of.
  destruct (stable_sort sample_le rs) as [|x l]; [exists []; split_and!; [done|apply Forall_nil_2|done]|].
  destruct (split_ranges_run (E := E) [x] l (consecutive_one x)) as (ranges & -> & Hr & Hc).
  { cbn. by rewrite Hperm. }
  exists ranges. split_and!; [done..|]. by rewrite Hc.
Qed.

(** ** Writing the samples of a run *)

Section Target.
Context (target : list TokenizedData).

(** The places that hold what they should. *)
Definition filled (results : list TokenizedData) (j : nat) : Prop := results !! j = target !! j.

Lemma write_all_run {E : Type} l results : length results = length target →
  Forall (λ x, target !! x.1.1 = Some x.2) l →
  ∃ results', write_all (E := E) results l = Ok results' ∧ length results' = length target ∧
    (∀ j, filled results j ∨ j ∈ fst ∘ fst <$> l → filled results' j).
Proof.
  intros Hlen Hl. revert results Hlen. induction Hl as [|[[o i] x] l Hx _ IH]; intros results Hlen; cbn [write_all].
  - exists results. split_and!; [done..|]. intros j [?|[]%elem_of_nil]; done.
  - cbn in Hx. assert (Ho : (o < length results)%nat) by (rewrite Hlen; by eapply lookup_lt_Some).
    rewrite (proj2 (Nat.ltb_lt _ _)) by done. cbn [res_assert mbind res_bind].
    destruct (IH (<[o := x]> results)) as (results' & -> & Hlen' & Hf); [by rewrite length_insert|].
    exists results'. split_and!; [done..|]. intros j Hj. apply Hf. unfold filled in *. destruct (decide (j = o)) as [->|Hne].
    + left. by rewrite list_lookup_insert_eq.
    + rewrite list_lookup_insert_ne by done. destruct Hj as [Hj|[?|Hj]%elem_of_cons]; [by left|done|by right].
Qed.

Section Provider.
Context (p : Provider) (sample : Z → TokenizedData) `{!Indexed p sample}.

(** A request of this provider's that goes to its place. *)
Definition due (x : nat * Z) : Prop := 0 <= x.2 < num_sequences p ∧ target !! x.1 = Some (sample x.2).

Lemma run_bounds (r : list (nat * Z)) a : snd <$> r = seqZ a (zlen r) → r ≠ [] → ∃ x y, head r = Some x ∧ last r = Some y ∧
  x ∈ r ∧ y ∈ r ∧ x.2 = a ∧ y.2 = a + zlen r - 1.
Proof.
  intros Ha Hne. destruct r as [|x r]; [done|]. destruct (last (x :: r)) as [y|] eqn:Hy; [|by apply last_None in Hy].
  exists x, y. assert (Hl : last (snd <$> x :: r) = Some y.2) by (by rewrite fmap_last, Hy).
  split_and!; [done..|by left| | |].
  - by apply last_Some_elem_of.
  - unfold zlen in Ha. cbn [length] in Ha. rewrite seqZ_cons in Ha by lia. by injection Ha.
  - rewrite Ha, last_lookup, length_seqZ in Hl. unfold zlen in *. cbn [length] in *. rewrite lookup_seqZ_lt in Hl by lia. injection Hl as <-. lia.
Qed.

Lemma fetch_ranges_run ranges results : length results = length target → Forall consecutive ranges →
  Forall due (concat ranges) →
  ∃ results', fetch_ranges p ranges results = Ok results' ∧ length results' = length target ∧
    (∀ j, filled results j ∨ j ∈ fst <$> concat ranges → filled results' j).
Proof.
  intros Hlen Hcs. revert results Hlen. induction Hcs as [|r ranges [Hne [a Ha]] _ IH]; intros results Hlen Hdue; cbn [fetch_ranges].
  - exists results. split_and!; [done..|]. intros j [?|[]%elem_of_nil]; done.
  - cbn in Hdue. apply list.Forall_app in Hdue as [Hr Hdue].
    destruct (run_bounds r a Ha Hne) as (x & y & -> & -> & Hx & Hy & Hxa & Hya). cbn [unwrap mbind res_bind].
    destruct (proj1 (list.Forall_forall _ _) Hr x Hx) as [Hbx _]. destruct (proj1 (list.Forall_forall _ _) Hr y Hy) as [Hby _].
    assert (1 <= zlen r) by (destruct r; [done|unfold zlen; cbn; lia]).
    rewrite (serves x.2 y.2) by lia. cbn [mbind res_bind]. replace (y.2 - x.2 + 1) with (zlen r) by lia. rewrite Hxa, <- Ha.
    assert (Hzip : zip r (sample <$> (snd <$> r)) = (λ x, (x, sample x.2)) <$> r).
    { clear. induction r as [|x r IH]; [done|]. cbn. by f_equal. }
    rewrite Hzip. destruct (write_all_run (E := DataError) ((λ x, (x, sample x.2)) <$> r) results Hlen) as (results1 & -> & Hlen1 & Hf1).
    { apply list.Forall_fmap. eapply list.Forall_impl; [exact Hr|]. by intros z [_ ?]. }
    cbn [mbind res_bind]. destruct (IH results1 Hlen1 Hdue) as (results2 & -> & Hlen2 & Hf2).
    exists results2. split_and!; [done..|]. intros j Hj. apply Hf2. cbn in Hj. rewrite fmap_app, elem_of_app in Hj.
    destruct Hj as [Hj|[Hj|Hj]]; [left; apply Hf1; by left| |by right]. left. apply Hf1. right. by rewrite <- list_fmap_compose.
Qed.
End Provider.
End Target.

(** ** A whole batch *)

Section Batch.
Context (w : WeightedDataProvider) (samples : nat → Z → TokenizedData).
Hypothesis Hindexed : ∀ i p, providers w !! i = Some p → Indexed p (samples i) ∧ num_sequences p <= u64_max.

(** A sample of a provider. *)
Definition valid (info : nat * Z) : Prop :=
  ∃ p, providers w !! info.1 = Some p ∧ 0 <= info.2 < num_sequences p.

Lemma collect_run {E : Type} ids infos orig reqs : mapM (get_sample_info (E := E) w) ids = Ok infos → Forall valid infos →
  length reqs = length (providers w) →
  ∃ reqs', collect_requests (E := E) w orig ids reqs = Ok reqs' ∧ length reqs' = length (providers w) ∧
    ∀ i rs', reqs' !! i = Some rs' → ∃ rs, reqs !! i = Some rs ∧
      ∀ r, r ∈ rs' ↔ r ∈ rs ∨ ((orig ≤ r.1)%nat ∧ infos !! (r.1 - orig)%nat = Some (i, r.2)).
Proof.
  intros Hinfos%mapM_Ok Hv. revert orig reqs. induction Hinfos as [|id [i s] ids infos Hid _ IH]; intros orig reqs Hlen; cbn [collect_requests].
  - exists reqs. split_and!; [done..|]. intros i rs Hrs. exists rs. split; [done|]. intros r. split; [by left|].
    intros [?|[_ Hr]]; done.
  - apply list.Forall_cons in Hv as [(p & Hp & _) Hv]. rewrite Hid. cbn [mbind res_bind]. cbn in Hp.
    destruct (lookup_lt_is_Some_2 reqs i) as [old Hold]; [rewrite Hlen; by eapply lookup_lt_Some|].
    rewrite Hold. cbn [unwrap mbind res_bind].
    destruct (IH Hv (S orig) (<[i := old ++ [(orig, s)]]> reqs)) as (reqs' & Hrun & Hlen' & Hspec); [by rewrite length_insert|].
    exists reqs'. split_and!; [done..|]. intros k rs' Hrs'. destruct (Hspec k rs' Hrs') as (rs1 & Hrs1 & Hiff).
    assert (Hinfo : ∀ r, ((orig ≤ r.1)%nat ∧ ((i, s) :: infos) !! (r.1 - orig)%nat = Some (k, r.2)) ↔
              (r = (orig, s) ∧ k = i) ∨ ((S orig ≤ r.1)%nat ∧ infos !! (r.1 - S orig)%nat = Some (k, r.2))).
    { intros [o x]. cbn. split.
      - intros [Ho Hl]. destruct (o - orig)%nat as [|d] eqn:Hd; cbn in Hl; [left; injection Hl as -> ->; split; [f_equal; lia|done]|].
        right. split; [lia|]. by replace (o - S orig)%nat with d by lia.
      - intros [[[= -> ->] ->]|[Ho Hl]]; [by rewrite Nat.sub_diag|]. split; [lia|]. by replace (o - orig)%nat with (S (o - S orig)) by lia. }
    destruct (decide (k = i)) as [->|Hki].
    + rewrite list_lookup_insert_eq in Hrs1 by (by eapply lookup_lt_Some). injection Hrs1 as <-. exists old. split; [done|].
      intros r. rewrite Hiff, Hinfo, elem_of_app, list_elem_of_singleton. tauto.
    + rewrite list_lookup_insert_ne in Hrs1 by done. exists rs1. split; [done|]. intros r. rewrite Hiff, Hinfo. tauto.
Qed.

Lemma serve_run target reqs i results : length results = length target →
  (∀ k rs, reqs !! k = Some rs → ∀ r, r ∈ rs → valid ((i + k)%nat, r.2) ∧ target !! r.1 = Some (samples (i + k)%nat r.2)) →
  ∃ results', serve_requests (providers w) i reqs results = Ok results' ∧ length results' = length target ∧
    (∀ j, filled target results j ∨ (∃ k rs s, reqs !! k = Some rs ∧ (j, s) ∈ rs) → filled target results' j).
Proof.
  revert i results. induction reqs as [|rs reqs IH]; intros i results Hlen Hreqs; cbn [serve_requests].
  - exists results. split_and!; [done..|]. intros j [?|(k & rs & s & Hk & _)]; done.
  - assert (Hstep : ∃ results1, (if bool_decide (rs = []) then Ok results else
        p ← unwrap (providers w !! i); ranges ← ranges_of rs; fetch_ranges p ranges results) = Ok results1 ∧
        length results1 = length target ∧ (∀ j, filled target results j ∨ (∃ s, (j, s) ∈ rs) → filled target results1 j)).
    { case_bool_decide as Hrs; [subst rs; exists results; split_and!; [done..|]; intros j [?|[s []%elem_of_nil]]; done|].
      pose proof (Hreqs 0%nat rs eq_refl) as Hhead. rewrite Nat.add_0_r in Hhead.
      assert (Hp : ∃ p, providers w !! i = Some p).
      { destruct rs as [|r rs]; [done|]. destruct (Hhead r ltac:(by left)) as [(p & Hp & _) _]. by exists p. }
      destruct Hp as [p Hp]. rewrite Hp. cbn [unwrap mbind res_bind]. destruct (Hindexed i p Hp) as [Hix Hmax].
      assert (Hdue : Forall (due target p (samples i)) rs).
      { apply list.Forall_forall. intros r Hr. destruct (Hhead r Hr) as [(p' & Hp' & Hb) Ht]. cbn in *. split; [congruence|done]. }
      destruct (ranges_of_run (E := DataError) rs) as (ranges & -> & Hcs & Hperm).
      { eapply list.Forall_impl; [exact Hdue|]. intros r [Hb _]. lia. }
      cbn [mbind res_bind]. destruct (fetch_ranges_run target p (samples i) ranges results Hlen Hcs) as (results1 & -> & Hlen1 & Hf); [by rewrite Hperm|].
      exists results1. split_and!; [done..|]. intros j [Hj|[s Hs]]; apply Hf; [by left|right]. rewrite Hperm. apply list_elem_of_fmap. by exists (j, s). }
    destruct Hstep as (results1 & -> & Hlen1 & Hf1). cbn [mbind res_bind].
    destruct (IH (S i) results1 Hlen1) as (results2 & -> & Hlen2 & Hf2).
    { intros k rs' Hk r Hr. replace (S i + k)%nat with (i + S k)%nat by lia. by apply (Hreqs (S k) rs'). }
    exists results2. split_and!; [done..|]. intros j Hj. apply Hf2.
    destruct Hj as [Hj|(k & rs' & s & Hk & Hs)]; [left; apply Hf1; by left|].
    destruct k as [|k]; cbn in Hk; [left; apply Hf1; right; injection Hk as <-; by exists s|right; by exists k, rs', s].
Qed.

Lemma weighted_run a b infos : a <= b → b - a < u64_max → mapM (get_sample_info (E := DataError) w) (seqZ a (b - a + 1)) = Ok infos → Forall valid infos →
  (∀ info, info ∈ infos → input_ids (samples info.1 info.2) ≠ []) →
  weighted_get_samples w (mkClosedInterval a b) = Ok ((λ info, samples info.1 info.2) <$> infos).
Proof.
  intros Hab Hmax Hinfos Hv Hne. unfold weighted_get_samples, batch_iter. cbn [start end_].
  assert (Hn : length infos = Z.to_nat (b - a + 1)) by (apply mapM_length in Hinfos; by rewrite length_seqZ in Hinfos).
  set (target := (λ info, samples info.1 info.2) <$> infos).
  destruct (collect_run _ _ 0 (replicate (length (providers w)) []) Hinfos Hv) as (reqs & -> & Hlen & Hreqs); [by rewrite length_replicate|].
  assert (Hspec : ∀ k rs, reqs !! k = Some rs → ∀ r, r ∈ rs ↔ infos !! r.1 = Some (k, r.2)).
  { intros k rs Hk r. destruct (Hreqs k rs Hk) as (rs0 & Hrs0 & ->). apply lookup_replicate in Hrs0 as [-> _].
    rewrite Nat.sub_0_r. split; [intros [[]%elem_of_nil|[_ ?]]; done|]. intros ?. right. split; [lia|done]. }
  cbn [mbind res_bind]. unfold as_u64. rewrite Z.mod_small by (unfold u64_max in *; lia). rewrite <- Hn.
  destruct (serve_run target reqs 0 (replicate (length infos) TokenizedData_empty)) as (results & -> & Hlen' & Hf).
  { unfold target. by rewrite length_replicate, length_fmap. }
  { intros k rs Hk r Hr. apply (Hspec k rs Hk) in Hr. cbn [Nat.add]. split.
    - exact (list.Forall_lookup_1 _ _ _ _ Hv Hr).
    - unfold target. by rewrite list_lookup_fmap, Hr. }
  cbn [mbind res_bind]. assert (Hres : results = target).
  { apply list_eq. intros j. destruct (infos !! j) as [[k s]|] eqn:Hj.
    - apply Hf. right. pose proof (list.Forall_lookup_1 _ _ _ _ Hv Hj) as (p & Hp & _). cbn in Hp.
      destruct (lookup_lt_is_Some_2 reqs k) as [rs Hrs]; [rewrite Hlen; by eapply lookup_lt_Some|].
      exists k, rs, s. split; [done|]. by apply (Hspec k rs Hrs).
    - apply lookup_ge_None in Hj. rewrite !lookup_ge_None_2; [done|unfold target; rewrite length_fmap; lia|].
      rewrite Hlen'. unfold target. rewrite length_fmap. lia. }
  rewrite Hres. assert (Hex : existsb (λ v, bool_decide (input_ids v = [])) target = false).
  { apply not_true_iff_false. intros (v & Hv' & Hnil%bool_decide_eq_true)%existsb_exists.
    apply list_elem_of_In, list_elem_of_fmap in Hv' as (info & -> & Hin). by apply (Hne info Hin). }
  by rewrite Hex.
Qed.
End Batch.
