(* ===== verification/WeightedThms.v ===== *)
(** * What weighted data gives

    The index has one entry for every sample of the providers; each entry is a sample of a
    provider that has some, and a provider's samples are drawn in turn, none twice before all
    of them once.  A batch gives the samples its ids stand for, in order, however it was
    grouped and cut into runs. *)

From stdpp Require Import base tactics list numbers strings.
From Stdlib Require Import SpecFloat.
From S2P Require Import Prelude StableSort CoreTypes CoordinatorState Float Float32 Float64 Shuffle Timeline DataProviders DataProviderThms Weighted WeightedBatches.

Open Scope Z_scope.

(** How often a provider was drawn. *)
Definition drawn (p : nat) (l : list nat) : Z := Z.of_nat (count_occ Nat.eq_dec l p).

Lemma drawn_snoc p q l : drawn p (l ++ [q]) = drawn p l + (if decide (q = p) then 1 else 0).
Proof.
  unfold drawn. rewrite count_occ_app. cbn. destruct (Nat.eq_dec q p); case_decide; lia.
Qed.
Lemma drawn_bound p l : 0 <= drawn p l <= zlen l.
Proof. unfold drawn, zlen. pose proof (count_occ_bound Nat.eq_dec p l). lia. Qed.

(** ** The choice *)

Section Choice.
Context {E : Type} (weights : list f64) (sizes totals : list Z) (f : f64).
Hypothesis Hsizes : length sizes = length weights.
Hypothesis Htotals : length totals = length weights.

Lemma consider_run best i : (i < length weights)%nat → ∃ size w t, sizes !! i = Some size ∧ weights !! i = Some w ∧
  totals !! i = Some t ∧
  consider (E := E) weights sizes totals f best i =
    Ok (if size =? 0 then best
        else if f64_ltb best.1 (f64_sub (f64_mul w f) (f64_of_Z t)) then (f64_sub (f64_mul w f) (f64_of_Z t), i) else best).
Proof.
  intros Hi. destruct (lookup_lt_is_Some_2 sizes i) as [size Hs]; [lia|].
  destruct (lookup_lt_is_Some_2 weights i) as [w Hw]; [lia|]. destruct (lookup_lt_is_Some_2 totals i) as [t Ht]; [lia|].
  exists size, w, t. unfold consider. rewrite Hs, Hw, Ht. cbn [unwrap mbind res_bind]. split_and!; [done..|]. by destruct (size =? 0).
Qed.

(** What is kept is the start, or a provider that has samples. *)
Definition sensible (best : f64 * nat) : Prop :=
  (best.1 = S754_infinity true ∧ best.2 = 0%nat) ∨ ∃ size, sizes !! best.2 = Some size ∧ size ≠ 0.

Lemma choose_run l best : Forall (λ i, i < length weights)%nat l → sensible best →
  ∃ i, choose_from (E := E) weights sizes totals f best l = Ok i ∧
    (i = 0%nat ∨ ∃ size, sizes !! i = Some size ∧ size ≠ 0) ∧
    ((best.1 ≠ S754_infinity true ∨ ∃ j size w t, j ∈ l ∧ sizes !! j = Some size ∧ size ≠ 0 ∧ weights !! j = Some w ∧
        totals !! j = Some t ∧ f64_ltb (S754_infinity true) (f64_sub (f64_mul w f) (f64_of_Z t)) = true) →
     ∃ size, sizes !! i = Some size ∧ size ≠ 0).
Proof.
  intros Hl. revert best. induction Hl as [|i l Hi _ IH]; intros best Hbest; cbn [choose_from].
  - exists best.2. split; [done|]. split; [destruct Hbest as [[_ ->]|?]; auto|].
    intros [Hne|(j & ? & ? & ? & []%elem_of_nil & _)]. by destruct Hbest as [[? _]|?].
  - destruct (consider_run best i Hi) as (size & w & t & Hs & Hw & Ht & ->). cbn [mbind res_bind].
    set (error := f64_sub _ _). set (best' := if size =? 0 then _ else _).
    assert (Hbest' : sensible best').
    { subst best'. destruct (Z.eqb_spec size 0); [done|]. destruct (f64_ltb best.1 error); [|done]. right. by exists size. }
    destruct (IH best' Hbest') as (c & Hc & H0 & Hgood). exists c. split; [done|]. split; [done|]. intros Hex. apply Hgood.
    destruct (decide (size ≠ 0 ∧ f64_ltb best.1 error = true)) as [[Hne Hlt]|Hno].
    + left. subst best'. rewrite (proj2 (Z.eqb_neq _ _)), Hlt by done. cbn. intros Hinf. rewrite Hinf in Hlt.
      by destruct best.1 as [[]|[]| |[] ? ?].
    + assert (best' = best) as ->.
      { subst best'. destruct (Z.eqb_spec size 0); [done|]. destruct (f64_ltb best.1 error) eqn:Hlt; [|done]. by destruct Hno. }
      destruct Hex as [Hne|(j & sz & w' & t' & Hj & Hsz & Hne & Hw' & Ht' & Hlt)]; [by left|].
      apply elem_of_cons in Hj as [->|Hj]; [|right; by exists j, sz, w', t'].
      left. intros Hinf. apply Hno. split; [congruence|]. rewrite Hinf. unfold error. congruence.
Qed.
End Choice.

(** ** The draws *)

(** Some provider with samples has a weight that is a number or infinity, not negative. *)
Definition fair (weights : list f64) (sizes : list Z) : Prop :=
  ∃ i size w, sizes !! i = Some size ∧ size ≠ 0 ∧ weights !! i = Some w ∧ plus_signed w.

(** The samples of every provider come in turn. *)
Definition in_turn (sizes : list Z) (index : list nat) (sample_index : list Z) : Prop :=
  ∀ j p s, index !! j = Some p → sample_index !! j = Some s →
    ∃ size, sizes !! p = Some size ∧ 0 < size ∧ s = drawn p (take j index) mod size.

Section Draws.
Context {E : Type} (weights : list f64) (sizes : list Z).
Hypothesis Hlen : length sizes = length weights.
Hypothesis Hsizes : Forall (λ size, 0 <= size <= u64_max) sizes.
Hypothesis Hfair : fair weights sizes.

Record draws_ok (d : Draws) : Prop := {
  ok_totals : length (total_samples_drawn d) = length weights;
  ok_samples : length (drawn_sample_index d) = length (drawn_index d);
  ok_counts : ∀ p size, sizes !! p = Some size → let c := drawn p (drawn_index d) in
    total_samples_drawn d !! p = Some c ∧ is_exhausted d !! p = Some (bool_decide (0 < size <= c)) ∧
    ∃ n, next_unique_index d !! p = Some n ∧ (0 < size <= c ∨ n = c);
  ok_turn : in_turn sizes (drawn_index d) (drawn_sample_index d);
}.

Lemma factor_number k : 0 <= k <= u64_max → ∃ m e, sf_max (f64_of_Z k) (f64_of_Z 1) = S754_finite false m e.
Proof.
  intros Hk. destruct (Z.eq_dec k 0) as [->|Hne]; [by eexists _, _|].
  destruct (sf_max_cases (f64_of_Z k) (f64_of_Z 1)) as [->| ->]; apply f64_of_Z_pos; unfold u64_max in *; lia.
Qed.

Lemma choose_ok d : draws_ok d → zlen (drawn_index d) < u64_max → ∃ p size,
  choose_provider (E := E) weights sizes (total_samples_drawn d) (zlen (drawn_index d)) = Ok p ∧ sizes !! p = Some size ∧ 0 < size.
Proof.
  intros Hd Hmax. unfold choose_provider. destruct (factor_number (zlen (drawn_index d))) as (m & e & ->); [unfold zlen in *; lia|].
  destruct (choose_run (E := E) weights sizes (total_samples_drawn d) (S754_finite false m e) Hlen (ok_totals d Hd)
    (seq 0 (length weights)) (S754_infinity true, 0%nat)) as (p & Hp & _ & Hgood).
  { apply list.Forall_forall. intros i Hi%elem_of_seq. lia. }
  { left. done. }
  destruct Hgood as (size & Hs & Hne).
  - right. destruct Hfair as (i & size & w & Hs & Hne & Hw & Hpos). destruct (ok_counts d Hd i size Hs) as (Ht & _).
    exists i, size, w, (drawn i (drawn_index d)). split_and!; try done.
    + apply elem_of_seq. apply lookup_lt_Some in Hs. lia.
    + apply f64_sub_above; [by apply f64_mul_number|]. pose proof (drawn_bound i (drawn_index d)). lia.
  - exists p, size. split_and!; [done..|]. pose proof (list.Forall_lookup_1 _ _ _ _ Hsizes Hs). cbn in *. lia.
Qed.

Lemma in_turn_snoc index sample_index p size : length sample_index = length index → in_turn sizes index sample_index →
  sizes !! p = Some size → 0 < size → in_turn sizes (index ++ [p]) (sample_index ++ [drawn p index mod size]).
Proof.
  intros Hl Ht Hs Hpos j q s Hq Hsj. destruct (decide (j < length index)%nat) as [Hj|Hj].
  - rewrite lookup_app_l in Hq by lia. rewrite lookup_app_l in Hsj by lia. rewrite take_app_le by lia. by apply Ht.
  - apply lookup_snoc_Some in Hq as [[? _]|[-> ->]]; [lia|]. rewrite lookup_app_r, Hl, Nat.sub_diag in Hsj by lia.
    injection Hsj as <-. exists size. by rewrite take_app_length.
Qed.

Lemma draws_ok_snoc d p size n x : draws_ok d → sizes !! p = Some size → 0 < size →
  let c := drawn p (drawn_index d) in
  x = bool_decide (0 < size <= c + 1) → (0 < size <= c + 1 ∨ n = c + 1) →
  draws_ok (mkDraws (<[p := c + 1]> (total_samples_drawn d)) (<[p := n]> (next_unique_index d))
    (<[p := x]> (is_exhausted d)) (drawn_index d ++ [p]) (drawn_sample_index d ++ [c mod size])).
Proof.
  intros Hd Hs Hpos c Hx Hn. split; cbn [total_samples_drawn next_unique_index is_exhausted drawn_index drawn_sample_index].
  - rewrite length_insert. apply Hd.
  - rewrite !length_app, (ok_samples d Hd). done.
  - intros q sz Hq. destruct (ok_counts d Hd q sz Hq) as (Ht' & Hx' & n' & Hn' & Hc'). rewrite drawn_snoc. destruct (decide (p = q)) as [<-|Hpq].
    + assert (sz = size) as -> by congruence.
      rewrite !list_lookup_insert_eq by (by eapply lookup_lt_Some). subst x. split_and!; [done..|by exists n].
    + rewrite !list_lookup_insert_ne by done. rewrite Z.add_0_r. split_and!; [done..|by exists n'].
  - apply in_turn_snoc; [apply Hd|apply Hd|done..].
Qed.

Lemma draw_ok d : draws_ok d → zlen (drawn_index d) < u64_max → ∃ p d',
  draw (E := E) weights sizes (zlen (drawn_index d)) d = Ok d' ∧ draws_ok d' ∧ drawn_index d' = drawn_index d ++ [p].
Proof.
  intros Hd Hmax. destruct (choose_ok d Hd Hmax) as (p & size & Hp & Hs & Hpos). exists p. unfold draw. rewrite Hp. cbn [mbind res_bind].
  destruct (ok_counts d Hd p size Hs) as (Ht & Hx & n & Hn & Hcase). pose proof (drawn_bound p (drawn_index d)) as Hb.
  pose proof (λ n x, draws_ok_snoc d p size n x Hd Hs Hpos) as Hsnoc. cbn zeta in *. set (c := drawn p (drawn_index d)) in *.
  rewrite Hs, Hx, Hn, Ht. cbn [unwrap mbind res_bind].
  assert (Hc : as_u64 (c + 1) = c + 1) by (apply Z.mod_small; unfold u64_max in *; lia). rewrite Hc.
  destruct (decide (0 < size <= c)) as [Hex|Hno].
  - rewrite bool_decide_true by done. cbn [negb]. rewrite (proj2 (Z.eqb_neq _ _)) by lia. cbn [negb res_assert mbind res_bind].
    eexists. split; [done|]. split; [|done].
    rewrite <- (list_insert_id (next_unique_index d) p n Hn), <- (list_insert_id (is_exhausted d) p _ Hx).
    apply Hsnoc; [|left; lia]. apply bool_decide_ext. lia.
  - destruct Hcase as [?| ->]; [done|]. rewrite bool_decide_false by done. cbn [negb mbind res_bind]. cbn zeta.
    eexists. split; [done|]. split; [|done].
    assert (Hex : (if c + 1 =? size then <[p := true]> (is_exhausted d) else is_exhausted d) = <[p := bool_decide (0 < size <= c + 1)]> (is_exhausted d)).
    { destruct (Z.eqb_spec (c + 1) size); [by rewrite bool_decide_true by lia|].
      rewrite bool_decide_false in Hx by done. rewrite bool_decide_false by lia. by rewrite list_insert_id. }
    rewrite Hc, Hex. pose proof (Hsnoc (c + 1) _ eq_refl (or_intror eq_refl)) as Hok. by rewrite (Z.mod_small c size) in Hok by lia.
Qed.

Lemma draw_all_ok n d : draws_ok d → zlen (drawn_index d) + Z.of_nat n <= u64_max → ∃ d',
  draw_all (E := E) weights sizes (zlen (drawn_index d)) n d = Ok d' ∧ draws_ok d' ∧
  zlen (drawn_index d') = zlen (drawn_index d) + Z.of_nat n.
Proof.
  revert d. induction n as [|n IH]; intros d Hd Hmax; cbn [draw_all].
  - exists d. split_and!; [done..|lia].
  - destruct (draw_ok d Hd) as (p & d' & -> & Hd' & Hi); [lia|]. cbn [mbind res_bind].
    assert (Hz : zlen (drawn_index d') = zlen (drawn_index d) + 1) by (rewrite Hi; unfold zlen; rewrite length_app; cbn; lia).
    rewrite <- Hz. destruct (IH d' Hd') as (d'' & Hrun & Hd'' & Hl); [lia|]. exists d''. split_and!; [done..|lia].
Qed.

Lemma no_draws_ok : draws_ok (mkDraws (replicate (length weights) 0) (replicate (length weights) 0) (replicate (length weights) false) [] []).
Proof.
  split; cbn; [by rewrite length_replicate|done| |intros j p s Hj; done].
  intros p size Hs. assert (Hp : (p < length weights)%nat) by (rewrite <- Hlen; by eapply lookup_lt_Some).
  rewrite !lookup_replicate_2 by done. pose proof (list.Forall_lookup_1 _ _ _ _ Hsizes Hs) as Hsz. cbn in Hsz.
  split_and!; [done|f_equal; symmetry; apply bool_decide_false; unfold drawn; cbn; lia|]. exists 0. split; [done|by right].
Qed.

Lemma index_ok n : 0 <= n <= u64_max → ∃ index sample_index, build_weighted_index (E := E) n weights sizes = Ok (index, sample_index) ∧
  zlen index = n ∧ length sample_index = length index ∧ in_turn sizes index sample_index.
Proof.
  intros Hn. unfold build_weighted_index. destruct (draw_all_ok (Z.to_nat n) _ no_draws_ok) as (d & Hrun & Hd & Hl).
  { cbn. unfold zlen. cbn. lia. }
  change (zlen (drawn_index _)) with 0 in Hrun, Hl at 2. rewrite Hrun. cbn [mbind res_bind]. eexists _, _. split; [done|]. split; [lia|]. split; apply Hd.
Qed.
End Draws.

(** ** The shuffle *)

Lemma swap_zip {E A B} (l : list A) (k : list B) i j l' k' : swap (E := E) l i j = Ok l' → swap (E := E) k i j = Ok k' →
  swap (E := E) (zip l k) i j = Ok (zip l' k').
Proof.
  unfold swap. intros (x & Hx & (y & Hy & [= <-])%res_bind_Ok)%res_bind_Ok (u & Hu & (v & Hv & [= <-])%res_bind_Ok)%res_bind_Ok.
  unfold unwrap in *. destruct (l !! i) as [x'|] eqn:Hli; [|done]. destruct (l !! j) as [y'|] eqn:Hlj; [|done].
  destruct (k !! i) as [u'|] eqn:Hki; [|done]. destruct (k !! j) as [v'|] eqn:Hkj; [|done].
  injection Hx as ->. injection Hy as ->. injection Hu as ->. injection Hv as ->.
  rewrite !lookup_zip_with, Hli, Hlj, Hki, Hkj. cbn. by rewrite <- !insert_zip_with.
Qed.

Lemma shuffle_down_run {C : ChaCha} {CL : ChaChaLaws C} {E : Type} seed n i l k : (i < length l ∨ i = 0)%nat → length k = length l →
  ∃ l' k', shuffle_down (E := E) seed n i l k = Ok (l', k') ∧ length l' = length l ∧ length k' = length k ∧ zip l' k' ≡ₚ zip l k.
Proof.
  revert n l k. induction i as [|i IH]; intros n l k Hi Hk; cbn [shuffle_down]; [by exists l, k|].
  pose proof (rand_range_le seed n (S i)) as Hj. set (j := rand_range seed n (S i)) in *.
  destruct (swap_permutes (E := E) l (S i) j) as (l1 & Hl1 & Hp1); [lia..|].
  destruct (swap_permutes (E := E) k (S i) j) as (k1 & Hk1 & Hp2); [lia..|].
  destruct (swap_permutes (E := E) (zip l k) (S i) j) as (z & Hz & Hp3); [rewrite length_zip_with; lia..|].
  pose proof (swap_zip _ _ _ _ _ _ Hl1 Hk1) as Hzip. rewrite Hz in Hzip. injection Hzip as ->.
  rewrite Hl1, Hk1. cbn [mbind res_bind].
  pose proof (Permutation_length Hp1). pose proof (Permutation_length Hp2).
  destruct (IH (S n) l1 k1) as (l' & k' & Hrun & Hl' & Hk' & Hperm); [lia..|].
  exists l', k'. split_and!; [done|lia..|]. by rewrite Hperm.
Qed.

(** ** The provider *)

Lemma sum_u64 l : Forall (λ n, 0 <= n) l → foldr Z.add 0 l <= u64_max → foldl (λ s n, as_u64 (s + n)) 0 l = foldr Z.add 0 l.
Proof.
  intros Hl Hmax. enough (Hgen : ∀ s, 0 <= s → s + foldr Z.add 0 l <= u64_max → foldl (λ s n, as_u64 (s + n)) s l = s + foldr Z.add 0 l).
  { rewrite Hgen by lia. done. }
  clear Hmax. induction Hl as [|n l Hn Hl IH]; intros s Hs Hmax; cbn [foldl foldr] in *; [lia|].
  assert (Hpos : 0 <= foldr Z.add 0 l) by (clear -Hl; induction Hl; cbn; lia).
  assert (Hsn : as_u64 (s + n) = s + n) by (apply Z.mod_small; unfold u64_max in *; lia). rewrite Hsn, IH by lia. lia.
Qed.

Lemma epochs_one n : 0 < n <= u64_max → f64_as_unsigned u64_max (f64_ceil (f64_div (f64_of_Z n) (f64_of_Z n))) = 1.
Proof. intros Hn. destruct (f64_of_Z_pos n Hn) as (m & e & ->). rewrite f64_div_self. vm_compute. reflexivity. Qed.

Lemma fair_lengths ps : Forall (λ p, 0 <= num_sequences p <= u64_max) ps → 0 < foldr Z.add 0 (num_sequences <$> ps) →
  fair (weights_of (LengthWeighted ps)) (num_sequences <$> ps).
Proof.
  intros Hps Hpos. assert (Hex : ∃ i p, ps !! i = Some p ∧ 0 < num_sequences p).
  { clear Hps. induction ps as [|p ps IH]; cbn in Hpos; [lia|]. destruct (decide (0 < num_sequences p)); [by exists 0%nat, p|].
    destruct IH as (i & q & Hi & Hq); [lia|]. by exists (S i), q. }
  destruct Hex as (i & p & Hp & Hn). pose proof (list.Forall_lookup_1 _ _ _ _ Hps Hp) as Hb. cbn in Hb.
  unfold fair, weights_of, normalize. set (sum := foldl _ _ _).
  exists i, (num_sequences p), (f64_div (f64_of_Z (num_sequences p)) sum). rewrite !list_lookup_fmap, Hp.
  split_and!; [done|lia|done|]. destruct (f64_of_Z_pos (num_sequences p)) as (m & e & ->); [lia|]. apply f64_div_number.
  subst sum. assert (H0 : plus_signed (S754_zero false)) by (by left). revert H0. generalize (S754_zero false) as s.
  clear -Hps. induction Hps as [|q ps Hq _ IH]; intros s Hs; cbn; [done|]. apply IH, f64_add_plus; [done|].
  by eapply finite_upto_plus, f64_of_Z_upto.
Qed.

Lemma weights_length wp : length (weights_of wp) = length (providers_of wp).
Proof. destruct wp; cbn; unfold normalize; by rewrite !length_fmap. Qed.

Section New.
Context {C : ChaCha} {CL : ChaChaLaws C} (wp : Providers) (kind : ShuffleKind).
Let sizes : list Z := num_sequences <$> providers_of wp.
Hypothesis Hnonneg : Forall (λ p, 0 <= num_sequences p) (providers_of wp).
Hypothesis Htotal : foldr Z.add 0 sizes <= u64_max.
Hypothesis Hfair : fair (weights_of wp) sizes.

Lemma sizes_ok : Forall (λ size, 0 <= size <= u64_max) sizes.
Proof.
  subst sizes. revert Htotal. clear Hfair. induction Hnonneg as [|p ps Hp Hps IH]; cbn; intros Hmax; [apply Forall_nil_2|].
  assert (Hpos : 0 <= foldr Z.add 0 (num_sequences <$> ps)) by (clear -Hps; induction Hps; cbn; lia).
  apply Forall_cons_2; [lia|]. apply IH; [done|lia].
Qed.

Lemma new_run {E : Type} : ∃ w index sample_index, weighted_new (E := E) wp kind = Ok w ∧ providers w = providers_of wp ∧
  zlen (dataset_index w) = foldr Z.add 0 sizes ∧ length (dataset_sample_index w) = length (dataset_index w) ∧
  in_turn sizes index sample_index ∧ zip (dataset_index w) (dataset_sample_index w) ≡ₚ zip index sample_index ∧
  zlen index = foldr Z.add 0 sizes ∧ length sample_index = length index.
Proof.
  assert (Hlen : length sizes = length (weights_of wp)) by (unfold sizes; by rewrite length_fmap, weights_length).
  assert (Hpos : 0 < foldr Z.add 0 sizes).
  { destruct Hfair as (i & size & w & Hs & Hne & _). pose proof sizes_ok as Hok. clear -Hs Hne Hok. revert i Hs.
    induction Hok as [|s l Hs' Hok IH]; intros i Hs; [done|]. assert (0 <= foldr Z.add 0 l) by (clear -Hok; induction Hok; cbn; lia).
    destruct i as [|i]; cbn in *; [injection Hs as ->; lia|]. specialize (IH i Hs). lia. }
  destruct (index_ok (E := E) (weights_of wp) sizes Hlen sizes_ok Hfair (foldr Z.add 0 sizes)) as (index & sidx & Hidx & Hn & Hsn & Hturn); [lia|].
  assert (Hshuf : ∃ l' k', match kind with Seeded seed => shuffle_index (E := E) seed index sidx | DontShuffle => Ok (index, sidx) end = Ok (l', k') ∧
            length l' = length index ∧ length k' = length sidx ∧ zip l' k' ≡ₚ zip index sidx).
  { destruct kind as [|seed]; [by exists index, sidx|]. apply shuffle_down_run; [lia|done]. }
  destruct Hshuf as (l' & k' & Hshuf & Hl' & Hk' & Hperm).
  unfold weighted_new. rewrite weights_length, Nat.eqb_refl. cbn [res_assert mbind res_bind]. fold sizes.
  rewrite sum_u64 by (try done; by eapply list.Forall_impl; [exact sizes_ok|intros ? [? _]]).
  rewrite Hidx. cbn [mbind res_bind]. rewrite Hshuf. cbn [mbind res_bind]. rewrite epochs_one by lia.
  change (Z.to_nat 1) with 1%nat. cbn [replicate mjoin list_join]. rewrite !app_nil_r.
  rewrite (take_ge l') by (unfold zlen in *; lia). rewrite (take_ge k') by (unfold zlen in *; lia).
  eexists _, index, sidx. split; [done|]. cbn. split_and!; try done; [unfold zlen in *; lia|lia].
Qed.

(** The index of weighted data has as many entries as the providers have samples, and is an
    order of a list in which every entry is a sample of a provider and the samples of each
    provider come in turn: none is repeated before all of its samples were drawn. *)
Theorem weighted_index_in_turn {E : Type} : ∃ w index sample_index, weighted_new (E := E) wp kind = Ok w ∧
  zlen (dataset_index w) = foldr Z.add 0 sizes ∧
  zip (dataset_index w) (dataset_sample_index w) ≡ₚ zip index sample_index ∧
  zlen index = foldr Z.add 0 sizes ∧ length sample_index = length index ∧
  ∀ j p s, index !! j = Some p → sample_index !! j = Some s →
    ∃ size, sizes !! p = Some size ∧ 0 < size ∧ s = drawn p (take j index) mod size.
Proof.
  destruct (new_run (E := E)) as (w & index & sidx & Hnew & _ & Hn & _ & Hturn & Hperm & Hn' & Hs). by exists w, index, sidx.
Qed.

Context (samples : nat → Z → TokenizedData).
Hypothesis Hindexed : ∀ i p, providers_of wp !! i = Some p → Indexed p (samples i).
Hypothesis Hfull : ∀ i p s, providers_of wp !! i = Some p → 0 <= s < num_sequences p → input_ids (samples i s) ≠ [].

(** The sample an id stands for; beyond the end, the first sample of the first provider. *)
Definition weighted_sample (w : WeightedDataProvider) (id : Z) : TokenizedData :=
  match znth (zip (dataset_index w) (dataset_sample_index w)) id with
  | Some (p, s) => samples p s
  | None => samples 0 0
  end.

Lemma info_run {E : Type} w id : length (dataset_sample_index w) = length (dataset_index w) → 0 <= id →
  get_sample_info (E := E) w id = Ok (default (0%nat, 0) (znth (zip (dataset_index w) (dataset_sample_index w)) id)).
Proof.
  intros Hlen Hid. unfold get_sample_info, znth. rewrite (proj2 (Z.ltb_ge id 0)) by done. unfold zlen. rewrite lookup_zip_with.
  destruct (Z.leb_spec (Z.of_nat (length (dataset_index w))) id).
  - by rewrite (lookup_ge_None_2 (dataset_index w)) by lia.
  - destruct (lookup_lt_is_Some_2 (dataset_index w) (Z.to_nat id)) as [p ->]; [lia|].
    destruct (lookup_lt_is_Some_2 (dataset_sample_index w) (Z.to_nat id)) as [s ->]; [lia|]. done.
Qed.

(** C35: Weighted data serves batches: every batch of ids gives the samples they stand for, in
    order, whichever providers they come from; ids beyond the end give the first sample of
    the first provider again, when it has one. *)
Theorem weighted_serves_batches {E : Type} w a b : weighted_new (E := E) wp kind = Ok w → 0 <= a <= b → b - a < u64_max →
  b < zlen (dataset_index w) ∨ (∃ p, providers_of wp !! 0%nat = Some p ∧ 0 < num_sequences p) →
  weighted_get_samples w (mkClosedInterval a b) = Ok (weighted_sample w <$> seqZ a (b - a + 1)).
Proof.
  intros Hnew Hab Hmax Hend. destruct (new_run (E := E)) as (w' & index & sidx & Hnew' & Hps & Hn & Hs & Hturn & Hperm & Hn' & Hs').
  rewrite Hnew in Hnew'. injection Hnew' as <-.
  set (entries := zip (dataset_index w) (dataset_sample_index w)) in *.
  assert (Hentries : ∀ info, info ∈ entries → valid w info).
  { intros [p s] Hin. rewrite Hperm in Hin. apply list_elem_of_lookup in Hin as [j Hj]. apply lookup_zip_Some in Hj as [Hp Hsj].
    destruct (Hturn j p s Hp Hsj) as (size & Hsize & Hpos & ->). apply list_lookup_fmap_Some in Hsize as (prov & -> & Hprov).
    exists prov. rewrite Hps. cbn. split; [done|]. by apply Z.mod_pos_bound. }
  set (infos := (λ id, default (0%nat, 0) (znth entries id)) <$> seqZ a (b - a + 1)).
  assert (Hvalid : ∀ info, info ∈ infos → valid w info).
  { intros info (id & -> & Hid%elem_of_seqZ)%list_elem_of_fmap. destruct (znth entries id) as [e|] eqn:He; cbn.
    - apply Hentries. unfold znth in He. destruct (id <? 0); [done|]. by eapply list_elem_of_lookup_2.
    - destruct Hend as [Hb|(p & Hp & Hpos)]; [|exists p; rewrite Hps; split; [done|cbn; lia]].
      unfold znth, entries in He. rewrite (proj2 (Z.ltb_ge id 0)) in He by lia. apply lookup_ge_None in He.
      rewrite length_zip_with in He. unfold zlen in Hb. lia. }
  rewrite (weighted_run w samples) with (infos := infos).
  - unfold infos. rewrite <- list_fmap_compose. f_equal. apply list_fmap_ext. intros j id _. unfold weighted_sample, compose.
    fold entries. by destruct (znth entries id) as [[p s]|].
  - intros i p Hp. rewrite Hps in Hp. split; [by apply Hindexed|].
    assert (Hsz : sizes !! i = Some (num_sequences p)) by (unfold sizes; by rewrite list_lookup_fmap, Hp).
    pose proof (list.Forall_lookup_1 _ _ _ _ sizes_ok Hsz) as Hb. cbn in Hb. lia.
  - lia.
  - done.
  - apply mapM_total. intros id Hid%elem_of_seqZ. apply info_run; [done|lia].
  - by apply list.Forall_forall.
  - intros info Hin. destruct (Hvalid info Hin) as (p & Hp & Hb). rewrite Hps in Hp. by eapply Hfull.
Qed.
End New.

(** ** Seven rows and two *)

Module Mixed.
Import TwoFiles.
Definition two : list TokenizedData := from_input_ids <$> [[10]; [20]].
Definition mixed : Providers := LengthWeighted [preprocessed_provider seven; preprocessed_provider two].
Definition samples (i : nat) : Z → TokenizedData := if (i =? 0)%nat then row_at seven else row_at two.
Definition provider : WeightedDataProvider :=
  match @weighted_new turning unit mixed (Seeded []) with Ok w => w | _ => mkWeightedDataProvider [] [] [] end.

Lemma nonneg : Forall (λ p, 0 <= num_sequences p) (providers_of mixed).
Proof. apply Forall_cons_2; [vm_compute; intros [=]|]. apply Forall_cons_2; [vm_compute; intros [=]|]. apply Forall_nil_2. Qed.
Lemma small : foldr Z.add 0 (num_sequences <$> providers_of mixed) <= u64_max.
Proof. vm_compute. intros [=]. Qed.
Lemma mixed_fair : fair (weights_of mixed) (num_sequences <$> providers_of mixed).
Proof.
  apply fair_lengths; [|vm_compute; reflexivity]. apply Forall_cons_2; [|apply Forall_cons_2; [|apply Forall_nil_2]];
    (split; vm_compute; intros [=]).
Qed.
Lemma indexed i p : providers_of mixed !! i = Some p → Indexed p (samples i).
Proof. destruct i as [|[|i]]; cbn; [intros [= <-]..|done]; apply preprocessed_indexed. Qed.
Lemma rows_full data s : Forall (λ r, input_ids r ≠ []) data → 0 <= s < zlen data → input_ids (row_at data s) ≠ [].
Proof. intros Hd Hs. destruct (znth_range data s Hs) as (r & Hr & Hin). unfold row_at. rewrite Hr. by eapply list.Forall_forall in Hd. Qed.
Lemma full i p s : providers_of mixed !! i = Some p → 0 <= s < num_sequences p → input_ids (samples i s) ≠ [].
Proof.
  destruct i as [|[|i]]; cbn; [intros [= <-]..|done]; apply rows_full;
    repeat (apply Forall_cons_2; [intros [=]|]); apply Forall_nil_2.
Qed.
End Mixed.

Lemma weighted_index_in_turn_witness :
  @weighted_new TwoFiles.turning unit Mixed.mixed (Seeded []) = Ok Mixed.provider ∧ zlen (dataset_index Mixed.provider) = 9.
Proof.
  destruct (@weighted_index_in_turn TwoFiles.turning TwoFiles.turning_laws Mixed.mixed (Seeded []) Mixed.nonneg Mixed.small Mixed.mixed_fair unit)
    as (w & index & sidx & Hnew & Hn & _).
  split; [vm_compute; reflexivity|]. assert (w = Mixed.provider) as <-; [|exact Hn]. unfold Mixed.provider. rewrite Hnew. reflexivity.
Defined.

Lemma weighted_serves_batches_witness :
  weighted_get_samples Mixed.provider (mkClosedInterval 6 9) =
    Ok (weighted_sample Mixed.samples Mixed.provider <$> [6; 7; 8; 9]) ∧
  weighted_sample Mixed.samples Mixed.provider 9 = from_input_ids [1].
Proof.
  split; [|vm_compute; reflexivity].
  refine (@weighted_serves_batches TwoFiles.turning TwoFiles.turning_laws Mixed.mixed (Seeded []) Mixed.nonneg Mixed.small Mixed.mixed_fair
    Mixed.samples Mixed.indexed Mixed.full unit Mixed.provider 6 9 _ _ _ _).
  - vm_compute. reflexivity.
  - lia.
  - vm_compute. reflexivity.
  - right. exists (preprocessed_provider TwoFiles.seven). split; [reflexivity|vm_compute; reflexivity].
Defined.
