(* ===== verification/DataServer.v ===== *)
(** * Serving and fetching data

    src/shared/data-provider/src/remote: the data server of a centralised run, which serves
    the members of the current epoch, and its client; src/shared/client/src/fetch_data.rs:
    the task that fetches the batches of a step for the trainer, retrying what fails.

    A turn of the server is an event and what it sends; a failed [expect] is a panic, which
    ends the process.  What the provider answers to an attempt is an argument of the task. *)

From stdpp Require Import base tactics list numbers gmap.
From S2P Require Import Prelude CoreTypes CoordinatorState DataSelection CoordinatorThms Timeline DataProviders DataProviderThms.

Open Scope Z_scope.

(** ** The data server *)

Inductive RejectionReason := NotInThisRound | WrongDataIdForStep.
Inductive ServerToClientMessage :=
| TrainingData (data_ids : BatchId) (raw_data : list TokenizedData)
| RequestRejected (data_ids : BatchId) (reason : RejectionReason).

Record DataProviderTcpServer := mkDataServer {
  local_data_provider : Provider;
  server_state : Coordinator;
  in_round : list (list Z);
  provided_sequences : gmap (list Z) Z;
}.

Definition handle_new_state (state : Coordinator) (s : DataProviderTcpServer) : DataProviderTcpServer :=
  mkDataServer (local_data_provider s) state
    ((λ x, p2p_identity (id x)) <$> clients (epoch_state state)) (provided_sequences s).

Definition try_send_data (to : list Z) (data_ids : BatchId) (s : DataProviderTcpServer) : res RejectionReason (list TokenizedData) :=
  if negb (bool_decide (to ∈ in_round s)) then Err NotInThisRound
  else match get_samples (local_data_provider s) data_ids with Ok data => Ok data | _ => Panic end.

Definition handle_client_message {E : Type} (from : list Z) (data_ids : BatchId) (s : DataProviderTcpServer) :
    res E (DataProviderTcpServer * ServerToClientMessage) :=
  match try_send_data from data_ids s with
  | Ok data =>
      let old_count := default 0 (provided_sequences s !! from) in
      let count := as_u64 (old_count + as_u64 (end_ data_ids - start data_ids + 1)) in
      Ok (mkDataServer (local_data_provider s) (server_state s) (in_round s) (<[from := count]> (provided_sequences s)),
          TrainingData data_ids data)
  | Err reason => Ok (s, RequestRejected data_ids reason)
  | Panic => Panic
  end.

Inductive DataEvent :=
| NewState (state : Coordinator)
| Request (from : list Z) (data_ids : BatchId)
| Disconnected (from : list Z).
Definition data_poll {E : Type} (e : DataEvent) (s : DataProviderTcpServer) : res E (DataProviderTcpServer * option (list Z * ServerToClientMessage)) :=
  match e with
  | NewState state => Ok (handle_new_state state s, None)
  | Request from data_ids => '(s, reply) ← handle_client_message from data_ids s; Ok (s, Some (from, reply))
  | Disconnected _ => Ok (s, None)
  end.
Fixpoint data_run {E : Type} (es : list DataEvent) (s : DataProviderTcpServer) : res E (DataProviderTcpServer * list (list Z * ServerToClientMessage)) :=
  match es with
  | [] => Ok (s, [])
  | e :: es' =>
      '(s, reply) ← data_poll e s;
      '(s, replies) ← data_run es' s;
      Ok (s, option_list reply ++ replies)
  end.

(** ** Its client *)

Inductive ClientError := WrongDataId | UnexpectedMessage.
Definition receive_training_data (data_ids : BatchId) (reply : ServerToClientMessage) : res ClientError (list TokenizedData) :=
  match reply with
  | TrainingData received_id raw_data => if bool_decide (received_id = data_ids) then Ok raw_data else Err WrongDataId
  | _ => Err UnexpectedMessage
  end.

(** ** Fetching the batches of a step *)

Definition MAX_RETRIES : Z := 7.
Definition BASE_DELAY_MS : Z := 2000.

(** The attempts at one batch: its samples if one succeeds, and the waits between them.
    [answer] is what the provider says to the attempt after so many retries. *)
Fixpoint attempts (fuel : nat) (answer : Z → res DataError (list TokenizedData)) (retry_count : Z) :
    res DataError (option (list TokenizedData) * list Z) :=
  match answer retry_count with
  | Ok batch => Ok (Some batch, [])
  | Panic => Panic
  | Err _ =>
      if retry_count <? MAX_RETRIES then
        match fuel with
        | O => Ok (None, [])
        | S fuel' =>
            let retry_count := retry_count + 1 in
            '(batch, delays) ← attempts fuel' answer retry_count;
            Ok (batch, BASE_DELAY_MS * (retry_count - 1) :: delays)
        end
      else Ok (None, [])
  end.
(** The loop ends by its own count, so this fuel is never used up. *)
Definition fetch_batch (answer : Z → res DataError (list TokenizedData)) := attempts (Z.to_nat MAX_RETRIES) answer 0.

(** How the task of a step ends: all batches sent, one given up, the trainer gone, or a
    panic of the provider. *)
Inductive TaskEnd := AllSent | GaveUp (batch_id : BatchId) | ReceiverGone | TaskDied.

(** The task over the batches still assigned, the last one popped first: what it sends and
    how it ends; [open] says whether the trainer still takes batches after so many. *)
Fixpoint fetch_from (answer : BatchId → Z → res DataError (list TokenizedData)) (open : nat → bool) (sent : nat)
    (popped : list BatchId) : list (BatchId * list TokenizedData) * TaskEnd :=
  match popped with
  | [] => ([], AllSent)
  | batch_id :: rest =>
      match fetch_batch (answer batch_id) with
      | Ok (Some data, _) =>
          if open sent then let '(others, e) := fetch_from answer open (S sent) rest in ((batch_id, data) :: others, e)
          else ([], ReceiverGone)
      | Ok (None, _) => ([], GaveUp batch_id)
      | _ => ([], TaskDied)
      end
  end.
Definition fetch_data (answer : BatchId → Z → res DataError (list TokenizedData)) (open : nat → bool)
    (data_assignments : list (BatchId * NodeIdentity)) (identity : NodeIdentity) :
    list (BatchId * list TokenizedData) * TaskEnd :=
  fetch_from answer open 0 (reverse (get_batch_ids_for_node data_assignments identity)).

(** ** What the server sends *)

(** The members of the last state the server was told of. *)
Definition members_after (es : list DataEvent) (members : list (list Z)) : list (list Z) :=
  foldl (λ l e, match e with
                | NewState state => (λ x, p2p_identity (id x)) <$> clients (epoch_state state)
                | _ => l
                end) members es.

Lemma data_run_state {E : Type} es s s' replies : data_run (E := E) es s = Ok (s', replies) →
  local_data_provider s' = local_data_provider s ∧ in_round s' = members_after es (in_round s).
Proof.
  revert s replies. induction es as [|e es IH]; intros s replies; cbn [data_run].
  - by intros [= <- _].
  - intros ([s1 r1] & Hs1 & ([s2 r2] & Hs2 & [= <- _])%res_bind_Ok)%res_bind_Ok. apply IH in Hs2 as [-> ->].
    destruct e as [state|from ids|from]; cbn in Hs1.
    + by injection Hs1 as <- _.
    + apply res_bind_Ok in Hs1 as ([s3 reply] & Hh & [= <- _]). unfold handle_client_message in Hh.
      destruct (try_send_data from ids s); [by injection Hh as <- _..|done].
    + by injection Hs1 as <- _.
Qed.

(** The answer to a request after any events that left the server running: a member of the
    last state that asks for samples the provider has gets them, its client accepts them,
    and they are counted; who is not a member is refused, and nothing changes. *)
Theorem requests_are_answered {E : Type} es s0 s replies sample from a b : Indexed (local_data_provider s0) sample →
  data_run (E := E) es s0 = Ok (s, replies) → 0 <= a <= b → b < num_sequences (local_data_provider s0) → b - a < u64_max →
  let ids := mkClosedInterval a b in
  let data := sample <$> seqZ a (b - a + 1) in
  (from ∈ members_after es (in_round s0) →
     ∃ s', handle_client_message (E := E) from ids s = Ok (s', TrainingData ids data) ∧
       receive_training_data ids (TrainingData ids data) = Ok data ∧
       provided_sequences s' = <[from := as_u64 (default 0 (provided_sequences s !! from) + (b - a + 1))]> (provided_sequences s)) ∧
  (from ∉ members_after es (in_round s0) →
     handle_client_message (E := E) from ids s = Ok (s, RequestRejected ids NotInThisRound)).
Proof.
  intros Hix Hrun Hab Hb Hmax ids data. apply data_run_state in Hrun as [Hp Hm]. unfold handle_client_message, try_send_data. rewrite Hm, Hp.
  split; intros Hin.
  - rewrite bool_decide_true by done. cbn [negb]. unfold ids. rewrite serves by done. eexists. split; [done|]. split.
    + unfold receive_training_data. by rewrite bool_decide_true.
    + cbn. unfold as_u64 at 2. by rewrite Z.mod_small by (unfold u64_max in *; lia).
  - by rewrite bool_decide_false.
Qed.

(** One request stops the server: whatever happened before, a member that asks for an id the
    local files do not have makes the process panic. *)
Theorem request_beyond_the_end_panics {C : ChaCha} {CL : ChaChaLaws C} {E : Type} dir t n kind p es s0 s replies from a b :
  fits t n → Forall (λ f, zlen f.2 <= u64_max) dir → new_from_directory dir t n kind = Ok p →
  local_data_provider s0 = local_provider p → data_run (E := E) es s0 = Ok (s, replies) →
  from ∈ members_after es (in_round s0) → 0 <= a <= b → zlen (local_sequences p) <= b →
  data_poll (E := E) (Request from (mkClosedInterval a b)) s = Panic.
Proof.
  intros Hfit Hdir Hnew Hs0 Hrun Hin Hab Hb. apply data_run_state in Hrun as [Hp Hm].
  cbn. unfold handle_client_message, try_send_data. rewrite Hm, Hp, Hs0, bool_decide_true by done. cbn [negb get_samples local_provider].
  rewrite (local_run_dir dir t n kind p a b Hfit Hdir Hnew Hab), (proj2 (Z.ltb_ge _ _)) by done. done.
Qed.

(** ** What the trainer receives *)

(** The batch comes at the attempt after so many retries; or at none of the eight. *)
Definition comes_after (answer : Z → res DataError (list TokenizedData)) (r : Z) (data : list TokenizedData) : Prop :=
  0 <= r <= MAX_RETRIES ∧ (∀ j, 0 <= j < r → ∃ e, answer j = Err e) ∧ answer r = Ok data.
Definition never_comes (answer : Z → res DataError (list TokenizedData)) : Prop :=
  ∀ j, 0 <= j <= MAX_RETRIES → ∃ e, answer j = Err e.

Lemma attempts_run fuel answer k r data : k + Z.of_nat fuel = MAX_RETRIES → k <= r <= MAX_RETRIES →
  (∀ j, k <= j < r → ∃ e, answer j = Err e) → answer r = Ok data →
  attempts fuel answer k = Ok (Some data, (λ j, BASE_DELAY_MS * j) <$> seqZ k (r - k)).
Proof.
  revert k. induction fuel as [|fuel IH]; intros k Hk Hr Herr Hok.
  - assert (k = r) as -> by lia. cbn. by rewrite Hok, Z.sub_diag.
  - destruct (decide (k = r)) as [->|Hne]; [cbn; by rewrite Hok, Z.sub_diag|].
    destruct (Herr k) as [e He]; [lia|]. cbn [attempts]. rewrite He, (proj2 (Z.ltb_lt _ _)) by lia.
    rewrite IH; [|lia|lia|intros j Hj; apply Herr; lia|done]. cbn [mbind res_bind].
    rewrite (seqZ_cons k) by lia. cbn [fmap list_fmap]. do 3 f_equal; [lia|]. f_equal. f_equal; lia.
Qed.

Lemma attempts_fail fuel answer k : k + Z.of_nat fuel = MAX_RETRIES → (∀ j, k <= j <= MAX_RETRIES → ∃ e, answer j = Err e) →
  attempts fuel answer k = Ok (None, (λ j, BASE_DELAY_MS * j) <$> seqZ k (MAX_RETRIES - k)).
Proof.
  revert k. induction fuel as [|fuel IH]; intros k Hk Herr; destruct (Herr k) as [e He]; try lia; cbn [attempts]; rewrite He.
  - assert (k = MAX_RETRIES) as -> by lia. done.
  - rewrite (proj2 (Z.ltb_lt _ _)) by lia. rewrite IH; [|lia|intros j Hj; apply Herr; lia]. cbn [mbind res_bind].
    rewrite (seqZ_cons k) by lia. cbn [fmap list_fmap]. do 3 f_equal; [lia|]. f_equal. f_equal; lia.
Qed.

Lemma fetch_from_app answer open n l rest data : (∀ b, b ∈ l → ∃ r, comes_after (answer b) r (data b)) → (∀ i, open i = true) →
  fetch_from answer open n (l ++ rest) =
    let '(others, e) := fetch_from answer open (n + length l) rest in (((λ b, (b, data b)) <$> l) ++ others, e).
Proof.
  intros Hl Hopen. revert n. induction l as [|b l IH]; intros n; cbn [app fetch_from length fmap list_fmap].
  - rewrite Nat.add_0_r. by destruct (fetch_from answer open n rest).
  - destruct (Hl b) as (r & Hr & Herr & Hok); [by left|]. unfold fetch_batch.
    rewrite (attempts_run _ (answer b) 0 r (data b)); [|done|lia|done..]. rewrite Hopen, IH by (intros c Hc; apply Hl; by right).
    replace (n + S (length l))%nat with (S n + length l)%nat by lia. by destruct (fetch_from answer open _ rest).
Qed.

(** The data of a step: while the trainer takes batches and every assigned batch comes at
    one of its eight attempts, all of them arrive, the last assigned first, with the samples
    of that attempt; and when one never comes, exactly those assigned after it arrive, and
    none of those assigned before it. *)
Theorem step_data_arrives answer open assignments node data : (∀ i, open i = true) →
  let assigned := get_batch_ids_for_node assignments node in
  ((∀ b, b ∈ assigned → ∃ r, comes_after (answer b) r (data b)) →
     fetch_data answer open assignments node = ((λ b, (b, data b)) <$> reverse assigned, AllSent)) ∧
  (∀ before b after, assigned = before ++ b :: after → (∀ c, c ∈ after → ∃ r, comes_after (answer c) r (data c)) →
     never_comes (answer b) → fetch_data answer open assignments node = ((λ c, (c, data c)) <$> reverse after, GaveUp b)).
Proof.
  intros Hopen assigned. unfold fetch_data. fold assigned. split.
  - intros Hall. rewrite <- (app_nil_r (reverse assigned)) at 1. rewrite (fetch_from_app _ _ _ _ _ data); [|intros b Hb; by apply Hall, elem_of_reverse|done].
    cbn. by rewrite app_nil_r.
  - intros before b after -> Hafter Hnever. rewrite reverse_app, reverse_cons, <- app_assoc.
    rewrite (fetch_from_app _ _ _ _ _ data); [|intros c Hc; by apply Hafter, elem_of_reverse|done].
    cbn [app fetch_from]. unfold fetch_batch. rewrite attempts_fail by done. by rewrite app_nil_r.
Qed.

(** ** A run with two members *)

Module TwoMembers.
Import TwoFiles.
Definition key (n : Z) : list Z := replicate 32 n.
Definition server : DataProviderTcpServer := mkDataServer (local_provider provider) CoordinatorThms.Sample.fresh [key 1; key 2] ∅.
Definition node : NodeIdentity := from_single_key (key 1).
Definition assignments : list (BatchId * NodeIdentity) :=
  [(mkClosedInterval 0 1, node); (mkClosedInterval 2 2, from_single_key (key 2)); (mkClosedInterval 3 4, node)].
(** Every first attempt fails; the batch [0, 1] fails always. *)
Definition answer (b : BatchId) (retry : Z) : res DataError (list TokenizedData) :=
  if (retry =? 0) || (start b =? 0) then Err RequestFailed else Ok seven.
End TwoMembers.

Lemma requests_are_answered_witness :
  ∃ s', handle_client_message (E := unit) (TwoMembers.key 2) (mkClosedInterval 1 3) TwoMembers.server =
    Ok (s', TrainingData (mkClosedInterval 1 3)
      (sample_at (local_files TwoFiles.provider) TwoBytes 4 (local_sequences TwoFiles.provider) <$> [1; 2; 3])).
Proof.
  assert (Hwf : local_wf TwoFiles.provider).
  { apply (@directory_wf TwoFiles.turning TwoFiles.turning_laws TwoFiles.dir TwoBytes 4 (Seeded [])).
    - split; [lia|vm_compute; intros [=]].
    - repeat (apply Forall_cons_2; [vm_compute; intros [=]|]). apply Forall_nil_2.
    - vm_compute. reflexivity. }
  destruct (requests_are_answered (E := unit) [] TwoMembers.server TwoMembers.server []
    (sample_at (local_files TwoFiles.provider) TwoBytes 4 (local_sequences TwoFiles.provider)) (TwoMembers.key 2) 1 3) as [Hin _].
  - exact (local_indexed TwoFiles.provider Hwf).
  - reflexivity.
  - lia.
  - vm_compute. reflexivity.
  - vm_compute. reflexivity.
  - destruct Hin as (s' & Hh & _ & _); [right; left|]. exists s'. exact Hh.
Defined.

Lemma request_beyond_the_end_panics_witness :
  data_poll (E := unit) (Request (TwoMembers.key 1) (mkClosedInterval 4 5)) TwoMembers.server = Panic.
Proof.
  refine (@request_beyond_the_end_panics TwoFiles.turning TwoFiles.turning_laws unit TwoFiles.dir TwoBytes 4 (Seeded []) TwoFiles.provider
    [] TwoMembers.server TwoMembers.server [] (TwoMembers.key 1) 4 5 _ _ _ _ _ _ _ _).
  - split; [lia|vm_compute; intros [=]].
  - repeat (apply Forall_cons_2; [vm_compute; intros [=]|]). apply Forall_nil_2.
  - vm_compute. reflexivity.
  - reflexivity.
  - reflexivity.
  - left.
  - lia.
  - vm_compute. intros [=].
Defined.

Lemma step_data_arrives_witness :
  fetch_data TwoMembers.answer (λ _, true) TwoMembers.assignments TwoMembers.node =
    ([(mkClosedInterval 3 4, TwoFiles.seven)], GaveUp (mkClosedInterval 0 1)).
Proof.
  destruct (step_data_arrives TwoMembers.answer (λ _, true) TwoMembers.assignments TwoMembers.node (λ _, TwoFiles.seven)) as [_ Hgive]; [reflexivity|].
  refine (Hgive [] (mkClosedInterval 0 1) [mkClosedInterval 3 4] _ _ _).
  - reflexivity.
  - intros c Hc. apply list_elem_of_singleton in Hc as ->. exists 1. split; [vm_compute; split; intros [=]|]. split; [|reflexivity].
    intros j Hj. exists RequestFailed. assert (j = 0) as -> by lia. reflexivity.
  - intros j _. exists RequestFailed. unfold TwoMembers.answer. cbn [start]. by rewrite orb_true_r.
Defined.
