(* ===== verification/ModelSharing.v ===== *)
(** * Sharing the model between peers

    src/shared/network/src: what a client that joins late needs.  [ConnectionMonitor]
    (connection_monitor.rs) and [BandwidthTracker] (state.rs) know how good a peer is; the
    peer manager (p2p_model_sharing.rs) hands out the best one that is free and stops asking
    peers that fail too often; [blob_ticket_param_request_task] (lib.rs) asks peer after
    peer; [SharableModel] (p2p_model_sharing.rs) is the model being served to others or
    gathered from them.  [LatencySorted] (latency_sorted.rs) orders the providers of a blob
    and [AllowDynamic] (allowlist.rs) says who may connect.

    Peers are their keys.  Time is in nanoseconds and an argument.  Tensors, the tokenizer,
    tickets and the two libraries that write and read tensors are parameters. *)

From stdpp Require Import base tactics list numbers gmap strings.
From Stdlib Require Import SpecFloat.
From S2P Require Import Prelude StableSort CoreTypes Float Float32.

Open Scope Z_scope.

Notation EndpointId := (list Z) (only parsing).

(** ** Who may connect *)

Record AllowDynamic := mkAllowDynamic {
  allowed_nodes : gset (list Z);
  force_allowed_nodes : gset (list Z);
}.
Definition allow_new : AllowDynamic := mkAllowDynamic ∅ ∅.
Definition allow_with_nodes (nodes : list EndpointId) : AllowDynamic := mkAllowDynamic (list_to_set nodes) ∅.
Definition allow_add (a : EndpointId) (l : AllowDynamic) : AllowDynamic :=
  mkAllowDynamic ({[a]} ∪ allowed_nodes l) (force_allowed_nodes l).
Definition allow_remove (a : EndpointId) (l : AllowDynamic) : AllowDynamic :=
  mkAllowDynamic (allowed_nodes l ∖ {[a]}) (force_allowed_nodes l).
Definition allow_set (nodes : list EndpointId) (l : AllowDynamic) : AllowDynamic :=
  mkAllowDynamic (list_to_set nodes) (force_allowed_nodes l).
Definition allow_clear (l : AllowDynamic) : AllowDynamic := mkAllowDynamic ∅ (force_allowed_nodes l).
Definition force_allow (a : EndpointId) (l : AllowDynamic) : AllowDynamic :=
  mkAllowDynamic (allowed_nodes l) ({[a]} ∪ force_allowed_nodes l).
Definition allowed (a : EndpointId) (l : AllowDynamic) : bool :=
  bool_decide (a ∈ allowed_nodes l) || bool_decide (a ∈ force_allowed_nodes l).

(** ** Bandwidth *)

Inductive PeerBandwidth := NotMeasured | Measured (bytes_per_sec : f64).

Record DownloadEvent := mkDownloadEvent { timestamp : Z; num_bytes : Z }.
Record BandwidthTracker := mkBandwidthTracker {
  average_period_secs : Z;
  tracked : gmap (list Z) (list DownloadEvent);
}.

(** [now.duration_since(earlier)], which is not negative. *)
Definition duration_since (now earlier : Z) : Z := sat_sub now earlier.
Fixpoint drop_old (now period : Z) (events : list DownloadEvent) : list DownloadEvent :=
  match events with
  | e :: rest => if period <? duration_since now (timestamp e) then drop_old now period rest else events
  | [] => []
  end.
Definition add_event (now : Z) (from : EndpointId) (num_bytes : Z) (t : BandwidthTracker) : BandwidthTracker :=
  let events := default [] (tracked t !! from) ++ [mkDownloadEvent now num_bytes] in
  mkBandwidthTracker (average_period_secs t)
    (<[from := drop_old now (average_period_secs t * 10 ^ 9) events]> (tracked t)).
Definition tracker_clear (t : BandwidthTracker) : BandwidthTracker := mkBandwidthTracker (average_period_secs t) ∅.

Definition as_secs_f64 (d : Z) : f64 := f64_add (f64_of_Z (d / 10 ^ 9)) (f64_div (f64_of_Z (d mod 10 ^ 9)) (f64_of_Z (10 ^ 9))).
Definition endpoint_bandwidth (now : Z) (events : list DownloadEvent) : f64 :=
  match events with
  | [] => f64_of_Z 0
  | e :: _ =>
      let total_bytes := foldl (λ s v, as_u64 (s + num_bytes v)) 0 events in
      let seconds := as_secs_f64 (duration_since now (timestamp e)) in
      if f64_ltb (f64_of_Z 0) seconds then f64_div (f64_of_Z total_bytes) seconds else f64_of_Z 0
  end.
Definition get_peer_bandwidth (now : Z) (peer : EndpointId) (t : BandwidthTracker) : PeerBandwidth :=
  match tracked t !! peer with
  | None | Some [] => NotMeasured
  | Some events => Measured (endpoint_bandwidth now events)
  end.

(** ** Connections *)

(** The path in use: its address and its round trip. *)
Record SelectedPath := mkSelectedPath { addr : string; rtt : Z }.
Record ConnectionData := mkConnectionData { bandwidth : PeerBandwidth; selected_path : option SelectedPath }.
Notation Connections := (gmap (list Z) ConnectionData) (only parsing).

Definition on_handshake (remote_id : EndpointId) (path : option SelectedPath) (m : Connections) : Connections :=
  let prev_bandwidth := default NotMeasured (bandwidth <$> m !! remote_id) in
  <[remote_id := mkConnectionData prev_bandwidth path]> m.
(** Every five seconds, and when the connection is closed (with no path). *)
Definition set_path (remote_id : EndpointId) (path : option SelectedPath) (m : Connections) : Connections :=
  alter (λ d, mkConnectionData (bandwidth d) path) remote_id m.
Definition update_peer_bandwidth (peer : EndpointId) (b : PeerBandwidth) (m : Connections) : Connections :=
  alter (λ d, mkConnectionData b (selected_path d)) peer m.
Definition clear_all_bandwidth (m : Connections) : Connections :=
  (λ d, mkConnectionData NotMeasured (selected_path d)) <$> m.
Definition get_latency (peer : EndpointId) (m : Connections) : option Z := d ← m !! peer; rtt <$> selected_path d.
Definition get_bandwidth (peer : EndpointId) (m : Connections) : option PeerBandwidth := bandwidth <$> m !! peer.

(** [Duration::MAX], in nanoseconds. *)
Definition DURATION_MAX : Z := (2 ^ 64 - 1) * 10 ^ 9 + 999999999.

(** ** The peers a download may come from *)

Definition latency_of (m : Connections) (peer : EndpointId) : Z := default DURATION_MAX (get_latency peer m).
(** Each node once, where it comes first. *)
Fixpoint unique_nodes (seen nodes : list EndpointId) : list EndpointId :=
  match nodes with
  | [] => []
  | n :: rest => if bool_decide (n ∈ seen) then unique_nodes seen rest else n :: unique_nodes (n :: seen) rest
  end.
Definition latency_le (a b : EndpointId * Z) : Prop := a.2 <= b.2.
#[global] Instance latency_le_dec : RelDecision latency_le.
Proof. intros a b. unfold latency_le. apply _. Defined.
Definition find_providers (m : Connections) (nodes : list EndpointId) : list EndpointId :=
  fst <$> stable_sort latency_le ((λ n, (n, latency_of m n)) <$> unique_nodes [] nodes).

(** ** The peer manager *)

Definition bandwidth_tier (b : PeerBandwidth) : Z :=
  match b with
  | Measured v => if f64_ltb (f64_of_Z 0) v then 0 else 2
  | NotMeasured => 1
  end.
Definition compare_bandwidth (a b : PeerBandwidth) : comparison :=
  match a, b with Measured a, Measured b => default Eq (SFcompare b a) | _, _ => Eq end.
Notation Quality := (list Z * PeerBandwidth * Z)%type (only parsing).
Definition compare_quality (a b : Quality) : comparison :=
  match bandwidth_tier a.1.2 ?= bandwidth_tier b.1.2 with
  | Eq => match compare_bandwidth a.1.2 b.1.2 with Eq => a.2 ?= b.2 | c => c end
  | c => c
  end.
Definition quality_le (a b : Quality) : Prop := compare_quality a b ≠ Gt.
#[global] Instance quality_le_dec : RelDecision quality_le.
Proof. intros a b. unfold quality_le. apply _. Defined.
Definition sort_peers_by_quality (peers : list Quality) : list Quality := stable_sort quality_le peers.

Inductive PeerCommand :=
| SetPeers (peers : list EndpointId)
| GetPeer
| ReportSuccess (peer_id : EndpointId)
| ReportModelDownloadError (peer_id : EndpointId).

Record PeerManagerActor := mkPeerManagerActor {
  available_peers : list (list Z);
  errors_per_peers : gmap (list Z) Z;
  max_errors_per_peer : Z;
}.

(** What a message leads to: a peer, or none, for the one who asked; cancelling the join. *)
Inductive PeerOutput := NextPeer (peer : option (list Z)) | Cancel.

Definition quality_of (m : Connections) (peer : EndpointId) : Quality :=
  (peer, default NotMeasured (get_bandwidth peer m), default DURATION_MAX (get_latency peer m)).

Definition as_u8 (z : Z) : Z := z mod 2 ^ 8.
Definition handle_peer_message (m : Connections) (message : PeerCommand) (a : PeerManagerActor) : PeerManagerActor * list PeerOutput :=
  match message with
  | SetPeers peers =>
      (mkPeerManagerActor peers (list_to_map ((λ p, (p, 0)) <$> peers)) (max_errors_per_peer a), [])
  | GetPeer =>
      let sorted := (λ q, q.1.1) <$> sort_peers_by_quality (quality_of m <$> available_peers a) in
      (mkPeerManagerActor (tail sorted) (errors_per_peers a) (max_errors_per_peer a), [NextPeer (head sorted)])
  | ReportSuccess peer_id =>
      let peers := if bool_decide (peer_id ∈ available_peers a) then available_peers a else available_peers a ++ [peer_id] in
      (mkPeerManagerActor peers (errors_per_peers a) (max_errors_per_peer a), [])
  | ReportModelDownloadError peer_id =>
      let error_count := as_u8 (default 0 (errors_per_peers a !! peer_id) + 1) in
      let errors := <[peer_id := error_count]> (errors_per_peers a) in
      if max_errors_per_peer a <=? error_count then
        let peers := List.filter (λ id, negb (bool_decide (id = peer_id))) (available_peers a) in
        (mkPeerManagerActor peers errors (max_errors_per_peer a),
         if bool_decide (peers = []) && forallb (λ e, max_errors_per_peer a <=? e.2) (map_to_list errors) then [Cancel] else [])
      else
        let peers := if bool_decide (peer_id ∈ available_peers a) then available_peers a else available_peers a ++ [peer_id] in
        (mkPeerManagerActor peers errors (max_errors_per_peer a), [])
  end.

(** ** Asking for a ticket *)

Definition MAX_ATTEMPTS : Z := 500.

(** What the manager answers and what the peer answers at an attempt. *)
Record Attempt := mkAttempt { next_peer : option (list Z); answer : bool }.
Inductive TaskResult := Ticket (peer : list Z) | NoTicket.
(** The messages to the manager, and the ticket's peer or the cancelling of the join; the
    fuel is the number of attempts the loop itself allows. *)
Fixpoint request_loop (fuel : nat) (attempts : nat → Attempt) (n : nat) : list PeerCommand * TaskResult :=
  match fuel with
  | O => ([], NoTicket)
  | S fuel' =>
      match next_peer (attempts n) with
      | None => let '(ms, r) := request_loop fuel' attempts (S n) in (GetPeer :: ms, r)
      | Some peer =>
          if answer (attempts n) then ([GetPeer; ReportSuccess peer], Ticket peer)
          else let '(ms, r) := request_loop fuel' attempts (S n) in (GetPeer :: ReportModelDownloadError peer :: ms, r)
      end
  end.
Definition blob_ticket_param_request_task (attempts : nat → Attempt) : list PeerCommand * TaskResult :=
  request_loop (Z.to_nat MAX_ATTEMPTS) attempts 0.

(** ** The model *)

(** The texts of the libraries' errors are left out. *)
Inductive SharableModelError :=
| TchSerializeError
| InvalidUpdate
| ParameterUnknown (name : string)
| ParameterAlreadyAdded
| SerializationError
| ParametersNotInitialized
| ParameterNotInitialized (name : string)
| ResponseChannelNotInitialized
| ConnectionIOError
| DecodeParameterNameError
| ModelConfigNotInitialized
| TokenizerConfigNotInitialized
| ParseConfig
| SendConfig
| LoadThreadCrashed
| P2PAddDownloadError.

Record TransmittableModelParameter := mkParameter { param_name_bytes : list Z; param_value_bytes : list Z }.
Record TransmittableModelConfig := mkModelConfig { config_text : string; tokenizer_text : string; parameter_names : list string }.

(** What the tensor library, the tokenizer's and the blob store's do. *)
Class ModelLibraries := {
  Tensor : Type;
  Tokenizer : Type;
  Ticket_ : Type;
  save_to_stream : Tensor → option (list Z);
  load_from_stream : list Z → option Tensor;
  tokenizer_to_string : Tokenizer → option string;
  tokenizer_from_str : string → option Tokenizer;
  utf8_decode : list Z → option string;
}.
(** What is saved can be loaded, and a name is decoded from its bytes. *)
Class ModelLibrariesLaws (L : ModelLibraries) : Prop := {
  load_saved : ∀ t b, save_to_stream t = Some b → load_from_stream b = Some t;
  decode_name : ∀ s, utf8_decode (as_bytes s) = Some s;
}.

Section Model.
Context {L : ModelLibraries}.

(** Channels are there or not; a task that serialises a parameter is its tensor. *)
Record SharableModel := mkSharableModel {
  parameters : option (gmap string (option Tensor));
  serializing_parameters : option (gmap string Tensor);
  serialized_parameters : option (gmap string Ticket_);
  parameters_to_download : list string;
  model_config : option string;
  tokenizer_config : option Tokenizer;
  config_and_tokenizer_ticket : option Ticket_;
  tx_model_config_response : bool;
  tx_params_response : bool;
}.
Notation Sharing := (M SharableModelError SharableModel).

Definition sharable_empty : SharableModel := mkSharableModel None None None [] None None None false false.

Definition set_parameters (p : option (gmap string (option Tensor))) (m : SharableModel) : SharableModel :=
  mkSharableModel p (serializing_parameters m) (serialized_parameters m) (parameters_to_download m) (model_config m)
    (tokenizer_config m) (config_and_tokenizer_ticket m) (tx_model_config_response m) (tx_params_response m).
Definition set_served (s : option (gmap string Tensor)) (k : option (gmap string Ticket_)) (m : SharableModel) : SharableModel :=
  mkSharableModel (parameters m) s k (parameters_to_download m) (model_config m)
    (tokenizer_config m) (config_and_tokenizer_ticket m) (tx_model_config_response m) (tx_params_response m).
Definition set_config_ticket (t : option Ticket_) (m : SharableModel) : SharableModel :=
  mkSharableModel (parameters m) (serializing_parameters m) (serialized_parameters m) (parameters_to_download m) (model_config m)
    (tokenizer_config m) t (tx_model_config_response m) (tx_params_response m).
Definition set_channels (c p : bool) (m : SharableModel) : SharableModel :=
  mkSharableModel (parameters m) (serializing_parameters m) (serialized_parameters m) (parameters_to_download m) (model_config m)
    (tokenizer_config m) (config_and_tokenizer_ticket m) c p.

(** *** Serving *)

Definition update_parameters (new_parameters : gmap string Tensor) : Sharing unit :=
  old ← gets parameters;
  throw_if match old with Some ps => negb (bool_decide (dom new_parameters = dom ps)) | None => false end InvalidUpdate ;;
  modify (set_parameters (Some (Some <$> new_parameters))) ;;
  modify (set_served (Some new_parameters) (Some ∅)).

Definition update_config (config : string) (tokenizer : Tokenizer) : Sharing unit :=
  modify (λ m, mkSharableModel (parameters m) (serializing_parameters m) (serialized_parameters m) (parameters_to_download m)
    (Some config) (Some tokenizer) None (tx_model_config_response m) (tx_params_response m)).

(** The outcome of the task and of adding the blob are arguments. *)
Definition serialize (name : string) (t : Tensor) : res SharableModelError TransmittableModelParameter :=
  bytes ← ok_or (save_to_stream t) TchSerializeError;
  Ok (mkParameter (as_bytes name) bytes).
Definition get_transmittable_parameter (crashed : bool) (add_downloadable : TransmittableModelParameter → option Ticket_)
    (param_name : string) : Sharing Ticket_ :=
  loading_ ← gets serializing_parameters;
  loading ← lift (ok_or loading_ ParametersNotInitialized);
  loaded_ ← gets serialized_parameters;
  loaded ← lift (ok_or loaded_ ParametersNotInitialized);
  match loaded !! param_name with
  | Some ticket => mret ticket
  | None =>
      match loading !! param_name with
      | Some tensor =>
          let loading := delete param_name loading in
          modify (set_served (Some loading) (Some loaded)) ;;
          throw_if crashed LoadThreadCrashed ;;
          parameter ← lift (serialize param_name tensor);
          ticket ← lift (ok_or (add_downloadable parameter) P2PAddDownloadError);
          modify (set_served (Some loading) (Some (<[param_name := ticket]> loaded))) ;;
          mret ticket
      | None => throw (ParameterUnknown param_name)
      end
  end.

(** The names go out in the order in which the map is iterated, which [keys] stands for. *)
Definition get_transmittable_config (keys : gmap string (option Tensor) → list string)
    (add_downloadable : TransmittableModelConfig → option Ticket_) : Sharing Ticket_ :=
  cached ← gets config_and_tokenizer_ticket;
  match cached with
  | Some ticket => mret ticket
  | None =>
      config_ ← gets model_config;
      config ← lift (ok_or config_ ModelConfigNotInitialized);
      tokenizer_ ← gets tokenizer_config;
      tokenizer ← lift (ok_or tokenizer_ TokenizerConfigNotInitialized);
      raw ← lift (ok_or (tokenizer_to_string tokenizer) ParseConfig);
      ps_ ← gets parameters;
      ps ← lift (ok_or ps_ ModelConfigNotInitialized);
      ticket ← lift (ok_or (add_downloadable (mkModelConfig config raw (keys ps))) P2PAddDownloadError);
      modify (set_config_ticket (Some ticket)) ;;
      mret ticket
  end.

Definition clear_cache (m : SharableModel) : SharableModel :=
  set_config_ticket None (set_served (serializing_parameters m) None m).

(** *** Gathering *)

Definition initialize_parameters (param_names : list string) (m : SharableModel) : SharableModel :=
  set_channels (tx_model_config_response m) true
    (set_parameters (Some (list_to_map ((λ n, (n, None)) <$> param_names))) m).

Definition add_parameter (crashed : bool) (parameter : TransmittableModelParameter) : Sharing unit :=
  ps_ ← gets parameters;
  ps ← lift (ok_or ps_ ParametersNotInitialized);
  name ← lift (ok_or (utf8_decode (param_name_bytes parameter)) DecodeParameterNameError);
  throw_if crashed LoadThreadCrashed ;;
  value ← lift (ok_or (load_from_stream (param_value_bytes parameter)) TchSerializeError);
  match ps !! name with
  | Some _ => modify (set_parameters (Some (<[name := Some value]> ps)))
  | None => throw (ParameterUnknown name)
  end.

Definition add_config (c : TransmittableModelConfig) : Sharing unit :=
  tokenizer ← lift (ok_or (tokenizer_from_str (tokenizer_text c)) ParseConfig);
  modify (λ m, mkSharableModel (parameters m) (serializing_parameters m) (serialized_parameters m) (parameter_names c)
    (Some (config_text c)) (Some tokenizer) (config_and_tokenizer_ticket m) (tx_model_config_response m) (tx_params_response m)).

Definition is_download_complete (m : SharableModel) : bool :=
  match parameters m with
  | None => false
  | Some ps => forallb (λ p, match p.2 with Some _ => true | None => false end) (map_to_list ps)
  end.

(** The parameters that are there, or a name that has none. *)
Fixpoint parameters_to_send (l : list (string * option Tensor)) : res SharableModelError (list (string * Tensor)) :=
  match l with
  | [] => Ok []
  | (name, Some t) :: rest => ts ← parameters_to_send rest; Ok ((name, t) :: ts)
  | (name, None) :: _ => Err (ParameterNotInitialized name)
  end.
(** [open] says whether the one who waits is still there. *)
Definition send_init_parameters (open : bool) : Sharing (gmap string Tensor) :=
  tx ← gets tx_params_response;
  config_tx ← gets tx_model_config_response;
  modify (set_channels config_tx false) ;;
  if (tx : bool) then
    ps_ ← gets parameters;
    modify (set_parameters None) ;;
    ps ← lift (ok_or ps_ ParametersNotInitialized);
    ts ← lift (parameters_to_send (map_to_list ps));
    throw_if (negb open) ResponseChannelNotInitialized ;;
    mret (list_to_map ts)
  else throw ResponseChannelNotInitialized.

Definition send_config (open : bool) : Sharing (string * Tokenizer * list string) :=
  tx ← gets tx_model_config_response;
  params_tx ← gets tx_params_response;
  modify (set_channels false params_tx) ;;
  if (tx : bool) then
    config_ ← gets model_config;
    config ← lift (ok_or config_ ModelConfigNotInitialized);
    tokenizer_ ← gets tokenizer_config;
    tokenizer ← lift (ok_or tokenizer_ TokenizerConfigNotInitialized);
    throw_if (negb open) SendConfig ;;
    names ← gets parameters_to_download;
    mret (config, tokenizer, names)
  else throw ResponseChannelNotInitialized.

(** What the client does with a parameter that was downloaded (client.rs): an error ends
    the client. *)
Definition on_parameter (crashed open : bool) (parameter : TransmittableModelParameter) : Sharing (option (gmap string Tensor)) :=
  add_parameter crashed parameter ;;
  complete ← gets is_download_complete;
  if (complete : bool) then ps ← send_init_parameters open; mret (Some ps) else mret None.

(** The downloads of parameters, one after the other, whatever was handed over before: the
    models handed over, and how it ends. *)
Fixpoint on_parameters (l : list TransmittableModelParameter) (m : SharableModel) :
    list (gmap string Tensor) * res SharableModelError unit * SharableModel :=
  match l with
  | [] => ([], Ok tt, m)
  | p :: rest =>
      match on_parameter false true p m with
      | (Ok r, m') => let '(handed, e, m'') := on_parameters rest m' in (option_list r ++ handed, e, m'')
      | (Err e, m') => ([], Err e, m')
      | (Panic, m') => ([], Panic, m')
      end
  end.
End Model.
