(* ===== verification/ModelSharingThms.v ===== *)
(** * What model sharing gives

    A peer that has not failed too often is never forgotten: it is free, or it was handed
    out and not reported on since.  A joining client that gathered all parameters has
    exactly those that were served, and one more parameter after that is an error.  A name
    that never arrives stalls the join, and a parameter that could not be put into the store
    once is unknown from then on. *)

From stdpp Require Import base tactics list numbers gmap strings sorting.
From Stdlib Require Import SpecFloat.
From S2P Require Import Prelude StableSort CoreTypes Float Float32 Float64 ModelSharing.

Open Scope Z_scope.

(** ** Peers *)

(** The peers handed out and not yet reported on. *)
Definition held_after (message : PeerCommand) (out : list PeerOutput) (held : list (list Z)) : list (list Z) :=
  match message, out with
  | GetPeer, [NextPeer (Some p)] => p :: held
  | (ReportSuccess p | ReportModelDownloadError p), _ => List.filter (λ q, negb (bool_decide (q = p))) held
  | _, _ => held
  end.
Fixpoint peer_run (ms : list (gmap (list Z) ConnectionData * PeerCommand)) (a : PeerManagerActor) (held : list (list Z)) :
    PeerManagerActor * list (list Z) :=
  match ms with
  | [] => (a, held)
  | (m, message) :: rest =>
      let '(a', out) := handle_peer_message m message a in peer_run rest a' (held_after message out held)
  end.

Definition remembered (a : PeerManagerActor) (held : list (list Z)) : Prop :=
  ∀ p c, errors_per_peers a !! p = Some c → c < max_errors_per_peer a → p ∈ available_peers a ∨ p ∈ held.

Lemma sorted_peers m peers : (λ q : Quality, q.1.1) <$> sort_peers_by_quality (quality_of m <$> peers) ≡ₚ peers.
Proof.
  unfold sort_peers_by_quality. rewrite (stable_sort_perm quality_le), <- list_fmap_compose.
  induction peers as [|p ps IH]; [done|]. cbn. by rewrite IH.
Qed.

Lemma elem_of_others (p q : list Z) l : p ∈ List.filter (λ r, negb (bool_decide (r = q))) l ↔ p ∈ l ∧ p ≠ q.
Proof.
  rewrite !list_elem_of_In, List.filter_In. split; intros [Hp Hq]; (split; [done|]).
  - by apply negb_true_iff, bool_decide_eq_false in Hq.
  - by apply negb_true_iff, bool_decide_eq_false.
Qed.

Lemma handle_remembered m message a held a' out : handle_peer_message m message a = (a', out) →
  remembered a held → remembered a' (held_after message out held) ∧ max_errors_per_peer a' = max_errors_per_peer a.
Proof.
  intros Hh Hr. destruct message as [peers| |p|p]; cbn [handle_peer_message] in Hh.
  - injection Hh as <- <-. split; [|done]. intros p c Hp _. cbn in *. left.
    apply elem_of_list_to_map_2, list_elem_of_fmap in Hp as (q & [= -> _] & Hq). done.
  - injection Hh as <- <-. split; [|done]. intros p c Hp Hc. cbn in *. pose proof (sorted_peers m (available_peers a)) as Hs.
    assert (Hin : p ∈ (λ q : Quality, q.1.1) <$> sort_peers_by_quality (quality_of m <$> available_peers a) ∨ p ∈ held).
    { rewrite Hs. by apply (Hr p c). }
    destruct (_ <$> sort_peers_by_quality _) as [|q l]; cbn.
    + destruct Hin as [[]%elem_of_nil|Hin]; by right.
    + destruct Hin as [[->|Hin]%elem_of_cons|Hin]; [right; by left|by left|right; by right].
  - injection Hh as <- <-. split; [|done]. intros q c Hq Hc. cbn in *. destruct (decide (q = p)) as [->|Hne].
    + left. case_bool_decide; [done|]. apply elem_of_app. right. by left.
    + destruct (Hr q c Hq Hc) as [Hin|Hin]; [left; case_bool_decide; [done|apply elem_of_app; by left]|]. right. by apply elem_of_others.
  - destruct (Z.leb_spec (max_errors_per_peer a) (as_u8 (default 0 (errors_per_peers a !! p) + 1))) as [Hmax|Hmax]; injection Hh as <- <-;
      (split; [|done]); intros q c Hq Hc; cbn in *; (destruct (decide (q = p)) as [->|Hne]; [rewrite lookup_insert_eq in Hq; injection Hq as <-|rewrite lookup_insert_ne in Hq by done]).
    + lia.
    + destruct (Hr q c Hq Hc) as [Hin|Hin]; [left|right]; by apply elem_of_others.
    + left. case_bool_decide; [done|]. apply elem_of_app. right. by left.
    + destruct (Hr q c Hq Hc) as [Hin|Hin]; [left; case_bool_decide; [done|apply elem_of_app; by left]|]. right. by apply elem_of_others.
Qed.

Lemma run_remembered ms a held a' held' : peer_run ms a held = (a', held') → remembered a held → remembered a' held'.
Proof.
  revert a held. induction ms as [|[m message] ms IH]; intros a held; cbn [peer_run]; [by intros [= <- <-]|].
  destruct (handle_peer_message m message a) as [a1 out] eqn:Hh. intros Hrun Hr. eapply IH; [exact Hrun|].
  by apply (handle_remembered _ _ _ _ _ _ Hh Hr).
Qed.

(** C33: No peer is forgotten: from the start, whatever is reported, when a client that asks for a
    peer gets none, every known peer that has not failed too often is in use by somebody;
    the join is given up only when every known peer has failed too often. *)
Theorem peers_are_not_lost ms max a held m message a' out :
  peer_run ms (mkPeerManagerActor [] ∅ max) [] = (a, held) → handle_peer_message m message a = (a', out) →
  (NextPeer None ∈ out → ∀ p c, errors_per_peers a !! p = Some c → c < max_errors_per_peer a → p ∈ held) ∧
  (∀ p, NextPeer (Some p) ∈ out → p ∈ available_peers a) ∧
  (Cancel ∈ out → available_peers a' = [] ∧ ∀ p c, errors_per_peers a' !! p = Some c → max_errors_per_peer a' <= c).
Proof.
  intros Hrun Hh. apply run_remembered in Hrun; [|by intros p c Hp]. destruct message as [peers| |q|q]; cbn [handle_peer_message] in Hh.
  - injection Hh as <- <-. split_and!; [intros []%elem_of_nil|intros p []%elem_of_nil|intros []%elem_of_nil].
  - injection Hh as <- <-. pose proof (sorted_peers m (available_peers a)) as Hs.
    destruct (_ <$> sort_peers_by_quality _) as [|q l]; cbn; split_and!.
    + intros _ p c Hp Hc. destruct (Hrun p c Hp Hc) as [Hin|Hin]; [|done]. rewrite <- Hs in Hin. by apply elem_of_nil in Hin.
    + intros p [= ]%list_elem_of_singleton.
    + intros [= ]%list_elem_of_singleton.
    + intros [= ]%list_elem_of_singleton.
    + intros p [= ->]%list_elem_of_singleton. rewrite <- Hs. by left.
    + intros [= ]%list_elem_of_singleton.
  - injection Hh as <- <-. split_and!; [intros []%elem_of_nil|intros p []%elem_of_nil|intros []%elem_of_nil].
  - destruct (_ <=? _); injection Hh as <- <-; [|split_and!; [intros []%elem_of_nil|intros p []%elem_of_nil|intros []%elem_of_nil]].
    destruct (bool_decide _ && _) eqn:Hc; [|split_and!; [intros []%elem_of_nil|intros p []%elem_of_nil|intros []%elem_of_nil]].
    apply andb_true_iff in Hc as [Hnil%bool_decide_eq_true Hall]. split_and!.
    + intros [= ]%list_elem_of_singleton.
    + intros p [= ]%list_elem_of_singleton.
    + intros _. split; [done|]. intros p c Hp. cbn in *. apply Z.leb_le.
      apply (proj1 (forallb_forall _ _) Hall (p, c)). by apply list_elem_of_In, elem_of_map_to_list.
Qed.

(** ** Gathering the model *)

Ltac step := repeat first [rewrite bind_gets | rewrite bind_lift_Ok | rewrite bind_modify | rewrite bind_throw_if_false | rewrite bind_ret].

Section Gathering.
Context {L : ModelLibraries} {LL : ModelLibrariesLaws L}.

(** The last value that came under each name. *)
Definition values (l : list (string * Tensor)) : gmap string Tensor := foldl (λ m e, <[e.1 := e.2]> m) ∅ l.

Lemma values_snoc l n t : values (l ++ [(n, t)]) = <[n := t]> (values l).
Proof. unfold values. by rewrite foldl_snoc. Qed.

Definition complete (names : list string) (l : list (string * Tensor)) : Prop := ∀ n, n ∈ names → is_Some (values l !! n).
#[global] Instance complete_dec names l : Decision (complete names l).
Proof.
  refine (cast_if (decide (Forall (λ n, is_Some (values l !! n)) names))); unfold complete; by rewrite <- list.Forall_forall.
Defined.

Definition gathered (names : list string) (l : list (string * Tensor)) (m : SharableModel) : Prop :=
  tx_params_response m = true ∧ ∃ ps, parameters m = Some ps ∧
    ∀ n, ps !! n = if bool_decide (n ∈ names) then Some (values l !! n) else None.

Lemma gathered_init names m : gathered names [] (initialize_parameters names m).
Proof.
  split; [done|]. eexists. split; [done|]. intros n. unfold values. cbn. rewrite lookup_empty. case_bool_decide as Hn.
  - destruct (list_to_map _ !! n) as [o|] eqn:Ho.
    + apply elem_of_list_to_map_2, list_elem_of_fmap in Ho as (k & [= _ ->] & _). done.
    + apply not_elem_of_list_to_map_2 in Ho. destruct Ho. rewrite <- list_fmap_compose. apply list_elem_of_fmap. by exists n.
  - apply not_elem_of_list_to_map_1. rewrite <- list_fmap_compose. by intros (k & -> & Hk)%list_elem_of_fmap.
Qed.

Lemma to_send_total l : Forall (λ e : string * option Tensor, is_Some e.2) l →
  ∃ ts, parameters_to_send l = Ok ts ∧ l = prod_map (λ n, n) Some <$> ts.
Proof.
  induction 1 as [|[n o] l [t Ho] _ (ts & Hts & ->)]; [by exists []|]. cbn in Ho. subst o. exists ((n, t) :: ts). cbn. by rewrite Hts.
Qed.

(** A full map is sent as it is. *)
Lemma send_full (vs : gmap string Tensor) : ∃ ts, parameters_to_send (map_to_list (Some <$> vs)) = Ok ts ∧ list_to_map ts = vs.
Proof.
  destruct (to_send_total (map_to_list (Some <$> vs))) as (ts & Hts & Hl).
  { apply list.Forall_forall. intros [n o] Hin%elem_of_map_to_list. rewrite lookup_fmap in Hin. cbn.
    destruct (vs !! n); cbn in Hin; [injection Hin as <-; by eexists|done]. }
  exists ts. split; [done|]. apply (f_equal (list_to_map (M := gmap string (option Tensor)))) in Hl.
  rewrite list_to_map_to_list, list_to_map_fmap in Hl. symmetry. by apply (inj (fmap Some)).
Qed.

Lemma is_complete_spec names l m : gathered names l m → is_download_complete m = bool_decide (complete names l).
Proof.
  intros (_ & ps & Hps & Hlook). unfold is_download_complete. rewrite Hps. apply eq_bool_prop_intro. rewrite !Is_true_true, bool_decide_eq_true.
  rewrite forallb_forall. split.
  - intros Hall n Hn. specialize (Hlook n). rewrite bool_decide_true in Hlook by done.
    specialize (Hall (n, values l !! n)). cbn in Hall. destruct (values l !! n); [by eexists|].
    discriminate Hall. by apply list_elem_of_In, elem_of_map_to_list.
  - intros Hc [n o] Hin%list_elem_of_In%elem_of_map_to_list. rewrite Hlook in Hin. case_bool_decide as Hn; [|done].
    injection Hin as <-. cbn. by destruct (Hc n Hn) as [t ->].
Qed.

Lemma serialize_loads n t p : serialize n t = Ok p →
  utf8_decode (param_name_bytes p) = Some n ∧ load_from_stream (param_value_bytes p) = Some t.
Proof. intros (b & Hb%ok_or_Ok & [= <-])%res_bind_Ok. cbn. split; [apply decode_name|by apply load_saved]. Qed.

Lemma add_parameter_run names l m n t p : gathered names l m → n ∈ names → serialize n t = Ok p →
  ∃ m', add_parameter false p m = (Ok tt, m') ∧ gathered names (l ++ [(n, t)]) m'.
Proof.
  intros (Htx & ps & Hps & Hlook) Hn [Hname Hload]%serialize_loads. unfold add_parameter.
  eexists. split.
  - step. rewrite Hps. cbn [ok_or]. step. rewrite Hname. cbn [ok_or]. step. rewrite Hload. cbn [ok_or]. step.
    rewrite Hlook, bool_decide_true by done. reflexivity.
  - split; [done|]. eexists. split; [done|]. intros k. rewrite values_snoc. destruct (decide (k = n)) as [->|Hne].
    + rewrite !lookup_insert_eq. by rewrite bool_decide_true.
    + by rewrite !lookup_insert_ne by done.
Qed.

Lemma on_parameter_run names l m n t p : gathered names l m → n ∈ names → serialize n t = Ok p →
  (∀ k, is_Some (values l !! k) → k ∈ names) →
  ∃ m', (complete names (l ++ [(n, t)]) ∧ on_parameter false true p m = (Ok (Some (values (l ++ [(n, t)]))), m') ∧ parameters m' = None) ∨
        (¬ complete names (l ++ [(n, t)]) ∧ on_parameter false true p m = (Ok None, m') ∧ gathered names (l ++ [(n, t)]) m').
Proof.
  intros Hg Hn Hp Hdom. destruct (add_parameter_run _ _ _ _ _ _ Hg Hn Hp) as (m1 & Hadd & Hg1).
  unfold on_parameter. rewrite (M_bind_run _ _ _ _ _ Hadd). step. rewrite (is_complete_spec _ _ _ Hg1). destruct (decide (complete names (l ++ [(n, t)]))) as [Hc|Hc].
  - rewrite bool_decide_true by done. destruct Hg1 as (Htx & ps & Hps & Hlook).
    assert (Hfull : ps = Some <$> values (l ++ [(n, t)])).
    { apply map_eq. intros k. rewrite Hlook, lookup_fmap. case_bool_decide as Hk; [by destruct (Hc k Hk) as [v ->]|].
      destruct (values (l ++ [(n, t)]) !! k) as [v|] eqn:Hv; [|done]. destruct Hk. rewrite values_snoc in Hv.
      destruct (decide (k = n)) as [->|Hne]; [done|]. rewrite lookup_insert_ne in Hv by done. apply Hdom. by eexists. }
    destruct (send_full (values (l ++ [(n, t)]))) as (ts & Hts & Hmap). eexists. left. split; [done|].
    assert (Hsend : send_init_parameters true m1 = (Ok (values (l ++ [(n, t)])), set_parameters None (set_channels (tx_model_config_response m1) false m1))).
    { unfold send_init_parameters. step. rewrite Htx. step. cbn [parameters set_channels]. rewrite Hps. cbn [ok_or]. step.
      rewrite Hfull, Hts. step. cbn [negb]. step. by rewrite Hmap. }
    rewrite (M_bind_run _ _ _ _ _ Hsend). split; reflexivity.
  - rewrite bool_decide_false by done. eexists. right. split; [done|]. split; [reflexivity|done].
Qed.

Lemma values_elem l n t : values l !! n = Some t → (n, t) ∈ l.
Proof.
  induction l as [|[k v] l IH] using rev_ind; [done|]. rewrite values_snoc, elem_of_app, list_elem_of_singleton.
  destruct (decide (k = n)) as [->|Hne]; [rewrite lookup_insert_eq; intros [= ->]; by right|].
  rewrite lookup_insert_ne by done. intros Hv. left. by apply IH.
Qed.
Lemma values_some l n t : (n, t) ∈ l → is_Some (values l !! n).
Proof.
  induction l as [|[k v] l IH] using rev_ind; [by intros ?%elem_of_nil|]. rewrite values_snoc, elem_of_app, list_elem_of_singleton.
  destruct (decide (k = n)) as [->|Hne]; [rewrite lookup_insert_eq; by eexists|]. rewrite lookup_insert_ne by done.
  intros [Hin|[= -> _]]; [by apply IH|done].
Qed.

(** Once the model was handed over, one more parameter is an error. *)
Definition late (params : list TransmittableModelParameter) : res SharableModelError unit :=
  match params with [] => Ok tt | _ => Err ParametersNotInitialized end.
Lemma late_run params m : parameters m = None → on_parameters params m = ([], late params, m).
Proof.
  intros Hm. destruct params as [|p rest]; [done|]. cbn [on_parameters late].
  assert (on_parameter false true p m = (Err ParametersNotInitialized, m)) as ->; [|done].
  unfold on_parameter, add_parameter. unfold mbind at 1, M_bind at 1. step. by rewrite Hm.
Qed.

Lemma on_parameters_run names l params : Forall2 (λ e p, serialize e.1 e.2 = Ok p ∧ e.1 ∈ names) l params →
  ∀ l0 m, gathered names l0 m → (∀ k, is_Some (values l0 !! k) → k ∈ names) → ¬ complete names l0 →
  ∃ m', (¬ complete names (l0 ++ l) ∧ on_parameters params m = ([], Ok tt, m')) ∨
        (∃ i, i < length l ∧ ¬ complete names (l0 ++ take i l) ∧ complete names (l0 ++ take (S i) l) ∧
           on_parameters params m = ([values (l0 ++ take (S i) l)], late (drop (S i) params), m'))%nat.
Proof.
  induction 1 as [|[n t] p l params [Hp Hn] _ IH]; intros l0 m Hg Hdom Hc; cbn [on_parameters].
  { exists m. left. by rewrite app_nil_r. }
  cbn in Hp, Hn. destruct (on_parameter_run _ _ _ _ _ _ Hg Hn Hp Hdom) as (m1 & [(Hc1 & -> & Hnone)|(Hc1 & -> & Hg1)]).
  - exists m1. right. exists 0%nat. rewrite (late_run params m1 Hnone). cbn [take drop option_list app length].
    split_and!; [lia|by rewrite app_nil_r|done|done].
  - destruct (IH (l0 ++ [(n, t)]) m1 Hg1) as (m2 & Hcase); [|done|].
    { intros k. rewrite values_snoc. destruct (decide (k = n)) as [->|Hne]; [done|]. rewrite lookup_insert_ne by done. apply Hdom. }
    exists m2. destruct Hcase as [[Hc2 ->]|(i & Hi & Hc2 & Hc3 & ->)]; rewrite <- app_assoc in Hc2; [by left|right].
    exists (S i). rewrite <- app_assoc in Hc3 |- *. cbn [take drop length] in *. split_and!; [lia|done..].
Qed.

(** A parameter of every name came. *)
Definition arrived (names : list string) (params : list TransmittableModelParameter) : Prop :=
  ∀ n, n ∈ names → ∃ p, p ∈ params ∧ utf8_decode (param_name_bytes p) = Some n.

Lemma arrived_complete names l params : Forall2 (λ e p, serialize e.1 e.2 = Ok p ∧ e.1 ∈ names) l params →
  complete names l ↔ arrived names params.
Proof.
  intros Hl. split; intros Hall n Hn.
  - destruct (Hall n Hn) as [t Ht]. apply values_elem in Ht. apply list_elem_of_lookup in Ht as [i Hi].
    destruct (Forall2_lookup_l _ _ _ _ _ Hl Hi) as (p & Hp & [Hser _]). apply serialize_loads in Hser as [Hdec _].
    exists p. split; [by eapply list_elem_of_lookup_2|done].
  - destruct (Hall n Hn) as (p & Hp & Hdec). apply list_elem_of_lookup in Hp as [i Hi].
    destruct (Forall2_lookup_r _ _ _ _ _ Hl Hi) as ([k t] & Hk & [Hser _]). apply serialize_loads in Hser as [Hk' _].
    rewrite Hdec in Hk'. injection Hk' as <-. apply (values_some l n t). by eapply list_elem_of_lookup_2.
Qed.

Lemma complete_values names (served : gmap string Tensor) l : (∀ n, n ∈ names ↔ is_Some (served !! n)) →
  (∀ e, e ∈ l → served !! e.1 = Some e.2) → complete names l → values l = served.
Proof.
  intros Hnames Hs Hc. apply map_eq. intros n. destruct (values l !! n) as [t|] eqn:Ht.
  - symmetry. apply (Hs (n, t)). by apply values_elem.
  - destruct (served !! n) eqn:Hn; [|done]. assert (n ∈ names) by (apply Hnames; by eexists). destruct (Hc n) as [? ?]; [done|congruence].
Qed.

(** C30: The model arrives: a joining client that asked for the names of the served parameters
    and gets parameters that peers serialised, in any order and any number of times, takes all
    of them in without an error while a name is missing, and hands nothing over; with the
    parameter that completes the names it hands over exactly the served model, once.  A
    parameter that comes after that is an error, which ends the client. *)
Theorem model_arrives (served : gmap string Tensor) names params m : names ≠ [] →
  (∀ n, n ∈ names ↔ is_Some (served !! n)) →
  Forall (λ p, ∃ n t, served !! n = Some t ∧ serialize n t = Ok p) params →
  ∃ m', let outcome := on_parameters params (initialize_parameters names m) in
    (¬ arrived names params → outcome = ([], Ok tt, m')) ∧
    (arrived names params → ∃ before p after, params = before ++ p :: after ∧
       ¬ arrived names before ∧ arrived names (before ++ [p]) ∧
       outcome = ([served], match after with [] => Ok tt | _ => Err ParametersNotInitialized end, m')).
Proof.
  intros Hne Hnames Hparams.
  assert (Hl : ∃ l, Forall2 (λ e p, serialize e.1 e.2 = Ok p ∧ e.1 ∈ names) l params ∧ ∀ e, e ∈ l → served !! e.1 = Some e.2).
  { induction Hparams as [|p params (n & t & Hn & Hp) _ (l & Hl & Hs)]; [exists []; split; [constructor|by intros ? ?%elem_of_nil]|].
    exists ((n, t) :: l). split; [constructor; [|done]; split; [done|apply Hnames; by eexists]|]. by intros e [->|He]%elem_of_cons; [|apply Hs]. }
  destruct Hl as (l & Hl & Hs). destruct (on_parameters_run names l params Hl [] _ (gathered_init names m)) as (m' & Hcase).
  { by intros k [t Ht]. }
  { intros Hc. destruct names as [|n names]; [done|]. by destruct (Hc n ltac:(by left)) as [t Ht]. }
  exists m'. cbn [app] in Hcase. destruct Hcase as [[Hc Hrun]|(i & Hi & Hc & Hc' & Hrun)]; cbn zeta; rewrite Hrun.
  - split; [done|]. intros Ha. destruct Hc. by apply (arrived_complete _ _ _ Hl).
  - assert (Hsub : ∀ k, complete names (take k l) ↔ arrived names (take k params)) by (intros k; by apply arrived_complete, Forall2_take).
    split.
    { intros Hna. destruct Hna. apply (arrived_complete _ _ _ Hl). intros n Hn. destruct (Hc' n Hn) as [t Ht%values_elem].
      apply (values_some _ _ t). rewrite <- (take_drop (S i) l). apply elem_of_app. by left. }
    intros _. destruct (lookup_lt_is_Some_2 params i) as [p Hp]; [by rewrite <- (Forall2_length _ _ _ Hl)|].
    exists (take i params), p, (drop (S i) params). split_and!.
    + symmetry. by apply take_drop_middle.
    + by rewrite <- Hsub.
    + rewrite <- (take_S_r _ _ _ Hp). by rewrite <- Hsub.
    + rewrite (complete_values names served) by (done || (intros e He; apply Hs; rewrite <- (take_drop (S i) l); apply elem_of_app; by left)).
      by destruct (drop (S i) params).
Qed.
End Gathering.

(** ** Serving the model *)

Section Serving.
Context {L : ModelLibraries} (stored : Ticket_ → TransmittableModelParameter → Prop).

(** What happens to a served model between two updates; the store gives tickets for what
    it was given. *)
Inductive ServeOp :=
| Serve (crashed : bool) (add : TransmittableModelParameter → option Ticket_) (name : string)
| ClearCache.
Definition op_ok (op : ServeOp) : Prop :=
  match op with Serve _ add _ => ∀ p t, add p = Some t → stored t p | ClearCache => True end.
Definition serve (op : ServeOp) (m : SharableModel) : SharableModel :=
  match op with
  | Serve crashed add name => (get_transmittable_parameter crashed add name m).2
  | ClearCache => clear_cache m
  end.

(** Tickets are for the parameters of the last update. *)
Definition serving (ps : gmap string Tensor) (m : SharableModel) : Prop :=
  (∀ l n t, serializing_parameters m = Some l → l !! n = Some t → ps !! n = Some t) ∧
  (∀ l n k, serialized_parameters m = Some l → l !! n = Some k →
     ∃ t p, ps !! n = Some t ∧ serialize n t = Ok p ∧ stored k p).

Lemma get_cases crashed add name m : ∃ r m', get_transmittable_parameter crashed add name m = (r, m') ∧
  ((m' = m ∧ ((∃ k l, r = Ok k ∧ serialized_parameters m = Some l ∧ l !! name = Some k) ∨
              (∃ e, r = Err e ∧ (e = ParametersNotInitialized ∨ e = ParameterUnknown name)))) ∨
   ∃ l k t, serializing_parameters m = Some l ∧ serialized_parameters m = Some k ∧ l !! name = Some t ∧
     ((∃ e, r = Err e ∧ m' = set_served (Some (delete name l)) (Some k) m) ∨
      ∃ p ticket, r = Ok ticket ∧ serialize name t = Ok p ∧ add p = Some ticket ∧
        m' = set_served (Some (delete name l)) (Some (<[name := ticket]> k)) m)).
Proof.
  unfold get_transmittable_parameter. step. destruct (serializing_parameters m) as [l|] eqn:Hl; cbn [ok_or].
  2: { eexists _, m. split; [reflexivity|]. left. split; [done|]. right. eexists. split; [done|by left]. }
  step. destruct (serialized_parameters m) as [k|] eqn:Hk; cbn [ok_or].
  2: { eexists _, m. split; [reflexivity|]. left. split; [done|]. right. eexists. split; [done|by left]. }
  step. destruct (k !! name) as [ticket|] eqn:Hticket.
  { eexists _, m. split; [reflexivity|]. left. split; [done|]. left. by exists ticket, k. }
  destruct (l !! name) as [t|] eqn:Ht.
  2: { eexists _, m. split; [reflexivity|]. left. split; [done|]. right. eexists. split; [done|by right]. }
  step. destruct crashed.
  { eexists _, _. split; [reflexivity|]. right. exists l, k, t. split_and!; [done..|]. left. by eexists. }
  step. destruct (serialize name t) as [p|e|] eqn:Hp.
  2: { eexists _, _. split; [reflexivity|]. right. exists l, k, t. split_and!; [done..|]. left. by eexists. }
  2: { unfold serialize in Hp. by destruct (save_to_stream t). }
  step. destruct (add p) as [ticket|] eqn:Hadd; cbn [ok_or].
  2: { eexists _, _. split; [reflexivity|]. right. exists l, k, t. split_and!; [done..|]. left. by eexists. }
  step. eexists _, _. split; [reflexivity|]. right. exists l, k, t. split_and!; [done..|]. right. by exists p, ticket.
Qed.

Lemma serving_step ps op m : op_ok op → serving ps m → serving ps (serve op m).
Proof.
  intros Hop [Hs Hk]. destruct op as [crashed add name|]; cbn [serve].
  - destruct (get_cases crashed add name m) as (r & m' & -> & [[-> _]|(l & k & t & Hl & Hkk & Ht & Hcase)]); [done|].
    destruct Hcase as [(e & _ & ->)|(p & ticket & _ & Hp & Hadd & ->)]; split; cbn.
    + intros l' n t' [= <-] Hn. apply lookup_delete_Some in Hn as [_ Hn]. by apply (Hs l).
    + intros l' n t' [= <-] Hn. by apply (Hk k).
    + intros l' n t' [= <-] Hn. apply lookup_delete_Some in Hn as [_ Hn]. by apply (Hs l).
    + intros l' n t' [= <-] Hn. apply lookup_insert_Some in Hn as [[<- <-]|[_ Hn]]; [|by apply (Hk k)].
      exists t, p. split_and!; [by apply (Hs l)|done|]. by apply Hop.
  - split; cbn; [done|by intros].
Qed.

(** Tickets are for the served model: after an update, whatever was asked for and cleared
    since, a ticket handed out under a name is one the store gave for that parameter of the
    update. *)
Theorem tickets_are_current ps m0 m ops crashed add name ticket m' : update_parameters ps m0 = (Ok tt, m) →
  Forall op_ok ops → op_ok (Serve crashed add name) →
  get_transmittable_parameter crashed add name (foldl (λ m op, serve op m) m ops) = (Ok ticket, m') →
  ∃ t p, ps !! name = Some t ∧ serialize name t = Ok p ∧ stored ticket p.
Proof.
  intros Hup Hops Hop Hget. assert (Hserving : serving ps m).
  { unfold update_parameters in Hup. rewrite bind_gets in Hup. apply M_bind_Ok in Hup as (u & m1 & Ht & Hup).
    apply throw_if_Ok in Ht as [_ ->]. rewrite bind_modify in Hup. injection Hup as <-. split; cbn; [by intros l n t [= <-]|].
    intros l n k [= <-] Hn. by rewrite lookup_empty in Hn. }
  assert (Hend : serving ps (foldl (λ m op, serve op m) m ops)).
  { clear Hget Hup. revert m Hserving. induction Hops as [|op ops Ho _ IH]; intros m Hserving; cbn; [done|]. by apply IH, serving_step. }
  pose proof (serving_step ps _ _ Hop Hend) as [_ Hk']. cbn [serve] in Hk'. destruct Hend as [Hs Hk].
  destruct (get_cases crashed add name (foldl (λ m op, serve op m) m ops)) as (r & m1 & Heq & Hcase). rewrite Hget in Heq. injection Heq as <- <-.
  rewrite Hget in Hk'. cbn in Hk'. destruct Hcase as [[_ [(k & l & [= <-] & Hl & Hn)|(e & [= ] & _)]]|(l & k & t & Hl & Hkk & Ht & Hcase)].
  - by apply (Hk l).
  - destruct Hcase as [(e & [= ] & _)|(p & tk & [= <-] & Hp & Hadd & ->)]. by apply (Hk' (<[name := ticket]> k)); [|apply lookup_insert_eq].
Qed.

(** A name that is neither being serialised nor served. *)
Definition gone (name : string) (m : SharableModel) : Prop :=
  (∀ l, serializing_parameters m = Some l → l !! name = None) ∧ (∀ k, serialized_parameters m = Some k → k !! name = None).

Lemma gone_step name op m : gone name m → gone name (serve op m).
Proof.
  intros [Hs Hk]. destruct op as [crashed add other|]; cbn [serve]; [|split; cbn; [done|by intros]].
  destruct (get_cases crashed add other m) as (r & m' & -> & [[-> _]|(l & k & t & Hl & Hkk & Ht & Hcase)]); [done|].
  assert (Hne : name ≠ other) by (intros <-; by rewrite (Hs l Hl) in Ht).
  destruct Hcase as [(e & _ & ->)|(p & ticket & _ & _ & _ & ->)]; split; cbn; intros ? [= <-].
  1, 3: rewrite lookup_delete_ne by done; by apply Hs.
  - by apply Hk.
  - rewrite lookup_insert_ne by done. by apply Hk.
Qed.

(** One failure loses a parameter: when serialising it or adding it to the store failed
    once, no later request for it is answered before the next update, whatever happens in
    between. *)
Theorem failed_parameter_is_lost name crashed add m m1 ops crashed' add' r m2 :
  get_transmittable_parameter crashed add name m = (Err P2PAddDownloadError, m1) →
  get_transmittable_parameter crashed' add' name (foldl (λ m op, serve op m) m1 ops) = (r, m2) →
  r = Err ParametersNotInitialized ∨ r = Err (ParameterUnknown name).
Proof.
  intros Hfail Hget. assert (Hgone : gone name m1).
  { unfold get_transmittable_parameter in Hfail. rewrite !bind_gets in Hfail. destruct (serializing_parameters m) as [l|]; [|done].
    cbn [ok_or] in Hfail. rewrite bind_lift_Ok, bind_gets in Hfail. destruct (serialized_parameters m) as [k|]; [|done].
    cbn [ok_or] in Hfail. rewrite bind_lift_Ok in Hfail. destruct (k !! name) eqn:Hk; [done|]. destruct (l !! name) as [t|]; [|done].
    rewrite bind_modify in Hfail. destruct crashed; [done|]. rewrite bind_throw_if_false in Hfail.
    destruct (serialize name t) as [p|e|] eqn:Hp; [|unfold serialize in Hp; destruct (save_to_stream t); cbn in Hp; [done|injection Hp as <-; done]|done].
    rewrite bind_lift_Ok in Hfail. destruct (add p); [done|]. injection Hfail as <-.
    split; cbn; intros ? [= <-]; [apply lookup_delete_eq|done]. }
  assert (Hend : gone name (foldl (λ m op, serve op m) m1 ops)).
  { clear Hget Hfail. revert m1 Hgone. induction ops as [|op ops IH]; intros m1 Hgone; cbn; [done|]. by apply IH, gone_step. }
  destruct Hend as [Hs Hk]. destruct (get_cases crashed' add' name (foldl (λ m op, serve op m) m1 ops)) as (r' & m' & Heq & Hcase).
  rewrite Hget in Heq. injection Heq as <- <-.
  destruct Hcase as [[_ [(k & l & _ & Hl & Hn)|(e & -> & [->| ->])]]|(l & k & t & Hl & _ & Ht & _)]; [by rewrite (Hk l Hl) in Hn|by left|by right|].
  by rewrite (Hs l Hl) in Ht.
Qed.
End Serving.

(** ** The order of peers *)

Lemma total_bytes_range events : ∀ s, 0 <= s <= u64_max → 0 <= foldl (λ s v, as_u64 (s + num_bytes v)) s events <= u64_max.
Proof.
  induction events as [|x events IH]; intros s Hb; cbn; [done|]. apply IH.
  unfold as_u64, u64_max. pose proof (Z.mod_pos_bound (s + num_bytes x) (2 ^ 64)). lia.
Qed.

(** A measured bandwidth is a number or infinity and not negative. *)
Lemma bandwidth_is_a_number now events : plus_signed (endpoint_bandwidth now events).
Proof.
  unfold endpoint_bandwidth. destruct events as [|e events]; [by left|].
  set (total := foldl _ 0 (e :: events)). destruct (f64_ltb _ _) eqn:Hlt; [|by left].
  assert (Ht : 0 <= total <= u64_max).
  { apply total_bytes_range. unfold u64_max. lia. }
  apply f64_of_Z_upto, finite_upto_plus in Ht as [Hplus Hfin].
  destruct (as_secs_f64 _) as [[]|[]| |[] m ex]; try done; [|by apply f64_div_plus].
  destruct (f64_of_Z total) as [[]|[]| |[] m ex]; try done; first [by left|by destruct Hplus as [?|[?|(? & ? & ?)]]].
Qed.

Lemma unique_nodes_spec nodes : ∀ seen, NoDup (unique_nodes seen nodes) ∧ ∀ n, n ∈ unique_nodes seen nodes ↔ n ∈ nodes ∧ n ∉ seen.
Proof.
  induction nodes as [|k nodes IH]; intros seen; cbn [unique_nodes].
  - split; [constructor|]. intros n. split; [by intros ?%elem_of_nil|by intros [?%elem_of_nil _]].
  - case_bool_decide as Hk.
    + destruct (IH seen) as [Hnd Hel]. split; [done|]. intros n. rewrite Hel, elem_of_cons. split; [tauto|]. intros [[->|?] ?]; [done|tauto].
    + destruct (IH (k :: seen)) as [Hnd Hel]. split.
      * constructor; [|done]. rewrite Hel. intros [_ Hno]. apply Hno. by left.
      * intros n. rewrite !elem_of_cons, Hel, elem_of_cons. destruct (decide (n = k)) as [->|]; tauto.
Qed.

(** The providers of a blob are tried in the order of their latency, each once, those
    whose latency is unknown last. *)
Theorem providers_by_latency m nodes :
  NoDup (find_providers m nodes) ∧ (∀ n, n ∈ find_providers m nodes ↔ n ∈ nodes) ∧
  StronglySorted (λ a b, latency_of m a <= latency_of m b) (find_providers m nodes).
Proof.
  destruct (unique_nodes_spec nodes []) as [Hnd Hel]. unfold find_providers.
  set (l := (λ n, (n, latency_of m n)) <$> unique_nodes [] nodes).
  assert (Hperm : fst <$> stable_sort latency_le l ≡ₚ unique_nodes [] nodes).
  { rewrite (stable_sort_perm latency_le l). unfold l. rewrite <- list_fmap_compose. cbn. by rewrite list_fmap_id. }
  split; [by rewrite Hperm|]. split.
  - intros n. rewrite Hperm, Hel. split; [tauto|]. intros ?. split; [done|by intros ?%elem_of_nil].
  - assert (Hs : StronglySorted latency_le (stable_sort latency_le l)).
    { apply stable_sort_sorted; [intros a b; unfold latency_le; lia|intros a b c; unfold latency_le; lia]. }
    assert (Hlat : Forall (λ e, e.2 = latency_of m e.1) (stable_sort latency_le l)).
    { rewrite (stable_sort_perm latency_le l). apply list.Forall_fmap, list.Forall_true. done. }
    clearbody l. clear Hperm.
    induction Hs as [|e k _ IH He]; [constructor|]. apply list.Forall_cons in Hlat as [Hle Hlat]. constructor; [by apply IH|].
    apply list.Forall_fmap. eapply list.Forall_impl; [apply list.Forall_and; exact (conj He Hlat)|].
    intros x [Hx Hx2]. cbn. unfold latency_le in Hx. lia.
Qed.

(** ** Two parameters, two peers *)

Module Small.
Definition decode (b : list Z) : option string :=
  Some (String.string_of_list_ascii ((λ z, Ascii.ascii_of_nat (Z.to_nat z)) <$> b)).
#[local] Instance libraries : ModelLibraries :=
  {| Tensor := list Z; Tokenizer := string; Ticket_ := list Z; save_to_stream := Some; load_from_stream := Some;
     tokenizer_to_string := Some; tokenizer_from_str := Some; utf8_decode := decode |}.
Lemma laws : ModelLibrariesLaws libraries.
Proof.
  split; [by intros t b [= ->]|]. intros s. cbn. unfold decode, as_bytes. f_equal. rewrite <- list_fmap_compose.
  rewrite <- (String.string_of_list_ascii_of_string s) at 2. f_equal. generalize (String.list_ascii_of_string s) as l.
  induction l as [|c l IH]; [done|]. cbn. rewrite IH, Nat2Z.id, Ascii.ascii_nat_embedding. done.
Qed.
Definition served : gmap string (list Z) := {["w" := [1; 2]; "b" := [3]]}.
Definition w : TransmittableModelParameter := mkParameter (as_bytes "w") [1; 2].
Definition b : TransmittableModelParameter := mkParameter (as_bytes "b") [3].
(** A store whose tickets are the bytes it was given, and one that fails. *)
Definition store (p : TransmittableModelParameter) : option (list Z) := Some (param_name_bytes p ++ param_value_bytes p).
Definition broken (p : TransmittableModelParameter) : option (list Z) := None.
Definition stored (t : list Z) (p : TransmittableModelParameter) : Prop := t = param_name_bytes p ++ param_value_bytes p.
Definition serving_model : SharableModel := (update_parameters served sharable_empty).2.
Definition requests : list (gmap (list Z) ConnectionData * PeerCommand) :=
  [(∅, SetPeers [[1]; [2]]); (∅, GetPeer); (∅, ReportModelDownloadError [1]); (∅, ReportModelDownloadError [1]); (∅, GetPeer)].
End Small.

Lemma peers_are_not_lost_witness :
  handle_peer_message ∅ GetPeer (peer_run Small.requests (mkPeerManagerActor [] ∅ 2) []).1 =
    ((peer_run Small.requests (mkPeerManagerActor [] ∅ 2) []).1, [NextPeer None]) ∧
  [2] ∈ (peer_run Small.requests (mkPeerManagerActor [] ∅ 2) []).2.
Proof.
  destruct (peers_are_not_lost Small.requests 2 (peer_run Small.requests (mkPeerManagerActor [] ∅ 2) []).1
    (peer_run Small.requests (mkPeerManagerActor [] ∅ 2) []).2 ∅ GetPeer (peer_run Small.requests (mkPeerManagerActor [] ∅ 2) []).1 [NextPeer None]) as [Hnone _].
  - vm_compute. reflexivity.
  - vm_compute. reflexivity.
  - split; [vm_compute; reflexivity|]. apply (Hnone ltac:(left) [2] 0); vm_compute; reflexivity.
Defined.

(** The served model is complete with the third of four parameters; the fourth is too many. *)
Lemma model_arrives_witness : ∃ m',
  @on_parameters Small.libraries [Small.w; Small.w; Small.b; Small.w] (initialize_parameters ["b"; "w"] sharable_empty) =
    ([Small.served], Err ParametersNotInitialized, m').
Proof.
  assert (Hnames : ∀ n : string, n ∈ ["b"; "w"] ↔ is_Some (Small.served !! n)).
  { intros n. unfold Small.served. split.
    - intros Hn. apply elem_of_cons in Hn as [->|Hn]; [by eexists|]. apply list_elem_of_singleton in Hn as ->. by eexists.
    - intros [t Ht]. apply lookup_insert_Some in Ht as [[<- _]|[_ Ht]]; [right; left|]. apply lookup_singleton_Some in Ht as [<- _]. left. }
  assert (Hw : ∃ (n : string) t, Small.served !! n = Some t ∧ @serialize Small.libraries n t = Ok Small.w) by (by exists "w", [1; 2]).
  assert (Hb : ∃ (n : string) t, Small.served !! n = Some t ∧ @serialize Small.libraries n t = Ok Small.b) by (by exists "b", [3]).
  destruct (@model_arrives Small.libraries Small.laws Small.served ["b"; "w"] [Small.w; Small.w; Small.b; Small.w] sharable_empty) as (m' & _ & Hall); [done|done| |].
  { repeat (apply Forall_cons_2; [done|]). apply Forall_nil_2. }
  exists m'. destruct Hall as (before & p & after & Hsplit & Hno & Hyes & ->).
  { intros n Hn. apply elem_of_cons in Hn as [->|Hn].
    + exists Small.b. split; [right; right; left|reflexivity].
    + apply list_elem_of_singleton in Hn as ->. exists Small.w. split; [left|reflexivity]. }
  destruct after as [|q after]; [|done]. exfalso. apply Hno. assert (before = [Small.w; Small.w; Small.b]) as ->.
  { apply (f_equal (@removelast _)) in Hsplit. by rewrite removelast_last in Hsplit. }
  intros n Hn. apply elem_of_cons in Hn as [->|Hn].
  - exists Small.b. split; [right; right; left|reflexivity].
  - apply list_elem_of_singleton in Hn as ->. exists Small.w. split; [left|reflexivity].
Defined.

Lemma tickets_are_current_witness :
  ∃ t p, Small.served !! "w" = Some t ∧ @serialize Small.libraries "w" t = Ok p ∧ Small.stored (as_bytes "w" ++ [1; 2]) p.
Proof.
  refine (@tickets_are_current Small.libraries Small.stored Small.served sharable_empty Small.serving_model
    [@Serve Small.libraries false Small.store "b"] false Small.store "w" (as_bytes "w" ++ [1; 2]) _ _ _ _ _).
  - vm_compute. reflexivity.
  - apply Forall_cons_2; [|apply Forall_nil_2]. intros p t Ht. injection Ht as <-. reflexivity.
  - intros p t Ht. injection Ht as <-. reflexivity.
  - vm_compute. reflexivity.
Defined.

Lemma failed_parameter_is_lost_witness :
  (@get_transmittable_parameter Small.libraries false Small.store "w"
     (@get_transmittable_parameter Small.libraries false Small.broken "w" Small.serving_model).2).1 = Err (ParameterUnknown "w").
Proof.
  destruct (@failed_parameter_is_lost Small.libraries "w" false Small.broken Small.serving_model
    (@get_transmittable_parameter Small.libraries false Small.broken "w" Small.serving_model).2 [] false Small.store
    (Err (ParameterUnknown "w")) (@get_transmittable_parameter Small.libraries false Small.broken "w" Small.serving_model).2) as [Habs|Hun].
  - vm_compute. reflexivity.
  - vm_compute. reflexivity.
  - discriminate Habs.
  - vm_compute. reflexivity.
Defined.
