(* ===== verification/Divisors.v ===== *)
(** * Chunk sizes of the optimiser

    src/shared/modeling/src/distro.rs, the first part of [TransformDCT]: the sides of a
    parameter are cut into chunks whose size is a divisor of the side close to the one asked
    for.  [get_prime_divisors] factors by trial division, [get_divisors] multiplies the
    factors out, [get_smaller_split] picks.

    Numbers are of type [i64] and wrap; [%] and [/] truncate.  The loops take fuel: a number
    of 64 bits can be halved 63 times at most, and the trial divisors grow by six up to the
    square root of the number. *)

From stdpp Require Import base tactics list numbers sorting.
From Stdlib Require Import Znumtheory Zpow_facts.
From S2P Require Import Prelude StableSort.

Open Scope Z_scope.

Definition as_i64 (z : Z) : Z := (z + 2 ^ 63) mod 2 ^ 64 - 2 ^ 63.

(** [while n % k == 0 { divisors.push(k); n /= k; }]: what is pushed and what is left. *)
Fixpoint divide_out (fuel : nat) (k n : Z) : list Z * Z :=
  match fuel with
  | O => ([], n)
  | S fuel' =>
      if Z.rem n k =? 0 then let '(l, m) := divide_out fuel' k (Z.quot n k) in (k :: l, m)
      else ([], n)
  end.
Definition BITS : nat := 64.

Fixpoint trial (fuel : nat) (i n : Z) : list Z * Z :=
  match fuel with
  | O => ([], n)
  | S fuel' =>
      if as_i64 (i * i) <=? n then
        let '(l1, n1) := divide_out BITS i n in
        let '(l2, n2) := divide_out BITS (i + 2) n1 in
        let '(l3, n3) := trial fuel' (i + 6) n2 in
        (l1 ++ l2 ++ l3, n3)
      else ([], n)
  end.

Definition get_prime_divisors (n : Z) : list Z :=
  if n =? 0 then []
  else
    let '(l2, n2) := divide_out BITS 2 n in
    let '(l3, n3) := divide_out BITS 3 n2 in
    let '(l, m) := trial (Z.to_nat (Z.sqrt n)) 5 n3 in
    l2 ++ l3 ++ l ++ (if 1 <? m then [m] else []).

(** The products of the factors, one factor after the other. *)
Record Products := mkProducts { divisors : list Z; last_prime : Z; factor : Z; slice_len : nat }.
Definition multiply (s : Products) (prime : Z) : Products :=
  let '(slice_len, factor) :=
    if negb (last_prime s =? prime) then (length (divisors s), prime)
    else (slice_len s, as_i64 (factor s * prime)) in
  mkProducts (divisors s ++ ((λ d, as_i64 (d * factor)) <$> take slice_len (divisors s))) prime factor slice_len.

#[local] Instance Zle_dec : RelDecision Z.le := Z_le_dec.
Definition get_divisors (n : Z) : list Z :=
  match n ?= 1 with
  | Eq => [1]
  | Gt => stable_sort Z.le (divisors (foldl multiply (mkProducts [1] 0 0 0) (get_prime_divisors n)))
  | Lt => []
  end.

(** The loop over the divisors with the one before, if any. *)
Fixpoint pick_split (close_to n : Z) (before : option Z) (l : list Z) : Z :=
  match l with
  | [] => n
  | val :: rest =>
      if val =? close_to then val
      else if close_to <? val then match before with None => val | Some d => d end
      else pick_split close_to n (Some val) rest
  end.
Definition get_smaller_split (n close_to : Z) : Z := pick_split close_to n None (get_divisors n).

(** ** Trial division *)

(** No divisor below [i] but 1. *)
Definition rough (i n : Z) : Prop := ∀ d, 1 < d < i → ¬ (d | n).
Definition product (l : list Z) : Z := foldr Z.mul 1 l.

Lemma product_app l k : product (l ++ k) = product l * product k.
Proof. unfold product. induction l as [|x l IH]; cbn [app foldr]; [lia|]. rewrite IH. ring. Qed.

Lemma divide_out_run k fuel : 2 <= k → ∀ n, 0 < n < 2 ^ Z.of_nat fuel →
  ∃ e m, divide_out fuel k n = (replicate e k, m) ∧ n = product (replicate e k) * m ∧ 0 < m ∧ ¬ (k | m).
Proof.
  intros Hk. induction fuel as [|fuel IH]; intros n Hn; [change (2 ^ Z.of_nat 0) with 1 in Hn; lia|]. cbn [divide_out].
  rewrite Z.rem_mod_nonneg by lia. destruct (Z.eqb_spec (n mod k) 0) as [Hd|Hd].
  - apply Z.mod_divide in Hd as [q Hq]; [|lia]. rewrite Hq, Z.quot_mul by lia.
    rewrite Nat2Z.inj_succ, Z.pow_succ_r in Hn by lia. destruct (IH q) as (e & m & -> & Hm & Hpos & Hno); [nia|].
    exists (S e), m. split_and!; try done. cbn [replicate]. unfold product in *. cbn [foldr]. nia.
  - exists 0%nat, n. split_and!; try done; [unfold product; cbn; lia|lia|]. intros Hk'. apply Hd. by apply Z.mod_divide; [lia|].
Qed.

Lemma rough_divide i n m : rough i n → (m | n) → rough i m.
Proof. intros Hr Hm d Hd Hdm. apply (Hr d Hd). by transitivity m. Qed.

Lemma rough_prime k n : rough k n → (k | n) → 1 < k → prime k.
Proof. intros Hr Hk Hpos. apply prime_alt. split; [done|]. intros d Hd Hdk. apply (Hr d Hd). by transitivity k. Qed.

Lemma rough_end i m : 0 < i → rough i m → m < i * i → 1 < m → prime m.
Proof.
  intros Hpos Hr Hi Hm. apply prime_alt. split; [done|]. intros d Hd [q Hq].
  assert (1 < q < m) by nia. destruct (Z.lt_ge_cases d i); [apply (Hr d); [lia|by exists q]|].
  assert (q < i) by nia. apply (Hr q); [lia|]. exists d. lia.
Qed.

(** The numbers skipped between trial divisors are multiples of 2 or of 3. *)
Lemma rough_skip i j m : rough i m → 5 <= i → (∀ d, i <= d < j → (2 | d) ∨ (3 | d) ∨ ¬ (d | m)) → rough j m.
Proof.
  intros Hr Hi Hskip d Hd Hdm. destruct (Z.lt_ge_cases d i); [by apply (Hr d); [lia|]|].
  destruct (Hskip d) as [H2|[H3|Hno]]; [lia| | |done].
  - apply (Hr 2); [lia|]. by transitivity d.
  - apply (Hr 3); [lia|]. by transitivity d.
Qed.

Lemma product_replicate_divide e k m n : n = product (replicate e k) * m → (m | n).
Proof. intros ->. by exists (product (replicate e k)). Qed.

(** The primes taken out of [n], all of them at least [i], and what is left. *)
Record taken_out (i n : Z) (l : list Z) (m : Z) : Prop := {
  taken_product : n = product l * m;
  taken_pos : 0 < m;
  taken_prime : Forall prime l;
  taken_from : Forall (Z.le i) l;
  taken_sorted : StronglySorted Z.le l;
}.

Lemma replicate_sorted e k : StronglySorted Z.le (replicate e k).
Proof. induction e as [|e IH]; cbn; constructor; [done|]. apply list.Forall_replicate. lia. Qed.

(** One divisor taken out: what is left is no multiple of it. *)
Lemma divide_out_taken k n : 2 <= k → rough k n → 0 < n <= 2 ^ 62 →
  ∃ l m, divide_out BITS k n = (l, m) ∧ taken_out k n l m ∧ Forall (eq k) l ∧ ¬ (k | m).
Proof.
  intros Hk Hr Hn. destruct (divide_out_run k BITS Hk n) as (e & m & Hrun & Hm & Hpos & Hno); [change (Z.of_nat BITS) with 64; lia|].
  exists (replicate e k), m. split; [done|]. split; [|by split; [apply list.Forall_replicate|]]. split; try done.
  - destruct e as [|e]; [constructor|]. apply list.Forall_replicate, (rough_prime k n); [done| |lia].
    rewrite Hm. exists (product (replicate e k) * m). unfold product. cbn [replicate foldr]. ring.
  - apply list.Forall_replicate. lia.
  - apply replicate_sorted.
Qed.

Lemma taken_app i j n l m k p : taken_out i n l m → taken_out j m k p → i <= j → (∀ x, x ∈ l → x <= j) →
  taken_out i n (l ++ k) p.
Proof.
  intros [Hn Hm Hp Hi Hs] [Hn' Hm' Hp' Hi' Hs'] Hij Hle. split.
  - rewrite product_app. rewrite Hn, Hn'. ring.
  - done.
  - by apply list.Forall_app.
  - apply list.Forall_app. split; [done|]. eapply list.Forall_impl; [done|]. intros x Hx. cbn in Hx. lia.
  - apply StronglySorted_app_2; [|done..]. intros x y Hx Hy. apply list.Forall_forall with (x := y) in Hi'; [|done].
    specialize (Hle x Hx). lia.
Qed.

Lemma trial_run fuel : ∀ i n, 5 <= i <= 2 ^ 31 + 6 → i mod 6 = 5 → rough i n → 0 < n <= 2 ^ 62 →
  n < (i + 6 * Z.of_nat fuel) * (i + 6 * Z.of_nat fuel) →
  ∃ l m, trial fuel i n = (l, m) ∧ taken_out i n l m ∧ (m = 1 ∨ prime m ∧ i <= m ∧ Forall (λ x, x <= m) l).
Proof.
  assert (Hstop : ∀ i n, 5 <= i → rough i n → 0 < n → n < i * i →
    taken_out i n [] n ∧ (n = 1 ∨ prime n ∧ i <= n ∧ Forall (λ x, x <= n) [])).
  { intros i n Hi Hr Hn Hlt. split; [split; try constructor; try done; unfold product; cbn; lia|].
    destruct (decide (n = 1)); [by left|]. right. assert (Hp : prime n) by (apply (rough_end i); [lia|done|done|lia]).
    split_and!; [done| |constructor]. destruct (Z.lt_ge_cases n i); [|lia]. exfalso. apply (Hr n); [lia|reflexivity]. }
  induction fuel as [|fuel IH]; intros i n Hi Hmod Hr Hn Hlt; cbn [trial].
  { exists [], n. split; [done|]. apply Hstop; [lia|done|lia|]. replace (i + 6 * Z.of_nat 0) with i in Hlt by lia. done. }
  assert (Hwrap : as_i64 (i * i) = i * i) by (unfold as_i64; rewrite Z.mod_small; nia). rewrite Hwrap.
  destruct (Z.leb_spec (i * i) n) as [Hle|Hgt]; [|exists [], n; split; [done|]; apply Hstop; [lia|done|lia|done]].
  assert (Hi31 : i <= 2 ^ 31) by nia. clear Hwrap Hstop.
  destruct (divide_out_taken i n) as (l1 & n1 & -> & T1 & E1 & No1); [lia|done|done|].
  assert (D1 : (n1 | n)) by (exists (product l1); apply T1). assert (B1 : 0 < n1 <= n) by (pose proof (taken_pos _ _ _ _ T1); split; [done|]; apply Z.divide_pos_le; [lia|done]).
  pose proof (Z.div_mod i 6) as Hdm. set (q := i / 6) in *.
  assert (R1 : rough (i + 2) n1).
  { apply (rough_skip i); [by eapply rough_divide|lia|]. intros d Hd. destruct (decide (d = i)) as [->|]; [by right; right|].
    left. exists (3 * q + 3). lia. }
  destruct (divide_out_taken (i + 2) n1) as (l2 & n2 & -> & T2 & E2 & No2); [lia|done|lia|].
  assert (D2 : (n2 | n1)) by (exists (product l2); apply T2). assert (B2 : 0 < n2 <= n1) by (pose proof (taken_pos _ _ _ _ T2); split; [done|]; apply Z.divide_pos_le; [lia|done]).
  assert (R2 : rough (i + 6) n2).
  { apply (rough_skip (i + 2)); [by eapply rough_divide|lia|]. intros d Hd. destruct (decide (d = i + 2)) as [->|]; [by right; right|].
    destruct (decide (d = i + 3)); [left; exists (3 * q + 4); lia|]. destruct (decide (d = i + 4)); [right; left; exists (2 * q + 3); lia|].
    left. exists (3 * q + 5). lia. }
  destruct (IH (i + 6) n2) as (l3 & m & -> & T3 & Hm); [lia|rewrite Z.add_mod, Hmod by lia; reflexivity|done|lia|nia|].
  assert (E1' : ∀ x, x ∈ l1 → x = i) by (intros x Hx; symmetry; revert x Hx; by apply list.Forall_forall).
  assert (E2' : ∀ x, x ∈ l2 → x = i + 2) by (intros x Hx; symmetry; revert x Hx; by apply list.Forall_forall).
  exists (l1 ++ l2 ++ l3), m. split; [done|]. split.
  - eapply taken_app; [exact T1|eapply taken_app; [exact T2|exact T3|lia|]|lia|].
    + intros x ->%E2'. lia.
    + intros x ->%E1'. lia.
  - destruct Hm as [->|(Hp & Hge & Hl)]; [by left|]. right. split; [done|]. split; [lia|].
    apply list.Forall_app. split; [apply list.Forall_forall; intros x ->%E1'; lia|].
    apply list.Forall_app. split; [apply list.Forall_forall; intros x ->%E2'; lia|done].
Qed.

Lemma prime_divisors_run n : 0 < n <= 2 ^ 62 →
  product (get_prime_divisors n) = n ∧ Forall prime (get_prime_divisors n) ∧ StronglySorted Z.le (get_prime_divisors n).
Proof.
  intros Hn. unfold get_prime_divisors. rewrite (proj2 (Z.eqb_neq n 0)) by lia.
  destruct (divide_out_taken 2 n) as (l2 & n2 & -> & T2 & E2 & No2); [lia|intros d; lia|done|].
  assert (B2 : 0 < n2 <= n) by (pose proof (taken_pos _ _ _ _ T2); split; [done|]; apply Z.divide_pos_le; [lia|exists (product l2); apply T2]).
  destruct (divide_out_taken 3 n2) as (l3 & n3 & -> & T3 & E3 & No3); [lia|intros d Hd; by replace d with 2 by lia|lia|].
  assert (B3 : 0 < n3 <= n2) by (pose proof (taken_pos _ _ _ _ T3); split; [done|]; apply Z.divide_pos_le; [lia|exists (product l3); apply T3]).
  assert (D3 : (n3 | n2)) by (exists (product l3); apply T3).
  assert (R : rough 5 n3).
  { intros d Hd Hdn. destruct (decide (d = 2)) as [->|]; [apply No2; by transitivity n3|]. destruct (decide (d = 3)) as [->|]; [done|].
    apply No2. transitivity n3; [|done]. transitivity d; [|done]. exists 2. lia. }
  destruct (trial_run (Z.to_nat (Z.sqrt n)) 5 n3) as (l & m & -> & T & Hm); [lia|done|done|lia| |].
  { destruct (Z.sqrt_spec n ltac:(lia)) as [_ Hs]. unfold Z.succ in Hs. pose proof (Z.sqrt_nonneg n). rewrite Z2Nat.id by done. set (r := Z.sqrt n) in *.
    assert (n3 < (r + 1) * (r + 1)) by lia. nia. }
  assert (E2' : ∀ x, x ∈ l2 → x = 2) by (intros x Hx; symmetry; revert x Hx; by apply list.Forall_forall).
  assert (E3' : ∀ x, x ∈ l3 → x = 3) by (intros x Hx; symmetry; revert x Hx; by apply list.Forall_forall).
  assert (Tend : taken_out 5 m (if 1 <? m then [m] else []) 1 ∧ ∀ x, x ∈ l → ∀ y, y ∈ (if 1 <? m then [m] else []) → x <= y).
  { destruct Hm as [->|(Hp & Hge & Hl)]; [split; [split; try constructor; done|intros x _ y Hy; by apply elem_of_nil in Hy]|].
    rewrite (proj2 (Z.ltb_lt 1 m)) by lia. split; [split; try done|].
    - unfold product. cbn. lia.
    - by apply list.Forall_singleton.
    - by apply list.Forall_singleton.
    - by repeat constructor.
    - intros x Hx y ->%list_elem_of_singleton. revert x Hx. by apply list.Forall_forall. }
  destruct Tend as [Tend Hlast]. assert (Tl : taken_out 5 n3 (l ++ (if 1 <? m then [m] else [])) 1).
  { destruct T as [Tn Tm Tp Ti Ts]. destruct Tend as [En Em Ep Ei Es]. split; [by rewrite product_app, <- Z.mul_assoc, <- En|done|by apply list.Forall_app|by apply list.Forall_app|].
    apply StronglySorted_app_2; [|done..]. intros x y Hx Hy. by apply Hlast. }
  assert (Tall : taken_out 2 n (l2 ++ l3 ++ l ++ (if 1 <? m then [m] else [])) 1).
  { eapply taken_app; [exact T2|eapply taken_app; [exact T3|exact Tl|lia|]|lia|].
    - intros x ->%E3'. lia.
    - intros x ->%E2'. lia. }
  destruct Tall as [Tn _ Tp _ Ts]. split_and!; [|done|done]. lia.
Qed.

(** ** Multiplying the factors out *)

(** A list of all positive divisors, each once. *)
Definition divisors_of (n : Z) (l : list Z) : Prop := NoDup l ∧ ∀ d, d ∈ l ↔ 0 < d ∧ (d | n).

Lemma coprime_power p e q : prime p → ¬ (p | q) → rel_prime (p ^ Z.of_nat e) q.
Proof. intros Hp Hq. apply rel_prime_sym, rel_prime_Zpower_r; [lia|]. by apply rel_prime_sym, prime_rel_prime. Qed.

(** The divisors of [q * p ^ (e + 1)] are those of [q * p ^ e] and the multiples by
    [p ^ (e + 1)] of those of [q]. *)
Lemma divisors_step p e q l k : prime p → 0 < q → ¬ (p | q) → divisors_of q l → divisors_of (q * p ^ Z.of_nat e) k →
  divisors_of (q * p ^ Z.of_nat (S e)) (k ++ ((λ d, d * p ^ Z.of_nat (S e)) <$> l)).
Proof.
  intros Hp Hq Hno [Hnd Hl] [Hndk Hk]. assert (Hp1 : 1 < p) by apply Hp. assert (Hpow : 0 < p ^ Z.of_nat (S e)) by (apply Z.pow_pos_nonneg; lia).
  assert (Hsucc : p ^ Z.of_nat (S e) = p * p ^ Z.of_nat e) by (rewrite Nat2Z.inj_succ; apply Z.pow_succ_r; lia).
  assert (Hnew : ∀ d, d ∈ ((λ d, d * p ^ Z.of_nat (S e)) <$> l) ↔ ∃ c, d = c * p ^ Z.of_nat (S e) ∧ 0 < c ∧ (c | q)).
  { intros d. rewrite list_elem_of_fmap. split; [intros (c & -> & Hc); exists c; by rewrite <- Hl|intros (c & -> & Hc); exists c; by rewrite Hl]. }
  split.
  - apply NoDup_app. split_and!; [done| |].
    + intros d Hd. rewrite Hnew. intros (c & -> & Hc & Hcq). apply Hk in Hd as [_ [a Ha]].
      apply Hno. exists (a * c). assert (0 < p ^ Z.of_nat e) by (apply Z.pow_pos_nonneg; lia). nia.
    + apply NoDup_fmap_2; [|done]. intros x y Hxy. nia.
  - intros d. rewrite elem_of_app, Hnew, Hk. split.
    + intros [[Hd Hdv]|(c & -> & Hc & [b ->])]; split; try done; [|nia|].
      * rewrite Hsucc. transitivity (q * p ^ Z.of_nat e); [done|]. exists p. ring.
      * exists b. ring.
    + intros [Hd Hdv]. destruct (Zdivide_dec (p ^ Z.of_nat (S e)) d) as [[c Hc]|Hc].
      * right. exists c. split; [done|]. split; [nia|]. destruct Hdv as [b Hb]. exists b. nia.
      * left. split; [done|]. destruct Hdv as [b Hb]. destruct (Zdivide_dec p b) as [[a ->]|Hb'].
        -- exists a. rewrite Hsucc in Hb. nia.
        -- exfalso. apply Hc. apply (Gauss _ b); [exists q; lia|by apply coprime_power].
Qed.

(** The state of the loop after the factors of [q * p ^ e], the last one [p]. *)
Record multiplied (n q p : Z) (e : nat) (s : Products) : Prop := {
  mul_n : n = q * p ^ Z.of_nat e;
  mul_q : 0 < q;
  mul_last : last_prime s = p;
  mul_factor : factor s = p ^ Z.of_nat e;
  mul_slice : (slice_len s ≤ length (divisors s))%nat;
  mul_old : divisors_of q (take (slice_len s) (divisors s));
  mul_all : divisors_of n (divisors s);
}.

Lemma as_i64_id z : i64 z → as_i64 z = z.
Proof. unfold i64, i64_min, i64_max, as_i64. intros Hz. rewrite Z.mod_small; lia. Qed.

Lemma fmap_mul_id l q f n : divisors_of q l → n = q * f → 0 < f → 0 < n <= 2 ^ 62 →
  (λ d, as_i64 (d * f)) <$> l = (λ d, d * f) <$> l.
Proof.
  intros [_ Hl] Hn Hf Hpos. apply list_fmap_ext. intros i d Hd. apply as_i64_id.
  apply list_elem_of_lookup_2, Hl in Hd as [Hd [b Hb]].
  assert (0 < q) by nia. assert (0 < b) by nia. assert (0 < d * f) by nia. assert (n = b * (d * f)) by (subst; ring).
  assert (d * f <= n) by nia. unfold i64, i64_min, i64_max. lia.
Qed.

Lemma multiply_new n s p : prime p → 0 < n → ¬ (p | n) → n * p <= 2 ^ 62 → last_prime s ≠ p → divisors_of n (divisors s) →
  multiplied (n * p) n p 1 (multiply s p).
Proof.
  intros Hp Hn Hno Hmax Hlast Hall. unfold multiply. rewrite (proj2 (Z.eqb_neq _ _)) by done. cbn [negb].
  assert (Hp1 : 1 < p) by apply Hp. rewrite firstn_all.
  rewrite (fmap_mul_id (divisors s) n p (n * p)); [|done|done|lia|nia].
  assert (Hpow : p ^ Z.of_nat 1 = p) by apply Z.pow_1_r.
  split; cbn [divisors last_prime factor slice_len]; try done; [by rewrite Hpow|rewrite length_app; lia|by rewrite take_app_length|].
  pose proof (divisors_step p 0 n (divisors s) (divisors s) Hp Hn Hno Hall) as Hstep. rewrite Hpow in Hstep. apply Hstep.
  by rewrite Z.pow_0_r, Z.mul_1_r.
Qed.

Lemma multiply_same n q p e s : prime p → ¬ (p | q) → n * p <= 2 ^ 62 → multiplied n q p e s →
  multiplied (n * p) q p (S e) (multiply s p).
Proof.
  intros Hp Hno Hmax [Hn Hq Hlast Hf Hlen Hold Hall]. unfold multiply. rewrite (proj2 (Z.eqb_eq _ _)) by done. cbn [negb].
  assert (Hp1 : 1 < p) by apply Hp. assert (Hpow : 0 < p ^ Z.of_nat e) by (apply Z.pow_pos_nonneg; lia).
  assert (Hsucc : p ^ Z.of_nat (S e) = p ^ Z.of_nat e * p) by (rewrite Nat2Z.inj_succ, Z.pow_succ_r by lia; ring).
  assert (Hnp : n * p = q * p ^ Z.of_nat (S e)) by (rewrite Hn, Hsucc; ring).
  assert (Hf' : as_i64 (factor s * p) = p ^ Z.of_nat (S e)).
  { rewrite Hf, <- Hsucc. apply as_i64_id. unfold i64, i64_min, i64_max. nia. }
  rewrite Hf'. rewrite (fmap_mul_id _ q _ (n * p)); [|done|done|nia|nia].
  split; cbn [divisors last_prime factor slice_len]; try done.
  - rewrite length_app. lia.
  - by rewrite take_app_le.
  - rewrite Hnp. apply divisors_step; try done. by rewrite <- Hn.
Qed.


(** The rest of the factors, from the state after those of [q * p ^ e]. *)
Lemma multiply_rest l : ∀ n q p e s, prime p → ¬ (p | q) → (∀ r, prime r → (r | q) → r < p) → multiplied n q p e s →
  Forall prime l → StronglySorted Z.le (p :: l) → n * product l <= 2 ^ 62 →
  divisors_of (n * product l) (divisors (foldl multiply s l)).
Proof.
  induction l as [|r l IH]; intros n q p e s Hp Hno Hbelow Hs Hl Hsorted Hmax; cbn [foldl].
  { unfold product. cbn [foldr]. rewrite Z.mul_1_r. apply Hs. }
  apply list.Forall_cons in Hl as [Hr Hl]. apply StronglySorted_cons in Hsorted as [Hge Hsorted].
  apply list.Forall_cons in Hge as [Hpr _]. assert (Hp1 : 1 < p) by apply Hp. assert (Hr1 : 1 < r) by apply Hr.
  assert (Hpow : 0 < p ^ Z.of_nat e) by (apply Z.pow_pos_nonneg; lia).
  assert (Hn : 0 < n) by (destruct Hs as [-> Hq]; nia).
  assert (Hprod : 0 < product l).
  { clear - Hl. induction Hl as [|x l Hx _ IH]; unfold product in *; cbn; [lia|]. assert (1 < x) by apply Hx. nia. }
  change (product (r :: l)) with (r * product l) in *. rewrite Z.mul_assoc in *.
  assert (Hnr : n * r <= 2 ^ 62) by nia.
  destruct (decide (r = p)) as [->|Hne].
  - eapply (IH _ q p (S e)); try done. by apply multiply_same.
  - assert (Hrn : ¬ (r | n)).
    { intros Hd. destruct Hs as [-> Hq]. apply prime_mult in Hd as [Hd|Hd]; [specialize (Hbelow r Hr Hd); lia| |done].
      apply prime_power_prime in Hd; [lia|lia|done|done]. }
    apply (IH _ n r 1%nat); try done.
    + intros t Ht Hd. destruct Hs as [-> Hq]. apply prime_mult in Hd as [Hd|Hd]; [specialize (Hbelow t Ht Hd); lia| |done].
      apply prime_power_prime in Hd; [lia|lia|done|done].
    + apply multiply_new; try done; [|apply Hs]. rewrite (mul_last _ _ _ _ _ Hs). done.
Qed.

Lemma divisors_one : divisors_of 1 [1].
Proof.
  split; [by apply NoDup_singleton|]. intros d. rewrite list_elem_of_singleton. split; [intros ->; split; [lia|reflexivity]|].
  intros [Hd H1]. apply Z.divide_pos_le in H1; lia.
Qed.

Lemma get_divisors_spec n : 1 <= n <= 2 ^ 62 → divisors_of n (get_divisors n) ∧ StronglySorted Z.le (get_divisors n).
Proof.
  intros Hn. unfold get_divisors. destruct (Z.compare_spec n 1) as [->|Hlt|Hgt]; [|lia|].
  { split; [apply divisors_one|by repeat constructor]. }
  destruct (prime_divisors_run n) as (Hprod & Hprime & Hsorted); [lia|].
  split; [|apply stable_sort_sorted; [intros a b; lia|intros a b c; lia]].
  destruct (get_prime_divisors n) as [|p l] eqn:Hl; [unfold product in Hprod; cbn in Hprod; lia|].
  change (product (p :: l)) with (p * product l) in Hprod. apply list.Forall_cons in Hprime as [Hp Hprime].
  assert (Hp1 : 1 < p) by apply Hp.
  assert (Hpos : 0 < product l) by nia.
  assert (Hall : divisors_of (1 * p * product l) (divisors (foldl multiply (multiply (mkProducts [1] 0 0 0) p) l))).
  { apply (multiply_rest l (1 * p) 1 p 1); try done.
    - intros H1. apply Z.divide_pos_le in H1; lia.
    - intros r Hr H1. apply Z.divide_pos_le in H1; [|lia]. assert (1 < r) by apply Hr. lia.
    - apply multiply_new; try done; [intros H1; apply Z.divide_pos_le in H1; lia|nia|cbn; lia|apply divisors_one].
    - nia. }
  replace (1 * p * product l) with n in Hall by lia. cbn [foldl]. destruct Hall as [Hnd Hall].
  split; [by rewrite stable_sort_perm|]. intros d. by rewrite stable_sort_perm.
Qed.

(** ** The split *)

(** Among the rest of a sorted list, with the greatest element before it. *)
Lemma pick_split_run n c l : ∀ before, StronglySorted Z.le l → (∀ d, before = Some d → d < c ∧ ∀ x, x ∈ l → d <= x) →
  let r := pick_split c n before l in
  (∃ pre post, l = pre ++ post ∧ Forall (λ x, x < c) pre ∧
     ((post = [] ∧ r = n) ∨
      (∃ x post', post = x :: post' ∧ c <= x ∧
         ((x = c ∧ r = c) ∨ (c < x ∧ r = default x (last (option_list before ++ pre))))))).
Proof.
  induction l as [|x l IH]; intros before Hs Hb; cbn [pick_split].
  { exists [], []. split_and!; [done|constructor|by left]. }
  apply StronglySorted_cons in Hs as [Hx Hs]. destruct (Z.eqb_spec x c) as [->|Hne].
  { exists [], (c :: l). split_and!; [done|constructor|]. right. exists c, l. split_and!; [done|lia|by left]. }
  destruct (Z.ltb_spec c x) as [Hlt|Hge].
  { exists [], (x :: l). split_and!; [done|constructor|]. right. exists x, l. split_and!; [done|lia|]. right. split; [done|]. by destruct before. }
  destruct (IH (Some x) Hs) as (pre & post & -> & Hpre & Hcase).
  { intros d [= <-]. split; [lia|]. by apply list.Forall_forall. }
  exists (x :: pre), post. split; [done|]. split; [constructor; [lia|done]|].
  destruct Hcase as [?|(y & post' & -> & Hcy & Hcase)]; [by left|]. right. exists y, post'. split_and!; [done|done|].
  destruct Hcase as [?|[Hlt' Heq]]; [by left|]. right. split; [done|]. rewrite Heq. f_equal.
  destruct before; [|done]. cbn. by destruct pre.
Qed.

(** The chunk of a side: the greatest divisor of the side that is not above the size asked
    for, and 1 when the size asked for is not positive. *)
Theorem split_is_greatest_divisor n close_to : 1 <= n <= 2 ^ 62 →
  let r := get_smaller_split n close_to in
  0 < r ∧ (r | n) ∧ r <= Z.max 1 close_to ∧ (∀ d, 0 < d → (d | n) → d <= close_to → d <= r).
Proof.
  intros Hn r. destruct (get_divisors_spec n Hn) as [[Hnd Hdiv] Hsorted]. subst r. unfold get_smaller_split.
  destruct (pick_split_run n close_to (get_divisors n) None Hsorted) as (pre & post & Hl & Hpre & Hcase); [done|].
  set (r := pick_split _ _ _ _) in *. rewrite Hl in Hdiv, Hsorted. cbn [option_list app] in Hcase.
  destruct Hcase as [[-> ->]|(x & post' & -> & Hcx & [[-> ->]|[Hlt Hr]])].
  - rewrite app_nil_r in Hdiv. assert (Hin : n ∈ pre) by (apply Hdiv; split; [lia|reflexivity]).
    pose proof (proj1 (list.Forall_forall _ _) Hpre n Hin) as Hnc. cbn in Hnc. split_and!; [lia|reflexivity|lia|].
    intros d Hd Hdn _. by apply Z.divide_pos_le in Hdn; [|lia].
  - assert (Hin : close_to ∈ pre ++ close_to :: post') by (apply elem_of_app; right; left). apply Hdiv in Hin as [Hpos Hc].
    split_and!; [done|done|lia|done].
  - change (option_list None ++ pre) with pre in Hr. rewrite Hr. clear r Hr. destruct (last pre) as [y|] eqn:Hlast; cbn [default from_option id].
    + apply last_Some in Hlast as [pre' ->]. assert (Hy : y ∈ (pre' ++ [y]) ++ x :: post') by (apply elem_of_app; left; apply elem_of_app; right; left).
      apply list.Forall_app in Hpre as [_ Hyc]. apply list.Forall_cons in Hyc as [Hyc _]; cbn in Hyc. apply Hdiv in Hy as [Hpos Hyn].
      split_and!; [done|done|lia|]. intros d Hd Hdn Hdc. assert (Hin : d ∈ (pre' ++ [y]) ++ x :: post') by (by apply Hdiv).
      rewrite <- app_assoc in Hin, Hsorted. apply elem_of_app in Hin as [Hin|Hin].
      * eapply StronglySorted_app_1_elem_of; [exact Hsorted|done|left].
      * apply elem_of_cons in Hin as [->|Hin]; [lia|]. apply StronglySorted_app_1_r, StronglySorted_cons in Hsorted as [_ Hsorted].
        apply elem_of_cons in Hin as [->|Hin]; [lia|]. apply StronglySorted_cons in Hsorted as [Hx _].
        apply (proj1 (list.Forall_forall _ _) Hx) in Hin. lia.
    + apply last_None in Hlast as ->. cbn [app] in *. assert (H1 : 1 ∈ x :: post') by (apply Hdiv; split; [lia|apply Z.divide_1_l]).
      assert (Hxpos : x ∈ x :: post') by left. apply Hdiv in Hxpos as [Hxpos Hxn].
      assert (x <= 1) by (apply StronglySorted_cons in Hsorted as [Hx _]; apply elem_of_cons in H1 as [<-|H1]; [lia|]; by apply (proj1 (list.Forall_forall _ _) Hx)).
      split_and!; [lia|done|lia|]. intros d Hd Hdn Hdc. lia.
Qed.

Lemma split_is_greatest_divisor_witness : get_smaller_split 360 64 = 60 ∧ ∀ d, 0 < d → (d | 360) → d <= 64 → d <= 60.
Proof.
  assert (H : get_smaller_split 360 64 = 60) by (vm_compute; reflexivity). split; [exact H|].
  intros d Hd Hdiv Hle. rewrite <- H. apply (split_is_greatest_divisor 360 64); [lia|exact Hd|exact Hdiv|exact Hle].
Defined.
