(* ===== verification/Compress.v ===== *)
(** * Compressing updates

    src/shared/modeling/src/distro.rs, [CompressDCT]: of every row of an encoded update only
    the largest values travel, with their places in as few bytes as the row allows; the
    receiver puts them back, and the places that several results name get the mean.

    The tensors are those of libtorch, which is a parameter: class [Torch] has the operations
    the code calls and class [TorchLaws] what is documented of them, over the shape of a
    tensor and its elements in row-major order.  Devices are left out. *)

From stdpp Require Import base tactics numbers sorting list.
From S2P Require Import Prelude StableSort.

Open Scope Z_scope.

(** The integer kinds of the code. *)
Inductive IKind := Uint8 | UInt16 | UInt32 | Int64.
#[global] Instance IKind_eq : EqDecision IKind.
Proof. solve_decision. Defined.
(** How many values an unsigned kind has. *)
Definition kind_range (k : IKind) : Z := match k with Uint8 => 2 ^ 8 | UInt16 => 2 ^ 16 | UInt32 => 2 ^ 32 | Int64 => 2 ^ 63 end.

Definition numel (s : list Z) : Z := foldr Z.mul 1 s.

(** Lists cut into [m] rows of [d]. *)
Definition cut {A} (m d : nat) (l : list A) : list (list A) := (λ r, take d (drop (r * d) l)) <$> seq 0 m.

Class Torch := {
  val : Type;
  vzero : val;
  vabs : val → val;
  vle : val → val → Prop;
  mean : list val → val;
  vkind : Type;
  tensor : Type;
  size : tensor → list Z;
  elems : tensor → list val;
  contiguous : tensor → bool;
  kind : tensor → vkind;
  view : list Z → tensor → option tensor;
  reshape : list Z → tensor → option tensor;
  zeros : list Z → vkind → tensor;
  to_kind : vkind → tensor → tensor;
  abs : tensor → tensor;
  cat_last : list tensor → tensor;
  itensor : Type;
  irows : itensor → list (list Z);
  (** The size of the last dimension. *)
  ilast : itensor → Z;
  ikind : itensor → IKind;
  ito_kind : IKind → itensor → itensor;
  view_dtype : IKind → itensor → itensor;
  icat_last : list itensor → itensor;
  (** The places of the greatest values of every row. *)
  topk : Z → tensor → itensor;
  gather : tensor → itensor → tensor;
  (** [internal_scatter_reduce_(-1, idx, val, "mean", false)]. *)
  scatter_mean : tensor → itensor → tensor → option tensor;
}.

(** The rows along the last dimension. *)
Definition row_count (s : list Z) : nat := Z.to_nat (numel (removelast s)).
Definition row_size (s : list Z) : nat := Z.to_nat (List.last s 0).
Definition rows `{Torch} (x : tensor) : list (list val) := cut (row_count (size x)) (row_size (size x)) (elems x).

(** What goes to place [j] of a row: the values whose index is [j]. *)
Definition sent_to {A} (j : nat) (ix : list Z) (vs : list A) : list A :=
  snd <$> List.filter (λ p, p.1 =? Z.of_nat j) (zip ix vs).
Definition scatter_row `{Torch} (base : list val) (ix : list Z) (vs : list val) : list val :=
  imap (λ j b, match sent_to j ix vs with [] => b | l => mean l end) base.
(** The values of a row at the indices. *)
Definition pick {A} (d : A) (row : list A) (ix : list Z) : list A := (λ i, default d (row !! Z.to_nat i)) <$> ix.

(** Rows of several tensors side by side. *)
Definition side_by_side {A} (ls : list (list (list A))) : list (list A) :=
  match ls with [] => [] | l :: rest => foldl (zip_with app) l rest end.

Class TorchLaws (T : Torch) : Prop := {
  size_elems : ∀ x, Forall (Z.le 0) (size x) ∧ zlen (elems x) = numel (size x);
  view_law : ∀ s x, contiguous x = true → Forall (Z.le 0) s → numel s = numel (size x) →
    ∃ y, view s x = Some y ∧ size y = s ∧ elems y = elems x ∧ contiguous y = true ∧ kind y = kind x;
  (** What a view shows when the memory allows it. *)
  view_shows : ∀ s x y, Forall (Z.le 0) s → view s x = Some y → size y = s ∧ elems y = elems x ∧ kind y = kind x;
  reshape_law : ∀ s x, Forall (Z.le 0) s → numel s = numel (size x) →
    ∃ y, reshape s x = Some y ∧ size y = s ∧ elems y = elems x ∧ kind y = kind x;
  zeros_law : ∀ s k, Forall (Z.le 0) s → size (zeros s k) = s ∧ elems (zeros s k) = replicate (Z.to_nat (numel s)) vzero ∧
    contiguous (zeros s k) = true ∧ kind (zeros s k) = k;
  to_kind_same : ∀ x, to_kind (kind x) x = x;
  abs_law : ∀ x, size (abs x) = size x ∧ elems (abs x) = vabs <$> elems x;
  mean_one : ∀ v, mean [v] = v;
  (** As many different places of every row as asked for, none smaller than one left out. *)
  topk_law : ∀ k x, 1 <= k <= List.last (size x) 0 → ikind (topk k x) = Int64 ∧ ilast (topk k x) = k ∧
    Forall2 (λ row ix, NoDup ix ∧ zlen ix = k ∧ Forall (λ i, 0 <= i < zlen row) ix ∧
      ∀ i j a b, i ∈ ix → Z.of_nat j ∉ ix → row !! Z.to_nat i = Some a → row !! j = Some b → vle b a) (rows x) (irows (topk k x));
  gather_law : ∀ x i, Forall2 (λ row ix, zlen ix = ilast i ∧ Forall (λ i, 0 <= i < zlen row) ix) (rows x) (irows i) →
    size x ≠ [] → 0 <= ilast i → size (gather x i) = removelast (size x) ++ [ilast i] ∧
    rows (gather x i) = zip_with (pick vzero) (rows x) (irows i) ∧ kind (gather x i) = kind x;
  scatter_law : ∀ x i v, kind v = kind x → size x ≠ [] → length (rows v) = length (rows x) → Forall2 (λ ix vs, length ix = length vs) (irows i) (rows v) →
    Forall (Forall (λ j, 0 <= j < List.last (size x) 0)) (irows i) →
    ∃ y, scatter_mean x i v = Some y ∧ size y = size x ∧ kind y = kind x ∧
      rows y = zip_with (λ base '(ix, vs), scatter_row base ix vs) (rows x) (zip (irows i) (rows v));
  (** Casting down and back keeps what fits. *)
  ito_kind_kind : ∀ k i, ikind (ito_kind k i) = k;
  ito_kind_same : ∀ i, ito_kind (ikind i) i = i;
  ito_kind_back : ∀ k i, ikind i = Int64 → Forall (Forall (λ j, 0 <= j < kind_range k)) (irows i) → ito_kind Int64 (ito_kind k i) = i;
  (** Bytes seen as what they were. *)
  view_dtype_same : ∀ i, view_dtype (ikind i) i = i;
  view_dtype_bytes : ∀ i, view_dtype (ikind i) (view_dtype Uint8 i) = i;
  (** The same of several, put side by side. *)
  view_dtype_cat : ∀ k ix, ix ≠ [] → Forall (λ i, ikind i = k) ix → view_dtype k (icat_last (view_dtype Uint8 <$> ix)) = icat_last ix;
  icat_law : ∀ ix, ix ≠ [] → irows (icat_last ix) = side_by_side (irows <$> ix);
  cat_law : ∀ s k vs, vs ≠ [] → Forall (λ v, ∃ d, size v = s ++ [d]) vs → Forall (λ v, kind v = k) vs →
    rows (cat_last vs) = side_by_side (rows <$> vs) ∧ kind (cat_last vs) = k;
  icat_kind : ∀ c k ix, ix ≠ [] → Forall (λ i, ikind i = c) ix → ito_kind k (icat_last ix) = icat_last (ito_kind k <$> ix);
}.

Section Compress.
Context {T : Torch}.

Definition compress_idx (max_value : Z) (idx : itensor) : itensor :=
  if max_value <=? 256 then ito_kind Uint8 idx
  else if max_value <=? 65536 then view_dtype Uint8 (ito_kind UInt16 idx)
  else if max_value <=? 4294967296 then view_dtype Uint8 (ito_kind UInt32 idx)
  else idx.

Definition decompress_idx (max_value : Z) (idx : itensor) : itensor :=
  ito_kind Int64
    (if max_value <=? 256 then view_dtype Uint8 idx
     else if max_value <=? 65536 then view_dtype UInt16 idx
     else if max_value <=? 4294967296 then view_dtype UInt32 idx
     else idx).

Definition clamp_topk {E} (x : tensor) (k : Z) : res E Z :=
  last_dim ← unwrap (list.last (size x));
  Ok (if last_dim <? k then last_dim else if k <? 1 then 1 else k).

(** "... y x h w -> ... y x (h w)". *)
Definition merged (xshape : list Z) : list Z :=
  let ndim := length xshape in
  take (ndim - 2) xshape ++ [nth (ndim - 2) xshape 0 * nth (ndim - 1) xshape 0].
Definition merge {E} (xshape : list Z) (x : tensor) : res E tensor :=
  if (2 <? length xshape)%nat then unwrap (view (merged xshape) x) else Ok x.

Definition compress {E} (x : tensor) (k : Z) : res E (itensor * tensor * list Z * Z) :=
  let xshape := size x in
  x ← merge xshape x;
  totalk ← unwrap (list.last (size x));
  k ← clamp_topk x k;
  let idx := topk k (abs x) in
  let v := gather x idx in
  Ok (compress_idx totalk idx, v, xshape, totalk).

Definition decompress {E} (idx : itensor) (v : tensor) (xshape : list Z) (totalk : Z) (k : vkind) : res E tensor :=
  let totalk := Z.abs totalk in
  let idx := decompress_idx totalk idx in
  let v := to_kind k v in
  x ← merge xshape (zeros xshape k);
  x ← unwrap (scatter_mean x idx v);
  unwrap (reshape xshape x).

Definition batch_decompress {E} (idx : list itensor) (v : list tensor) (xshape : list Z) (totalk : Z) (k : vkind) : res E tensor :=
  decompress (icat_last idx) (cat_last v) xshape totalk k.
End Compress.

(** ** Rows *)

Lemma length_cut {A} m d (l : list A) : length (cut m d l) = m.
Proof. unfold cut. by rewrite length_fmap, length_seq. Qed.

Lemma cut_S {A} m d (l : list A) : cut (S m) d l = take d l :: cut m d (drop d l).
Proof.
  unfold cut. cbn [seq fmap list_fmap]. f_equal. rewrite <- seq_shift. rewrite <- list_fmap_compose.
  apply list_fmap_ext. intros i r _. cbn. by rewrite drop_drop.
Qed.

Lemma concat_cut {A} m d (l : list A) : length l = (m * d)%nat → concat (cut m d l) = l.
Proof.
  revert l. induction m as [|m IH]; intros l Hl; [by destruct l|]. rewrite cut_S. cbn [concat].
  rewrite IH; [apply take_drop|]. rewrite length_drop. lia.
Qed.

Lemma cut_rows_length {A} m d (l : list A) : length l = (m * d)%nat → Forall (λ r, length r = d) (cut m d l).
Proof.
  revert l. induction m as [|m IH]; intros l Hl; [constructor|]. rewrite cut_S. constructor; [rewrite length_take; lia|].
  apply IH. rewrite length_drop. lia.
Qed.

Lemma numel_app s t : numel (s ++ t) = numel s * numel t.
Proof. unfold numel. induction s as [|x s IH]; cbn [app foldr]; [lia|]. rewrite IH. ring. Qed.

Lemma numel_nonneg s : Forall (Z.le 0) s → 0 <= numel s.
Proof. unfold numel. induction 1 as [|x s Hx _ IH]; cbn; lia. Qed.

Lemma numel_split s : s ≠ [] → numel s = numel (removelast s) * List.last s 0.
Proof.
  intros Hs. rewrite (app_removelast_last 0 Hs) at 1. rewrite numel_app. unfold numel. cbn. lia.
Qed.

Lemma removelast_nonneg s : Forall (Z.le 0) s → Forall (Z.le 0) (removelast s) ∧ 0 <= List.last s 0.
Proof.
  destruct (decide (s = [])) as [->|Hs]; [by intros _|]. rewrite (app_removelast_last 0 Hs) at 1.
  rewrite list.Forall_app. intros [? Hl]. split; [done|]. by apply list.Forall_cons in Hl as [? _].
Qed.

Lemma stdpp_last s : s ≠ [] → list.last s = Some (List.last s 0).
Proof. intros Hs. rewrite (app_removelast_last 0 Hs) at 1. by rewrite last_snoc. Qed.

Lemma merged_numel s : (2 < length s)%nat → numel (merged s) = numel s ∧ merged s ≠ [] ∧ (Forall (Z.le 0) s → Forall (Z.le 0) (merged s)).
Proof.
  intros Hs. destruct (list.last s) as [w|] eqn:Hw; [|apply last_None in Hw as ->; cbn in Hs; lia]. apply last_Some in Hw as [s1 ->].
  rewrite length_app in Hs. cbn in Hs. destruct (list.last s1) as [h|] eqn:Hh; [|apply last_None in Hh as ->; cbn in Hs; lia].
  apply last_Some in Hh as [s2 ->]. rewrite length_app in Hs. cbn in Hs. unfold merged.
  rewrite !length_app. cbn [length]. replace (length s2 + 1 + 1 - 2)%nat with (length s2) by lia. replace (length s2 + 1 + 1 - 1)%nat with (length s2 + 1)%nat by lia.
  rewrite <- app_assoc, take_app_length. cbn [app]. rewrite !app_nth2 by lia.
  replace (length s2 - length s2)%nat with 0%nat by lia. replace (length s2 + 1 - length s2)%nat with 1%nat by lia. cbn [nth].
  split_and!; [|by destruct s2|].
  - rewrite !numel_app. unfold numel. cbn. ring.
  - rewrite !list.Forall_app. intros [H2 Hl]. split; [done|]. apply list.Forall_cons in Hl as [Hh Hl]. apply list.Forall_cons in Hl as [Hw _].
    apply list.Forall_singleton. nia.
Qed.

Definition flat_shape (s : list Z) : list Z := if (2 <? length s)%nat then merged s else s.

Lemma flat_shape_ok s : s ≠ [] → Forall (Z.le 0) s →
  numel (flat_shape s) = numel s ∧ flat_shape s ≠ [] ∧ Forall (Z.le 0) (flat_shape s).
Proof.
  intros Hs Hpos. unfold flat_shape. destruct (Nat.ltb_spec 2 (length s)) as [Hlt|_]; [|done].
  destruct (merged_numel s Hlt) as (? & ? & H). by split_and!; [| |apply H].
Qed.

Section Laws.
Context {T : Torch} {L : TorchLaws T}.

(** The memory of an update does not let the last two sides be seen as one. *)
Definition unmergeable (x : tensor) : Prop := (2 < length (size x))%nat ∧ view (merged (size x)) x = None.

Lemma merge_shows {E} x :
  (∃ y, merge (E := E) (size x) x = Ok y ∧ size y = flat_shape (size x) ∧ elems y = elems x ∧ kind y = kind x) ∨
  (merge (E := E) (size x) x = Panic ∧ unmergeable x).
Proof.
  unfold merge, flat_shape, unmergeable. destruct (Nat.ltb_spec 2 (length (size x))) as [Hlt|_]; [|left; by exists x].
  destruct (merged_numel _ Hlt) as (_ & _ & Hp). destruct (view _ x) as [y|] eqn:Hy; [left|by right].
  destruct (view_shows _ _ _ (Hp (proj1 (size_elems x))) Hy) as (? & ? & ?). by exists y.
Qed.

Lemma contiguous_merges x : contiguous x = true → ¬ unmergeable x.
Proof.
  intros Hc [Hlt Hv]. destruct (merged_numel _ Hlt) as (Hn & _ & Hp).
  destruct (view_law (merged (size x)) x Hc (Hp (proj1 (size_elems x))) Hn) as (y & Hy & _). congruence.
Qed.

Lemma merge_run {E} s x : size x = s → contiguous x = true →
  ∃ y, merge (E := E) s x = Ok y ∧ size y = flat_shape s ∧ elems y = elems x ∧ kind y = kind x.
Proof. intros <- Hc. destruct (merge_shows (E := E) x) as [?|[_ Hun]]; [done|]. by destruct (contiguous_merges x Hc). Qed.

(** ** Places in few bytes *)

Lemma index_range_mono i a b : a <= b → Forall (Forall (λ j, 0 <= j < a)) (irows i) → Forall (Forall (λ j, 0 <= j < b)) (irows i).
Proof. intros Hab Hi. eapply list.Forall_impl; [exact Hi|]. intros r Hr. eapply list.Forall_impl; [exact Hr|]. cbn. lia. Qed.

(** Whatever the size of a row, the places in it are read back from the bytes sent. *)
Lemma index_round_trip totalk i : ikind i = Int64 → Forall (Forall (λ j, 0 <= j < totalk)) (irows i) → totalk <= 2 ^ 63 →
  decompress_idx totalk (compress_idx totalk i) = i.
Proof.
  intros Hk Hr Hmax. unfold decompress_idx, compress_idx.
  destruct (Z.leb_spec totalk 256) as [H8|_].
  { rewrite <- (ito_kind_kind Uint8 i) at 1. rewrite view_dtype_same. apply ito_kind_back; [done|]. by eapply index_range_mono. }
  destruct (Z.leb_spec totalk 65536) as [H16|_].
  { rewrite <- (ito_kind_kind UInt16 i) at 1. rewrite view_dtype_bytes. apply ito_kind_back; [done|]. by eapply index_range_mono. }
  destruct (Z.leb_spec totalk 4294967296) as [H32|_].
  { rewrite <- (ito_kind_kind UInt32 i) at 1. rewrite view_dtype_bytes. apply ito_kind_back; [done|]. by eapply index_range_mono. }
  rewrite <- Hk. apply ito_kind_same.
Qed.

(** ** What a row keeps *)

Definition kept (row : list val) (ix : list Z) : list val :=
  imap (λ j v, if bool_decide (Z.of_nat j ∈ ix) then v else vzero) row.

Lemma sent_to_pick (row : list val) ix j : NoDup ix → Forall (λ i, 0 <= i < zlen row) ix →
  sent_to j ix (pick vzero row ix) = if bool_decide (Z.of_nat j ∈ ix) then [default vzero (row !! j)] else [].
Proof.
  intros Hnd Hr. induction Hr as [|i ix Hi Hr IH]; [done|]. apply NoDup_cons in Hnd as [Hni Hnd]. unfold sent_to, pick in *. cbn.
  destruct (Z.eqb_spec i (Z.of_nat j)) as [->|Hne].
  - rewrite bool_decide_true by left. cbn. rewrite Nat2Z.id. f_equal. rewrite IH by done. by rewrite bool_decide_false.
  - rewrite IH by done. rewrite (bool_decide_ext (Z.of_nat j ∈ i :: ix) (Z.of_nat j ∈ ix)); [done|].
    rewrite elem_of_cons. split; [intros [?|?]; [congruence|done]|by right].
Qed.

Lemma scatter_kept row ix : NoDup ix → Forall (λ i, 0 <= i < zlen row) ix →
  scatter_row (replicate (length row) vzero) ix (pick vzero row ix) = kept row ix.
Proof.
  intros Hnd Hr. unfold scatter_row, kept. apply list_eq. intros j. rewrite !list_lookup_imap.
  destruct (row !! j) as [v|] eqn:Hv; cbn.
  - rewrite lookup_replicate_2 by (by eapply lookup_lt_Some). cbn. f_equal. rewrite sent_to_pick by done.
    case_bool_decide; [|done]. rewrite Hv. apply mean_one.
  - rewrite (lookup_ge_None_2 (replicate _ _)); [done|]. rewrite length_replicate. by apply lookup_ge_None.
Qed.

Lemma kept_all row ix : NoDup ix → Forall (λ i, 0 <= i < zlen row) ix → zlen ix = zlen row → kept row ix = row.
Proof.
  intros Hnd Hr Hlen. unfold kept. apply list_eq. intros j. rewrite list_lookup_imap. destruct (row !! j) as [v|] eqn:Hv; [|done].
  cbn. rewrite bool_decide_true; [done|]. apply lookup_lt_Some in Hv.
  assert (Hperm : ix ≡ₚ seqZ 0 (zlen row)).
  { apply submseteq_length_Permutation.
    - apply NoDup_submseteq; [done|]. intros i Hi. apply elem_of_seqZ. rewrite list.Forall_forall in Hr. specialize (Hr i Hi). lia.
    - rewrite length_seqZ. unfold zlen in *. lia. }
  rewrite Hperm. apply elem_of_seqZ. unfold zlen. lia.
Qed.

(** What is chosen of a row: as many places as asked for, none smaller than one left out. *)
Definition chosen (k : Z) (row : list val) (ix : list Z) : Prop :=
  NoDup ix ∧ zlen ix = k ∧ Forall (λ i, 0 <= i < zlen row) ix ∧
  ∀ i j a b, i ∈ ix → Z.of_nat j ∉ ix → row !! Z.to_nat i = Some a → row !! j = Some b → vle (vabs b) (vabs a).

Definition clamped (totalk k : Z) : Z := if totalk <? k then totalk else if k <? 1 then 1 else k.
(** The rows an update is compressed in, and their length. *)
Definition flat_rows (x : tensor) : list (list val) :=
  cut (row_count (flat_shape (size x))) (row_size (flat_shape (size x))) (elems x).
Definition row_length (x : tensor) : Z := List.last (flat_shape (size x)) 0.

Lemma flat_rows_length x : size x ≠ [] →
  Forall (λ r, zlen r = row_length x) (flat_rows x) ∧ concat (flat_rows x) = elems x ∧ 0 <= row_length x.
Proof.
  intros Hs. destruct (size_elems x) as [Hpos Hlen]. destruct (flat_shape_ok (size x) Hs Hpos) as (Hn & Hne & Hfp).
  destruct (removelast_nonneg _ Hfp) as [Hrp Hlp].
  assert (Hl : length (elems x) = (row_count (flat_shape (size x)) * row_size (flat_shape (size x)))%nat).
  { rewrite <- Hn, (numel_split _ Hne) in Hlen. unfold row_count, row_size, zlen in *. pose proof (numel_nonneg _ Hrp). nia. }
  unfold flat_rows. split_and!; [|by apply concat_cut|done]. eapply list.Forall_impl; [apply (cut_rows_length _ _ _ Hl)|].
  intros r Hr. cbn in Hr. unfold zlen, row_length. rewrite Hr. unfold row_size. lia.
Qed.

Lemma chosen_range k x i : size x ≠ [] → Forall2 (chosen k) (flat_rows x) (irows i) →
  Forall (Forall (λ j, 0 <= j < row_length x)) (irows i).
Proof.
  intros Hs Hch. destruct (flat_rows_length x Hs) as (Hfl & _). induction Hch as [|row ix rs is_ (_ & _ & Hr & _) _ IH]; [constructor|].
  apply list.Forall_cons in Hfl as [Hl Hfl]. constructor; [|by apply IH]. by rewrite Hl in Hr.
Qed.

Lemma compress_merged {E} x y k : merge (E := E) (size x) x = Ok y → size y = flat_shape (size x) → elems y = elems x → kind y = kind x →
  size x ≠ [] → 1 <= row_length x <= 2 ^ 63 →
  ∃ i v, compress (E := E) x k = Ok (compress_idx (row_length x) i, v, size x, row_length x) ∧ ikind i = Int64 ∧
    Forall2 (chosen (clamped (row_length x) k)) (flat_rows x) (irows i) ∧
    rows v = zip_with (pick vzero) (flat_rows x) (irows i) ∧ kind v = kind x ∧
    size v = removelast (flat_shape (size x)) ++ [clamped (row_length x) k].
Proof.
  intros Hy Hsy Hey Hky Hs Hrow. destruct (size_elems x) as [Hpos Hlen]. destruct (flat_shape_ok (size x) Hs Hpos) as (Hn & Hne & Hfp). unfold compress. rewrite Hy. cbn [mbind res_bind].
  unfold clamp_topk. rewrite Hsy, stdpp_last by done. cbn [unwrap mbind res_bind].
  set (kk := if _ <? k then _ else _). assert (Hkk : kk = clamped (row_length x) k) by done. rewrite Hkk in *. clear kk Hkk.
  set (kk := clamped (row_length x) k) in *. assert (Hk : 1 <= kk <= row_length x).
  { unfold kk, clamped. destruct (Z.ltb_spec (row_length x) k); [lia|]. destruct (Z.ltb_spec k 1); lia. }
  destruct (abs_law y) as [Has Hae]. destruct (topk_law kk (abs y)) as (Hik & Hil & Htop); [by rewrite Has, Hsy|].
  assert (Hry : rows y = flat_rows x) by (unfold rows; by rewrite Hsy, Hey).
  assert (Hra : rows (abs y) = (λ r : list val, vabs <$> r) <$> flat_rows x).
  { unfold rows, flat_rows, cut. rewrite Has, Hsy, Hae, Hey. rewrite <- list_fmap_compose. apply list_fmap_ext. intros ? r _. cbn.
    by rewrite <- fmap_drop, <- fmap_take. }
  rewrite Hra in Htop. assert (Hch : Forall2 (chosen kk) (flat_rows x) (irows (topk kk (abs y)))).
  { apply Forall2_fmap_l in Htop. eapply Forall2_impl; [exact Htop|]. intros row ix (Hnd & Hl & Hr & Hd). unfold zlen in Hr. rewrite length_fmap in Hr.
    split_and!; [done|done|exact Hr|]. intros i j a b Hi Hj Ha Hb. apply (Hd i j); try done; by rewrite list_lookup_fmap, ?Ha, ?Hb. }
  destruct (gather_law y (topk kk (abs y))) as (Hgs & Hg & Hgk); [|by rewrite Hsy|rewrite Hil; lia|]; rewrite Hil in *.
  { rewrite Hry. eapply Forall2_impl; [exact Hch|]. by intros row ix (_ & Hl & Hr & _). }
  exists (topk kk (abs y)), (gather y (topk kk (abs y))). split_and!; try done; [by rewrite Hg, Hry|congruence|by rewrite Hgs, Hsy].
Qed.

Lemma compress_run {E} x k : contiguous x = true → size x ≠ [] → 1 <= row_length x <= 2 ^ 63 →
  ∃ i v, compress (E := E) x k = Ok (compress_idx (row_length x) i, v, size x, row_length x) ∧ ikind i = Int64 ∧
    Forall2 (chosen (clamped (row_length x) k)) (flat_rows x) (irows i) ∧
    rows v = zip_with (pick vzero) (flat_rows x) (irows i) ∧ kind v = kind x ∧
    size v = removelast (flat_shape (size x)) ++ [clamped (row_length x) k].
Proof. intros Hc Hs Hrow. destruct (merge_run (E := E) (size x) x eq_refl Hc) as (y & ? & ? & ? & ?). by eapply compress_merged. Qed.

Lemma cut_replicate {A} m d (a : A) : cut m d (replicate (m * d) a) = replicate m (replicate d a).
Proof.
  induction m as [|m IH]; [done|]. rewrite cut_S. cbn [Nat.mul replicate]. rewrite replicate_add.
  rewrite take_app_length', drop_app_length' by (by rewrite length_replicate). by rewrite IH.
Qed.

(** The update put together from places and values, row by row. *)
Lemma decompress_run {E} s totalk idx i v : s ≠ [] → Forall (Z.le 0) s → 0 <= totalk → decompress_idx totalk idx = i →
  length (rows v) = row_count (flat_shape s) → Forall2 (λ ix vs, length ix = length vs) (irows i) (rows v) →
  Forall (Forall (λ j, 0 <= j < List.last (flat_shape s) 0)) (irows i) →
  ∃ y, decompress (E := E) idx v s totalk (kind v) = Ok y ∧ size y = s ∧ kind y = kind v ∧
    elems y = concat (zip_with (scatter_row (replicate (row_size (flat_shape s)) vzero)) (irows i) (rows v)).
Proof.
  intros Hs Hpos Ht Hi Hrows Hlen Hrange. unfold decompress. rewrite Z.abs_eq, Hi by done. rewrite to_kind_same.
  destruct (zeros_law s (kind v) Hpos) as (Hzs & Hze & Hzc & Hzk). destruct (flat_shape_ok s Hs Hpos) as (Hn & Hne & Hfp).
  destruct (merge_run (E := E) s (zeros s (kind v)) Hzs Hzc) as (z & -> & Hsz & Hez & Hkz). cbn [mbind res_bind].
  assert (Hrz : rows z = replicate (row_count (flat_shape s)) (replicate (row_size (flat_shape s)) vzero)).
  { unfold rows. rewrite Hsz, Hez, Hze, <- Hn. replace (Z.to_nat (numel (flat_shape s))) with (row_count (flat_shape s) * row_size (flat_shape s))%nat; [apply cut_replicate|].
    destruct (removelast_nonneg _ Hfp) as [Hrp Hlp]. pose proof (numel_nonneg _ Hrp). rewrite (numel_split _ Hne). unfold row_count, row_size. lia. }
  destruct (scatter_law z i v) as (w & -> & Hsw & Hkw & Hrw); [congruence|by rewrite Hsz|by rewrite Hrz, length_replicate|done|by rewrite Hsz|].
  cbn [unwrap mbind res_bind]. destruct (reshape_law s w Hpos) as (y & -> & Hsy & Hey & Hky); [by rewrite Hsw, Hsz|].
  exists y. split_and!; [done|done|congruence|]. rewrite Hey.
  assert (Hcw : concat (rows w) = elems w).
  { unfold rows. apply concat_cut. destruct (size_elems w) as [_ Hlw]. rewrite Hsw, Hsz in *. rewrite (numel_split _ Hne) in Hlw.
    destruct (removelast_nonneg _ Hfp) as [Hrp Hlp]. pose proof (numel_nonneg _ Hrp). unfold row_count, row_size, zlen in *. nia. }
  rewrite <- Hcw, Hrw, Hrz. f_equal. clear -Hlen Hrows. revert Hrows. generalize (row_count (flat_shape s)) as m.
  induction Hlen as [|ix vs li lv Hl _ IH]; intros m Hm; cbn in Hm; subst m; [done|]. cbn. f_equal. by apply IH.
Qed.

(** C24: Of an update the largest values of every row arrive where they were, and zeros at the
    other places; all of it arrives when a row is asked for whole. *)
Theorem compress_keeps_largest {E} x k : contiguous x = true → size x ≠ [] → 1 <= row_length x <= 2 ^ 63 →
  ∃ idx v y picks, compress (E := E) x k = Ok (idx, v, size x, row_length x) ∧
    decompress (E := E) idx v (size x) (row_length x) (kind x) = Ok y ∧ size y = size x ∧
    Forall2 (chosen (clamped (row_length x) k)) (flat_rows x) picks ∧
    elems y = concat (zip_with kept (flat_rows x) picks) ∧
    (row_length x <= k → elems y = elems x).
Proof.
  intros Hc Hs Hrow. destruct (compress_run (E := E) x k Hc Hs Hrow) as (i & v & Hcomp & Hik & Hch & Hv & Hkv & _).
  destruct (flat_rows_length x Hs) as (Hfl & Hfe & _). destruct (size_elems x) as [Hpos _].
  pose proof (chosen_range _ _ _ Hs Hch) as Hrange.
  destruct (decompress_run (E := E) (size x) (row_length x) (compress_idx (row_length x) i) i v) as (y & Hy & Hsy & Hky & Hey); try done.
  - lia.
  - apply index_round_trip; [done|done|lia].
  - rewrite Hv, length_zip_with. rewrite <- (Forall2_length _ _ _ Hch). unfold flat_rows. rewrite length_cut. lia.
  - rewrite Hv. clear -Hch. induction Hch as [|row ix rs is_ _ _ IH]; cbn; constructor; [|done]. unfold pick. by rewrite length_fmap.
  - assert (Hkept : elems y = concat (zip_with kept (flat_rows x) (irows i))).
    { rewrite Hey, Hv. f_equal. assert (Hw : ∀ r, r ∈ flat_rows x → row_size (flat_shape (size x)) = length r).
      { intros r Hr. rewrite list.Forall_forall in Hfl. specialize (Hfl r Hr). unfold row_length, row_size, zlen in *. lia. }
      clear -Hch Hw L. induction Hch as [|row ix rs is_ (Hnd & _ & Hr & _) _ IH]; [done|]. cbn. f_equal; [|apply IH; intros; apply Hw; by right].
      rewrite (Hw row) by left. by apply scatter_kept. }
    exists (compress_idx (row_length x) i), v, y, (irows i). rewrite <- Hkv. split_and!; try done. intros Hk. rewrite Hkept, <- Hfe. f_equal.
    clear -Hch Hfl Hk Hrow. induction Hch as [|row ix rs is_ (Hnd & Hl & Hr & _) _ IH]; [done|]. cbn. apply list.Forall_cons in Hfl as [Hlr Hfl]. f_equal; [|by apply IH].
    apply kept_all; [done|done|]. rewrite Hl, Hlr. unfold clamped. destruct (Z.ltb_spec (row_length x) k); [done|]. destruct (Z.ltb_spec k 1); lia.
Qed.

(** ** Several results at once *)

Definition row_of {A} (r : nat) (l : list (list A)) : list A := default [] (l !! r).

Lemma foldl_app_length {A} m (ls : list (list (list A))) : Forall (λ l, length l = m) ls → ∀ acc, length acc = m →
  length (foldl (zip_with app) acc ls) = m.
Proof. induction 1 as [|l ls Hl _ IH]; intros acc Hacc; cbn [foldl]; [done|]. apply IH. rewrite length_zip_with. lia. Qed.

Lemma foldl_app_rows {A} r m (ls : list (list (list A))) : (r < m)%nat → Forall (λ l, length l = m) ls → ∀ acc, length acc = m →
  foldl (zip_with app) acc ls !! r = Some (row_of r acc ++ concat (row_of r <$> ls)).
Proof.
  intros Hr Hls. induction Hls as [|l ls Hl _ IH]; intros acc Hacc; cbn [foldl].
  - cbn. rewrite app_nil_r. unfold row_of. by destruct (lookup_lt_is_Some_2 acc r) as [a ->]; [lia|].
  - rewrite IH by (rewrite length_zip_with; lia). cbn. f_equal. rewrite app_assoc. f_equal. unfold row_of. rewrite lookup_zip_with.
    destruct (lookup_lt_is_Some_2 acc r) as [a ->]; [lia|]. by destruct (lookup_lt_is_Some_2 l r) as [b ->]; [lia|].
Qed.

Lemma side_by_side_rows {A} m (ls : list (list (list A))) : ls ≠ [] → Forall (λ l, length l = m) ls →
  side_by_side ls = (λ r, concat (row_of r <$> ls)) <$> seq 0 m.
Proof.
  destruct ls as [|l ls]; [done|]. intros _ [Hl Hls]%list.Forall_cons. cbn [side_by_side]. apply list_eq. intros r. rewrite list_lookup_fmap.
  destruct (decide (r < m)%nat) as [Hr|Hr].
  - rewrite lookup_seq_lt by done. cbn. by apply foldl_app_rows with (m := m).
  - rewrite lookup_seq_ge by lia. apply lookup_ge_None_2. rewrite (foldl_app_length m) by done. lia.
Qed.

Lemma sent_to_concat {A} j (ixs : list (list Z)) (vss : list (list A)) : Forall2 (λ ix vs, length ix = length vs) ixs vss →
  sent_to j (concat ixs) (concat vss) = concat (zip_with (sent_to j) ixs vss).
Proof.
  induction 1 as [|ix vs ixs vss Hl _ IH]; [done|]. cbn. rewrite <- IH. unfold sent_to.
  rewrite zip_with_app by done. by rewrite List.filter_app, fmap_app.
Qed.

(** What the updates that chose place [j] of row [r] say of it, in order. *)
Definition said (r j : nat) (choices : list (tensor * list (list Z))) : list val :=
  concat ((λ c, if bool_decide (Z.of_nat j ∈ row_of r c.2) then [default vzero (row_of r (flat_rows c.1) !! j)] else []) <$> choices).
Definition averaged (choices : list (tensor * list (list Z))) (r j : nat) : val :=
  match said r j choices with [] => vzero | l => mean l end.

(** The compressed results of updates of one shape, what they chose, and their rows. *)
Record sent (s : list Z) (k totalk : Z) (x : tensor) (i : itensor) (v : tensor) : Prop := {
  sent_kind : ikind i = Int64;
  sent_chosen : Forall2 (chosen (clamped totalk k)) (flat_rows x) (irows i);
  sent_rows : rows v = zip_with (pick vzero) (flat_rows x) (irows i);
  sent_vkind : kind v = kind x;
  sent_size : size v = removelast (flat_shape s) ++ [clamped totalk k];
}.

Lemma compress_all {E} s k K xs : s ≠ [] → 1 <= List.last (flat_shape s) 0 <= 2 ^ 63 →
  Forall (λ x, contiguous x = true ∧ size x = s ∧ kind x = K) xs →
  ∃ ts : list (tensor * itensor * tensor), (λ t, t.1.1) <$> ts = xs ∧
    Forall (λ t, compress (E := E) t.1.1 k = Ok (compress_idx (List.last (flat_shape s) 0) t.1.2, t.2, s, List.last (flat_shape s) 0) ∧
      sent s k (List.last (flat_shape s) 0) t.1.1 t.1.2 t.2 ∧ size t.1.1 = s ∧ kind t.1.1 = K) ts.
Proof.
  intros Hs Hrow Hxs. induction Hxs as [|x xs (Hc & Hsx & HK) _ (ts & <- & Hall)]; [by exists []; split; [|constructor]|].
  destruct (compress_run (E := E) x k Hc) as (i & v & Hcomp & ? & ? & ? & ? & ?); [by rewrite Hsx|by unfold row_length; rewrite Hsx|].
  unfold row_length in *. rewrite Hsx in *. exists ((x, i, v) :: ts). split; [done|]. constructor; [|done]. by split_and!.
Qed.

Lemma batch_index totalk is_ : is_ ≠ [] → totalk <= 2 ^ 63 → Forall (λ i, ikind i = Int64 ∧ Forall (Forall (λ j, 0 <= j < totalk)) (irows i)) is_ →
  decompress_idx totalk (icat_last (compress_idx totalk <$> is_)) = icat_last is_.
Proof.
  intros Hne Hmax His. assert (Hnef : ∀ f : itensor → itensor, f <$> is_ ≠ []) by (intros f; by destruct is_).
  assert (Hback : ∀ k, totalk <= kind_range k → ito_kind Int64 <$> (ito_kind k <$> is_) = is_).
  { intros k Hk. rewrite <- list_fmap_compose. rewrite <- (list_fmap_id is_) at 2. apply list_fmap_ext. intros j i Hi.
    apply list_elem_of_lookup_2 in Hi. rewrite list.Forall_forall in His. destruct (His i Hi) as [Hkind Hr]. cbn. apply ito_kind_back; [done|].
    by eapply index_range_mono. }
  assert (Hview : ∀ k, view_dtype k (icat_last (view_dtype Uint8 <$> (ito_kind k <$> is_))) = icat_last (ito_kind k <$> is_)).
  { intros k. apply view_dtype_cat; [done|]. apply list.Forall_fmap, list.Forall_true. intros; apply ito_kind_kind. }
  assert (Hcat : ∀ k, ito_kind Int64 (icat_last (ito_kind k <$> is_)) = icat_last (ito_kind Int64 <$> (ito_kind k <$> is_))).
  { intros k. apply (icat_kind k); [done|]. apply list.Forall_fmap, list.Forall_true. intros; apply ito_kind_kind. }
  assert (Hext : ∀ f g : itensor → itensor, (∀ i, f i = g i) → f <$> is_ = g <$> is_) by (intros f g Hfg; by apply list_fmap_ext).
  unfold decompress_idx. destruct (Z.leb_spec totalk 256) as [H8|H8].
  { rewrite (Hext _ (view_dtype Uint8 ∘ ito_kind Uint8)), list_fmap_compose, Hview, Hcat by done || (intros i; unfold compress_idx; rewrite (proj2 (Z.leb_le _ _)) by done; cbn; rewrite <- (ito_kind_kind Uint8 i) at 2; by rewrite view_dtype_same).
    by rewrite (Hback Uint8). }
  destruct (Z.leb_spec totalk 65536) as [H16|H16].
  { rewrite (Hext _ (view_dtype Uint8 ∘ ito_kind UInt16)), list_fmap_compose, Hview, Hcat by done || (intros i; unfold compress_idx; by rewrite (proj2 (Z.leb_gt totalk 256)), (proj2 (Z.leb_le _ _)) by done).
    by rewrite (Hback UInt16). }
  destruct (Z.leb_spec totalk 4294967296) as [H32|H32].
  { rewrite (Hext _ (view_dtype Uint8 ∘ ito_kind UInt32)), list_fmap_compose, Hview, Hcat by done || (intros i; unfold compress_idx; by rewrite (proj2 (Z.leb_gt totalk 256)), (proj2 (Z.leb_gt totalk 65536)), (proj2 (Z.leb_le _ _)) by done).
    by rewrite (Hback UInt32). }
  rewrite (Hext _ id), list_fmap_id, (icat_kind Int64) by done || (by eapply list.Forall_impl; [exact His|]; intros i [? _]) || (intros i; unfold compress_idx; by rewrite (proj2 (Z.leb_gt totalk 256)), (proj2 (Z.leb_gt totalk 65536)), (proj2 (Z.leb_gt totalk 4294967296)) by done).
  f_equal. rewrite <- (list_fmap_id is_) at 2. apply list_fmap_ext. intros j i Hi.
  apply list_elem_of_lookup_2 in Hi. rewrite list.Forall_forall in His. destruct (His i Hi) as [<- _]. apply ito_kind_same.
Qed.

(** Row [r] of one result: as many values as places, and what goes where. *)
Lemma sent_row s k totalk x i v r : sent s k totalk x i v → (r < length (flat_rows x))%nat →
  length (row_of r (irows i)) = length (row_of r (rows v)) ∧
  ∀ j, sent_to j (row_of r (irows i)) (row_of r (rows v)) =
    if bool_decide (Z.of_nat j ∈ row_of r (irows i)) then [default vzero (row_of r (flat_rows x) !! j)] else [].
Proof.
  intros [_ Hch Hv _ _] Hr. destruct (lookup_lt_is_Some_2 _ _ Hr) as [row Hrow].
  destruct (Forall2_lookup_l _ _ _ _ _ Hch Hrow) as (ix & Hix & Hnd & _ & Hrange & _).
  unfold row_of. rewrite Hv, lookup_zip_with, Hrow, Hix. cbn [mbind option_bind default from_option id].
  split; [unfold pick; by rewrite length_fmap|]. intros j. by apply sent_to_pick.
Qed.

Lemma scatter_averaged s k totalk d r (ts : list (tensor * itensor * tensor)) :
  Forall (λ t, sent s k totalk t.1.1 t.1.2 t.2 ∧ (r < length (flat_rows t.1.1))%nat) ts →
  length (concat (row_of r <$> ((λ t, irows t.1.2) <$> ts))) = length (concat (row_of r <$> ((λ t, rows t.2) <$> ts))) ∧
  scatter_row (replicate d vzero) (concat (row_of r <$> ((λ t, irows t.1.2) <$> ts))) (concat (row_of r <$> ((λ t, rows t.2) <$> ts))) =
    averaged ((λ t, (t.1.1, irows t.1.2)) <$> ts) r <$> seq 0 d.
Proof.
  intros Hts. assert (Hlens : Forall2 (λ ix vs, length ix = length vs) (row_of r <$> ((λ t, irows t.1.2) <$> ts)) (row_of r <$> ((λ t, rows t.2) <$> ts))).
  { induction Hts as [|t ts [Hs Hr] _ IH]; cbn; constructor; [|done]. by apply (sent_row _ _ _ _ _ _ _ Hs Hr). }
  split; [induction Hlens; cbn; rewrite ?length_app; lia|].
  unfold scatter_row. apply list_eq. intros j. rewrite list_lookup_imap, list_lookup_fmap.
  destruct (decide (j < d)%nat) as [Hj|Hj].
  - rewrite lookup_replicate_2, lookup_seq_lt by done. cbn. f_equal. unfold averaged. rewrite sent_to_concat by done.
    assert (Hsaid : concat (zip_with (sent_to j) (row_of r <$> ((λ t, irows t.1.2) <$> ts)) (row_of r <$> ((λ t, rows t.2) <$> ts))) =
      said r j ((λ t, (t.1.1, irows t.1.2)) <$> ts)); [|by rewrite Hsaid].
    unfold said. clear Hlens. induction Hts as [|t ts [Hs Hr] _ IH]; [done|]. cbn. f_equal; [|done]. by apply (sent_row _ _ _ _ _ _ _ Hs Hr).
  - rewrite lookup_seq_ge by lia. rewrite lookup_ge_None_2; [done|]. rewrite length_replicate. lia.
Qed.

(** Several results at once: a place that no result chose is zero, any other the mean of
    what the results that chose it say. *)
Theorem batch_takes_means {E} s k K xs : let totalk := List.last (flat_shape s) 0 in
  s ≠ [] → 1 <= totalk <= 2 ^ 63 → xs ≠ [] → Forall (λ x, contiguous x = true ∧ size x = s ∧ kind x = K) xs →
  ∃ results y choices, Forall2 (λ x r, compress (E := E) x k = Ok (r.1, r.2, s, totalk)) xs results ∧
    batch_decompress (E := E) (fst <$> results) (snd <$> results) s totalk K = Ok y ∧ size y = s ∧
    fst <$> choices = xs ∧ Forall (λ c, Forall2 (chosen (clamped totalk k)) (flat_rows c.1) c.2) choices ∧
    elems y = concat ((λ r, averaged choices r <$> seq 0 (row_size (flat_shape s))) <$> seq 0 (row_count (flat_shape s))).
Proof.
  intros totalk Hs Hrow Hne Hxs.
  assert (Hpos : Forall (Z.le 0) s) by (destruct xs as [|x xs]; [done|]; apply list.Forall_cons in Hxs as [(_ & <- & _) _]; apply size_elems).
  destruct (compress_all (E := E) s k K xs Hs Hrow Hxs) as (ts & <- & Hts). fold totalk in Hts. clear Hxs.
  assert (Htne : ts ≠ []) by (intros ->; done). set (m := row_count (flat_shape s)) in *. set (d := row_size (flat_shape s)) in *.
  assert (Hm : ∀ t, t ∈ ts → length (flat_rows t.1.1) = m ∧ length (irows t.1.2) = m ∧ length (rows t.2) = m).
  { intros t Ht. rewrite list.Forall_forall in Hts. destruct (Hts t Ht) as (_ & [_ Hch Hv _ _] & Hsx & _).
    assert (Hl : length (flat_rows t.1.1) = m) by (unfold flat_rows; by rewrite length_cut, Hsx).
    pose proof (Forall2_length _ _ _ Hch). split_and!; [done|lia|]. rewrite Hv, length_zip_with. lia. }
  assert (Hirows : irows (icat_last ((λ t, t.1.2) <$> ts)) = (λ r, concat (row_of r <$> ((λ t, irows t.1.2) <$> ts))) <$> seq 0 m).
  { rewrite icat_law by (by destruct ts). rewrite <- list_fmap_compose. apply side_by_side_rows; [by destruct ts|].
    apply list.Forall_fmap, list.Forall_forall. intros t Ht. by apply Hm. }
  assert (Hv : rows (cat_last (snd <$> ts)) = (λ r, concat (row_of r <$> ((λ t, rows t.2) <$> ts))) <$> seq 0 m ∧ kind (cat_last (snd <$> ts)) = K).
  { destruct (cat_law (removelast (flat_shape s)) K (snd <$> ts)) as [Hr Hk]; [by destruct ts| | |].
    - apply list.Forall_fmap. eapply list.Forall_impl; [exact Hts|]. intros t (_ & [_ _ _ _ Hsz] & _). by eexists.
    - apply list.Forall_fmap. eapply list.Forall_impl; [exact Hts|]. intros t (_ & [_ _ _ Hk _] & _ & HK). cbn. congruence.
    - split; [|done]. rewrite Hr, <- list_fmap_compose. apply side_by_side_rows; [by destruct ts|].
      apply list.Forall_fmap, list.Forall_forall. intros t Ht. by apply Hm. }
  destruct Hv as [Hv HK].
  assert (Hrow_ok : ∀ r, r ∈ seq 0 m → Forall (λ t, sent s k totalk t.1.1 t.1.2 t.2 ∧ (r < length (flat_rows t.1.1))%nat) ts).
  { intros r Hr%elem_of_seq. apply list.Forall_forall. intros t Ht. rewrite list.Forall_forall in Hts. destruct (Hts t Ht) as (_ & Hsent & _).
    destruct (Hm t Ht) as [-> _]. split; [done|lia]. }
  destruct (decompress_run (E := E) s totalk (icat_last (compress_idx totalk <$> ((λ t, t.1.2) <$> ts))) (icat_last ((λ t, t.1.2) <$> ts)) (cat_last (snd <$> ts)))
    as (y & Hy & Hsy & _ & Hey); [done|done|lia| |by rewrite Hv, length_fmap, length_seq| | |].
  - apply batch_index; [by destruct ts|lia|]. apply list.Forall_fmap. eapply list.Forall_impl; [exact Hts|].
    intros t (_ & [Hk Hch _ _ _] & Hsx & _). split; [done|]. cbn. replace totalk with (row_length t.1.1) by (unfold row_length; by rewrite Hsx).
    eapply chosen_range; [by rewrite Hsx|exact Hch].
  - rewrite Hirows, Hv. apply Forall2_fmap, Forall_Forall2_diag, list.Forall_forall. intros r Hr. by apply (scatter_averaged s k totalk d), Hrow_ok.
  - rewrite Hirows. apply list.Forall_fmap, list.Forall_forall. intros r Hr. cbn. apply Forall_concat. do 2 apply list.Forall_fmap.
    eapply list.Forall_impl; [exact Hts|]. intros t (_ & [_ Hch _ _ _] & Hsx & _). cbn. unfold row_of.
    destruct (irows t.1.2 !! r) as [ix|] eqn:Hix; [|constructor]. cbn.
    assert (Hrg := chosen_range _ _ _ ltac:(by rewrite Hsx) Hch). unfold row_length in Hrg. rewrite Hsx in Hrg.
    by apply (Forall_lookup_1 _ _ _ _ Hrg Hix).
  - exists ((λ t, (compress_idx totalk t.1.2, t.2)) <$> ts), y, ((λ t, (t.1.1, irows t.1.2)) <$> ts). rewrite <- !list_fmap_compose. split_and!.
    + apply Forall2_fmap, Forall_Forall2_diag. eapply list.Forall_impl; [exact Hts|]. by intros t (Hc & _).
    + unfold batch_decompress. rewrite <- HK. rewrite <- list_fmap_compose in Hy. exact Hy.
    + done.
    + done.
    + apply list.Forall_fmap. eapply list.Forall_impl; [exact Hts|]. by intros t (_ & [_ Hch _ _ _] & _).
    + rewrite Hey, Hirows, Hv. f_equal. rewrite zip_with_fmap_l, zip_with_fmap_r, zip_with_diag. apply list_fmap_ext. intros ? r Hr.
      apply list_elem_of_lookup_2 in Hr. by apply (scatter_averaged s k totalk d), Hrow_ok.
Qed.
End Laws.

(** ** Tensors of integers *)

Module Small.
(** Sizes and elements, made to fit; index tensors keep their kind, the size of a row and
    their rows. *)
Definition tsize (t : list Z * list Z) : list Z := Z.max 0 <$> t.1.
Definition telems (t : list Z * list Z) : list Z := resize (Z.to_nat (numel (tsize t))) 0 t.2.
Definition trows (t : list Z * list Z) : list (list Z) := cut (row_count (tsize t)) (row_size (tsize t)) (telems t).
Definition tmean (l : list Z) : Z := foldr Z.add 0 l / zlen l.
Definition regroup (s : list Z) (t : list Z * list Z) : option (list Z * list Z) :=
  if bool_decide (numel s = numel (tsize t)) then Some (s, telems t) else None.
Definition greater (a b : nat * Z) : Prop := b.2 <= a.2.
#[local] Instance greater_dec : RelDecision greater.
Proof. intros a b. unfold greater. apply _. Defined.
Definition greatest (k : Z) (row : list Z) : list Z :=
  take (Z.to_nat k) ((λ p : nat * Z, Z.of_nat p.1) <$> stable_sort greater (imap pair row)).
Definition cast (k : IKind) (i : IKind * Z * list (list Z)) : IKind * Z * list (list Z) :=
  if decide (k = i.1.1) then i else (k, i.1.2, (λ r : list Z, (λ j, j mod kind_range k) <$> r) <$> i.2).

#[local] Instance torch : Torch := {|
  val := Z; vzero := 0; vabs := Z.abs; vle := Z.le; mean := tmean; vkind := unit;
  tensor := list Z * list Z; size := tsize; elems := telems; contiguous := λ _, true; kind := λ _, tt;
  view := regroup; reshape := regroup; zeros := λ s _, (s, []); to_kind := λ _ t, t;
  abs := λ t, (t.1, Z.abs <$> telems t);
  cat_last := λ ts, match ts with
    | [] => ([], [])
    | t :: _ => (removelast (tsize t) ++ [foldr Z.add 0 ((λ t, List.last (tsize t) 0) <$> ts)], concat (side_by_side (trows <$> ts)))
    end;
  itensor := IKind * Z * list (list Z); irows := snd; ilast := λ i, i.1.2; ikind := λ i, i.1.1;
  ito_kind := cast; view_dtype := λ k i, (k, i.1.2, i.2);
  icat_last := λ ix, match ix with
    | [] => (Int64, 0, [])
    | i :: _ => (i.1.1, foldr Z.add 0 ((λ i, i.1.2) <$> ix), side_by_side (snd <$> ix))
    end;
  topk := λ k t, (Int64, k, greatest k <$> trows t);
  gather := λ t i, (removelast (tsize t) ++ [i.1.2], concat (zip_with (pick 0) (trows t) i.2));
  scatter_mean := λ t i v, Some (tsize t, concat (zip_with
    (λ base '(ix, vs), imap (λ j b, match sent_to j ix vs with [] => b | l => tmean l end) base) (trows t) (zip i.2 (trows v))));
|}.

Lemma tsize_id s l : Forall (Z.le 0) s → tsize (s, l) = s.
Proof. intros Hs. unfold tsize. cbn. rewrite <- (list_fmap_id s) at 2. apply list_fmap_ext. intros i x Hx. rewrite list.Forall_lookup in Hs. specialize (Hs i x Hx). cbn. lia. Qed.
Lemma tsize_nonneg t : Forall (Z.le 0) (tsize t).
Proof. apply list.Forall_fmap, list.Forall_true. intros x. cbn. lia. Qed.
Lemma telems_length t : zlen (telems t) = numel (tsize t).
Proof. unfold telems, zlen. rewrite length_resize. pose proof (numel_nonneg _ (tsize_nonneg t)). lia. Qed.
Lemma telems_id s l : Forall (Z.le 0) s → zlen l = numel s → telems (s, l) = l.
Proof. intros Hs Hl. unfold telems. rewrite tsize_id by done. cbn. apply resize_all_alt. unfold zlen in Hl. lia. Qed.

Lemma regroup_law s t : Forall (Z.le 0) s → numel s = numel (tsize t) →
  ∃ y, regroup s t = Some y ∧ tsize y = s ∧ telems y = telems t.
Proof.
  intros Hs Hn. unfold regroup. rewrite bool_decide_true by done. eexists. split; [done|]. split; [by apply tsize_id|].
  apply telems_id; [done|]. by rewrite telems_length.
Qed.

Lemma trows_shape t : tsize t ≠ [] → length (trows t) = row_count (tsize t) ∧ Forall (λ r, length r = row_size (tsize t)) (trows t).
Proof.
  intros Hs. unfold trows. split; [apply length_cut|]. apply cut_rows_length. pose proof (telems_length t) as Hl.
  rewrite (numel_split _ Hs) in Hl. destruct (removelast_nonneg _ (tsize_nonneg t)) as [Hr Hp]. pose proof (numel_nonneg _ Hr).
  unfold row_count, row_size, zlen in *. nia.
Qed.

Lemma cut_concat {A} m d (l : list (list A)) : length l = m → Forall (λ r, length r = d) l → cut m d (concat l) = l.
Proof.
  intros <- Hl. induction Hl as [|r l Hr _ IH]; [done|]. cbn [length concat]. rewrite cut_S.
  by rewrite take_app_length', drop_app_length', IH.
Qed.

(** A tensor given by its rows. *)
Lemma trows_of s d l : Forall (Z.le 0) s → 0 <= d → length l = Z.to_nat (numel s) → Forall (λ r, zlen r = d) l →
  tsize (s ++ [d], concat l) = s ++ [d] ∧ trows (s ++ [d], concat l) = l.
Proof.
  intros Hs Hd Hm Hl. assert (Hsd : Forall (Z.le 0) (s ++ [d])) by (apply list.Forall_app; split; [done|by apply list.Forall_singleton]).
  split; [by apply tsize_id|]. unfold trows. rewrite tsize_id by done. unfold row_count, row_size. rewrite removelast_last, last_last.
  assert (Hl' : Forall (λ r, length r = Z.to_nat d) l) by (eapply list.Forall_impl; [exact Hl|]; intros r; unfold zlen; cbn; lia).
  rewrite telems_id; [by apply cut_concat|done|]. rewrite numel_app. replace (numel [d]) with d by (unfold numel; cbn; lia).
  assert (Hc : length (concat l) = (length l * Z.to_nat d)%nat) by (clear -Hl'; induction Hl'; cbn; rewrite ?length_app; lia).
  unfold zlen. rewrite Hc, Hm. pose proof (numel_nonneg _ Hs). nia.
Qed.

Lemma greatest_law k row : 0 <= k <= zlen row →
  NoDup (greatest k row) ∧ zlen (greatest k row) = k ∧ Forall (λ i, 0 <= i < zlen row) (greatest k row) ∧
  ∀ i j a b, i ∈ greatest k row → Z.of_nat j ∉ greatest k row → row !! Z.to_nat i = Some a → row !! j = Some b → b <= a.
Proof.
  intros Hk. unfold greatest. set (l := stable_sort greater (imap pair row)).
  assert (Hperm : l ≡ₚ imap pair row) by apply stable_sort_perm.
  assert (Hsorted : StronglySorted greater l) by (apply stable_sort_sorted; [intros a b; unfold greater; lia|intros a b c; unfold greater; lia]).
  assert (Hin : ∀ n v, (n, v) ∈ l ↔ row !! n = Some v).
  { intros n v. rewrite Hperm. rewrite elem_of_lookup_imap. split; [by intros (i & x & [= -> ->] & ?)|]. intros Hv. by exists n, v. }
  assert (Hplaces : (λ p : nat * Z, Z.of_nat p.1) <$> l ≡ₚ seqZ 0 (zlen row)).
  { rewrite Hperm. unfold seqZ, zlen. rewrite Nat2Z.id. clear. rewrite fmap_imap. cbn.
    assert (H : ∀ n (r : list Z), imap (λ i _, Z.of_nat (n + i)) r = (λ i, Z.of_nat i + 0) <$> seq n (length r)).
    { intros n r. revert n. induction r as [|x r IH]; intros n; [done|]. cbn. f_equal; [lia|]. rewrite <- IH. apply imap_ext. intros i y _. cbn. lia. }
    specialize (H 0%nat row). cbn in H. by rewrite <- H. }
  assert (Hnd : NoDup ((λ p : nat * Z, Z.of_nat p.1) <$> l)) by (rewrite Hplaces; apply NoDup_seqZ).
  assert (Hlen : length l = length row) by (rewrite Hperm; apply length_imap).
  split_and!.
  - eapply sublist_NoDup; [exact Hnd|apply sublist_take].
  - unfold zlen in *. rewrite length_take, length_fmap, Hlen. lia.
  - apply list.Forall_forall. intros i Hi. assert (Hi' : i ∈ (λ p : nat * Z, Z.of_nat p.1) <$> l) by (rewrite <- (take_drop (Z.to_nat k) (_ <$> l)); apply elem_of_app; by left). rewrite Hplaces in Hi'.
    apply elem_of_seqZ in Hi'. lia.
  - intros i j a b Hi Hj Ha Hb. rewrite <- fmap_take in Hi, Hj. apply list_elem_of_fmap in Hi as ([n v] & -> & Hi). cbn in Ha. rewrite Nat2Z.id in Ha.
    assert (Hv : (n, v) ∈ l) by (rewrite <- (take_drop (Z.to_nat k) l); apply elem_of_app; by left). apply Hin in Hv. rewrite Ha in Hv. injection Hv as ->.
    apply Hin in Hb. rewrite <- (take_drop (Z.to_nat k) l) in Hb. apply elem_of_app in Hb as [Hb|Hb].
    + exfalso. apply Hj. apply list_elem_of_fmap. by exists (j, b).
    + rewrite <- (take_drop (Z.to_nat k) l) in Hsorted. by apply (StronglySorted_app_1_elem_of _ _ _ _ _ Hsorted Hi Hb).
Qed.

Lemma side_by_side_fmap {A B} (f : list A → list B) (ls : list (list (list A))) : (∀ x y, f (x ++ y) = f x ++ f y) →
  (λ r, f r) <$> side_by_side ls = side_by_side ((λ l : list (list A), f <$> l) <$> ls).
Proof.
  intros Hf. destruct ls as [|l ls]; [done|]. cbn [side_by_side fmap list_fmap]. revert l. induction ls as [|k ls IH]; intros l; [done|].
  cbn [foldl fmap list_fmap]. rewrite IH. f_equal. revert k. induction l as [|x l IHl]; intros [|y k]; [done..|]. cbn. by rewrite Hf, IHl.
Qed.

Lemma cast_back k i : i.1.1 = Int64 → Forall (Forall (λ j, 0 <= j < kind_range k)) i.2 → cast Int64 (cast k i) = i.
Proof.
  intros Hi Hr. destruct i as [[c d] rs]. cbn in Hi. subst c. unfold cast. cbn.
  assert (Hid : ∀ K, kind_range k <= kind_range K → (λ r : list Z, (λ j, j mod kind_range K) <$> r) <$> rs = rs).
  { intros K HK. rewrite <- (list_fmap_id rs) at 2. apply list_fmap_ext. intros n r Hn. cbn in Hr. rewrite list.Forall_lookup in Hr. specialize (Hr n r Hn). cbn.
    rewrite <- (list_fmap_id r) at 2. apply list_fmap_ext. intros m j Hj. rewrite list.Forall_lookup in Hr. specialize (Hr m j Hj). cbn in *. apply Z.mod_small. lia. }
  destruct (decide (k = Int64)) as [->|Hk]; cbn; [done|]. destruct (decide (Int64 = k)) as [?|_]; [congruence|]. rewrite (Hid k) by lia.
  f_equal. apply (Hid Int64). destruct k; cbn; lia.
Qed.

Lemma gather_ok t i : Forall2 (λ row ix, zlen ix = i.1.2 ∧ Forall (λ j, 0 <= j < zlen row) ix) (trows t) i.2 → tsize t ≠ [] → 0 <= i.1.2 →
  tsize (gather t i) = removelast (tsize t) ++ [i.1.2] ∧ trows (gather t i) = zip_with (pick 0) (trows t) i.2.
Proof.
  intros Hi Hs Hd. destruct (trows_shape t Hs) as [Hm _]. destruct (removelast_nonneg _ (tsize_nonneg t)) as [Hr _].
  apply trows_of; [done|done| |].
  - rewrite length_zip_with, <- (Forall2_length _ _ _ Hi), Hm. unfold row_count. lia.
  - clear -Hi. induction Hi as [|row ix rs is_ [Hl _] _ IH]; cbn; constructor; [|done]. unfold pick, zlen in *. by rewrite length_fmap.
Qed.

Lemma scatter_ok t i v : tsize t ≠ [] → length (trows v) = length (trows t) → length i.2 = length (trows v) →
  ∃ y, scatter_mean t i v = Some y ∧ tsize y = tsize t ∧
    trows y = zip_with (λ base '(ix, vs), scatter_row (H := torch) base ix vs) (trows t) (zip i.2 (trows v)).
Proof.
  intros Hs Hv Hi. eexists. split; [reflexivity|]. destruct (trows_shape t Hs) as [Hm Hd].
  destruct (removelast_nonneg _ (tsize_nonneg t)) as [Hr Hp].
  set (l := zip_with (λ base '(ix, vs), scatter_row (H := torch) base ix vs) (trows t) (zip i.2 (trows v))).
  change (tsize (tsize t, concat l) = tsize t ∧ trows (tsize t, concat l) = l).
  rewrite (app_removelast_last 0 Hs) at 1 2 3. apply trows_of; [done|done| |].
  - unfold l. rewrite length_zip_with, length_zip. change (@val torch) with Z. rewrite Hi, Hv, Hm. unfold row_count. lia.
  - unfold l. clear -Hd Hp. generalize (zip i.2 (trows v)) as k. induction Hd as [|row rs Hrow _ IH]; intros [|[ix vs] k]; cbn; constructor; [|apply IH].
    unfold zlen, scatter_row. rewrite length_imap. change (@val torch) with Z. rewrite Hrow. unfold row_size. lia.
Qed.

Lemma cat_ok s ts : ts ≠ [] → Forall (λ t, ∃ d, tsize t = s ++ [d]) ts → trows (cat_last ts) = side_by_side (trows <$> ts).
Proof.
  intros Hne Hts. destruct ts as [|t ts]; [done|]. set (all := t :: ts) in *.
  assert (Hshape : ∀ u, u ∈ all → removelast (tsize u) = s ∧ tsize u ≠ []).
  { intros u Hu. rewrite list.Forall_forall in Hts. destruct (Hts u Hu) as [d ->]. split; [apply removelast_last|by destruct s]. }
  assert (Hs : Forall (Z.le 0) s) by (destruct (Hshape t ltac:(left)) as [<- _]; apply removelast_nonneg, tsize_nonneg).
  assert (Hm : Forall (λ l, length l = Z.to_nat (numel s)) (trows <$> all)).
  { apply list.Forall_fmap, list.Forall_forall. intros u Hu. destruct (Hshape u Hu) as [Hr Hne']. cbn.
    destruct (trows_shape u Hne') as [-> _]. unfold row_count. by rewrite Hr. }
  assert (Hnl : trows <$> all ≠ []) by (unfold all; by intros [=]).
  change (trows (removelast (tsize t) ++ [foldr Z.add 0 ((λ t, List.last (tsize t) 0) <$> all)], concat (side_by_side (trows <$> all))) = side_by_side (trows <$> all)).
  destruct (Hshape t ltac:(left)) as [-> _]. apply trows_of; [done| |by rewrite (side_by_side_rows _ _ Hnl Hm), length_fmap, length_seq|].
  - clear. induction all as [|u all IH]; cbn; [lia|]. pose proof (proj2 (removelast_nonneg _ (tsize_nonneg u))). lia.
  - rewrite (side_by_side_rows _ _ Hnl Hm). apply list.Forall_fmap, list.Forall_forall. intros r Hr%elem_of_seq. cbn [compose].
    clear Hts. assert (Hrow : ∀ u, u ∈ all → zlen (row_of r (trows u)) = List.last (tsize u) 0).
    { intros u Hu. destruct (Hshape u Hu) as [Hru Hneu]. destruct (trows_shape u Hneu) as [Hlu Hdu]. unfold row_of.
      destruct (lookup_lt_is_Some_2 (trows u) r) as [row Hrow]; [rewrite Hlu; unfold row_count; rewrite Hru; lia|]. rewrite Hrow. cbn.
      pose proof (Forall_lookup_1 _ _ _ _ Hdu Hrow) as Hd. cbn in Hd. pose proof (proj2 (removelast_nonneg _ (tsize_nonneg u))). unfold zlen, row_size in *. lia. }
    clear -Hrow. induction all as [|u all IH]; [done|]. cbn. unfold zlen. rewrite length_app, Nat2Z.inj_add.
    pose proof (Hrow u ltac:(left)) as Hu. unfold zlen in Hu. rewrite Hu. f_equal. apply IH. intros. apply Hrow. by right.
Qed.

Lemma small_torch_laws : TorchLaws torch.
Proof.
  split; cbn.
  - intros x. split; [apply tsize_nonneg|apply telems_length].
  - intros s x _ Hs Hn. destruct (regroup_law s x Hs Hn) as (y & ? & ? & ?). by exists y.
  - intros s x y Hs Hy. unfold regroup in Hy. destruct (bool_decide_reflect (numel s = numel (tsize x))) as [Hn|Hn]; [|done]. injection Hy as <-.
    destruct (regroup_law s x Hs Hn) as (y & Hy & ? & ?). unfold regroup in Hy. rewrite bool_decide_true in Hy by done. injection Hy as <-. by split_and!.
  - intros s x Hs Hn. destruct (regroup_law s x Hs Hn) as (y & ? & ? & ?). by exists y.
  - intros s k Hs. split_and!; [exact (tsize_id s [] Hs)| |done|by destruct k].
    change (telems (s, []) = replicate (Z.to_nat (numel s)) 0). unfold telems. rewrite tsize_id by done. apply resize_nil.
  - done.
  - intros x. split; [done|]. unfold telems at 1. change (tsize (x.1, Z.abs <$> telems x)) with (tsize x). cbn.
    apply resize_all_alt. rewrite length_fmap. pose proof (telems_length x). unfold zlen in *. lia.
  - intros v. unfold tmean. cbn. rewrite Z.add_0_r. apply Z.div_1_r.
  - intros k x Hk. split_and!; [done|done|]. destruct (decide (tsize x = [])) as [He|Hs]; [rewrite He in Hk; cbn in Hk; lia|].
    destruct (trows_shape x Hs) as [_ Hd]. change (@rows torch x) with (trows x). apply Forall2_fmap_r, Forall_Forall2_diag. eapply list.Forall_impl; [exact Hd|].
    intros row Hrow. cbn in Hrow. apply greatest_law. unfold zlen. rewrite Hrow. unfold row_size. lia.
  - intros x i Hi Hs Hk. destruct (gather_ok x i Hi Hs Hk). by split_and!.
  - intros x i v _ Hs Hv Hl _. destruct (scatter_ok x i v Hs Hv) as (y & ? & ? & ?); [by apply (Forall2_length _ _ _ Hl)|]. exists y. by split_and!.
  - intros k i. unfold cast. case_decide as Hk; [done|done].
  - intros i. unfold cast. by rewrite decide_True.
  - apply cast_back.
  - by intros [[c d] r].
  - by intros [[c d] r].
  - intros k ix Hne Hix. destruct ix as [|i ix]; [done|]. apply list.Forall_cons in Hix as [Hk _].
    rewrite <- !list_fmap_compose. by rewrite <- Hk.
  - by intros [|i ix].
  - intros s k vs Hne Hvs _. split; [by apply (cat_ok s)|by destruct k].
  - intros c k ix Hne Hix. assert (Hcast : (k = c ∧ cast k <$> ix = ix) ∨
      (k ≠ c ∧ cast k <$> ix = (λ i, (k, i.1.2, (λ r : list Z, (λ j, j mod kind_range k) <$> r) <$> i.2)) <$> ix)).
    { destruct (decide (k = c)) as [Hk|Hk]; [left|right]; (split; [done|]).
      - rewrite <- (list_fmap_id ix) at 2. apply list_fmap_ext. intros n i Hi. rewrite list.Forall_lookup in Hix. specialize (Hix n i Hi). cbn in Hix. unfold cast. by rewrite decide_True by congruence.
      - apply list_fmap_ext. intros n i Hi. rewrite list.Forall_lookup in Hix. specialize (Hix n i Hi). cbn in Hix. unfold cast. by rewrite decide_False by congruence. }
    destruct ix as [|i ix]; [done|]. apply list.Forall_cons in Hix as [Hi _]. unfold cast at 1. cbn [fst snd] in *.
    destruct Hcast as [[Hk ->]|[Hk ->]]; [by rewrite decide_True by congruence|]. rewrite decide_False by congruence. cbn [fmap list_fmap fst snd]. f_equal; [f_equal|].
    + f_equal. f_equal. by rewrite <- list_fmap_compose.
    + rewrite (side_by_side_fmap (λ r : list Z, (λ j, j mod kind_range k) <$> r)) by (intros; apply fmap_app). f_equal. cbn. f_equal. by rewrite <- !list_fmap_compose.
Qed.
End Small.

Module Update.
Definition x : list Z * list Z := ([2; 4], [5; -9; 1; 0; 3; 2; -8; 7]).
Definition y : list Z * list Z := ([2; 4], [1; 2; 3; 4; 40; 30; 20; 101]).
End Update.

Lemma compress_keeps_largest_witness :
  (∃ idx v z, @compress Small.torch unit Update.x 2 = Ok (idx, v, [2; 4], 4) ∧
    @decompress Small.torch unit idx v [2; 4] 4 tt = Ok z ∧ Small.tsize z = [2; 4]) ∧
  (∃ idx v z, @compress Small.torch unit Update.x 9 = Ok (idx, v, [2; 4], 4) ∧
    @decompress Small.torch unit idx v [2; 4] 4 tt = Ok z ∧ Small.telems z = Small.telems Update.x).
Proof.
  assert (Hrow : 1 <= @row_length Small.torch Update.x <= 2 ^ 63) by (vm_compute; split; discriminate).
  assert (Hs : @size Small.torch Update.x ≠ []) by discriminate. split.
  - destruct (@compress_keeps_largest Small.torch Small.small_torch_laws unit Update.x 2 eq_refl Hs Hrow) as (idx & v & z & picks & Hc & Hd & Hz & _).
    exists idx, v, z. exact (conj Hc (conj Hd Hz)).
  - destruct (@compress_keeps_largest Small.torch Small.small_torch_laws unit Update.x 9 eq_refl Hs Hrow) as (idx & v & z & picks & Hc & Hd & _ & _ & _ & Hall).
    exists idx, v, z. refine (conj Hc (conj Hd (Hall _))). vm_compute. discriminate.
Defined.

Lemma batch_takes_means_witness : ∃ results z,
  Forall2 (λ x r, @compress Small.torch unit x 2 = Ok (r.1, r.2, [2; 4], 4)) [Update.x; Update.y] results ∧
  @batch_decompress Small.torch unit (fst <$> results) (snd <$> results) [2; 4] 4 tt = Ok z ∧ Small.tsize z = [2; 4].
Proof.
  assert (Hxs : Forall (λ x, @contiguous Small.torch x = true ∧ @size Small.torch x = [2; 4] ∧ @kind Small.torch x = tt) [Update.x; Update.y]).
  { apply Forall_cons_2; [done|]. apply Forall_cons_2; [done|apply Forall_nil_2]. }
  destruct (@batch_takes_means Small.torch Small.small_torch_laws unit [2; 4] 2 tt [Update.x; Update.y]) as (results & z & choices & Hc & Hb & Hz & _); [done|vm_compute; split; discriminate|done|exact Hxs|].
  exists results, z. exact (conj Hc (conj Hb Hz)).
Defined.

(** The largest two of every row of the first update, and the means where both speak. *)
Example small_batch :
  (r ← @compress Small.torch unit Update.x 2; q ← @compress Small.torch unit Update.y 2;
   z ← @batch_decompress Small.torch unit [r.1.1.1; q.1.1.1] [r.1.1.2; q.1.1.2] [2; 4] 4 tt; Ok (Small.telems z)) =
  Ok [5; -9; 3; 4; 40; 0; -8; 54].
Proof. vm_compute. reflexivity. Qed.
