(* ===== verification/Tcp.v ===== *)
(** * Clients over TCP

    src/shared/network/src/tcp.rs and signed_message.rs: the server of a centralised run.  A
    connection is sent a challenge; who answers with a signature of it is the client of that
    key, and what it sends from then on is reported as the key's.  Messages for a key go
    through one queue to the queue of the connection that is listed under it.

    The tasks of the server are steps of one machine: a connection accepted, something read
    from one, a message of its queue written to it, a message of the common queue passed on,
    and the calls of the owner.  A connection is its number, and the sender of its queue is
    that number, so that a queue whose sender was dropped is one no entry of [clients] names.
    Postcard's encodings and the signatures of iroh are parameters (class [Wire]).

    The theorems: whose messages are reported, that messages to a listed client arrive in
    order, and what becomes of a client that connects twice or sends what cannot be read. *)

From stdpp Require Import base tactics numbers gmap list.
From S2P Require Import Prelude.

Open Scope Z_scope.

Inductive ServerToClientMessage (T : Type) := Challenge (challenge : list Z) | ToClientElse (message : T).
Inductive ClientToServerMessage (T : Type) := ChallengeResponse (response : list Z) | ToServerElse (message : T).
Arguments Challenge {T}. Arguments ToClientElse {T}. Arguments ChallengeResponse {T}. Arguments ToServerElse {T}.

Notation Key := (list Z) (only parsing).
Record SignedMessage := mkSigned { signer : Key; data : list Z; signature : list Z }.

Class Wire (ToServer ToClient : Type) := {
  s2c_to_bytes : ServerToClientMessage ToClient → list Z;
  s2c_from_bytes : list Z → option (ServerToClientMessage ToClient);
  c2s_to_bytes : ClientToServerMessage ToServer → list Z;
  c2s_from_bytes : list Z → option (ClientToServerMessage ToServer);
  (** The first message is read as one of the other direction. *)
  hello_from_bytes : list Z → option (ClientToServerMessage ToClient);
  signed_to_bytes : SignedMessage → list Z;
  signed_from_bytes : list Z → option SignedMessage;
  challenge_to_bytes : list Z → list Z;
  challenge_from_bytes : list Z → option (list Z);
  public : list Z → Key;
  sign : list Z → list Z → list Z;
  verify : Key → list Z → list Z → bool;
}.
Class WireLaws {ToServer ToClient} (W : Wire ToServer ToClient) : Prop := {
  s2c_round_trip m : s2c_from_bytes (s2c_to_bytes m) = Some m;
  c2s_round_trip m : c2s_from_bytes (c2s_to_bytes m) = Some m;
  (** A variant is encoded alike whatever the other one holds. *)
  hello_round_trip r : hello_from_bytes (c2s_to_bytes (ChallengeResponse r)) = Some (ChallengeResponse r);
  signed_round_trip m : signed_from_bytes (signed_to_bytes m) = Some m;
  challenge_round_trip c : challenge_from_bytes (challenge_to_bytes c) = Some c;
  signatures_verify sk d : verify (public sk) d (sign sk d) = true;
}.

(** Why a connection's task ends with an error. *)
Inductive ConnError :=
| SendFailed | NoResponse | StreamError | BadBytes | NotAResponse | BadSignature | WrongChallenge | UnexpectedChallenge | ExpectedChallenge.

Definition MAX_FRAME_LENGTH : Z := 64 * 1024 * 1024.
(** The limit a [LengthDelimitedCodec] has when none is set. *)
Definition DEFAULT_FRAME_LENGTH : Z := 8 * 1024 * 1024.

Section Tcp.
Context {ToServer ToClient : Type} `{Wire ToServer ToClient}.

Definition verify_and_decode (bytes : list Z) : res ConnError (Key * list Z) :=
  signed_message ← ok_or (signed_from_bytes bytes) BadBytes;
  let key := signer signed_message in
  res_throw_if (negb (verify key (data signed_message) (signature signed_message))) BadSignature;;
  message ← ok_or (challenge_from_bytes (data signed_message)) BadBytes;
  Ok (key, message).

Definition sign_and_encode (secret_key message : list Z) : list Z :=
  let data := challenge_to_bytes message in
  signed_to_bytes (mkSigned (public secret_key) data (sign secret_key data)).

(** What [framed.next()] returns: the end of the stream, an error, or a frame. *)
Inductive Read := Closed | Failed | Frame (bytes : list Z).
(** The codec refuses frames over its limit. *)
Definition next_frame (limit : Z) (r : Read) : Read :=
  match r with Frame bytes => if limit <? zlen bytes then Failed else r | _ => r end.
(** [framed.send(..)]: whether it succeeds, where the stream takes it if [ok]. *)
Definition send_frame (limit : Z) (bytes : list Z) (ok : bool) : bool := (zlen bytes <=? limit) && ok.

(** The second part of a connection's greeting: the answer to the challenge. *)
Definition check_response (challenge : list Z) (r : Read) : res ConnError Key :=
  bytes ← match r with Closed => Err NoResponse | Failed => Err StreamError | Frame bytes => Ok bytes end;
  response ← ok_or (hello_from_bytes bytes) BadBytes;
  challenge_response ← match response with ChallengeResponse res => Ok res | ToServerElse _ => Err NotAResponse end;
  '(identity, decoded_challenge) ← verify_and_decode challenge_response;
  if bool_decide (decoded_challenge = challenge) then Ok identity else Err WrongChallenge.

(** Where a connection's task is: waiting for the answer, in its loop, or over. *)
Inductive Phase := Waiting | Open | Ended (result : res ConnError unit).
Record Conn := mkConn {
  challenge : list Z;
  phase : Phase;
  identity : option Key;
  client_rx : list ToClient;
  (** The frames written to the stream. *)
  written : list (list Z);
}.
Record TcpServer := mkServer {
  clients : gmap Key nat;
  conns : list Conn;
  incoming : list (Key * ToServer);
  outgoing : list (Key * ToClient);
  disconnected : list Key;
}.

Definition set_phase (p : Phase) (c : Conn) : Conn := mkConn (challenge c) p (identity c) (client_rx c) (written c).
Definition set_conns (f : list Conn → list Conn) (s : TcpServer) : TcpServer :=
  mkServer (clients s) (f (conns s)) (incoming s) (outgoing s) (disconnected s).
Definition fails (n : nat) (e : ConnError) : TcpServer → TcpServer := set_conns (alter (set_phase (Ended (Err e))) n).

(** A connection accepted and sent its challenge. *)
Definition accept (c : list Z) (ok : bool) (s : TcpServer) : TcpServer :=
  let bytes := s2c_to_bytes (Challenge c) in
  set_conns (λ l, l ++ [if send_frame DEFAULT_FRAME_LENGTH bytes ok
                        then mkConn c Waiting None [] [bytes]
                        else mkConn c (Ended (Err SendFailed)) None [] []]) s.

(** [clients.insert(identity, client_tx)]. *)
Definition welcome (n : nat) (key : Key) (s : TcpServer) : TcpServer :=
  mkServer (<[key := n]> (clients s)) (alter (λ c, mkConn (challenge c) Open (Some key) [] (written c)) n (conns s))
    (incoming s) (outgoing s) (disconnected s).

(** After the loop. *)
Definition leave (n : nat) (key : Key) (s : TcpServer) : TcpServer :=
  mkServer (delete key (clients s)) (alter (set_phase (Ended (Ok tt))) n (conns s))
    (incoming s) (outgoing s) (disconnected s ++ [key]).

Definition on_read (n : nat) (r : Read) (s : TcpServer) : TcpServer :=
  match conns s !! n with
  | None => s
  | Some c =>
      let r := next_frame DEFAULT_FRAME_LENGTH r in
      match phase c, identity c with
      | Waiting, _ =>
          match check_response (challenge c) r with
          | Ok key => welcome n key s
          | Err e => fails n e s
          | Panic => s
          end
      | Open, Some key =>
          match r with
          | Frame bytes =>
              match c2s_from_bytes bytes with
              | None => fails n BadBytes s
              | Some (ChallengeResponse _) => fails n UnexpectedChallenge s
              | Some (ToServerElse m) =>
                  mkServer (clients s) (conns s) (incoming s ++ [(key, m)]) (outgoing s) (disconnected s)
              end
          | Failed | Closed => leave n key s
          end
      | _, _ => s
      end
  end.

(** [Some(message) = client_rx.recv()]. *)
Definition on_queue (n : nat) (ok : bool) (s : TcpServer) : TcpServer :=
  match conns s !! n with
  | Some (mkConn c Open who (message :: rest) w) =>
      let bytes := s2c_to_bytes (ToClientElse message) in
      if send_frame DEFAULT_FRAME_LENGTH bytes ok
      then set_conns (alter (λ _, mkConn c Open who rest (w ++ [bytes])) n) s
      else set_conns (alter (λ _, mkConn c (Ended (Err SendFailed)) who rest w) n) s
  | _ => s
  end.

(** The task that passes messages on; a connection that is over has dropped its receiver. *)
Definition push_rx (m : ToClient) (c : Conn) : Conn :=
  match phase c with
  | Ended _ => c
  | _ => mkConn (challenge c) (phase c) (identity c) (client_rx c ++ [m]) (written c)
  end.
Definition dispatch (s : TcpServer) : TcpServer :=
  match outgoing s with
  | [] => s
  | (key, m) :: rest =>
      mkServer (clients s)
        (match clients s !! key with Some n => alter (push_rx m) n (conns s) | None => conns s end)
        (incoming s) rest (disconnected s)
  end.

Definition send_to (key : Key) (m : ToClient) (s : TcpServer) : TcpServer :=
  mkServer (clients s) (conns s) (incoming s) (outgoing s ++ [(key, m)]) (disconnected s).
Definition get_connected_clients (s : TcpServer) : list Key := (map_to_list (clients s)).*1.
Definition broadcast (m : ToClient) (s : TcpServer) : TcpServer :=
  foldl (λ s key, send_to key m s) s (get_connected_clients s).

Inductive ClientNotification := Message (from : Key) (m : ToServer) | Disconnected (key : Key).
(** [select!] takes either when both are there. *)
Definition next (disconnected_first : bool) (s : TcpServer) : option ClientNotification * TcpServer :=
  let message :=
    match incoming s with
    | (key, m) :: rest => Some (Message key m, mkServer (clients s) (conns s) rest (outgoing s) (disconnected s))
    | [] => None
    end in
  let gone :=
    match disconnected s with
    | key :: rest => Some (Disconnected key, mkServer (clients s) (conns s) (incoming s) (outgoing s) rest)
    | [] => None
    end in
  match (if disconnected_first then union gone message else union message gone) with
  | Some (n, s') => (Some n, s')
  | None => (None, s)
  end.

(** The client's side. *)
Definition receive_message (r : Read) : res ConnError (ServerToClientMessage ToClient) :=
  match next_frame MAX_FRAME_LENGTH r with
  | Closed => Err NoResponse
  | Failed => Err StreamError
  | Frame bytes => ok_or (s2c_from_bytes bytes) BadBytes
  end.
(** The key of the client and the frame it answers with. *)
Definition connect (secret_key : list Z) (r : Read) : res ConnError (Key * list Z) :=
  m ← receive_message r;
  match m with
  | Challenge c =>
      let bytes := c2s_to_bytes (ChallengeResponse (sign_and_encode secret_key c)) in
      if send_frame MAX_FRAME_LENGTH bytes true then Ok (public secret_key, bytes) else Err SendFailed
  | ToClientElse _ => Err ExpectedChallenge
  end.
Definition receive (r : Read) : res ConnError ToClient :=
  m ← receive_message r;
  match m with ToClientElse message => Ok message | Challenge _ => Err UnexpectedChallenge end.

(** The machine: [start] and its tasks. *)
Inductive Event :=
| EvAccept (c : list Z) (ok : bool)
| EvRead (n : nat) (r : Read)
| EvQueue (n : nat) (ok : bool)
| EvDispatch
| EvSendTo (key : Key) (m : ToClient)
| EvBroadcast (m : ToClient)
| EvNext (disconnected_first : bool).
Definition start : TcpServer := mkServer ∅ [] [] [] [].
Definition step (s : TcpServer) (e : Event) : TcpServer * option ClientNotification :=
  match e with
  | EvAccept c ok => (accept c ok s, None)
  | EvRead n r => (on_read n r s, None)
  | EvQueue n ok => (on_queue n ok s, None)
  | EvDispatch => (dispatch s, None)
  | EvSendTo key m => (send_to key m s, None)
  | EvBroadcast m => (broadcast m s, None)
  | EvNext b => let '(o, s') := next b s in (s', o)
  end.
(** The state after the events and what [next] reported. *)
Definition run (s : TcpServer) (es : list Event) : TcpServer * list ClientNotification :=
  foldl (λ '(s, l) e, let '(s', o) := step s e in (s', l ++ option_list o)) (s, []) es.
End Tcp.

(** ** What the TCP server promises *)

Section Thms.
Context {ToServer ToClient : Type} `{W : Wire ToServer ToClient}.
Notation Ev := (@Event ToClient).
Notation Server := (@TcpServer ToServer ToClient).

Lemma run_snoc s (es : list Ev) e :
  run s (es ++ [e]) = ((step (run s es).1 e).1, (run s es).2 ++ option_list (step (run s es).1 e).2).
Proof. unfold run. rewrite foldl_app. cbn. destruct (foldl _ _ es) as [s' l]. cbn. by destruct (step s' e). Qed.

(** The challenges, in the order of the connections. *)
Definition challenged (e : Ev) : option (list Z) := match e with EvAccept c _ => Some c | _ => None end.
Definition accepted (es : list Ev) : list (list Z) := omap challenged es.

(** The connection answered its own challenge with a signature of the key. *)
Definition answered (es : list Ev) (n : nat) (key : list Z) : Prop := ∃ c bytes r sm,
  accepted es !! n = Some c ∧ EvRead n (Frame bytes) ∈ es ∧ hello_from_bytes bytes = Some (ChallengeResponse r) ∧
  signed_from_bytes r = Some sm ∧ signer sm = key ∧ verify key (data sm) (signature sm) = true ∧
  challenge_from_bytes (data sm) = Some c.
(** A message that a connection sent after it had answered. *)
Definition said (es : list Ev) (key : list Z) (m : ToServer) : Prop := ∃ n bytes before after,
  es = before ++ EvRead n (Frame bytes) :: after ∧ answered before n key ∧ c2s_from_bytes bytes = Some (ToServerElse m).

Lemma answered_mono es k n key : answered es n key → answered (es ++ k) n key.
Proof.
  intros (c & b & r & sm & Hc & Hr & Hrest). exists c, b, r, sm. split; [|split; [|done]].
  - unfold accepted. rewrite omap_app. by apply lookup_app_l_Some.
  - apply elem_of_app. by left.
Qed.
Lemma said_mono es k key m : said es key m → said (es ++ k) key m.
Proof. intros (n & b & l & l' & -> & ? & ?). exists n, b, l, (l' ++ k). split; [|done]. by rewrite <- app_assoc. Qed.

Lemma next_frame_Frame limit r bytes : next_frame limit r = Frame bytes → r = Frame bytes.
Proof. destruct r; cbn; [done..|]. by destruct (_ <? _). Qed.

Lemma check_response_Ok c r key : check_response c r = Ok key → ∃ bytes x sm, r = Frame bytes ∧
  hello_from_bytes bytes = Some (ChallengeResponse x) ∧ signed_from_bytes x = Some sm ∧ signer sm = key ∧
  verify key (data sm) (signature sm) = true ∧ challenge_from_bytes (data sm) = Some c.
Proof.
  unfold check_response, verify_and_decode. intros Hc. destruct r as [| |bytes]; [done..|]. cbn in Hc.
  destruct (hello_from_bytes bytes) as [[x|]|] eqn:Hh; [|done..]. cbn in Hc. destruct (signed_from_bytes x) as [sm|] eqn:Hs; [|done]. cbn in Hc.
  destruct (verify _ _ _) eqn:Hv; [|done]. cbn in Hc. destruct (challenge_from_bytes _) as [d|] eqn:Hd; [|done]. cbn in Hc.
  case_bool_decide; [|done]. simplify_eq. by exists bytes, x, sm.
Qed.

(** What the state owes to the past. *)
Record explained (es : list Ev) (s : Server) (reports : list ClientNotification) : Prop := {
  ex_challenges : challenge <$> conns s = accepted es;
  ex_identity : ∀ n c key, conns s !! n = Some c → identity c = Some key → answered es n key;
  ex_incoming : ∀ key m, (key, m) ∈ incoming s → said es key m;
  ex_disconnected : ∀ key, key ∈ disconnected s → ∃ n, answered es n key;
  ex_messages : ∀ key m, Message key m ∈ reports → said es key m;
  ex_gone : ∀ key, Disconnected key ∈ reports → ∃ n, answered es n key;
}.

(** One more event: what is new needs an explanation, what was there has one. *)
Lemma explained_more es s reports e s' reports' :
  explained es s reports → challenge <$> conns s' = (challenge <$> conns s) ++ option_list (challenged e) →
  (∀ n c' key, conns s' !! n = Some c' → identity c' = Some key →
     (∃ c, conns s !! n = Some c ∧ identity c = Some key) ∨ answered (es ++ [e]) n key) →
  (∀ key m, (key, m) ∈ incoming s' → (key, m) ∈ incoming s ∨ said (es ++ [e]) key m) →
  (∀ key, key ∈ disconnected s' → key ∈ disconnected s ∨ ∃ n c, conns s !! n = Some c ∧ identity c = Some key) →
  (∀ key m, Message key m ∈ reports' → Message key m ∈ reports ∨ (key, m) ∈ incoming s) →
  (∀ key, Disconnected key ∈ reports' → Disconnected key ∈ reports ∨ key ∈ disconnected s) →
  explained (es ++ [e]) s' reports'.
Proof.
  intros Hex Hch Hid Hin Hdis Hmsg Hgone. split.
  - rewrite Hch, (ex_challenges _ _ _ Hex). unfold accepted. rewrite omap_app. by destruct e.
  - intros n c' key Hn Hkey. destruct (Hid n c' key Hn Hkey) as [(c & Hc & Hck)|]; [|done]. by eapply answered_mono, (ex_identity _ _ _ Hex).
  - intros key m Hm. destruct (Hin key m Hm); [|done]. by apply said_mono, (ex_incoming _ _ _ Hex).
  - intros key Hk. destruct (Hdis key Hk) as [Ho|(n & c & Hc & Hck)].
    + destruct (ex_disconnected _ _ _ Hex key Ho) as [n Hn]. exists n. by apply answered_mono.
    + exists n. by eapply answered_mono, (ex_identity _ _ _ Hex).
  - intros key m Hm. apply said_mono. destruct (Hmsg key m Hm); [by apply (ex_messages _ _ _ Hex)|by apply (ex_incoming _ _ _ Hex)].
  - intros key Hk. assert (∃ n, answered es n key) as [n Hn] by (destruct (Hgone key Hk); [by apply (ex_gone _ _ _ Hex)|by apply (ex_disconnected _ _ _ Hex)]).
    exists n. by apply answered_mono.
Qed.

(** Connections altered without a change of challenge or identity. *)
Definition same_badge (c c' : @Conn ToClient) : Prop := challenge c' = challenge c ∧ identity c' = identity c.
Lemma alter_badges f n (l : list (@Conn ToClient)) : (∀ c, l !! n = Some c → same_badge c (f c)) →
  challenge <$> alter f n l = challenge <$> l ∧
  ∀ i c' key, alter f n l !! i = Some c' → identity c' = Some key → ∃ c, l !! i = Some c ∧ identity c = Some key.
Proof.
  intros Hf. split.
  - apply list_eq. intros i. rewrite !list_lookup_fmap, list_lookup_alter. case_decide as Hi; [subst i|done].
    destruct (l !! n) as [c|] eqn:Hc; [|done]. cbn. by destruct (Hf c eq_refl) as [-> _].
  - intros i c' key. rewrite list_lookup_alter. case_decide as Hi; [subst i|by eauto].
    destruct (l !! n) as [c|] eqn:Hc; [|done]. cbn. intros [= <-] Hk. exists c. split; [done|]. by destruct (Hf c eq_refl) as [_ <-].
Qed.

Lemma explained_alter es s reports e f n cl out gone :
  explained es s reports → challenged e = None → (∀ c, conns s !! n = Some c → same_badge c (f c)) →
  (∀ key, key ∈ gone → key ∈ disconnected s ∨ ∃ n c, conns s !! n = Some c ∧ identity c = Some key) →
  explained (es ++ [e]) (mkServer cl (alter f n (conns s)) (incoming s) out gone) reports.
Proof.
  intros Hex He Hf Hg. destruct (alter_badges f n (conns s) Hf) as [Hch Hid]. eapply explained_more; [done|..]; cbn.
  - rewrite Hch, He. by rewrite app_nil_r.
  - intros. left. by eapply Hid.
  - by left.
  - done.
  - by left.
  - by left.
Qed.
Lemma explained_idle es s reports e out :
  explained es s reports → challenged e = None →
  explained (es ++ [e]) (mkServer (clients s) (conns s) (incoming s) out (disconnected s)) reports.
Proof.
  intros Hex He. rewrite <- (alter_id (conns s) 0) at 1. apply explained_alter; [done|done|done|by left].
Qed.
Lemma server_eta (s : Server) : s = mkServer (clients s) (conns s) (incoming s) (outgoing s) (disconnected s).
Proof. by destruct s. Qed.

Lemma explained_read es s reports n r : explained es s reports → explained (es ++ [EvRead n r]) (on_read n r s) reports.
Proof.
  intros Hex. unfold on_read. assert (Hidle : explained (es ++ [EvRead n r]) s reports) by (rewrite (server_eta s); by apply explained_idle).
  destruct (conns s !! n) as [c|] eqn:Hn; [|done]. assert (Hfail : ∀ e, explained (es ++ [EvRead n r]) (fails n e s) reports).
  { intros e. by apply explained_alter; [| |done|left]. }
  destruct (phase c); [| |done].
  - destruct (check_response (challenge c) _) as [key|e|] eqn:Hr; [|done..].
    apply check_response_Ok in Hr as (bytes & x & sm & Hr & Hh & Hs & Hk & Hv & Hc). apply next_frame_Frame in Hr as ->.
    assert (Hch : challenge <$> conns (welcome n key s) = challenge <$> conns s).
    { cbn. apply list_eq. intros i. rewrite !list_lookup_fmap, list_lookup_alter. case_decide as Hi; [subst i|done]. by rewrite Hn. }
    eapply explained_more; [done|by rewrite Hch, app_nil_r| |by left|by left|by left|by left].
    cbn. intros i c' key' Hi Hid. rewrite list_lookup_alter in Hi. case_decide as He; [subst i|by left; eauto].
    rewrite Hn in Hi. cbn in Hi. simplify_eq. cbn in Hid. simplify_eq. right. exists (challenge c), bytes, x, sm. split_and!; try done.
    + unfold accepted. rewrite omap_app. apply lookup_app_l_Some. change (omap challenged es) with (accepted es).
      by rewrite <- (ex_challenges _ _ _ Hex), list_lookup_fmap, Hn.
    + apply elem_of_app. right. left.
  - destruct (identity c) as [key|] eqn:Hid; [|done].
    assert (Hleave : explained (es ++ [EvRead n r]) (leave n key s) reports).
    { apply explained_alter; [done..|]. intros k [?| ->%list_elem_of_singleton]%elem_of_app; [by left|]. right. by exists n, c. }
    destruct (next_frame _ r) as [| |bytes] eqn:Hr; [done..|]. apply next_frame_Frame in Hr as ->.
    destruct (c2s_from_bytes bytes) as [[?|m]|] eqn:Hm; [done| |done].
    eapply explained_more; [done|by rewrite app_nil_r|by left; eauto| |by left|by left|by left].
    cbn. intros k m' [?|Hnew%list_elem_of_singleton]%elem_of_app; [by left|]. simplify_eq. right.
    exists n, bytes, es, []. split_and!; [done| |done]. by apply (ex_identity _ _ _ Hex n c).
Qed.

Lemma explained_next es s reports b : explained es s reports →
  explained (es ++ [EvNext b]) (next b s).2 (reports ++ option_list (next b s).1).
Proof.
  intros Hex. assert (Hidle : explained (es ++ [EvNext b]) s reports) by (rewrite (server_eta s); by apply explained_idle).
  assert (Hmsg : ∀ key m rest, incoming s = (key, m) :: rest →
    explained (es ++ [EvNext b]) (mkServer (clients s) (conns s) rest (outgoing s) (disconnected s)) (reports ++ [Message key m])).
  { intros key m rest Hi. eapply explained_more; [done|by rewrite app_nil_r|by left; eauto| |by left| |].
    - cbn. intros. left. rewrite Hi. by right.
    - intros k m' [?|Hnew%list_elem_of_singleton]%elem_of_app; [by left|]. simplify_eq. right. rewrite Hi. left.
    - intros k [?|Hnew%list_elem_of_singleton]%elem_of_app; [by left|done]. }
  assert (Hgone : ∀ key rest, disconnected s = key :: rest →
    explained (es ++ [EvNext b]) (mkServer (clients s) (conns s) (incoming s) (outgoing s) rest) (reports ++ [Disconnected key])).
  { intros key rest Hi. eapply explained_more; [done|by rewrite app_nil_r|by left; eauto|by left| | |].
    - cbn. intros. left. rewrite Hi. by right.
    - intros k m' [?|Hnew%list_elem_of_singleton]%elem_of_app; [by left|done].
    - intros k [?|Hnew%list_elem_of_singleton]%elem_of_app; [by left|]. simplify_eq. right. rewrite Hi. left. }
  unfold next. destruct (incoming s) as [|[key m] rest] eqn:Hi, (disconnected s) as [|k rest'] eqn:Hd, b; cbn;
    rewrite ?app_nil_r; first [done|by apply Hmsg|by apply Hgone].
Qed.

Lemma send_to_same key m (s : Server) : clients (send_to key m s) = clients s ∧ conns (send_to key m s) = conns s ∧
  incoming (send_to key m s) = incoming s ∧ disconnected (send_to key m s) = disconnected s.
Proof. done. Qed.
Lemma broadcast_posts m (s : Server) : broadcast m s =
  mkServer (clients s) (conns s) (incoming s) (outgoing s ++ ((λ key, (key, m)) <$> get_connected_clients s)) (disconnected s).
Proof.
  unfold broadcast. generalize (get_connected_clients s) as l. intros l. revert s. induction l as [|key l IH]; intros s; cbn.
  - rewrite app_nil_r. apply server_eta.
  - rewrite IH. cbn. by rewrite <- app_assoc.
Qed.

Lemma run_explained es : explained es (run start es).1 (run start es).2.
Proof.
  induction es as [|e es IH] using rev_ind; [by split; cbn; intros; try done; match goal with H : _ ∈ [] |- _ => by apply elem_of_nil in H end|].
  rewrite run_snoc. set (s := (run start es).1) in *. set (reports := (run start es).2) in *. destruct e; cbn [step fst snd option_list]; rewrite ?app_nil_r.
  - eapply explained_more; [done| | |by left|by left|by left|by left]; cbn.
    + rewrite fmap_app. cbn. by destruct (send_frame _ _ _).
    + intros n c' key Hn Hk. left. apply lookup_app_Some in Hn as [Hn|[_ Hn]]; [by exists c'|].
      apply list_lookup_singleton_Some in Hn as [_ <-]. by destruct (send_frame _ _ _).
  - by apply explained_read.
  - unfold on_queue. assert (Hidle : explained (es ++ [EvQueue n ok]) s reports) by (rewrite (server_eta s); by apply explained_idle).
    destruct (conns s !! n) as [[c [| |] who [|m rest] w]|] eqn:Hn; try done.
    destruct (send_frame _ _ _); (apply explained_alter; [done|done| |by left]); intros d Hd; rewrite Hn in Hd; by simplify_eq.
  - unfold dispatch. destruct (outgoing s) as [|[key m] rest]; [rewrite (server_eta s); by apply explained_idle|].
    destruct (clients s !! key) as [n|]; [|by apply explained_idle]. apply explained_alter; [done|done| |by left].
    intros c _. unfold push_rx, same_badge. by destruct (phase c).
  - by apply explained_idle.
  - rewrite broadcast_posts. by apply explained_idle.
  - pose proof (explained_next es s reports disconnected_first IH) as Hn. by destruct (next disconnected_first s).
Qed.

(** C31: What the server reports as a client's comes from a connection that answered its own
    challenge with a signature of the client's key, and was sent on it after that; who is
    reported as gone had answered too. *)
Theorem messages_are_authenticated es key :
  (∀ m, Message key m ∈ (run start es).2 → said es key m) ∧
  (Disconnected key ∈ (run start es).2 → ∃ n, answered es n key).
Proof. destruct (run_explained es). split; auto. Qed.

(** ** Messages to a client *)

(** The entries of [clients] name connections that answered for the key. *)
Definition listed_ok (s : Server) : Prop := ∀ key n, clients s !! key = Some n →
  ∃ c, conns s !! n = Some c ∧ identity c = Some key.

Lemma listed_alter f n cl (s : Server) i o d : listed_ok s → cl ⊆ clients s →
  (∀ c, conns s !! n = Some c → same_badge c (f c)) → listed_ok (mkServer cl (alter f n (conns s)) i o d).
Proof.
  intros Hok Hcl Hf key j Hj. cbn in *. destruct (Hok key j (lookup_weaken _ _ _ _ Hj Hcl)) as (c & Hc & Hid).
  rewrite list_lookup_alter. case_decide; [subst j|by eauto]. rewrite Hc. cbn. exists (f c). split; [done|]. by destruct (Hf c Hc) as [_ ->].
Qed.
Lemma listed_read n r (s : Server) : listed_ok s → (∀ c, conns s !! n = Some c → phase c = Waiting → identity c = None) →
  listed_ok (on_read n r s).
Proof.
  intros Hok Hw. unfold on_read. destruct (conns s !! n) as [c|] eqn:Hn; [|done].
  assert (Hfail : ∀ e, listed_ok (fails n e s)) by (intros; by apply listed_alter). destruct (phase c) eqn:Hp; [| |done].
  - destruct (check_response _ _) as [key|e|]; [|done..]. intros k j Hj. cbn in *. rewrite list_lookup_alter.
    apply lookup_insert_Some in Hj as [[-> ->]|[Hne Hj]]; [rewrite decide_True, Hn by done; by eexists|].
    destruct (Hok k j Hj) as (d & Hd & Hid). rewrite decide_False; [by eauto|]. intros ->.
    rewrite Hn in Hd. simplify_eq. rewrite (Hw d eq_refl Hp) in Hid. done.
  - destruct (identity c) as [key|]; [|done]. destruct (next_frame _ r) as [| |b]; [by apply listed_alter; [|apply delete_subseteq|]..|].
    destruct (c2s_from_bytes b) as [[]|]; done.
Qed.

(** A connection that has not answered has no name. *)
Definition nameless (s : Server) : Prop := ∀ n c, conns s !! n = Some c → phase c = Waiting → identity c = None.
Lemma nameless_alter f n cl (s : Server) i o d : nameless s →
  (∀ c, conns s !! n = Some c → phase (f c) = Waiting → phase c = Waiting ∧ identity (f c) = identity c) →
  nameless (mkServer cl (alter f n (conns s)) i o d).
Proof.
  intros Hno Hf j c' Hj Hp. cbn in *. rewrite list_lookup_alter in Hj. case_decide; [subst j|by eapply Hno].
  destruct (conns s !! n) as [c|] eqn:Hn; [|done]. cbn in Hj. simplify_eq. destruct (Hf c eq_refl Hp) as [Hw ->]. by eapply Hno.
Qed.

Lemma run_listed es : listed_ok (run start es).1 ∧ nameless (run start es).1.
Proof.
  induction es as [|e es [Hl Hno]] using rev_ind; [by split; [intros k n Hk; cbn in Hk; rewrite lookup_empty in Hk|]|].
  rewrite run_snoc. cbn [fst]. set (s := (run start es).1) in *. destruct e; cbn [step fst].
  - split; [intros k j Hj; destruct (Hl k j Hj) as (d & Hd & Hid); exists d; split; [by apply lookup_app_l_Some|done]|].
    intros j d Hj Hp. cbn in Hj. apply lookup_app_Some in Hj as [Hj|[_ Hj]]; [by eapply Hno|].
    apply list_lookup_singleton_Some in Hj as [_ <-]. by destruct (send_frame _ _ _).
  - split; [apply listed_read; [done|by intros; eapply Hno]|]. unfold on_read. destruct (conns s !! n) as [c|] eqn:Hn; [|done].
    assert (Hfail : ∀ e, nameless (fails n e s)) by (intros; by apply nameless_alter). destruct (phase c); [| |done].
    + destruct (check_response _ _); [|done..]. by apply nameless_alter.
    + destruct (identity c); [|done]. destruct (next_frame _ r) as [| |b]; [by apply nameless_alter..|]. by destruct (c2s_from_bytes b) as [[]|].
  - unfold on_queue. destruct (conns s !! n) as [[c [| |] who [|m rest] w]|] eqn:Hn; try done.
    destruct (send_frame _ _ _); (split; [apply listed_alter; [done|done|]; intros d Hd; rewrite Hn in Hd; by simplify_eq|by apply nameless_alter]).
  - unfold dispatch. destruct (outgoing s) as [|[key m] rest]; [done|]. destruct (clients s !! key) as [n|]; [|done].
    split; [apply listed_alter; [done|done|]|apply nameless_alter; [done|]]; intros c _; unfold push_rx, same_badge; by destruct (phase c) eqn:?; cbn; rewrite ?Heqp.
  - done.
  - by rewrite broadcast_posts.
  - unfold next. by destruct (incoming s) as [|[] ?], (disconnected s) as [|? ?], disconnected_first.
Qed.

(** The connection is in its loop and listed under the key. *)
Definition registered (s : Server) (n : nat) (key : list Z) : Prop :=
  clients s !! key = Some n ∧ ∃ c, conns s !! n = Some c ∧ phase c = Open.

Definition read_ok (bytes : list Z) : option ToClient := match receive (Frame bytes) with Ok m => Some m | _ => None end.
(** What the client at the other end reads, and what is on its way to it. *)
Definition heard (s : Server) (n : nat) : list ToClient :=
  match conns s !! n with Some c => omap read_ok (written c) | None => [] end.
Definition backlog (s : Server) (n : nat) (key : list Z) : list ToClient :=
  match conns s !! n with Some c => client_rx c | None => [] end ++ (filter (λ p, p.1 = key) (outgoing s)).*2.
(** What the owner of the server sends to the key. *)
Definition posted (key : list Z) (e : Ev) : list ToClient :=
  match e with
  | EvSendTo k m => if decide (k = key) then [m] else []
  | EvBroadcast m => [m]
  | _ => []
  end.

Lemma filter_others key m l : key ∉ l → filter (λ p, p.1 = key) ((λ k : list Z, (k, m : ToClient)) <$> l) = [].
Proof.
  intros Hno. induction l as [|k l IH]; [done|]. apply not_elem_of_cons in Hno as [Hk Hno]. rewrite fmap_cons, filter_cons_False by (cbn; congruence). by apply IH.
Qed.
Lemma filter_listed (cl : gmap (list Z) nat) key n m : cl !! key = Some n →
  (filter (λ p, p.1 = key) ((λ k, (k, m : ToClient)) <$> (map_to_list cl).*1)).*2 = [m].
Proof.
  intros Hk. apply elem_of_map_to_list in Hk. pose proof (NoDup_fst_map_to_list cl) as Hnd.
  apply (list_elem_of_fmap_2 fst) in Hk. cbn in Hk. apply list_elem_of_split in Hk as (l1 & l2 & Heq). rewrite Heq in *.
  apply NoDup_app in Hnd as (_ & Hno & [Hno2 _]%list.NoDup_cons). rewrite fmap_app, filter_app, fmap_cons, filter_cons_True by done.
  rewrite !filter_others; [done|done|]. intros Hin. apply (Hno key Hin). left.
Qed.

(** Steps that leave the connection as it is. *)
Lemma accounts_same s s' n key : conns s' !! n = conns s !! n → outgoing s' = outgoing s →
  heard s' n ++ backlog s' n key = heard s n ++ backlog s n key.
Proof. intros Hc Ho. unfold heard, backlog. by rewrite Hc, Ho. Qed.

Section Delivery.
Context `{!WireLaws W}.

Lemma read_written m ok : send_frame DEFAULT_FRAME_LENGTH (s2c_to_bytes (ToClientElse m)) ok = true →
  read_ok (s2c_to_bytes (ToClientElse m)) = Some m.
Proof.
  unfold send_frame. intros [Hle%Z.leb_le _]%andb_prop. unfold read_ok, receive, receive_message, next_frame.
  rewrite (proj2 (Z.ltb_ge _ _)) by (unfold MAX_FRAME_LENGTH, DEFAULT_FRAME_LENGTH in *; lia). by rewrite s2c_round_trip.
Qed.

Lemma delivery_step (s : Server) e n key : listed_ok s → registered s n key → registered (step s e).1 n key →
  heard (step s e).1 n ++ backlog (step s e).1 n key = heard s n ++ backlog s n key ++ posted key e.
Proof.
  intros Hl (Hk & c & Hc & Hp) (_ & c' & Hc' & Hp'). destruct (Hl key n Hk) as (d & Hd & Hid). rewrite Hc in Hd. injection Hd as <-.
  assert (Hlt : (n < length (conns s))%nat) by (by eapply lookup_lt_Some).
  assert (Hother : ∀ i f, i ≠ n → alter f i (conns s) !! n = conns s !! n) by (intros; by rewrite list_lookup_alter, decide_False).
  destruct e; cbn [step fst posted] in *; rewrite ?app_nil_r.
  - apply accounts_same; [|done]. by cbn; rewrite lookup_app_l.
  - assert (Hsame : conns (on_read n0 r s) !! n = conns s !! n); [|apply accounts_same; [done|]; unfold on_read; by repeat case_match].
    unfold on_read in *. destruct (conns s !! n0) as [d|] eqn:Hd; [|done]. destruct (decide (n0 = n)) as [->|Hne].
    + rewrite Hc in Hd. simplify_eq. rewrite Hp, Hid in *. destruct (next_frame _ r) as [| |b]; cbn in *;
        [rewrite list_lookup_alter, decide_True, Hc in Hc' by done; cbn in Hc'; by simplify_eq..|].
      destruct (c2s_from_bytes b) as [[]|]; cbn in *; [|done|]; rewrite list_lookup_alter, decide_True, Hc in Hc' by done; cbn in Hc'; by simplify_eq.
    + by repeat case_match; cbn; rewrite ?Hother.
  - unfold on_queue in *. destruct (decide (n0 = n)) as [->|Hne].
    + destruct c as [cc pp who rx w]. cbn in Hp. subst pp. rewrite Hc in *. destruct rx as [|m rest]; [done|].
      destruct (send_frame _ _ _) eqn:Hs; cbn in *; rewrite list_lookup_alter, decide_True, Hc in Hc' by done; cbn in Hc'; simplify_eq.
      unfold heard, backlog. cbn. rewrite list_lookup_alter, decide_True, Hc by done. cbn. rewrite omap_app. cbn.
      rewrite (read_written _ _ Hs). by rewrite <- app_assoc.
    + destruct (conns s !! n0) as [[? [| |] ? [|? ?] ?]|]; try done. by destruct (send_frame _ _ _); (apply accounts_same; [cbn; by rewrite Hother|]).
  - unfold dispatch in *. destruct (outgoing s) as [|[k m] rest] eqn:Ho; [done|]. unfold heard, backlog. cbn [conns outgoing clients]. rewrite Ho.
    destruct (decide (k = key)) as [->|Hne].
    + rewrite Hk. rewrite list_lookup_alter, decide_True, Hc by done. rewrite filter_cons_True by done.
      cbn [fmap option_fmap option_map]. unfold push_rx. rewrite Hp. cbn [client_rx written list_fmap snd]. by rewrite <- app_assoc.
    + rewrite filter_cons_False by done. destruct (clients s !! k) as [j|] eqn:Hj; [|done].
      destruct (Hl k j Hj) as (d & Hd & Hidd). rewrite Hother; [done|]. intros ->. rewrite Hc in Hd. by simplify_eq.
  - unfold heard, backlog. cbn [send_to conns outgoing]. rewrite filter_app, fmap_app, !app_assoc. f_equal.
    destruct (decide (key0 = key)) as [->|Hne]; [by rewrite filter_cons_True|by rewrite filter_cons_False].
  - rewrite broadcast_posts. unfold heard, backlog, get_connected_clients. cbn [conns outgoing]. rewrite filter_app, fmap_app, !app_assoc. f_equal. by eapply filter_listed.
  - apply accounts_same; unfold next; by destruct (incoming s) as [|[] ?], (disconnected s) as [|? ?], disconnected_first.
Qed.

(** C34: While a client's connection stays listed, what the client has read and what is on
    its way to it are what it was before and then the messages sent to it, in their order:
    none is lost, doubled or meant for somebody else. *)
Theorem messages_arrive_in_order es0 es n key :
  (∀ before, before `prefix_of` es → registered (run start (es0 ++ before)).1 n key) →
  let s := (run start es0).1 in let s' := (run start (es0 ++ es)).1 in
  heard s' n ++ backlog s' n key = heard s n ++ backlog s n key ++ (es ≫= posted key).
Proof.
  induction es as [|e es IH] using rev_ind; intros Hreg s s'; [subst s s'; by rewrite !app_nil_r|].
  assert (Hreg' : ∀ before, before `prefix_of` es → registered (run start (es0 ++ before)).1 n key) by (intros l Hl; by apply Hreg, prefix_app_r).
  specialize (IH Hreg'). cbn in IH. subst s s'. pose proof (Hreg (es ++ [e]) ltac:(done)) as Hend.
  rewrite !app_assoc, run_snoc in *. cbn [fst] in *. rewrite bind_app. cbn. rewrite app_nil_r.
  rewrite delivery_step; [|apply run_listed|by apply Hreg'|done]. rewrite app_assoc, IH. by rewrite <- !app_assoc.
Qed.

(** A client that answers the challenge is listed under its key, and what it sends then
    is taken in as its message. *)
Theorem client_connects (s : Server) c secret_key :
  zlen (s2c_to_bytes (Challenge c)) <= DEFAULT_FRAME_LENGTH →
  zlen (c2s_to_bytes (ChallengeResponse (sign_and_encode secret_key c))) <= DEFAULT_FRAME_LENGTH →
  let n := length (conns s) in let s1 := accept c true s in
  ∃ answer, connect secret_key (Frame (s2c_to_bytes (Challenge c))) = Ok (public secret_key, answer) ∧
    let s2 := on_read n (Frame answer) s1 in
    conns s2 = conns s ++ [mkConn c Open (Some (public secret_key)) [] [s2c_to_bytes (Challenge c)]] ∧
    clients s2 = <[public secret_key := n]> (clients s) ∧
    ∀ m, zlen (c2s_to_bytes (ToServerElse m)) <= DEFAULT_FRAME_LENGTH →
      incoming (on_read n (Frame (c2s_to_bytes (ToServerElse m))) s2) = incoming s ++ [(public secret_key, m)].
Proof.
  intros Hb0 Hb1 n s1. assert (Hlim : ∀ b : list Z, zlen b <= DEFAULT_FRAME_LENGTH → zlen b <= MAX_FRAME_LENGTH) by (unfold MAX_FRAME_LENGTH, DEFAULT_FRAME_LENGTH; lia).
  eexists. split.
  { unfold connect, receive_message, next_frame, send_frame. rewrite (proj2 (Z.ltb_ge _ _)) by (by apply Hlim). rewrite s2c_round_trip. cbn.
    rewrite (proj2 (Z.leb_le _ _)) by (by apply Hlim). done. }
  assert (Hs1 : conns s1 = conns s ++ [mkConn c Waiting None [] [s2c_to_bytes (Challenge c)]]).
  { subst s1. unfold accept, send_frame. cbn. by rewrite (proj2 (Z.leb_le _ _)) by done. }
  assert (Hn1 : conns s1 !! n = Some (mkConn c Waiting None [] [s2c_to_bytes (Challenge c)])) by (rewrite Hs1; by apply list_lookup_middle).
  assert (Hread : on_read n (Frame (c2s_to_bytes (ChallengeResponse (sign_and_encode secret_key c)))) s1 = welcome n (public secret_key) s1).
  { unfold on_read. rewrite Hn1. cbn [phase identity challenge]. unfold next_frame. rewrite (proj2 (Z.ltb_ge _ _)) by done.
    unfold check_response, verify_and_decode, sign_and_encode. cbn. rewrite hello_round_trip. cbn. rewrite signed_round_trip. cbn. rewrite signatures_verify. cbn.
    rewrite challenge_round_trip. cbn. by rewrite bool_decide_true. }
  rewrite Hread. assert (Hc2 : conns (welcome n (public secret_key) s1) = conns s ++ [mkConn c Open (Some (public secret_key)) [] [s2c_to_bytes (Challenge c)]]).
  { unfold welcome. cbn [conns]. rewrite Hs1. change [mkConn c Open (Some (public secret_key)) [] [s2c_to_bytes (Challenge c)]] with
      (alter (λ c0 : @Conn ToClient, mkConn (challenge c0) Open (Some (public secret_key)) [] (written c0)) 0%nat [mkConn c Waiting None [] [s2c_to_bytes (Challenge c)]]).
    replace n with (length (conns s) + 0)%nat by (subst n; lia). by rewrite alter_app_r. }
  split_and!; [done|done|]. intros m Hm. unfold on_read. rewrite Hc2. rewrite (list_lookup_middle _ [] _ n) by done. cbn [phase identity challenge].
  unfold next_frame. rewrite (proj2 (Z.ltb_ge _ _)) by done. by rewrite c2s_round_trip.
Qed.
End Delivery.

(** ** What is not cleaned up *)

(** A connection in its loop, or over, that no entry names: only what was in its queue can
    still be written to it. *)
Record unlisted (n : nat) (key : list Z) (c0 : @Conn ToClient) (s : Server) : Prop := {
  un_clients : ∀ k, clients s !! k ≠ Some n;
  un_conn : ∃ c, conns s !! n = Some c ∧ identity c = Some key ∧
    match phase c with
    | Waiting => False
    | Open => written c ++ ((s2c_to_bytes ∘ ToClientElse) <$> client_rx c) =
              written c0 ++ ((s2c_to_bytes ∘ ToClientElse) <$> client_rx c0)
    | Ended _ => written c `prefix_of` written c0 ++ ((s2c_to_bytes ∘ ToClientElse) <$> client_rx c0)
    end
}.

Lemma unlisted_same n key c0 (s s' : Server) : unlisted n key c0 s → conns s' !! n = conns s !! n →
  (∀ k, clients s' !! k = Some n → clients s !! k = Some n) → unlisted n key c0 s'.
Proof. intros [H1 H2] Hc Hk. split; [intros k Hl; by apply (H1 k), Hk|by rewrite Hc]. Qed.

(** Alterations of other connections. *)
Lemma unlisted_alter n key c0 (s : Server) f j cl i o d : unlisted n key c0 s → j ≠ n →
  (∀ k, cl !! k = Some n → clients s !! k = Some n) → unlisted n key c0 (mkServer cl (alter f j (conns s)) i o d).
Proof. intros Hu Hne Hcl. eapply unlisted_same; [done| |done]. cbn. by rewrite list_lookup_alter, decide_False. Qed.

Lemma unlisted_ends n key c0 (s : Server) c p cl i o d : unlisted n key c0 s → conns s !! n = Some c → phase c = Open →
  (∀ k, cl !! k ≠ Some n) → unlisted n key c0 (mkServer cl (alter (set_phase (Ended p)) n (conns s)) i o d).
Proof.
  intros [_ (c' & Hc' & Hid & Hw)] Hc Hp Hcl. rewrite Hc in Hc'. injection Hc' as <-. split; [done|]. exists (set_phase (Ended p) c). cbn.
  rewrite list_lookup_alter, decide_True, Hc by done. split_and!; [done..|]. rewrite Hp in Hw. rewrite <- Hw. by apply prefix_app_r.
Qed.

Lemma unlisted_read n key c0 (s : Server) j r : unlisted n key c0 s → unlisted n key c0 (on_read j r s).
Proof.
  intros Hu. assert (Hu' := Hu). destruct Hu' as [Hcl (c & Hc & Hid & Hw)]. unfold on_read.
  destruct (decide (j = n)) as [->|Hne].
  - rewrite Hc. destruct (phase c) eqn:Hp; [done| |done]. rewrite Hid.
    assert (Hleave : unlisted n key c0 (leave n key s)).
    { apply (unlisted_ends _ _ _ _ c); [done..|]. intros k. rewrite lookup_delete_Some. intros [_ Hk]. by apply (Hcl k). }
    destruct (next_frame _ r) as [| |bytes]; [done..|]. destruct (c2s_from_bytes bytes) as [[]|].
    + by apply (unlisted_ends _ _ _ _ c).
    + by apply (unlisted_same _ _ _ s).
    + by apply (unlisted_ends _ _ _ _ c).
  - destruct (conns s !! j) as [d|] eqn:Hd; [|done]. assert (Hfail : ∀ e, unlisted n key c0 (fails j e s)) by (intros e; by apply unlisted_alter).
    destruct (phase d); [| |done].
    + destruct (check_response _ _) as [k|e|]; [|done..]. apply unlisted_alter; [done..|].
      intros k'. rewrite lookup_insert_Some. intros [[_ ->]|[_ ?]]; done.
    + destruct (identity d) as [k|]; [|done]. destruct (next_frame _ r) as [| |bytes].
      1, 2: apply unlisted_alter; [done..|]; intros k'; rewrite lookup_delete_Some; by intros [_ ?].
      destruct (c2s_from_bytes bytes) as [[]|]; [done| |done]. by apply (unlisted_same _ _ _ s).
Qed.

Lemma unlisted_step n key c0 (s : Server) e : unlisted n key c0 s → unlisted n key c0 (step s e).1.
Proof.
  intros Hu. assert (Hu' := Hu). destruct Hu' as [Hcl (c & Hc & Hid & Hw)]. destruct e; cbn [step fst].
  - eapply unlisted_same; [done| |done]. cbn. rewrite lookup_app_l; [done|]. by eapply lookup_lt_Some.
  - by apply unlisted_read.
  - unfold on_queue. destruct (decide (n0 = n)) as [->|Hne].
    + rewrite Hc. destruct c as [cc [| |] who [|m rest] w]; try done. cbn in Hid, Hw. subst who.
      destruct (send_frame _ _ _); (split; [done|]); cbn [conns set_conns]; rewrite list_lookup_alter, decide_True, Hc by done;
        (eexists; split; [done|]); (split; [done|]); cbn; rewrite <- Hw; [by rewrite <- app_assoc|by apply prefix_app_r].
    + destruct (conns s !! n0) as [[? [| |] ? [|? ?] ?]|]; try done. by destruct (send_frame _ _ _); apply unlisted_alter.
  - unfold dispatch. destruct (outgoing s) as [|[k m] rest]; [done|]. destruct (clients s !! k) as [j|] eqn:Hj; [|by apply (unlisted_same _ _ _ s)].
    apply unlisted_alter; [done| |done]. intros ->. by apply (Hcl k).
  - by apply (unlisted_same _ _ _ s).
  - rewrite broadcast_posts. by apply (unlisted_same _ _ _ s).
  - destruct (next disconnected_first s) as [o s'] eqn:Hn. cbn. unfold next in Hn.
    destruct (incoming s) as [|[] ?], (disconnected s) as [|? ?], disconnected_first; cbn in Hn; simplify_eq; first [done|by eapply unlisted_same].
Qed.

Lemma unlisted_run n key c0 (s : Server) es : unlisted n key c0 s → unlisted n key c0 (run s es).1.
Proof. intros Hu. induction es as [|e es IH] using rev_ind; [done|]. rewrite run_snoc. by apply unlisted_step. Qed.

(** C40: When a client connects again and its first connection ends after that, the entry of
    the second is taken away and the client reported gone.  The second connection goes on, but
    whatever happens then, to the end of the run, is written to it nothing but what was in its
    own queue at that moment: no message still in the common queue and none sent later reaches
    it.  While it is open what it sends is still taken in as the client's. *)
Theorem reconnected_client_is_dropped es n1 n2 c1 c2 key : let s := (run start es).1 in
  conns s !! n1 = Some c1 → conns s !! n2 = Some c2 → n1 ≠ n2 → phase c1 = Open → phase c2 = Open →
  identity c1 = Some key → identity c2 = Some key →
  let s' := on_read n1 Closed s in
  conns s' !! n2 = Some c2 ∧ clients s' !! key = None ∧ disconnected s' = disconnected s ++ [key] ∧
  ∀ later, let s'' := (run s' later).1 in ∃ c, conns s'' !! n2 = Some c ∧
    written c `prefix_of` written c2 ++ ((s2c_to_bytes ∘ ToClientElse) <$> client_rx c2) ∧
    (phase c = Open → ∀ bytes m, zlen bytes <= DEFAULT_FRAME_LENGTH → c2s_from_bytes bytes = Some (ToServerElse m) →
       incoming (on_read n2 (Frame bytes) s'') = incoming s'' ++ [(key, m)]).
Proof.
  intros s H1 H2 Hne Hp1 Hp2 Hi1 Hi2 s'. assert (Hs' : s' = leave n1 key s) by (subst s'; unfold on_read; by rewrite H1, Hp1, Hi1).
  assert (Hc2 : conns s' !! n2 = Some c2) by (rewrite Hs'; cbn; by rewrite list_lookup_alter, decide_False).
  assert (Hgone : clients s' !! key = None) by (rewrite Hs'; apply lookup_delete_eq).
  split_and!; [done|done|by rewrite Hs'|]. intros later s''.
  assert (Hu : unlisted n2 key c2 s').
  { split; [|exists c2; by rewrite Hp2]. intros k Hk. rewrite Hs' in Hk. cbn in Hk. apply lookup_delete_Some in Hk as [Hkey Hk].
    destruct (proj1 (run_listed es) k n2 Hk) as (c & Hc & Hid). fold s in Hc. rewrite H2 in Hc. congruence. }
  destruct (unlisted_run _ _ _ _ later Hu) as [_ (c & Hc & Hid & Hw)]. exists c. split; [done|]. split.
  - destruct (phase c); [done| |done]. rewrite <- Hw. by apply prefix_app_r.
  - intros Hp bytes m Hlen Hm. unfold on_read. subst s''. rewrite Hc, Hp, Hid. unfold next_frame.
    rewrite (proj2 (Z.ltb_ge _ _)) by done. by rewrite Hm.
Qed.

(** A client that sends what cannot be read, or a challenge's answer a second time, is
    let go, but stays listed and is not reported gone. *)
Theorem broken_client_stays_listed es n c key bytes : let s := (run start es).1 in
  conns s !! n = Some c → phase c = Open → identity c = Some key → clients s !! key = Some n →
  zlen bytes <= DEFAULT_FRAME_LENGTH → (∀ m, c2s_from_bytes bytes ≠ Some (ToServerElse m)) →
  let s' := on_read n (Frame bytes) s in
  (∃ e, phase <$> conns s' !! n = Some (Ended (Err e))) ∧ key ∈ get_connected_clients s' ∧ disconnected s' = disconnected s ∧
  ∀ r, on_read n r s' = s'.
Proof.
  intros s Hn Hp Hid Hk Hlen Hbad s'. assert (∃ e, s' = fails n e s) as [e Hs'].
  { subst s'. unfold on_read. rewrite Hn, Hp, Hid. unfold next_frame. rewrite (proj2 (Z.ltb_ge _ _)) by done.
    destruct (c2s_from_bytes bytes) as [[r|m]|] eqn:Hm; [by eexists| |by eexists]. by destruct (Hbad m). }
  assert (Hn' : conns s' !! n = Some (set_phase (Ended (Err e)) c)) by (rewrite Hs'; cbn; by rewrite list_lookup_alter, decide_True, Hn).
  split_and!.
  - exists e. by rewrite Hn'.
  - unfold get_connected_clients. rewrite Hs'. cbn. apply elem_of_map_to_list in Hk. by apply (list_elem_of_fmap_2 fst) in Hk.
  - by rewrite Hs'.
  - intros r. unfold on_read. by rewrite Hn'.
Qed.
End Thms.

(** ** A small wire *)

(** Lists of numbers as messages, a tag in front of each; a key signs by putting itself in
    front of what it signs. *)
Module SmallWire.
Definition tag_s2c (m : ServerToClientMessage (list Z)) : list Z := match m with Challenge c => 0 :: c | ToClientElse m => 1 :: m end.
Definition untag_s2c (l : list Z) : option (ServerToClientMessage (list Z)) :=
  match l with 0 :: c => Some (Challenge c) | 1 :: m => Some (ToClientElse m) | _ => None end.
Definition tag_c2s (m : ClientToServerMessage (list Z)) : list Z := match m with ChallengeResponse c => 0 :: c | ToServerElse m => 1 :: m end.
Definition untag_c2s (l : list Z) : option (ClientToServerMessage (list Z)) :=
  match l with 0 :: c => Some (ChallengeResponse c) | 1 :: m => Some (ToServerElse m) | _ => None end.
Definition pack (m : SignedMessage) : list Z := zlen (signer m) :: zlen (data m) :: signer m ++ data m ++ signature m.
Definition unpack (l : list Z) : option SignedMessage :=
  match l with
  | a :: b :: rest => let a := Z.to_nat a in let b := Z.to_nat b in Some (mkSigned (take a rest) (take b (drop a rest)) (drop b (drop a rest)))
  | _ => None
  end.
#[export] Instance wire : Wire (list Z) (list Z) := {|
  s2c_to_bytes := tag_s2c; s2c_from_bytes := untag_s2c; c2s_to_bytes := tag_c2s; c2s_from_bytes := untag_c2s; hello_from_bytes := untag_c2s;
  signed_to_bytes := pack; signed_from_bytes := unpack; challenge_to_bytes c := c; challenge_from_bytes := Some;
  public k := k; sign k d := k ++ d; verify k d s := bool_decide (s = k ++ d) |}.
Lemma small_wire_laws : WireLaws wire.
Proof.
  split; try done; [by intros []..| |].
  - intros [a b c]. cbn. unfold pack, unpack, zlen. cbn. rewrite !Nat2Z.id, take_app_length, drop_app_length, take_app_length, drop_app_length. done.
  - intros sk d. by apply bool_decide_true.
Qed.

Definition alice : list Z := [7; 8].
Definition hello (n : nat) (c : list Z) : list (@Event (list Z)) := [EvAccept c true; EvRead n (Frame (tag_c2s (ChallengeResponse (sign_and_encode alice c))))].
Definition once : list (@Event (list Z)) := hello 0 [1; 2; 3].
Definition talk : list (@Event (list Z)) := [EvSendTo alice [10]; EvBroadcast [11]; EvSendTo [9] [12]; EvDispatch; EvQueue 0 true; EvDispatch].
Definition twice : list (@Event (list Z)) := once ++ hello 1 [4; 5; 6].
Definition listed (s : @TcpServer (list Z) (list Z)) : bool := bool_decide (clients s !! alice = Some 0%nat) && match conns s !! 0%nat with Some (mkConn _ Open _ _ _) => true | _ => false end.
Lemma listed_registered s : listed s = true → registered s 0 alice.
Proof.
  unfold listed, registered. case_bool_decide as Hc; [|done]. destruct (conns s !! 0%nat) as [[? [| |] ? ? ?]|]; [done| |done..]. by eauto.
Qed.
(** Checking a property of all prefixes. *)
Lemma prefixes_all {T} (P : list (@Event T) → Prop) es : Forall (λ k, P (take k es)) (seq 0 (S (length es))) → ∀ before, before `prefix_of` es → P before.
Proof.
  intros Hall before [k ->]. rewrite list.Forall_forall in Hall. specialize (Hall (length before)). rewrite take_app_length in Hall.
  apply Hall, elem_of_seq. rewrite length_app. lia.
Qed.
End SmallWire.
Import SmallWire.

Lemma messages_are_authenticated_witness : said (once ++ [EvRead 0 (Frame [1; 42]); EvNext false]) alice [42].
Proof.
  apply (proj1 (messages_are_authenticated (once ++ [EvRead 0 (Frame [1; 42]); EvNext false]) alice)).
  assert (Hr : (run start (once ++ [EvRead 0 (Frame [1; 42]); EvNext false])).2 = [Message alice [42]]) by (vm_compute; reflexivity).
  rewrite Hr. left.
Defined.

Lemma messages_arrive_in_order_witness :
  let s' := (run start (SmallWire.once ++ SmallWire.talk)).1 in
  heard s' 0 ++ backlog s' 0 SmallWire.alice = [[10]; [11]] ∧ heard s' 0 = [[10]].
Proof.
  split; [|vm_compute; reflexivity].
  refine (eq_trans (@messages_arrive_in_order (list Z) (list Z) SmallWire.wire SmallWire.small_wire_laws SmallWire.once SmallWire.talk 0 SmallWire.alice _) _).
  - apply SmallWire.prefixes_all. repeat (apply Forall_cons_2; [apply SmallWire.listed_registered; vm_compute; reflexivity|]). apply Forall_nil_2.
  - vm_compute. reflexivity.
Defined.

Lemma client_connects_witness : ∃ answer, connect SmallWire.alice (Frame [0; 5]) = Ok (SmallWire.alice, answer) ∧
  clients (on_read 0 (Frame answer) (accept [5] true start)) = {[ SmallWire.alice := 0%nat ]}.
Proof.
  destruct (@client_connects (list Z) (list Z) SmallWire.wire SmallWire.small_wire_laws start [5] SmallWire.alice) as (answer & Hc & _ & Hcl & _); [vm_compute; discriminate..|].
  exists answer. exact (conj Hc Hcl).
Defined.

(** What was posted before the drop, and what is sent after it, does not arrive. *)
Definition posted_then_sent : list (@Event (list Z)) := [EvDispatch; EvSendTo SmallWire.alice [13]; EvDispatch; EvQueue 1 true; EvQueue 1 true].

Lemma reconnected_client_is_dropped_witness :
  let s := (run start (SmallWire.twice ++ [EvSendTo SmallWire.alice [12]])).1 in
  let s' := on_read 0 Closed s in
  phase <$> conns s' !! 1%nat = Some Open ∧ clients s' !! SmallWire.alice = None ∧ disconnected s' = [SmallWire.alice] ∧
  ∃ c, conns (run s' posted_then_sent).1 !! 1%nat = Some c ∧ written c `prefix_of` [[0; 4; 5; 6]].
Proof.
  destruct (conns (run start (SmallWire.twice ++ [EvSendTo SmallWire.alice [12]])).1 !! 0%nat) as [c1|] eqn:H1; [|vm_compute in H1; discriminate].
  destruct (conns (run start (SmallWire.twice ++ [EvSendTo SmallWire.alice [12]])).1 !! 1%nat) as [c2|] eqn:H2; [|vm_compute in H2; discriminate].
  pose proof (@reconnected_client_is_dropped (list Z) (list Z) SmallWire.wire (SmallWire.twice ++ [EvSendTo SmallWire.alice [12]]) 0 1 c1 c2 SmallWire.alice H1 H2) as Hd.
  vm_compute in H1, H2. injection H1 as <-. injection H2 as <-.
  destruct Hd as (Hc & Hk & Hg & Hl); [discriminate|reflexivity..|]. cbv zeta. rewrite Hc, Hk, Hg.
  split; [reflexivity|]. split; [reflexivity|]. split; [reflexivity|].
  destruct (Hl posted_then_sent) as (c & Hcc & Hw & _). exists c. exact (conj Hcc Hw).
Defined.

Lemma broken_client_stays_listed_witness :
  let s' := on_read 0 (Frame [3]) (run start SmallWire.once).1 in
  SmallWire.alice ∈ get_connected_clients s' ∧ disconnected s' = [].
Proof.
  destruct (conns (run start SmallWire.once).1 !! 0%nat) as [c|] eqn:H1; [|vm_compute in H1; discriminate].
  pose proof (@broken_client_stays_listed (list Z) (list Z) SmallWire.wire SmallWire.once 0 c SmallWire.alice [3] H1) as Hd.
  vm_compute in H1. injection H1 as <-. destruct Hd as (_ & Hl & Hg & _); [reflexivity|reflexivity|vm_compute; reflexivity|vm_compute; discriminate|discriminate|].
  exact (conj Hl Hg).
Defined.
