(* ===== verification/Batches.v ===== *)
(** * Batches of the trainer

    src/shared/modeling/src/trainer.rs: the data of a batch as it comes from a data provider
    (samples) and as the model takes it (tensors), the padding that makes its size a multiple
    of the number of data-parallel ranks, and how the training thread cuts it into micro
    batches.

    The tensors here hold integers and have two dimensions: rows and the size of a row.
    [Tensor::from_slice2] stacks rows, and [stack] and [cat] refuse rows of different sizes,
    which panics.

    The theorems: padding before or after collation comes to the same; every sample of a batch
    is in one micro batch, with its labels and positions, and the lengths of its sequences
    only where the two ways of cutting agree. *)

From stdpp Require Import base tactics numbers list.
From S2P Require Import Prelude.

Open Scope Z_scope.

Record Matrix := mkMatrix { m_rows : list (list Z); m_cols : Z }.

(** [Tensor::from_slice2]. *)
Definition from_slice2 {E} (rows : list (list Z)) : res E Matrix :=
  match rows with
  | [] => Panic
  | r :: _ => if forallb (λ x, zlen x =? zlen r) rows then Ok (mkMatrix rows (zlen r)) else Panic
  end.
(** [Tensor::cat] along the rows, of tensors that are not empty. *)
Definition cat_rows {E} (a b : Matrix) : res E Matrix :=
  if m_cols a =? m_cols b then Ok (mkMatrix (m_rows a ++ m_rows b) (m_cols a)) else Panic.
(** [x as i32]. *)
Definition as_i32 (z : Z) : Z := (z + 2 ^ 31) mod 2 ^ 32 - 2 ^ 31.
(** [0..n]. *)
Definition upto (n : Z) : list Z := seqZ 0 n.

Record BatchDataCPU := mkCPU {
  input_ids : list Z;
  labels : option (list Z);
  position_ids : option (list Z);
  sequence_lengths : option (list Z);
}.
Record BatchDataGPU := mkGPU {
  g_input_ids : Matrix;
  g_labels : option Matrix;
  g_position_ids : option Matrix;
  g_sequence_lengths : option (list (list Z));
}.
Inductive BatchData := CPU (cpu : list BatchDataCPU) | GPU (gpu : BatchDataGPU).

Definition batch_size (d : BatchData) : Z :=
  match d with CPU cpu => zlen cpu | GPU gpu => zlen (m_rows (g_input_ids gpu)) end.

(** [all.into_iter().collect::<Option<Vec<_>>>()], and made a tensor. *)
Definition collect {A} (all : list (option A)) : option (list A) := mapM id all.
Definition collate {E} (all : list (option (list Z))) : res E (option Matrix) :=
  match collect all with Some v => m ← from_slice2 v; Ok (Some m) | None => Ok None end.

Definition gpu {E} (d : BatchData) : res E BatchDataGPU :=
  match d with
  | CPU cpu =>
      i ← from_slice2 (input_ids <$> cpu);
      l ← collate (labels <$> cpu);
      p ← collate (position_ids <$> cpu);
      Ok (mkGPU i l p (collect (sequence_lengths <$> cpu)))
  | GPU gpu => Ok gpu
  end.

(** The padding sample that goes with the first one. *)
Definition padding_sample (first : BatchDataCPU) : BatchDataCPU :=
  let seq_len := zlen (input_ids first) in
  mkCPU (replicate (Z.to_nat seq_len) 0)
    ((λ _, replicate (Z.to_nat seq_len) (-100)) <$> labels first)
    ((λ _, upto (as_i32 seq_len)) <$> position_ids first)
    ((λ _, [as_i32 seq_len]) <$> sequence_lengths first).

Definition pad_gpu {E} (world_size : Z) (g : BatchDataGPU) : res E BatchDataGPU :=
  let current_batch_size := zlen (m_rows (g_input_ids g)) in
  if world_size =? 0 then Panic
  else
    let remainder := current_batch_size mod world_size in
    if remainder =? 0 then Ok g
    else
      let padding_needed := world_size - remainder in
      if current_batch_size =? 0 then Ok g
      else
        let seq_len := m_cols (g_input_ids g) in
        let block row := mkMatrix (replicate (Z.to_nat padding_needed) row) seq_len in
        i ← cat_rows (g_input_ids g) (block (replicate (Z.to_nat seq_len) 0));
        l ← match g_labels g with
            | Some l => m ← cat_rows l (block (replicate (Z.to_nat seq_len) (-100))); Ok (Some m)
            | None => Ok None
            end;
        p ← match g_position_ids g with
            | Some p => m ← cat_rows p (block (upto seq_len)); Ok (Some m)
            | None => Ok None
            end;
        Ok (mkGPU i l p ((λ s, s ++ replicate (Z.to_nat padding_needed) [as_i32 seq_len]) <$> g_sequence_lengths g)).

Definition pad {E} (world_size : Z) (d : BatchData) : res E BatchData :=
  match d with
  | CPU cpu =>
      if world_size =? 0 then Panic
      else
        let remainder := zlen cpu mod world_size in
        if remainder =? 0 then Ok (CPU cpu)
        else
          let padding_needed := world_size - remainder in
          match cpu with
          | [] => Ok (CPU cpu)
          | first :: _ => Ok (CPU (cpu ++ replicate (Z.to_nat padding_needed) (padding_sample first)))
          end
  | GPU g => g' ← pad_gpu world_size g; Ok (GPU g')
  end.

(** ** Micro batches *)

(** Pieces of [n], the last one shorter: [x.chunks(n)]. *)
Fixpoint pieces {A} (fuel n : nat) (l : list A) : list (list A) :=
  match fuel, l with
  | O, _ | _, [] => []
  | S fuel', _ => take n l :: pieces fuel' n (drop n l)
  end.
Definition chunks {E A} (n : Z) (l : list A) : res E (list (list A)) :=
  if n =? 0 then Panic else Ok (pieces (length l) (Z.to_nat n) l).
Definition div_ceil (a b : Z) : Z := (a + b - 1) / b.
(** [x.chunk(k, 0)]: at most [k] pieces, all but the last of the same size; [k] empty ones of
    an empty tensor. *)
Definition chunk {E} (k : Z) (m : Matrix) : res E (list Matrix) :=
  if k <=? 0 then Panic
  else Ok ((λ rows, mkMatrix rows (m_cols m)) <$>
           match m_rows m with
           | [] => replicate (Z.to_nat k) []
           | rows => pieces (length rows) (Z.to_nat (div_ceil (zlen rows) k)) rows
           end).

(** [.into_iter().map(Some)]. *)
Definition somes {A} (l : list A) : list (option A) := Some <$> l.
Definition chunk_option {E} (k : Z) (m : option Matrix) : res E (list (option Matrix)) :=
  match m with
  | Some m => l ← chunk k m; Ok (somes l)
  | None => Ok (replicate (Z.to_nat k) None)
  end.

Definition MicroBatch : Type := Matrix * option Matrix * option Matrix * option (list (list Z)).

Definition grad_accum_steps {E} (batch_size micro_batch_size : Z) : res E Z :=
  if micro_batch_size =? 0 then Panic
  else Ok (batch_size / micro_batch_size + (if batch_size mod micro_batch_size =? 0 then 0 else 1)).

Definition micro_batches {E} (micro_batch_size : Z) (d : BatchData) : res E (list MicroBatch) :=
  steps ← grad_accum_steps (batch_size d) micro_batch_size;
  g ← gpu d;
  i ← chunk steps (g_input_ids g);
  l ← chunk_option steps (g_labels g);
  p ← chunk_option steps (g_position_ids g);
  s ← match g_sequence_lengths g with
      | Some x => y ← chunks micro_batch_size x; Ok (somes y)
      | None => Ok (replicate (Z.to_nat steps) None)
      end;
  res_assert (zlen i =? steps);;
  res_assert (zlen l =? steps);;
  res_assert (zlen p =? steps);;
  res_assert (zlen s =? steps);;
  Ok (zip (zip (zip i l) p) s).

(** [labels.unwrap_or_else(|| inputs.copy())] of [forward_backward]. *)
Definition labels_of (b : MicroBatch) : Matrix := let '(i, l, _, _) := b in default i l.

(** ** Padding and micro batches *)

(** ** Pieces *)

Lemma div_ceil_spec a b : 0 < b → a <= b * div_ceil a b < a + b.
Proof. intros Hb. unfold div_ceil. pose proof (Z.div_mod (a + b - 1) b ltac:(lia)). pose proof (Z.mod_pos_bound (a + b - 1) b Hb). nia. Qed.
Lemma div_ceil_unique a b k : 0 < b → a <= b * k < a + b → div_ceil a b = k.
Proof. intros Hb Hk. pose proof (div_ceil_spec a b Hb). nia. Qed.

Section Pieces.
Context {A : Type}.
Implicit Types l k : list A.

(** The length bounds the fuel, so one fuel is as good as another. *)
Lemma pieces_spec n : (0 < n)%nat → ∀ fuel l, (length l <= fuel)%nat →
  concat (pieces fuel n l) = l ∧ zlen (pieces fuel n l) = div_ceil (zlen l) (Z.of_nat n) ∧
  Forall (λ p, 0 < length p <= n)%nat (pieces fuel n l).
Proof.
  intros Hn fuel. induction fuel as [|fuel IH]; intros l Hl.
  - destruct l; [|cbn in Hl; lia]. split_and!; [done| |constructor]. symmetry. apply div_ceil_unique; unfold zlen; cbn; lia.
  - destruct l as [|x l]; [split_and!; [done| |constructor]; symmetry; apply div_ceil_unique; unfold zlen; cbn; lia|].
    cbn [pieces concat]. set (y := x :: l) in *. assert (Hy : (0 < length y)%nat) by (cbn; lia).
    destruct (IH (drop n y)) as (Hc & Hlen & Hall); [rewrite length_drop; lia|]. split_and!.
    + rewrite Hc. apply take_drop.
    + unfold zlen in *. cbn [length]. rewrite Nat2Z.inj_succ, Hlen. symmetry.
      pose proof (div_ceil_spec (Z.of_nat (length (drop n y))) (Z.of_nat n) ltac:(lia)) as Hd. rewrite length_drop in *.
      apply div_ceil_unique; [lia|]. set (d := div_ceil _ _) in *. destruct (Nat.le_gt_cases n (length y)); [rewrite Nat2Z.inj_sub in Hd by done; lia|].
      replace (length y - n)%nat with 0%nat in Hd by lia. assert (d = 0) by nia. lia.
    + constructor; [|done]. rewrite length_take. lia.
Qed.

Lemma pieces_lookup n fuel l j p : pieces fuel n l !! j = Some p → p = take n (drop (j * n) l).
Proof.
  revert l j. induction fuel as [|fuel IH]; intros l j; [done|]. destruct l as [|x l]; [done|]. destruct j as [|j]; cbn [pieces lookup list_lookup].
  - by intros [= <-].
  - intros Hj. rewrite (IH _ _ Hj), drop_drop. by replace (n + j * n)%nat with (S j * n)%nat by lia.
Qed.
End Pieces.

(** Lists of the same length are cut alike. *)
Lemma pieces_alike {A B} n fuel (l : list A) (k : list B) : length l = length k →
  length <$> pieces fuel n l = length <$> pieces fuel n k.
Proof.
  revert l k. induction fuel as [|fuel IH]; intros l k Hl; [done|]. destruct l as [|x l], k as [|y k]; try done.
  cbn [pieces fmap list_fmap]. f_equal; [by rewrite !length_take, Hl|]. apply IH. by rewrite !length_drop, Hl.
Qed.

(** ** Collation *)

Lemma from_slice2_Ok {E} rows m : @from_slice2 E rows = Ok m ↔ m_rows m = rows ∧ rows ≠ [] ∧ Forall (λ r, zlen r = m_cols m) rows.
Proof.
  unfold from_slice2. destruct rows as [|r rows]; [split; [done|naive_solver]|].
  destruct (forallb _ _) eqn:Hf.
  - apply Is_true_true, forallb_True in Hf. assert (Hall : Forall (λ x, zlen x = zlen r) (r :: rows)) by (eapply list.Forall_impl; [exact Hf|]; intros x Hx; by apply Z.eqb_eq, Is_true_true).
    destruct m as [mr mc]. cbn. split; [intros [= <- <-]; done|]. intros (-> & _ & Hc). f_equal. f_equal. by apply list.Forall_cons in Hc as [? _].
  - split; [done|]. intros (_ & _ & Hc). exfalso. apply not_true_iff_false in Hf. apply Hf. apply Is_true_true, forallb_True.
    apply list.Forall_cons in Hc as [Hr Hc]. apply list.Forall_cons. split; [by apply Is_true_true, Z.eqb_eq|].
    eapply list.Forall_impl; [exact Hc|]. intros x Hx. apply Is_true_true, Z.eqb_eq. by rewrite Hx, Hr.
Qed.
Lemma from_slice2_cases {E} rows : @from_slice2 E rows = Panic ∨ ∃ m, @from_slice2 E rows = Ok m.
Proof. unfold from_slice2. destruct rows; [by left|]. destruct (forallb _ _); [right; by eexists|by left]. Qed.

(** Rows added to a stack of rows, or stacked with it. *)
Lemma stack_more {E} rows n row : rows ≠ [] → (0 < n)%nat →
  @from_slice2 E (rows ++ replicate n row) =
  m ← from_slice2 rows; cat_rows m (mkMatrix (replicate n row) (zlen row)).
Proof.
  intros Hne Hn. destruct (@from_slice2_cases E rows) as [Hp|[m Hm]].
  - rewrite Hp. cbn. destruct (@from_slice2_cases E (rows ++ replicate n row)) as [?|[m Hm]]; [done|].
    exfalso. apply from_slice2_Ok in Hm as (_ & _ & Hc). apply list.Forall_app in Hc as [Hc _].
    assert (@from_slice2 E rows = Ok (mkMatrix rows (m_cols m))) by (by apply from_slice2_Ok). congruence.
  - rewrite Hm. cbn. apply from_slice2_Ok in Hm as (Hr & _ & Hc). unfold cat_rows. cbn. destruct (Z.eqb_spec (m_cols m) (zlen row)) as [He|Hne'].
    + apply from_slice2_Ok. cbn. rewrite Hr. split_and!; [done|by intros [??]%app_eq_nil|]. apply list.Forall_app. split; [done|]. by apply list.Forall_replicate.
    + destruct (@from_slice2_cases E (rows ++ replicate n row)) as [?|[m' Hm']]; [done|].
      exfalso. apply from_slice2_Ok in Hm' as (_ & _ & Hc'). apply list.Forall_app in Hc' as [Hc1 Hc2].
      destruct rows as [|r rows]; [done|]. destruct n; [lia|]. apply list.Forall_cons in Hc as [Hc _]. apply list.Forall_cons in Hc1 as [Hc1 _].
      apply list.Forall_cons in Hc2 as [Hc2 _]. congruence.
Qed.

Lemma collect_app {A} (l k : list (option A)) : collect (l ++ k) = (x ← collect l; y ← collect k; Some (x ++ y)).
Proof.
  unfold collect. induction l as [|o l IH]; cbn; [by destruct (mapM id k)|]. destruct o as [a|]; [|done]. cbn in *.
  rewrite IH. destruct (mapM id l); cbn; [|done]. by destruct (mapM id k).
Qed.
Lemma collect_replicate {A} n (a : A) : collect (replicate n (Some a)) = Some (replicate n a).
Proof. unfold collect. induction n as [|n IH]; cbn; [done|]. cbn in IH. by rewrite IH. Qed.
Lemma collect_None {A} n (l : list (option A)) : (0 < n)%nat → collect (l ++ replicate n None) = None.
Proof. intros Hn. rewrite collect_app. destruct (collect l); [|done]. destruct n; [lia|done]. Qed.
Lemma collect_Some {A} (l : list (option A)) x : collect l = Some x ↔ l = Some <$> x.
Proof. unfold collect. rewrite mapM_Some. split; [intros Hf; induction Hf as [|? ? ? ? Hx]; [done|]; cbn in *; by f_equal|intros ->; by induction x; constructor]. Qed.

(** Padding a column of samples: the padded column collated, or the collated column padded. *)
Lemma collate_more {E} (column : list (option (list Z))) first n row : head column = Some first → (0 < n)%nat →
  @collate E (column ++ replicate n ((λ _, row) <$> first)) =
  c ← collate column;
  match c with Some l => m ← cat_rows l (mkMatrix (replicate n row) (zlen row)); Ok (Some m) | None => Ok None end.
Proof.
  intros Hhead Hn. destruct column as [|o column]; [done|]. cbn in Hhead. injection Hhead as ->. unfold collate. destruct first as [f|]; cbn [fmap option_fmap option_map].
  - rewrite collect_app, collect_replicate. destruct (collect (Some f :: column)) as [rows|] eqn:Hc; [|done]. cbn [mbind option_bind].
    rewrite stack_more; [|by intros ->; apply collect_Some in Hc|done]. destruct (from_slice2 rows); [|done..]. cbn. by destruct (cat_rows _ _).
  - rewrite collect_None by done. destruct (collect (None :: column)) as [rows|] eqn:Hc; [|done].
    apply collect_Some in Hc. by destruct rows.
Qed.

Lemma collate_cases {E} c : @collate E c = Panic ∨ ∃ o, @collate E c = Ok o.
Proof. unfold collate. destruct (collect c) as [v|]; [|right; by eexists]. destruct (@from_slice2_cases E v) as [->|[m ->]]; [by left|right; by eexists]. Qed.
Lemma cat_rows_cases {E} a b : @cat_rows E a b = Panic ∨ ∃ m, @cat_rows E a b = Ok m.
Proof. unfold cat_rows. destruct (_ =? _); [right; by eexists|by left]. Qed.

(** What a successful collation of samples holds. *)
Record collated (cpu : list BatchDataCPU) (g : BatchDataGPU) : Prop := {
  col_some : cpu ≠ [];
  col_inputs : m_rows (g_input_ids g) = input_ids <$> cpu;
  col_width : Forall (λ d, zlen (input_ids d) = m_cols (g_input_ids g)) cpu;
  col_labels : m_rows <$> g_labels g = collect (labels <$> cpu);
  col_positions : m_rows <$> g_position_ids g = collect (position_ids <$> cpu);
  col_lengths : g_sequence_lengths g = collect (sequence_lengths <$> cpu);
}.
Lemma collate_rows {E} c o : @collate E c = Ok o → m_rows <$> o = collect c.
Proof.
  unfold collate. destruct (collect c) as [v|]; [|by intros [= <-]]. destruct (from_slice2 v) as [m| |] eqn:Hm; [|done..].
  cbn. intros [= <-]. apply from_slice2_Ok in Hm as (<- & _). done.
Qed.
Lemma gpu_collated {E} cpu g : @gpu E (CPU cpu) = Ok g → collated cpu g.
Proof.
  cbn. intros Hg. destruct (from_slice2 _) as [i| |] eqn:Hi; [|done..]. cbn in Hg. destruct (collate (labels <$> cpu)) as [l| |] eqn:Hl; [|done..]. cbn in Hg.
  destruct (collate (position_ids <$> cpu)) as [p| |] eqn:Hp; [|done..]. cbn in Hg. injection Hg as <-. apply from_slice2_Ok in Hi as (Hr & Hne & Hc).
  split; cbn; [by intros ->|done| |by eapply collate_rows|by eapply collate_rows|done]. by apply list.Forall_fmap in Hc.
Qed.
Lemma gpu_cases {E} d : @gpu E d = Panic ∨ ∃ g, @gpu E d = Ok g.
Proof.
  destruct d as [cpu|g]; [|right; by eexists]. cbn. destruct (@from_slice2_cases E (input_ids <$> cpu)) as [->|[i ->]]; [by left|]. cbn.
  destruct (@collate_cases E (labels <$> cpu)) as [->|[l ->]]; [by left|]. cbn. destruct (@collate_cases E (position_ids <$> cpu)) as [->|[p ->]]; [by left|right; by eexists].
Qed.

Lemma zlen_replicate {A} n (x : A) : 0 <= n → zlen (replicate (Z.to_nat n) x) = n.
Proof. intros Hn. unfold zlen. rewrite length_replicate. lia. Qed.
Lemma zlen_upto n : 0 <= n → zlen (upto n) = n.
Proof. intros Hn. unfold zlen, upto. rewrite length_seqZ. lia. Qed.
Lemma as_i32_small n : 0 <= n < 2 ^ 31 → as_i32 n = n.
Proof. intros Hn. unfold as_i32. rewrite Z.mod_small; lia. Qed.

(** The tensors of samples and as many padding samples, from those of the samples. *)
Lemma collate_padded {E} first rest n : (0 < n)%nat → zlen (input_ids first) < 2 ^ 31 → let cpu := first :: rest in
  @gpu E (CPU (cpu ++ replicate n (padding_sample first))) =
  g ← gpu (CPU cpu);
  let seq_len := m_cols (g_input_ids g) in
  let block row := mkMatrix (replicate n row) seq_len in
  i ← cat_rows (g_input_ids g) (block (replicate (Z.to_nat seq_len) 0));
  l ← match g_labels g with
      | Some l => m ← cat_rows l (block (replicate (Z.to_nat seq_len) (-100))); Ok (Some m)
      | None => Ok None
      end;
  p ← match g_position_ids g with Some p => m ← cat_rows p (block (upto seq_len)); Ok (Some m) | None => Ok None end;
  Ok (mkGPU i l p ((λ s, s ++ replicate n [as_i32 seq_len]) <$> g_sequence_lengths g)).
Proof.
  intros Hn Hlen cpu. pose proof (zlen_nonneg (input_ids first)) as Hpos. set (L := zlen (input_ids first)) in *.
  assert (Hi : @from_slice2 E (input_ids <$> (cpu ++ replicate n (padding_sample first))) =
    m ← from_slice2 (input_ids <$> cpu); cat_rows m (mkMatrix (replicate n (replicate (Z.to_nat L) 0)) L)).
  { rewrite fmap_app, fmap_replicate. cbn [padding_sample input_ids]. fold L. rewrite stack_more by done. by rewrite zlen_replicate. }
  assert (Hl : @collate E (labels <$> (cpu ++ replicate n (padding_sample first))) = c ← collate (labels <$> cpu);
    match c with Some l => m ← cat_rows l (mkMatrix (replicate n (replicate (Z.to_nat L) (-100))) L); Ok (Some m) | None => Ok None end).
  { rewrite fmap_app, fmap_replicate. cbn [padding_sample labels]. fold L. rewrite (collate_more _ (labels first)) by done. by rewrite zlen_replicate. }
  assert (Hp : @collate E (position_ids <$> (cpu ++ replicate n (padding_sample first))) = c ← collate (position_ids <$> cpu);
    match c with Some l => m ← cat_rows l (mkMatrix (replicate n (upto L)) L); Ok (Some m) | None => Ok None end).
  { rewrite fmap_app, fmap_replicate. cbn [padding_sample position_ids]. fold L. rewrite as_i32_small by done. rewrite (collate_more _ (position_ids first)) by done. by rewrite zlen_upto. }
  assert (Hs : collect (sequence_lengths <$> (cpu ++ replicate n (padding_sample first))) = (λ s, s ++ replicate n [as_i32 L]) <$> collect (sequence_lengths <$> cpu)).
  { rewrite fmap_app, fmap_replicate. cbn [padding_sample sequence_lengths]. fold L. subst cpu. cbn [fmap list_fmap app]. destruct (sequence_lengths first) as [q|]; cbn [fmap option_fmap option_map].
    - change (Some q :: (sequence_lengths <$> rest) ++ replicate n (Some [as_i32 L])) with ((Some q :: (sequence_lengths <$> rest)) ++ replicate n (Some [as_i32 L])).
      rewrite collect_app, collect_replicate. by destruct (collect (_ :: _)).
    - done. }
  unfold gpu. rewrite Hi, Hl, Hp, Hs. clear Hi Hl Hp Hs. destruct (@from_slice2 E (input_ids <$> cpu)) as [i| |] eqn:Hi; [|done..].
  apply from_slice2_Ok in Hi as (_ & _ & Hc). apply list.Forall_cons in Hc as [Hc _]. fold L in Hc. cbn [mbind res_bind].
  assert (Hcat : ∀ row, cat_rows (E := E) i (mkMatrix (replicate n row) L) = Ok (mkMatrix (m_rows i ++ replicate n row) L)) by (intros row; unfold cat_rows; cbn; by rewrite <- Hc, Z.eqb_refl).
  rewrite Hcat. cbn [mbind res_bind]. destruct (@collate_cases E (labels <$> cpu)) as [Hl|[l Hl]]; rewrite Hl; [done|]. cbn [mbind res_bind].
  destruct (@collate_cases E (position_ids <$> cpu)) as [Hp|[p Hp]]; rewrite Hp; cbn [mbind res_bind g_input_ids g_labels g_position_ids g_sequence_lengths].
  - destruct l as [l|]; [|done]. by destruct (cat_rows_cases (E := E) l (mkMatrix (replicate n (replicate (Z.to_nat L) (-100))) L)) as [->|[m ->]].
  - rewrite <- Hc, Hcat. done.
Qed.

(** Padding the samples and then collating them is collating them and then padding the
    tensors, whatever the samples hold, failures included. *)
Theorem pad_then_collate {E} world_size cpu : 0 <= world_size → Forall (λ d, zlen (input_ids d) < 2 ^ 31) cpu →
  (d ← pad world_size (CPU cpu); @gpu E d) = (g ← gpu (CPU cpu); pad_gpu world_size g).
Proof.
  intros Hw Hlen. destruct cpu as [|first rest]; [cbn; destruct (Z.eqb_spec world_size 0); [done|]; by rewrite Z.mod_0_l|].
  apply list.Forall_cons in Hlen as [Hlen _]. set (cpu := first :: rest) in *. unfold pad. destruct (Z.eqb_spec world_size 0) as [->|Hnz].
  { destruct (@gpu_cases E (CPU cpu)) as [->|[g ->]]; done. }
  assert (Hpad : ∀ g, @gpu E (CPU cpu) = Ok g → zlen (m_rows (g_input_ids g)) = zlen cpu) by (intros g [_ -> _ _ _ _]%gpu_collated; unfold zlen; by rewrite length_fmap).
  destruct (Z.eqb_spec (zlen cpu mod world_size) 0) as [Hz|Hr].
  - cbn [mbind res_bind]. destruct (@gpu_cases E (CPU cpu)) as [Hg|[g Hg]]; rewrite Hg; [done|]. cbn [mbind res_bind]. unfold pad_gpu.
    rewrite (Hpad g Hg), (proj2 (Z.eqb_neq world_size 0)), (proj2 (Z.eqb_eq _ 0)) by done. done.
  - pose proof (Z.mod_pos_bound (zlen cpu) world_size ltac:(lia)) as Hb. cbn [mbind res_bind].
    pose proof (@collate_padded E first rest (Z.to_nat (world_size - zlen cpu mod world_size)) ltac:(lia) Hlen) as Hc. cbv zeta in Hc. fold cpu in Hc.
    refine (eq_trans Hc _). destruct (@gpu_cases E (CPU cpu)) as [Hg|[g Hg]]; rewrite Hg; [done|]. cbn [mbind res_bind]. unfold pad_gpu.
    rewrite (Hpad g Hg), (proj2 (Z.eqb_neq world_size 0)), (proj2 (Z.eqb_neq (zlen cpu mod world_size) 0)) by done.
    rewrite (proj2 (Z.eqb_neq (zlen cpu) 0)) by (unfold cpu, zlen; cbn; lia). done.
Qed.

(** ** Micro batches *)

Lemma grad_steps {E} B m : 0 < m → @grad_accum_steps E B m = Ok (div_ceil B m).
Proof.
  intros Hm. unfold grad_accum_steps. rewrite (proj2 (Z.eqb_neq m 0)) by lia. f_equal. symmetry. pose proof (Z.div_mod B m ltac:(lia)). pose proof (Z.mod_pos_bound B m Hm).
  apply div_ceil_unique; [done|]. destruct (Z.eqb_spec (B mod m) 0); nia.
Qed.

(** Cutting into as many pieces as the steps gives as many pieces, none larger than asked. *)
Lemma cut_steps B m : 0 < m → 0 < B → let k := div_ceil B m in let s := div_ceil B k in
  1 <= k ∧ 1 <= s <= m ∧ div_ceil B s = k.
Proof.
  intros Hm HB k s. pose proof (div_ceil_spec B m Hm) as Hk. fold k in Hk. assert (1 <= k) by nia.
  pose proof (div_ceil_spec B k ltac:(lia)) as Hs. fold s in Hs. assert (1 <= s) by nia. assert (s <= m) by nia.
  split_and!; try done. apply div_ceil_unique; [lia|]. nia.
Qed.

Lemma pieces_one {A} n fuel (l : list A) : l ≠ [] → (length l <= n)%nat → (0 < fuel)%nat → pieces fuel n l = [l].
Proof. intros Hl Hn Hf. destruct fuel as [|[|fuel]]; [lia|..]; destruct l; try done; cbn [pieces]; by rewrite take_ge, ?drop_ge by done. Qed.

Lemma chunk_run {E} k m : 0 < k → m_rows m ≠ [] → ∃ l, @chunk E k m = Ok l ∧
  m_rows <$> l = pieces (length (m_rows m)) (Z.to_nat (div_ceil (zlen (m_rows m)) k)) (m_rows m).
Proof.
  intros Hk Hne. unfold chunk. destruct (Z.leb_spec k 0); [lia|]. eexists. split; [done|]. rewrite <- list_fmap_compose.
  destruct (m_rows m); [done|]. apply list_fmap_id.
Qed.

Lemma fmap_pointwise {A B} (f h : A → B) l : f <$> l = h <$> l ↔ Forall (λ x, f x = h x) l.
Proof. induction l as [|x l IH]; [done|]. rewrite list.Forall_cons, <- IH. cbn. split; [by intros [= -> ->]|by intros [-> ->]]. Qed.

Lemma fmap_after {A B C} (f : A → C) (h : B → C) (part : A → B) (z : list A) (l : list B) : part <$> z = l → (∀ b, f b = h (part b)) → f <$> z = h <$> l.
Proof. intros <- Hf. rewrite <- list_fmap_compose. by apply fmap_pointwise, list.Forall_forall. Qed.

(** The rows of a part of the micro batches, where the batch has it. *)
Definition goes_with (part : MicroBatch → option (list (list Z))) (whole : option (list (list Z))) (l : list MicroBatch) : Prop :=
  match whole with
  | None => Forall (λ b, part b = None) l
  | Some rows => concat ((λ b, default [] (part b)) <$> l) = rows ∧ Forall (λ b, length (default [] (part b)) = length (m_rows b.1.1.1)) l
  end.

Lemma option_part {E} k (whole : option Matrix) n i : 0 < k → div_ceil (Z.of_nat n) (div_ceil (Z.of_nat n) k) = k → (0 < n)%nat → (0 < div_ceil (Z.of_nat n) k) →
  (∀ m, whole = Some m → length (m_rows m) = n) → length <$> i = length <$> pieces n (Z.to_nat (div_ceil (Z.of_nat n) k)) (replicate n ()) → ∃ l, @chunk_option E k whole = Ok l ∧ zlen l = k ∧
  match whole with
  | None => Forall (eq None) l
  | Some m => concat (from_option m_rows [] <$> l) = m_rows m ∧ (λ o, length (from_option m_rows [] o)) <$> l = length <$> (i : list (list (list Z)))
  end.
Proof.
  intros Hk Hsteps Hn Hpos Hrows Hi. unfold chunk_option. destruct whole as [m|].
  - specialize (Hrows m eq_refl). destruct (@chunk_run E k m Hk) as (l & Hl & Hp); [by intros He; rewrite He in Hrows; cbn in Hrows; lia|].
    rewrite Hl. eexists. split; [done|]. unfold zlen in Hp. rewrite Hrows in Hp.
    destruct (pieces_spec (Z.to_nat (div_ceil (Z.of_nat n) k)) ltac:(lia) n (m_rows m) ltac:(lia)) as (Hc & Hlen & _).
    unfold somes. rewrite <- !list_fmap_compose. change (from_option m_rows [] ∘ Some) with m_rows.
    change ((λ o, length (from_option m_rows [] o)) ∘ Some) with (length ∘ m_rows). rewrite (list_fmap_compose m_rows length), Hp. split_and!; cycle 1.
    + done.
    + rewrite Hi. apply pieces_alike. by rewrite length_replicate.
    + unfold zlen in *. rewrite length_fmap. rewrite <- (length_fmap m_rows), Hp, Hlen, Hrows, Z2Nat.id by lia. done.
  - eexists. split; [done|]. split; [by apply zlen_replicate; lia|]. by apply list.Forall_replicate.
Qed.

(** The parts of zipped lists of one length. *)
Lemma zip_parts {A B C D} (i : list A) (l : list B) (p : list C) (s : list D) n : length i = n → length l = n → length p = n → length s = n →
  let z := zip (zip (zip i l) p) s in
  length z = n ∧ (λ b, b.1.1.1) <$> z = i ∧ (λ b, b.1.1.2) <$> z = l ∧ (λ b, b.1.2) <$> z = p ∧ (λ b, b.2) <$> z = s.
Proof.
  intros Hi Hl Hp Hs z. assert (Hil : (zip i l).*1 = i ∧ (zip i l).*2 = l) by (rewrite fst_zip, snd_zip by lia; done).
  assert (Hn2 : length (zip i l) = n) by (rewrite length_zip; lia). assert (Hn3 : length (zip (zip i l) p) = n) by (rewrite length_zip; lia).
  assert (H3 : z.*1 = zip (zip i l) p ∧ z.*2 = s) by (unfold z; rewrite fst_zip, snd_zip by lia; done).
  assert (H2 : z.*1.*1 = zip i l ∧ z.*1.*2 = p) by (destruct H3 as [-> _]; rewrite fst_zip, snd_zip by lia; done).
  destruct H2 as [H21 H22], H3 as [_ H32], Hil as [Hil1 Hil2]. split_and!; [unfold z; rewrite length_zip; lia|..].
  - rewrite <- Hil1, <- H21. by rewrite <- !list_fmap_compose.
  - rewrite <- Hil2, <- H21. by rewrite <- !list_fmap_compose.
  - rewrite <- H22. by rewrite <- !list_fmap_compose.
  - exact H32.
Qed.

(** How [option_part] reads over the micro batches. *)
Lemma part_goes_with (z : list MicroBatch) (part : MicroBatch → option Matrix) (whole : option Matrix) (l : list (option Matrix)) i :
  part <$> z = l → (λ b, m_rows b.1.1.1) <$> z = i →
  match whole with
  | None => Forall (eq None) l
  | Some m => concat (from_option m_rows [] <$> l) = m_rows m ∧ (λ o, length (from_option m_rows [] o)) <$> l = length <$> i
  end → goes_with (λ b, m_rows <$> part b) (m_rows <$> whole) z.
Proof.
  intros Hl Hi Hw. unfold goes_with. destruct whole as [m|]; cbn.
  - destruct Hw as [Hc Hlen]. assert (Hd : (λ b, default [] (m_rows <$> part b)) <$> z = from_option m_rows [] <$> l).
    { apply (fmap_after _ _ _ _ _ Hl). intros b. by destruct (part b). }
    split; [by rewrite Hd|]. apply fmap_pointwise. transitivity (length <$> i).
    + rewrite <- Hlen. apply (fmap_after _ (λ o, length (from_option m_rows [] o)) _ _ _ Hl). intros b. by destruct (part b).
    + symmetry. by apply (fmap_after _ length _ _ _ Hi).
  - rewrite <- Hl, list.Forall_fmap in Hw. eapply list.Forall_impl; [exact Hw|]. intros b Hb. cbn in Hb. by rewrite <- Hb.
Qed.

(** Two cuts of lists of one length agree when they cut at the same size or not at all. *)
Lemma same_cut {A C} (a : list A) (b : list C) n m : (0 < n)%nat → length a = n → length b = n → 0 < m →
  let s := div_ceil (Z.of_nat n) (div_ceil (Z.of_nat n) m) in
  length <$> pieces n (Z.to_nat m) b = length <$> pieces n (Z.to_nat s) a ↔ s = m ∨ Z.of_nat n <= m.
Proof.
  intros Hn Ha Hb Hm s. destruct (cut_steps (Z.of_nat n) m Hm ltac:(lia)) as (Hk & Hs & _). fold s in Hs. rewrite (pieces_alike (Z.to_nat s) n a b) by lia. split.
  - intros Heq. destruct (decide (Z.of_nat n <= m)) as [|Hbig]; [by right|left]. destruct n as [|n]; [lia|]. destruct b as [|x b]; [done|].
    cbn [pieces fmap list_fmap] in Heq. injection Heq as Heq _. rewrite !length_take, Hb in Heq. lia.
  - intros [->|Hle]; [done|]. assert (Hs1 : s = Z.of_nat n) by (unfold s; rewrite (div_ceil_unique (Z.of_nat n) m 1) by lia; apply div_ceil_unique; lia).
    rewrite !pieces_one; [done|..]; try (destruct b; [cbn in Hb; lia|done]); lia.
Qed.

(** How the samples of a batch are spread over its micro batches. *)
Definition well_cut (m : Z) (cpu : list BatchDataCPU) (l : list MicroBatch) : Prop :=
  zlen l = div_ceil (zlen cpu) m ∧
  concat ((λ b, m_rows b.1.1.1) <$> l) = input_ids <$> cpu ∧ Forall (λ b, 1 <= zlen (m_rows b.1.1.1) <= m) l ∧
  goes_with (λ b, m_rows <$> b.1.1.2) (collect (labels <$> cpu)) l ∧
  goes_with (λ b, m_rows <$> b.1.2) (collect (position_ids <$> cpu)) l ∧
  match collect (sequence_lengths <$> cpu) with
  | None => Forall (λ b, b.2 = None) l
  | Some lengths => concat ((λ b, default [] b.2) <$> l) = lengths ∧
      (Forall (λ b, length (default [] b.2) = length (m_rows b.1.1.1)) l ↔ div_ceil (zlen cpu) (div_ceil (zlen cpu) m) = m ∨ zlen cpu <= m)
  end.

Lemma micro_batches_run {E} m cpu g : 0 < m → @gpu E (CPU cpu) = Ok g → ∃ l, @micro_batches E m (CPU cpu) = Ok l ∧ well_cut m cpu l.
Proof.
  intros Hm Hg. pose proof (gpu_collated _ _ Hg) as [Hne Hrows Hw Hlab Hpos Hlen]. assert (HB : 0 < zlen cpu) by (destruct cpu; [done|unfold zlen; cbn; lia]).
  destruct (cut_steps (zlen cpu) m Hm HB) as (Hk & Hs & Hks). set (B := zlen cpu) in *. set (k := div_ceil B m) in *. set (s := div_ceil B k) in *.
  assert (Hn : length (m_rows (g_input_ids g)) = length cpu) by (by rewrite Hrows, length_fmap).
  assert (Hnz : (0 < length cpu)%nat) by (unfold B, zlen in HB; lia). assert (HBn : Z.of_nat (length cpu) = B) by done.
  destruct (@chunk_run E k (g_input_ids g) ltac:(lia)) as (i & Hi & Hpi); [rewrite Hrows; by destruct cpu|]. unfold zlen in Hpi. rewrite Hn, HBn in Hpi. fold s in Hpi.
  destruct (pieces_spec (Z.to_nat s) ltac:(lia) (length cpu) (m_rows (g_input_ids g)) ltac:(lia)) as (Hcat & Hnum & Hsize).
  assert (Hli : length i = Z.to_nat k) by (rewrite <- (length_fmap m_rows), Hpi; unfold zlen in Hnum; rewrite Hn, HBn, Z2Nat.id in Hnum by lia; lia).
  assert (Halike : length <$> (m_rows <$> i) = length <$> pieces (length cpu) (Z.to_nat (div_ceil (Z.of_nat (length cpu)) k)) (replicate (length cpu) ())).
  { rewrite HBn, Hpi. fold s. apply pieces_alike. by rewrite length_replicate. }
  assert (Hcol : ∀ (o : option Matrix) c, m_rows <$> o = collect c → length c = length cpu → ∀ q, o = Some q → length (m_rows q) = length cpu).
  { intros o c Ho Hc q ->. cbn in Ho. symmetry in Ho. apply collect_Some in Ho. by rewrite <- Hc, Ho, length_fmap. }
  destruct (@option_part E k (g_labels g) (length cpu) (m_rows <$> i)) as (l & Hl & Hll & Hlspec); [lia|rewrite HBn; done|done|rewrite HBn; fold s; lia|exact (Hcol _ _ Hlab (length_fmap _ _))|done|].
  destruct (@option_part E k (g_position_ids g) (length cpu) (m_rows <$> i)) as (p & Hp & Hlp & Hpspec); [lia|rewrite HBn; done|done|rewrite HBn; fold s; lia|exact (Hcol _ _ Hpos (length_fmap _ _))|done|].
  set (sl := match g_sequence_lengths g with Some x => somes (pieces (length x) (Z.to_nat m) x) | None => replicate (Z.to_nat k) None end).
  assert (Hq : ∀ q, g_sequence_lengths g = Some q → length q = length cpu) by (intros q Hq; rewrite Hq in Hlen; symmetry in Hlen; apply collect_Some in Hlen; by rewrite <- (length_fmap Some q), <- Hlen, length_fmap).
  assert (Hsl : zlen sl = k).
  { unfold sl. destruct (g_sequence_lengths g) as [q|]; [|by apply zlen_replicate; lia]. unfold somes, zlen. rewrite length_fmap.
    destruct (pieces_spec (Z.to_nat m) ltac:(lia) (length q) q ltac:(lia)) as (_ & Hz & _). unfold zlen in Hz. by rewrite Hz, (Hq q eq_refl), Z2Nat.id by lia. }
  exists (zip (zip (zip i l) p) sl). split.
  { unfold micro_batches. rewrite grad_steps by done. cbn [mbind res_bind batch_size]. fold B k. rewrite Hg. cbn [mbind res_bind]. rewrite Hi. cbn [mbind res_bind]. rewrite Hl. cbn [mbind res_bind]. rewrite Hp. cbn [mbind res_bind].
    assert (Hchunks : match g_sequence_lengths g with Some x => y ← @chunks E _ m x; Ok (somes y) | None => Ok (replicate (Z.to_nat k) None) end = Ok sl).
    { unfold sl, chunks. destruct (g_sequence_lengths g); [|done]. by rewrite (proj2 (Z.eqb_neq m 0)) by lia. }
    rewrite Hchunks. cbn [mbind res_bind]. rewrite (proj2 (Z.eqb_eq (zlen i) k)) by (unfold zlen; lia). rewrite (proj2 (Z.eqb_eq _ _) Hll), (proj2 (Z.eqb_eq _ _) Hlp), (proj2 (Z.eqb_eq _ _) Hsl). done. }
  destruct (zip_parts i l p sl (Z.to_nat k)) as (Hz & Zi & Zl & Zp & Zs); [done|unfold zlen in *; lia..|]. set (z := zip (zip (zip i l) p) sl) in *.
  assert (Zrows : (λ b, m_rows b.1.1.1) <$> z = m_rows <$> i) by (by apply (fmap_after _ m_rows _ _ _ Zi)).
  split_and!.
  - exact (eq_trans (f_equal Z.of_nat Hz) (Z2Nat.id k ltac:(lia))).
  - by rewrite Zrows, Hpi, Hcat, Hrows.
  - assert (Hf : Forall (λ rows, 1 <= zlen rows <= m) ((λ b, m_rows b.1.1.1) <$> z)); [|by rewrite list.Forall_fmap in Hf].
    rewrite Zrows, Hpi. eapply list.Forall_impl; [exact Hsize|]. intros rows Hr. cbn in Hr. unfold zlen. lia.
  - rewrite <- Hlab. by eapply part_goes_with.
  - rewrite <- Hpos. by eapply part_goes_with.
  - rewrite <- Hlen. unfold sl in *. destruct (g_sequence_lengths g) as [q|].
    + specialize (Hq q eq_refl). destruct (pieces_spec (Z.to_nat m) ltac:(lia) (length q) q ltac:(lia)) as (Hcq & _ & _).
      assert (Hdef : (λ b, default [] b.2) <$> z = pieces (length q) (Z.to_nat m) q).
      { rewrite (fmap_after _ (default []) _ _ _ Zs) by done. unfold somes. rewrite <- list_fmap_compose. apply list_fmap_id. }
      split; [by rewrite Hdef|]. rewrite <- (fmap_pointwise (λ b : MicroBatch, length (default [] b.2)) (λ b, length (m_rows b.1.1.1)) z).
      rewrite (fmap_after _ length _ _ _ Hdef), (fmap_after _ length _ _ _ Zrows), Hpi, Hq by done. by apply same_cut; [lia..|].
    + assert (Hf : Forall (eq None) (replicate (Z.to_nat k) (None : option (list (list Z))))) by (by apply list.Forall_replicate).
      rewrite <- Zs, list.Forall_fmap in Hf. eapply list.Forall_impl; [exact Hf|]. intros b Hb. by rewrite <- Hb.
Qed.

(** C32: A collated batch is always cut into micro batches: as many as its size takes, none
    larger than the micro batch size, each sample in one of them with its labels and its
    positions.  The lengths of the sequences are cut by another rule; they are with their
    samples exactly when the samples fill every micro batch or make only one. *)
Theorem micro_batches_cover {E} m cpu g : 0 < m → @gpu E (CPU cpu) = Ok g →
  ∃ l, @micro_batches E m (CPU cpu) = Ok l ∧ well_cut m cpu l.
Proof. apply micro_batches_run. Qed.

Lemma micro_batches_collated {E} m d l : @micro_batches E m d = Ok l → ∃ g, @gpu E d = Ok g.
Proof. unfold micro_batches. destruct (grad_accum_steps _ _); [|done..]. cbn. destruct (gpu d) as [g| |]; [by eexists|done..]. Qed.

(** What a padded batch is trained against.  With labels, the padding samples have the
    label that the loss ignores; without, they are trained as sequences of zeros. *)
Theorem padding_labels {E} w m first rest d l : let cpu := first :: rest in
  0 < w → 0 < m → zlen cpu mod w ≠ 0 → @pad E w (CPU cpu) = Ok d → @micro_batches E m d = Ok l →
  let n := Z.to_nat (w - zlen cpu mod w) in let L := Z.to_nat (zlen (input_ids first)) in
  zlen (concat ((λ b, m_rows (labels_of b)) <$> l)) mod w = 0 ∧
  (∀ rows, collect (labels <$> cpu) = Some rows → concat ((λ b, m_rows (labels_of b)) <$> l) = rows ++ replicate n (replicate L (-100))) ∧
  (labels first = None → concat ((λ b, m_rows (labels_of b)) <$> l) = (input_ids <$> cpu) ++ replicate n (replicate L 0)).
Proof.
  intros cpu Hw Hm Hr Hpad Hl n L. assert (Hd : d = CPU (cpu ++ replicate n (padding_sample first))).
  { unfold pad in Hpad. subst cpu. cbn [pad] in Hpad. rewrite (proj2 (Z.eqb_neq w 0)), (proj2 (Z.eqb_neq _ 0) Hr) in Hpad by lia. by injection Hpad. }
  pose proof (Z.mod_pos_bound (zlen cpu) w Hw). assert (Hn : (0 < n)%nat) by lia. destruct (micro_batches_collated _ _ _ Hl) as [g Hg]. rewrite Hd in Hg, Hl.
  destruct (micro_batches_run m _ g Hm Hg) as (l' & Hl' & _ & Hrows & _ & Hlab & _). rewrite Hl in Hl'. injection Hl' as <-.
  rewrite !fmap_app, !fmap_replicate in *. cbn [padding_sample input_ids labels] in *. fold L in Hrows, Hlab.
  assert (Hwith : ∀ rows, collect (labels <$> cpu) = Some rows → concat ((λ b, m_rows (labels_of b)) <$> l) = rows ++ replicate n (replicate L (-100))).
  { intros rows Hc. destruct (labels first) as [f|] eqn:Hf; [|subst cpu; cbn in Hc; rewrite Hf in Hc; by cbn in Hc]. cbn [fmap option_fmap option_map] in Hlab. rewrite collect_app, Hc, collect_replicate in Hlab. destruct Hlab as [Hcat Hsame].
    rewrite <- Hcat. f_equal. apply fmap_pointwise. pose proof (gpu_collated _ _ Hg) as [Hne Hin Hwd _ _ _].
    eapply list.Forall_impl; [exact Hsame|]. intros [[[i lab] p] q] Hb. cbn in *. destruct lab as [lab|]; [done|]. cbn in *. by destruct (m_rows i). }
  assert (Hwithout : collect (labels <$> cpu) = None → concat ((λ b, m_rows (labels_of b)) <$> l) = (input_ids <$> cpu) ++ replicate n (replicate L 0)).
  { intros Hc. rewrite collect_app, Hc in Hlab. cbn in Hlab. rewrite <- Hrows. f_equal. apply fmap_pointwise.
    eapply list.Forall_impl; [exact Hlab|]. intros [[[i lab] p] q] Hb. cbn in *. by destruct lab. }
  split_and!; [|done|].
  - assert (Htot : zlen (concat ((λ b, m_rows (labels_of b)) <$> l)) = zlen cpu + Z.of_nat n).
    { destruct (collect (labels <$> cpu)) as [rows|] eqn:Hc; [rewrite (Hwith rows) by done; apply collect_Some in Hc; unfold zlen; rewrite length_app, length_replicate, <- (length_fmap Some rows), <- Hc, length_fmap; lia|].
      rewrite Hwithout by done. unfold zlen. rewrite length_app, length_replicate, length_fmap. lia. }
    rewrite Htot. replace (zlen cpu + Z.of_nat n) with ((zlen cpu / w + 1) * w); [by apply Z.mod_mul; lia|]. pose proof (Z.div_mod (zlen cpu) w ltac:(lia)). lia.
  - intros Hnone. apply Hwithout. subst cpu. cbn. by rewrite Hnone.
Qed.

(** ** A small batch *)

Module SmallBatch.
Definition tokens_from (t : Z) : BatchDataCPU := mkCPU [t; t + 1] None None (Some [t]).
(** Nine samples in micro batches of four: three times three samples, but lengths for four,
    four and one. *)
Definition eight : list BatchDataCPU := tokens_from <$> seqZ 1 8.
Definition nine : list BatchDataCPU := tokens_from 0 :: eight.
Example nine_cut : match @micro_batches () 4 (CPU nine) with
  | Ok l => (λ b : MicroBatch, (length (m_rows b.1.1.1), length <$> b.2)) <$> l = [(3, Some 4); (3, Some 4); (3, Some 1)]%nat
  | _ => False
  end.
Proof. vm_compute. reflexivity. Qed.
End SmallBatch.

Lemma micro_batches_cover_witness : ∃ l, @micro_batches () 4 (CPU SmallBatch.nine) = Ok l ∧ well_cut 4 SmallBatch.nine l.
Proof.
  destruct (@gpu () (CPU SmallBatch.nine)) as [g|e|] eqn:Hg; [|vm_compute in Hg; discriminate..].
  exact (@micro_batches_cover () 4 SmallBatch.nine g eq_refl Hg).
Defined.

Lemma pad_then_collate_witness : (d ← pad 4 (CPU SmallBatch.nine); @gpu () d) = (g ← gpu (CPU SmallBatch.nine); pad_gpu 4 g).
Proof. apply pad_then_collate; [discriminate|]. repeat (apply Forall_cons_2; [vm_compute; reflexivity|]). apply Forall_nil_2. Defined.

Lemma padding_labels_witness : ∃ d l, @pad () 4 (CPU SmallBatch.nine) = Ok d ∧ @micro_batches () 6 d = Ok l ∧
  concat ((λ b, m_rows (labels_of b)) <$> l) = (input_ids <$> SmallBatch.nine) ++ replicate 3 [0; 0].
Proof.
  destruct (@pad () 4 (CPU SmallBatch.nine)) as [d|e|] eqn:Hd; [|vm_compute in Hd; discriminate..].
  destruct (@micro_batches () 6 d) as [l|e|] eqn:Hl; [|vm_compute in Hd; injection Hd as <-; vm_compute in Hl; discriminate..].
  exists d, l. split; [reflexivity|]. split; [exact Hl|].
  refine (eq_trans (proj2 (proj2 (@padding_labels () 4 6 (SmallBatch.tokens_from 0) SmallBatch.eight d l _ _ _ Hd Hl)) _) _); first [reflexivity|vm_compute; discriminate|vm_compute; reflexivity].
Defined.
