(* ===== verification/Schedules.v ===== *)
(** * Learning rates

    src/shared/core/src/definitions.rs, the four schedules, and [Trainer::get_lr] of
    src/shared/modeling/src/trainer.rs, which warms a cold start up.

    Rates are numbers of 64 bits, steps of 32; the differences and sums of steps wrap.  The
    cosine of the mathematical library is a parameter. *)

From stdpp Require Import base tactics numbers list.
From Stdlib Require Import SpecFloat.
From S2P Require Import Prelude CoreTypes CoordinatorState Float Float32 Float64.

Open Scope Z_scope.

(** [std::f64::consts::PI] and the cosine. *)
Definition PI : f64 := S754_finite false 7074237752028440 (-51).
Class Cosine := { cos : f64 → f64 }.
Class CosineLaws (C : Cosine) : Prop := {
  (** A finite number has a cosine between -1 and 1. *)
  cos_bounded : ∀ x, sf_finite x = true → bounded 0 (cos x);
  cos_nan : cos S754_nan = S754_nan;
  cos_infinity : ∀ s, cos (S754_infinity s) = S754_nan;
}.

(** [a as f64 / b as f64]. *)
Definition ratio (a b : Z) : f64 := f64_div (f64_of_Z a) (f64_of_Z b).
(** [from + (to - from) * progress]. *)
Definition between (from to progress : f64) : f64 := f64_add from (f64_mul (f64_sub to from) progress).

Section Schedules.
Context `{Cosine}.

Definition cosine_decay (progress : f64) : f64 :=
  f64_mul (f64_div (f64_of_Z 1) (f64_of_Z 2)) (f64_add (f64_of_Z 1) (cos (f64_mul PI progress))).

Definition constant_get_lr (l : ConstantLR) (step : Z) : f64 :=
  if step <? c_warmup_steps l then between (c_warmup_init_lr l) (c_base_lr l) (ratio step (c_warmup_steps l))
  else c_base_lr l.

Definition linear_get_lr (l : LinearLR) (step : Z) : f64 :=
  if step <? l_warmup_steps l then between (l_warmup_init_lr l) (l_base_lr l) (ratio step (l_warmup_steps l))
  else if step <? l_total_steps l then
    between (l_base_lr l) (l_final_lr l) (ratio (step - l_warmup_steps l) (as_u32 (l_total_steps l - l_warmup_steps l)))
  else l_final_lr l.

Definition cosine_get_lr (l : CosineLR) (step : Z) : f64 :=
  if step <? cos_warmup_steps l then between (cos_warmup_init_lr l) (cos_base_lr l) (ratio step (cos_warmup_steps l))
  else
    let progress := ratio (step - cos_warmup_steps l) (as_u32 (cos_total_steps l - cos_warmup_steps l)) in
    between (cos_final_lr l) (cos_base_lr l) (cosine_decay progress).

Definition wsd_get_lr {E} (l : WarmupStableDecayLR) (step : Z) : res E f64 :=
  res_assert (f64_leb (w_cosine_decay_final_lr l) (w_base_lr l));;
  res_assert (f64_leb (w_linear_decay_final_lr l) (w_cosine_decay_final_lr l));;
  let stable_end := as_u32 (w_stable_steps l + w_warmup_steps l) in
  let cosine_end := as_u32 (stable_end + w_cosine_decay_steps l) in
  let linear_end := as_u32 (cosine_end + w_linear_decay_steps l) in
  Ok (if step <? w_warmup_steps l then between (w_warmup_init_lr l) (w_base_lr l) (ratio step (w_warmup_steps l))
      else if step <? stable_end then w_base_lr l
      else if step <? cosine_end then
        let steps_into_decay := as_u32 (as_u32 (step - w_stable_steps l) - w_warmup_steps l) in
        between (w_cosine_decay_final_lr l) (w_base_lr l) (cosine_decay (ratio steps_into_decay (w_cosine_decay_steps l)))
      else if step <? linear_end then
        let steps_into_decay := as_u32 (as_u32 (as_u32 (step - w_stable_steps l) - w_warmup_steps l) - w_cosine_decay_steps l) in
        f64_sub (w_cosine_decay_final_lr l)
          (f64_mul (f64_sub (w_cosine_decay_final_lr l) (w_linear_decay_final_lr l)) (ratio steps_into_decay (w_linear_decay_steps l)))
      else w_linear_decay_final_lr l).

Definition schedule_get_lr {E} (s : LearningRateSchedule) (step : Z) : res E f64 :=
  match s with
  | LRConstant l => Ok (constant_get_lr l step)
  | LRLinear l => Ok (linear_get_lr l step)
  | LRCosine l => Ok (cosine_get_lr l step)
  | LRWarmupStableDecay l => wsd_get_lr l step
  end.
Definition get_warmup_steps (s : LearningRateSchedule) : Z :=
  match s with
  | LRConstant l => c_warmup_steps l
  | LRLinear l => l_warmup_steps l
  | LRCosine l => cos_warmup_steps l
  | LRWarmupStableDecay l => w_warmup_steps l
  end.
Definition get_warmup_init_lr (s : LearningRateSchedule) : f64 :=
  match s with
  | LRConstant l => c_warmup_init_lr l
  | LRLinear l => l_warmup_init_lr l
  | LRCosine l => cos_warmup_init_lr l
  | LRWarmupStableDecay l => w_warmup_init_lr l
  end.

(** [Trainer::get_lr]. *)
Definition trainer_get_lr {E} (lr_scheduler : LearningRateSchedule) (step : Z) (warmup_lr_between : option (Z * Z)) : res E f64 :=
  let factor :=
    match warmup_lr_between with
    | Some (start, stop) => if (start <=? step) && (step <=? stop) then ratio (step - start) (stop - start) else f64_of_Z 1
    | None => f64_of_Z 1
    end in
  lr ← schedule_get_lr lr_scheduler step;
  Ok (f64_mul lr factor).

(** ** Rates are numbers *)

(** The numbers a schedule was made of. *)
Definition rates (s : LearningRateSchedule) : list f64 :=
  match s with
  | LRConstant l => [c_base_lr l; c_warmup_init_lr l]
  | LRLinear l => [l_base_lr l; l_warmup_init_lr l; l_final_lr l]
  | LRCosine l => [cos_base_lr l; cos_warmup_init_lr l; cos_final_lr l]
  | LRWarmupStableDecay l => [w_base_lr l; w_warmup_init_lr l; w_cosine_decay_final_lr l; w_linear_decay_final_lr l]
  end.
Definition steps_of (s : LearningRateSchedule) : list Z :=
  match s with
  | LRConstant l => [c_warmup_steps l]
  | LRLinear l => [l_warmup_steps l; l_total_steps l]
  | LRCosine l => [cos_warmup_steps l; cos_total_steps l]
  | LRWarmupStableDecay l => [w_warmup_steps l; w_stable_steps l; w_cosine_decay_steps l; w_linear_decay_steps l]
  end.
(** A schedule that leaves a step for its decay, whose steps fit and whose rates descend
    where the code asserts it. *)
Definition sensible_schedule (s : LearningRateSchedule) : Prop :=
  Forall (bounded 100) (rates s) ∧ Forall (λ n, 0 <= n < 2 ^ 32) (steps_of s) ∧
  match s with
  | LRConstant _ | LRLinear _ => True
  | LRCosine l => cos_warmup_steps l < cos_total_steps l
  | LRWarmupStableDecay l => foldr Z.add 0 (steps_of s) < 2 ^ 32 ∧
      f64_leb (w_cosine_decay_final_lr l) (w_base_lr l) = true ∧ f64_leb (w_linear_decay_final_lr l) (w_cosine_decay_final_lr l) = true
  end.

Context `{!CosineLaws H}.

Lemma bounded_100 x E : bounded E x → -1074 <= E → E <= 100 → bounded 100 x.
Proof. intros Hx HE Hle. eapply bounded_mono; [exact Hx|unfold SHIFT; lia|done]. Qed.
Lemma between_bounded a b p : bounded 100 a → bounded 100 b → bounded 100 p → bounded 300 (between a b p).
Proof.
  intros Ha Hb Hp. unfold between. assert (Hm : bounded 201 (f64_mul (f64_sub b a) p)) by (apply (f64_mul_bounded 101 100); [lia|lia|by apply (f64_sub_bounded 100)|done]).
  eapply (bounded_mono 202); [|unfold SHIFT; lia|lia]. apply (f64_add_bounded 201); [lia| |done]. eapply bounded_mono; [exact Ha|unfold SHIFT; lia|lia].
Qed.
Lemma ratio_bounded a b : 0 <= a < 2 ^ 32 → 0 < b < 2 ^ 32 → bounded 100 (ratio a b).
Proof. intros. eapply bounded_100; [by apply f64_div_u32_bounded|lia|lia]. Qed.
Lemma decay_bounded p : bounded 100 p → bounded 100 (cosine_decay p).
Proof.
  intros Hp. unfold cosine_decay. assert (Hpi : bounded 2 PI) by (right; exists false, 7074237752028440%positive, (-51); split_and!; [done|lia|vm_compute; discriminate]).
  assert (Hc : bounded 0 (cos (f64_mul PI p))) by (eapply cos_bounded, bounded_finite, (f64_mul_bounded 2 100); [lia|lia|done|done]).
  eapply (bounded_100 _ 34); [|lia|lia]. apply (f64_mul_bounded 1 33); [lia|lia| |].
  - right. eexists _, _, _. split; [vm_compute; reflexivity|]. split; [lia|vm_compute; discriminate].
  - apply (f64_add_bounded 32); [lia|apply f64_of_u32_bounded; lia|]. eapply bounded_mono; [exact Hc|unfold SHIFT; lia|lia].
Qed.
Lemma rate_300 x : bounded 100 x → bounded 300 x.
Proof. intros Hx. eapply bounded_mono; [exact Hx|unfold SHIFT; lia|lia]. Qed.

Lemma step_difference a b : 0 <= b → b <= a → a < 2 ^ 32 → as_u32 (a - b) = a - b.
Proof. intros. unfold as_u32. apply Z.mod_small. lia. Qed.

Lemma schedule_bounded {E} s step : sensible_schedule s → 0 <= step < 2 ^ 32 → ∃ x, @schedule_get_lr E s step = Ok x ∧ bounded 300 x.
Proof.
  intros (Hr & Hn & Hs) Hstep. destruct s as [l|l|l|l]; cbn [schedule_get_lr rates steps_of] in *; rewrite !list.Forall_cons in Hr; rewrite !list.Forall_cons in Hn; destruct_and?.
  - eexists. split; [done|]. unfold constant_get_lr. destruct (Z.ltb_spec step (c_warmup_steps l)); [apply between_bounded; [done|done|apply ratio_bounded; lia]|by apply rate_300].
  - eexists. split; [done|]. unfold linear_get_lr. destruct (Z.ltb_spec step (l_warmup_steps l)); [apply between_bounded; [done|done|apply ratio_bounded; lia]|].
    destruct (Z.ltb_spec step (l_total_steps l)); [|by apply rate_300]. rewrite step_difference by lia. apply between_bounded; [done|done|apply ratio_bounded; lia].
  - eexists. split; [done|]. unfold cosine_get_lr. destruct (Z.ltb_spec step (cos_warmup_steps l)); [apply between_bounded; [done|done|apply ratio_bounded; lia]|].
    rewrite step_difference by lia. apply between_bounded; [done|done|apply decay_bounded, ratio_bounded; lia].
  - match goal with Hc : f64_leb (w_cosine_decay_final_lr l) _ = true, Hl : f64_leb (w_linear_decay_final_lr l) _ = true |- _ => unfold wsd_get_lr; rewrite Hc, Hl end.
    cbn [foldr] in *. cbn [mbind res_bind res_assert]. eexists. split; [done|]. set (ws := w_warmup_steps l) in *. set (ss := w_stable_steps l) in *.
    set (cs := w_cosine_decay_steps l) in *. set (ls := w_linear_decay_steps l) in *. assert (Hid : ∀ z, 0 <= z < 2 ^ 32 → as_u32 z = z) by (intros; by apply Z.mod_small).
    rewrite !(Hid (ss + ws)), !(Hid (ss + ws + cs)), (Hid (ss + ws + cs + ls)) by lia.
    destruct (Z.ltb_spec step ws); [apply between_bounded; [done|done|apply ratio_bounded; lia]|].
    destruct (Z.ltb_spec step (ss + ws)); [by apply rate_300|].
    destruct (Z.ltb_spec step (ss + ws + cs)); [rewrite !Hid by (rewrite ?Hid by lia; lia); apply between_bounded; [done|done|apply decay_bounded, ratio_bounded; lia]|].
    destruct (Z.ltb_spec step (ss + ws + cs + ls)); [|by apply rate_300]. rewrite !Hid by (rewrite ?Hid by (rewrite ?Hid by lia; lia); lia).
    eapply (bounded_mono 202); [|unfold SHIFT; lia|lia]. apply (f64_sub_bounded 201); [lia|eapply bounded_mono; [done|unfold SHIFT; lia|lia]|].
    apply (f64_mul_bounded 101 100); [lia|lia|by apply (f64_sub_bounded 100)|apply ratio_bounded; lia].
Qed.

(** C26: The learning rate of a sensible schedule is a finite number at every step, warming up
    from a cold start or not: the code never panics, divides by zero or overflows. *)
Theorem learning_rate_is_finite {E} s step warmup : sensible_schedule s → 0 <= step < 2 ^ 32 →
  (∀ start stop, warmup = Some (start, stop) → 0 <= start < stop ∧ stop < 2 ^ 32) →
  ∃ x, @trainer_get_lr E s step warmup = Ok x ∧ sf_finite x = true.
Proof.
  intros Hs Hstep Hw. destruct (@schedule_bounded E s step Hs Hstep) as (x & Hx & Hb). unfold trainer_get_lr. rewrite Hx. eexists. split; [done|].
  assert (H1 : bounded 100 (f64_of_Z 1)) by (eapply bounded_100; [by apply f64_of_u32_bounded|lia|lia]).
  eapply bounded_finite, (f64_mul_bounded 300 100); [lia|lia|done|]. destruct warmup as [[start stop]|]; [|done]. destruct (Hw start stop eq_refl).
  destruct ((start <=? step) && (step <=? stop)) eqn:Hin; [|done]. apply andb_prop in Hin as [Hge%Z.leb_le Hle%Z.leb_le]. apply ratio_bounded; lia.
Qed.

Lemma nan_spreads (x : f64) : f64_mul x S754_nan = S754_nan ∧ f64_add x S754_nan = S754_nan.
Proof. by destruct x. Qed.

(** A cosine schedule whose warm-up takes all its steps has no learning rate once the
    warm-up is over: the rate is no number, and nothing rejects the schedule. *)
Theorem cosine_without_decay_is_nan {E} l step warmup : cos_warmup_steps l = cos_total_steps l → cos_total_steps l <= step < 2 ^ 32 → 0 <= cos_total_steps l →
  @trainer_get_lr E (LRCosine l) step warmup = Ok S754_nan.
Proof.
  intros Heq Hstep Hpos. unfold trainer_get_lr. cbn [schedule_get_lr mbind res_bind]. unfold cosine_get_lr. destruct (Z.ltb_spec step (cos_warmup_steps l)); [lia|].
  rewrite Heq, Z.sub_diag. change (as_u32 0) with 0. assert (Hd : cosine_decay (ratio (step - cos_total_steps l) 0) = S754_nan).
  { unfold cosine_decay, ratio. assert (Hz : f64_div (f64_of_Z (step - cos_total_steps l)) (f64_of_Z 0) = S754_nan ∨ f64_div (f64_of_Z (step - cos_total_steps l)) (f64_of_Z 0) = S754_infinity false).
    { destruct (Z.eq_dec (step - cos_total_steps l) 0) as [->|Hne]; [by left|]. destruct (f64_of_u32 (step - cos_total_steps l) ltac:(lia)) as (m & e & -> & _). by right. }
    assert (Hc : cos (f64_mul PI (f64_div (f64_of_Z (step - cos_total_steps l)) (f64_of_Z 0))) = S754_nan) by (destruct Hz as [-> | ->]; [exact cos_nan|exact (cos_infinity false)]).
    rewrite Hc. by rewrite (proj2 (nan_spreads _)), (proj1 (nan_spreads _)). }
  unfold between. rewrite Hd, (proj1 (nan_spreads _)), (proj2 (nan_spreads _)). done.
Qed.
End Schedules.

(** ** A cosine to try it with: that of 0 everywhere *)

Module FlatCosine.
#[export] Instance cosine : Cosine := {| cos x := if sf_finite x then f64_of_Z 1 else S754_nan |}.
Lemma flat_cosine_laws : CosineLaws cosine.
Proof.
  split; [|done|done]. intros x Hx. cbn. rewrite Hx. right. eexists _, _, _. split; [vm_compute; reflexivity|]. split; [lia|vm_compute; discriminate].
Qed.
Definition rate (num den : Z) : f64 := f64_div (f64_of_Z num) (f64_of_Z den).
Definition schedule : LearningRateSchedule := LRCosine (mkCosineLR (rate 4 10000) (f64_of_Z 0) (rate 4 100000) 500 25000).
End FlatCosine.

Lemma learning_rate_is_finite_witness :
  ∃ x, @trainer_get_lr FlatCosine.cosine () FlatCosine.schedule 300 (Some (290, 310)) = Ok x ∧ sf_finite x = true.
Proof.
  apply (@learning_rate_is_finite FlatCosine.cosine FlatCosine.flat_cosine_laws); [|done|intros start stop [= <- <-]; done].
  assert (Hr : ∀ a b, 0 <= a < 2 ^ 32 → 0 < b < 2 ^ 32 → bounded 100 (FlatCosine.rate a b)) by exact ratio_bounded.
  split; [|split; [|vm_compute; reflexivity]].
  - cbn [FlatCosine.schedule rates cos_base_lr cos_warmup_init_lr cos_final_lr]. repeat apply Forall_cons_2; [apply Hr; lia|left; by eexists|apply Hr; lia|apply Forall_nil_2].
  - repeat apply Forall_cons_2; [done|done|apply Forall_nil_2].
Defined.

Lemma cosine_without_decay_is_nan_witness :
  @trainer_get_lr FlatCosine.cosine () (LRCosine (mkCosineLR (f64_of_Z 1) (f64_of_Z 0) (f64_of_Z 0) 10 10)) 11 None = Ok S754_nan.
Proof. apply (@cosine_without_decay_is_nan FlatCosine.cosine FlatCosine.flat_cosine_laws); [reflexivity|split; [discriminate|reflexivity]|discriminate]. Defined.
