(* ===== verification/Distro.v ===== *)
(** * The DisTrO optimiser

    src/shared/modeling/src/distro.rs: [TransformDCT], which moves an update to frequencies
    chunk by chunk and back, and [Distro], which keeps what of a client's gradients was not
    sent yet, sends the largest frequencies of it, and applies the results of all clients.

    libtorch is a parameter as in Compress.v, with the operations used here in class [Ops] and
    what is documented of them, for operands of one floating kind, in class [OpsLaws]; so are
    the matrices of the transform, which the code makes once with [dct] and [idct] of the
    identity ([BasisLaws]).  Variables are not sharded and devices are left out.  The statistics for the
    log and the robust aggregation that an environment variable turns on are not modelled. *)

From stdpp Require Import base tactics numbers gmap list.
From Stdlib Require Import SpecFloat.
From S2P Require Import Prelude Float StableSort Divisors Compress.

Open Scope Z_scope.

Class Ops (T : Torch) := {
  (** [dct] and [idct] of the identity of a size, in a kind. *)
  dct_basis : Z → vkind → tensor;
  idct_basis : Z → vkind → tensor;
  (** "...ij, jb -> ...ib", "...ijkl, jb, ld -> ...ikbd" and "...ijkl, kb, ld -> ...ibjd". *)
  einsum_ij_jb : tensor → tensor → option tensor;
  einsum_ijkl_jb_ld : tensor → tensor → tensor → option tensor;
  einsum_ijkl_kb_ld : tensor → tensor → tensor → option tensor;
  sign : tensor → tensor;
  add : tensor → tensor → option tensor;
  sub : tensor → tensor → option tensor;
  mul_scalar : f64 → tensor → tensor;
  (** The same in place. *)
  mul_scalar_ : f64 → tensor → option tensor;
  (** The first tensor with the values of the second. *)
  copy_ : tensor → tensor → option tensor;
  Bool : vkind;
  is_floating : vkind → bool;
  signbit : tensor → tensor;
  (** [tensor.to_kind(kind) * -2 + 1]. *)
  unpack_sign : vkind → tensor → tensor;
  #[global] vkind_eq :: EqDecision vkind;
}.

(** What an operation in place leaves: the kind, the size and the layout in memory. *)
Definition like `{Torch} (x y : tensor) : Prop := size y = size x ∧ kind y = kind x ∧ contiguous y = contiguous x.

(** The operations on tensors of one floating kind whose sizes match.  Nothing is assumed of
    operands of different kinds, nor of the layout in memory of a new tensor. *)
Class OpsLaws {T : Torch} (O : Ops T) : Prop := {
  einsum_1d : ∀ x b s i j n, is_floating (kind x) = true → kind b = kind x → size x = s ++ [i; j] → size b = [j; n] →
    ∃ y, einsum_ij_jb x b = Some y ∧ size y = s ++ [i; n] ∧ kind y = kind x;
  einsum_2d : ∀ x b d s i j k l p q, is_floating (kind x) = true → kind b = kind x → kind d = kind x →
    size x = s ++ [i; j; k; l] → size b = [j; p] → size d = [l; q] →
    ∃ y, einsum_ijkl_jb_ld x b d = Some y ∧ size y = s ++ [i; k; p; q] ∧ kind y = kind x;
  einsum_2d_t : ∀ x b d s i j k l p q, is_floating (kind x) = true → kind b = kind x → kind d = kind x →
    size x = s ++ [i; j; k; l] → size b = [k; p] → size d = [l; q] →
    ∃ y, einsum_ijkl_kb_ld x b d = Some y ∧ size y = s ++ [i; p; j; q] ∧ kind y = kind x;
  sign_like : ∀ x, is_floating (kind x) = true → size (sign x) = size x ∧ kind (sign x) = kind x;
  mul_like : ∀ a x, is_floating (kind x) = true → size (mul_scalar a x) = size x ∧ kind (mul_scalar a x) = kind x;
  mul_in_place : ∀ a x, is_floating (kind x) = true → ∃ z, mul_scalar_ a x = Some z ∧ like x z;
  add_like : ∀ x y, is_floating (kind x) = true → kind y = kind x → size y = size x → ∃ z, add x y = Some z ∧ like x z;
  sub_like : ∀ x y, is_floating (kind x) = true → kind y = kind x → size y = size x → ∃ z, sub x y = Some z ∧ like x z;
  (** Copying casts. *)
  copy_like : ∀ x y, size y = size x → ∃ z, copy_ x y = Some z ∧ like x z;
  signbit_like : ∀ x, is_floating (kind x) = true → size (signbit x) = size x ∧ kind (signbit x) = Bool;
  unpack_like : ∀ k x, is_floating k = true → size (unpack_sign k x) = size x ∧ kind (unpack_sign k x) = k;
}.

(** The matrices of the transform: [dct] and [idct] end in a view of the identity's size, and
    their result is cast to the kind. *)
Class BasisLaws {T : Torch} (O : Ops T) : Prop := {
  basis_size : ∀ n k, 1 <= n → size (dct_basis n k) = [n; n] ∧ size (idct_basis n k) = [n; n];
  basis_kind : ∀ n k, 1 <= n → kind (dct_basis n k) = k ∧ kind (idct_basis n k) = k;
}.

Section Distro.
Context {T : Torch} {O : Ops T}.

(** ** TransformDCT *)

Record TransformDCT := mkTransform { shape_dict : gmap Z Z; f_dict : gmap Z tensor; b_dict : gmap Z tensor }.

Definition add_side (target_chunk : Z) (k : vkind) (t : TransformDCT) (s : Z) : TransformDCT :=
  let '(sc, shapes) :=
    match shape_dict t !! s with
    | Some sc => (sc, shape_dict t)
    | None => let sc := get_smaller_split s target_chunk in (sc, <[s := sc]> (shape_dict t))
    end in
  match f_dict t !! sc with
  | Some _ => mkTransform shapes (f_dict t) (b_dict t)
  | None => mkTransform shapes (<[sc := dct_basis sc k]> (f_dict t)) (<[sc := idct_basis sc k]> (b_dict t))
  end.
(** [TransformDCT::new]. *)
Definition transform_new (variables : list tensor) (target_chunk : Z) : TransformDCT :=
  foldl (λ t v, foldl (add_side target_chunk (kind v)) t (size v)) (mkTransform ∅ ∅ ∅) variables.

Definition index {E A} (l : list A) (i : nat) : res E A := unwrap (l !! i).
(** [a / b]. *)
Definition divide {E} (a b : Z) : res E Z := if b =? 0 then Panic else Ok (Z.quot a b).

Definition encode {E} (t : TransformDCT) (x : tensor) : res E tensor :=
  let shape := size x in
  let ndim := length shape in
  if (1 <? ndim)%nat then
    h ← index shape (ndim - 2); w ← index shape (ndim - 1);
    n1 ← unwrap (shape_dict t !! h); n2 ← unwrap (shape_dict t !! w);
    n1w ← unwrap (f_dict t !! n1); n2w ← unwrap (f_dict t !! n2);
    y ← divide h n1; z ← divide w n2;
    x ← unwrap (view (take (ndim - 2) shape ++ [y; n1; z; n2]) x);
    unwrap (einsum_ijkl_jb_ld x n1w n2w)
  else
    s ← index shape 0;
    n1 ← unwrap (shape_dict t !! s);
    n1w ← unwrap (f_dict t !! n1);
    (** [x.view([-1, n1])]. *)
    rows ← divide (numel shape) n1;
    x ← unwrap (view [rows; n1] x);
    unwrap (einsum_ij_jb x n1w).

Definition decode {E} (t : TransformDCT) (x : tensor) : res E tensor :=
  let x_shape := size x in
  let ndim := length x_shape in
  if (2 <? ndim)%nat then
    n1 ← index x_shape (ndim - 2); n2 ← index x_shape (ndim - 1);
    n1w ← unwrap (b_dict t !! n1); n2w ← unwrap (b_dict t !! n2);
    x ← unwrap (einsum_ijkl_kb_ld x n1w n2w);
    let x_shape := size x in
    let x_ndim := length x_shape in
    (** [x_ndim - 4], of [usize]. *)
    res_assert (4 <=? x_ndim)%nat;;
    a ← index x_shape (x_ndim - 4); b ← index x_shape (x_ndim - 3);
    c ← index x_shape (x_ndim - 2); d ← index x_shape (x_ndim - 1);
    unwrap (reshape (take (x_ndim - 4) x_shape ++ [a * b; c * d]) x)
  else
    n1 ← index x_shape 1;
    n1w ← unwrap (b_dict t !! n1);
    x ← unwrap (einsum_ij_jb x n1w);
    a ← index (size x) 0; b ← index (size x) 1;
    unwrap (reshape [a * b] x).

(** ** Distro *)

Record DistroResult := mkResult { sparse_idx : itensor; sparse_val : tensor; xshape : list Z; totalk : Z }.
(** A variable of the model with its gradient, if it has one. *)
Record Var := mkVar { v_tensor : tensor; v_grad : option tensor }.
Record Distro := mkDistro {
  compression_decay : f64;
  compression_topk : Z;
  weight_decay : f64;
  (** [state]: what was not sent yet, for every variable. *)
  deltas : list tensor;
  transform : TransformDCT;
}.

Definition zeros_of (x : tensor) : tensor := zeros (size x) (kind x).
Definition zero_grad (v : Var) : Var := mkVar (v_tensor v) (zeros_of <$> v_grad v).

(** [Distro::new]; what the uninitialised deltas hold is an argument. *)
Definition distro_new (vs : list Var) (memory : list tensor) (compression_decay : f64) (compression_chunk compression_topk : Z) (weight_decay : f64) :
    Distro * list Var :=
  (mkDistro compression_decay compression_topk weight_decay memory (transform_new (v_tensor <$> vs) compression_chunk), zero_grad <$> vs).

(** The values of a result as a variable of the kind takes them. *)
Definition values_for (k : vkind) (r : DistroResult) : tensor :=
  if decide (kind (sparse_val r) = Bool) then unpack_sign k (sparse_val r) else sparse_val r.

(** The results of the clients for one variable, put together. *)
Definition put_together {E} (k : vkind) (i : nat) (results : list (list DistroResult)) : res E tensor :=
  rs ← res_fold (λ x acc, r ← index x i; Ok (acc ++ [r])) results [];
  first ← index rs 0;
  batch_decompress (sparse_idx <$> rs) (values_for k <$> rs) (xshape first) (totalk first) k.

Definition f64_zero : f64 := S754_zero false.
Definition f64_one : f64 := f64_of_Z 1.

(** The body of the loop of [generate]. *)
Definition generate_var {E} (self : Distro) (prev_self_results : list (list DistroResult)) (prev_lr lr : f64) (i : nat) (var : Var) :
    res E (Var * tensor * DistroResult) :=
  delta ← index (deltas self) i;
  variable ← unwrap (add (v_tensor var) (mul_scalar prev_lr (sign delta)));
  delta ← match prev_self_results with
          | [] => Ok delta
          | _ =>
              decompressed ← put_together (kind variable) i prev_self_results;
              transmit_grad ← decode (transform self) decompressed;
              unwrap (sub delta transmit_grad)
          end;
  variable ← (if SFeqb (weight_decay self) f64_zero then Ok variable
              else unwrap (mul_scalar_ (f64_sub f64_one (f64_mul lr (weight_decay self))) variable));
  delta ← (if SFeqb (compression_decay self) f64_one then Ok delta else unwrap (mul_scalar_ (compression_decay self) delta));
  grad ← unwrap (v_grad var);
  delta ← unwrap (add delta (mul_scalar lr grad));
  encoded ← encode (transform self) delta;
  '(idx, v, shape, tk) ← compress encoded (compression_topk self);
  Ok (mkVar variable (v_grad var), delta, mkResult idx v shape tk).

(** [for (index, var) in variables.enumerate()]. *)
Definition enumerated {E A B} (body : nat → A → res E B) (l : list A) : res E (list B) :=
  '(_, out) ← res_fold (λ x '(i, out), y ← body i x; Ok (S i, out ++ [y])) l (0%nat, []);
  Ok out.

Definition generate {E} (self : Distro) (vars : list Var) (prev_self_results : list (list DistroResult)) (prev_lr lr : f64) :
    res E (Distro * list Var * list DistroResult) :=
  out ← enumerated (generate_var self prev_self_results prev_lr lr) vars;
  Ok (mkDistro (compression_decay self) (compression_topk self) (weight_decay self) ((λ o, o.1.2) <$> out) (transform self),
      (λ o, o.1.1) <$> out, (λ o, o.2) <$> out).

(** [apply]: the gradient is the sign of what the clients sent, and the step plain SGD. *)
Definition apply_var {E} (self : Distro) (results : list (list DistroResult)) (lr : f64) (i : nat) (var : Var) : res E Var :=
  decompressed ← put_together (kind (v_tensor var)) i results;
  g ← decode (transform self) decompressed;
  old ← unwrap (v_grad var);
  copied ← unwrap (copy_ old g);
  let grad := sign copied in
  stepped ← unwrap (sub (v_tensor var) (mul_scalar lr grad));
  Ok (zero_grad (mkVar stepped (Some grad))).

Definition apply {E} (self : Distro) (vars : list Var) (results : list (list DistroResult)) (lr : f64) : res E (list Var) :=
  match results with
  | [] => Ok vars
  | _ => enumerated (apply_var self results lr) vars
  end.

Definition correct_var {E} (self : Distro) (prev_lr : f64) (i : nat) (var : Var) : res E Var :=
  delta ← index (deltas self) i;
  v ← unwrap (sub (v_tensor var) (mul_scalar prev_lr (sign delta)));
  Ok (mkVar v (v_grad var)).
Definition error_correction {E} (self : Distro) (vars : list Var) (prev_lr : f64) : res E (list Var) :=
  enumerated (correct_var self prev_lr) vars.

Definition zero_optim (self : Distro) : Distro :=
  mkDistro (compression_decay self) (compression_topk self) (weight_decay self) (zeros_of <$> deltas self) (transform self).

(** [Trainer::quantize_results]. *)
Definition quantize_results (results : list DistroResult) : list DistroResult :=
  (λ r, mkResult (sparse_idx r) (signbit (sparse_val r)) (xshape r) (totalk r)) <$> results.
End Distro.
