(* ===== verification/DistroThms.v ===== *)
(** * Shapes of the optimiser

    Whatever the shapes of a model's variables, the optimiser does not fail on them: the tables
    of the transform have what encoding and decoding ask for, results have the shape that
    every client with the same model expects, and applying them keeps the variables' shapes.
    The kinds must be floating and those the tables were made in; the tables are kept by size
    alone, so a new model must be of one kind.  Compression views an encoded update as rows,
    which libtorch refuses for some layouts in memory and einsum promises none: that is the
    one way for generating to fail. *)

From stdpp Require Import base tactics numbers gmap list.
From Stdlib Require Import SpecFloat.
From S2P Require Import Prelude Float StableSort Divisors Compress Distro.

Open Scope Z_scope.

(** A variable's shape: it has a side, no empty one, and a size that a machine word counts. *)
Definition good_shape (s : list Z) : Prop := s ≠ [] ∧ Forall (Z.le 1) s ∧ numel s <= 2 ^ 62.

Lemma shape_cases (s : list Z) : s ≠ [] → (∃ d, s = [d]) ∨ ∃ p h w, s = p ++ [h; w].
Proof.
  intros Hs. destruct s as [|w s _] using rev_ind; [done|]. destruct s as [|h s _] using rev_ind; [by left; exists w|].
  right. exists s, h, w. by rewrite <- app_assoc.
Qed.
Lemma numel_pos s : Forall (Z.le 1) s → 1 <= numel s.
Proof. unfold numel. induction 1 as [|x s Hx _ IH]; cbn; nia. Qed.
Lemma side_fits s d : good_shape s → d ∈ s → 1 <= d <= 2 ^ 62.
Proof.
  intros (_ & Hpos & Hn) Hd. apply list_elem_of_split in Hd as (a & b & ->). apply list.Forall_app in Hpos as [Ha Hb].
  apply list.Forall_cons in Hb as [Hd Hb]. rewrite numel_app in Hn. cbn in Hn. apply numel_pos in Ha, Hb. unfold numel in *. cbn in *. nia.
Qed.

(** The chunk of a side, which divides it. *)
Lemma split_divides n chunk : 1 <= n <= 2 ^ 62 → ∃ q, n = q * get_smaller_split n chunk ∧ 1 <= q ∧ 1 <= get_smaller_split n chunk ∧
  Z.quot n (get_smaller_split n chunk) = q.
Proof.
  intros Hn. destruct (split_is_greatest_divisor n chunk Hn) as (Hpos & [q Hq] & _ & _). exists q. set (r := get_smaller_split n chunk) in *.
  split_and!; [done|nia|lia|]. rewrite Hq at 1. apply Z.quot_mul. lia.
Qed.

(** The shape of an encoded update. *)
Definition chunked (chunk : Z) (s : list Z) : list Z :=
  match reverse s with
  | [] => []
  | [d] => [Z.quot d (get_smaller_split d chunk); get_smaller_split d chunk]
  | w :: h :: p => reverse p ++ [Z.quot h (get_smaller_split h chunk); Z.quot w (get_smaller_split w chunk); get_smaller_split h chunk; get_smaller_split w chunk]
  end.
Lemma chunked_1 chunk d : chunked chunk [d] = [Z.quot d (get_smaller_split d chunk); get_smaller_split d chunk].
Proof. done. Qed.
Lemma chunked_2 chunk p h w : chunked chunk (p ++ [h; w]) =
  p ++ [Z.quot h (get_smaller_split h chunk); Z.quot w (get_smaller_split w chunk); get_smaller_split h chunk; get_smaller_split w chunk].
Proof. unfold chunked. rewrite reverse_app. change (reverse [h; w]) with [w; h]. cbn [app]. by rewrite reverse_involutive. Qed.

Lemma chunked_good chunk s : good_shape s → chunked chunk s ≠ [] ∧ Forall (Z.le 0) (chunked chunk s) ∧
  1 <= List.last (flat_shape (chunked chunk s)) 0 <= 2 ^ 63.
Proof.
  intros Hg. pose proof Hg as (Hs & Hpos & Hn). destruct (shape_cases s Hs) as [[d ->]|(p & h & w & ->)].
  - rewrite chunked_1. destruct (split_divides d chunk) as (q & Hq & Hq1 & Hr & ->); [by apply (side_fits [d]); [|left]|].
    assert (Hd : d <= 2 ^ 62) by (unfold numel in Hn; cbn in Hn; lia).
    split_and!; [done|repeat constructor; lia|cbn; nia|cbn; nia].
  - rewrite chunked_2. destruct (split_divides h chunk) as (a & Ha & Ha1 & Hr1 & ->); [apply (side_fits _ h Hg), elem_of_app; right; left|].
    destruct (split_divides w chunk) as (b & Hb & Hb1 & Hr2 & ->); [apply (side_fits _ w Hg), elem_of_app; right; right; left|].
    apply list.Forall_app in Hpos as [Hp _]. pose proof (numel_pos p Hp) as Hnp. rewrite numel_app in Hn. change (numel [h; w]) with (h * (w * 1)) in Hn.
    set (n1 := get_smaller_split h chunk) in *. set (n2 := get_smaller_split w chunk) in *. split; [|split].
    + by destruct p.
    + apply list.Forall_app. split; [eapply list.Forall_impl; [exact Hp|]; cbn; lia|]. repeat constructor; lia.
    + assert (Hf : List.last (flat_shape (p ++ [a; b; n1; n2])) 0 = n1 * n2); [|rewrite Hf; assert (1 <= n1 * n2) by nia; assert (n1 * n2 <= h * w) by nia; nia].
      unfold flat_shape. rewrite (proj2 (Nat.ltb_lt _ _)) by (rewrite length_app; cbn; lia). unfold merged. rewrite last_last.
      rewrite length_app. cbn [length]. rewrite !app_nth2 by lia. replace (length p + 4 - 2 - length p)%nat with 2%nat by lia. by replace (length p + 4 - 1 - length p)%nat with 3%nat by lia.
Qed.

Section Shapes.
Context {T : Torch} {L : TorchLaws T} {O : Ops T} {OL : OpsLaws O} {BL : BasisLaws O}.
Variable chunk : Z.

(** A matrix of the transform. *)
Definition square (n : Z) (K : vkind) (f : tensor) : Prop := size f = [n; n] ∧ kind f = K.
(** The tables have what a side of a variable of the kind asks for. *)
Definition knows (t : TransformDCT) (K : vkind) (d : Z) : Prop := let n := get_smaller_split d chunk in
  shape_dict t !! d = Some n ∧ (∃ f, f_dict t !! n = Some f ∧ square n K f) ∧ (∃ b, b_dict t !! n = Some b ∧ square n K b).
(** Every table has an inverse, and what is in the tables is what the code would put there. *)
Definition tables_ok (K : vkind) (t : TransformDCT) : Prop :=
  (∀ d n, shape_dict t !! d = Some n → n = get_smaller_split d chunk ∧ knows t K d) ∧
  ∀ n f, f_dict t !! n = Some f → square n K f ∧ ∃ b, b_dict t !! n = Some b ∧ square n K b.

Lemma add_side_ok k t d : 1 <= d <= 2 ^ 62 → tables_ok k t → tables_ok k (add_side chunk k t d) ∧ knows (add_side chunk k t d) k d ∧
  ∀ d', knows t k d' → knows (add_side chunk k t d) k d'.
Proof.
  intros Hd [Hsh Hf]. destruct (split_divides d chunk Hd) as (_ & _ & _ & Hn & _). set (n := get_smaller_split d chunk) in *.
  assert (Bf : square n k (dct_basis n k)) by (by split; [apply (basis_size n k)|apply (basis_kind n k)]). assert (Bb : square n k (idct_basis n k)) by (by split; [apply (basis_size n k)|apply (basis_kind n k)]). unfold add_side.
  destruct (shape_dict t !! d) as [sc|] eqn:Hd'.
  - destruct (Hsh d sc Hd') as [-> Hk]. pose proof Hk as (_ & (f & Hfn & _) & _). fold n in Hfn |- *. rewrite Hfn. by destruct t.
  - fold n. destruct (f_dict t !! n) as [f|] eqn:Hfn.
    + assert (Hkeep : ∀ d', knows t k d' → knows (mkTransform (<[d := n]> (shape_dict t)) (f_dict t) (b_dict t)) k d').
      { intros d' (H1 & H2 & H3). split_and!; [|done|done]. cbn. rewrite lookup_insert_ne; [done|]. intros ->. congruence. }
      assert (Hnew : knows (mkTransform (<[d := n]> (shape_dict t)) (f_dict t) (b_dict t)) k d).
      { destruct (Hf n f Hfn) as [Hsf Hb]. split_and!; [apply lookup_insert_eq|by exists f|done]. }
      split_and!; [split; [|exact Hf]|done|done]. intros d' n' Hl. cbn in Hl. apply lookup_insert_Some in Hl as [[<- <-]|[Hne Hl]]; [done|].
      destruct (Hsh d' n' Hl). auto.
    + set (t' := mkTransform (<[d := n]> (shape_dict t)) (<[n := dct_basis n k]> (f_dict t)) (<[n := idct_basis n k]> (b_dict t))).
      assert (Hkeep : ∀ d', knows t k d' → knows t' k d').
      { intros d' (H1 & (f & H2 & Hs2) & (b & H3 & Hs3)). assert (n ≠ get_smaller_split d' chunk) by (intros He; rewrite He in Hfn; congruence).
        split_and!; cbn; [rewrite lookup_insert_ne; [done|]; intros ->; congruence|exists f; by rewrite lookup_insert_ne|exists b; by rewrite lookup_insert_ne]. }
      assert (Hnew : knows t' k d) by (split_and!; cbn; [apply lookup_insert_eq|exists (dct_basis n k); by rewrite lookup_insert_eq|exists (idct_basis n k); by rewrite lookup_insert_eq]).
      split_and!; [split|done|done].
      * intros d' n' Hl. cbn in Hl. apply lookup_insert_Some in Hl as [[<- <-]|[Hne Hl]]; [done|]. destruct (Hsh d' n' Hl). auto.
      * intros n' f Hl. cbn in Hl. apply lookup_insert_Some in Hl as [[<- <-]|[Hne Hl]]; [split; [done|]; exists (idct_basis n k); cbn; by rewrite lookup_insert_eq|].
        destruct (Hf n' f Hl) as [? (b & ? & ?)]. split; [done|]. exists b. cbn. by rewrite lookup_insert_ne.
Qed.

Lemma add_sides_ok k ds t : Forall (λ d, 1 <= d <= 2 ^ 62) ds → tables_ok k t → let t' := foldl (add_side chunk k) t ds in
  tables_ok k t' ∧ (∀ d, d ∈ ds → knows t' k d) ∧ ∀ d, knows t k d → knows t' k d.
Proof.
  intros Hds. revert t. induction Hds as [|d ds Hd _ IH]; intros t Ht; cbn; [split_and!; [done|by intros d Hd%elem_of_nil|done]|].
  destruct (add_side_ok k t d Hd Ht) as (Ht' & Hk & Hkeep). destruct (IH _ Ht') as (H1 & H2 & H3). split_and!; [done| |auto].
  intros d' [->|Hin]%elem_of_cons; auto.
Qed.

(** The tables made for a model of one kind know all its sides. *)
Lemma transform_knows K vs : Forall (λ v, good_shape (size v) ∧ kind v = K) vs → ∀ v, v ∈ vs → Forall (knows (transform_new vs chunk) K) (size v).
Proof.
  intros Hvs. unfold transform_new. assert (Hgo : ∀ t, tables_ok K t → let t' := foldl (λ t v, foldl (add_side chunk (kind v)) t (size v)) t vs in
    (∀ v, v ∈ vs → Forall (knows t' K) (size v)) ∧ ∀ d, knows t K d → knows t' K d).
  { induction Hvs as [|v vs [Hv HK] _ IH]; intros t Ht; cbn; [by split; [intros v Hv%elem_of_nil|]|].
    rewrite HK. destruct (add_sides_ok K (size v) t) as (Ht' & Hk & Hkeep); [apply list.Forall_forall; intros; by eapply side_fits|done|].
    destruct (IH _ Ht') as [H1 H2]. split; [|auto]. intros v' [->|Hin]%elem_of_cons; [|auto]. apply list.Forall_forall. auto. }
  intros v Hv. apply Hgo; [|done]. split; cbn; intros ? ?; by rewrite lookup_empty.
Qed.

(** A table is made in the kind of the first variable that needs its size, and every later
    variable gets it, whatever its own kind. *)
Lemma add_side_keeps k t d n f : f_dict t !! n = Some f → f_dict (add_side chunk k t d) !! n = Some f.
Proof.
  intros Hf. unfold add_side. destruct (shape_dict t !! d) as [sc|]; cbn.
  - destruct (f_dict t !! sc) eqn:Hs; cbn; [done|]. rewrite lookup_insert_ne; [done|]. congruence.
  - destruct (f_dict t !! get_smaller_split d chunk) eqn:Hs; cbn; [done|]. rewrite lookup_insert_ne; [done|]. congruence.
Qed.
Lemma transform_keeps vs t n f : f_dict t !! n = Some f →
  f_dict (foldl (λ t v, foldl (add_side chunk (kind v)) t (size v)) t vs) !! n = Some f.
Proof.
  assert (Hsides : ∀ k ds t, f_dict t !! n = Some f → f_dict (foldl (add_side chunk k) t ds) !! n = Some f).
  { intros k ds. induction ds as [|d ds IH]; intros t' Ht; cbn; [done|]. by apply IH, add_side_keeps. }
  revert t. induction vs as [|v vs IH]; intros t Ht; cbn; [done|]. by apply IH, Hsides.
Qed.
Theorem table_has_the_first_kind v d vs : size v = [d] →
  f_dict (transform_new (v :: vs) chunk) !! get_smaller_split d chunk = Some (dct_basis (get_smaller_split d chunk) (kind v)).
Proof.
  intros Hv. unfold transform_new. cbn [foldl]. apply transform_keeps. rewrite Hv. cbn [foldl]. unfold add_side. cbn. rewrite !lookup_empty. apply lookup_insert_eq.
Qed.

(** ** Encoding and decoding *)

Lemma lookup_at {A} (l q : list A) k v : q !! k = Some v → (l ++ q) !! (length l + k)%nat = Some v.
Proof. intros Hq. rewrite lookup_app_r by lia. by replace (length l + k - length l)%nat with k by lia. Qed.

Lemma encode_run {E} t x : good_shape (size x) → is_floating (kind x) = true → Forall (knows t (kind x)) (size x) → contiguous x = true →
  ∃ y, encode (E := E) t x = Ok y ∧ size y = chunked chunk (size x) ∧ kind y = kind x.
Proof.
  intros Hg Hfl Hk Hc. pose proof Hg as (Hs & Hpos & _). assert (Hside : ∀ d, d ∈ size x → ∃ q, d = q * get_smaller_split d chunk ∧ 1 <= q ∧ 1 <= get_smaller_split d chunk ∧ Z.quot d (get_smaller_split d chunk) = q)
    by (intros d Hd; apply split_divides; by eapply side_fits).
  unfold encode. destruct (shape_cases (size x) Hs) as [[d Hd]|(p & h & w & Hd)]; rewrite Hd in *.
  - destruct (Hside d ltac:(left)) as (q & Hq & Hq1 & Hr1 & Hquot). apply list.Forall_cons in Hk as [(Hsd & (f & Hf & Hsf & Hkf) & _) _].
    rewrite chunked_1, Hquot. set (n := get_smaller_split d chunk) in *. cbn [length Nat.ltb Nat.leb index lookup list_lookup unwrap mbind res_bind]. rewrite Hsd. cbn [unwrap mbind res_bind]. rewrite Hf. cbn [unwrap mbind res_bind].
    unfold divide. rewrite (proj2 (Z.eqb_neq n 0)) by lia. replace (numel [d]) with d by (unfold numel; cbn; lia). rewrite Hquot. cbn [mbind res_bind].
    destruct (view_law [q; n] x Hc) as (y & -> & Hsy & _ & _ & Hky); [repeat constructor; lia|rewrite Hd; unfold numel; cbn; lia|]. cbn [unwrap mbind res_bind].
    destruct (einsum_1d y f [] q n n) as (z & -> & Hsz & Hkz); [congruence|congruence|done|done|]. exists z. split_and!; [done|done|congruence].
  - destruct (Hside h) as (a & Ha & Ha1 & Hr1 & Hqa); [apply elem_of_app; right; left|]. destruct (Hside w) as (b & Hb & Hb1 & Hr2 & Hqb); [apply elem_of_app; right; right; left|].
    apply list.Forall_app in Hk as [_ Hk]. apply list.Forall_cons in Hk as [(Hsh & (f1 & Hf1 & Hsf1 & Hkf1) & _) Hk]. apply list.Forall_cons in Hk as [(Hsw & (f2 & Hf2 & Hsf2 & Hkf2) & _) _].
    rewrite chunked_2, Hqa, Hqb. set (n1 := get_smaller_split h chunk) in *. set (n2 := get_smaller_split w chunk) in *.
    rewrite length_app. cbn [length]. rewrite (proj2 (Nat.ltb_lt 1 _)) by lia. replace (length p + 2 - 2)%nat with (length p + 0)%nat by lia. replace (length p + 2 - 1)%nat with (length p + 1)%nat by lia.
    unfold index. rewrite (lookup_at p [h; w] 0 h), (lookup_at p [h; w] 1 w) by done. cbn [unwrap mbind res_bind]. rewrite Hsh. cbn [unwrap mbind res_bind]. rewrite Hsw. cbn [unwrap mbind res_bind]. rewrite Hf1. cbn [unwrap mbind res_bind]. rewrite Hf2. cbn [unwrap mbind res_bind].
    unfold divide. rewrite (proj2 (Z.eqb_neq n1 0)), (proj2 (Z.eqb_neq n2 0)) by lia. rewrite Hqa, Hqb. cbn [mbind res_bind]. rewrite Nat.add_0_r, take_app_length.
    destruct (view_law (p ++ [a; n1; b; n2]) x Hc) as (y & -> & Hsy & _ & _ & Hky).
    { apply list.Forall_app in Hpos as [Hp _]. apply list.Forall_app. split; [eapply list.Forall_impl; [exact Hp|]; cbn; lia|repeat constructor; lia]. }
    { rewrite Hd, !numel_app. unfold numel. cbn [foldr]. rewrite Ha, Hb. ring. }
    cbn [unwrap mbind res_bind]. destruct (einsum_2d y f1 f2 p a n1 b n2 n1 n2) as (z & -> & Hsz & Hkz); [congruence|congruence|congruence|done|done|done|]. exists z. split_and!; [done|done|congruence].
Qed.

Lemma decode_run {E} t s x : good_shape s → is_floating (kind x) = true → Forall (knows t (kind x)) s → size x = chunked chunk s →
  ∃ y, decode (E := E) t x = Ok y ∧ size y = s ∧ kind y = kind x.
Proof.
  intros Hg Hfl Hk Hsx. pose proof Hg as (Hs & Hpos & _). assert (Hside : ∀ d, d ∈ s → ∃ q, d = q * get_smaller_split d chunk ∧ 1 <= q ∧ 1 <= get_smaller_split d chunk ∧ Z.quot d (get_smaller_split d chunk) = q)
    by (intros d Hd; apply split_divides; by eapply side_fits).
  unfold decode. destruct (shape_cases s Hs) as [[d ->]|(p & h & w & ->)].
  - destruct (Hside d ltac:(left)) as (q & Hq & Hq1 & Hr1 & Hquot). apply list.Forall_cons in Hk as [(_ & _ & (f & Hf & Hsf & Hkf)) _].
    rewrite chunked_1, Hquot in Hsx. set (n := get_smaller_split d chunk) in *. rewrite Hsx. cbn [length Nat.ltb Nat.leb index lookup list_lookup unwrap mbind res_bind]. rewrite Hf. cbn [unwrap mbind res_bind].
    destruct (einsum_1d x f [] q n n Hfl Hkf Hsx Hsf) as (z & -> & Hsz & Hkz). cbn [unwrap mbind res_bind]. rewrite Hsz. cbn [app index lookup list_lookup unwrap mbind res_bind].
    destruct (reshape_law [q * n] z) as (y & -> & Hsy & _ & Hky); [repeat constructor; nia|rewrite Hsz; unfold numel; cbn; lia|]. exists y. split; [done|]. split; [|congruence]. rewrite Hsy. f_equal. lia.
  - destruct (Hside h) as (a & Ha & Ha1 & Hr1 & Hqa); [apply elem_of_app; right; left|]. destruct (Hside w) as (b & Hb & Hb1 & Hr2 & Hqb); [apply elem_of_app; right; right; left|].
    apply list.Forall_app in Hk as [_ Hk]. apply list.Forall_cons in Hk as [(_ & _ & (f1 & Hf1 & Hsf1 & Hkf1)) Hk]. apply list.Forall_cons in Hk as [(_ & _ & (f2 & Hf2 & Hsf2 & Hkf2)) _].
    rewrite chunked_2, Hqa, Hqb in Hsx. set (n1 := get_smaller_split h chunk) in *. set (n2 := get_smaller_split w chunk) in *.
    rewrite Hsx, length_app. cbn [length]. rewrite (proj2 (Nat.ltb_lt 2 _)) by lia. unfold index.
    replace (length p + 4 - 2)%nat with (length p + 2)%nat by lia. replace (length p + 4 - 1)%nat with (length p + 3)%nat by lia.
    rewrite (lookup_at p _ 2%nat n1), (lookup_at p _ 3%nat n2) by done. cbn [unwrap mbind res_bind]. rewrite Hf1. cbn [unwrap mbind res_bind]. rewrite Hf2. cbn [unwrap mbind res_bind].
    destruct (einsum_2d_t x f1 f2 p a b n1 n2 n1 n2 Hfl Hkf1 Hkf2 Hsx Hsf1 Hsf2) as (z & -> & Hsz & Hkz). cbn [unwrap mbind res_bind]. rewrite Hsz, length_app. cbn [length].
    rewrite (proj2 (Nat.leb_le 4 _)) by lia. cbn [res_assert mbind res_bind]. replace (length p + 4 - 4)%nat with (length p + 0)%nat by lia. replace (length p + 4 - 3)%nat with (length p + 1)%nat by lia.
    replace (length p + 4 - 2)%nat with (length p + 2)%nat by lia. replace (length p + 4 - 1)%nat with (length p + 3)%nat by lia.
    rewrite (lookup_at p _ 0%nat a), (lookup_at p _ 1%nat n1), (lookup_at p _ 2%nat b), (lookup_at p _ 3%nat n2) by done. cbn [unwrap mbind res_bind]. rewrite Nat.add_0_r, take_app_length.
    destruct (reshape_law (p ++ [a * n1; b * n2]) z) as (y & -> & Hsy & _ & Hky).
    { apply list.Forall_app in Hpos as [Hp _]. apply list.Forall_app. split; [eapply list.Forall_impl; [exact Hp|]; cbn; lia|repeat constructor; nia]. }
    { rewrite Hsz, !numel_app. unfold numel. cbn [foldr]. ring. }
    exists y. split; [done|]. split; [|congruence]. rewrite Hsy. f_equal. f_equal; [lia|]. f_equal. lia.
Qed.

(** ** Results *)

(** A result for a variable of a shape and a kind, its values whole or as signs. *)
Record fits (s : list Z) (K : vkind) (r : DistroResult) : Prop := {
  fit_shape : xshape r = chunked chunk s;
  fit_total : totalk r = List.last (flat_shape (chunked chunk s)) 0;
  fit_places : ∃ i d, sparse_idx r = compress_idx (totalk r) i ∧ ikind i = Int64 ∧ 0 <= d ∧ length (irows i) = row_count (flat_shape (xshape r)) ∧
    Forall (λ row, zlen row = d ∧ Forall (λ j, 0 <= j < totalk r) row) (irows i) ∧
    size (sparse_val r) = removelast (flat_shape (xshape r)) ++ [d];
  fit_kind : kind (sparse_val r) = K ∨ kind (sparse_val r) = Bool;
}.

Lemma values_fit s K r : is_floating K = true → fits s K r → size (values_for K r) = size (sparse_val r) ∧ kind (values_for K r) = K.
Proof.
  intros HK Hf. unfold values_for. destruct (decide _) as [Hb|Hb]; [by apply unpack_like|]. split; [done|]. by destruct (fit_kind _ _ _ Hf).
Qed.

(** What [compress] returns fits. *)
Lemma compress_fits {E} s k x : good_shape s → size x = chunked chunk s →
  (∃ i v sh tk, compress (E := E) x k = Ok (i, v, sh, tk) ∧ fits s (kind x) (mkResult i v sh tk) ∧ kind v = kind x) ∨ (compress (E := E) x k = Panic ∧ unmergeable x).
Proof.
  intros Hg Hsx. destruct (chunked_good chunk s Hg) as (Hne & Hpos & Hrow).
  destruct (merge_shows (E := E) x) as [(y & Hm & Hsy & Hey & Hky)|[Hm Hun]]; [left|right; split; [|done]; unfold compress; by rewrite Hm].
  destruct (compress_merged (E := E) x y k Hm Hsy Hey Hky) as (i & v & Hcomp & Hik & Hch & Hv & Hkv & Hsv); [by rewrite Hsx|by unfold row_length; rewrite Hsx|].
  unfold row_length in *. rewrite Hsx in *. do 4 eexists. split; [exact Hcomp|]. split; [|done]. split; cbn [xshape totalk sparse_idx sparse_val]; [done|done| |by left].
  exists i, (clamped (List.last (flat_shape (chunked chunk s)) 0) k). split_and!; [done|done| | | |done].
  - unfold clamped. destruct (_ <? k); [lia|]. destruct (Z.ltb_spec k 1); lia.
  - rewrite <- (Forall2_length _ _ _ Hch). unfold flat_rows. by rewrite length_cut, Hsx.
  - pose proof (chosen_range _ x i ltac:(by rewrite Hsx) Hch) as Hrange. unfold row_length in Hrange. rewrite Hsx in Hrange.
    clear -Hch Hrange. generalize dependent (irows i). intros l Hch Hrange. revert Hrange. induction Hch as [|row ix rs ixs (_ & Hl & _) _ IH]; [constructor|].
    intros [Hr Hrange]%list.Forall_cons. constructor; [done|by apply IH].
Qed.

(** The rows of a tensor are as its size says. *)
Lemma rows_of_size v q d : size v = q ++ [d] → length (rows v) = row_count (q ++ [d]) ∧ Forall (λ r, zlen r = d) (rows v).
Proof.
  intros Hv. destruct (size_elems v) as [Hpos Hlen]. rewrite Hv in *. apply list.Forall_app in Hpos as [Hq Hd]. apply list.Forall_cons in Hd as [Hd _].
  unfold rows. rewrite Hv, length_cut. split; [done|]. unfold row_count, row_size. rewrite removelast_last, last_last. rewrite numel_app in Hlen. change (numel [d]) with (d * 1) in Hlen.
  pose proof (numel_nonneg q Hq). eapply list.Forall_impl; [apply cut_rows_length|].
  - unfold zlen in Hlen. nia.
  - intros r Hr. cbn in Hr. unfold zlen. lia.
Qed.

(** The results of several clients put together. *)
Lemma batch_fits {E} s K rs : good_shape s → is_floating K = true → rs ≠ [] → Forall (fits s K) rs → let first := chunked chunk s in
  ∃ y, batch_decompress (E := E) (sparse_idx <$> rs) (values_for K <$> rs) first (List.last (flat_shape first) 0) K = Ok y ∧ size y = first ∧ kind y = K.
Proof.
  intros Hg Hfl Hne Hfit first. destruct (chunked_good chunk s Hg) as (Hfne & Hpos & Hrow). fold first in Hfne, Hpos, Hrow. set (tk := List.last (flat_shape first) 0) in *. set (m := row_count (flat_shape first)).
  assert (∃ ps : list itensor, sparse_idx <$> rs = compress_idx tk <$> ps ∧ Forall2 (λ i r, ikind i = Int64 ∧ length (irows i) = m ∧
      Forall (Forall (λ j, 0 <= j < tk)) (irows i) ∧ length (rows (values_for K r)) = m ∧ Forall2 (λ ix vs, length ix = length vs) (irows i) (rows (values_for K r))) ps rs) as (ps & Hps & Hall).
  { clear Hne. induction Hfit as [|r rs Hr _ (ps & Hps & Hall)]; [exists []; split; [done|constructor]|].
    destruct (values_fit _ _ _ Hfl Hr) as [Hsv Hkv]. destruct Hr as [Hsh Htk (i & d & Hi & Hik & Hd & Hlen & Hrows & Hsize) Hk]. fold first in Hsh, Htk. fold tk in Htk. rewrite Hsh, Htk in *. rewrite Hsize in Hsv.
    destruct (rows_of_size _ _ _ Hsv) as [Hvl Hvr]. assert (Hrc : row_count (removelast (flat_shape first) ++ [d]) = m) by (unfold row_count; by rewrite removelast_last).
    exists (i :: ps). split; [cbn; by rewrite Hi, Hps|]. constructor; [|done]. split_and!; [done|done| |by rewrite Hvl|].
    - eapply list.Forall_impl; [exact Hrows|]. by intros row [_ ?].
    - apply Forall2_same_length_lookup_2; [by rewrite Hlen, Hvl, Hrc|]. intros j a b Ha Hb. rewrite list.Forall_lookup in Hrows. rewrite list.Forall_lookup in Hvr. destruct (Hrows j a Ha) as [Hla _]. specialize (Hvr j b Hb). unfold zlen in *. cbn in Hvr. lia. }
  assert (Hpne : ps ≠ []) by (intros ->; inversion Hall; by subst).
  assert (Hirows : irows (icat_last ps) = (λ r, concat (row_of r <$> (irows <$> ps))) <$> seq 0 m).
  { rewrite icat_law by done. apply side_by_side_rows; [by destruct ps|]. apply list.Forall_fmap, list.Forall_forall. intros i Hi. apply list_elem_of_lookup in Hi as [j Hj].
    destruct (Forall2_lookup_l _ _ _ _ _ Hall Hj) as (r & _ & _ & Hl & _). done. }
  destruct (cat_law (removelast (flat_shape first)) K (values_for K <$> rs)) as [Hv HK]; [by destruct rs| | |].
  { apply list.Forall_fmap. eapply list.Forall_impl; [exact Hfit|]. intros r Hr. cbn. destruct (values_fit _ _ _ Hfl Hr) as [-> _]. destruct Hr as [Hsh _ (i & d & _ & _ & _ & _ & _ & Hsize) _]. exists d. by rewrite Hsize, Hsh. }
  { apply list.Forall_fmap. eapply list.Forall_impl; [exact Hfit|]. intros r Hr. by apply (values_fit s K r Hfl). }
  assert (Hvrows : rows (cat_last (values_for K <$> rs)) = (λ r, concat (row_of r <$> (rows <$> (values_for K <$> rs)))) <$> seq 0 m).
  { rewrite Hv. apply side_by_side_rows; [by destruct rs|]. do 2 apply list.Forall_fmap. apply list.Forall_forall. intros r Hr. apply list_elem_of_lookup in Hr as [j Hj].
    destruct (Forall2_lookup_r _ _ _ _ _ Hall Hj) as (i & _ & _ & _ & _ & Hl & _). done. }
  unfold batch_decompress. destruct (decompress_run (E := E) first tk (icat_last (sparse_idx <$> rs)) (icat_last ps) (cat_last (values_for K <$> rs))) as (y & Hy & Hsy & Hky & _); [done|done|lia| | | | |].
  - rewrite Hps. apply batch_index; [done|lia|]. apply list.Forall_forall. intros i Hi. apply list_elem_of_lookup in Hi as [j Hj]. by destruct (Forall2_lookup_l _ _ _ _ _ Hall Hj) as (r & _ & ? & _ & ? & _).
  - by rewrite Hvrows, length_fmap, length_seq.
  - rewrite Hirows, Hvrows. apply Forall2_fmap, Forall_Forall2_diag, list.Forall_forall. intros r Hr. clear -Hall. induction Hall as [|i x ps rs (_ & _ & _ & _ & Hlens) _ IH]; [done|].
    cbn [fmap list_fmap concat]. rewrite !length_app, IH. f_equal. unfold row_of. destruct (irows i !! r) as [a|] eqn:Ha.
    + destruct (Forall2_lookup_l _ _ _ _ _ Hlens Ha) as (b & -> & Hl). done.
    + apply lookup_ge_None in Ha. rewrite (Forall2_length _ _ _ Hlens) in Ha. apply lookup_ge_None in Ha. by rewrite Ha.
  - rewrite Hirows. apply list.Forall_fmap, list.Forall_forall. intros r Hr. cbn. apply Forall_concat. do 2 apply list.Forall_fmap. apply list.Forall_forall. intros i Hi. apply list_elem_of_lookup in Hi as [j Hj].
    destruct (Forall2_lookup_l _ _ _ _ _ Hall Hj) as (x & _ & _ & _ & Hrange & _). cbn. unfold row_of. destruct (irows i !! r) as [ix|] eqn:Hix; [|constructor]. cbn. by apply (Forall_lookup_1 _ _ _ _ Hrange Hix).
  - rewrite HK in Hy, Hky. by exists y.
Qed.

(** ** The operations *)

(** A loop whose body either does what it should or panics for one reason. *)
Lemma enumerated_or_panics {E A B} (f : nat → A → res E B) (P : nat → B → Prop) (Q : Prop) l :
  (∀ j a, l !! j = Some a → (∃ b, f j a = Ok b ∧ P j b) ∨ (f j a = Panic ∧ Q)) →
  (∃ bs, enumerated f l = Ok bs ∧ length bs = length l ∧ ∀ j b, bs !! j = Some b → P j b) ∨ (enumerated f l = Panic ∧ Q).
Proof.
  intros Hl. set (body := λ x '(i, out), y ← f i x; Ok (S i, out ++ [y])).
  assert (Hgo : ∀ k i acc, (∀ j a, k !! j = Some a → (∃ b, f (i + j)%nat a = Ok b ∧ P (i + j)%nat b) ∨ (f (i + j)%nat a = Panic ∧ Q)) →
    (∃ bs, res_fold body k (i, acc) = Ok ((i + length k)%nat, acc ++ bs) ∧ length bs = length k ∧ ∀ j b, bs !! j = Some b → P (i + j)%nat b) ∨
    (res_fold body k (i, acc) = Panic ∧ Q)).
  { induction k as [|a k IH]; intros i acc Hk; cbn [res_fold].
    - left. exists []. rewrite app_nil_r. split_and!; [by rewrite Nat.add_0_r|done|done].
    - change (body a (i, acc)) with (y ← f i a; Ok (S i, acc ++ [y])).
      destruct (Hk 0%nat a eq_refl) as [(b & Hb & HP)|[Hb HQ]]; rewrite Nat.add_0_r in Hb; rewrite Hb; cbn [mbind res_bind]; [|by right].
      rewrite Nat.add_0_r in HP.
      destruct (IH (S i) (acc ++ [b])) as [(bs & -> & Hlen & Hbs)|Hp]; [intros j a' Hj; replace (S i + j)%nat with (i + S j)%nat by lia; by apply Hk| |by right].
      left. exists (b :: bs). rewrite <- app_assoc. split_and!; [cbn; do 2 f_equal; lia|cbn; lia|]. intros [|j] b' Hj; cbn in Hj; [injection Hj as <-; by rewrite Nat.add_0_r|].
      specialize (Hbs j b' Hj). by replace (i + S j)%nat with (S i + j)%nat by lia. }
  unfold enumerated. fold body. destruct (Hgo l 0%nat [] Hl) as [(bs & -> & Hlen & Hbs)|[-> HQ]]; [left; by exists bs|by right].
Qed.
Lemma enumerated_run {E A B} (f : nat → A → res E B) (P : nat → B → Prop) l :
  (∀ j a, l !! j = Some a → ∃ b, f j a = Ok b ∧ P j b) →
  ∃ bs, enumerated f l = Ok bs ∧ length bs = length l ∧ ∀ j b, bs !! j = Some b → P j b.
Proof. intros Hl. destruct (enumerated_or_panics f P False l) as [?|[_ []]]; [|done]. intros j a Hj. left. eauto. Qed.

(** A model of variables of given shapes and kinds, and its optimiser. *)
Notation spec := (list Z * vkind)%type (only parsing).
Definition var_ok (σ : spec) (v : Var) : Prop :=
  size (v_tensor v) = σ.1 ∧ kind (v_tensor v) = σ.2 ∧ ∃ g, v_grad v = Some g ∧ size g = σ.1 ∧ kind g = σ.2.
Definition delta_ok (σ : spec) (d : tensor) : Prop := size d = σ.1 ∧ kind d = σ.2 ∧ contiguous d = true.
Record ready (σs : list spec) (self : Distro) (vars : list Var) : Prop := {
  ready_vars : Forall2 var_ok σs vars;
  ready_deltas : Forall2 delta_ok σs (deltas self);
  ready_tables : Forall (λ σ, good_shape σ.1 ∧ is_floating σ.2 = true ∧ Forall (knows (transform self) σ.2) σ.1) σs;
}.
(** An update of a variable that is encoded to a tensor whose memory does not let the chunks
    be seen as rows. *)
Definition unmergeable_update {E} (σs : list spec) (self : Distro) : Prop :=
  ∃ σ x y, σ ∈ σs ∧ delta_ok σ x ∧ encode (E := E) (transform self) x = Ok y ∧ unmergeable y.
(** A result with its values whole. *)
Definition whole (σ : spec) (r : DistroResult) : Prop := fits σ.1 σ.2 r ∧ kind (sparse_val r) = σ.2.
Definition results_fit (σs : list spec) : list DistroResult → Prop := Forall2 (λ σ r, fits σ.1 σ.2 r) σs.

Lemma put_together_run {E} σs σ i results : results ≠ [] → Forall (results_fit σs) results → σs !! i = Some σ → good_shape σ.1 → is_floating σ.2 = true →
  ∃ y, put_together (E := E) σ.2 i results = Ok y ∧ size y = chunked chunk σ.1 ∧ kind y = σ.2.
Proof.
  intros Hne Hfit Hi Hg Hfl. unfold put_together. assert (Hfold : ∀ acc, ∃ rs, res_fold (λ x acc, r ← index x i; Ok (acc ++ [r])) results acc = Ok (E := E) (acc ++ rs) ∧
    length rs = length results ∧ Forall (fits σ.1 σ.2) rs).
  { clear Hne. induction Hfit as [|x results Hx _ IH]; intros acc; cbn [res_fold]; [exists []; by rewrite app_nil_r|].
    destruct (Forall2_lookup_l _ _ _ _ _ Hx Hi) as (r & Hr & Hf). assert (Hx' : index (E := E) x i = Ok r) by (unfold index; by rewrite Hr). cbn beta. rewrite Hx'. cbn [mbind res_bind].
    destruct (IH (acc ++ [r])) as (rs & -> & Hlen & Hrs). exists (r :: rs). rewrite <- app_assoc. split_and!; [done|cbn; lia|by constructor]. }
  destruct (Hfold []) as (rs & -> & Hlen & Hrs). cbn [app mbind res_bind]. destruct rs as [|first rs]; [destruct results; [done|cbn in Hlen; lia]|]. cbn [index lookup list_lookup unwrap mbind res_bind].
  pose proof Hrs as [[Hsh Htk _ _] _]%list.Forall_cons. rewrite Hsh, Htk.
  destruct (batch_fits (E := E) σ.1 σ.2 (first :: rs) Hg Hfl ltac:(done) Hrs) as (y & Hy & Hsy & Hky). by exists y.
Qed.

(** What was not sent yet, less what was. *)
Lemma unsent_run {E} σs σ self vars prev i d : ready σs self vars → Forall (results_fit σs) prev → σs !! i = Some σ → delta_ok σ d →
  ∃ d1, match prev with [] => Ok d | _ => decompressed ← put_together (E := E) σ.2 i prev; transmit_grad ← decode (transform self) decompressed; unwrap (sub d transmit_grad) end = Ok d1 ∧ delta_ok σ d1.
Proof.
  intros [_ _ Htab] Hprev Hi (Hsd & Hkd & Hcd). destruct (Forall_lookup_1 _ _ _ _ Htab Hi) as (Hgood & Hfl & Hknow). destruct prev as [|x prev]; [by exists d|].
  destruct (put_together_run (E := E) σs σ i (x :: prev)) as (y & -> & Hsy & Hky); [done..|]. cbn [mbind res_bind].
  destruct (decode_run (E := E) (transform self) σ.1 y Hgood ltac:(by rewrite Hky) ltac:(by rewrite Hky) Hsy) as (z & -> & Hsz & Hkz). cbn [mbind res_bind].
  destruct (sub_like d z) as (d1 & -> & H1 & H2 & H3); [congruence..|]. exists d1. split; [done|]. split_and!; congruence.
Qed.
(** A decay in place, unless it decays nothing. *)
Lemma decay_run {E} (skip : bool) a x : is_floating (kind x) = true →
  ∃ y, (if skip then Ok x else unwrap (mul_scalar_ a x)) = Ok (E := E) y ∧ like x y.
Proof. intros Hfl. destruct skip; [by exists x|]. destruct (mul_in_place a x Hfl) as (z & -> & ?). by exists z. Qed.
(** The sign of an update, scaled, fits the variable. *)
Lemma signed_like a x : is_floating (kind x) = true → size (mul_scalar a (sign x)) = size x ∧ kind (mul_scalar a (sign x)) = kind x.
Proof. intros Hfl. destruct (sign_like x Hfl) as [Hs Hk]. destruct (mul_like a (sign x)) as [Hs' Hk']; [congruence|]. split; congruence. Qed.

Lemma generate_var_run {E} σs σ self vars prev prev_lr lr i var : ready σs self vars → Forall (results_fit σs) prev → σs !! i = Some σ → var_ok σ var →
  (∃ o, generate_var (E := E) self prev prev_lr lr i var = Ok o ∧ var_ok σ o.1.1 ∧ delta_ok σ o.1.2 ∧ whole σ o.2) ∨
  (generate_var (E := E) self prev prev_lr lr i var = Panic ∧ unmergeable_update (E := E) σs self).
Proof.
  intros Hr Hprev Hi (Hsv & Hkv & g & Hg & Hsg & Hkg). pose proof Hr as [_ Hds Htab]. destruct (Forall_lookup_1 _ _ _ _ Htab Hi) as (Hgood & Hfl & Hknow).
  destruct (Forall2_lookup_l _ _ _ _ _ Hds Hi) as (d & Hd & Hdok). pose proof Hdok as (Hsd & Hkd & Hcd). unfold generate_var, index. rewrite Hd. cbn [unwrap mbind res_bind].
  destruct (signed_like prev_lr d) as (Hsm & Hkm); [congruence|].
  destruct (add_like (v_tensor var) (mul_scalar prev_lr (sign d))) as (v & -> & Hlv & Hkv' & _); [congruence..|]. cbn [unwrap mbind res_bind].
  rewrite Hkv', Hkv. destruct (unsent_run (E := E) σs σ self vars prev i d Hr Hprev Hi Hdok) as (d1 & -> & Hs1 & Hk1 & Hc1). cbn [mbind res_bind].
  destruct (decay_run (E := E) (SFeqb (weight_decay self) f64_zero) (f64_sub f64_one (f64_mul lr (weight_decay self))) v) as (v' & -> & Hsv' & Hkv'' & _); [congruence|]. cbn [mbind res_bind].
  destruct (decay_run (E := E) (SFeqb (compression_decay self) f64_one) (compression_decay self) d1) as (d2 & -> & Hs2 & Hk2 & Hc2); [congruence|]. cbn [mbind res_bind].
  rewrite Hg. cbn [unwrap mbind res_bind]. destruct (mul_like lr g) as (Hsmg & Hkmg); [congruence|].
  destruct (add_like d2 (mul_scalar lr g)) as (d3 & -> & H31 & H32 & H33); [congruence..|]. cbn [unwrap mbind res_bind].
  assert (Hd3 : delta_ok σ d3) by (split_and!; congruence). pose proof Hd3 as (Hs3 & Hk3 & Hc3).
  destruct (encode_run (E := E) (transform self) d3) as (e & Henc & Hse & Hke); [by rewrite Hs3|by rewrite Hk3|by rewrite Hs3, Hk3|done|]. rewrite Henc. cbn [mbind res_bind].
  destruct (compress_fits (E := E) σ.1 (compression_topk self) e Hgood) as [(ix & vv & sh & tk & -> & Hfit & Hkvv)|[-> Hun]]; [congruence| |]; cbn [mbind res_bind].
  - left. eexists. split; [done|]. cbn [fst snd]. split; [split; [cbn; congruence|split; [cbn; congruence|by exists g]]|split; [done|]]. rewrite Hke, Hk3 in Hfit. by split; [|cbn; congruence].
  - right. split; [done|]. exists σ, d3, e. split_and!; try done. by eapply list_elem_of_lookup_2.
Qed.

Lemma zeros_of_size x : size (zeros_of x) = size x ∧ kind (zeros_of x) = kind x ∧ contiguous (zeros_of x) = true.
Proof. unfold zeros_of. destruct (size_elems x) as [Hpos _]. by destruct (zeros_law (size x) (kind x) Hpos) as (? & _ & ? & ?). Qed.

Lemma zeroed_var_ok σ v : var_ok σ v → var_ok σ (zero_grad v).
Proof.
  intros (? & ? & g & Hg & Hsg & Hkg). unfold zero_grad. split_and!; cbn; [done|done|]. rewrite Hg. eexists. split; [done|]. by destruct (zeros_of_size g) as (-> & -> & _).
Qed.

Lemma apply_var_run {E} σs σ self vars results lr i var : ready σs self vars → results ≠ [] → Forall (results_fit σs) results → σs !! i = Some σ → var_ok σ var →
  ∃ v, apply_var (E := E) self results lr i var = Ok v ∧ var_ok σ v.
Proof.
  intros [_ _ Htab] Hne Hfit Hi (Hsv & Hkv & g & Hg & Hsg & Hkg). destruct (Forall_lookup_1 _ _ _ _ Htab Hi) as (Hgood & Hfl & Hknow). unfold apply_var. rewrite Hkv.
  destruct (put_together_run (E := E) σs σ i results Hne Hfit Hi Hgood Hfl) as (y & -> & Hsy & Hky). cbn [mbind res_bind].
  destruct (decode_run (E := E) (transform self) σ.1 y Hgood ltac:(by rewrite Hky) ltac:(by rewrite Hky) Hsy) as (z & -> & Hsz & _). cbn [mbind res_bind]. rewrite Hg. cbn [unwrap mbind res_bind].
  destruct (copy_like g z) as (c & -> & Hsc & Hkc & _); [congruence|]. cbn [unwrap mbind res_bind]. destruct (sign_like c) as (Hss & Hks); [congruence|]. destruct (signed_like lr c) as (Hsm & Hkm); [congruence|].
  destruct (sub_like (v_tensor var) (mul_scalar lr (sign c))) as (w & -> & Hsw & Hkw & _); [congruence..|]. cbn [unwrap mbind res_bind]. eexists. split; [done|].
  unfold var_ok, zero_grad. cbn. split_and!; [congruence|congruence|]. eexists. split; [done|]. destruct (zeros_of_size (sign c)) as (-> & -> & _). split; congruence.
Qed.

Lemma lookup_both {A B} (R : A → B → Prop) l k : length l = length k → (∀ j a b, l !! j = Some a → k !! j = Some b → R a b) → Forall2 R l k.
Proof. apply Forall2_same_length_lookup_2. Qed.

Lemma quantized_fit s K r : is_floating K = true → kind (sparse_val r) = K → fits s K r → fits s K (mkResult (sparse_idx r) (signbit (sparse_val r)) (xshape r) (totalk r)).
Proof.
  intros Hfl HK [Hsh Htk (i & d & Hi & Hk & Hd & Hl & Hr & Hs) _]. destruct (signbit_like (sparse_val r)) as [Hss Hsk]; [congruence|]. split; cbn; [done|done| |by right].
  exists i, d. split_and!; try done. congruence.
Qed.

Lemma whole_fit σs rs : Forall (λ σ, is_floating σ.2 = true) σs → Forall2 whole σs rs → results_fit σs rs ∧ results_fit σs (quantize_results rs).
Proof.
  intros Hfl Hrs. split.
  - eapply Forall2_impl; [exact Hrs|]. by intros σ r [? _].
  - apply Forall2_fmap_r. revert Hfl. induction Hrs as [|σ r σs rs [Hf HK] _ IH]; intros Hfl; [constructor|]. apply list.Forall_cons in Hfl as [Hσ Hfl].
    constructor; [by apply quantized_fit|by apply IH].
Qed.

Lemma generate_run {E} σs self vars prev prev_lr lr : ready σs self vars → Forall (results_fit σs) prev →
  (∃ self' vars' rs, generate (E := E) self vars prev prev_lr lr = Ok (self', vars', rs) ∧ ready σs self' vars' ∧ results_fit σs rs ∧ results_fit σs (quantize_results rs)) ∨
  (generate (E := E) self vars prev prev_lr lr = Panic ∧ unmergeable_update (E := E) σs self).
Proof.
  intros Hr Hprev. pose proof Hr as [Hvars Hds Htab]. unfold generate.
  destruct (enumerated_or_panics (generate_var (E := E) self prev prev_lr lr) (λ i o, ∀ σ, σs !! i = Some σ → var_ok σ o.1.1 ∧ delta_ok σ o.1.2 ∧ whole σ o.2)
    (unmergeable_update (E := E) σs self) vars) as [(out & -> & Hlen & Hout)|[-> Hun]]; [| |by right].
  { intros j v Hj. destruct (Forall2_lookup_r _ _ _ _ _ Hvars Hj) as (σ & Hσ & Hv). destruct (generate_var_run (E := E) σs σ self vars prev prev_lr lr j v Hr Hprev Hσ Hv) as [(o & Ho & ?)|?]; [left|by right].
    exists o. split; [done|]. intros σ' Hσ'. rewrite Hσ in Hσ'. by injection Hσ' as <-. }
  left. pose proof (Forall2_length _ _ _ Hvars) as Hl. cbn [mbind res_bind]. do 3 eexists. split; [done|].
  assert (Hall : ∀ {A} (f : _ → A) (P : spec → A → Prop), (∀ j o σ, out !! j = Some o → σs !! j = Some σ → P σ (f o)) → Forall2 P σs (f <$> out)).
  { intros A f P Hf. apply Forall2_fmap_r, lookup_both; [lia|]. intros j σ o Hσ Ho. by eapply Hf. }
  split; [split; cbn; [| |done]; apply Hall; intros j o σ Ho Hσ; by apply (Hout j o Ho σ Hσ)|]. apply whole_fit.
  - eapply list.Forall_impl; [exact Htab|]. by intros σ (_ & ? & _).
  - apply Hall. intros j o σ Ho Hσ. by apply (Hout j o Ho σ Hσ).
Qed.

(** Variables changed one by one. *)
Lemma vars_run {E} σs self vars (f : nat → Var → res E Var) : ready σs self vars →
  (∀ i σ v, σs !! i = Some σ → var_ok σ v → ∃ v', f i v = Ok v' ∧ var_ok σ v') →
  ∃ vars', enumerated f vars = Ok vars' ∧ ready σs self vars'.
Proof.
  intros [Hvars Hds Htab] Hf. destruct (enumerated_run f (λ i v, ∀ σ, σs !! i = Some σ → var_ok σ v) vars) as (out & -> & Hlen & Hout).
  { intros j v Hj. destruct (Forall2_lookup_r _ _ _ _ _ Hvars Hj) as (σ & Hσ & Hv). destruct (Hf j σ v Hσ Hv) as (v' & ? & ?).
    exists v'. split; [done|]. intros σ' Hσ'. rewrite Hσ in Hσ'. by injection Hσ' as <-. }
  exists out. split; [done|]. split; [|done|done]. pose proof (Forall2_length _ _ _ Hvars). apply lookup_both; [lia|]. intros j σ o Hσ Ho. by apply (Hout j o Ho σ Hσ).
Qed.

(** The optimiser of a new model whose variables are of one floating kind. *)
Lemma distro_new_ready K σs vs memory cd topk wd : is_floating K = true → Forall (λ σ, good_shape σ.1 ∧ σ.2 = K) σs →
  Forall2 var_ok σs vs → Forall2 delta_ok σs memory →
  let '(self, vs') := distro_new vs memory cd chunk topk wd in ready σs self vs'.
Proof.
  intros HK Hgood Hvs Hmem. split; cbn.
  - apply Forall2_fmap_r. eapply Forall2_impl; [exact Hvs|]. apply zeroed_var_ok.
  - done.
  - assert (Hshapes : Forall (λ v, good_shape (size v) ∧ kind v = K) (v_tensor <$> vs)).
    { apply list.Forall_fmap, list.Forall_forall. intros v Hv. apply list_elem_of_lookup in Hv as [j Hj]. destruct (Forall2_lookup_r _ _ _ _ _ Hvs Hj) as (σ & Hσ & Hs & Hk & _). cbn. rewrite Hs, Hk.
      by apply (Forall_lookup_1 _ _ _ _ Hgood Hσ). }
    apply list.Forall_forall. intros σ Hσ. apply list_elem_of_lookup in Hσ as [j Hj]. destruct (Forall_lookup_1 _ _ _ _ Hgood Hj) as [Hg ->]. split_and!; [done|done|].
    destruct (Forall2_lookup_l _ _ _ _ _ Hvs Hj) as (v & Hv & Hs & _). rewrite <- Hs. apply transform_knows; [done|]. apply list_elem_of_fmap_2. by eapply list_elem_of_lookup_2.
Qed.

Lemma error_correction_run {E} σs self vars prev_lr : ready σs self vars → ∃ vars', error_correction (E := E) self vars prev_lr = Ok vars' ∧ ready σs self vars'.
Proof.
  intros Hr. pose proof Hr as [Hvars Hds Htab]. apply vars_run; [done|]. intros i σ v Hσ (Hs & Hk & Hg). destruct (Forall2_lookup_l _ _ _ _ _ Hds Hσ) as (d & Hd & Hsd & Hkd & _).
  destruct (Forall_lookup_1 _ _ _ _ Htab Hσ) as (_ & Hfl & _). unfold correct_var, index. rewrite Hd. cbn [unwrap mbind res_bind]. destruct (signed_like prev_lr d) as (Hsm & Hkm); [congruence|].
  destruct (sub_like (v_tensor v) (mul_scalar prev_lr (sign d))) as (w & -> & Hsw & Hkw & _); [congruence..|]. cbn [unwrap mbind res_bind]. eexists. split; [done|]. split_and!; cbn; [congruence|congruence|done].
Qed.
Lemma zero_optim_ready σs self vars : ready σs self vars → ready σs (zero_optim self) vars.
Proof.
  intros [Hvars Hds Htab]. split; [done| |done]. cbn. apply Forall2_fmap_r. eapply Forall2_impl; [exact Hds|]. intros σ d (? & ? & ?). destruct (zeros_of_size d) as (? & ? & ?). split_and!; congruence.
Qed.
Lemma apply_run {E} σs self vars results lr : ready σs self vars → Forall (results_fit σs) results → ∃ vars', apply (E := E) self vars results lr = Ok vars' ∧ ready σs self vars'.
Proof.
  intros Hr Hfit. unfold apply. destruct results as [|x results]; [by exists vars|]. apply vars_run; [done|]. intros i σ v Hσ Hv. by eapply apply_var_run.
Qed.

End Shapes.

(** ** A small model *)

(** Tensors of integers as before, a transform that leaves the numbers where they are. *)
Module SmallModel.
Definition spread (x : list Z * list Z) (s : list Z) : option (list Z * list Z) := Some (s, Small.telems x).
Definition e1 (x b : list Z * list Z) : option (list Z * list Z) :=
  match reverse (Small.tsize x), Small.tsize b with _ :: i :: p, [_; n] => spread x (reverse p ++ [i; n]) | _, _ => None end.
Definition e2 (x b d : list Z * list Z) : option (list Z * list Z) :=
  match reverse (Small.tsize x), Small.tsize b, Small.tsize d with
  | _ :: k :: _ :: i :: p, [_; n], [_; m] => spread x (reverse p ++ [i; k; n; m])
  | _, _, _ => None
  end.
Definition e2t (x b d : list Z * list Z) : option (list Z * list Z) :=
  match reverse (Small.tsize x), Small.tsize b, Small.tsize d with
  | _ :: _ :: j :: i :: p, [_; n], [_; m] => spread x (reverse p ++ [i; n; j; m])
  | _, _, _ => None
  end.
Definition together (f : Z → Z → Z) (x y : list Z * list Z) : option (list Z * list Z) :=
  if bool_decide (Small.tsize y = Small.tsize x) then Some (Small.tsize x, zip_with f (Small.telems x) (Small.telems y)) else None.
Definition each (f : Z → Z) (x : list Z * list Z) : list Z * list Z := (Small.tsize x, f <$> Small.telems x).
Definition basis (n : Z) : list Z * list Z := ([n; n], []).
Definition scaled (a : f64) : list Z * list Z → list Z * list Z := each (λ z, if SFeqb a (S754_zero false) then 0 else z).
#[export] Instance ops : Ops Small.torch := Build_Ops Small.torch
  (λ n _, basis n) (λ n _, basis n) e1 e2 e2t (each Z.sgn) (together Z.add) (together Z.sub)
  scaled (λ a x, Some (scaled a x)) (together (λ _ b, b)) tt (λ _, true)
  (each (λ z, if z <? 0 then 1 else 0)) (λ _, each (λ z, z * -2 + 1)) unit_eq_dec.

Lemma tsize_again x : Small.tsize (Small.tsize x, []) = Small.tsize x.
Proof. apply Small.tsize_id, Small.tsize_nonneg. Qed.
Lemma each_like f x : @like Small.torch x (each f x).
Proof. split_and!; [|done|done]. apply (Small.tsize_id (Small.tsize x)), Small.tsize_nonneg. Qed.
Lemma together_like f x y : Small.tsize y = Small.tsize x → ∃ z, together f x y = Some z ∧ @like Small.torch x z.
Proof.
  intros He. unfold together. rewrite bool_decide_true by done. eexists. split; [done|]. split_and!; [|done|done]. apply (Small.tsize_id (Small.tsize x)), Small.tsize_nonneg.
Qed.
Lemma spread_size x s : Forall (Z.le 0) s → ∃ y, spread x s = Some y ∧ Small.tsize y = s ∧ tt = tt.
Proof. intros Hs. eexists. split; [done|]. split; [by apply Small.tsize_id|done]. Qed.

Lemma small_basis_laws : @BasisLaws Small.torch ops.
Proof. split; intros n [] Hn; [|done]. split; apply (Small.tsize_id [n; n]); repeat constructor; lia. Qed.
Lemma small_ops_laws : @OpsLaws Small.torch ops.
Proof.
  split.
  - intros x b s i j n _ _ Hx Hb. change (Small.tsize x = s ++ [i; j]) in Hx. change (Small.tsize b = [j; n]) in Hb.
    pose proof (Small.tsize_nonneg x) as Px. pose proof (Small.tsize_nonneg b) as Pb. change (@einsum_ij_jb Small.torch ops x b) with (e1 x b). unfold e1. rewrite Hx, Hb in *.
    rewrite reverse_app. change (reverse [i; j]) with [j; i]. cbn [app]. rewrite reverse_involutive. apply list.Forall_app in Px as [Ps Px].
    apply (spread_size x (s ++ [i; n])). apply list.Forall_app. split; [done|]. rewrite !list.Forall_cons in *. tauto.
  - intros x b d s i j k l p q _ _ _ Hx Hb Hd. change (Small.tsize x = s ++ [i; j; k; l]) in Hx. change (Small.tsize b = [j; p]) in Hb. change (Small.tsize d = [l; q]) in Hd.
    pose proof (Small.tsize_nonneg x) as Px. pose proof (Small.tsize_nonneg b) as Pb. pose proof (Small.tsize_nonneg d) as Pd. change (@einsum_ijkl_jb_ld Small.torch ops x b d) with (e2 x b d). unfold e2. rewrite Hx, Hb, Hd in *.
    rewrite reverse_app. change (reverse [i; j; k; l]) with [l; k; j; i]. cbn [app]. rewrite reverse_involutive. apply list.Forall_app in Px as [Ps Px].
    apply (spread_size x (s ++ [i; k; p; q])). apply list.Forall_app. split; [done|]. rewrite !list.Forall_cons in *. tauto.
  - intros x b d s i j k l p q _ _ _ Hx Hb Hd. change (Small.tsize x = s ++ [i; j; k; l]) in Hx. change (Small.tsize b = [k; p]) in Hb. change (Small.tsize d = [l; q]) in Hd.
    pose proof (Small.tsize_nonneg x) as Px. pose proof (Small.tsize_nonneg b) as Pb. pose proof (Small.tsize_nonneg d) as Pd. change (@einsum_ijkl_kb_ld Small.torch ops x b d) with (e2t x b d). unfold e2t. rewrite Hx, Hb, Hd in *.
    rewrite reverse_app. change (reverse [i; j; k; l]) with [l; k; j; i]. cbn [app]. rewrite reverse_involutive. apply list.Forall_app in Px as [Ps Px].
    apply (spread_size x (s ++ [i; p; j; q])). apply list.Forall_app. split; [done|]. rewrite !list.Forall_cons in *. tauto.
  - intros x _. split; [|done]. apply (each_like _ x).
  - intros a x _. split; [|done]. apply (each_like _ x).
  - intros a x _. eexists. split; [done|]. apply each_like.
  - intros x y _ _. apply together_like.
  - intros x y _ _. apply together_like.
  - intros x y. apply together_like.
  - intros x _. split; [|done]. apply (each_like _ x).
  - intros [] x _. split; [|done]. apply (each_like _ x).
Qed.

(** A matrix of four by six and a vector of five. *)
Definition var (s : list Z) : @Var Small.torch := @mkVar Small.torch (s, []) (Some (s, [1; -2; 3; -4; 5])).
Definition vars : list (@Var Small.torch) := [var [4; 6]; var [5]].
Definition specs : list (list Z * @vkind Small.torch) := [([4; 6], tt); ([5], tt)].
Definition made := @distro_new Small.torch ops vars [([4; 6], []); ([5], [])] (f64_of_Z 1) 3 2 (S754_zero false).
Lemma specs_good : Forall (λ σ, good_shape σ.1 ∧ σ.2 = tt) specs.
Proof. repeat constructor; try done; vm_compute; discriminate. Qed.
Lemma vars_ok : Forall2 (@var_ok Small.torch) specs vars.
Proof. constructor; [|constructor; [|constructor]]; (split_and!; [reflexivity|reflexivity|by eexists]). Qed.
Lemma memory_ok : Forall2 (@delta_ok Small.torch) specs [([4; 6], []); ([5], [])].
Proof. constructor; [|constructor; [|constructor]]; by split_and!. Qed.
Lemma made_ready : @ready Small.torch ops 3 specs made.1 made.2.
Proof. exact (@distro_new_ready Small.torch Small.small_torch_laws ops small_basis_laws 3 tt specs vars _ _ _ _ eq_refl specs_good vars_ok memory_ok). Qed.
End SmallModel.
Import SmallModel.

