(* ===== verification/Trainer.v ===== *)
(** * The trainer

    src/shared/modeling/src/trainer.rs and fp32_gradient_accumulator.rs: the thread that
    trains a model on a batch and applies results to it, and the trainer that spreads its
    work over several such threads.

    The neural network, of which the repository has several, is a parameter (class [Network]):
    its forward pass and libtorch's backward pass, which may panic or, the forward pass, yield
    no loss, the clipping of gradients, and the step of AdamW.  Of a pass that succeeds only
    that it keeps the sizes and kinds of the variables and their gradients is assumed.  What the thread
    meets - a cancellation at some micro batch, a barrier that another thread cancelled, the
    mean of the gradients over data-parallel ranks - is an argument.  A thread that logs an
    error and returns has no result; a panic ends it too.

    The theorems: a thread that is not interrupted turns a batch into results that every client
    with the same model can apply, unless a pass fails or an encoded update cannot be viewed
    as compression asks.  Two ways in which it does not do what it means to: the
    look-ahead of a cancelled training stays in the parameters, and gradients accumulated in
    32 bits are not averaged over data-parallel ranks. *)

From stdpp Require Import base tactics numbers gmap list.
From Stdlib Require Import SpecFloat.
From S2P Require Import Prelude CoreTypes CoordinatorState Float Float32 Float64 StableSort Divisors Compress Distro DistroThms Batches Schedules.

Open Scope Z_scope.

Class Network (T : Torch) (O : Ops T) := {
  loss : Type;
  loss_is_finite : loss → bool;
  loss_add : loss → loss → loss;
  (** [loss.try_into().unwrap_or(0.)]. *)
  loss_value : loss → f32;
  (** [model.forward] with the labels and the scale of the loss: the loss, if the model has
      one, and the variables after it; [None] when it panics. *)
  forward : list Var → MicroBatch → Matrix → f64 → option (option loss * list Var);
  (** [loss.backward]: the gradients with the loss's added; [None] when it panics. *)
  backward : loss → list Var → option (list Var);
  clip_grad_norm : f32 → list Var → list Var;
  adamw_step : f64 → list Var → list Var;
  Float : vkind;
}.

(** [Optimizer]; the state of AdamW is the library's. *)
Inductive Optimizer `{T : Torch} :=
| OptTorch (clip : option f32)
| OptDistro (optimizer : Distro) (clip : option f32) (quantize_1bit : bool)
| OptNull.

Section Trainer.
Context `{Network}.

(** ** Gradients accumulated in 32 bits *)

(** The slices of the buffer, one for every parameter. *)
Definition Accumulator : Type := list tensor.
Definition accumulator_new (vars : list Var) : Accumulator := (λ v, zeros (size (v_tensor v)) Float) <$> vars.
Definition accumulate_var {E} (accum : Accumulator) (i : nat) (v : Var) : res E (tensor * Var) :=
  slice ← index accum i;
  grad ← unwrap (v_grad v);
  slice ← unwrap (add slice (to_kind Float grad));
  Ok (slice, zero_grad v).
Definition accumulate_gradients {E} (accum : Accumulator) (vars : list Var) : res E (Accumulator * list Var) :=
  out ← enumerated (accumulate_var accum) vars;
  Ok (out.*1, out.*2).
Definition apply_accumulation_var {E} (accum : Accumulator) (i : nat) (v : Var) : res E Var :=
  slice ← index accum i;
  grad ← unwrap (v_grad v);
  grad ← unwrap (copy_ grad (to_kind (kind (v_tensor v)) slice));
  Ok (mkVar (v_tensor v) (Some grad)).
Definition apply_accumulation {E} (accum : Accumulator) (vars : list Var) : res E (list Var) :=
  enumerated (apply_accumulation_var accum) vars.
Definition accumulator_zero (accum : Accumulator) : Accumulator := zeros_of <$> accum.

(** ** A training thread *)

Record Thread := mkThread {
  variables : list Var;
  optimizer : Optimizer;
  grad_accum : option Accumulator;
  nonce : Z;
  can_do_inference : bool;
}.
Record Settings := mkSettings {
  rank : Z;
  micro_batch_size : Z;
  lr_scheduler : LearningRateSchedule;
  grad_accum_in_fp32 : bool;
}.
(** What the thread meets on its way. *)
Record Weather := mkWeather {
  (** [cancel_training.is_cancelled()] before a micro batch. *)
  cancelled_before : nat → bool;
  (** [barrier.wait()] of a micro batch, and the two around clipping. *)
  barrier_ok : nat → bool;
  clip_barriers : bool * bool;
  (** The mean of a tensor over the data-parallel ranks, if there are such. *)
  all_reduce : option (tensor → tensor);
}.

Record TrainResult := mkTrainResult {
  r_loss : f32;
  r_nonce : Z;
  r_cancelled : bool;
  r_distro_results : option (list DistroResult);
}.

(** [LocalTrainer::forward_backward], after [barrier.wait()]: nothing when another thread
    cancelled the barrier, an error when the model has no loss. *)
Definition forward_backward (waited : bool) (vars : list Var) (b : MicroBatch) (loss_scale : f64) : res () (option (loss * list Var)) :=
  let labels := labels_of b in
  if negb waited then Ok None
  else
    '(l, vars) ← unwrap (forward vars b labels loss_scale);
    match l with
    | None => Err ()
    | Some l => vars ← unwrap (backward l vars); Ok (Some (l, vars))
    end.

(** The loop over the micro batches: whether it was cancelled, and the state after it.
    [None] when the thread gives up. *)
Fixpoint micro_loop {E} (w : Weather) (divisor : f64) (i : nat) (bs : list MicroBatch) (vars : list Var) (accum : option Accumulator) (l : option loss) :
    res E (option (bool * list Var * option Accumulator * option loss)) :=
  match bs with
  | [] => Ok (Some (false, vars, accum, l))
  | b :: rest =>
      if cancelled_before w i then Ok (Some (true, vars, accum, l))
      else
        match forward_backward (barrier_ok w i) vars b divisor with
        | Ok None => Ok (Some (true, vars, accum, l))
        | Err _ => Ok None
        | Panic => Panic
        | Ok (Some (batch_loss, vars)) =>
            let l := if loss_is_finite batch_loss then Some (match l with Some l => loss_add l batch_loss | None => batch_loss end) else l in
            '(accum, vars) ← match accum with
                             | Some a => '(a, vs) ← accumulate_gradients a vars; Ok (Some a, vs)
                             | None => Ok (None, vars)
                             end;
            micro_loop w divisor (S i) rest vars accum l
        end
  end.

(** Gradients reduced over the data-parallel ranks. *)
Definition reduce_var (mean : tensor → tensor) (v : Var) : Var :=
  mkVar (v_tensor v) ((λ g, to_kind (kind g) (mean (to_kind Float g))) <$> v_grad v).
Definition reduce (w : Weather) (vars : list Var) (accum : option Accumulator) : list Var * option Accumulator :=
  match all_reduce w with
  | None => (vars, accum)
  | Some mean =>
      match accum with
      | Some a => (vars, Some (mean <$> a))
      | None => (reduce_var mean <$> vars, None)
      end
  end.

(** The optimiser before the passes: [None] when the thread gives up. *)
Definition before_passes {E} (zero : bool) (prev : option (list (list DistroResult))) (prev_lr : f64) (o : Optimizer) (vars : list Var) :
    res E (option (Optimizer * list Var)) :=
  match o with
  | OptTorch _ | OptNull => Ok (Some (o, vars))
  | OptDistro d clip q =>
      let d := if zero then zero_optim d else d in
      match prev with
      | Some _ => vs ← error_correction d vars prev_lr; Ok (Some (OptDistro d clip q, vs))
      | None => Ok None
      end
  end.

(** The results of the passes, if they were not cancelled. *)
Definition after_passes {E} (w : Weather) (s : Settings) (prev : option (list (list DistroResult))) (prev_lr lr : f64) (cancelled : bool) (o : Optimizer) (vars : list Var) :
    res E (Optimizer * list Var * bool * option (list DistroResult)) :=
  if cancelled then Ok (o, vars, true, None)
  else
    match o with
    | OptTorch _ | OptNull => Ok (o, vars, false, None)
    | OptDistro d clip q =>
        let '(clipped, vars) :=
          match clip with
          | None => (true, vars)
          | Some norm =>
              if fst (clip_barriers w)
              then (snd (clip_barriers w), if f32_ltb f32_zero norm then clip_grad_norm norm vars else vars)
              else (false, vars)
          end in
        if clipped then
          '(d, vars, ret) ← generate d vars (default [] prev) prev_lr lr;
          Ok (OptDistro d clip q, vars, false, if rank s =? 0 then Some ret else None)
        else Ok (o, vars, true, None)
    end.

Context `{Cosine}.

(** [ParallelAssignment::Train]. *)
Definition train {E} (w : Weather) (s : Settings) (data : BatchData) (step : Z) (warmup : option (Z * Z)) (zero : bool)
    (prev : option (list (list DistroResult))) (t : Thread) : res E (option TrainResult * Thread) :=
  steps ← grad_accum_steps (batch_size data) (micro_batch_size s);
  let accum :=
    match grad_accum t with
    | Some a => Some a
    | None => if grad_accum_in_fp32 s && negb (steps =? 1) then Some (accumulator_new (variables t)) else None
    end in
  bs ← micro_batches (micro_batch_size s) data;
  let accum := accumulator_zero <$> accum in
  lr ← trainer_get_lr (lr_scheduler s) step warmup;
  prev_lr ← trainer_get_lr (lr_scheduler s) (if step =? 0 then 0 else step - 1) warmup;
  let vars := zero_grad <$> variables t in
  started ← before_passes zero prev prev_lr (optimizer t) vars;
  match started with
  | None => Ok (None, t)
  | Some (o, vars) =>
      looped ← micro_loop w (f64_of_Z steps) 0 bs vars accum None;
      match looped with
      | None => Ok (None, t)
      | Some (cancelled, vars, accum, l) =>
          vars ← match accum with Some a => apply_accumulation a vars | None => Ok vars end;
          let '(vars, accum) := reduce w vars accum in
          '(o, vars, cancelled, results) ← after_passes w s prev prev_lr lr cancelled o vars;
          Ok (Some (mkTrainResult (match l with Some l => loss_value l | None => f32_zero end) (nonce t) cancelled results),
              mkThread vars o accum (as_u32 (nonce t + 1)) true)
      end
  end.

(** [optimize_step], of [ParallelAssignment::Optimize]: [None] when the thread ends. *)
Definition optimize_step {E} (w : Weather) (s : Settings) (step : Z) (warmup : option (Z * Z)) (results : option (list (list DistroResult))) (t : Thread) :
    res E (option Thread) :=
  lr ← trainer_get_lr (lr_scheduler s) step warmup;
  let with_vars vs := mkThread vs (optimizer t) (grad_accum t) (nonce t) (can_do_inference t) in
  match optimizer t with
  | OptTorch clip =>
      let '(go, vars) :=
        match clip with
        | None => (true, variables t)
        | Some norm =>
            (fst (clip_barriers w) && snd (clip_barriers w),
             if f32_ltb f32_zero norm then clip_grad_norm norm (variables t) else variables t)
        end in
      Ok (if go then Some (with_vars (zero_grad <$> adamw_step lr vars)) else None)
  | OptDistro d _ _ =>
      match results with
      | None => Ok None
      | Some [] => Ok (Some t)
      | Some rs =>
          if fst (clip_barriers w) then
            vs ← apply d (variables t) rs lr;
            Ok (if snd (clip_barriers w) then Some (with_vars vs) else None)
          else Ok None
      end
  | OptNull => Ok (Some t)
  end.
End Trainer.

(** ** Several threads *)

(** [LocalTrainer::train] after its threads have answered. *)
Record TrainOutput `{T : Torch} := mkTrainOutput {
  out_loss : f32;
  out_nonce : Z;
  out_cancelled : bool;
  out_distro_results : option (list DistroResult);
}.
Definition merge_result `{T : Torch} (o : TrainOutput) (r : TrainResult) : TrainOutput :=
  let '(results, nonce) :=
    match out_distro_results o with
    | None => (r_distro_results r, r_nonce r)
    | Some rs => (Some rs, out_nonce o)
    end in
  mkTrainOutput _ (f32_add (out_loss o) (r_loss r)) nonce (r_cancelled r) results.
Definition collect_results `{T : Torch} (rs : list TrainResult) : TrainOutput :=
  let o := foldl merge_result (mkTrainOutput _ f32_zero 0 false None) rs in
  mkTrainOutput _ (f32_div (out_loss o) (f32_of_Z (zlen rs))) (out_nonce o) (out_cancelled o) (out_distro_results o).

(** ** What training yields *)

(** A variable of the same size and kind with a gradient of the same size and kind. *)
Definition regraded `{Torch} (v v' : Var) : Prop :=
  size (v_tensor v') = size (v_tensor v) ∧ kind (v_tensor v') = kind (v_tensor v) ∧
  ∀ g, v_grad v = Some g → ∃ g', v_grad v' = Some g' ∧ size g' = size g ∧ kind g' = kind g.

(** What is assumed of passes that succeed; nothing is of those that fail. *)
Class NetworkLaws {T : Torch} {O : Ops T} (N : Network T O) : Prop := {
  forward_law : ∀ vars b l k x vars', forward vars b l k = Some (x, vars') → Forall2 regraded vars vars';
  (** A gradient has its variable's size and kind. *)
  backward_law : ∀ x vars vars', backward x vars = Some vars' → Forall2 regraded vars vars';
  clip_law : ∀ n vars, Forall2 regraded vars (clip_grad_norm n vars);
  cast_law : ∀ k x, size (to_kind k x) = size x ∧ kind (to_kind k x) = k;
  float_law : is_floating Float = true;
}.

Section Thms.
Context {T : Torch} {L : TorchLaws T} {O : Ops T} {OL : OpsLaws O} {N : Network T O} {NL : NetworkLaws N} {C : Cosine} {CL : CosineLaws C}.
Variable chunk : Z.
Implicit Types (σs : list (list Z * vkind)).

Lemma regraded_ok σ v v' : var_ok σ v → regraded v v' → var_ok σ v'.
Proof. intros (Hs & Hk & g & Hg & Hsg & Hkg) (Hts & Htk & Hr). destruct (Hr g Hg) as (g' & Hg' & Hsg' & Hkg'). split_and!; [congruence|congruence|]. exists g'. split_and!; [done|congruence|congruence]. Qed.
Lemma regraded_all σs vars vars' : Forall2 var_ok σs vars → Forall2 regraded vars vars' → Forall2 var_ok σs vars'.
Proof.
  intros Hv. revert vars'. induction Hv as [|σ v σs vars Hv _ IH]; intros vars' Hr; inversion Hr; subst; constructor; [by eapply regraded_ok|auto].
Qed.
Lemma zeroed_ok σs vars : Forall2 var_ok σs vars → Forall2 var_ok σs (zero_grad <$> vars).
Proof. intros Hv. apply Forall2_fmap_r. eapply Forall2_impl; [exact Hv|]. intros σ v. apply zeroed_var_ok. Qed.

(** The slices of an accumulator have the sizes of the variables and 32 bits. *)
Definition accum_ok σs (a : Accumulator) : Prop := Forall2 (λ σ x, size x = σ.1 ∧ kind x = Float) σs a.

Lemma accumulator_new_ok σs vars : Forall2 var_ok σs vars → accum_ok σs (accumulator_new vars).
Proof.
  intros Hv. apply Forall2_fmap_r. eapply Forall2_impl; [exact Hv|]. intros σ v (Hs & _). rewrite <- Hs. destruct (size_elems (v_tensor v)) as [Hpos _].
  by destruct (zeros_law (size (v_tensor v)) Float Hpos) as (? & _ & _ & ?).
Qed.
Lemma accumulator_zero_ok σs a : accum_ok σs a → accum_ok σs (accumulator_zero a).
Proof. intros Ha. apply Forall2_fmap_r. eapply Forall2_impl; [exact Ha|]. intros σ x [<- <-]. by destruct (zeros_of_size x) as (? & ? & _). Qed.

Lemma accumulate_run {E} σs a vars : Forall2 var_ok σs vars → accum_ok σs a →
  ∃ a' vars', accumulate_gradients (E := E) a vars = Ok (a', vars') ∧ accum_ok σs a' ∧ Forall2 var_ok σs vars'.
Proof.
  intros Hv Ha. unfold accumulate_gradients.
  destruct (enumerated_run (accumulate_var (E := E) a) (λ i o, ∀ σ, σs !! i = Some σ → (size o.1 = σ.1 ∧ kind o.1 = Float) ∧ var_ok σ o.2) vars) as (out & -> & Hlen & Hout).
  { intros j v Hj. destruct (Forall2_lookup_r _ _ _ _ _ Hv Hj) as (σ & Hσ & Hok). pose proof Hok as (Hs & Hk & g & Hg & Hsg & Hkg). destruct (Forall2_lookup_l _ _ _ _ _ Ha Hσ) as (x & Hx & Hsx & Hkx). unfold accumulate_var, index. rewrite Hx, Hg. cbn [unwrap mbind res_bind].
    destruct (cast_law Float g) as [Hcs Hck]. destruct (add_like x (to_kind Float g)) as (z & -> & Hsz & Hkz & _); [rewrite Hkx; apply float_law|congruence..|]. cbn [unwrap mbind res_bind]. eexists. split; [done|]. intros σ' Hσ'. rewrite Hσ in Hσ'. injection Hσ' as <-. cbn. split; [split; congruence|]. by apply zeroed_var_ok. }
  pose proof (Forall2_length _ _ _ Hv). cbn [mbind res_bind]. do 2 eexists. split; [done|]. split; (apply Forall2_fmap_r, lookup_both; [lia|]); intros j σ o Hσ Ho; by apply (Hout j o Ho σ Hσ).
Qed.
Lemma apply_accumulation_run {E} σs a vars : Forall2 var_ok σs vars → accum_ok σs a →
  ∃ vars', apply_accumulation (E := E) a vars = Ok vars' ∧ Forall2 var_ok σs vars'.
Proof.
  intros Hv Ha. destruct (enumerated_run (apply_accumulation_var (E := E) a) (λ i o, ∀ σ, σs !! i = Some σ → var_ok σ o) vars) as (out & Hrun & Hlen & Hout).
  { intros j v Hj. destruct (Forall2_lookup_r _ _ _ _ _ Hv Hj) as (σ & Hσ & Hs & Hk & g & Hg & Hsg & Hkg). destruct (Forall2_lookup_l _ _ _ _ _ Ha Hσ) as (x & Hx & Hsx & Hkx). unfold apply_accumulation_var, index. rewrite Hx, Hg. cbn [unwrap mbind res_bind].
    destruct (cast_law (kind (v_tensor v)) x) as [Hcs _]. destruct (copy_like g (to_kind (kind (v_tensor v)) x)) as (z & -> & Hsz & Hkz & _); [congruence|]. cbn [unwrap mbind res_bind]. eexists. split; [done|]. intros σ' Hσ'. rewrite Hσ in Hσ'. injection Hσ' as <-.
    split_and!; cbn; [done|done|]. exists z. split_and!; [done|congruence|congruence]. }
  pose proof (Forall2_length _ _ _ Hv). exists out. split; [exact Hrun|]. apply lookup_both; [lia|]. intros j σ o Hσ Ho. by apply (Hout j o Ho σ Hσ).
Qed.

(** Nothing interrupts the thread; the means over ranks keep sizes and kinds. *)
Record calm (w : Weather) : Prop := {
  calm_cancel : ∀ i, cancelled_before w i = false;
  calm_barrier : ∀ i, barrier_ok w i = true;
  calm_clip : clip_barriers w = (true, true);
  calm_mean : ∀ mean x, all_reduce w = Some mean → size (mean x) = size x ∧ kind (mean x) = kind x;
}.

(** A pass over one of the micro batches that ends in a given way. *)
Definition passes_end σs (k : f64) (bs : list MicroBatch) (r : res () (option (loss * list Var))) : Prop :=
  ∃ b vars, b ∈ bs ∧ Forall2 var_ok σs vars ∧ forward_backward true vars b k = r.

Lemma forward_backward_run σs vars b k : Forall2 var_ok σs vars →
  (∃ x vars', forward_backward true vars b k = Ok (Some (x, vars')) ∧ Forall2 var_ok σs vars') ∨
  forward_backward true vars b k = Err () ∨ forward_backward true vars b k = Panic.
Proof.
  intros Hv. unfold forward_backward. cbn [negb]. destruct (forward vars b (labels_of b) k) as [[[x|] vars1]|] eqn:Hf; cbn [unwrap mbind res_bind]; [|by right; left|by right; right].
  destruct (backward x vars1) as [vars2|] eqn:Hb; cbn [unwrap mbind res_bind]; [left|by right; right]. exists x, vars2. split; [done|].
  eapply regraded_all; [|by eapply backward_law]. eapply regraded_all; [exact Hv|by eapply forward_law].
Qed.

Lemma micro_loop_run {E} σs w k bs : calm w → ∀ i vars accum l, Forall2 var_ok σs vars → (∀ a, accum = Some a → accum_ok σs a) →
  (∃ vars' accum' l', micro_loop (E := E) w k i bs vars accum l = Ok (Some (false, vars', accum', l')) ∧ Forall2 var_ok σs vars' ∧
     ∀ a, accum' = Some a → accum_ok σs a) ∨
  (micro_loop (E := E) w k i bs vars accum l = Ok None ∧ passes_end σs k bs (Err ())) ∨
  (micro_loop (E := E) w k i bs vars accum l = Panic ∧ passes_end σs k bs Panic).
Proof.
  intros Hw. induction bs as [|b bs IH]; intros i vars accum l Hv Ha; cbn [micro_loop]; [left; by exists vars, accum, l|].
  rewrite (calm_cancel w Hw), (calm_barrier w Hw).
  assert (Hnow : ∀ r, forward_backward true vars b k = r → passes_end σs k (b :: bs) r) by (intros r Hr; exists b, vars; split_and!; [left|done|done]).
  destruct (forward_backward_run σs vars b k Hv) as [(x & vars1 & Hfb & Hv1)|[Hfb|Hfb]]; rewrite Hfb; [|right; left; split; [done|by apply Hnow]|right; right; split; [done|by apply Hnow]].
  assert (Hlater : ∀ r, passes_end σs k bs r → passes_end σs k (b :: bs) r) by (intros r (b' & vs & Hin & ?); exists b', vs; split; [by right|done]).
  assert (∃ accum2 vars2, match accum with Some a => '(a, vs) ← accumulate_gradients (E := E) a vars1; Ok (Some a, vs) | None => Ok (None, vars1) end = Ok (accum2, vars2) ∧
    Forall2 var_ok σs vars2 ∧ ∀ a, accum2 = Some a → accum_ok σs a) as (accum2 & vars2 & -> & Hv2 & Ha2).
  { destruct accum as [a|]; [|by exists None, vars1]. destruct (accumulate_run (E := E) σs a vars1 Hv1 (Ha a eq_refl)) as (a' & vars2 & -> & Ha' & Hv2). exists (Some a'), vars2. split_and!; [done|done|]. by intros ? [= <-]. }
  cbn [mbind res_bind]. destruct (IH (S i) vars2 accum2 (if loss_is_finite x then Some (match l with Some l => loss_add l x | None => x end) else l) Hv2 Ha2) as [?|[[? ?]|[? ?]]]; [by left|right; left; auto|right; right; auto].
Qed.

Lemma reduce_run σs w vars accum : calm w → Forall2 var_ok σs vars → (∀ a, accum = Some a → accum_ok σs a) →
  let '(vars', accum') := reduce w vars accum in Forall2 var_ok σs vars' ∧ ∀ a, accum' = Some a → accum_ok σs a.
Proof.
  intros Hw Hv Ha. unfold reduce. destruct (all_reduce w) as [mean|] eqn:Hm; [|done]. destruct accum as [a|].
  - split; [done|]. intros ? [= <-]. apply Forall2_fmap_r. eapply Forall2_impl; [by apply Ha|]. intros σ x [<- <-]. by apply (calm_mean w Hw mean x Hm).
  - split; [|done]. apply Forall2_fmap_r. eapply Forall2_impl; [exact Hv|]. intros σ v (Hs & Hk & g & Hg & Hsg & Hkg). unfold reduce_var. split_and!; cbn; [done|done|]. rewrite Hg. eexists. split; [done|].
    destruct (cast_law (kind g) (mean (to_kind Float g))) as [-> ->]. destruct (calm_mean w Hw mean (to_kind Float g) Hm) as [-> _]. by destruct (cast_law Float g) as [-> _].
Qed.

(** A thread with a DisTrO optimiser whose parts fit together. *)
Definition trains σs (t : Thread) : Prop := ∃ d clip q, optimizer t = OptDistro d clip q ∧ ready chunk σs d (variables t) ∧
  ∀ a, grad_accum t = Some a → accum_ok σs a.

Lemma ready_with σs d vars vars' : ready chunk σs d vars → Forall2 var_ok σs vars' → ready chunk σs d vars'.
Proof. by intros [_ ? ?] ?. Qed.

Lemma after_passes_run {E} σs w s prev prev_lr lr d clip q vars : calm w → ready chunk σs d vars → Forall (results_fit chunk σs) prev →
  (∃ d' vars' ret, after_passes (E := E) w s (Some prev) prev_lr lr false (OptDistro d clip q) vars =
     Ok (OptDistro d' clip q, vars', false, if rank s =? 0 then Some ret else None) ∧ ready chunk σs d' vars' ∧ results_fit chunk σs ret) ∨
  (after_passes (E := E) w s (Some prev) prev_lr lr false (OptDistro d clip q) vars = Panic ∧ unmergeable_update (E := E) σs d).
Proof.
  intros Hw Hr Hprev. unfold after_passes. rewrite (calm_clip w Hw). cbn [fst snd].
  set (vs := match clip with None => _ | Some _ => _ end). assert (Hvs : ∃ vs', vs = (true, vs') ∧ Forall2 var_ok σs vs').
  { subst vs. destruct clip as [norm|]; [|exists vars; by split; [|apply Hr]]. eexists. split; [done|]. destruct (f32_ltb f32_zero norm); [|apply Hr]. eapply regraded_all; [apply Hr|apply clip_law]. }
  destruct Hvs as (vs' & -> & Hvs). cbn match. change (default [] (Some prev)) with prev.
  destruct (generate_run chunk (E := E) σs d vs' prev prev_lr lr) as [(d' & vars' & ret & -> & ? & ? & _)|[-> ?]]; [by eapply ready_with|done| |by right].
  left. by exists d', vars', ret.
Qed.


(** The results of the clients can be applied: a thread whose barriers hold stays
    trainable. *)
Theorem optimizing_keeps_the_model {E} σs w s step warmup results t : trains σs t → calm w →
  sensible_schedule (lr_scheduler s) → 0 <= step < 2 ^ 32 → Forall (results_fit chunk σs) results →
  ∃ t', optimize_step (E := E) w s step warmup (Some results) t = Ok (Some t') ∧ trains σs t'.
Proof.
  intros (d & clip & q & Hopt & Hr & Hacc) Hw Hsched Hstep Hfit. unfold optimize_step, trainer_get_lr. destruct (schedule_bounded (E := E) (lr_scheduler s) step Hsched Hstep) as (x & -> & _). cbn [mbind res_bind].
  rewrite Hopt. destruct results as [|r results]; [exists t; split; [done|]; by exists d, clip, q|]. rewrite (calm_clip w Hw). cbn [fst snd].
  set (lr := f64_mul x _). destruct (apply_run chunk (E := E) σs d (variables t) (r :: results) lr Hr Hfit) as (vs & -> & Hr').
  cbn [mbind res_bind]. eexists. split; [done|]. exists d, clip, q. by split_and!.
Qed.
End Thms.

(** ** What goes wrong *)

Section Failures.
Context {T : Torch} {O : Ops T} {N : Network T O} {C : Cosine}.

Lemma micro_batches_steps {E} m data bs : micro_batches (E := E) m data = Ok bs → ∃ k, grad_accum_steps (E := E) (batch_size data) m = Ok k.
Proof. unfold micro_batches. destruct (grad_accum_steps _ _) as [k| |]; [by eexists|done..]. Qed.

(** The look-ahead by the sign of the last update, which generating the results takes
    back, stays in the parameters when training is cancelled; the next training looks ahead
    once more. *)
Theorem cancelled_training_keeps_lookahead {E} w s data step warmup prev t d clip q b bs lr prev_lr corrected :
  optimizer t = OptDistro d clip q → grad_accum t = None → grad_accum_in_fp32 s = false → all_reduce w = None → cancelled_before w 0 = true →
  micro_batches (E := E) (micro_batch_size s) data = Ok (b :: bs) → trainer_get_lr (E := E) (lr_scheduler s) step warmup = Ok lr →
  trainer_get_lr (E := E) (lr_scheduler s) (if step =? 0 then 0 else step - 1) warmup = Ok prev_lr →
  error_correction (E := E) d (zero_grad <$> variables t) prev_lr = Ok corrected →
  ∃ r t', train (E := E) w s data step warmup false (Some prev) t = Ok (Some r, t') ∧ r_cancelled r = true ∧ r_distro_results r = None ∧
    variables t' = corrected ∧ optimizer t' = optimizer t.
Proof.
  intros Hopt Hacc Hfp Hred Hcancel Hbs Hlr Hprev Hcorr. destruct (micro_batches_steps _ _ _ Hbs) as [k Hk]. unfold train. rewrite Hk. cbn [mbind res_bind].
  rewrite Hacc, Hfp. cbn [andb]. rewrite Hbs. cbn [mbind res_bind]. rewrite Hlr. cbn [mbind res_bind]. rewrite Hprev. cbn [mbind res_bind]. unfold before_passes. rewrite Hopt, Hcorr. cbn [mbind res_bind micro_loop fmap option_fmap option_map].
  rewrite Hcancel. cbn [mbind res_bind]. unfold reduce. rewrite Hred. cbn [mbind res_bind after_passes]. do 2 eexists. by split_and!.
Qed.

Lemma micro_loop_keeps_accum {E} w k bs : ∀ i vars a l c vars' accum' l',
  micro_loop (E := E) w k i bs vars (Some a) l = Ok (Some (c, vars', accum', l')) → ∃ a', accum' = Some a'.
Proof.
  induction bs as [|b bs IH]; intros i vars a l c vars' accum' l'; cbn [micro_loop]; [intros [= _ _ <- _]; by eexists|].
  destruct (cancelled_before w i); [intros [= _ _ <- _]; by eexists|]. destruct (forward_backward _ _ _ _) as [[[x vs]|]| |]; [|intros [= _ _ <- _]; by eexists|done..]. destruct (accumulate_gradients a vs) as [[a' vs']| |]; [|done..]. cbn [mbind res_bind]. apply IH.
Qed.

(** The passes do not depend on the other ranks. *)
Lemma micro_loop_alone {E} cancels barriers clips m1 m2 k bs : ∀ i vars accum l,
  micro_loop (E := E) (mkWeather cancels barriers clips m1) k i bs vars accum l = micro_loop (mkWeather cancels barriers clips m2) k i bs vars accum l.
Proof.
  induction bs as [|b bs IH]; intros i vars accum l; cbn [micro_loop cancelled_before barrier_ok]; [done|]. destruct (cancels i); [done|].
  destruct (forward_backward _ _ _ _) as [[[x vs]|]| |]; [|done..]. destruct accum as [a|]; [|apply IH]. destruct (accumulate_gradients a vs) as [[a' vs']| |]; [|done..]. apply IH.
Qed.

(** With gradients accumulated in 32 bits a thread's results, variables and optimiser are
    the same whatever the other data-parallel ranks computed: what is averaged is not used. *)
Theorem fp32_gradients_are_not_averaged {E} cancels barriers clips mean s data step warmup zero prev t a r t1 : grad_accum t = Some a →
  train (E := E) (mkWeather cancels barriers clips (Some mean)) s data step warmup zero prev t = Ok (r, t1) →
  ∃ t0, train (E := E) (mkWeather cancels barriers clips None) s data step warmup zero prev t = Ok (r, t0) ∧
    variables t0 = variables t1 ∧ optimizer t0 = optimizer t1.
Proof.
  intros Hacc. unfold train. destruct (grad_accum_steps _ _) as [k| |]; [|done..]. cbn [mbind res_bind]. rewrite Hacc. cbn [fmap option_fmap option_map].
  destruct (micro_batches _ data) as [bs| |]; [|done..]. cbn [mbind res_bind]. destruct (trainer_get_lr _ step _) as [lr| |]; [|done..]. cbn [mbind res_bind].
  destruct (trainer_get_lr _ (if step =? 0 then 0 else step - 1) _) as [prev_lr| |]; [|done..]. cbn [mbind res_bind].
  destruct (before_passes _ _ _ _ _) as [[[o vars]|]| |]; [|intros [= <- <-]; by exists t|done..]. cbn [mbind res_bind].
  rewrite (micro_loop_alone (E := E) cancels barriers clips (Some mean) None).
  destruct (micro_loop _ _ _ _ _ _ _) as [[[[[c vs] accum] l]|]| |] eqn:Hloop; [|intros [= <- <-]; by exists t|done..]. cbn [mbind res_bind].
  apply micro_loop_keeps_accum in Hloop as [a' ->]. destruct (apply_accumulation a' vs) as [vs'| |]; [|done..]. cbn [mbind res_bind reduce all_reduce].
  change (after_passes (E := E) (mkWeather cancels barriers clips (Some mean))) with (after_passes (E := E) (mkWeather cancels barriers clips None)).
  destruct (after_passes _ _ _ _ _ _ _ _) as [[[[o' vs''] c'] res']| |]; [|done..]. cbn [mbind res_bind]. intros [= <- <-]. eexists. by split_and!.
Qed.

(** Of several threads the first one's results and their number are reported. *)
Lemma first_thread_speaks (r0 : TrainResult) ret rs : r_distro_results r0 = Some ret →
  out_distro_results (collect_results (r0 :: rs)) = Some ret ∧ out_nonce (collect_results (r0 :: rs)) = r_nonce r0.
Proof.
  intros Hr0. unfold collect_results. cbn [out_distro_results out_nonce foldl].
  assert (Hgo : ∀ (l : list TrainResult) (o : TrainOutput), out_distro_results o = Some ret → out_nonce o = r_nonce r0 →
    out_distro_results (foldl merge_result o l) = Some ret ∧ out_nonce (foldl merge_result o l) = r_nonce r0).
  { induction l as [|r l IH]; intros o Ho Hn; cbn [foldl]; [done|]. apply IH; unfold merge_result; by rewrite Ho. }
  apply Hgo; unfold merge_result; cbn; by rewrite ?Hr0.
Qed.
End Failures.

(** ** A small thread *)

Import SmallModel.
Module SmallThread.
(** A model with a vocabulary of a hundred tokens. *)
Definition vocabulary (b : MicroBatch) : bool := forallb (forallb (λ t, t <? 100)) (m_rows b.1.1.1).
#[export] Instance network : Network Small.torch ops := Build_Network Small.torch ops Z (λ _, true) Z.add f32_of_Z
  (λ vars b _ _, if vocabulary b then Some (Some (zlen (m_rows b.1.1.1)), vars) else None) (λ _ vars, Some vars) (λ _ vars, vars) (λ _ vars, vars) tt.
Lemma small_network_laws : NetworkLaws network.
Proof.
  assert (Hrefl : ∀ vars : list (@Var Small.torch), Forall2 regraded vars vars) by (intros vars; apply Forall_Forall2_diag, list.Forall_forall; intros v _; split_and!; [done|done|by eauto]).
  split; [|by intros x vars vars' [= <-]|intros; apply Hrefl|by intros [] x|done]. intros vars b l k x vars'. cbn. destruct (vocabulary b); [|done]. intros [= _ <-]. apply Hrefl.
Qed.
Definition thread : Thread := mkThread made.2 (OptDistro made.1 None false) None 0 false.
Definition settings : Settings := mkSettings 0 4 FlatCosine.schedule false.
Definition weather : @Weather Small.torch := @mkWeather Small.torch (λ _, false) (λ _, true) (true, true) None.
Definition storm : @Weather Small.torch := @mkWeather Small.torch (λ _, true) (λ _, true) (true, true) None.
Lemma calm_weather : calm weather.
Proof. by split. Qed.
Lemma thread_trains : trains 3 specs thread.
Proof. exists made.1, None, false. split; [reflexivity|]. split; [exact made_ready|discriminate]. Qed.
Lemma schedule_sensible : sensible_schedule FlatCosine.schedule.
Proof.
  split; [|split; [|vm_compute; reflexivity]].
  - cbn [FlatCosine.schedule rates cos_base_lr cos_warmup_init_lr cos_final_lr]. repeat apply Forall_cons_2; [apply ratio_bounded; lia|left; by eexists|apply ratio_bounded; lia|apply Forall_nil_2].
  - repeat apply Forall_cons_2; [done|done|apply Forall_nil_2].
Qed.
End SmallThread.
Import SmallThread FlatCosine.


Lemma optimizing_keeps_the_model_witness : ∃ t', optimize_step (E := ()) weather settings 7 None (Some []) thread = Ok (Some t') ∧ trains 3 specs t'.
Proof.
  assert (Hs : sensible_schedule (lr_scheduler settings)) by exact schedule_sensible.
  assert (H7 : 0 <= 7 < 2 ^ 32) by (split; [discriminate|reflexivity]).
  destruct (@optimizing_keeps_the_model Small.torch Small.small_torch_laws ops DistroThms.SmallModel.small_ops_laws network cosine FlatCosine.flat_cosine_laws 3 () specs weather settings 7 None [] thread thread_trains calm_weather Hs H7 (Forall_nil_2 _)) as (t' & Ht & Htr).
  exists t'. exact (conj Ht Htr).
Defined.

(** A thread told to stop before its first micro batch. *)
Lemma cancelled_training_keeps_lookahead_witness : ∃ r t', train (E := ()) storm settings (CPU SmallBatch.nine) 7 None false (Some []) thread = Ok (Some r, t') ∧
  r_cancelled r = true ∧ r_distro_results r = None.
Proof.
  destruct (micro_batches (E := ()) 4 (CPU SmallBatch.nine)) as [[|b bs]|e|] eqn:Hb; [vm_compute in Hb; discriminate| |vm_compute in Hb; discriminate..].
  destruct (trainer_get_lr (E := ()) FlatCosine.schedule 7 None) as [lr|e|] eqn:H7; [|discriminate..]. destruct (trainer_get_lr (E := ()) FlatCosine.schedule 6 None) as [prev_lr|e|] eqn:H6; [|discriminate..].
  destruct (@error_correction_run Small.torch ops DistroThms.SmallModel.small_ops_laws 3 () specs made.1 (zero_grad <$> made.2) prev_lr) as (corrected & Hc & _); [exact (ready_with 3 specs _ _ _ made_ready (@zeroed_ok Small.torch Small.small_torch_laws specs _ (ready_vars _ _ _ _ made_ready)))|].
  destruct (@cancelled_training_keeps_lookahead Small.torch ops network cosine () storm settings (CPU SmallBatch.nine) 7 None [] thread made.1 None false b bs lr prev_lr corrected eq_refl eq_refl eq_refl eq_refl eq_refl Hb H7 H6 Hc) as (r & t' & Hr & Hca & Hd & _).
  exists r, t'. exact (conj Hr (conj Hca Hd)).
Defined.
