(* ===== verification/Redact.v ===== *)
(** * Keeping keys out of what is printed

    src/architectures/decentralized/solana-tooling/src/redact.rs: an RPC URL is printed
    without its userinfo, path and query, and a message that quotes the URL of a run is
    scrubbed of it before it is printed.

    A string is the list of its characters; its length in bytes is that of their encoding in
    UTF-8.  The global cell with the guarded URL is passed along. *)

From stdpp Require Import base tactics numbers sets list.
From S2P Require Import Prelude.

Open Scope Z_scope.

Module Redact.

Notation str := (list Z) (only parsing).

(** The string functions of the standard library that the code calls. *)
Definition len_utf8 (c : Z) : Z := if c <? 128 then 1 else if c <? 2048 then 2 else if c <? 65536 then 3 else 4.
Definition str_len (s : str) : Z := foldr (λ c n, len_utf8 c + n) 0 s.

Fixpoint strip_prefix (pat s : str) : option str :=
  match pat, s with
  | [], _ => Some s
  | p :: pat', c :: s' => if p =? c then strip_prefix pat' s' else None
  | _ :: _, [] => None
  end.

Fixpoint split_once (pat s : str) : option (str * str) :=
  match strip_prefix pat s with
  | Some rest => Some ([], rest)
  | None => match s with
            | [] => None
            | c :: s' => (λ p : str * str, (c :: p.1, p.2)) <$> split_once pat s'
            end
  end.

Fixpoint rsplit_once (d : Z) (s : str) : option (str * str) :=
  match s with
  | [] => None
  | c :: s' => match rsplit_once d s' with
               | Some (before, after) => Some (c :: before, after)
               | None => if c =? d then Some ([], s') else None
               end
  end.

(** What comes before the first character that satisfies [p], and what comes from it on. *)
Fixpoint cut_at (p : Z → bool) (s : str) : str * str :=
  match s with
  | [] => ([], [])
  | c :: s' => if p c then ([], s) else let '(a, b) := cut_at p s' in (c :: a, b)
  end.

Fixpoint trim_start_matches (d : Z) (s : str) : str :=
  match s with c :: s' => if c =? d then trim_start_matches d s' else s | [] => [] end.

(** [replace]: matches from the left that do not overlap; an empty pattern matches around
    every character. *)
Fixpoint replace_from (skip : nat) (pat to s : str) : str :=
  match s with
  | [] => []
  | c :: s' =>
      match skip with
      | S k => replace_from k pat to s'
      | O => match strip_prefix pat s with
             | Some _ => to ++ replace_from (length pat - 1) pat to s'
             | None => c :: replace_from 0 pat to s'
             end
      end
  end.
Definition replace (s pat to : str) : str :=
  match pat with [] => to ++ (s ≫= λ c, c :: to) | _ => replace_from 0 pat to s end.

(** ['/'], ['?'], ['#'], ['@'], ['*'], and ["://"], ["***"], ["/***"]. *)
Definition SLASH : Z := 47.
Definition QUESTION : Z := 63.
Definition HASH : Z := 35.
Definition AT : Z := 64.
Definition STAR : Z := 42.
Definition SEP : str := [58; 47; 47].
Definition STARS : str := [STAR; STAR; STAR].
Definition ends_authority (c : Z) : bool := (c =? SLASH) || (c =? QUESTION) || (c =? HASH).

Definition redact_rpc_url (url : str) : str :=
  let '(prefix, rest) := match split_once SEP url with
                         | Some (scheme, rest) => (scheme ++ SEP, rest)
                         | None => ([], url)
                         end in
  let '(authority, remainder) := cut_at ends_authority rest in
  let '(host, had_userinfo) := match rsplit_once AT authority with
                               | Some (_, host) => (host, true)
                               | None => (authority, false)
                               end in
  let hidden := had_userinfo || negb (bool_decide (remainder = []) || bool_decide (remainder = [SLASH])) in
  if hidden then prefix ++ host ++ SLASH :: STARS else prefix ++ host.

Definition credentials (url : str) : list str :=
  let rest := match split_once SEP url with Some (_, rest) => rest | None => url end in
  let '(authority, remainder) := cut_at ends_authority rest in
  let userinfo := match rsplit_once AT authority with Some (userinfo, _) => [userinfo] | None => [] end in
  let tail := trim_start_matches SLASH remainder in
  filter (λ part, 8 <= str_len part) (userinfo ++ [tail]).

Definition scrub (text url : str) : str :=
  let out := replace text url (redact_rpc_url url) in
  foldl (λ out secret, replace out secret STARS) out (credentials url).

(** [GUARDED_URL] is set once; the panic hook is installed when it is. *)
Definition guard_rpc_url (url : str) (guarded : option str) : option str :=
  if bool_decide (url = []) then guarded
  else match guarded with Some _ => guarded | None => Some url end.

Definition scrub_rpc_url (text : str) (guarded : option str) : str :=
  match guarded with Some url => scrub text url | None => text end.

(** What a panic prints: the default hook prints the message itself (none for a payload that
    is not a string), the installed one the scrubbed message when it differs. *)
Definition panic_hook (message : option str) (guarded : option str) : option str :=
  match guarded, message with
  | None, _ => message
  | Some _, None => None
  | Some _, Some m => let scrubbed := scrub_rpc_url m guarded in
                      if bool_decide (scrubbed = m) then Some m else Some scrubbed
  end.

(** ** Strings *)

Definition occurs (u s : str) : Prop := ∃ a b, s = a ++ u ++ b.

Lemma strip_prefix_some pat s rest : strip_prefix pat s = Some rest ↔ s = pat ++ rest.
Proof.
  revert s. induction pat as [|p pat IH]; intros [|c s]; simpl; try naive_solver.
  destruct (Z.eqb_spec p c) as [->|]; [rewrite IH|]; naive_solver.
Qed.

Lemma stripped_app pat rest : strip_prefix pat (pat ++ rest) = Some rest.
Proof. by apply strip_prefix_some. Qed.

(** A string and what replacing makes of it. *)
Inductive replaced (pat to : str) : str → str → Prop :=
| replaced_nil : replaced pat to [] []
| replaced_hit s out : replaced pat to s out → replaced pat to (pat ++ s) (to ++ out)
| replaced_miss c s out : strip_prefix pat (c :: s) = None → replaced pat to s out → replaced pat to (c :: s) (c :: out).

Lemma replace_skip pat to a s : replace_from (length a) pat to (a ++ s) = replace_from 0 pat to s.
Proof. induction a; [done|]. simpl. done. Qed.

Lemma replace_spec s pat to : pat ≠ [] → replaced pat to s (replace s pat to).
Proof.
  intros Hp. assert (Hr : replace s pat to = replace_from 0 pat to s) by by destruct pat. rewrite Hr; clear Hr.
  remember (length s) as n eqn:Hn. revert s Hn. induction n as [n IH] using lt_wf_ind; intros s ->.
  destruct s as [|c s]; [constructor|]. simpl.
  destruct (strip_prefix pat (c :: s)) as [rest|] eqn:Hs.
  - apply strip_prefix_some in Hs. destruct pat as [|p pat]; [done|]. simplify_eq/=.
    rewrite Nat.sub_0_r, replace_skip. apply (replaced_hit (p :: pat)). apply (IH (length rest)); [|done]. rewrite length_app. lia.
  - constructor; [done|]. apply (IH (length s)); simpl; [lia|done].
Qed.

Section starless.
Context (u : str) (Hu : STAR ∉ u).

Lemma starless_prefix pat s out v b : replaced pat STARS s out → STAR ∉ v → out = v ++ b → ∃ b', s = v ++ b'.
Proof.
  intros H. revert v b. induction H as [|s out H IH|c s out Hs H IH]; intros v b Hv Hout.
  - destruct v; [by eexists|done].
  - destruct v; [by eexists|]. simplify_eq/=. set_solver.
  - destruct v as [|c' v]; [by eexists|]. simplify_eq/=. destruct (IH v b) as [b' ->]; [set_solver|done|]. by eexists.
Qed.

(** Where a string without stars occurs in the outcome it occurred before, and it was not
    what is replaced. *)
Lemma starless_kept pat s out : u ≠ [] → replaced pat STARS s out → occurs u out → occurs u s ∧ u ≠ pat.
Proof.
  intros Hne. induction 1 as [|s out H IH|c s out Hs H IH]; intros (a & b & Hout).
  - destruct a, u; simplify_eq/=.
  - destruct u as [|x u'] eqn:Eu; [done|].
    destruct a as [|? [|? [|? a]]]; simplify_eq/=; try set_solver.
    destruct IH as [(a' & b' & ->) Hn]; [by exists a, b|]. split; [exists (pat ++ a'), b'; by rewrite <- !(assoc (++))|done].
  - destruct a as [|c' a]; simplify_eq/=.
    + destruct (starless_prefix pat (c :: s) (c :: out) u b) as [b' Hb]; [by constructor|done|done|].
      split; [by exists [], b'|]. intros ->. rewrite Hb, stripped_app in Hs. done.
    + destruct IH as [(a' & b' & ->) Hn]; [by exists a, b|]. split; [by exists (c' :: a'), b'|done].
Qed.

Lemma scrubbed_away secrets out : Forall (λ p, p ≠ []) secrets → u ≠ [] →
  occurs u (foldl (λ out secret, replace out secret STARS) out secrets) → occurs u out ∧ u ∉ secrets.
Proof.
  intros Hs Hne. revert out. induction Hs as [|p secrets Hp Hs IH]; intros out H; simpl in *; [split; [done|set_solver]|].
  destruct (IH _ H) as [H1 Hn]. destruct (starless_kept p out (replace out p STARS)) as [? ?]; [done|by apply replace_spec|done|].
  split; [done|]. set_solver.
Qed.
End starless.

Lemma replaced_same pat s out : replaced pat pat s out → out = s.
Proof. by induction 1; subst. Qed.

Lemma replaced_absent pat to s out : replaced pat to s out → ¬ occurs pat s → out = s.
Proof.
  induction 1 as [|s out H IH|c s out Hs H IH]; intros Hn; [done|..].
  - destruct Hn. by exists [], s.
  - f_equal. apply IH. intros (a & b & ->). destruct Hn. by exists (c :: a), b.
Qed.

Lemma credentials_long url : Forall (λ p, p ≠ []) (credentials url).
Proof.
  unfold credentials. destruct (cut_at _ _). apply list.Forall_forall. intros p [Hp _]%list_elem_of_filter ->. done.
Qed.

(** ** Parts of a URL *)

Definition COLON : Z := 58.
Definition within_authority (s : str) : Prop := Forall (λ c, ends_authority c = false) s.
Definition after_authority (s : str) : Prop := match s with [] => True | c :: _ => ends_authority c = true end.

Lemma split_scheme scheme rest : COLON ∉ scheme → split_once SEP (scheme ++ SEP ++ rest) = Some (scheme, rest).
Proof.
  induction scheme as [|c scheme IH]; intros H; [done|].
  assert (c ≠ COLON ∧ COLON ∉ scheme) as [Hc Hs] by set_solver.
  change ((c :: scheme) ++ SEP ++ rest) with (c :: (scheme ++ SEP ++ rest)).
  cbn [split_once strip_prefix SEP]. rewrite (proj2 (Z.eqb_neq 58 c)) by (unfold COLON in *; congruence).
  fold SEP. by rewrite IH.
Qed.

Lemma cut_authority a b : within_authority a → after_authority b → cut_at ends_authority (a ++ b) = (a, b).
Proof.
  intros Ha Hb. induction Ha as [|c a Hc Ha IH]; simpl.
  - destruct b as [|c b]; [done|]. simpl in *. by rewrite Hb.
  - by rewrite Hc, IH.
Qed.

Lemma rsplit_none d s : d ∉ s → rsplit_once d s = None.
Proof.
  induction s as [|c s IH]; intros H; [done|]. simpl. rewrite IH by set_solver.
  by rewrite (proj2 (Z.eqb_neq c d)) by set_solver.
Qed.

Lemma rsplit_some d a b : d ∉ b → rsplit_once d (a ++ d :: b) = Some (a, b).
Proof.
  intros H. induction a as [|c a IH]; simpl; [|by rewrite IH]. by rewrite rsplit_none, Z.eqb_refl.
Qed.

(** ** What is printed *)

(** Of a URL only the scheme and the host are shown, whatever its userinfo, path and query
    are; whether something is hidden is shown too, a bare slash not counting. *)
Theorem only_scheme_and_host_are_shown scheme userinfo host tail :
  COLON ∉ scheme → within_authority userinfo → within_authority host → AT ∉ host → after_authority tail →
  redact_rpc_url (scheme ++ SEP ++ userinfo ++ AT :: host ++ tail) = scheme ++ SEP ++ host ++ SLASH :: STARS ∧
  redact_rpc_url (scheme ++ SEP ++ host ++ tail) =
    scheme ++ SEP ++ host ++ (if decide (tail = [] ∨ tail = [SLASH]) then [] else SLASH :: STARS).
Proof.
  intros Hc Hu Hh Hat Ht. unfold redact_rpc_url. rewrite !split_scheme by done. split.
  - replace (userinfo ++ AT :: host ++ tail) with ((userinfo ++ AT :: host) ++ tail) by by rewrite <- (assoc (++)).
    rewrite cut_authority, rsplit_some by (done || (apply list.Forall_app; split; [done|by constructor])).
    simpl. by rewrite <- (assoc (++)).
  - rewrite cut_authority, rsplit_none by done. simpl. rewrite <- !(assoc (++)).
    destruct (decide (tail = [] ∨ tail = [SLASH])) as [[-> | ->]|Hn]; [by rewrite (right_id_L [] (++))..|].
    rewrite !bool_decide_eq_false_2 by tauto. done.
Qed.

(** Once a URL is guarded, no panic message and no error that is printed contains its
    userinfo or what follows its host, if those are at least eight bytes long and have no
    star, whatever the message quotes and whatever is guarded later. *)
Theorem guarded_keys_are_not_printed url part later : url ≠ [] → part ∈ credentials url → STAR ∉ part →
  let guarded := foldl (λ g u, guard_rpc_url u g) (guard_rpc_url url None) later in
  (∀ text, ¬ occurs part (scrub_rpc_url text guarded)) ∧
  (∀ message out, panic_hook message guarded = Some out → ¬ occurs part out).
Proof.
  intros Hne Hp Hs. cbv zeta.
  assert (Hg : foldl (λ g u, guard_rpc_url u g) (guard_rpc_url url None) later = Some url).
  { unfold guard_rpc_url at 2. rewrite bool_decide_eq_false_2 by done.
    induction later as [|u later IH]; [done|]. simpl. unfold guard_rpc_url at 2. by case_bool_decide. }
  rewrite Hg.
  assert (Hscrub : ∀ text, ¬ occurs part (scrub_rpc_url text (Some url))).
  { intros text H. simpl in H. unfold scrub in H.
    pose proof (credentials_long url) as Hl. pose proof (proj1 (list.Forall_forall _ _) Hl part Hp) as Hpne.
    by destruct (scrubbed_away part Hs _ _ Hl Hpne H). }
  split; [done|]. intros [m|] out; [|done]. unfold panic_hook. case_bool_decide as Hm; intros [= <-]; [|apply Hscrub].
  rewrite <- Hm. apply Hscrub.
Qed.

(** A text that quotes neither the URL nor a part that may be a key is left as it is, and so
    is every text when the URL is a scheme and a host only. *)
Theorem other_texts_are_left text url : url ≠ [] →
  (¬ occurs url text → (∀ p, p ∈ credentials url → ¬ occurs p text) → scrub text url = text) ∧
  (∀ scheme host, COLON ∉ scheme → within_authority host → AT ∉ host → url = scheme ++ SEP ++ host → scrub text url = text).
Proof.
  intros Hne. assert (Hfold : ∀ secrets, Forall (λ p, p ≠ []) secrets → (∀ p, p ∈ secrets → ¬ occurs p text) →
    foldl (λ out secret, replace out secret STARS) text secrets = text).
  { induction 1 as [|p secrets Hp Hs IH]; intros Hn; [done|]. simpl.
    rewrite (replaced_absent p STARS text (replace text p STARS)); [|by apply replace_spec|apply Hn; set_solver].
    apply IH. set_solver. }
  split.
  - intros Hu Hc. unfold scrub. rewrite (replaced_absent url (redact_rpc_url url) text (replace text url (redact_rpc_url url))) by (done || by apply replace_spec).
    apply Hfold; [apply credentials_long|done].
  - intros scheme host Hc Hh Hat ->. unfold scrub.
    assert (Hr : redact_rpc_url (scheme ++ SEP ++ host) = scheme ++ SEP ++ host).
    { unfold redact_rpc_url. rewrite split_scheme by done. rewrite <- (right_id_L [] (++) host) at 1.
      rewrite cut_authority, rsplit_none by done. simpl. by rewrite <- (assoc (++)). }
    rewrite Hr, (replaced_same (scheme ++ SEP ++ host) text (replace text _ _)) by (by apply replace_spec).
    apply Hfold; [apply credentials_long|].
    assert (Hk : credentials (scheme ++ SEP ++ host) = []).
    { unfold credentials. rewrite split_scheme by done. rewrite <- (right_id_L [] (++) host) at 1.
      by rewrite cut_authority, rsplit_none by done. }
    rewrite Hk. set_solver.
Qed.

(** ["ab://user:secret@h/?key=12345"] and a message that quotes part of it. *)
Definition sample_url : str := [97; 98] ++ SEP ++ [117; 115; 101; 114; 58; 115; 101; 99; 114; 101; 116] ++ AT :: [104] ++ [47; 63; 107; 101; 121; 61; 49; 50; 51; 52; 53].

Lemma only_scheme_and_host_are_shown_witness :
  redact_rpc_url sample_url = [97; 98] ++ SEP ++ [104] ++ SLASH :: STARS ∧ credentials sample_url = [[117; 115; 101; 114; 58; 115; 101; 99; 114; 101; 116]; [63; 107; 101; 121; 61; 49; 50; 51; 52; 53]].
Proof.
  split; [|vm_compute; reflexivity].
  apply (only_scheme_and_host_are_shown [97; 98] [117; 115; 101; 114; 58; 115; 101; 99; 114; 101; 116] [104] [47; 63; 107; 101; 121; 61; 49; 50; 51; 52; 53]); try (by repeat constructor); set_solver.
Defined.

Lemma guarded_keys_are_not_printed_witness :
  let part := [63; 107; 101; 121; 61; 49; 50; 51; 52; 53] in
  let guarded := foldl (λ g u, guard_rpc_url u g) (guard_rpc_url sample_url None) [[]; [1]] in
  scrub_rpc_url (104 :: 47 :: part ++ [33]) guarded = [104; 47; 42; 42; 42; 33] ∧ ¬ occurs part (scrub_rpc_url (104 :: part) guarded).
Proof.
  split; [vm_compute; reflexivity|].
  apply (guarded_keys_are_not_printed sample_url [63; 107; 101; 121; 61; 49; 50; 51; 52; 53] [[]; [1]]).
  - done.
  - vm_compute. apply list_elem_of_further, list_elem_of_here.
  - vm_compute. set_solver.
Defined.

Lemma other_texts_are_left_witness : scrub [1; 97; 98; 58; 47; 47; 104; 2] ([97; 98] ++ SEP ++ [104]) = [1; 97; 98; 58; 47; 47; 104; 2].
Proof.
  destruct (other_texts_are_left [1; 97; 98; 58; 47; 47; 104; 2] ([97; 98] ++ SEP ++ [104])) as [_ H]; [done|].
  apply (H [97; 98] [104]); try (by repeat constructor); set_solver.
Defined.

End Redact.
